(* ===== verification/_CoqProject ===== *)
-Q . S2P
Prelude.v
Float64.v
FloatExact.v
Market.v
EnergyAuction.v
AuctionTheorems.v
EnergyHub.v
RelayTheorems.v
Sha256.v
Lineage.v
LineageStore.v
LineageTheorems.v
PhaseTypes.v
Compose.v
ComposeTheorems.v
Runner.v
RunnerInvariant.v
RunnerTheorems.v
Defaults.v
PipelineSpec.v
Collecting.v
BoundCheck.v
Transport.v
Service.v
Artifacts.v
LogStream.v
Onion.v
Anon.v
Voting.v
Base64.v
HelperClient.v
HelperServer.v
HelperPhases.v
SealedBid.v
RideShare.v
CohortRanking.v
AuthClient.v
Pool.v
Calibration.v
PoolCircuit.v
BoundedAdmission.v
Bfv.v
Profiles.v
CgoCore.v
CgoKeys.v
CgoCombine.v
CgoEval.v
CgoFuse.v
CgoTheorems.v
CgoBridge.v
CgoLazy.v
CgoValues.v
ServiceTriggers.v
SessionServices.v
ServedSessions.v
ShuffleRelay.v
AdmissionService.v
GoPath.v
ZipMembers.v
SwiftManifest.v
ReleaseBundle.v
