(* ===== verification/Prelude.v ===== *)
(** * ARES energy demo: a verification library

    The repository is a Go implementation of ARES, a framework for multi-party
    sessions over encrypted data, with the applications built on it.  This
    library translates its core into executable definitions and proves what
    makes it correct.

    ** The program and how its parts interact

    - An application describes a session as a pipeline of _phases_
      ([src/pkg/ares/phase]).  [Compose] checks the pipeline (names, states,
      connectivity, what each phase requires and provides) and returns a
      _session runner_, which begins sessions, dispatches each message to the
      session's current phase, and cascades through phases that complete.
    - [ComposeWith] adds _lineage_ ([src/pkg/ares/lineage], [sign]): every
      message carries a signed node of a Merkle DAG, verified before the
      dispatch, and every phase commits its outputs as nodes.
    - The _transport_ ([src/pkg/ares/transport]) serves a runner: a WebSocket
      hub authenticates clients and filters their frames, the service hands
      them to the runner, and an artifact store, an event ring, a log stream
      and admin endpoints surround it.
    - The framework ships default phases, key-generation variants, the bound
      check and an anonymous-submission round over onion routing
      ([phase/defaults], [phase/keygen], [phase/boundcheck], [phase/anon],
      [onion]).
    - Encryption happens outside the coordinator: phases call a _helper
      client_ ([src/pkg/ares/crypto/helperclient]), which sends JSON requests to a _helper
      daemon_ ([src/cmd/openfhe-contract-helper]) that calls the _bindings_ of
      the encryption library ([src/pkg/ares/crypto/cgo]): Go functions that
      allocate the library's C objects, call it and free them again.  A
      _calibration_ sweep ([src/pkg/ares/crypto/fhecalib]) chooses the
      encryption parameters.
    - The _example applications_ ([src/examples]) are pipelines over these
      parts: sealed-bid auction, voting, ride share, recurring cohort ranking
      and bounded admission.  Each is served by a _session service_
      ([cmd/session-service]) that builds the pipeline from its environment,
      starts sessions on an admin's POST through a trigger of its own and, for
      voting and admission, sends frames from a hook after every dispatch.
      [src/pkg/ares/pool] clears a market on bucketed
      curves, in plaintext and as a circuit on ciphertexts, and
      [src/pkg/ares/authclient] issues the credentials that are exchanged for
      the tokens of the hub.
    - The _energy auction_ ([src/examples/energy_auction]) is a program of its
      own: a blind relay over a state machine for sealed-bid rounds under
      threshold keys, with key-chain audits.

    - The _release gate_ ([src/internal/releasebundle],
      [src/cmd/release-artifact-gate]) checks a staged bundle of native
      artifacts against a checkout before a release.

    ** Files, in dependency order

    - [Prelude]: record update, 64-bit integers, bytes, hex, Go's map
      iteration and string sorting, list windows, the hint database [ares] and
      shared tactics.
    - [Float64]: Go's [float64] as binary64 specification floats, with its
      conversions; [FloatExact]: integers below 2^53 are computed exactly.
    - [Market]: market.go, prices, photovoltaic and load shapes, price bands.
    - [EnergyAuction], [AuctionTheorems]: auction.go.  [Auction] is the struct,
      one definition per method; [auction_ok] is the invariant, [reachable] the
      states the methods reach.
    - [EnergyHub], [RelayTheorems]: main.go, the hub with its message handler
      and socket life cycle as a state-and-output monad, and its refinement of
      the auction.
    - [Sha256]: SHA-256 and HMAC as functions on bytes.
    - [Lineage], [LineageStore], [LineageTheorems]: node.go, commit.go,
      verify.go, store.go, inmemory.go and sign/.  [Store] and [StoreLaws] are
      the interface the runner is proved against; [InMemoryStore] discharges
      it by refinement of an append-only log.
    - [PhaseTypes]: types.go, phase.go, context.go, errors.go, accumulator.go,
      hooks.go.  A phase's hooks are programs ([Prog]) over the session's
      context, the clock and the lineage store.
    - [Compose], [ComposeTheorems]: options.go, compose_with.go and the
      composition half of runner.go.
    - [Runner], [RunnerInvariant], [RunnerTheorems]: the session half of
      runner.go and runner_lineage.go.  Methods run in [E], a state and error
      monad that also carries panics.
    - [Defaults]: defaults/ and keygen/.  [BoundCheck]: boundcheck/.
    - [PipelineSpec]: an abstract session, a position in a list of phases, and
      the runner's refinement of it.  [Collecting]: the phases that collect a
      quorum of messages, as the applications use them.
    - [Transport]: hub.go, validate.go, rate_limit.go, auth.go.  [Service]:
      service.go, events.go, trigger.go and the session endpoints of admin.go.
      [Artifacts]: artifacts.go and its endpoints.  [LogStream]: log_stream.go.
      [AuthClient]: the credential authority and its token endpoints.
    - [Onion]: onion/, the slot permutation, envelopes and onions.  [Anon]:
      phase/anon, participants and the shuffle and verification phases.
    - [Base64]: the encoding of ciphertexts on the helper's wire.
      [HelperClient]: the requests, key-generation chain and scoring calls of
      the client; [HelperServer]: the daemon's dispatch and turn, and the two
      composed.  [HelperPhases]: the hooks that drive the helper from a phase.
    - [Voting], [SealedBid], [RideShare], [CohortRanking], [BoundedAdmission]:
      the example applications.  [Pool]: bucketed clearing;
      [PoolCircuit]: circuit_openfhe.go, the circuit over an evaluation handle
      and the decoding of its outputs, over floats and over rationals by
      one class of operations.  [Calibration]: the depth sweep.  [Bfv]: integer
      encodings and ring sizes.  [Profiles]: profiles.go and the encoders of
      the two BFV examples under its profiles.
    - [CgoCore]: what the bindings run on.  A [cstate] holds the library's own
      state, the heap of live objects with their kinds and the faults met so
      far; [G] is a state and error monad with calls of the library, [cfree]
      and Go's [defer].  A function's ownership is a triple [spec]: it borrows
      some objects, consumes others, owns what it returns, and frees all else
      on every path, errors included.
    - [CgoKeys]: contexts, serialization, key generation and the rounds of the
      evaluation keys (bridge.go).  [CgoCombine]: shares by index
      (incremental_combine.go, bonly_keygen.go, streamed_keygen.go,
      resident_combine.go, minimal_rotation_keys.go), with the cache of shared
      halves as a transformer of the monad.  [CgoEval]: encryption, evaluation,
      threshold decryption and the operations for one key (bridge.go).
      [CgoFuse]: the fused scorers, comparator unions and their workers
      (bridge.go).
    - [CgoTheorems]: the calls a client can make ([exported]) and the balance
      of any sequence of them.  [CgoBridge]: the bindings as an instance of the
      daemon's [Bridge], and the helper composed with them.  [CgoLazy]:
      validation of shares, worker unions, sizes.  [CgoValues]: the library's
      objects with values, the joint key as a function of the shares' values,
      and the combinations that compute it.
    - [ServiceTriggers]: the triggers of the session services, with
      [LawfulTrigger], what [Service] asks of a trigger, as instances.
      [SessionServices]: what the five [main]s build, the onion relay and the
      challenge hook.  [ServedSessions]: a service against [PipelineSpec], from
      a POST through delivered frames.  [ShuffleRelay]: the relay and its
      peelers in dialogue.  [AdmissionService]: the challenges over whole runs.
    - [GoPath]: Go's string and path functions on byte sequences.
      [ZipMembers]: zipmembers.go, applexcframework.go, androidaar.go.
      [SwiftManifest]: swiftmanifest.go, its scanner and regular expressions.
      [ReleaseBundle]: types.go, assemble.go, appledeploymenttarget.go,
      verify.go and the command line, over a [System] of files, git, otool,
      archives and JSON; [evidence] is what a release must show.

    ** What the theorems show

    - Auction: every reachable state keeps the roster, sealing and key-chain
      invariants ([auction_invariant]); bids complete a round exactly when all
      seats have sealed for the current keys; superseded keys are refused; the
      state machine never branches on ciphertext bytes ([relay_blind]); the key
      chain visits each party once; price bands are ordered for every hour.
    - Relay: every run of the hub is a run of the auction
      ([relay_refines_auction]), and every frame goes only where the routing
      rules send it ([relay_routing]).
    - Lineage: a hash binds content and pins the whole ancestry, up to an
      explicit SHA-256 collision; commits verify; rejections name a wrong
      field; wire forms round-trip; the store refines a log.
    - Composition and runner: [Compose] accepts exactly the pipelines of its
      rule, all documented ones among them and others whose constraints only
      print alike ([Compose_spec]); tracked sessions always sit in a phase of the pipeline or are
      finished; cascades end below both hop limits when the last phase leaves
      the pipeline; the runner refines a session that is a position in its list
      of phases ([runner_refines_pipeline]); verification precedes dispatch
      ([lineage_gate]) and the store stays a parent-closed DAG, whatever the
      hooks do.
    - Transport: frames are never replayed, come from authenticated senders,
      and the service's runner is always a run of the runner, so the runner's
      invariants hold live; artifacts return by content hash unless someone
      uploads other bytes under their content key ([artifact_content]); the log ring is a
      window on the log; the event framing round-trips.  A credential is
      accepted until it expires and yields a token the hub accepts
      ([credential_lifecycle]); its signature binds its claims
      ([signature_binds_claims]).
    - Phases: key topologies cannot be mixed; quorums count distinct senders;
      bound-check verdicts blame exactly the violators.
    - Helper: on finite numbers and arguments that are not empty, a call
      through the client, the wire and the daemon is the call of the encryption
      library ([helper_transparent], [keygen_chain_transparent]), but that a
      fused value which is not finite ends the daemon ([fuse_partials_outcome]);
      sign sharpening keeps the order.
    - Bindings, where no object serializes to 2 GiB: any sequence of calls that
      respects what the code leaves to its callers, failing or not, leaves
      exactly the library objects that were there before, with no double free,
      no use after a free and no address of an empty slice
      ([bindings_balanced]); so the daemon on the bindings leaks nothing for
      requests whose slot counts fit a C int ([helper_leaks_nothing]), and a
      key generation through client, wire, daemon and bindings is the chain of
      direct calls ([keygen_over_bindings]).  Every combination of eval-sum
      shares, at hand or loaded lazily, whole or split, returns the joint key of
      their values ([lazy_is_eager]); shares by index are accepted exactly when
      they form a table ([shares_validated]), a union of comparators does not
      depend on its workers as long as there is one ([union_any_workers]), and
      the loop that sizes a context ends exactly for dimensions that are at most
      2^31 modulo 2^32 ([context_size]).
    - Applications, through the real runner: a vote is decided by the tally
      ([election_decides]), a sealed-bid session settles on the helper's price
      ([auction_settles]), admission accepts exactly the parties within bounds
      ([admission_outcome]).
    - Session services, from any state they reach: an auction goes from its
      POST to its settlement ([auction_served]), the voting service carries the
      onions along the peel chain and nowhere else ([shuffle_relayed]), and,
      with frames handled one at a time, the admission service sends a
      session's challenges at most once ([challenge_once]).
    - Pool: clearing floats equals clearing the integer curves, ratios included
      ([clearing_exact]), and the circuit on ciphertexts whose operations err by
      a bounded amount, decrypted and decoded, gives the bucket and price of the
      clearing in plaintext and its volumes up to a multiple of that error
      ([circuit_clears]).  Calibration: the sweep ends at the first decisive
      depth and calibration always returns ([sweep_outcome]), within the
      security table's modulus budget ([calibration_within_budget]).
    - Release gate: [Assemble] succeeds exactly on evidence and [Verify] accepts
      exactly what assembling gives ([gate_exact]); accepted archives unpack
      without escape or collision ([zip_names_safe]); comments in the Swift
      manifest are inert, nested ones included ([comments_inert]).
    - Anonymous submission: the slot permutation is one, drawn without bias;
      the peel chain opens every onion, lets each peeler find its own item and
      delivers exactly the payloads; honest submissions assemble into the full
      slot list in order.
    - Some theorems state behaviour the code does not intend: shared seats
      after a departure ([seat_collision_stalls]), the winner's seat in a
      broadcast ([offer_reveals_winner]), the crash on a message for a finished
      session ([finished_session_crashes]), a cohort formation that never
      finishes ([formation_never_finishes]), a weekly ranking that settles on a
      stub although it has a helper ([weekly_settles_stub]), two readers of one contract that
      disagree ([ride_contract_readers]), claims that can be shifted across
      a separator under one signature ([credential_forgery]), ciphertexts that
      are never freed when an encryption fails ([soft_argmin_leaks]), and a
      string that passes for the binding of the bridge
      ([bridge_evidence_in_string]).  Others have such behaviour as a part: a
      settlement that never names the winner ([auction_served]), constraints
      that are compared as text ([Compose_spec]), a missing node that is refused
      without the failure callback ([lineage_gate]), uploads that spoil a
      content key ([artifact_content]), loops on a 32-bit counter that never end
      ([context_size], [sweep_outcome]) and a union without a worker
      ([union_any_workers]).

    ** Bounds, fuel and parameters

    Loops of the source are structural recursions wherever they range over
    data.  The advance and walk cascades carry the source's own limit, the
    number of phases plus one, as fuel, and running out of it is the source's
    hop-limit error; [cascade_bounded] shows that it is not reached.  SHA-256
    takes its number of blocks as fuel from the padded length.  The calibration
    sweep has one unit per depth and one more, and [sweep_outcome] shows the
    sweep returns with it; the doubling of a ring dimension has 32, the width
    of the type.  In the bindings [next_pow2] has 34 rounds on a 32-bit
    counter, which is 0 after 33 and stays 0, [chunk_size] 66 and [doublings]
    65, above the width of theirs; running out is [None], the source's loop not
    ending, and a function that meets it records the fault [Diverges].  The
    scanner of the Swift manifest has the length of the text plus one, which is
    always enough ([scan_ends]).  Rejection sampling in [SlotPermutation] has no
    bound in the source; it takes one as fuel, and a result does not depend on
    it.  Integers wrap at 64 bits where the source computes with them.

    The C++ wrapper of the encryption library is in the repository
    ([src/pkg/ares/crypto/cgo/openfhe_wrapper.cpp]) and is not translated: it is a
    parameter, [CLib], the answer of every call.  What its callers rely on is
    read off it, function by function, and stated as laws: [CLibLaws] on the
    outputs it sets, the memory it hands out and the counts it leaves,
    [ChunkLaws] on the lengths it reports, and [KeyLaws] on the contents of
    keys.  [SmallObjects], that no object serializes to 2 GiB, is no law of it
    but a condition of the theorems that name it: a large enough set of
    rotation keys breaks it, and then [C.GoBytes] is given a wrapped length.

    Parameters stand for what is outside the repository: [math.Sin], Ed25519
    (with [SignerCorrect]), X25519, HKDF and AES-GCM (with [CiphersLaws]), the calls of the daemon where it is studied on its own
    ([Bridge], with [BridgeLaws], which [CgoBridge] discharges from the
    bindings), a handle that computes on encrypted slots up to an error
    ([CKKSHandle]), the order in
    which workers finish ([Workers]), that of maps keyed by integers
    ([IntRange]), the release gate's [System], JSON codecs ([FormJSON],
    [VoteJSON], [CredJSON], [BatchJSON], [ChallengeJSON], and those of envelopes
    and partial maps), the start of the helper process, the signing key of the
    voting service, the handle and fuse of an admission ([SessionCrypto]), Go's
    formatting and out-of-range conversions ([GoFmt], [GoConv]), the helper's answers, the clock, and the order of map iteration
    ([GoRange], over which every theorem is universal).

    ** Not modelled

    Methods are atomic: locks and the interleaving of a method's parts are left
    out, and so are sockets, HTTP serving, timers and log output; the workers
    of a comparator union run their lanes one at a time, in any order, and so
    do the frames of a service's sockets, each with its hook.  What
    the encryption library computes is a parameter: the bindings are proved for
    every answer it may give under the laws above.  [SingleKeySoftArgmin] is modelled and is not
    among the calls of [bindings_balanced], since it leaks.  The release
    gate sees one state of the files it reads, and trims and splits ASCII white
    space only.  Of the session services the signal
    handling, the log output and the listening loop are left out; the sweep of
    expired artifacts that the loop runs is [Artifacts.Sweep].  The fixtures of
    the release tests only write files. *)

From stdpp Require Export base gmap strings list fin_maps sorting pretty.
From Stdlib Require Export Strings.Byte ZArith Lia.

#[local] Open Scope Z_scope.
#[local] Open Scope string_scope.
#[local] Open Scope list_scope.

(** ** Record update

    Go assigns one field of a struct at a time; [r <| f := v |>] is the
    record [r] with field [f] replaced by [v].  A record type opts in by an
    [Eta] instance (its own constructor applied to its projections). *)

Class Eta (R : Type) := eta : R -> R.

Class Settable {R T : Type} (proj : R -> T) := set_field : T -> R -> R.
Arguments set_field {R T} proj {_} v r : simpl nomatch.

Ltac head_of t := match t with ?f _ => head_of f | _ => t end.

Ltac mk_setter :=
  match goal with
  | |- @Settable ?R ?T ?proj =>
      let v := fresh "v" in
      let r := fresh "r" in
      intros v r;
      let e := constr:(@eta R _ r) in
      let e := eval cbv [eta] in e in
      let h := head_of e in
      let e := eval cbv beta delta [h] in e in
      lazymatch e with
      | context [proj r] =>
          let e := eval pattern (proj r) in e in
          match e with ?g _ => let t := eval cbv beta in (g v) in exact t end
      end
  end.

#[export] Hint Extern 0 (Settable _) => mk_setter : typeclass_instances.

Declare Scope go_scope.
Delimit Scope go_scope with go.
#[local] Open Scope go_scope.

Notation "r <| f := v |>" := (set_field f v r)
  (at level 12, left associativity, f at next level, v at level 200,
   format "r  <| f  :=  v |>") : go_scope.

(** ** Machine integers

    Go's [int] and [int64] are 64-bit two's complement; [wrap64] reduces a
    mathematical integer to its representative. *)

Definition wrap64 (z : Z) : Z := (z + 2 ^ 63) mod 2 ^ 64 - 2 ^ 63.

Definition in_int64 (z : Z) : Prop := - 2 ^ 63 <= z < 2 ^ 63.

Definition wrap32u (z : Z) : Z := z mod 2 ^ 32.

(** Go's [len] of a slice, string or map as an [int]. *)
Definition zlen {A} (l : list A) : Z := Z.of_nat (length l).

Definition msize {K V} `{Countable K} (m : gmap K V) : Z := Z.of_nat (size m).

Lemma wrap64_small z : in_int64 z -> wrap64 z = z.
Proof. unfold in_int64, wrap64. intros. rewrite Z.mod_small; lia. Qed.

Lemma wrap64_range z : in_int64 (wrap64 z).
Proof.
  unfold in_int64, wrap64.
  pose proof (Z.mod_pos_bound (z + 2 ^ 63) (2 ^ 64) ltac:(lia)). lia.
Qed.

Lemma wrap64_inj_lt a b : wrap64 a = wrap64 b -> Z.abs (a - b) < 2 ^ 64 -> a = b.
Proof.
  unfold wrap64. intros H Hd.
  assert (Hm : (a + 2 ^ 63) mod 2 ^ 64 = (b + 2 ^ 63) mod 2 ^ 64) by lia.
  pose proof (Z.div_mod (a + 2 ^ 63) (2 ^ 64) ltac:(lia)).
  pose proof (Z.div_mod (b + 2 ^ 63) (2 ^ 64) ltac:(lia)).
  rewrite Hm in *. nia.
Qed.

(** ** Bytes *)

Abbreviation bytes := (list byte).

#[export] Instance byte_eq_decision : EqDecision byte := Byte.byte_eq_dec.

#[export] Instance byte_countable : Countable byte.
Proof.
  refine (inj_countable Byte.to_N Byte.of_N _).
  intros x. apply Byte.of_to_N.
Defined.

(** [[]byte(s)] and [string(b)]: Go strings are byte sequences. *)
Definition bytes_of_string (s : string) : bytes := String.list_byte_of_string s.
Definition string_of_bytes (b : bytes) : string := String.string_of_list_byte b.

Lemma string_of_bytes_of_string s : string_of_bytes (bytes_of_string s) = s.
Proof. apply String.string_of_list_byte_of_string. Qed.

#[export] Instance bytes_of_string_inj : Inj (=) (=) bytes_of_string.
Proof.
  intros s1 s2 H. rewrite <- (string_of_bytes_of_string s1), H.
  apply string_of_bytes_of_string.
Qed.

Definition byte_of_Z (z : Z) : byte :=
  match Byte.of_N (Z.to_N (z mod 256)) with Some b => b | None => x00 end.

Definition Z_of_byte (b : byte) : Z := Z.of_N (Byte.to_N b).

Lemma Z_of_byte_range b : 0 <= Z_of_byte b < 256.
Proof. unfold Z_of_byte. pose proof (Byte.to_N_bounded b). lia. Qed.

Lemma Z_of_byte_of_Z z : Z_of_byte (byte_of_Z z) = z mod 256.
Proof.
  unfold Z_of_byte, byte_of_Z.
  pose proof (Z.mod_pos_bound z 256 ltac:(lia)) as Hz.
  destruct (Byte.of_N (Z.to_N (z mod 256))) as [b|] eqn:E.
  - apply Byte.to_of_N in E. lia.
  - apply Byte.of_N_None_iff in E. lia.
Qed.

Lemma byte_of_Z_of_byte b : byte_of_Z (Z_of_byte b) = b.
Proof.
  unfold byte_of_Z. rewrite Z.mod_small by apply Z_of_byte_range.
  unfold Z_of_byte. rewrite N2Z.id, Byte.of_to_N. reflexivity.
Qed.

(** [binary.BigEndian.PutUint32]: the four bytes of a 32-bit value, most
    significant first, after the conversion [uint32(n)]. *)
Definition be32 (n : Z) : bytes :=
  [byte_of_Z (n / 2 ^ 24); byte_of_Z (n / 2 ^ 16); byte_of_Z (n / 2 ^ 8); byte_of_Z n].

(** [binary.BigEndian.PutUint64]. *)
Definition be64 (n : Z) : bytes := be32 (n / 2 ^ 32) ++ be32 n.

Lemma length_be32 n : length (be32 n) = 4%nat.
Proof. reflexivity. Qed.

Lemma byte_of_Z_eq a b : byte_of_Z a = byte_of_Z b -> a mod 256 = b mod 256.
Proof. intros H. apply (f_equal Z_of_byte) in H. by rewrite !Z_of_byte_of_Z in H. Qed.

Lemma be32_inj a b :
  0 <= a < 2 ^ 32 -> 0 <= b < 2 ^ 32 -> be32 a = be32 b -> a = b.
Proof.
  intros Ha Hb H. injection H as H3 H2 H1 H0.
  apply byte_of_Z_eq in H3, H2, H1, H0.
  Z.to_euclidean_division_equations. lia.
Qed.

(** ** Hexadecimal ([encoding/hex]) *)

Definition hex_digit (n : N) : Ascii.ascii :=
  (if n <? 10 then Ascii.ascii_of_N (48 + n) else Ascii.ascii_of_N (87 + n))%N.

Definition hex_value (c : Ascii.ascii) : option N :=
  let n := Ascii.N_of_ascii c in
  (if (48 <=? n) && (n <=? 57) then Some (n - 48)
   else if (97 <=? n) && (n <=? 102) then Some (n - 87)
   else if (65 <=? n) && (n <=? 70) then Some (n - 55)
   else None)%N.

(** [hex.EncodeToString]: two lower-case digits per byte. *)
Fixpoint hex_encode (b : bytes) : string :=
  match b with
  | [] => ""
  | x :: b' =>
      String (hex_digit (Byte.to_N x / 16)) (String (hex_digit (Byte.to_N x mod 16)) (hex_encode b'))
  end.

(** [hex.DecodeString]: [None] is the error for a bad digit or an odd length. *)
Fixpoint hex_decode (s : string) : option bytes :=
  match s with
  | EmptyString => Some []
  | String _ EmptyString => None
  | String c1 (String c2 s') =>
      h ← hex_value c1; l ← hex_value c2; x ← Byte.of_N (h * 16 + l)%N;
      r ← hex_decode s'; Some (x :: r)
  end.

Lemma hex_decode_byte x :
  hex_value (hex_digit (Byte.to_N x / 16)) = Some (Byte.to_N x / 16)%N /\
  hex_value (hex_digit (Byte.to_N x mod 16)) = Some (Byte.to_N x mod 16)%N.
Proof. destruct x; split; reflexivity. Qed.

Lemma hex_decode_encode b : hex_decode (hex_encode b) = Some b.
Proof.
  induction b as [|x b IH]; simpl; [done|].
  destruct (hex_decode_byte x) as [-> ->]. simpl.
  replace (Byte.to_N x / 16 * 16 + Byte.to_N x mod 16)%N with (Byte.to_N x).
  - rewrite Byte.of_to_N. simpl. by rewrite IH.
  - pose proof (N.div_mod (Byte.to_N x) 16). lia.
Qed.

#[export] Instance hex_encode_inj : Inj (=) (=) hex_encode.
Proof.
  intros b1 b2 H. apply (f_equal hex_decode) in H.
  rewrite !hex_decode_encode in H. by simplify_eq.
Qed.

Lemma hex_encode_length b : String.length (hex_encode b) = (2 * length b)%nat.
Proof. induction b; simpl; lia. Qed.

Lemma bytes_of_string_app a b : bytes_of_string (a +:+ b) = bytes_of_string a ++ bytes_of_string b.
Proof. induction a as [|c a IH]; [done|]. by apply (f_equal (cons (Ascii.byte_of_ascii c))) in IH. Qed.

Lemma hex_encode_ascii b : Forall (fun x => 48 <= Z_of_byte x < 103) (bytes_of_string (hex_encode b)).
Proof.
  induction b as [|x b IH]; [constructor|]. unfold bytes_of_string. cbn. repeat constructor.
  1-4: by destruct x. exact IH.
Qed.

(** Decimal numerals are made of digits and a sign. *)
Lemma pretty_bytes (z : Z) : Forall (fun b => 45 <= Z_of_byte b < 58) (bytes_of_string (pretty z)).
Proof.
  assert (Hgo : forall n s, Forall (fun b => 45 <= Z_of_byte b < 58) (bytes_of_string s) ->
    Forall (fun b => 45 <= Z_of_byte b < 58) (bytes_of_string (pretty_N_go n s))).
  { intros n. induction (N.lt_wf_0 n) as [n _ IH]. intros s Hs. destruct (decide (0 < n)%N) as [Hn|Hn].
    - rewrite pretty_N_go_step by done. apply IH; [by apply N.div_lt|]. unfold bytes_of_string. cbn. constructor; [|done].
      unfold pretty_N_char. by repeat case_match.
    - replace n with 0%N by lia. by rewrite pretty_N_go_0. }
  assert (Hn : forall n : N, Forall (fun b => 45 <= Z_of_byte b < 58) (bytes_of_string (pretty n))).
  { intros n. unfold pretty, pretty_N. case_decide; [by repeat constructor|]. apply Hgo. constructor. }
  destruct z as [|p|p]; cbn; [by repeat constructor|exact (Hn (Npos p))|].
  refine (Forall_cons_2 _ _ _ _ (Hn (Npos p))). done.
Qed.

(** ** Sorted strings ([sort.Strings]) *)

Definition string_le (a b : string) : Prop := String.leb a b = true.
#[export] Instance string_le_dec : RelDecision string_le := fun a b => decide (String.leb a b = true).
Definition sort_strings (l : list string) : list string := merge_sort string_le l.

(** ** Go map iteration

    [for k, v := range m] visits every entry once, in an order the language
    leaves unspecified.  Definitions whose result can depend on that order
    take it as an instance of [GoRange]; theorems hold for every instance. *)

Class GoRange := {
  range_of : forall {V : Type}, gmap string V -> list (string * V);
  range_of_perm : forall (V : Type) (m : gmap string V), range_of m ≡ₚ map_to_list m
}.

Definition sorted_range : GoRange :=
  {| range_of := fun V m => map_to_list m; range_of_perm := fun V m => Permutation_refl _ |}.

(** The first visited entry whose value satisfies [P]. *)
Fixpoint find_value {V} (P : V -> bool) (l : list (string * V)) : option V :=
  match l with
  | [] => None
  | (_, v) :: l' => if P v then Some v else find_value P l'
  end.

Section go_range.
Context `{GoRange} {V : Type}.
Implicit Types (m : gmap string V) (P : V -> bool).

Lemma elem_of_range m k v : (k, v) ∈ range_of m <-> m !! k = Some v.
Proof. rewrite range_of_perm. apply elem_of_map_to_list. Qed.

Lemma find_value_Some P l v :
  find_value P l = Some v -> exists k, (k, v) ∈ l /\ P v = true.
Proof.
  induction l as [|[k w] l IH]; simpl; [done|].
  destruct (P w) eqn:E; intros; simplify_eq.
  - exists k. split; [left|done].
  - destruct IH as (k' & ? & ?); [done|]. exists k'. split; [by right|done].
Qed.

Lemma find_value_None P l :
  find_value P l = None <-> forall k v, (k, v) ∈ l -> P v = false.
Proof.
  induction l as [|[k w] l IH]; simpl.
  - split; [intros _ ? ? []%not_elem_of_nil|done].
  - destruct (P w) eqn:E.
    + split; [done|]. intros Hall. rewrite (Hall k w) in E; [done|left].
    + rewrite IH. split.
      * intros Hall k' v' [?|?]%elem_of_cons; simplify_eq; eauto.
      * intros Hall k' v' ?. apply (Hall k'). by right.
Qed.

Lemma find_range_Some P m v :
  find_value P (range_of m) = Some v -> exists k, m !! k = Some v /\ P v = true.
Proof.
  intros (k & Hk & ?)%find_value_Some. exists k. by rewrite <- elem_of_range.
Qed.

Lemma find_range_None P m :
  find_value P (range_of m) = None <-> forall k v, m !! k = Some v -> P v = false.
Proof. rewrite find_value_None. setoid_rewrite elem_of_range. done. Qed.
End go_range.

(** ** Lists *)

(** [append(s[:i], s[i+1:]...)] at the first index holding [x]. *)
Fixpoint remove_first {A} `{EqDecision A} (x : A) (l : list A) : list A :=
  match l with
  | [] => []
  | y :: l' => if decide (y = x) then l' else y :: remove_first x l'
  end.

Section remove_first.
Context {A} `{EqDecision A}.
Implicit Types l : list A.

Lemma remove_first_subset x y l : y ∈ remove_first x l -> y ∈ l.
Proof.
  induction l as [|z l IH]; simpl; [done|]. case_decide; [by right|].
  intros [->|?]%elem_of_cons; [left|right; auto].
Qed.

Lemma remove_first_NoDup x l : NoDup l -> NoDup (remove_first x l).
Proof.
  induction 1 as [|z l Hz ? IH]; simpl; [constructor|].
  case_decide; [done|]. constructor; [|done].
  intros ?%remove_first_subset; done.
Qed.

Lemma elem_of_remove_first x y l : NoDup l -> y ∈ remove_first x l <-> y ∈ l /\ y <> x.
Proof.
  induction 1 as [|z l Hz ? IH]; simpl; [set_solver|].
  case_decide; [set_solver|]. rewrite !elem_of_cons, IH. naive_solver.
Qed.
End remove_first.

(** ** The latest elements of a list *)

Lemma filter_all {A} (P : A -> Prop) `{forall x, Decision (P x)} (l : list A) : Forall P l -> filter P l = l.
Proof. induction 1 as [|x l Hx _ IH]; [done|]. by rewrite filter_cons_True, IH. Qed.


Definition lastN {A} (n : nat) (l : list A) : list A := drop (length l - n) l.

Section lastN.
Context {A : Type}.
Implicit Types l : list A.

Lemma lastN_short n l : (length l <= n)%nat -> lastN n l = l.
Proof. intros Hl. unfold lastN. by replace (length l - n)%nat with 0%nat by lia. Qed.

Lemma length_lastN n l : length (lastN n l) = Nat.min n (length l).
Proof. unfold lastN. rewrite length_drop. lia. Qed.

(** Appending to a full window drops its oldest element. *)
Lemma lastN_snoc n l x :
  (0 < n)%nat ->
  lastN n (l ++ [x]) = (if (n <=? length (lastN n l))%nat then tail (lastN n l) else lastN n l) ++ [x].
Proof.
  intros Hn. rewrite length_lastN. unfold lastN. rewrite length_app. cbn [length].
  destruct (Nat.leb_spec n (Nat.min n (length l))) as [Hl|Hl].
  - replace (length l + 1 - n)%nat with ((length l - n) + 1)%nat by lia.
    rewrite drop_app_le by lia. rewrite <- drop_drop. by destruct (drop (length l - n) l).
  - by replace (length l + 1 - n)%nat with 0%nat by lia; replace (length l - n)%nat with 0%nat by lia.
Qed.
End lastN.

(** ** Development-wide automation *)

Create HintDb ares.
#[export] Hint Resolve wrap64_range Z_of_byte_range remove_first_NoDup : ares.

(** Split every conditional and match of the goal, keeping equations. *)
Ltac split_matches :=
  repeat (case_match || case_decide || case_bool_decide); simplify_eq/=.

(** Case analysis on the boolean guards of a translated [if]. *)
Ltac guards :=
  repeat match goal with
  | H : context [if ?b then _ else _] |- _ => destruct b eqn:?; simplify_eq/=
  | H : context [match ?b with _ => _ end] |- _ => destruct b eqn:?; simplify_eq/=
  end.
