(* ===== verification/Float64.v ===== *)
(** * IEEE 754 binary64

    Go's [float64] as the Standard Library's specification floats at
    precision 53 and maximal exponent 1024, with the operations the sources
    use: arithmetic rounds to nearest even, comparisons are false on NaN. *)

From Stdlib Require Import SpecFloat.
From S2P Require Import Prelude.

#[local] Open Scope Z_scope.
#[local] Open Scope go_scope.

Abbreviation float64 := spec_float.

Definition f64_add (x y : float64) : float64 := SFadd 53 1024 x y.
Definition f64_sub (x y : float64) : float64 := SFsub 53 1024 x y.
Definition f64_mul (x y : float64) : float64 := SFmul 53 1024 x y.
Definition f64_div (x y : float64) : float64 := SFdiv 53 1024 x y.
Definition f64_sqrt (x : float64) : float64 := SFsqrt 53 1024 x.

(** [float64(z)] for an integer [z]. *)
Definition f64_of_Z (z : Z) : float64 := binary_normalize 53 1024 z 0 false.

(** The decimal literal [m / 10^e]; both operands are exact for the literals
    of the sources, so the quotient is the correctly rounded literal. *)
Definition f64_lit (m : Z) (e : Z) : float64 := f64_div (f64_of_Z m) (f64_of_Z (10 ^ e)).

Definition f64_zero : float64 := S754_zero false.
Definition f64_one : float64 := f64_of_Z 1.
Definition f64_inf : float64 := S754_infinity false.

Definition f64_lt (x y : float64) : bool := SFltb x y.
Definition f64_le (x y : float64) : bool := SFleb x y.
Definition f64_eq (x y : float64) : bool := SFeqb x y.
Definition f64_gt (x y : float64) : bool := SFltb y x.
Definition f64_ge (x y : float64) : bool := SFleb y x.

Definition f64_is_nan (x : float64) : bool :=
  match x with S754_nan => true | _ => false end.

Definition f64_is_inf (x : float64) : bool :=
  match x with S754_infinity _ => true | _ => false end.

Definition f64_is_pos_inf (x : float64) : bool :=
  match x with S754_infinity false => true | _ => false end.

Definition f64_signbit (x : float64) : bool :=
  match x with
  | S754_zero s => s | S754_infinity s => s | S754_finite s _ _ => s | S754_nan => false
  end.

Definition f64_abs (x : float64) : float64 := SFabs x.

(** [math.Max]. *)
Definition f64_max (x y : float64) : float64 :=
  if f64_is_pos_inf x || f64_is_pos_inf y then f64_inf
  else if f64_is_nan x || f64_is_nan y then S754_nan
  else if f64_eq x f64_zero && f64_eq x y then (if f64_signbit x then y else x)
  else if f64_gt x y then x else y.

#[export] Instance float64_eq_decision : EqDecision float64.
Proof. solve_decision. Defined.

(** ** Order

    [SFcompare] is a total preorder on the values other than NaN. *)

Lemma f64_compare_swap x y : SFcompare y x = CompOpp <$> SFcompare x y.
Proof.
  destruct x as [[]|[]| |[] mx ex], y as [[]|[]| |[] my ey]; simpl; try reflexivity.
  all: rewrite (Z.compare_antisym ex ey); destruct (Z.compare ex ey) eqn:E; simpl; try reflexivity.
  all: change (PosDef.Pos.compare_cont Eq) with Pos.compare.
  all: rewrite (Pos.compare_antisym mx my); reflexivity.
Qed.

Lemma f64_compare_None x y :
  SFcompare x y = None <-> f64_is_nan x = true \/ f64_is_nan y = true.
Proof.
  destruct x as [[]|[]| |[] mx ex], y as [[]|[]| |[] my ey]; simpl;
    repeat case_match; naive_solver.
Qed.

Lemma f64_le_or_lt x y :
  f64_is_nan x = false -> f64_is_nan y = false -> f64_lt x y = negb (f64_le y x).
Proof.
  intros Hx Hy. unfold f64_lt, f64_le, SFltb, SFleb.
  rewrite (f64_compare_swap x y).
  destruct (SFcompare x y) as [[]|] eqn:E; try reflexivity.
  apply f64_compare_None in E. rewrite Hx, Hy in E. naive_solver.
Qed.

Lemma f64_lt_le x y : f64_lt x y = true -> f64_le x y = true.
Proof. unfold f64_lt, f64_le, SFltb, SFleb. destruct (SFcompare x y) as [[]|]; done. Qed.

Lemma f64_lt_not_nan x y : f64_lt x y = true -> f64_is_nan x = false /\ f64_is_nan y = false.
Proof.
  unfold f64_lt, SFltb. destruct (SFcompare x y) as [c|] eqn:E; [|done]. intros _.
  destruct (f64_is_nan x) eqn:Hx, (f64_is_nan y) eqn:Hy; try done;
    assert (SFcompare x y = None) by (apply f64_compare_None; auto); congruence.
Qed.

Lemma f64_le_refl x : f64_is_nan x = false -> f64_le x x = true.
Proof.
  unfold f64_le, SFleb. destruct x as [[]|[]| |[] m e]; simpl; try done; intros _.
  all: change (PosDef.Pos.compare_cont Eq) with Pos.compare.
  all: rewrite Z.compare_refl, Pos.compare_refl; done.
Qed.

Lemma f64_le_trans x y z : f64_le x y = true -> f64_le y z = true -> f64_le x z = true.
Proof.
  unfold f64_le, SFleb.
  destruct x as [[]|[]| |[] mx ex], y as [[]|[]| |[] my ey], z as [[]|[]| |[] mz ez]; simpl; try done.
  all: change (PosDef.Pos.compare_cont Eq) with Pos.compare.
  all: destruct (Z.compare_spec ex ey), (Z.compare_spec ey ez), (Z.compare_spec ex ez); try done; try lia; subst.
  all: destruct (Pos.compare_spec mx my), (Pos.compare_spec my mz), (Pos.compare_spec mx mz); try done; lia.
Qed.

Lemma f64_lt_irrefl x : f64_lt x x = false.
Proof.
  unfold f64_lt, SFltb. destruct x as [[]|[]| |[] m e]; simpl; try done.
  all: change (PosDef.Pos.compare_cont Eq) with Pos.compare.
  all: by rewrite Z.compare_refl, Pos.compare_refl.
Qed.

Lemma f64_le_lt_trans x y z : f64_le x y = true -> f64_lt y z = true -> f64_lt x z = true.
Proof.
  intros Hxy Hyz. destruct (f64_lt_not_nan y z Hyz) as [Hy Hz].
  assert (Hx : f64_is_nan x = false).
  { destruct x; [done|done| |done]. unfold f64_le, SFleb in Hxy. by destruct y. }
  rewrite f64_le_or_lt by done. destruct (f64_le z x) eqn:Hzx; [|done].
  rewrite f64_le_or_lt in Hyz by done. by rewrite (f64_le_trans z x y Hzx Hxy) in Hyz.
Qed.

(** ** Sums of non-negative values

    Rounding never turns a non-negative number into NaN, so a sum of
    non-negative terms has a place in the order. *)

Definition f64_nonneg (x : float64) : Prop := f64_is_nan x = false /\ f64_signbit x = false.

Lemma shr_1_nonneg mrs : 0 <= shr_m mrs -> 0 <= shr_m (shr_1 mrs).
Proof. destruct mrs as [[|[]|[]] r s]; cbn; lia. Qed.

Lemma shr_nonneg mrs e n : 0 <= shr_m mrs -> 0 <= shr_m (shr mrs e n).1.
Proof.
  intros Hm. destruct n as [|p|p]; cbn; [done| |done].
  assert (Hi : forall q a, 0 <= shr_m a -> 0 <= shr_m (SpecFloat.iter_pos shr_1 q a)).
  { induction q as [q IH|q IH|]; intros a Ha; cbn; auto using shr_1_nonneg. }
  by apply Hi.
Qed.

Lemma shr_fexp_nonneg m e l : 0 <= m -> 0 <= shr_m (shr_fexp 53 1024 m e l).1.
Proof. intros Hm. unfold shr_fexp. apply shr_nonneg. destruct l as [|[]]; cbn; done. Qed.

Lemma binary_round_aux_nonneg m e l : 0 <= m -> f64_nonneg (binary_round_aux 53 1024 false m e l).
Proof.
  intros Hm. unfold binary_round_aux.
  pose proof (shr_fexp_nonneg m e l Hm) as H1. destruct (shr_fexp 53 1024 m e l) as [mrs1 e1].
  assert (H2 : 0 <= round_nearest_even (shr_m mrs1) (loc_of_shr_record mrs1)).
  { unfold round_nearest_even. cbn in H1. repeat case_match; lia. }
  pose proof (shr_fexp_nonneg _ e1 loc_Exact H2) as H3. destruct (shr_fexp 53 1024 _ e1 loc_Exact) as [mrs2 e2].
  cbn [fst] in H3. destruct (shr_m mrs2); [done| |lia]. by destruct (e2 <=? _).
Qed.

Lemma f64_add_nonneg x y : f64_nonneg x -> f64_nonneg y -> f64_nonneg (f64_add x y).
Proof.
  intros [Hx Sx] [Hy Sy].
  destruct x as [[]|[]| |[] mx ex], y as [[]|[]| |[] my ey]; try done; cbn in *.
  unfold binary_normalize. destruct (_ + _) eqn:E; [done| |].
  - unfold binary_round. destruct (shl_align p _ _). apply binary_round_aux_nonneg. lia.
  - cbn in E. lia.
Qed.

Lemma f64_pos_nonneg x : f64_lt f64_zero x = true -> f64_nonneg x.
Proof. by destruct x as [[]|[]| |[] m e]. Qed.

(** ** Conversion to integers *)

(** The integer part, towards zero; none for NaN and the infinities. *)
Definition f64_trunc (f : float64) : option Z :=
  match f with
  | S754_zero _ => Some 0
  | S754_finite s m e =>
      let n := if 0 <=? e then Zpos m * 2 ^ e else Zpos m / 2 ^ (- e) in
      Some (if s then - n else n)
  | _ => None
  end.

(** Small integers are exact. *)
Lemma digits2_pos_iter m k : digits2_pos (Pos.iter xO m k) = (digits2_pos m + k)%positive.
Proof.
  induction k as [|k IH] using Pos.peano_ind; cbn; [lia|]. rewrite Pos.iter_succ. cbn. rewrite IH. lia.
Qed.

Lemma Pos_iter_xO m k : Zpos (Pos.iter xO m k) = Zpos m * 2 ^ Zpos k.
Proof.
  induction k as [|k IH] using Pos.peano_ind; [cbn; lia|]. rewrite Pos.iter_succ, Pos2Z.inj_xO, IH, Pos2Z.inj_succ, Z.pow_succ_r; lia.
Qed.

Lemma digits2_pos_bound m : 2 ^ (Zpos (digits2_pos m) - 1) <= Zpos m.
Proof.
  induction m as [m IH|m IH|]; cbn [digits2_pos]; [..|cbn; lia]; rewrite Pos2Z.inj_succ;
    (replace (Z.succ (Zpos (digits2_pos m)) - 1) with (Z.succ (Zpos (digits2_pos m) - 1)) by lia);
    rewrite Z.pow_succ_r by lia; lia.
Qed.

Lemma binary_round_aux_exact m e :
  Zpos (digits2_pos m) = 53 -> -1074 <= e <= 971 -> binary_round_aux 53 1024 false (Zpos m) e loc_Exact = S754_finite false m e.
Proof.
  intros Hd He. unfold binary_round_aux, shr_fexp.
  assert (Hf : fexp 53 1024 (Zdigits2 (Zpos m) + e) - e = 0) by (unfold fexp, emin; cbn [Zdigits2]; lia).
  rewrite Hf. cbn [shr shr_record_of_loc loc_of_shr_record round_nearest_even shr_m]. rewrite Hf. cbn [shr shr_m].
  by replace (e <=? 1024 - 53) with true by lia.
Qed.

Lemma f64_trunc_of_Z n : 0 <= n < 2 ^ 53 -> f64_trunc (f64_of_Z n) = Some n.
Proof.
  intros Hn. unfold f64_of_Z, binary_normalize. destruct n as [|m|m]; [done| |lia].
  set (d := Zpos (digits2_pos m)).
  assert (Hd : 1 <= d <= 53).
  { unfold d. split; [lia|]. pose proof (digits2_pos_bound m) as Hb.
    destruct (Z.le_gt_cases (Zpos (digits2_pos m)) 53) as [|Hgt]; [done|].
    assert (2 ^ 53 <= 2 ^ (Zpos (digits2_pos m) - 1)) by (apply Z.pow_le_mono_r; lia). lia. }
  unfold binary_round, shl_align. fold d.
  replace (fexp 53 1024 (d + 0) - 0) with (d - 53) by (unfold fexp, emin; lia).
  replace (fexp 53 1024 (d + 0)) with (d - 53) by (unfold fexp, emin; lia).
  destruct (d - 53) as [|k|k] eqn:Hk; [|lia|].
  - rewrite binary_round_aux_exact by lia. cbn. f_equal. lia.
  - rewrite binary_round_aux_exact; [|rewrite digits2_pos_iter, Pos2Z.inj_add; lia|lia].
    unfold f64_trunc. replace (0 <=? Z.neg k) with false by (symmetry; apply Z.leb_gt; lia).
    rewrite Pos_iter_xO. cbn [Z.opp]. rewrite Z.div_mul; [done|]. apply Z.pow_nonzero; lia.
Qed.

(** Conversions of a float that does not fit, which Go leaves to the
    implementation. *)
Class GoConv := { oob_uint32 : float64 -> Z; oob_int : float64 -> Z }.

Definition f64_uint32 `{GoConv} (f : float64) : Z :=
  match f64_trunc f with
  | Some z => if (0 <=? z) && (z <? 2 ^ 32) then z else wrap32u (oob_uint32 f)
  | None => wrap32u (oob_uint32 f)
  end.

Definition f64_int `{GoConv} (f : float64) : Z :=
  match f64_trunc f with
  | Some z => if (- 2 ^ 63 <=? z) && (z <? 2 ^ 63) then z else wrap64 (oob_int f)
  | None => wrap64 (oob_int f)
  end.

(** [math.Floor] and [math.Ceil], as the integers they return. *)
Definition f64_floor (f : float64) : option Z :=
  match f with
  | S754_zero _ => Some 0
  | S754_finite s m e => let n := cond_Zopp s (Zpos m) in Some (if 0 <=? e then n * 2 ^ e else n / 2 ^ (- e))
  | _ => None
  end.

Definition f64_ceil (f : float64) : option Z :=
  match f with
  | S754_zero _ => Some 0
  | S754_finite s m e => let n := cond_Zopp s (Zpos m) in Some (if 0 <=? e then n * 2 ^ e else - ((- n) / 2 ^ (- e)))
  | _ => None
  end.

(** [int(x)] of an integral float [x], given with its value. *)
Definition f64_int_of `{GoConv} (x : float64) (n : option Z) : Z :=
  match n with
  | Some z => if (- 2 ^ 63 <=? z) && (z <? 2 ^ 63) then z else wrap64 (oob_int x)
  | None => wrap64 (oob_int x)
  end.
