(* ===== verification/FloatExact.v ===== *)
(** * Integers in binary64

    Integers below 2^53 are exact: their sums, differences and comparisons as
    floats are those of the integers. *)

From Stdlib Require Import SpecFloat.
From S2P Require Import Prelude Float64.

#[local] Open Scope Z_scope.

Module FloatExact.

(** ** Shifted mantissas *)

Definition shl (p : positive) (k : Z) : positive := match k with Zpos q => Pos.iter xO p q | _ => p end.

Lemma shl_value p k : 0 <= k -> Zpos (shl p k) = Zpos p * 2 ^ k.
Proof. intros Hk. destruct k as [|q|q]; cbn [shl]; [lia|apply Pos_iter_xO|lia]. Qed.

Lemma shl_digits p k : 0 <= k -> Zpos (digits2_pos (shl p k)) = Zpos (digits2_pos p) + k.
Proof. intros Hk. destruct k as [|q|q]; cbn [shl]; [lia|rewrite digits2_pos_iter; lia|lia]. Qed.

Lemma shl_shl p a b : 0 <= a -> 0 <= b -> shl (shl p a) b = shl p (a + b).
Proof.
  intros Ha Hb. apply Pos2Z.inj. rewrite !shl_value, Z.pow_add_r by lia. lia.
Qed.

Lemma shr_shl m n :
  SpecFloat.iter_pos shr_1 n (Build_shr_record (Zpos (Pos.iter xO m n)) false false) = Build_shr_record (Zpos m) false false.
Proof.
  revert m. induction n as [n IH|n IH|]; intros m; cbn [SpecFloat.iter_pos Pos.iter]; [|by rewrite !IH|done].
  cbn [shr_1 orb]. by rewrite !IH.
Qed.

Lemma round_shifted s m k e :
  0 <= k -> Zpos (digits2_pos m) = 53 -> -1074 <= e <= 971 ->
  binary_round_aux 53 1024 s (Zpos (shl m k)) (e - k) loc_Exact = S754_finite s m e.
Proof.
  intros Hk Hd He. unfold binary_round_aux, shr_fexp.
  assert (Hf : forall p j, Zpos (digits2_pos p) + j = 53 + e -> fexp 53 1024 (Zdigits2 (Zpos p) + j) = e)
    by (intros p j Hj; unfold fexp, emin; cbn [Zdigits2]; lia).
  rewrite (Hf (shl m k) (e - k)) by (rewrite shl_digits; lia). replace (e - (e - k)) with k by lia.
  assert (Hs : shr (shr_record_of_loc (Zpos (shl m k)) loc_Exact) (e - k) k = (Build_shr_record (Zpos m) false false, e)).
  { destruct k as [|q|q]; cbn [shr shl shr_record_of_loc]; [f_equal; lia|rewrite shr_shl; f_equal; lia|lia]. }
  rewrite Hs. cbn [shr_m loc_of_shr_record round_nearest_even shr_record_of_loc].
  rewrite (Hf m e) by lia. rewrite Z.sub_diag. cbn [shr shr_m]. by replace (e <=? 1024 - 53) with true by lia.
Qed.

(** ** Small integers *)

Definition digits (p : positive) : Z := Zpos (digits2_pos p).

Definition mantissa (p : positive) : positive := shl p (53 - digits p).

Definition small (n : Z) : Prop := Z.abs n < 2 ^ 53.

Lemma digits_upper p : Zpos p < 2 ^ digits p.
Proof.
  unfold digits. induction p as [p IH|p IH|]; cbn [digits2_pos]; [..|cbn; lia];
    rewrite Pos2Z.inj_succ, Z.pow_succ_r by lia; lia.
Qed.

Lemma digits_small p : small (Zpos p) -> 1 <= digits p <= 53.
Proof.
  unfold small, digits. intros Hp. split; [lia|]. pose proof (digits2_pos_bound p) as Hb.
  destruct (Z.le_gt_cases (Zpos (digits2_pos p)) 53) as [|Hgt]; [done|].
  assert (2 ^ 53 <= 2 ^ (Zpos (digits2_pos p) - 1)) by (apply Z.pow_le_mono_r; lia). lia.
Qed.

Lemma round_scaled s p k :
  small (Zpos p) -> 0 <= k ->
  binary_round 53 1024 s (shl p k) (- k) = S754_finite s (mantissa p) (digits p - 53).
Proof.
  intros Hp Hk. pose proof (digits_small p Hp) as Hd. unfold binary_round, shl_align.
  rewrite shl_digits by done. fold (digits p).
  replace (fexp 53 1024 (digits p + k + - k)) with (digits p - 53) by (unfold fexp, emin; lia).
  assert (Hm : Zpos (digits2_pos (mantissa p)) = 53) by (unfold mantissa; rewrite shl_digits; unfold digits in *; lia).
  destruct (digits p - 53 - - k) as [|q|q] eqn:Hq.
  - replace (shl p k) with (shl (mantissa p) 0) by (cbn [shl]; unfold mantissa; f_equal; lia).
    replace (- k) with (digits p - 53 - 0) by lia. apply round_shifted; lia.
  - replace (shl p k) with (shl (mantissa p) (Zpos q)) by (unfold mantissa; rewrite shl_shl by lia; f_equal; lia).
    replace (- k) with (digits p - 53 - Zpos q) by lia. apply round_shifted; lia.
  - change (Pos.iter xO (shl p k) q) with (shl (shl p k) (Zpos q)). rewrite shl_shl by lia.
    replace (shl p (k + Zpos q)) with (shl (mantissa p) 0) by (cbn [shl]; unfold mantissa; f_equal; lia).
    replace (digits p - 53) with (digits p - 53 - 0) at 1 by lia. apply round_shifted; lia.
Qed.

Definition finite_of (n : Z) : float64 :=
  match n with
  | Z0 => S754_zero false
  | Zpos p => S754_finite false (mantissa p) (digits p - 53)
  | Zneg p => S754_finite true (mantissa p) (digits p - 53)
  end.

Lemma normalize_scaled n k : small n -> 0 <= k -> binary_normalize 53 1024 (n * 2 ^ k) (- k) false = finite_of n.
Proof.
  intros Hn Hk. destruct n as [|p|p]; [done|..].
  - rewrite <- shl_value by done. cbn [binary_normalize]. by apply round_scaled.
  - replace (Zneg p * 2 ^ k) with (Zneg (shl p k)) by (rewrite <- !Pos2Z.opp_pos, shl_value; lia).
    cbn [binary_normalize]. by apply round_scaled.
Qed.

Lemma of_Z_finite n : small n -> f64_of_Z n = finite_of n.
Proof. intros Hn. unfold f64_of_Z. rewrite <- (normalize_scaled n 0) by done. do 2 f_equal. lia. Qed.

(** ** Operations *)

Definition exponent (n : Z) : Z := digits (Z.to_pos (Z.abs n)) - 53.

Lemma aligned p e :
  small (Zpos p) -> e <= digits p - 53 -> e <= 0 ->
  Zpos (fst (shl_align (mantissa p) (digits p - 53) e)) = Zpos p * 2 ^ (- e).
Proof.
  intros Hp He He0. pose proof (digits_small p Hp) as Hd. unfold shl_align.
  destruct (e - (digits p - 53)) as [|q|q] eqn:Hq; cbn [fst]; [|lia|].
  - unfold mantissa. rewrite shl_value by lia. do 2 f_equal. lia.
  - change (Pos.iter xO (mantissa p) q) with (shl (mantissa p) (Zpos q)). unfold mantissa.
    rewrite shl_shl, shl_value by lia. do 2 f_equal. lia.
Qed.

Lemma f64_add_exact a b : small a -> small b -> small (a + b) -> f64_add (f64_of_Z a) (f64_of_Z b) = f64_of_Z (a + b).
Proof.
  intros Ha Hb Hab. rewrite !of_Z_finite by done.
  assert (Hsum : forall p q s t, small (Zpos p) -> small (Zpos q) -> small (cond_Zopp s (Zpos p) + cond_Zopp t (Zpos q)) ->
    f64_add (S754_finite s (mantissa p) (digits p - 53)) (S754_finite t (mantissa q) (digits q - 53)) =
    finite_of (cond_Zopp s (Zpos p) + cond_Zopp t (Zpos q))).
  { intros p q s t Hp Hq Hs. pose proof (digits_small p Hp). pose proof (digits_small q Hq).
    unfold f64_add. cbn [SFadd]. set (ez := Z.min _ _). rewrite !aligned by (done || lia).
    rewrite <- (normalize_scaled _ (- ez)) by (done || lia). rewrite Z.opp_involutive. f_equal.
    destruct s, t; cbn [cond_Zopp]; lia. }
  destruct a as [|p|p], b as [|q|q]; try done.
  - exact (Hsum p q false false Ha Hb Hab).
  - exact (Hsum p q false true Ha Hb Hab).
  - exact (Hsum p q true false Ha Hb Hab).
  - exact (Hsum p q true true Ha Hb Hab).
Qed.

Lemma f64_sub_exact a b : small a -> small b -> small (a - b) -> f64_sub (f64_of_Z a) (f64_of_Z b) = f64_of_Z (a - b).
Proof.
  intros Ha Hb Hab. rewrite !of_Z_finite by done.
  assert (Hdiff : forall p q s t, small (Zpos p) -> small (Zpos q) -> small (cond_Zopp s (Zpos p) - cond_Zopp t (Zpos q)) ->
    f64_sub (S754_finite s (mantissa p) (digits p - 53)) (S754_finite t (mantissa q) (digits q - 53)) =
    finite_of (cond_Zopp s (Zpos p) - cond_Zopp t (Zpos q))).
  { intros p q s t Hp Hq Hs. pose proof (digits_small p Hp). pose proof (digits_small q Hq).
    unfold f64_sub. cbn [SFsub]. set (ez := Z.min _ _). rewrite !aligned by (done || lia).
    rewrite <- (normalize_scaled _ (- ez)) by (done || lia). rewrite Z.opp_involutive. f_equal.
    destruct s, t; cbn [cond_Zopp]; lia. }
  destruct a as [|p|p], b as [|q|q]; try done.
  - exact (Hdiff p q false false Ha Hb Hab).
  - exact (Hdiff p q false true Ha Hb Hab).
  - exact (Hdiff p q true false Ha Hb Hab).
  - exact (Hdiff p q true true Ha Hb Hab).
Qed.

Lemma compare_exact a b : small a -> small b -> SFcompare (f64_of_Z a) (f64_of_Z b) = Some (a ?= b).
Proof.
  intros Ha Hb. rewrite !of_Z_finite by done.
  assert (Hpos : forall p q, small (Zpos p) -> small (Zpos q) ->
    match digits p - 53 ?= digits q - 53 with
    | Lt => Lt | Gt => Gt | Eq => Pos.compare_cont Eq (mantissa p) (mantissa q) end = (Zpos p ?= Zpos q)).
  { intros p q Hp Hq. pose proof (digits_small p Hp). pose proof (digits_small q Hq).
    assert (Hlt : forall p q, digits p < digits q -> Zpos p < Zpos q).
    { intros p' q' Hd. pose proof (digits_upper p'). pose proof (digits2_pos_bound q') as Hb'. fold (digits q') in Hb'.
      assert (2 ^ digits p' <= 2 ^ (digits q' - 1)) by (apply Z.pow_le_mono_r; unfold digits in *; lia). lia. }
    destruct (Z.compare_spec (digits p - 53) (digits q - 53)) as [He|Hl|Hg].
    - change (Pos.compare_cont Eq (mantissa p) (mantissa q)) with (Zpos (mantissa p) ?= Zpos (mantissa q)).
      unfold mantissa. rewrite !shl_value by lia. replace (digits q) with (digits p) by lia.
      symmetry. apply Zmult_compare_compat_r. apply Z.lt_gt, Z.pow_pos_nonneg; lia.
    - symmetry. apply Z.compare_lt_iff, Hlt. lia.
    - symmetry. apply Z.compare_gt_iff, Hlt. lia. }
  destruct a as [|p|p], b as [|q|q]; try done; cbn [finite_of SFcompare]; f_equal.
  - by apply Hpos.
  - transitivity (CompOpp (Zpos p ?= Zpos q)); [|reflexivity].
    rewrite <- Hpos by done. by destruct (digits p - 53 ?= digits q - 53).
Qed.

Lemma f64_lt_exact a b : small a -> small b -> f64_lt (f64_of_Z a) (f64_of_Z b) = (a <? b).
Proof. intros Ha Hb. unfold f64_lt, SFltb, Z.ltb. by rewrite compare_exact. Qed.

Lemma f64_le_exact a b : small a -> small b -> f64_le (f64_of_Z a) (f64_of_Z b) = (a <=? b).
Proof. intros Ha Hb. unfold f64_le, SFleb, Z.leb. rewrite compare_exact by done. by destruct (a ?= b). Qed.

(** ** Quotients

    A quotient of integers has the sign of its numerator. *)

Lemma round_sign s m e l : 0 <= m -> f64_is_nan (binary_round_aux 53 1024 s m e l) = false /\ f64_signbit (binary_round_aux 53 1024 s m e l) = s.
Proof.
  intros Hm. unfold binary_round_aux.
  pose proof (shr_fexp_nonneg m e l Hm) as H1. destruct (shr_fexp 53 1024 m e l) as [mrs1 e1].
  assert (H2 : 0 <= round_nearest_even (shr_m mrs1) (loc_of_shr_record mrs1)).
  { unfold round_nearest_even. cbn in H1. repeat case_match; lia. }
  pose proof (shr_fexp_nonneg _ e1 loc_Exact H2) as H3. destruct (shr_fexp 53 1024 _ e1 loc_Exact) as [mrs2 e2].
  cbn [fst] in H3. destruct (shr_m mrs2); [done| |lia]. by destruct (e2 <=? _).
Qed.

Lemma div_core_nonneg m1 e1 m2 e2 : 0 <= (SFdiv_core_binary 53 1024 (Zpos m1) e1 (Zpos m2) e2).1.1.
Proof.
  unfold SFdiv_core_binary. match goal with |- context [Z.div_eucl ?m _] => set (m' := m) end.
  assert (0 <= m') by (unfold m'; case_match; [lia|apply Z.shiftl_nonneg; lia|lia]).
  pose proof (Z.div_pos m' (Zpos m2)) as Hq. unfold Z.div in Hq. destruct (Z.div_eucl m' (Zpos m2)). cbn in *. lia.
Qed.

Lemma f64_div_sign a b : small a -> small b -> a <> 0 -> 0 < b ->
  f64_is_nan (f64_div (f64_of_Z a) (f64_of_Z b)) = false /\ f64_signbit (f64_div (f64_of_Z a) (f64_of_Z b)) = (a <? 0).
Proof.
  intros Ha Hb Hz Hp. rewrite !of_Z_finite by done. destruct b as [|q|q]; [lia| |lia]. destruct a as [|p|p]; [lia| |]; cbn [finite_of f64_div SFdiv xorb];
    match goal with |- context [SFdiv_core_binary _ _ (Zpos ?m1) ?e1 (Zpos ?m2) ?e2] => pose proof (div_core_nonneg m1 e1 m2 e2) as Hc;
      destruct (SFdiv_core_binary 53 1024 (Zpos m1) e1 (Zpos m2) e2) as [[mz ez] lz] end; cbn in Hc; by apply round_sign.
Qed.

(** A negative quotient is below zero, or is zero. *)
Lemma negative_clamp q : f64_is_nan q = false -> f64_signbit q = true -> f64_eq (if f64_lt q f64_zero then f64_zero else q) f64_zero = true.
Proof. by destruct q as [[]|[]| |[] m e]. Qed.

Lemma positive_clamp q : f64_is_nan q = false -> f64_signbit q = false -> f64_lt q f64_zero = false.
Proof. by destruct q as [[]|[]| |[] m e]. Qed.
End FloatExact.
