(* ===== verification/Market.v ===== *)
(** * Market data of the energy auction ([examples/energy_auction/market.go])

    The hourly wholesale prices and the clearing band derived from them. *)

From S2P Require Import Prelude Float64.

#[local] Open Scope Z_scope.
#[local] Open Scope go_scope.

Module Market.

(** The day-ahead prices, in hundredths of a cent per kWh. *)
Definition DayPricesCt100 : list Z :=
  [655; 545; 445; 412; 463; 435; 176; 48;
   24; -28; -250; -696; -1001; -1354; -1329; -851;
   -300; -13; 225; 679; 757; 583; 446; 356].

Definition DayPrices : list float64 := (fun z => f64_lit z 2) <$> DayPricesCt100.

Definition RetailEnergyRate : float64 := f64_of_Z 16.

Definition LoadShapePct : list Z :=
  [40; 37; 33; 33; 37; 47; 63; 77; 73; 67; 63; 67; 70; 63; 60; 63;
   73; 87; 100; 100; 90; 77; 63; 50].

Record Band := mkBand {
  bHour : Z;
  SpotCt : float64;
  FloorCt : float64;
  CapCt : float64;
  PVFraction : float64
}.

(** Slice indexing: [None] is the run-time panic of an index out of range. *)
Definition index {A} (l : list A) (i : Z) : option A :=
  if decide (0 <= i) then l !! Z.to_nat i else None.

Definition LoadShape (hour : Z) : option float64 :=
  index ((fun z => f64_lit z 2) <$> LoadShapePct) (Z.rem hour 24).

Section band.
(** [math.Sin] of the Go runtime; no theorem below depends on its values. *)
Context (Sin : float64 -> float64).

(** [math.Pi], rounded to a float64. *)
Definition Pi : float64 := f64_lit 3141592653589793 15.

Definition PVOutput (hour : Z) : float64 :=
  let sunrise := f64_of_Z 5 in
  let sunset := f64_of_Z 21 in
  let h := f64_add (f64_of_Z hour) (f64_lit 5 1) in
  if f64_lt h sunrise || f64_gt h sunset then f64_zero
  else f64_mul (f64_lit 92 2)
         (Sin (f64_div (f64_mul Pi (f64_sub h sunrise)) (f64_sub sunset sunrise))).

Definition BandAt (hour : Z) : option Band :=
  spot ← index DayPrices (Z.rem hour 24);
  let floor := f64_max f64_zero spot in
  let cap := RetailEnergyRate in
  let floor := if f64_gt floor cap then cap else floor in
  Some (mkBand (Z.rem hour 24) spot floor cap (PVOutput (Z.rem hour 24))).
End band.

(** The hours of a day, for the finite checks below. *)
Definition hours : list Z := Z.of_nat <$> seq 0 24.

Lemma elem_of_hours h : 0 <= h < 24 -> h ∈ hours.
Proof.
  intros Hh. unfold hours. apply list_elem_of_fmap. exists (Z.to_nat h).
  split; [lia|]. apply elem_of_seq. lia.
Qed.

(** The market part of a band, without the solar fraction. *)
Definition band_edges (hour : Z) : option (float64 * float64 * float64) :=
  b ← BandAt (fun _ => f64_zero) hour; Some (SpotCt b, FloorCt b, CapCt b).

Definition edges_ok (hour : Z) : bool :=
  match band_edges hour with
  | None => false
  | Some (spot, floor, cap) =>
      f64_le f64_zero floor && f64_le floor cap && f64_le spot floor
      && f64_eq cap RetailEnergyRate
  end.

Lemma edges_ok_day : forallb edges_ok hours = true.
Proof. vm_compute. reflexivity. Qed.

Lemma band_edges_spec Sin h :
  0 <= h < 24 ->
  exists b, BandAt Sin h = Some b /\ bHour b = h /\
    band_edges h = Some (SpotCt b, FloorCt b, CapCt b).
Proof.
  intros Hh. unfold band_edges, BandAt. rewrite (Z.rem_small h 24) by lia.
  assert (Hi : is_Some (index DayPrices h)).
  { unfold index. case_decide; [|lia]. apply lookup_lt_is_Some.
    unfold DayPrices. rewrite length_fmap. simpl. lia. }
  destruct Hi as [spot ->]. simpl. eexists. split_and!; reflexivity.
Qed.

(** For every hour of the day [BandAt] returns a band (no index panics)
    labelled with that hour whose floor is non-negative, not below the spot
    price and not above the retail cap, so the clearing band is never empty,
    however negative the wholesale price is. *)
Lemma band_ordered Sin h (Hh : 0 <= h < 24) :
  exists b, BandAt Sin h = Some b /\ bHour b = h /\
    f64_le f64_zero (FloorCt b) = true /\ f64_le (SpotCt b) (FloorCt b) = true /\
    f64_le (FloorCt b) (CapCt b) = true /\ f64_eq (CapCt b) RetailEnergyRate = true.
Proof.
  destruct (band_edges_spec Sin h Hh) as (b & Hb & Hbh & He).
  pose proof edges_ok_day as Hd. rewrite forallb_forall in Hd.
  specialize (Hd h (proj1 (list_elem_of_In _ _) (elem_of_hours h Hh))).
  unfold edges_ok in Hd. rewrite He, !andb_true_iff in Hd.
  exists b. destruct_and?. auto 10.
Qed.

Lemma band_ordered_witness :
  exists b, BandAt (fun x => x) 13 = Some b /\ bHour b = 13 /\
    f64_le f64_zero (FloorCt b) = true /\ f64_le (SpotCt b) (FloorCt b) = true /\
    f64_le (FloorCt b) (CapCt b) = true /\ f64_eq (CapCt b) RetailEnergyRate = true.
Proof. apply (band_ordered (fun x => x) 13). lia. Defined.

(** The collapse of the market at 13:00 leaves the widest band, [0 .. cap]. *)
Example band_13 :
  band_edges 13 = Some (f64_lit (-1354) 2, f64_zero, RetailEnergyRate).
Proof. vm_compute. reflexivity. Qed.

(** A negative hour panics: Go's [%] keeps the sign of the dividend. *)
Example band_negative_hour : band_edges (-1) = None.
Proof. reflexivity. Qed.

End Market.
