(* ===== verification/EnergyAuction.v ===== *)
(** * The auction state machine ([examples/energy_auction/auction.go])

    One record for the [Auction] struct and one definition per method.  Every
    method runs under [a.mu] from start to end, so a run of the relay is a
    sequence of these atomic steps, whatever the interleaving of the
    connections' goroutines. *)

From S2P Require Import Prelude Float64 Market.

#[local] Open Scope Z_scope.
#[local] Open Scope go_scope.

Module EnergyAuction.

Definition MaxBuyers : Z := 5.
Definition EpochSize : Z := 5.

Inductive Role := RoleSeller | RoleBuyer | RoleFull.
Inductive Phase := PhaseWaiting | PhaseBidding | PhaseEvaluating | PhaseOffer | PhaseSettled.
Inductive EpochPhase := EpochOpen | EpochReady | EpochAudit | EpochDone.
Inductive BidResult := BidRejected | BidStored | BidComplete.

#[export] Instance Role_eq_decision : EqDecision Role.
Proof. solve_decision. Defined.
#[export] Instance Phase_eq_decision : EqDecision Phase.
Proof. solve_decision. Defined.
#[export] Instance EpochPhase_eq_decision : EqDecision EpochPhase.
Proof. solve_decision. Defined.

(** Ciphertexts and key material: opaque byte strings to the relay. *)
Abbreviation blob := string.

Record Peer := mkPeer {
  ID : string;
  PRole : Role;
  Seat : Z;
  Sealed : bool
}.
#[export] Instance eta_Peer : Eta Peer :=
  fun r => mkPeer (ID r) (PRole r) (Seat r) (Sealed r).

Record Trade := mkTrade {
  At : string;
  Slot : Z;
  PriceCt : float64;
  Accepted : bool;
  Bidders : Z;
  seat : Z
}.

Record Auction := mkAuction {
  Hour : Z;
  phase : Phase;
  peers : gmap string Peer;
  order : list string;
  pubKey : blob;
  evalKey : blob;
  bids : gmap Z blob;
  masks : list blob;
  keyID : Z;
  winnerSeat : Z;
  priceCt : float64;
  trades : list Trade;
  epoch : EpochPhase;
  epochKey : blob;
  epochTotals : gmap string blob;
  epochNet : float64;
  epochOK : bool;
  epochOpened : bool;
  chainPos : Z;
  epochPartials : gmap string blob;
  epochParty : list string;
  epochAbort : string
}.
#[export] Instance eta_Auction : Eta Auction := fun a =>
  mkAuction (Hour a) (phase a) (peers a) (order a) (pubKey a) (evalKey a) (bids a) (masks a)
    (keyID a) (winnerSeat a) (priceCt a) (trades a) (epoch a) (epochKey a) (epochTotals a)
    (epochNet a) (epochOK a) (epochOpened a) (chainPos a) (epochPartials a) (epochParty a)
    (epochAbort a).

Definition NewAuction : Auction :=
  {| Hour := 13; phase := PhaseWaiting; peers := ∅; order := []; pubKey := ""; evalKey := "";
     bids := ∅; masks := []; keyID := 0; winnerSeat := -1; priceCt := f64_zero; trades := [];
     epoch := EpochOpen; epochKey := ""; epochTotals := ∅; epochNet := f64_zero;
     epochOK := false; epochOpened := false; chainPos := 0; epochPartials := ∅;
     epochParty := []; epochAbort := "" |}.

(** ** Queries over the roster *)

Definition is_role (r : Role) (p : Peer) : bool := bool_decide (PRole p = r).

Definition buyers_of (m : gmap string Peer) : gmap string Peer :=
  filter (fun kv => PRole kv.2 = RoleBuyer) m.

Definition buyerCount (a : Auction) : Z := msize (buyers_of (peers a)).

(** The first buyer in join order. *)
Definition evaluatorLocked (a : Auction) : option Peer :=
  head (omap (fun id => p ← peers a !! id; if is_role RoleBuyer p then Some p else None) (order a)).

Definition Evaluator (a : Auction) : option Peer := evaluatorLocked a.

Section methods.
Context `{GoRange}.

Definition seller (a : Auction) : option Peer :=
  find_value (is_role RoleSeller) (range_of (peers a)).

(** ** Round operations *)

Definition Join (id : string) (a : Auction) : Auction * Peer :=
  let p := mkPeer id RoleFull (-1) false in
  let p :=
    match seller a with
    | None => p <| PRole := RoleSeller |>
    | Some _ =>
        if buyerCount a <? MaxBuyers
        then p <| PRole := RoleBuyer |> <| Seat := buyerCount a |>
        else p <| PRole := RoleFull |>
    end in
  (a <| peers := <[id := p]> (peers a) |> <| order := order a ++ [id] |>, p).

Definition unseal (p : Peer) : Peer := p <| Sealed := false |>.

Definition resetLocked (a : Auction) : Auction :=
  a <| phase := PhaseWaiting |>
    <| pubKey := "" |>
    <| evalKey := "" |>
    <| bids := ∅ |>
    <| masks := [] |>
    <| winnerSeat := -1 |>
    <| priceCt := f64_zero |>
    <| peers := unseal <$> peers a |>.

Definition Leave (id : string) (a : Auction) : Auction :=
  let p := peers a !! id in
  let a := a <| peers := delete id (peers a) |> <| order := remove_first id (order a) |> in
  let a :=
    match p with
    | Some p => if is_role RoleSeller p || Sealed p then resetLocked a else a
    | None => a
    end in
  if bool_decide (epoch a = EpochAudit) && bool_decide (id ∈ epochParty a) then
    a <| epochAbort := "a participant left mid-audit" |>
      <| epoch := EpochReady |>
      <| epochParty := [] |>
      <| epochTotals := ∅ |>
      <| epochPartials := ∅ |>
      <| chainPos := 0 |>
  else a.

Definition Reset (a : Auction) : Auction := resetLocked a.

Definition SetHour (h : Z) (a : Auction) : Auction :=
  resetLocked (a <| Hour := Z.rem (Z.rem h 24 + 24) 24 |>).

Definition PublishKeys (pk ek : blob) (a : Auction) : Auction :=
  a <| pubKey := pk |> <| evalKey := ek |>
    <| keyID := wrap64 (keyID a + 1) |>
    <| bids := ∅ |>
    <| masks := [] |>
    <| winnerSeat := -1 |>
    <| peers := unseal <$> peers a |>
    <| phase := PhaseBidding |>.

Definition SubmitBid (id : string) (kid : Z) (ct : blob) (a : Auction) : Auction * BidResult :=
  match peers a !! id with
  | None => (a, BidRejected)
  | Some p =>
      if negb (is_role RoleBuyer p) || negb (bool_decide (phase a = PhaseBidding))
      then (a, BidRejected)
      else if negb (kid =? keyID a) then (a, BidRejected)
      else
        let a := a <| bids := <[Seat p := ct]> (bids a) |>
                   <| peers := <[id := p <| Sealed := true |>]> (peers a) |> in
        if (msize (bids a) <? buyerCount a) || (buyerCount a =? 0)
        then (a, BidStored)
        else (a <| phase := PhaseEvaluating |>, BidComplete)
  end.

Definition seat_list : list Z := Z.of_nat <$> seq 0 (Z.to_nat MaxBuyers).

Definition OrderedBids (a : Auction) : list blob * list Z :=
  (omap (fun s => bids a !! s) seat_list, filter (fun s => is_Some (bids a !! s)) seat_list).

Definition SetMasks (ms : list blob) (a : Auction) : Auction :=
  a <| masks := ms |> <| phase := PhaseOffer |>.

Definition Offer (s : Z) (price : float64) (a : Auction) : Auction :=
  a <| winnerSeat := s |> <| priceCt := price |> <| phase := PhaseOffer |>.

(** [now] is the wall-clock text of the log entry. *)
Definition Settle (now : string) (accepted : bool) (a : Auction) : Auction * Z :=
  if winnerSeat a <? 0 then (a, -1) else
  let s := winnerSeat a in
  let t := {| At := now; Slot := Hour a; PriceCt := priceCt a; Accepted := accepted;
              Bidders := msize (bids a); seat := s |} in
  let a := a <| trades := t :: trades a |> <| Hour := Z.rem (Hour a + 1) 24 |> in
  let ts := trades a in
  let a := resetLocked a <| trades := ts |> <| phase := PhaseSettled |> in
  let a := if bool_decide (epoch a = EpochOpen) && (EpochSize <=? zlen (trades a))
           then a <| epoch := EpochReady |> else a in
  (a, s).

(** ** Epoch audit *)

Definition StartEpochChain (a : Auction) : Auction * string :=
  if bool_decide (epoch a = EpochAudit) then (a, "") else
  let a := a <| epoch := EpochAudit |>
             <| epochParty := order a |>
             <| epochAbort := "" |>
             <| epochKey := "" |>
             <| epochTotals := ∅ |>
             <| epochPartials := ∅ |>
             <| epochOpened := false |>
             <| chainPos := 0 |> in
  (a, default "" (head (epochParty a))).

(** [None] is the panic of an index out of range (a wrapped position). *)
Definition AdvanceEpochChain (pk : blob) (a : Auction) : option (Auction * (string * bool)) :=
  let a := a <| epochKey := pk |> <| chainPos := wrap64 (chainPos a + 1) |> in
  if zlen (epochParty a) <=? chainPos a then Some (a, ("", true))
  else next ← Market.index (epochParty a) (chainPos a); Some (a, (next, false)).

Definition EpochKey (a : Auction) : blob := epochKey a.

Definition haveAllLocked (a : Auction) (m : gmap string blob) : bool :=
  forallb (fun id => bool_decide (is_Some (m !! id))) (epochParty a) && (0 <? zlen (epochParty a)).

Definition SubmitEpochPartial (id : string) (ct : blob) (a : Auction) : Auction * bool :=
  let a := a <| epochPartials := <[id := ct]> (epochPartials a) |> in
  (a, haveAllLocked a (epochPartials a)).

Definition EpochPartials (a : Auction) : list blob :=
  omap (fun id => epochPartials a !! id) (epochParty a).

Definition SubmitEpochTotal (id : string) (ct : blob) (a : Auction) : Auction * bool :=
  if negb (bool_decide (epoch a = EpochAudit)) then (a, false) else
  let a := a <| epochTotals := <[id := ct]> (epochTotals a) |> in
  (a, haveAllLocked a (epochTotals a)).

Definition EpochCiphertexts (a : Auction) : list blob :=
  omap (fun id => epochTotals a !! id) (epochParty a).

Definition CloseEpoch (net : float64) (ok : bool) (a : Auction) : Auction :=
  a <| epochNet := net |> <| epochOK := ok |> <| epochOpened := true |> <| epoch := EpochDone |>.

Definition NewEpoch (a : Auction) : Auction :=
  resetLocked
    (a <| trades := [] |> <| epoch := EpochOpen |> <| epochKey := "" |> <| epochTotals := ∅ |>
       <| epochNet := f64_zero |> <| epochOK := false |> <| epochOpened := false |>
       <| chainPos := 0 |> <| epochPartials := ∅ |> <| epochParty := [] |>
       <| epochAbort := "" |>).

(** ** Identity queries *)

Definition SellerID (a : Auction) : string :=
  match seller a with Some p => ID p | None => "" end.

Definition PeerAtSeat (s : Z) (a : Auction) : string :=
  match find_value (fun p => is_role RoleBuyer p && (Seat p =? s)) (range_of (peers a)) with
  | Some p => ID p
  | None => ""
  end.

Definition KeyID (a : Auction) : Z := keyID a.
End methods.

(** ** The broadcast state *)

(** [Trade] as [encoding/json] serialises it: the unexported [seat] is left out. *)
Record TradeJSON := mkTradeJSON {
  j_at : string; j_slot : Z; j_price_ct : float64; j_accepted : bool; j_bidders : Z
}.

Definition marshalTrade (t : Trade) : TradeJSON :=
  mkTradeJSON (At t) (Slot t) (PriceCt t) (Accepted t) (Bidders t).

Record SnapshotJSON := mkSnapshot {
  s_hour : Z; s_band : Market.Band; s_phase : Phase; s_peers : list Peer; s_buyers : Z;
  s_max_buyers : Z; s_sealed : Z; s_evaluator : string; s_winner_seat : Z;
  s_price_ct : float64; s_trades : list TradeJSON; s_has_keys : bool; s_key_id : Z;
  s_epoch : EpochPhase; s_epoch_size : Z; s_epoch_net : float64; s_epoch_ok : bool;
  s_epoch_open : bool; s_epoch_have : Z; s_epoch_chain : Z; s_epoch_parts : Z;
  s_epoch_party : Z; s_epoch_abort : string
}.

(** The state message of every tab; [None] is the index panic of [BandAt]. *)
Definition Snapshot (Sin : float64 -> float64) (a : Auction) : option SnapshotJSON :=
  band ← Market.BandAt Sin (Hour a);
  Some {|
    s_hour := Hour a; s_band := band; s_phase := phase a;
    s_peers := omap (fun id => peers a !! id) (order a);
    s_buyers := buyerCount a; s_max_buyers := MaxBuyers; s_sealed := msize (bids a);
    s_evaluator := match evaluatorLocked a with Some p => ID p | None => "" end;
    s_winner_seat := winnerSeat a; s_price_ct := priceCt a;
    s_trades := marshalTrade <$> trades a;
    s_has_keys := (0 <? Z.of_nat (String.length (pubKey a)));
    s_key_id := keyID a; s_epoch := epoch a; s_epoch_size := EpochSize;
    s_epoch_net := epochNet a; s_epoch_ok := epochOK a; s_epoch_open := epochOpened a;
    s_epoch_have := msize (epochTotals a); s_epoch_chain := chainPos a;
    s_epoch_parts := msize (epochPartials a); s_epoch_party := zlen (epochParty a);
    s_epoch_abort := epochAbort a |}.

(** ** Runs

    Every state-changing method as an operation; [exec] is [None] when the
    method panics.  A run joins each connection id once: [hub.serveWS] numbers
    connections from a counter. *)

Inductive op :=
  | OJoin (id : string) | OLeave (id : string) | OReset | OSetHour (h : Z)
  | OPublishKeys (pk ek : blob) | OSubmitBid (id : string) (kid : Z) (ct : blob)
  | OSetMasks (ms : list blob) | OOffer (s : Z) (price : float64)
  | OSettle (now : string) (accepted : bool)
  | OStartEpochChain | OAdvanceEpochChain (pk : blob)
  | OSubmitEpochPartial (id : string) (ct : blob) | OSubmitEpochTotal (id : string) (ct : blob)
  | OCloseEpoch (net : float64) (ok : bool) | ONewEpoch.

Definition exec `{GoRange} (o : op) (a : Auction) : option Auction :=
  match o with
  | OJoin id => Some (Join id a).1
  | OLeave id => Some (Leave id a)
  | OReset => Some (Reset a)
  | OSetHour h => Some (SetHour h a)
  | OPublishKeys pk ek => Some (PublishKeys pk ek a)
  | OSubmitBid id kid ct => Some (SubmitBid id kid ct a).1
  | OSetMasks ms => Some (SetMasks ms a)
  | OOffer s price => Some (Offer s price a)
  | OSettle now accepted => Some (Settle now accepted a).1
  | OStartEpochChain => Some (StartEpochChain a).1
  | OAdvanceEpochChain pk => r ← AdvanceEpochChain pk a; Some r.1
  | OSubmitEpochPartial id ct => Some (SubmitEpochPartial id ct a).1
  | OSubmitEpochTotal id ct => Some (SubmitEpochTotal id ct a).1
  | OCloseEpoch net ok => Some (CloseEpoch net ok a)
  | ONewEpoch => Some (NewEpoch a)
  end.

Definition op_fresh (o : op) (a : Auction) : Prop :=
  match o with OJoin id => peers a !! id = None | _ => True end.

Inductive reachable `{GoRange} : Auction -> Prop :=
  | reach_new : reachable NewAuction
  | reach_step a o a' : reachable a -> op_fresh o a -> exec o a = Some a' -> reachable a'.

(** Executable runs, for the concrete scenarios. *)
Fixpoint run `{GoRange} (os : list op) (a : Auction) : option Auction :=
  match os with
  | [] => Some a
  | o :: os' =>
      if match o with OJoin id => bool_decide (peers a !! id = None) | _ => true end
      then a' ← exec o a; run os' a'
      else None
  end.

(** ** Lemmas on the roster *)

Definition shape (p : Peer) : string * Role * Z := (ID p, PRole p, Seat p).

(** Rosters that differ in the [Sealed] flags only. *)
Definition same_shape (m1 m2 : gmap string Peer) : Prop := shape <$> m1 = shape <$> m2.

#[export] Instance same_shape_equiv : Equivalence same_shape.
Proof.
  unfold same_shape. split.
  - intros m. reflexivity.
  - intros m1 m2. symmetry. done.
  - intros m1 m2 m3 -> ->. done.
Qed.

Lemma same_shape_lookup m1 m2 id p :
  same_shape m1 m2 -> m1 !! id = Some p -> exists q, m2 !! id = Some q /\ shape q = shape p.
Proof.
  unfold same_shape. intros Hs Hp. assert (Hl : (shape <$> m2) !! id = Some (shape p)).
  { rewrite <- Hs, lookup_fmap, Hp. done. }
  rewrite lookup_fmap, fmap_Some in Hl. destruct Hl as (q & ? & ->). eauto.
Qed.

Lemma same_shape_unseal m : same_shape (unseal <$> m) m.
Proof. unfold same_shape. rewrite <- map_fmap_compose. reflexivity. Qed.

Lemma same_shape_seal m id p b :
  m !! id = Some p -> same_shape (<[id := p <| Sealed := b |>]> m) m.
Proof.
  intros Hp. unfold same_shape. rewrite fmap_insert. apply insert_id.
  rewrite lookup_fmap, Hp. reflexivity.
Qed.

Lemma buyers_of_shape m :
  shape <$> buyers_of m = filter (fun kv => kv.2.1.2 = RoleBuyer) (shape <$> m).
Proof. unfold buyers_of. rewrite map_filter_fmap. reflexivity. Qed.

#[export] Instance buyers_size_proper :
  Proper (same_shape ==> eq) (fun m => msize (buyers_of m)).
Proof.
  intros m1 m2 Hs. unfold msize. f_equal.
  rewrite <- (map_size_fmap shape (buyers_of m1)), <- (map_size_fmap shape (buyers_of m2)).
  rewrite !buyers_of_shape. unfold same_shape in Hs. by rewrite Hs.
Qed.

Lemma lookup_buyers_of m id p :
  buyers_of m !! id = Some p <-> m !! id = Some p /\ PRole p = RoleBuyer.
Proof. unfold buyers_of. rewrite map_lookup_filter_Some. reflexivity. Qed.

Lemma buyers_of_insert_buyer m id p :
  m !! id = None -> PRole p = RoleBuyer -> msize (buyers_of (<[id := p]> m)) = msize (buyers_of m) + 1.
Proof.
  intros Hn Hp. unfold buyers_of, msize. rewrite map_filter_insert_True by done.
  rewrite map_size_insert_None; [lia|]. apply map_lookup_filter_None. left. done.
Qed.

Lemma buyers_of_insert_other m id p :
  m !! id = None -> PRole p <> RoleBuyer -> buyers_of (<[id := p]> m) = buyers_of m.
Proof.
  intros Hn Hp. unfold buyers_of. rewrite map_filter_insert_False by done.
  by rewrite delete_id.
Qed.

Lemma buyers_of_delete m id : buyers_of (delete id m) = delete id (buyers_of m).
Proof. unfold buyers_of. apply map_filter_delete. Qed.

Lemma buyers_of_delete_le m id : msize (buyers_of (delete id m)) <= msize (buyers_of m).
Proof.
  rewrite buyers_of_delete. unfold msize.
  destruct (buyers_of m !! id) as [p|] eqn:E.
  - rewrite map_size_delete_Some by eauto. lia.
  - rewrite delete_id by done. lia.
Qed.

(** ** Invariant *)

(** The roster: one entry per joined id, at most one seller, at most five
    buyers, buyers seated in range, everyone else unseated. *)
Record roster_ok (m : gmap string Peer) (ord : list string) : Prop := {
  ro_nodup : NoDup ord;
  ro_dom : forall id, id ∈ ord <-> is_Some (m !! id);
  ro_id : forall id p, m !! id = Some p -> ID p = id;
  ro_seller : forall i j p q, m !! i = Some p -> m !! j = Some q ->
    PRole p = RoleSeller -> PRole q = RoleSeller -> i = j;
  ro_buyers : msize (buyers_of m) <= MaxBuyers;
  ro_seat : forall id p, m !! id = Some p ->
    if is_role RoleBuyer p then 0 <= Seat p < MaxBuyers else Seat p = -1
}.

(** Stored bids and [Sealed] flags describe the same set of seats. *)
Record bids_ok (m : gmap string Peer) (b : gmap Z blob) : Prop := {
  bo_sealed : forall id p, m !! id = Some p -> Sealed p = true ->
    PRole p = RoleBuyer /\ is_Some (b !! Seat p);
  bo_bid : forall s, is_Some (b !! s) -> exists id p,
    m !! id = Some p /\ PRole p = RoleBuyer /\ Sealed p = true /\ Seat p = s
}.

(** The frozen audit party: distinct ids that are all still connected. *)
Definition party_ok (m : gmap string Peer) (party : list string) : Prop :=
  NoDup party /\ forall id, id ∈ party -> is_Some (m !! id).

Record auction_ok (a : Auction) : Prop := {
  ok_roster : roster_ok (peers a) (order a);
  ok_bids : bids_ok (peers a) (bids a);
  ok_hour : 0 <= Hour a < 24;
  ok_winner : 0 <= winnerSeat a -> phase a = PhaseOffer;
  ok_party : epoch a = EpochAudit -> party_ok (peers a) (epochParty a);
  ok_trades : epoch a = EpochOpen -> zlen (trades a) < EpochSize
}.

#[export] Instance roster_ok_proper : Proper (same_shape ==> eq ==> impl) roster_ok.
Proof.
  intros m1 m2 Hs ord _ <- [Hnd Hdom Hid Hsel Hbuy Hseat].
  assert (Hback : forall id q, m2 !! id = Some q -> exists p, m1 !! id = Some p /\ shape p = shape q).
  { intros id q. apply same_shape_lookup. by symmetry. }
  split; try done.
  - intros id. rewrite Hdom. split; intros [p Hp].
    + destruct (same_shape_lookup _ _ _ _ Hs Hp) as (q & -> & _). eauto.
    + destruct (Hback _ _ Hp) as (q & -> & _). eauto.
  - intros id q (p & Hp & Hpq)%Hback. rewrite <- (Hid _ _ Hp).
    unfold shape in Hpq. congruence.
  - intros i j p q (p' & Hp & Hpp)%Hback (q' & Hq & Hqq)%Hback ? ?.
    unfold shape in *. simplify_eq. eapply Hsel; [exact Hp|exact Hq|congruence..].
  - pose proof (buyers_size_proper _ _ Hs) as E. simpl in E. rewrite <- E. done.
  - intros id q (p & Hp & Hpq)%Hback. specialize (Hseat _ _ Hp).
    unfold shape, is_role in *. injection Hpq as Hi Hr Hse. by rewrite <- Hr, <- Hse.
Qed.

Lemma bids_ok_reset m : bids_ok (unseal <$> m) ∅.
Proof.
  split.
  - intros id p. rewrite lookup_fmap_Some. intros (q & <- & _). done.
  - intros s. rewrite lookup_empty. by intros [? ?].
Qed.

Lemma bids_ok_seal m b id p ct :
  m !! id = Some p -> PRole p = RoleBuyer -> bids_ok m b ->
  bids_ok (<[id := p <| Sealed := true |>]> m) (<[Seat p := ct]> b).
Proof.
  intros Hp Hr [Hs Hb]. split.
  - intros i q [[<- <-]|[Hne Hq]]%lookup_insert_Some Hsq; simpl in *.
    + rewrite lookup_insert_eq. eauto.
    + destruct (Hs _ _ Hq Hsq) as [? ?]. split; [done|].
      rewrite lookup_insert. case_decide; eauto.
  - intros s. rewrite lookup_insert. case_decide as Hse.
    + intros _. eexists id, _. rewrite lookup_insert_eq. split; [reflexivity|]. auto.
    + intros (i & q & Hq & Hrq & Hsq & <-)%Hb. exists i, q.
      rewrite lookup_insert_ne; [auto|]. intros ->. simplify_eq. 
Qed.

Lemma roster_ok_join `{GoRange} a id :
  peers a !! id = None -> roster_ok (peers a) (order a) ->
  roster_ok (peers (Join id a).1) (order (Join id a).1).
Proof.
  intros Hn [Hnd Hdom Hid Hsel Hbuy Hseat]. unfold Join.
  set (p := match seller a with None => _ | Some _ => _ end).
  assert (HidP : ID p = id) by (unfold p; repeat case_match; done).
  assert (HselP : PRole p = RoleSeller -> forall j q, peers a !! j = Some q -> PRole q <> RoleSeller).
  { unfold p. destruct (seller a) eqn:E; [by repeat case_match|]. intros _ j q Hj Hq.
    unfold seller in E. rewrite find_range_None in E. specialize (E _ _ Hj).
    unfold is_role in E. rewrite bool_decide_eq_false in E. done. }
  assert (HbuyP : PRole p = RoleBuyer -> Seat p = buyerCount a /\ buyerCount a < MaxBuyers).
  { unfold p. destruct (seller a); [|done]. destruct (buyerCount a <? MaxBuyers) eqn:E; [|done].
    intros _. split; [done|lia]. }
  assert (HothP : PRole p <> RoleBuyer -> Seat p = -1).
  { unfold p. destruct (seller a); [|done]. destruct (buyerCount a <? MaxBuyers); done. }
  clearbody p. simpl. split.
  - apply NoDup_app. split_and!; [done| |apply NoDup_singleton].
    intros x Hx ->%list_elem_of_singleton. apply Hdom in Hx. rewrite Hn in Hx. by destruct Hx.
  - intros i. rewrite elem_of_app, list_elem_of_singleton, Hdom, lookup_insert.
    case_decide; subst; naive_solver.
  - intros i q [[<- <-]|[_ Hq]]%lookup_insert_Some; eauto.
  - intros i j q r [[<- <-]|[? Hq]]%lookup_insert_Some [[<- <-]|[? Hr]]%lookup_insert_Some ? ?;
      [done|exfalso; eapply HselP; eauto..|eauto].
  - destruct (decide (PRole p = RoleBuyer)) as [E|E].
    + rewrite buyers_of_insert_buyer by done. destruct (HbuyP E). unfold buyerCount in *. lia.
    + rewrite buyers_of_insert_other by done. done.
  - intros i q [[<- <-]|[_ Hq]]%lookup_insert_Some; [|by apply (Hseat i)].
    unfold is_role. case_bool_decide as E; [|eauto].
    destruct (HbuyP E) as [-> ?]. unfold buyerCount, msize in *. lia.
Qed.

Lemma roster_ok_leave m ord id :
  roster_ok m ord -> roster_ok (delete id m) (remove_first id ord).
Proof.
  intros [Hnd Hdom Hid Hsel Hbuy Hseat]. split.
  - by apply remove_first_NoDup.
  - intros i. rewrite elem_of_remove_first by done. rewrite Hdom, lookup_delete.
    case_decide; [|naive_solver]. split; [naive_solver|by intros [? ?]].
  - intros i p [_ Hp]%lookup_delete_Some; eauto.
  - intros i j p q [_ Hp]%lookup_delete_Some [_ Hq]%lookup_delete_Some; eauto.
  - pose proof (buyers_of_delete_le m id). lia.
  - intros i p [_ Hp]%lookup_delete_Some. by apply (Hseat i).
Qed.

Lemma bids_ok_insert_unsealed m b id p :
  m !! id = None -> Sealed p = false -> bids_ok m b -> bids_ok (<[id := p]> m) b.
Proof.
  intros Hn Hp [Hs Hb]. split.
  - intros i q [[<- <-]|[_ Hq]]%lookup_insert_Some; [congruence|eauto].
  - intros s (i & q & Hq & ?)%Hb. exists i, q. rewrite lookup_insert_ne; [done|congruence].
Qed.

Lemma bids_ok_delete_unsealed m b id :
  (forall p, m !! id = Some p -> Sealed p = false) -> bids_ok m b -> bids_ok (delete id m) b.
Proof.
  intros Hn [Hs Hb]. split.
  - intros i p [_ Hp]%lookup_delete_Some; eauto.
  - intros s (i & q & Hq & ? & ? & ?)%Hb. exists i, q. rewrite lookup_delete_ne; [done|].
    intros ->. rewrite (Hn _ Hq) in *. done.
Qed.

(** ** Preservation *)

(** What [resetLocked] does not repair by itself. *)
Record base_ok (a : Auction) : Prop := {
  ba_roster : roster_ok (peers a) (order a);
  ba_hour : 0 <= Hour a < 24;
  ba_party : epoch a = EpochAudit -> party_ok (peers a) (epochParty a);
  ba_trades : epoch a = EpochOpen -> zlen (trades a) < EpochSize
}.

Lemma auction_base a : auction_ok a -> base_ok a.
Proof. intros []. by split. Qed.

Lemma party_unseal m party : party_ok m party -> party_ok (unseal <$> m) party.
Proof. intros [? Hp]. split; [done|]. intros id Hid. rewrite lookup_fmap, fmap_is_Some. auto. Qed.

Lemma roster_unseal m ord : roster_ok m ord -> roster_ok (unseal <$> m) ord.
Proof. apply roster_ok_proper; [|done]. symmetry. apply same_shape_unseal. Qed.

#[local] Hint Resolve auction_base party_unseal roster_unseal bids_ok_reset : auction.
#[local] Hint Resolve ba_roster ba_hour ba_party ba_trades : auction.

Lemma resetLocked_ok a : base_ok a -> auction_ok (resetLocked a).
Proof.
  intros [Hro Hho Hpa Htr]. split; cbn; auto with auction; lia.
Qed.

Lemma publish_ok pk ek a : auction_ok a -> auction_ok (PublishKeys pk ek a).
Proof.
  intros [Hro Hbi Hho Hwi Hpa Htr]. split; cbn; auto with auction; lia.
Qed.

Lemma setHour_ok h a : auction_ok a -> auction_ok (SetHour h a).
Proof.
  intros [Hro Hbi Hho Hwi Hpa Htr]. apply resetLocked_ok. split; cbn; auto.
  Z.to_euclidean_division_equations. lia.
Qed.

Lemma leave_base_ok id a :
  base_ok a -> (epoch a = EpochAudit -> id ∉ epochParty a) ->
  base_ok (a <| peers := delete id (peers a) |> <| order := remove_first id (order a) |>).
Proof.
  intros [Hro Hho Hpa Htr] Hn. split; cbn; auto using roster_ok_leave.
  intros He. destruct (Hpa He) as [? Hall]. split; [done|]. intros i Hi.
  rewrite lookup_delete_ne by (intros ->; by apply (Hn He)). auto.
Qed.

Lemma leave_keep_ok id a :
  auction_ok a -> (epoch a = EpochAudit -> id ∉ epochParty a) ->
  (forall p, peers a !! id = Some p -> Sealed p = false) ->
  auction_ok (a <| peers := delete id (peers a) |> <| order := remove_first id (order a) |>).
Proof.
  intros Hok Hn Hu. destruct (leave_base_ok id a (auction_base _ Hok) Hn).
  destruct Hok. split; cbn in *; auto using bids_ok_delete_unsealed.
Qed.

(** [Leave] runs the departure on a state whose audit, if the leaver is in
    it, is aborted; the order of the two does not matter. *)
Definition abort_audit (a : Auction) : Auction :=
  a <| epochAbort := "a participant left mid-audit" |> <| epoch := EpochReady |>
    <| epochParty := [] |> <| epochTotals := ∅ |> <| epochPartials := ∅ |> <| chainPos := 0 |>.

Definition audit_if (id : string) (a : Auction) : Auction :=
  if bool_decide (epoch a = EpochAudit) && bool_decide (id ∈ epochParty a)
  then abort_audit a else a.

Lemma Leave_eq id a :
  let b := audit_if id a in
  let b' := b <| peers := delete id (peers b) |> <| order := remove_first id (order b) |> in
  Leave id a =
    match peers a !! id with
    | Some p => if is_role RoleSeller p || Sealed p then resetLocked b' else b'
    | None => b'
    end.
Proof.
  unfold Leave, audit_if. destruct (peers a !! id) as [p|].
  1: destruct (is_role RoleSeller p || Sealed p).
  all: cbn; repeat case_bool_decide; reflexivity.
Qed.

Lemma audit_if_ok id a :
  auction_ok a -> auction_ok (audit_if id a) /\
  (epoch (audit_if id a) = EpochAudit -> id ∉ epochParty (audit_if id a)).
Proof.
  intros Hok. unfold audit_if. case_match eqn:E.
  - split; [|done]. destruct Hok. split; cbn; auto; done.
  - split; [done|]. intros He. rewrite He in E. simpl in E.
    by apply bool_decide_eq_false in E.
Qed.

Lemma leave_ok id a : auction_ok a -> auction_ok (Leave id a).
Proof.
  intros Hok. rewrite Leave_eq. destruct (audit_if_ok id a Hok) as [Hok' Hn].
  assert (Hp : peers (audit_if id a) = peers a) by (unfold audit_if; by case_match).
  rewrite <- Hp. destruct (peers (audit_if id a) !! id) as [p|] eqn:E.
  - destruct (is_role RoleSeller p || Sealed p) eqn:Er;
      [auto using resetLocked_ok, leave_base_ok, auction_base|].
    apply orb_false_iff in Er as [_ Er]. apply leave_keep_ok; [done..|congruence].
  - apply leave_keep_ok; [done..|congruence].
Qed.

Lemma join_ok `{GoRange} id a : peers a !! id = None -> auction_ok a -> auction_ok (Join id a).1.
Proof.
  intros Hn [Hro Hbi Hho Hwi Hpa Htr].
  split; [by apply roster_ok_join| |done|done| |done].
  - apply bids_ok_insert_unsealed; [done|by repeat case_match|done].
  - intros He. destruct (Hpa He) as [? Hall]. split; [done|]. intros i Hi. cbn.
    rewrite lookup_insert_ne; [auto|]. intros <-. destruct (Hall _ Hi). congruence.
Qed.

Lemma submitBid_ok id kid ct a : auction_ok a -> auction_ok (SubmitBid id kid ct a).1.
Proof.
  intros Hok. unfold SubmitBid. destruct (peers a !! id) as [p|] eqn:Hp; [|done].
  destruct (negb _ || negb _) eqn:E; [done|]. destruct (negb (kid =? keyID a)); [done|].
  apply orb_false_iff in E as [Er%negb_false_iff%bool_decide_eq_true
    Eph%negb_false_iff%bool_decide_eq_true].
  set (a' := a <| bids := _ |> <| peers := _ |>).
  assert (Hok' : auction_ok a').
  { destruct Hok as [Hro Hbi Hho Hwi Hpa Htr]. split; cbn; auto.
    - eapply roster_ok_proper; [|done|exact Hro]. symmetry. by apply same_shape_seal.
    - by apply bids_ok_seal.
    - intros He. destruct (Hpa He) as [? Hall]. split; [done|]. intros i Hi.
      rewrite lookup_insert. case_decide; eauto. }
  case_match; [done|]. simpl. destruct Hok' as [? ? ? Hwi ? ?]. split; cbn; auto.
  intros Hw. specialize (Hwi Hw). cbn in Hwi. congruence.
Qed.

Lemma settle_ok now acc a : auction_ok a -> auction_ok (Settle now acc a).1.
Proof.
  intros Hok. unfold Settle. case_match; [done|].
  destruct Hok as [Hro Hbi Hho Hwi Hpa Htr]. simpl.
  assert (Hh : 0 <= Z.rem (Hour a + 1) 24 < 24) by (Z.to_euclidean_division_equations; lia).
  case_bool_decide as He; simpl; [case_match eqn:El|]; split; cbn in *; auto with auction;
    try lia; done.
Qed.

Lemma startEpoch_ok a : auction_ok a -> auction_ok (StartEpochChain a).1.
Proof.
  intros Hok. unfold StartEpochChain. case_bool_decide; [done|].
  destruct Hok as [Hro Hbi Hho Hwi Hpa Htr]. split; cbn; auto; [|done].
  intros _. split; [apply Hro|]. intros id Hid. by apply (ro_dom _ _ Hro).
Qed.

Lemma newEpoch_ok a : auction_ok a -> auction_ok (NewEpoch a).
Proof.
  intros [Hro Hbi Hho Hwi Hpa Htr]. apply resetLocked_ok.
  split; cbn; auto; try done.
Qed.

Lemma exec_ok `{GoRange} o a a' :
  auction_ok a -> op_fresh o a -> exec o a = Some a' -> auction_ok a'.
Proof.
  intros Hok Hf He. destruct o; unfold exec in He; simplify_eq;
    auto using join_ok, leave_ok, setHour_ok, publish_ok, submitBid_ok, settle_ok, startEpoch_ok,
      newEpoch_ok.
  - apply resetLocked_ok. auto with auction.
  - destruct Hok; split; cbn in *; auto.
  - destruct Hok; split; cbn in *; auto.
  - unfold AdvanceEpochChain in He. case_match; simplify_option_eq;
      destruct Hok; split; cbn in *; auto.
  - destruct Hok; split; cbn in *; auto.
  - unfold SubmitEpochTotal. case_match; [done|]. destruct Hok; split; cbn in *; auto.
  - destruct Hok; split; cbn in *; auto; done.
Qed.

Lemma NewAuction_ok : auction_ok NewAuction.
Proof.
  split; cbn; try done; split; cbn; try done.
  - constructor.
  - intros id. rewrite lookup_empty. split; [by intros ?%not_elem_of_nil|by intros [? ?]].
  - intros s. rewrite lookup_empty. by intros [? ?].
Qed.

(** ** Counting sealed seats *)

Lemma size_list_to_set_le (l : list Z) : (size (list_to_set l : gset Z) <= length l)%nat.
Proof.
  induction l as [|x l IH]; [by vm_compute|].
  rewrite list_to_set_cons, size_union_alt, size_singleton.
  pose proof (subseteq_size (list_to_set l ∖ {[x]}) (list_to_set l : gset Z) ltac:(set_solver)).
  simpl. lia.
Qed.

(** A set of seats each held by a buyer is no larger than the buyer count. *)
Lemma seats_le_buyers (X : gset Z) m :
  (forall s, s ∈ X -> exists id p, buyers_of m !! id = Some p /\ Seat p = s) ->
  Z.of_nat (size X) <= msize (buyers_of m).
Proof.
  intros HX. set (l := Seat <$> (map_to_list (buyers_of m)).*2).
  assert (Hsub : X ⊆ list_to_set l).
  { intros s Hs. destruct (HX _ Hs) as (id & p & Hp & <-). apply elem_of_list_to_set.
    unfold l. apply list_elem_of_fmap_2. apply list_elem_of_fmap. exists (id, p).
    split; [done|]. by apply elem_of_map_to_list. }
  pose proof (subseteq_size _ _ Hsub). pose proof (size_list_to_set_le l).
  unfold l in *. rewrite !length_fmap, length_map_to_list in *. unfold msize. lia.
Qed.

Definition share_seat (m : gmap string Peer) : Prop :=
  exists i j p q, i <> j /\ buyers_of m !! i = Some p /\ buyers_of m !! j = Some q /\
    Seat p = Seat q.

Definition seats_distinct (m : gmap string Peer) : Prop :=
  forall i j p q, buyers_of m !! i = Some p -> buyers_of m !! j = Some q -> Seat p = Seat q -> i = j.

Lemma bids_lt_shared m b : bids_ok m b -> share_seat m -> msize b < msize (buyers_of m).
Proof.
  intros [_ Hb] (i & j & p & q & Hij & Hp & Hq & Hpq).
  assert (Hle : Z.of_nat (size (dom b)) <= msize (buyers_of (delete i m))).
  { apply seats_le_buyers. intros s Hs%elem_of_dom. destruct (Hb _ Hs) as (k & r & Hr & Hrr & _ & <-).
    destruct (decide (k = i)) as [->|Hk].
    - exists j, q. rewrite buyers_of_delete, lookup_delete_ne by done. split; [done|].
      apply lookup_buyers_of in Hp as [Hp _]. congruence.
    - exists k, r. rewrite buyers_of_delete, lookup_delete_ne by done.
      by rewrite lookup_buyers_of. }
  rewrite size_dom in Hle. rewrite buyers_of_delete in Hle. unfold msize in *.
  rewrite map_size_delete_Some in Hle by eauto.
  assert (size (buyers_of m) <> 0)%nat; [|lia].
  intros Hz%map_size_empty_inv. rewrite Hz, lookup_empty in Hp. done.
Qed.

(** With distinct seats, one stored bid per buyer means everyone has sealed. *)
Lemma all_sealed_iff m b :
  bids_ok m b -> seats_distinct m ->
  (msize (buyers_of m) <= msize b <-> forall id p, buyers_of m !! id = Some p -> Sealed p = true).
Proof.
  intros [Hs Hb] Hd. split.
  - intros Hle id p Hp. destruct (Sealed p) eqn:E; [done|exfalso].
    assert (Hle' : Z.of_nat (size (dom b)) <= msize (buyers_of (delete id m))).
    { apply seats_le_buyers. intros s Hin%elem_of_dom.
      destruct (Hb _ Hin) as (k & r & Hr & Hrr & Hsr & <-).
      exists k, r. rewrite buyers_of_delete, lookup_delete_ne, lookup_buyers_of; [done|].
      intros <-. apply lookup_buyers_of in Hp as [Hp _]. congruence. }
    rewrite size_dom, buyers_of_delete in Hle'. unfold msize in *.
    rewrite map_size_delete_Some in Hle' by eauto.
    assert (size (buyers_of m) <> 0)%nat; [|lia].
    intros Hz%map_size_empty_inv. rewrite Hz, lookup_empty in Hp. done.
  - intros Hall. set (l := Seat <$> (map_to_list (buyers_of m)).*2).
    assert (Hnd : NoDup l).
    { unfold l. rewrite <- list_fmap_compose. apply NoDup_fmap_2_strong.
      2: apply NoDup_map_to_list.
      intros [i p] [j q] Hi%elem_of_map_to_list Hj%elem_of_map_to_list Heq. simpl in Heq.
      pose proof (Hd _ _ _ _ Hi Hj Heq) as ->. congruence. }
    assert (Hsub : list_to_set l ⊆ dom b).
    { intros s Hin%elem_of_list_to_set. unfold l in Hin.
      apply list_elem_of_fmap in Hin as (p & -> & Hin).
      apply list_elem_of_fmap in Hin as ([i p'] & -> & Hin%elem_of_map_to_list). simpl.
      apply elem_of_dom. pose proof (Hall _ _ Hin). apply lookup_buyers_of in Hin as [Hin _].
      by destruct (Hs _ _ Hin). }
    pose proof (subseteq_size _ _ Hsub) as Hz. rewrite size_list_to_set in Hz by done.
    unfold l in Hz. rewrite !length_fmap, length_map_to_list, size_dom in Hz. unfold msize. lia.
Qed.

(** ** Single-step facts *)

(** The guard of [SubmitBid]. *)
Definition bid_eligible (id : string) (kid : Z) (a : Auction) (p : Peer) : Prop :=
  peers a !! id = Some p /\ PRole p = RoleBuyer /\ phase a = PhaseBidding /\ kid = keyID a.

Definition with_bid (id : string) (p : Peer) (ct : blob) (a : Auction) : Auction :=
  a <| bids := <[Seat p := ct]> (bids a) |> <| peers := <[id := p <| Sealed := true |>]> (peers a) |>.

Lemma SubmitBid_eligible id kid ct a p :
  bid_eligible id kid a p ->
  SubmitBid id kid ct a =
    if (msize (bids (with_bid id p ct a)) <? buyerCount (with_bid id p ct a))
       || (buyerCount (with_bid id p ct a) =? 0)
    then (with_bid id p ct a, BidStored)
    else (with_bid id p ct a <| phase := PhaseEvaluating |>, BidComplete).
Proof.
  intros (Hp & Hr & Hph & ->). unfold SubmitBid. rewrite Hp. unfold is_role.
  rewrite !bool_decide_eq_true_2 by done. simpl. by rewrite Z.eqb_refl.
Qed.

Lemma SubmitBid_ineligible id kid ct a :
  (forall p, ~ bid_eligible id kid a p) -> SubmitBid id kid ct a = (a, BidRejected).
Proof.
  intros Hn. unfold SubmitBid. destruct (peers a !! id) as [p|] eqn:Hp; [|done].
  destruct (is_role RoleBuyer p) eqn:Hr; [|done].
  destruct (bool_decide (phase a = PhaseBidding)) eqn:Hph; [|done].
  destruct (kid =? keyID a) eqn:Hk; [|done]. exfalso. apply (Hn p).
  apply bool_decide_eq_true in Hr, Hph. apply Z.eqb_eq in Hk. by split.
Qed.

Lemma bid_eligible_dec id kid a :
  {p | bid_eligible id kid a p} + {forall p, ~ bid_eligible id kid a p}.
Proof.
  unfold bid_eligible. destruct (peers a !! id) as [p|]; [|right; naive_solver].
  destruct (decide (PRole p = RoleBuyer /\ phase a = PhaseBidding /\ kid = keyID a)).
  - left. exists p. naive_solver.
  - right. naive_solver.
Qed.

Lemma with_bid_ok id kid p ct a :
  bid_eligible id kid a p -> auction_ok a -> bids_ok (peers (with_bid id p ct a)) (bids (with_bid id p ct a)).
Proof. intros (Hp & Hr & _) Hok. apply bids_ok_seal; [done..|apply Hok]. Qed.

Lemma with_bid_buyers id p ct a :
  peers a !! id = Some p -> buyerCount (with_bid id p ct a) = buyerCount a.
Proof. intros Hp. apply buyers_size_proper. by apply same_shape_seal. Qed.

Lemma buyerCount_pos a id p : peers a !! id = Some p -> PRole p = RoleBuyer -> 0 < buyerCount a.
Proof.
  intros Hp Hr. unfold buyerCount, msize.
  assert (size (buyers_of (peers a)) <> 0)%nat; [|lia].
  intros Hz%map_size_empty_inv.
  assert (Hb : buyers_of (peers a) !! id = Some p) by by apply lookup_buyers_of.
  by rewrite Hz, lookup_empty in Hb.
Qed.

Lemma buyers_of_seal m id p i q b :
  m !! id = Some p -> buyers_of (<[id := p <| Sealed := b |>]> m) !! i = Some q ->
  exists q', buyers_of m !! i = Some q' /\ Seat q' = Seat q.
Proof.
  intros Hp Hq. apply lookup_buyers_of in Hq as [[[<- <-]|[? Hq]]%lookup_insert_Some Hr].
  - exists p. by rewrite lookup_buyers_of.
  - exists q. by rewrite lookup_buyers_of.
Qed.

Lemma share_seat_seal m id p b :
  m !! id = Some p -> share_seat m -> share_seat (<[id := p <| Sealed := b |>]> m).
Proof.
  intros Hp (i & j & q & r & Hij & Hq & Hr & Hqr).
  set (up := fun k (x : Peer) => if decide (k = id) then p <| Sealed := b |> else x).
  assert (Hup : forall k x, buyers_of m !! k = Some x ->
    buyers_of (<[id := p <| Sealed := b |>]> m) !! k = Some (up k x) /\ Seat (up k x) = Seat x).
  { intros k x [Hx Hrx]%lookup_buyers_of. unfold up. rewrite lookup_buyers_of, lookup_insert.
    repeat case_decide; subst; simplify_eq; auto. }
  destruct (Hup _ _ Hq) as [Hq' Eq], (Hup _ _ Hr) as [Hr' Er].
  exists i, j, (up i q), (up j r). split_and!; [done..|congruence].
Qed.
End EnergyAuction.
