(* ===== verification/AuctionTheorems.v ===== *)
(** * Theorems on the auction state machine

    The claims about [EnergyAuction]: its invariant on every interleaving of
    the methods, the behaviour of bidding, settlement and the epoch audit,
    and the independence of the broadcast state from the ciphertexts. *)

From S2P Require Import Prelude Float64 Market EnergyAuction.
Import EnergyAuction.

#[local] Open Scope Z_scope.
#[local] Open Scope go_scope.

Module AuctionTheorems.

(** ** Runs *)

Lemma run_reachable `{GoRange} os a a' : reachable a -> run os a = Some a' -> reachable a'.
Proof.
  revert a. induction os as [|o os IH]; intros a Hr Hrun; simpl in Hrun; [by simplify_eq|].
  case_match eqn:Hf; [|done]. destruct (exec o a) as [b|] eqn:He; [|done]. simpl in Hrun.
  apply (IH b); [|done]. eapply reach_step; [done| |done].
  destruct o; try done. by apply bool_decide_eq_true in Hf.
Qed.

Lemma reachable_auction_ok `{GoRange} a : reachable a -> auction_ok a.
Proof. induction 1; eauto using NewAuction_ok, exec_ok. Qed.

Lemma run_cons `{GoRange} o os a :
  op_fresh o a -> run (o :: os) a = (b ← exec o a; run os b).
Proof.
  intros Hf. simpl. destruct o; try done. simpl in Hf. by rewrite bool_decide_eq_true_2.
Qed.

(** A seller and two buyers, the round's key published. *)
Definition demo_ops : list op :=
  [OJoin "p1"; OJoin "p2"; OJoin "p3"; OPublishKeys "pk" "ek"].

Definition demo : Auction := Eval vm_compute in default NewAuction (@run sorted_range demo_ops NewAuction).

Lemma demo_reachable : @reachable sorted_range demo.
Proof. apply (@run_reachable sorted_range demo_ops NewAuction); [constructor|vm_compute; reflexivity]. Qed.

(** C2: on every interleaving of the relay's operations (each connection id
    joining once) the auction keeps its invariant: the roster lists exactly
    the connected ids once each, with at most one seller and at most five
    buyers seated in [0,5); the stored ciphertexts are exactly those of the
    sealed buyers' seats; a winner is recorded only in the offer phase; the
    hour stays in [0,24); a running audit is over distinct connected ids; and
    an open epoch has fewer than [EpochSize] trades. *)
Theorem auction_invariant `{GoRange} (a : Auction) (Hr : reachable a) : auction_ok a.
Proof. by apply reachable_auction_ok. Qed.

Lemma auction_invariant_witness : auction_ok demo.
Proof. apply (@auction_invariant sorted_range demo). exact demo_reachable. Defined.

(** ** Bidding *)

(** [SubmitBid] accepts exactly the bids of a connected buyer, in the
    bidding phase, sealed under the key of the running round.  A refused bid
    changes nothing; an accepted one stores the ciphertext at the bidder's own
    seat, marks that peer alone as sealed and leaves every other field as it
    was, the phase moving to evaluating exactly when the bid completes. *)
Lemma SubmitBid_spec (id : string) (kid : Z) (ct : blob) (a : Auction) :
  match SubmitBid id kid ct a with
  | (a', BidRejected) => a' = a /\ forall p, ~ bid_eligible id kid a p
  | (a', BidStored) => exists p, bid_eligible id kid a p /\ a' = with_bid id p ct a
  | (a', BidComplete) => exists p, bid_eligible id kid a p /\
      a' = with_bid id p ct a <| phase := PhaseEvaluating |> /\
      buyerCount a <= msize (bids a')
  end.
Proof.
  destruct (bid_eligible_dec id kid a) as [[p Hp]|Hn].
  - rewrite (SubmitBid_eligible _ _ _ _ _ Hp). destruct (_ || _) eqn:E; [by exists p|].
    exists p. split_and!; [done..|]. apply orb_false_iff in E as [E _].
    destruct Hp as (Hp & _). rewrite with_bid_buyers in E by done. cbn in *. lia.
  - by rewrite SubmitBid_ineligible.
Qed.

Lemma SubmitBid_complete_iff id kid ct a p :
  bid_eligible id kid a p ->
  (SubmitBid id kid ct a).2 = BidComplete <->
  msize (buyers_of (peers (with_bid id p ct a))) <= msize (bids (with_bid id p ct a)).
Proof.
  intros Hp. rewrite (SubmitBid_eligible _ _ _ _ _ Hp).
  destruct Hp as (Hl & Hr & _). pose proof (buyerCount_pos _ _ _ Hl Hr).
  rewrite with_bid_buyers by done.
  change (msize (buyers_of (peers (with_bid id p ct a)))) with (buyerCount (with_bid id p ct a)).
  rewrite with_bid_buyers by done. destruct (_ || _) eqn:E; cbn in *.
  - apply orb_true_iff in E. split; [done|lia].
  - apply orb_false_iff in E. split; [lia|done].
Qed.

(** When no two buyers share a seat, an accepted bid is reported complete
    exactly when it leaves every seated buyer sealed, which is when the
    ciphertexts are handed to the evaluator. *)
Lemma SubmitBid_completes (id : string) (kid : Z) (ct : blob) (a : Auction) (p : Peer)
    (Hok : auction_ok a) (Hd : seats_distinct (peers a)) (He : bid_eligible id kid a p) :
  (SubmitBid id kid ct a).2 = BidComplete <->
  forall j q, peers (SubmitBid id kid ct a).1 !! j = Some q -> PRole q = RoleBuyer -> Sealed q = true.
Proof.
  rewrite (SubmitBid_complete_iff _ _ _ _ _ He), all_sealed_iff.
  - setoid_rewrite lookup_buyers_of. rewrite (SubmitBid_eligible _ _ _ _ _ He).
    case_match; simpl; naive_solver.
  - by eapply with_bid_ok.
  - intros i j q r Hi Hj Hs. destruct He as (Hp & _).
    apply (buyers_of_seal _ _ _ _ _ _ Hp) in Hi as (q' & Hq & Eq).
    apply (buyers_of_seal _ _ _ _ _ _ Hp) in Hj as (r' & Hr & Er).
    eapply Hd; [exact Hq|exact Hr|congruence].
Qed.

Lemma demo_seats_distinct : seats_distinct (peers demo).
Proof.
  assert (Hb : buyers_of (peers demo) =
    {[ "p2" := mkPeer "p2" RoleBuyer 0 false; "p3" := mkPeer "p3" RoleBuyer 1 false ]})
    by (vm_compute; reflexivity).
  intros i j p q Hi Hj Hs. rewrite Hb in Hi, Hj.
  apply lookup_insert_Some in Hi as [[<- <-]|[_ [<- <-]%lookup_singleton_Some]];
  apply lookup_insert_Some in Hj as [[<- <-]|[_ [<- <-]%lookup_singleton_Some]]; done.
Qed.

Lemma SubmitBid_completes_witness :
  (SubmitBid "p3" 1 "c3" (SubmitBid "p2" 1 "c2" demo).1).2 = BidComplete /\
  ((SubmitBid "p2" 1 "c2" demo).2 = BidComplete <->
   forall j q, peers (SubmitBid "p2" 1 "c2" demo).1 !! j = Some q -> PRole q = RoleBuyer -> Sealed q = true).
Proof.
  split; [vm_compute; reflexivity|].
  apply (SubmitBid_completes "p2" 1 "c2" demo (mkPeer "p2" RoleBuyer 0 false)).
  - apply (@reachable_auction_ok sorted_range). exact demo_reachable.
  - exact demo_seats_distinct.
  - split; [reflexivity|]. split; [reflexivity|]. split; reflexivity.
Defined.

(** ** Round keys *)

Definition is_publish (o : op) : bool := match o with OPublishKeys _ _ => true | _ => false end.

Definition publishes (os : list op) : Z := zlen (base.filter (fun o => is_publish o = true) os).

Lemma publishes_cons o os : publishes (o :: os) = (if is_publish o then 1 else 0) + publishes os.
Proof. unfold publishes, zlen. rewrite filter_cons. destruct (is_publish o); simpl; lia. Qed.

Lemma exec_keyID `{GoRange} o a a' :
  exec o a = Some a' -> keyID a' = if is_publish o then wrap64 (keyID a + 1) else keyID a.
Proof.
  intros He. destruct o; unfold exec in He; simplify_eq; try reflexivity.
  - rewrite Leave_eq. unfold audit_if. cbn [is_publish]. by repeat case_match.
  - unfold SubmitBid. cbn [is_publish]. by repeat case_match.
  - unfold Settle. cbn [is_publish]. repeat case_match; reflexivity.
  - unfold StartEpochChain. cbn [is_publish]. by case_match.
  - unfold AdvanceEpochChain in He. case_match; simplify_option_eq; reflexivity.
  - unfold SubmitEpochTotal. cbn [is_publish]. by case_match.
Qed.

Lemma run_keyID `{GoRange} os a a' :
  in_int64 (keyID a) -> run os a = Some a' -> keyID a' = wrap64 (keyID a + publishes os).
Proof.
  revert a. induction os as [|o os IH]; intros a Hk Hr; simpl in Hr.
  - simplify_eq. unfold publishes. simpl. rewrite Z.add_0_r, wrap64_small; done.
  - case_match; [|done]. destruct (exec o a) as [b|] eqn:He; [|done]. simpl in Hr.
    pose proof (exec_keyID _ _ _ He) as Hb.
    assert (Hbk : in_int64 (keyID b)) by (rewrite Hb; case_match; auto using wrap64_range).
    rewrite (IH _ Hbk Hr), publishes_cons, Hb. destruct (is_publish o); [|by rewrite Z.add_0_l].
    unfold wrap64. f_equal.
    replace ((keyID a + 1 + 2 ^ 63) mod 2 ^ 64 - 2 ^ 63 + publishes os + 2 ^ 63)
      with ((keyID a + 1 + 2 ^ 63) mod 2 ^ 64 + publishes os) by lia.
    rewrite Zplus_mod_idemp_l. f_equal. lia.
Qed.

(** A bid sealed under a superseded round key is refused.  After any run
    that publishes keys at least once (and fewer than 2^64 times), a bid that
    names the key id of the run's start is rejected and changes nothing,
    whoever sends it and whatever phase the round is in. *)
Lemma stale_bid_rejected `{GoRange} (os : list op) (a a' : Auction) (id : string) (ct : blob)
    (Hk : in_int64 (keyID a)) (Hrun : run os a = Some a') (Hp : 0 < publishes os < 2 ^ 64) :
  SubmitBid id (keyID a) ct a' = (a', BidRejected).
Proof.
  apply SubmitBid_ineligible. intros p (_ & _ & _ & He).
  rewrite (run_keyID _ _ _ Hk Hrun) in He.
  rewrite <- (wrap64_small (keyID a)) in He at 1 by done.
  apply wrap64_inj_lt in He; lia.
Qed.

Lemma stale_bid_rejected_witness :
  @run sorted_range [OReset; OPublishKeys "pk2" "ek2"] demo =
    Some (PublishKeys "pk2" "ek2" (Reset demo)) /\
  SubmitBid "p2" (keyID demo) "old" (PublishKeys "pk2" "ek2" (Reset demo)) =
    (PublishKeys "pk2" "ek2" (Reset demo), BidRejected).
Proof.
  split; [reflexivity|].
  apply (@stale_bid_rejected sorted_range [OReset; OPublishKeys "pk2" "ek2"] demo).
  - unfold in_int64. vm_compute. split; [discriminate|reflexivity].
  - reflexivity.
  - vm_compute. split; reflexivity.
Defined.

(** ** Seat collisions *)

Definition is_bid (o : op) : bool := match o with OSubmitBid _ _ _ => true | _ => false end.

Lemma shared_bid_step id kid ct a :
  auction_ok a -> share_seat (peers a) ->
  auction_ok (SubmitBid id kid ct a).1 /\ share_seat (peers (SubmitBid id kid ct a).1) /\
  phase (SubmitBid id kid ct a).1 = phase a /\ (SubmitBid id kid ct a).2 <> BidComplete.
Proof.
  intros Hok Hsh. split; [by apply submitBid_ok|].
  destruct (bid_eligible_dec id kid a) as [[p Hp]|Hn]; [|by rewrite SubmitBid_ineligible].
  assert (Hsh' : share_seat (peers (with_bid id p ct a))) by (apply share_seat_seal; [apply Hp|done]).
  assert (Hlt : msize (bids (with_bid id p ct a)) < buyerCount (with_bid id p ct a)).
  { apply bids_lt_shared; [by eapply with_bid_ok|done]. }
  rewrite (SubmitBid_eligible _ _ _ _ _ Hp), (proj2 (Z.ltb_lt _ _) Hlt). simpl. done.
Qed.

Lemma shared_run_stalls `{GoRange} os a a' :
  auction_ok a -> share_seat (peers a) -> forallb is_bid os = true -> run os a = Some a' ->
  phase a' = phase a.
Proof.
  revert a. induction os as [|o os IH]; intros a Hok Hsh Hb Hr; simpl in *; [by simplify_eq|].
  apply andb_true_iff in Hb as [Ho Hb]. destruct o; try done. simpl in Hr.
  edestruct shared_bid_step as (Hok' & Hsh' & Hph & _); [exact Hok|exact Hsh|].
  rewrite <- Hph. by eapply IH.
Qed.

(** Four buyers' worth of joins, the lowest-seated buyer leaves before the
    round and another tab joins. *)
Definition collision_ops : list op :=
  [OJoin "p1"; OJoin "p2"; OJoin "p3"; OJoin "p4"; OLeave "p2"; OJoin "p5"; OPublishKeys "pk" "ek"].

Definition collision : Auction := Eval vm_compute in default NewAuction (@run sorted_range collision_ops NewAuction).

Lemma collision_shares : share_seat (peers collision).
Proof.
  exists "p4", "p5", (mkPeer "p4" RoleBuyer 2 false), (mkPeer "p5" RoleBuyer 2 false).
  split; [done|]. split_and!; vm_compute; reflexivity.
Qed.

(** The same map visited backwards. *)
Definition reversed_range : GoRange :=
  {| range_of := fun V m => reverse (map_to_list m);
     range_of_perm := fun V m => reverse_Permutation (map_to_list m) |}.

(** Seats are not reused safely.  [Join] seats a buyer at the current
    buyer count, so after a lower-seated buyer leaves, the next one shares a
    seat: a reachable bidding state has two buyers in one seat, from it no
    sequence of bids by anybody ever completes the round, and the winner of
    that seat is whichever buyer the map iteration meets first. *)
Lemma seat_collision_stalls :
  @reachable sorted_range collision /\ phase collision = PhaseBidding /\
  share_seat (peers collision) /\
  (forall (R : GoRange) os a', forallb is_bid os = true -> @run R os collision = Some a' ->
     phase a' = PhaseBidding) /\
  @PeerAtSeat sorted_range 2 collision <> @PeerAtSeat reversed_range 2 collision.
Proof.
  assert (Hr : @reachable sorted_range collision).
  { apply (@run_reachable sorted_range collision_ops NewAuction); [constructor|vm_compute; reflexivity]. }
  split; [done|]. split; [reflexivity|]. split; [apply collision_shares|]. split.
  - intros R os a' Hb Hrun. change PhaseBidding with (phase collision).
    eapply shared_run_stalls; [|apply collision_shares|done..].
    by apply (@reachable_auction_ok sorted_range).
  - vm_compute. discriminate.
Qed.

(** With distinct seats [PeerAtSeat] names the buyer of the seat, so the
    private "won" message goes to exactly that tab, for every iteration order
    of the peer map. *)
Lemma PeerAtSeat_winner `{GoRange} (a : Auction) (id : string) (p : Peer)
    (Hok : auction_ok a) (Hd : seats_distinct (peers a))
    (Hp : peers a !! id = Some p) (Hr : PRole p = RoleBuyer) :
  PeerAtSeat (Seat p) a = id.
Proof.
  unfold PeerAtSeat. destruct (find_value _ _) as [q|] eqn:E.
  - apply find_range_Some in E as (j & Hj & Hq). apply andb_true_iff in Hq as [Hq Hs].
    apply bool_decide_eq_true in Hq. apply Z.eqb_eq in Hs.
    rewrite (ro_id _ _ (ok_roster _ Hok) _ _ Hj).
    eapply Hd; [by apply lookup_buyers_of..|done].
  - rewrite find_range_None in E. specialize (E _ _ Hp). unfold is_role in E.
    rewrite bool_decide_eq_true_2, Z.eqb_refl in E by done. done.
Qed.

(** ** Settlement *)

(** [Settle] without a recorded winner changes nothing and returns -1.
    Otherwise it returns the winning seat, puts exactly one trade in front of
    the log (the current slot, the opened price, the seller's decision and
    the number of sealed bids), clears the round (no ciphertext, key, mask or
    winner survives and nobody stays sealed), moves to the next delivery
    hour, and readies the epoch exactly when it was open and now holds
    [EpochSize] trades. *)
Lemma Settle_spec (now : string) (accepted : bool) (a : Auction) :
  match Settle now accepted a with
  | (a', s) =>
      (winnerSeat a < 0 /\ a' = a /\ s = -1) \/
      (0 <= winnerSeat a /\ s = winnerSeat a /\
       trades a' = mkTrade now (Hour a) (priceCt a) accepted (msize (bids a)) s :: trades a /\
       Hour a' = Z.rem (Hour a + 1) 24 /\ phase a' = PhaseSettled /\
       bids a' = ∅ /\ masks a' = [] /\ pubKey a' = "" /\ evalKey a' = "" /\ winnerSeat a' = -1 /\
       (forall id p, peers a' !! id = Some p -> Sealed p = false) /\
       same_shape (peers a') (peers a) /\ keyID a' = keyID a /\
       epoch a' = (if bool_decide (epoch a = EpochOpen) && (EpochSize <=? zlen (trades a) + 1)
                   then EpochReady else epoch a))
  end.
Proof.
  unfold Settle. destruct (winnerSeat a <? 0) eqn:E; [left; split_and!; [lia|done..]|].
  right. unfold zlen. cbn [length trades set_field resetLocked]. rewrite Nat2Z.inj_succ.
  assert (Hs : forall id p, (unseal <$> peers a) !! id = Some p -> Sealed p = false).
  { intros id p. rewrite lookup_fmap_Some. by intros (q & <- & _). }
  pose proof (same_shape_unseal (peers a)).
  destruct (bool_decide (epoch a = EpochOpen)) eqn:He; cbn; rewrite ?He; cbn;
    [destruct (EpochSize <=? _) eqn:El; cbn|];
    repeat (split; [first [lia|done]|]); try done.
Qed.

(** ** Epoch audit *)

Lemma haveAll_spec a m :
  haveAllLocked a m = true <-> epochParty a <> [] /\ forall id, id ∈ epochParty a -> is_Some (m !! id).
Proof.
  unfold haveAllLocked. rewrite andb_true_iff, forallb_forall, Z.ltb_lt. unfold zlen. split.
  - intros [Hall Hl]. split; [by intros E; rewrite E in Hl|]. intros id Hid.
    apply list_elem_of_In, Hall in Hid. by apply bool_decide_eq_true in Hid.
  - intros [Hne Hall]. split.
    + intros id Hid. apply bool_decide_eq_true_2, Hall. by apply list_elem_of_In.
    + destruct (epochParty a); [done|]. simpl. lia.
Qed.

Lemma omap_total (l : list string) (m : gmap string blob) :
  (forall id, id ∈ l -> is_Some (m !! id)) ->
  Forall2 (fun id c => m !! id = Some c) l (omap (fun id => m !! id) l).
Proof.
  induction l as [|id l IH]; intros Hall; simpl; [constructor|].
  destruct (Hall id) as [c Hc]; [left|]. rewrite Hc. constructor; [done|].
  apply IH. intros. apply Hall. by right.
Qed.

(** An encrypted total is recorded only while an audit runs, and the relay
    reports the set complete exactly when every member of the frozen party
    (a non-empty one) has contributed.  The ciphertexts then handed to the
    blind peer are one per party member, in party order: a complete report
    never sums a partial or foreign set. *)
Lemma SubmitEpochTotal_spec (id : string) (ct : blob) (a : Auction) :
  match SubmitEpochTotal id ct a with
  | (a', complete) =>
      (epoch a <> EpochAudit /\ a' = a /\ complete = false) \/
      (epoch a = EpochAudit /\ a' = a <| epochTotals := <[id := ct]> (epochTotals a) |> /\
       (complete = true <-> epochParty a <> [] /\
          forall i, i ∈ epochParty a -> is_Some (epochTotals a' !! i)) /\
       (complete = true ->
          Forall2 (fun i c => epochTotals a' !! i = Some c) (epochParty a') (EpochCiphertexts a')))
  end.
Proof.
  unfold SubmitEpochTotal. case_bool_decide as He; simpl; [right|left; done].
  split_and!; [done|done|by rewrite haveAll_spec|].
  intros [_ Hall]%haveAll_spec. by apply omap_total.
Qed.

(** The relay's keygen chain: one [AdvanceEpochChain] per returned key. *)
Fixpoint chain (pks : list blob) (a : Auction) : option (Auction * list (string * bool)) :=
  match pks with
  | [] => Some (a, [])
  | pk :: pks' =>
      r ← AdvanceEpochChain pk a; s ← chain pks' r.1; Some (s.1, r.2 :: s.2)
  end.

Lemma chain_from (pks : list blob) (a : Auction) :
  0 <= chainPos a -> zlen (epochParty a) < 2 ^ 63 -> pks <> [] ->
  chainPos a + zlen pks = zlen (epochParty a) ->
  exists a', chain pks a =
    Some (a', ((fun s => (s, false)) <$> drop (S (Z.to_nat (chainPos a))) (epochParty a)) ++ [("", true)])
    /\ epochParty a' = epochParty a /\ Some (epochKey a') = last pks
    /\ chainPos a' = zlen (epochParty a).
Proof.
  revert a. induction pks as [|pk pks IH]; intros a H0 Hs Hne Hlen; [done|].
  unfold zlen in *. simpl in Hlen. simpl. unfold AdvanceEpochChain.
  set (b := a <| epochKey := pk |> <| chainPos := wrap64 (chainPos a + 1) |>).
  assert (Hpos : chainPos b = chainPos a + 1) by (cbn; apply wrap64_small; unfold in_int64; lia).
  change (epochParty b) with (epochParty a). rewrite Hpos.
  destruct pks as [|pk2 pks].
  - simpl in Hlen. case_match eqn:E; [|unfold zlen in E; lia]. simpl.
    rewrite drop_ge by lia. exists b. split_and!; [done..|]. lia.
  - simpl in Hlen. case_match eqn:E; [unfold zlen in E; lia|].
    destruct (lookup_lt_is_Some_2 (epochParty a) (Z.to_nat (chainPos a + 1)) ltac:(lia)) as [s Hs'].
    unfold Market.index. case_decide; [|lia]. rewrite Hs'. cbn [mbind option_bind fst].
    assert (Hpb : epochParty b = epochParty a) by reflexivity.
    destruct (IH b) as (a' & Hc & Hp & Hk & Hcp); rewrite ?Hpb, ?Hpos in *; simpl length; [lia|done|done|lia|].
    rewrite Hc. cbn [mbind option_bind fst snd]. exists a'. split_and!; [|done|done|done].
    rewrite Z2Nat.inj_add, Nat.add_1_r in Hs' |- * by lia.
    rewrite (drop_S _ _ _ Hs'). reflexivity.
Qed.

(** The joint-key chain visits every connected tab exactly once.  Started
    on a state with no audit running, it names the first tab in join order;
    returning one key per tab then names the remaining tabs in join order and
    reports completion on the last one, with that tab's key as the joint key. *)
Lemma epoch_chain_walks (a : Auction) (pks : list blob)
    (Hidle : epoch a <> EpochAudit) (Hne : order a <> []) (Hlen : zlen pks = zlen (order a))
    (Hsize : zlen (order a) < 2 ^ 63) :
  exists a', Some (StartEpochChain a).2 = head (order a) /\
    chain pks (StartEpochChain a).1 =
      Some (a', ((fun s => (s, false)) <$> tail (order a)) ++ [("", true)]) /\
    Some (epochKey a') = last pks /\ epochParty a' = order a.
Proof.
  unfold StartEpochChain. rewrite bool_decide_eq_false_2 by done. cbn [fst snd].
  set (b := _ <| chainPos := 0 |>).
  assert (Hpb : epochParty b = order a) by reflexivity.
  assert (Hcb : chainPos b = 0) by reflexivity. clearbody b.
  assert (Hpk : pks <> []).
  { intros ->. destruct (order a); [done|]. unfold zlen in Hlen. simpl in Hlen. lia. }
  destruct (chain_from pks b) as (a' & Hc & Hp & Hk & _); rewrite ?Hpb, ?Hcb in *; [lia|done|done|lia|].
  exists a'. split; [by destruct (order a)|]. split_and!; [|done|done].
  rewrite Hc. by destruct (order a).
Qed.

Lemma epoch_chain_walks_witness :
  exists a', Some (StartEpochChain demo).2 = head (order demo) /\
    chain ["k1"; "k2"; "k3"] (StartEpochChain demo).1 =
      Some (a', ((fun s => (s, false)) <$> tail (order demo)) ++ [("", true)]) /\
    Some (epochKey a') = last ["k1"; "k2"; "k3"] /\ epochParty a' = order demo.
Proof. apply (epoch_chain_walks demo ["k1"; "k2"; "k3"]); by vm_compute. Defined.

(** An N-of-N audit does not survive the loss of a participant.  When a
    member of the party leaves during an audit, the audit is aborted with a
    reason, every collected share is dropped, and from then on neither a total
    nor a decryption share is ever reported complete before a new chain
    starts. *)
Lemma Leave_aborts_audit (id : string) (a : Auction)
    (He : epoch a = EpochAudit) (Hin : id ∈ epochParty a) :
  epoch (Leave id a) = EpochReady /\ epochAbort (Leave id a) = "a participant left mid-audit" /\
  epochTotals (Leave id a) = ∅ /\ epochPartials (Leave id a) = ∅ /\ chainPos (Leave id a) = 0 /\
  forall i ct, (SubmitEpochTotal i ct (Leave id a)).2 = false /\
               (SubmitEpochPartial i ct (Leave id a)).2 = false.
Proof.
  assert (Ha : audit_if id a = abort_audit a).
  { unfold audit_if. by rewrite !bool_decide_eq_true_2. }
  rewrite Leave_eq, Ha. by repeat case_match.
Qed.

Lemma Leave_aborts_audit_witness :
  let a := (StartEpochChain demo).1 in
  epoch (Leave "p3" a) = EpochReady /\ epochAbort (Leave "p3" a) = "a participant left mid-audit" /\
  epochTotals (Leave "p3" a) = ∅ /\ epochPartials (Leave "p3" a) = ∅ /\ chainPos (Leave "p3" a) = 0 /\
  forall i ct, (SubmitEpochTotal i ct (Leave "p3" a)).2 = false /\
               (SubmitEpochPartial i ct (Leave "p3" a)).2 = false.
Proof.
  apply (Leave_aborts_audit "p3" (StartEpochChain demo).1); [reflexivity|].
  apply list_elem_of_In. vm_compute. tauto.
Defined.

(** ** The relay is blind

    [blind] erases every ciphertext, key and share from a state, keeping only
    which of them are present; [blind_op] does the same to an operation. *)

Definition erase (b : blob) : blob := "".
Definition blind_blob (b : blob) : blob := if decide (b = "") then "" else "k".

Definition blind (a : Auction) : Auction :=
  a <| pubKey := blind_blob (pubKey a) |> <| evalKey := "" |> <| bids := erase <$> bids a |>
    <| masks := [] |> <| epochKey := "" |> <| epochTotals := erase <$> epochTotals a |>
    <| epochPartials := erase <$> epochPartials a |>.

Definition blind_op (o : op) : op :=
  match o with
  | OPublishKeys pk ek => OPublishKeys (blind_blob pk) ""
  | OSubmitBid id kid ct => OSubmitBid id kid ""
  | OSetMasks ms => OSetMasks []
  | OAdvanceEpochChain pk => OAdvanceEpochChain ""
  | OSubmitEpochPartial id ct => OSubmitEpochPartial id ""
  | OSubmitEpochTotal id ct => OSubmitEpochTotal id ""
  | o => o
  end.

Lemma auction_eq (a b : Auction) :
  Hour a = Hour b -> phase a = phase b -> peers a = peers b -> order a = order b ->
  pubKey a = pubKey b -> evalKey a = evalKey b -> bids a = bids b -> masks a = masks b ->
  keyID a = keyID b -> winnerSeat a = winnerSeat b -> priceCt a = priceCt b -> trades a = trades b ->
  epoch a = epoch b -> epochKey a = epochKey b -> epochTotals a = epochTotals b ->
  epochNet a = epochNet b -> epochOK a = epochOK b -> epochOpened a = epochOpened b ->
  chainPos a = chainPos b -> epochPartials a = epochPartials b -> epochParty a = epochParty b ->
  epochAbort a = epochAbort b -> a = b.
Proof. destruct a, b. simpl. intros. by subst. Qed.

Lemma msize_erase {K} `{Countable K} (m : gmap K blob) : msize (erase <$> m) = msize m.
Proof. unfold msize. by rewrite map_size_fmap. Qed.

Ltac blind_eq := apply auction_eq; cbn; rewrite ?fmap_empty, ?fmap_insert; try reflexivity.

Lemma blind_reset a : resetLocked (blind a) = blind (resetLocked a).
Proof. blind_eq. Qed.

Lemma blind_leave id a : Leave id (blind a) = blind (Leave id a).
Proof.
  rewrite !Leave_eq. unfold audit_if. cbn [epoch epochParty peers blind set_field].
  destruct (bool_decide (epoch a = EpochAudit) && bool_decide (id ∈ epochParty a)) eqn:E;
    cbn in E |- *; rewrite ?E; (destruct (peers a !! id) as [p|]; [destruct (_ || _)|]); blind_eq.
Qed.

Lemma blind_bid id kid ct a : (SubmitBid id kid "" (blind a)).1 = blind (SubmitBid id kid ct a).1.
Proof.
  unfold SubmitBid. cbn [peers phase keyID blind set_field].
  destruct (peers a !! id) as [p|]; [|done]. destruct (_ || _); [done|].
  destruct (negb _); [done|]. unfold buyerCount. cbn [bids peers blind set_field].
  change (<[Seat p := ""]> (erase <$> bids a)) with (<[Seat p := erase ct]> (erase <$> bids a)).
  rewrite <- fmap_insert, msize_erase. destruct (_ || _); blind_eq.
Qed.

Lemma blind_settle now acc a : (Settle now acc (blind a)).1 = blind (Settle now acc a).1.
Proof.
  unfold Settle. cbn [winnerSeat blind set_field]. destruct (winnerSeat a <? 0); [done|].
  cbn [fst]. cbn [epoch trades resetLocked blind set_field bids Hour priceCt].
  rewrite msize_erase. destruct (_ && _); blind_eq.
Qed.

(** Every method commutes with the erasure. *)
Lemma blind_exec `{GoRange} o a : exec (blind_op o) (blind a) = blind <$> exec o a.
Proof.
  destruct o; cbn [blind_op exec]; rewrite ?option_fmap_bind; cbn [fmap option_fmap option_map];
    try f_equal; auto using blind_reset, blind_leave, blind_bid, blind_settle; try by blind_eq.
  - unfold StartEpochChain. cbn [epoch blind set_field]. case_bool_decide; [done|blind_eq].
  - unfold AdvanceEpochChain. cbn [epochParty chainPos blind set_field]. 
    destruct (_ <=? _); cbn; [f_equal; blind_eq|].
    destruct (Market.index _ _); cbn; try done; f_equal; blind_eq.
  - unfold SubmitEpochTotal. cbn [epoch blind set_field]. case_bool_decide; [blind_eq|done].
Qed.

Lemma blind_run `{GoRange} os a : run (blind_op <$> os) (blind a) = blind <$> run os a.
Proof.
  revert a. induction os as [|o os IH]; intros a; [done|].
  cbn [fmap list_fmap run]. rewrite blind_exec.
  destruct (exec o a) as [b|]; cbn; [rewrite IH|]; destruct o; cbn; try done; by case_bool_decide.
Qed.

Lemma blind_snapshot Sin a : Snapshot Sin (blind a) = Snapshot Sin a.
Proof.
  unfold Snapshot. cbn [Hour blind set_field]. destruct (Market.BandAt Sin (Hour a)); [|done].
  cbn. unfold buyerCount, evaluatorLocked. cbn. rewrite !msize_erase.
  unfold blind_blob. by destruct (pubKey a).
Qed.

(** C35: the state every tab is shown does not depend on any ciphertext, key
    or decryption share.  Two runs from the start whose operations differ only
    in the contents of those blobs (an empty public key staying empty) either
    both fail or both succeed, and their snapshots are equal field by field;
    nor do the seats recorded in the trade log reach the snapshot. *)
Theorem relay_blind `{GoRange} (Sin : float64 -> float64) (os os' : list op)
    (Hsame : blind_op <$> os = blind_op <$> os') :
  (a ← run os NewAuction; Snapshot Sin a) = (a ← run os' NewAuction; Snapshot Sin a) /\
  forall a f, Snapshot Sin (a <| trades := (fun t => mkTrade (At t) (Slot t) (PriceCt t) (Accepted t)
                                             (Bidders t) (f t)) <$> trades a |>) = Snapshot Sin a.
Proof.
  split.
  - assert (Hb : forall l, (a ← run l NewAuction; Snapshot Sin a) =
                           (a ← run (blind_op <$> l) NewAuction; Snapshot Sin a)).
    { intros l. change NewAuction with (blind NewAuction) at 2. rewrite blind_run.
      destruct (run l NewAuction); cbn; [by rewrite blind_snapshot|done]. }
    by rewrite (Hb os), (Hb os'), Hsame.
  - intros a f. unfold Snapshot. cbn [Hour set_field].
    destruct (Market.BandAt Sin (Hour a)); [|done]. cbn. by rewrite <- list_fmap_compose.
Qed.

Lemma relay_blind_witness :
  (a ← @run sorted_range (demo_ops ++ [OSubmitBid "p2" 1 "low"]) NewAuction; Snapshot (fun x => x) a) =
  (a ← @run sorted_range (demo_ops ++ [OSubmitBid "p2" 1 "high"]) NewAuction; Snapshot (fun x => x) a).
Proof.
  exact (proj1 (@relay_blind sorted_range (fun x => x) (demo_ops ++ [OSubmitBid "p2" 1 "low"])
                  (demo_ops ++ [OSubmitBid "p2" 1 "high"]) eq_refl)).
Defined.

End AuctionTheorems.
