(* ===== verification/EnergyHub.v ===== *)
(** * The relay ([examples/energy_auction/main.go])

    The [hub] with its connections, the message handler and the connection
    life cycle, over the auction of [EnergyAuction].  A handler is a program
    of a small state, output and panic monad: it reads and writes the hub and
    emits the frames it sends, in order. *)

From S2P Require Import Prelude Float64 Market EnergyAuction.
Import EnergyAuction.

#[local] Open Scope Z_scope.
#[local] Open Scope go_scope.

Module EnergyHub.

(** The wire message; [m_State] is the broadcast snapshot. *)
Record msg := mkMsg {
  m_Type : string;
  m_Blob : blob;
  m_Blobs : list blob;
  m_Bids : list blob;
  m_Seat : Z;
  m_Price : float64;
  m_Hour : Z;
  m_KeyID : Z;
  m_Ok : bool;
  m_You : string;
  m_State : option SnapshotJSON;
  m_Note : string
}.
#[export] Instance eta_msg : Eta msg := fun m =>
  mkMsg (m_Type m) (m_Blob m) (m_Blobs m) (m_Bids m) (m_Seat m) (m_Price m) (m_Hour m)
    (m_KeyID m) (m_Ok m) (m_You m) (m_State m) (m_Note m).

Definition new_msg (ty : string) : msg := mkMsg ty "" [] [] 0 f64_zero 0 0 false "" None "".

(** [conns] keeps the ids with a live socket. *)
Record hub := mkHub {
  conns : gset string;
  horder : list string;
  auction : Auction;
  nextID : Z
}.
#[export] Instance eta_hub : Eta hub := fun h => mkHub (conns h) (horder h) (auction h) (nextID h).

Definition new_hub : hub := mkHub ∅ [] NewAuction 0.

Abbreviation frame := (string * msg)%type.

(** ** Handler programs *)

Definition M (A : Type) : Type := hub -> option (A * hub * list frame).

Definition mret {A} (x : A) : M A := fun h => Some (x, h, []).

Definition mbnd {A B} (c : M A) (k : A -> M B) : M B := fun h =>
  match c h with
  | None => None
  | Some (x, h1, out1) =>
      match k x h1 with
      | None => None
      | Some (y, h2, out2) => Some (y, h2, out1 ++ out2)
      end
  end.

Declare Scope hub_scope.
Delimit Scope hub_scope with hub.
Notation "x <- c ;; k" := (mbnd c (fun x => k))
  (at level 100, c at next level, right associativity) : hub_scope.
Notation "c ;; k" := (mbnd c (fun _ => k)) (at level 100, right associativity) : hub_scope.
#[local] Open Scope hub_scope.

(** A method of the auction, with its result. *)
Definition call {A} (f : Auction -> Auction * A) : M A := fun h =>
  let r := f (auction h) in Some (r.2, h <| auction := r.1 |>, []).
Definition call_ (f : Auction -> Auction) : M unit := call (fun a => (f a, tt)).
Definition ask {A} (f : Auction -> A) : M A := call (fun a => (a, f a)).
Definition call_panic {A} (f : Auction -> option (Auction * A)) : M A := fun h =>
  r ← f (auction h); Some (r.2, h <| auction := r.1 |>, []).

(** [h.send]: nothing happens for an id without a connection. *)
Definition send (id : string) (m : msg) : M unit := fun h =>
  Some (tt, h, if decide (id ∈ conns h) then [(id, m)] else []).

Fixpoint send_all (ids : list string) (f : string -> msg) : M unit :=
  match ids with
  | [] => mret tt
  | id :: ids' => send id (f id) ;; send_all ids' f
  end.

Definition peerIDs : M (list string) := fun h => Some (horder h, h, []).

(** [json.Marshal] of a slice of seats; a nil slice is [null]. *)
Fixpoint json_ints (l : list Z) : string :=
  match l with
  | [] => ""
  | [x] => pretty x
  | x :: l' => (pretty x +:+ "," +:+ json_ints l')%string
  end.
Definition seats_json (l : list Z) : string :=
  match l with [] => "null" | _ => ("[" +:+ json_ints l +:+ "]")%string end.

Section handlers.
Context `{GoRange} (Sin : float64 -> float64).

Definition broadcast : M unit :=
  snap <- call_panic (fun a => s ← Snapshot Sin a; Some (a, s)) ;;
  ids <- peerIDs ;;
  send_all ids (fun id => new_msg "state" <| m_You := id |> <| m_State := Some snap |>).

(** [now] is the wall clock read by [Settle]. *)
Definition handle (now : string) (id : string) (m : msg) : M unit :=
  if String.eqb (m_Type m) "keys" then
    call_ (PublishKeys (m_Blob m) (m_Note m)) ;;
    broadcast ;;
    kid <- ask KeyID ;;
    ids <- peerIDs ;;
    send_all ids (fun _ => new_msg "pubkey" <| m_Blob := m_Blob m |> <| m_KeyID := kid |>) ;;
    ev <- ask Evaluator ;;
    match ev with
    | Some p => send (ID p) (new_msg "evalkey" <| m_Blob := m_Note m |>)
    | None => mret tt
    end
  else if String.eqb (m_Type m) "bid" then
    r <- call (SubmitBid id (m_KeyID m) (m_Blob m)) ;;
    match r with
    | BidRejected =>
        kid <- ask KeyID ;;
        send id (new_msg "bidrejected" <| m_KeyID := kid |>) ;;
        broadcast
    | BidStored => broadcast
    | BidComplete =>
        broadcast ;;
        ob <- ask OrderedBids ;;
        ev <- ask Evaluator ;;
        match ev with
        | None => mret tt
        | Some p => send (ID p) (new_msg "evaluate" <| m_Blobs := ob.1 |> <| m_Note := seats_json ob.2 |>)
        end
    end
  else if String.eqb (m_Type m) "masks" then
    call_ (SetMasks (m_Blobs m)) ;;
    s <- ask SellerID ;;
    (if String.eqb s "" then mret tt
     else
       ob <- ask OrderedBids ;;
       send s (new_msg "masks" <| m_Blobs := m_Blobs m |> <| m_Bids := ob.1 |>
                               <| m_Note := seats_json ob.2 |>)) ;;
    broadcast
  else if String.eqb (m_Type m) "offer" then
    call_ (Offer (m_Seat m) (m_Price m)) ;;
    broadcast
  else if String.eqb (m_Type m) "settle" then
    seat <- call (Settle now (m_Ok m)) ;;
    (if (0 <=? seat) && m_Ok m then
       w <- ask (PeerAtSeat seat) ;;
       if String.eqb w "" then mret tt
       else send w (new_msg "won" <| m_Seat := seat |> <| m_Price := m_Price m |>)
     else mret tt) ;;
    broadcast
  else if String.eqb (m_Type m) "epochstart" then
    first <- call StartEpochChain ;;
    (if String.eqb first "" then mret tt else send first (new_msg "epochchain")) ;;
    broadcast
  else if String.eqb (m_Type m) "epochchained" then
    r <- call_panic (AdvanceEpochChain (m_Blob m)) ;;
    if r.2 then
      broadcast ;;
      ids <- peerIDs ;;
      send_all ids (fun _ => new_msg "epochkey" <| m_Blob := m_Blob m |>)
    else
      send r.1 (new_msg "epochchain" <| m_Blob := m_Blob m |>) ;;
      broadcast
  else if String.eqb (m_Type m) "epochtotal" then
    done <- call (SubmitEpochTotal id (m_Blob m)) ;;
    if done then
      cts <- ask EpochCiphertexts ;;
      ev <- ask Evaluator ;;
      match ev with
      | Some p => send (ID p) (new_msg "epochsum" <| m_Blobs := cts |>)
      | None => mret tt
      end ;;
      broadcast
    else broadcast
  else if String.eqb (m_Type m) "epochsummed" then
    ids <- peerIDs ;;
    send_all ids (fun _ => new_msg "epochdecrypt" <| m_Blob := m_Blob m |>)
  else if String.eqb (m_Type m) "epochpartial" then
    done <- call (SubmitEpochPartial id (m_Blob m)) ;;
    if done then
      parts <- ask EpochPartials ;;
      ids <- peerIDs ;;
      send_all ids (fun _ => new_msg "epochfuse" <| m_Blobs := parts |>) ;;
      broadcast
    else broadcast
  else if String.eqb (m_Type m) "epochresult" then
    call_ (CloseEpoch (m_Price m) (m_Ok m)) ;;
    broadcast
  else if String.eqb (m_Type m) "newepoch" then
    call_ NewEpoch ;;
    ids <- peerIDs ;;
    send_all ids (fun _ => new_msg "epochreset") ;;
    broadcast
  else if String.eqb (m_Type m) "reset" then
    call_ Reset ;;
    broadcast
  else if String.eqb (m_Type m) "hour" then
    call_ (SetHour (m_Hour m)) ;;
    broadcast
  else mret tt.

(** ** Connection life cycle ([serveWS]) *)

Definition conn_id (n : Z) : string := ("p" +:+ pretty n)%string.

Definition connect : M unit := fun h =>
  let n := wrap64 (nextID h + 1) in
  let id := conn_id n in
  let h := h <| nextID := n |> <| conns := {[id]} ∪ conns h |> <| horder := horder h ++ [id] |> in
  (call_ (fun a => (Join id a).1) ;; broadcast) h.

Definition disconnect (id : string) : M unit := fun h =>
  let h := h <| conns := conns h ∖ {[id]} |> <| horder := remove_first id (horder h) |> in
  (call_ (Leave id) ;; broadcast) h.

(** The events a run of the process is made of: a socket opens, a socket
    closes, a frame arrives on an open socket. *)
Inductive event := EConnect | EClose (id : string) | EFrame (now : string) (id : string) (m : msg).

Definition serve (e : event) : M unit :=
  match e with
  | EConnect => connect
  | EClose id => disconnect id
  | EFrame now id m => handle now id m
  end.

Definition event_live (e : event) (h : hub) : bool :=
  match e with
  | EConnect => true
  | EClose id => bool_decide (id ∈ conns h)
  | EFrame _ id _ => bool_decide (id ∈ conns h)
  end.

(** A run of the relay: the final hub and every frame sent, in order. *)
Fixpoint serve_all (es : list event) : M unit :=
  match es with
  | [] => mret tt
  | e :: es' => fun h =>
      if event_live e h then (serve e ;; serve_all es') h else serve_all es' h
  end.
End handlers.

End EnergyHub.
