(* ===== verification/RelayTheorems.v ===== *)
(** * Theorems on the relay

    The relay refines the auction state machine, never panics, and routes
    every frame by the protocol's confidentiality rules. *)

From S2P Require Import Prelude Float64 Market EnergyAuction AuctionTheorems EnergyHub.
Import EnergyAuction AuctionTheorems EnergyHub.

#[local] Open Scope Z_scope.
#[local] Open Scope go_scope.
#[local] Open Scope hub_scope.

Module RelayTheorems.

(** ** The routing rules

    Who may be sent what, given the auction state at the time of sending. *)

Inductive allowed `{GoRange} (Sin : float64 -> float64) (a : Auction) : string -> msg -> Prop :=
  | allow_state to s : Snapshot Sin a = Some s ->
      allowed Sin a to (new_msg "state" <| m_You := to |> <| m_State := Some s |>)
  | allow_pubkey to pk : allowed Sin a to (new_msg "pubkey" <| m_Blob := pk |> <| m_KeyID := keyID a |>)
  | allow_evalkey p ek : Evaluator a = Some p ->
      allowed Sin a (ID p) (new_msg "evalkey" <| m_Blob := ek |>)
  | allow_bidrejected to : allowed Sin a to (new_msg "bidrejected" <| m_KeyID := keyID a |>)
  | allow_evaluate p : Evaluator a = Some p ->
      allowed Sin a (ID p) (new_msg "evaluate" <| m_Blobs := (OrderedBids a).1 |>
                                               <| m_Note := seats_json (OrderedBids a).2 |>)
  | allow_masks ms : SellerID a <> "" ->
      allowed Sin a (SellerID a) (new_msg "masks" <| m_Blobs := ms |> <| m_Bids := (OrderedBids a).1 |>
                                                  <| m_Note := seats_json (OrderedBids a).2 |>)
  | allow_won s price : 0 <= s -> PeerAtSeat s a <> "" ->
      allowed Sin a (PeerAtSeat s a) (new_msg "won" <| m_Seat := s |> <| m_Price := price |>)
  | allow_epochchain to pk : allowed Sin a to (new_msg "epochchain" <| m_Blob := pk |>)
  | allow_epochkey to pk : allowed Sin a to (new_msg "epochkey" <| m_Blob := pk |>)
  | allow_epochsum p : Evaluator a = Some p ->
      allowed Sin a (ID p) (new_msg "epochsum" <| m_Blobs := EpochCiphertexts a |>)
  | allow_epochdecrypt to ct : allowed Sin a to (new_msg "epochdecrypt" <| m_Blob := ct |>)
  | allow_epochfuse to : allowed Sin a to (new_msg "epochfuse" <| m_Blobs := EpochPartials a |>)
  | allow_epochreset to : allowed Sin a to (new_msg "epochreset").

#[local] Hint Constructors allowed : relay.

(** ** Handler logic

    [reads P c h]: run at [h], program [c] terminates without changing the hub
    and every frame it emits satisfies [P]. *)

Definition reads {A} (P : string -> msg -> Prop) (c : M A) (h : hub) : Prop :=
  exists x out, c h = Some (x, h, out) /\ Forall (fun f => P f.1 f.2) out.

Section reads.
Context (P : string -> msg -> Prop).

Lemma reads_ret {A} (x : A) h : reads P (mret x) h.
Proof. eexists _, []. split; [done|constructor]. Qed.

Lemma reads_bind {A B} (c : M A) (k : A -> M B) h :
  reads P c h -> (forall x, reads P (k x) h) -> reads P (mbnd c k) h.
Proof.
  intros (x & out & Hc & Ho) Hk. destruct (Hk x) as (y & out' & Hk' & Ho').
  exists y, (out ++ out'). unfold mbnd. rewrite Hc, Hk'. split; [done|]. by apply Forall_app.
Qed.

Lemma reads_ask {A B} (f : Auction -> A) (k : A -> M B) h :
  reads P (k (f (auction h))) h -> reads P (mbnd (ask f) k) h.
Proof.
  intros (y & out & Hk & Ho). exists y, out. unfold mbnd, ask, call. simpl.
  replace (h <| auction := auction h |>) with h by by destruct h. by rewrite Hk.
Qed.

Lemma reads_ids {B} (k : list string -> M B) h :
  reads P (k (horder h)) h -> reads P (mbnd peerIDs k) h.
Proof. intros (y & out & Hk & Ho). exists y, out. unfold mbnd, peerIDs. by rewrite Hk. Qed.

Lemma reads_send id m h : P id m -> reads P (send id m) h.
Proof.
  intros Hp. eexists _, _. split; [reflexivity|]. case_decide; by repeat constructor.
Qed.

Lemma reads_send_all ids f h : (forall id, P id (f id)) -> reads P (send_all ids f) h.
Proof.
  intros Hp. induction ids as [|id ids IH]; simpl; [apply reads_ret|].
  apply reads_bind; [by apply reads_send|done].
Qed.

Lemma call_reads {A B} (f : Auction -> Auction * A) (k : A -> M B) h :
  reads P (k (f (auction h)).2) (h <| auction := (f (auction h)).1 |>) ->
  exists x out, mbnd (call f) k h = Some (x, h <| auction := (f (auction h)).1 |>, out)
    /\ Forall (fun fr => P fr.1 fr.2) out.
Proof. intros (y & out & Hk & Ho). exists y, out. unfold mbnd, call. by rewrite Hk. Qed.
End reads.

Section relay.
Context `{GoRange} (Sin : float64 -> float64).

Lemma reads_broadcast h :
  is_Some (Snapshot Sin (auction h)) -> reads (allowed Sin (auction h)) (broadcast Sin) h.
Proof.
  intros [s Hs]. unfold broadcast, mbnd at 1, call_panic. unfold reads. rewrite Hs. simpl.
  replace (h <| auction := auction h |>) with h by by destruct h.
  destruct (reads_ids (allowed Sin (auction h))
    (fun ids => send_all ids (fun id => new_msg "state" <| m_You := id |> <| m_State := Some s |>)) h)
    as (x & out & Hr & Ho); [apply reads_send_all; auto with relay|].
  rewrite Hr. by exists x, out.
Qed.

(** The auction operation a frame triggers, if any. *)
Definition op_of (now : string) (id : string) (m : msg) : option op :=
  let ty := m_Type m in
  if String.eqb ty "keys" then Some (OPublishKeys (m_Blob m) (m_Note m))
  else if String.eqb ty "bid" then Some (OSubmitBid id (m_KeyID m) (m_Blob m))
  else if String.eqb ty "masks" then Some (OSetMasks (m_Blobs m))
  else if String.eqb ty "offer" then Some (OOffer (m_Seat m) (m_Price m))
  else if String.eqb ty "settle" then Some (OSettle now (m_Ok m))
  else if String.eqb ty "epochstart" then Some OStartEpochChain
  else if String.eqb ty "epochchained" then Some (OAdvanceEpochChain (m_Blob m))
  else if String.eqb ty "epochtotal" then Some (OSubmitEpochTotal id (m_Blob m))
  else if String.eqb ty "epochsummed" then None
  else if String.eqb ty "epochpartial" then Some (OSubmitEpochPartial id (m_Blob m))
  else if String.eqb ty "epochresult" then Some (OCloseEpoch (m_Price m) (m_Ok m))
  else if String.eqb ty "newepoch" then Some ONewEpoch
  else if String.eqb ty "reset" then Some OReset
  else if String.eqb ty "hour" then Some (OSetHour (m_Hour m))
  else None.

Definition exec_opt (o : option op) (a : Auction) : option Auction :=
  match o with Some o => exec o a | None => Some a end.

Ltac quiet :=
  repeat first
    [ apply reads_ask | apply reads_ids | apply reads_bind; [|intros _]
    | apply reads_ret | apply reads_broadcast; done
    | apply reads_send; constructor; first [done|lia] | apply reads_send_all; intros; constructor
    | case_match ].

(** One frame is one auction operation followed by reads and sends. *)
Lemma handle_refines now id m h a' :
  exec_opt (op_of now id m) (auction h) = Some a' -> is_Some (Snapshot Sin a') ->
  exists out, handle Sin now id m h = Some (tt, h <| auction := a' |>, out) /\
    Forall (fun f => allowed Sin a' f.1 f.2) out.
Proof.
  intros He Hs.
  assert (Hfin : forall A (f : Auction -> Auction * A) (k : A -> M unit),
    (f (auction h)).1 = a' -> reads (allowed Sin a') (k (f (auction h)).2) (h <| auction := a' |>) ->
    exists out, mbnd (call f) k h = Some (tt, h <| auction := a' |>, out) /\
      Forall (fun fr => allowed Sin a' fr.1 fr.2) out).
  { intros A f k <- Hk. destruct (call_reads _ f k h Hk) as ([] & out & ? & ?). by exists out. }
  unfold handle. unfold op_of, exec_opt in He.
  repeat match goal with
  | |- context [if String.eqb (m_Type m) ?s then _ else _] =>
      destruct (String.eqb (m_Type m) s); [simplify_eq/=; try (apply Hfin; [done|quiet])|]
  end.
  - apply reads_send. apply allow_masks. by apply String.eqb_neq.
  - apply reads_send. apply andb_true_iff in H0 as [?%Z.leb_le _].
    apply allow_won; [done|by apply String.eqb_neq].
  - destruct (AdvanceEpochChain (m_Blob m) (auction h)) as [[b r]|] eqn:E; [|done].
    simplify_eq/=. unfold mbnd at 1, call_panic. rewrite E. simpl.
    match goal with |- context [match ?c (h <| auction := a' |>) with _ => _ end] =>
      assert (Hr : reads (allowed Sin a') c (h <| auction := a' |>)) by quiet end.
    destruct Hr as ([] & out & -> & Ho). by exists out.
  - replace (h <| auction := auction h |>) with h by by destruct h.
    assert (Hr : reads (allowed Sin (auction h)) (ids <- peerIDs ;;
      send_all ids (fun _ => new_msg "epochdecrypt" <| m_Blob := m_Blob m |>)) h) by quiet.
    destruct Hr as ([] & out & -> & Ho). by exists out.
  - simplify_eq/=. exists []. split; [|constructor]. by destruct h.
Qed.

(** ** The connection invariant *)

Record hub_ok (n : Z) (h : hub) : Prop := {
  ho_reach : reachable (auction h);
  ho_conns : forall id, id ∈ conns h <-> is_Some (peers (auction h) !! id);
  ho_order : horder h = order (auction h);
  ho_next : 0 <= nextID h <= n;
  ho_ids : forall id, id ∈ conns h -> exists k, 1 <= k <= nextID h /\ id = conn_id k;
  ho_chain : 0 <= chainPos (auction h) <= n
}.

Lemma snapshot_total a : auction_ok a -> is_Some (Snapshot Sin a).
Proof.
  intros Hok. unfold Snapshot.
  destruct (Market.band_edges_spec Sin (Hour a) (ok_hour _ Hok)) as (b & -> & _). eauto.
Qed.

Lemma exec_chain o a a' n :
  exec o a = Some a' -> 0 <= chainPos a <= n -> n + 1 < 2 ^ 63 -> 0 <= chainPos a' <= n + 1.
Proof.
  intros He Hc Hn. destruct o; unfold exec in He; simplify_eq; try (cbn; lia).
  - rewrite Leave_eq. unfold audit_if. repeat case_match; cbn; lia.
  - unfold SubmitBid. repeat case_match; cbn; lia.
  - unfold Settle. repeat case_match; cbn; lia.
  - unfold StartEpochChain. case_match; cbn; lia.
  - unfold AdvanceEpochChain in He.
    assert (wrap64 (chainPos a + 1) = chainPos a + 1) by (apply wrap64_small; unfold in_int64; lia).
    case_match; simplify_option_eq; cbn; lia.
  - unfold SubmitEpochTotal. case_match; cbn; lia.
Qed.

Lemma exec_total o a n :
  0 <= chainPos a <= n -> n + 1 < 2 ^ 63 -> is_Some (exec o a).
Proof.
  intros Hc Hn. destruct o; try by eexists. unfold exec, AdvanceEpochChain.
  set (b := a <| epochKey := pk |> <| chainPos := wrap64 (chainPos a + 1) |>).
  assert (Hb : chainPos b = chainPos a + 1) by (apply wrap64_small; unfold in_int64; lia).
  rewrite Hb. case_match eqn:E; [by eexists|]. unfold Market.index. case_decide; [|lia].
  destruct (lookup_lt_is_Some_2 (epochParty b) (Z.to_nat (chainPos a + 1))) as [s ->];
    [unfold zlen in E; lia|by eexists].
Qed.

(** Operations other than joining and leaving keep the roster's ids. *)
Lemma exec_roster o a a' :
  exec o a = Some a' -> (forall id, o <> OJoin id) -> (forall id, o <> OLeave id) ->
  order a' = order a /\ same_shape (peers a') (peers a).
Proof.
  intros He Hj Hl. destruct o; unfold exec in He; simplify_eq;
    try (split; [reflexivity|first [reflexivity|apply same_shape_unseal]]).
  - by destruct (Hj id).
  - by destruct (Hl id).
  - unfold SubmitBid. destruct (peers a !! id) eqn:E; [|done]. repeat case_match; try done;
      (split; [done|by apply same_shape_seal]).
  - unfold Settle. repeat case_match; simplify_eq/=; split; try done; apply same_shape_unseal.
  - unfold StartEpochChain. by case_match.
  - unfold AdvanceEpochChain in He. case_match; simplify_option_eq; done.
  - unfold SubmitEpochTotal. by case_match.
Qed.

Lemma same_shape_dom m1 m2 : same_shape m1 m2 -> forall id, is_Some (m1 !! id) <-> is_Some (m2 !! id).
Proof.
  intros Hs id. split; intros [p Hp].
  - destruct (same_shape_lookup _ _ _ _ Hs Hp) as (q & -> & _). eauto.
  - symmetry in Hs. destruct (same_shape_lookup _ _ _ _ Hs Hp) as (q & -> & _). eauto.
Qed.

Lemma handle_ok n h now id m :
  hub_ok n h -> n + 1 < 2 ^ 63 ->
  exists h' out, handle Sin now id m h = Some (tt, h', out) /\ hub_ok (n + 1) h' /\
    Forall (fun f => allowed Sin (auction h') f.1 f.2) out.
Proof.
  intros [Hr Hc Ho Hn Hi Hch] Hb.
  assert (Hex : exists a', exec_opt (op_of now id m) (auction h) = Some a' /\ reachable a' /\
    0 <= chainPos a' <= n + 1 /\ order a' = order (auction h) /\ same_shape (peers a') (peers (auction h))).
  { destruct (op_of now id m) as [o|] eqn:Eo; simpl; [|by exists (auction h); split_and!; try lia].
    destruct (exec_total o (auction h) n Hch Hb) as [a' He]. exists a'.
    assert (Hj : forall i, o <> OJoin i) by (unfold op_of in Eo; repeat case_match; naive_solver).
    assert (Hl : forall i, o <> OLeave i) by (unfold op_of in Eo; repeat case_match; naive_solver).
    destruct (exec_roster _ _ _ He Hj Hl). split_and!; try done.
    2, 3: eapply exec_chain in He; [|done..]; lia.
    eapply reach_step; [done| |done]. destruct o; try done. by destruct (Hj id0). }
  destruct Hex as (a' & He & Hr' & Hch' & Ho' & Hs').
  destruct (handle_refines now id m h a' He) as (out & Hh & Hal).
  { by apply snapshot_total, reachable_auction_ok. }
  exists (h <| auction := a' |>), out. split_and!; [done| |done].
  split; cbn; [done| |congruence|lia|done|done].
  intros i. rewrite Hc. symmetry. by apply same_shape_dom.
Qed.

Lemma conn_id_inj : Inj (=) (=) conn_id.
Proof. intros i j Hij. unfold conn_id in Hij. simplify_eq. by apply (inj pretty). Qed.

Lemma call_broadcast (f : Auction -> Auction) h :
  auction_ok (f (auction h)) ->
  exists out, (call_ f ;; broadcast Sin) h = Some (tt, h <| auction := f (auction h) |>, out) /\
    Forall (fun fr => allowed Sin (f (auction h)) fr.1 fr.2) out.
Proof.
  intros Hok.
  destruct (call_reads (allowed Sin (f (auction h))) (fun a => (f a, tt)) (fun _ => broadcast Sin) h)
    as ([] & out & ? & ?); [|by exists out].
  cbn [fst snd]. pose proof (reads_broadcast (h <| auction := f (auction h) |>)) as Hb.
  cbn [auction set_field] in Hb. apply Hb. by apply snapshot_total.
Qed.

Lemma connect_ok n h :
  hub_ok n h -> n + 1 < 2 ^ 63 ->
  exists h' out, connect Sin h = Some (tt, h', out) /\ hub_ok (n + 1) h' /\
    Forall (fun f => allowed Sin (auction h') f.1 f.2) out.
Proof.
  intros [Hr Hc Ho Hn Hi Hch] Hb. unfold connect.
  rewrite wrap64_small by (unfold in_int64; lia).
  set (id := conn_id (nextID h + 1)).
  assert (Hnew : peers (auction h) !! id = None).
  { apply eq_None_not_Some. rewrite <- Hc. intros (k & ? & Hk)%Hi. apply conn_id_inj in Hk. lia. }
  assert (Hr' : reachable (Join id (auction h)).1) by by eapply (reach_step _ (OJoin id)).
  edestruct (call_broadcast (fun a => (Join id a).1)) as (out & Hrun & Hal);
    [|eexists _, out; split_and!; [exact Hrun| |exact Hal]];
    [by apply reachable_auction_ok|].
  split; cbn; [done| |by rewrite Ho|lia| |lia].
  - intros i. rewrite elem_of_union, elem_of_singleton, Hc, lookup_insert.
    case_decide; naive_solver.
  - intros i [->%elem_of_singleton|Hin]%elem_of_union; [exists (nextID h + 1); split; [lia|done]|].
    destruct (Hi _ Hin) as (k & ? & ->). exists k. split; [lia|done].
Qed.

Lemma leave_roster id a :
  order (Leave id a) = remove_first id (order a) /\
  same_shape (peers (Leave id a)) (delete id (peers a)) /\
  (chainPos (Leave id a) = 0 \/ chainPos (Leave id a) = chainPos a).
Proof.
  rewrite Leave_eq. unfold audit_if.
  repeat case_match; cbn; split_and!; auto; try done; apply same_shape_unseal.
Qed.

Lemma disconnect_ok n h id :
  hub_ok n h -> n + 1 < 2 ^ 63 ->
  exists h' out, disconnect Sin id h = Some (tt, h', out) /\ hub_ok (n + 1) h' /\
    Forall (fun f => allowed Sin (auction h') f.1 f.2) out.
Proof.
  intros [Hr Hc Ho Hn Hi Hch] Hb. unfold disconnect.
  assert (Hr' : reachable (Leave id (auction h))) by by eapply (reach_step _ (OLeave id)).
  edestruct (call_broadcast (Leave id)) as (out & Hrun & Hal);
    [|eexists _, out; split_and!; [exact Hrun| |exact Hal]];
    [by apply reachable_auction_ok|].
  destruct (leave_roster id (auction h)) as (Hlo & Hls & Hlc).
  split; cbn; [done| |congruence|lia| |destruct Hlc as [->| ->]; lia].
  - intros i. rewrite elem_of_difference, elem_of_singleton, Hc, (same_shape_dom _ _ Hls), lookup_delete.
    case_decide; [|naive_solver]. split; [naive_solver|by intros [? ?]].
  - intros i [Hin _]%elem_of_difference. auto.
Qed.

Lemma serve_ok n h e :
  hub_ok n h -> n + 1 < 2 ^ 63 ->
  exists h' out, serve Sin e h = Some (tt, h', out) /\ hub_ok (n + 1) h' /\
    Forall (fun f => allowed Sin (auction h') f.1 f.2) out.
Proof. destruct e; eauto using connect_ok, disconnect_ok, handle_ok. Qed.

Lemma hub_ok_weaken n n' h : n <= n' -> hub_ok n h -> hub_ok n' h.
Proof. intros Hn []. split; try done; lia. Qed.

Lemma serve_all_ok es n h :
  hub_ok n h -> n + zlen es < 2 ^ 63 ->
  exists h' out, serve_all Sin es h = Some (tt, h', out) /\ hub_ok (n + zlen es) h' /\
    Forall (fun f => exists a, reachable a /\ allowed Sin a f.1 f.2) out.
Proof.
  revert n h. induction es as [|e es IH]; intros n h Hok Hn; unfold zlen in *; simpl in *.
  - exists h, []. rewrite Z.add_0_r. by split_and!.
  - case_match.
    + destruct (serve_ok n h e Hok) as (h1 & out1 & Hs & Hok1 & Ha1); [lia|].
      destruct (IH (n + 1) h1 Hok1) as (h2 & out2 & Hs2 & Hok2 & Ha2); [lia|].
      exists h2, (out1 ++ out2). unfold mbnd. rewrite Hs, Hs2. split; [done|]. split.
      { eapply hub_ok_weaken; [|exact Hok2]. lia. }
      apply Forall_app. split; [|done]. eapply Forall_impl; [exact Ha1|].
      intros f ?. exists (auction h1). split; [apply Hok1|done].
    + destruct (IH n h Hok) as (h2 & out2 & Hs2 & Hok2 & Ha2); [lia|].
      exists h2, out2. split; [done|]. split; [|done]. eapply hub_ok_weaken; [|exact Hok2]. lia.
Qed.

Lemma new_hub_ok : hub_ok 0 new_hub.
Proof.
  split; cbn; try lia; try done; [constructor|..].
  intros id. rewrite lookup_empty. split; [set_solver|by intros [? ?]].
Qed.
End relay.

Lemma send_all_elem ids f h id :
  id ∈ ids -> id ∈ conns h ->
  exists out, send_all ids f h = Some (tt, h, out) /\ (id, f id) ∈ out.
Proof.
  intros Hin Hc. induction ids as [|i ids IH]; [by apply not_elem_of_nil in Hin|].
  destruct (reads_send_all (fun _ _ => True) ids f h) as ([] & out & Hr & _); [done|].
  simpl. unfold mbnd, send. apply elem_of_cons in Hin as [<-|Hin].
  - rewrite Hr, decide_True by done. eexists. split; [done|]. left.
  - destruct (IH Hin) as (out' & Hr' & Hout). rewrite Hr'. eexists. split; [done|].
    apply elem_of_app. by right.
Qed.

Lemma broadcast_elem `{GoRange} Sin h id :
  auction_ok (auction h) -> id ∈ horder h -> id ∈ conns h ->
  exists out s, broadcast Sin h = Some (tt, h, out) /\ Snapshot Sin (auction h) = Some s /\
    (id, new_msg "state" <| m_You := id |> <| m_State := Some s |>) ∈ out.
Proof.
  intros Hok Hin Hc. destruct (snapshot_total Sin _ Hok) as [s Hs].
  destruct (send_all_elem (horder h) (fun i => new_msg "state" <| m_You := i |> <| m_State := Some s |>) h id)
    as (out & Hr & Hout); [done..|].
  exists out, s. split_and!; [|done|done].
  unfold broadcast, mbnd, call_panic, peerIDs. rewrite Hs. simpl.
  replace (h <| auction := auction h |>) with h by by destruct h. by rewrite Hr.
Qed.

(** ** Claims *)

Definition demo_events : list event :=
  [EConnect; EConnect; EConnect;
   EFrame "12:00:00" "p1" (new_msg "keys" <| m_Blob := "pk" |> <| m_Note := "ek" |>);
   EFrame "12:00:01" "p2" (new_msg "bid" <| m_Blob := "c2" |> <| m_KeyID := 1 |>);
   EFrame "12:00:02" "p3" (new_msg "bid" <| m_Blob := "c3" |> <| m_KeyID := 1 |>)].

(** C1: the relay never panics and implements the auction state machine.  Any
    sequence of fewer than 2^63 events (sockets opening and closing, frames of
    any type and content from any connected tab) is served to the end, and
    leaves an auction that is reachable by the auction's own operations, whose
    roster is exactly the set of connected tabs. *)
Theorem relay_refines_auction `{GoRange} (Sin : float64 -> float64) (es : list event)
    (Hn : zlen es < 2 ^ 63) :
  exists h out, serve_all Sin es new_hub = Some (tt, h, out) /\ reachable (auction h) /\
    (forall id, id ∈ conns h <-> is_Some (peers (auction h) !! id)) /\
    horder h = order (auction h).
Proof.
  destruct (serve_all_ok Sin es 0 new_hub new_hub_ok Hn) as (h & out & Hs & [] & _).
  by exists h, out.
Qed.

Lemma relay_refines_auction_witness :
  exists h out, @serve_all sorted_range (fun x => x) demo_events new_hub = Some (tt, h, out) /\
    @reachable sorted_range (auction h) /\
    (forall id, id ∈ conns h <-> is_Some (peers (auction h) !! id)) /\
    horder h = order (auction h).
Proof. apply (@relay_refines_auction sorted_range (fun x => x) demo_events). reflexivity. Defined.

(** Every frame the relay ever sends follows the routing rules in a
    reachable state of the auction: the relinearisation key and the sealed
    bids go to the evaluator only (a buyer), the masks and the bids with them
    to the seller only, the news of winning to the buyer at the winning seat
    only, the encrypted totals to the evaluator only; state frames carry the
    snapshot and no blob. *)
Lemma relay_routing `{GoRange} (Sin : float64 -> float64) (es : list event) (h : hub)
    (out : list frame) (Hn : zlen es < 2 ^ 63) (Hs : serve_all Sin es new_hub = Some (tt, h, out)) :
  Forall (fun f => exists a, reachable a /\ allowed Sin a f.1 f.2) out.
Proof.
  destruct (serve_all_ok Sin es 0 new_hub new_hub_ok Hn) as (h' & out' & Hs' & _ & Ha).
  congruence.
Qed.

Lemma relay_routing_witness :
  match @serve_all sorted_range (fun x => x) demo_events new_hub with
  | Some (_, h, out) =>
      Forall (fun f => exists a, @reachable sorted_range a /\ @allowed sorted_range (fun x => x) a f.1 f.2) out
  | None => False
  end.
Proof.
  destruct (@serve_all sorted_range (fun x => x) demo_events new_hub) as [[[[] h] out]|] eqn:E.
  - apply (@relay_routing sorted_range (fun x => x) demo_events h out); [reflexivity|exact E].
  - destruct (@serve_all_ok sorted_range (fun x => x) demo_events 0 new_hub new_hub_ok eq_refl)
      as (h & out & E' & _).
    rewrite E in E'. discriminate E'.
Defined.

(** The winning seat is broadcast while the seller decides.  Whoever sends
    an "offer" frame, every connected tab is sent a state frame whose snapshot
    names the offered seat as [winner_seat]: the log hides the winner, the
    state frames of the offer phase do not. *)
Lemma offer_reveals_winner `{GoRange} (Sin : float64 -> float64) (n : Z) (h : hub)
    (now from to : string) (m : msg)
    (Hok : hub_ok n h) (Hty : m_Type m = "offer") (Hto : to ∈ conns h) :
  exists h' out fr s, handle Sin now from m h = Some (tt, h', out) /\ (to, fr) ∈ out /\
    m_Type fr = "state" /\ m_State fr = Some s /\ s_winner_seat s = m_Seat m.
Proof.
  set (h' := h <| auction := Offer (m_Seat m) (m_Price m) (auction h) |>).
  assert (Hok' : auction_ok (auction h')).
  { eapply (exec_ok (OOffer (m_Seat m) (m_Price m))); [|done|done].
    apply reachable_auction_ok, Hok. }
  destruct (broadcast_elem Sin h' to Hok') as (out & s & Hb & Hs & Hin); [|done|].
  { unfold h'. cbn. rewrite (ho_order _ _ Hok).
    apply (ro_dom _ _ (ok_roster _ (reachable_auction_ok _ (ho_reach _ _ Hok)))).
    by apply (ho_conns _ _ Hok). }
  exists h', out, (new_msg "state" <| m_You := to |> <| m_State := Some s |>), s. split_and!; try done.
  - unfold handle. rewrite Hty. cbn [String.eqb Ascii.eqb Bool.eqb].
    unfold mbnd, call_, call. cbn [fst snd]. change (h <| auction := _ |>) with h'. by rewrite Hb.
  - unfold Snapshot in Hs. by destruct (Market.BandAt Sin _); simplify_eq/=.
Qed.

Definition demo_offer : msg := mkMsg "offer" "" [] [] 1 f64_zero 0 0 false "" None "".

Lemma offer_reveals_winner_witness :
  match @serve_all sorted_range (fun x => x) demo_events new_hub with
  | Some (_, h, _) =>
      exists h' out fr s,
        @handle sorted_range (fun x => x) "12:01" "p1" demo_offer h =
          Some (tt, h', out) /\ ("p2", fr) ∈ out /\ m_Type fr = "state" /\
        m_State fr = Some s /\ s_winner_seat s = m_Seat demo_offer
  | None => False
  end.
Proof.
  destruct (@serve_all_ok sorted_range (fun x => x) demo_events 0 new_hub new_hub_ok eq_refl)
    as (h & out & E & Hok & _).
  assert (Hc : "p2" ∈ conns h).
  { assert (Hx : (r ← @serve_all sorted_range (fun x => x) demo_events new_hub;
                  Some (bool_decide ("p2" ∈ conns r.1.2))) = Some true) by (vm_compute; reflexivity).
    rewrite E in Hx. simpl in Hx. injection Hx as Hx. by apply bool_decide_eq_true in Hx. }
  rewrite E.
  apply (@offer_reveals_winner sorted_range (fun x => x) (0 + zlen demo_events) h "12:01" "p1" "p2"
           demo_offer); [exact Hok|reflexivity|exact Hc].
Defined.

End RelayTheorems.
