(* ===== verification/Sha256.v ===== *)
(** * SHA-256 and HMAC-SHA256 ([crypto/sha256], [crypto/hmac])

    The hash the lineage, onion and transport packages use, as a function on
    bytes: FIPS 180-4 over 32-bit words kept as integers modulo 2^32. *)

From S2P Require Import Prelude.

#[local] Open Scope Z_scope.
#[local] Open Scope go_scope.

Module Sha256.

Definition word_mask : Z := 4294967295.

Definition rotr (n x : Z) : Z :=
  Z.lor (Z.shiftr x n) (Z.land (Z.shiftl x (32 - n)) word_mask).

Definition add32 (x y : Z) : Z := Z.land (x + y) word_mask.

Definition small_sigma0 (x : Z) : Z := Z.lxor (Z.lxor (rotr 7 x) (rotr 18 x)) (Z.shiftr x 3).
Definition small_sigma1 (x : Z) : Z := Z.lxor (Z.lxor (rotr 17 x) (rotr 19 x)) (Z.shiftr x 10).
Definition big_sigma0 (x : Z) : Z := Z.lxor (Z.lxor (rotr 2 x) (rotr 13 x)) (rotr 22 x).
Definition big_sigma1 (x : Z) : Z := Z.lxor (Z.lxor (rotr 6 x) (rotr 11 x)) (rotr 25 x).
Definition ch (x y z : Z) : Z := Z.lxor (Z.land x y) (Z.land (Z.lxor x word_mask) z).
Definition maj (x y z : Z) : Z := Z.lxor (Z.lxor (Z.land x y) (Z.land x z)) (Z.land y z).

(** The constants: the first 32 fractional bits of the cube roots of the first
    64 primes, and of the square roots of the first eight. *)
Definition divides_none (ps : list Z) (n : Z) : bool := forallb (fun p => negb (n mod p =? 0)) ps.

Definition primes_to (n : nat) : list Z :=
  foldl (fun ps k => if divides_none ps (Z.of_nat k) then ps ++ [Z.of_nat k] else ps) [] (seq 2 (n - 1)).

(** The integer cube root of a number below 2^108, bit by bit. *)
Definition cube_root (n : Z) : Z :=
  foldr (fun b r => let r' := r + 2 ^ (Z.of_nat b) in if r' ^ 3 <=? n then r' else r) 0 (seq 0 36).

Definition frac_cbrt (p : Z) : Z := cube_root (p * 2 ^ 96) mod 2 ^ 32.
Definition frac_sqrt (p : Z) : Z := Z.sqrt (p * 2 ^ 64) mod 2 ^ 32.

Definition round_constants : list Z := Eval vm_compute in frac_cbrt <$> primes_to 311.

Record state := mkState { wa : Z; wb : Z; wc : Z; wd : Z; we : Z; wf : Z; wg : Z; wh : Z }.

Definition initial : state := Eval vm_compute in
  mkState (frac_sqrt 2) (frac_sqrt 3) (frac_sqrt 5) (frac_sqrt 7)
          (frac_sqrt 11) (frac_sqrt 13) (frac_sqrt 17) (frac_sqrt 19).

(** One round with schedule word [w] and constant [k]. *)
Definition round (s : state) (kw : Z * Z) : state :=
  let '(k, w) := kw in
  let t1 := add32 (add32 (add32 (add32 (wh s) (big_sigma1 (we s))) (ch (we s) (wf s) (wg s))) k) w in
  let t2 := add32 (big_sigma0 (wa s)) (maj (wa s) (wb s) (wc s)) in
  mkState (add32 t1 t2) (wa s) (wb s) (wc s) (add32 (wd s) t1) (we s) (wf s) (wg s).

(** The schedule is kept newest word first: the word of index [t] needs those
    of index [t-2], [t-7], [t-15] and [t-16]. *)
Definition next_word (ws : list Z) : Z :=
  let get i := nth i ws 0 in
  add32 (add32 (add32 (small_sigma1 (get 1%nat)) (get 6%nat)) (small_sigma0 (get 14%nat))) (get 15%nat).

Fixpoint extend (n : nat) (ws : list Z) : list Z :=
  match n with
  | O => ws
  | S n' => extend n' (next_word ws :: ws)
  end.

Definition add_state (s t : state) : state :=
  mkState (add32 (wa s) (wa t)) (add32 (wb s) (wb t)) (add32 (wc s) (wc t)) (add32 (wd s) (wd t))
          (add32 (we s) (we t)) (add32 (wf s) (wf t)) (add32 (wg s) (wg t)) (add32 (wh s) (wh t)).

(** [block] is sixteen words. *)
Definition compress (s : state) (block : list Z) : state :=
  let ws := rev (extend 48 (rev block)) in
  add_state s (fold_left round (combine round_constants ws) s).

Fixpoint words (b : bytes) : list Z :=
  match b with
  | b0 :: b1 :: b2 :: b3 :: b' =>
      (Z_of_byte b0 * 2 ^ 24 + Z_of_byte b1 * 2 ^ 16 + Z_of_byte b2 * 2 ^ 8 + Z_of_byte b3) :: words b'
  | _ => []
  end.

(** Padding: a one bit, zeros up to 56 modulo 64, the bit length in 64 bits. *)
Definition pad (m : bytes) : bytes :=
  let n := length m in
  let k := ((119 - n mod 64) mod 64)%nat in
  m ++ [x80] ++ replicate k x00 ++ be64 (8 * Z.of_nat n).

Fixpoint blocks (fuel : nat) (s : state) (ws : list Z) : state :=
  match fuel with
  | O => s
  | S fuel' => match ws with [] => s | _ => blocks fuel' (compress s (firstn 16 ws)) (skipn 16 ws) end
  end.

Definition digest (s : state) : bytes :=
  be32 (wa s) ++ be32 (wb s) ++ be32 (wc s) ++ be32 (wd s) ++
  be32 (we s) ++ be32 (wf s) ++ be32 (wg s) ++ be32 (wh s).

Definition sha256 (m : bytes) : bytes :=
  let ws := words (pad m) in digest (blocks (length ws) initial ws).

(** [hmac.New(sha256.New, key)] fed [m]. *)
Definition hmac_key (key : bytes) : bytes :=
  let key := if decide (64 < zlen key) then sha256 key else key in
  key ++ replicate (64 - length key) x00.

Definition xor_byte (c : Z) (b : byte) : byte := byte_of_Z (Z.lxor c (Z_of_byte b)).

Definition hmac_sha256 (key m : bytes) : bytes :=
  let k := hmac_key key in
  sha256 (map (xor_byte 0x5c) k ++ sha256 (map (xor_byte 0x36) k ++ m)).

(** The published test vector for the message "abc". *)
Example sha256_abc :
  hex_encode (sha256 (bytes_of_string "abc")) =
  "ba7816bf8f01cfea414140de5dae2223b00361a396177a9cb410ff61f20015ad".
Proof. vm_compute. reflexivity. Qed.

Lemma sha256_length m : length (sha256 m) = 32%nat.
Proof. reflexivity. Qed.

End Sha256.

#[global] Opaque Sha256.sha256 Sha256.hmac_sha256.
