(* ===== verification/Lineage.v ===== *)
(** * Lineage nodes ([pkg/ares/lineage]: node.go, commit.go, verify.go; [pkg/ares/sign])

    The signed Merkle-DAG entries: canonical hashing and signing messages,
    parent ordering, commit and verification, and the wire form. *)

From stdpp Require Import sorting.
From S2P Require Import Prelude Sha256.
Import Sha256.

#[local] Open Scope Z_scope.
#[local] Open Scope go_scope.

Module Lineage.

(** ** Signers ([sign.Signer]) *)

(** [Sign] is [None] on an error; [VerifySig] is true when [Verify] returns nil. *)
Record Signer := mkSigner {
  Sign : bytes -> option bytes;
  VerifySig : bytes -> bytes -> bytes -> bool;
  PublicKey : bytes;
  Algorithm : string
}.

(** What the lineage package relies on: the verifier [v] registered for a
    signer's algorithm accepts that signer's signatures under its public key,
    which is not empty. *)
Class SignerCorrect (v s : Signer) : Prop := {
  sign_verifies : forall m sig, Sign s m = Some sig -> VerifySig v (PublicKey s) m sig = true;
  public_key_nonempty : PublicKey s <> []
}.

(** [crypto/ed25519] as the sign package uses it, with its documented contract. *)
Class Ed25519 := {
  ed_public : bytes -> bytes;
  ed_sign : bytes -> bytes -> bytes;
  ed_verify : bytes -> bytes -> bytes -> bool
}.

Class Ed25519Laws (E : Ed25519) : Prop := {
  ed_public_size : forall priv, length (ed_public priv) = 32%nat;
  ed_sign_size : forall priv m, length (ed_sign priv m) = 64%nat;
  ed_verify_sign : forall priv m, ed_verify (ed_public priv) m (ed_sign priv m) = true
}.

Definition Ed25519Algorithm : string := "ed25519".

Definition NewEd25519SignerFromKey `{Ed25519} (priv : bytes) : Signer := {|
  Sign := fun m => Some (ed_sign priv m);
  VerifySig := fun pubkey m sig =>
    if negb (Nat.eqb (length pubkey) 32) then false
    else if negb (Nat.eqb (length sig) 64) then false
    else ed_verify pubkey m sig;
  PublicKey := ed_public priv;
  Algorithm := Ed25519Algorithm |}.

#[export] Instance ed25519_signer_correct `{Ed25519Laws} priv priv' :
  SignerCorrect (NewEd25519SignerFromKey priv') (NewEd25519SignerFromKey priv).
Proof.
  split; simpl.
  - intros m sig [= <-]. rewrite ed_public_size, ed_sign_size. simpl. apply ed_verify_sign.
  - intros Hn. pose proof (ed_public_size priv) as Hl. by rewrite Hn in Hl.
Qed.

(** ** Data *)

(** A 32-byte content hash; [ref_ok] is the array length. *)
Abbreviation NodeRef := bytes.
Definition ref_ok (r : NodeRef) : Prop := length r = 32%nat.

Record DAGNode := mkNode {
  Hash : NodeRef;
  SessionID : string;
  PhaseID : string;
  Role : string;
  Parents : list NodeRef;
  ParentRoles : list string;
  PayloadHash : NodeRef;
  CreatedAt : Z;
  Producer : bytes;
  Signature : bytes;
  NAlgorithm : string
}.

#[export] Instance DAGNode_eq_decision : EqDecision DAGNode.
Proof. solve_decision. Defined.

(** Byte material of an error: raw bytes, or a formatted text kept as its
    format and arguments. *)
Inductive material := Raw (b : bytes) | Text (format : string) (args : list string).

Inductive Field := FAlgorithm | FPayloadHash | FSignature | FParentRef.

Record MismatchError := mkMismatch {
  mm_Field : Field;
  mm_Expected : material;
  mm_Got : material;
  mm_NodeHash : NodeRef
}.

(** ** Hashing *)

Definition HashPayload (payload : bytes) : NodeRef := sha256 payload.

Definition writeLenPrefixed (b : bytes) : bytes := be32 (zlen b) ++ b.

(** What [DeriveNodeHash] feeds to the hash. *)
Definition node_preimage (sessionID phaseID role : string) (payloadHash : NodeRef)
    (sortedParents : list NodeRef) : bytes :=
  writeLenPrefixed (bytes_of_string sessionID) ++
  writeLenPrefixed (bytes_of_string phaseID) ++
  writeLenPrefixed (bytes_of_string role) ++
  writeLenPrefixed payloadHash ++
  be32 (zlen sortedParents) ++ concat sortedParents.

Definition DeriveNodeHash (sessionID phaseID role : string) (payload : bytes)
    (sortedParents : list NodeRef) : NodeRef :=
  sha256 (node_preimage sessionID phaseID role (HashPayload payload) sortedParents).

Definition SigningMessage (hash : NodeRef) (sessionID phaseID role : string) : bytes :=
  hash ++ writeLenPrefixed (bytes_of_string sessionID) ++
  writeLenPrefixed (bytes_of_string phaseID) ++ writeLenPrefixed (bytes_of_string role).

(** ** Canonical parent order *)

(** [bytes.Compare(a, b) < 0]. *)
Fixpoint bytes_lt (a b : bytes) : bool :=
  match a, b with
  | _, [] => false
  | [], _ :: _ => true
  | x :: a', y :: b' =>
      (Z_of_byte x <? Z_of_byte y) || ((Z_of_byte x =? Z_of_byte y) && bytes_lt a' b')
  end.

(** Stable insertion: an element stays before the later ones it ties with. *)
Fixpoint insert_ref (x : NodeRef * string) (l : list (NodeRef * string)) : list (NodeRef * string) :=
  match l with
  | [] => [x]
  | y :: l' => if bytes_lt y.1 x.1 then y :: insert_ref x l' else x :: l
  end.

Definition sort_refs (l : list (NodeRef * string)) : list (NodeRef * string) := foldr insert_ref [] l.

(** Pair each parent with its role, a missing role being empty. *)
Fixpoint zip_roles (parents : list NodeRef) (roles : list string) : list (NodeRef * string) :=
  match parents with
  | [] => []
  | p :: parents' => (p, default "" (head roles)) :: zip_roles parents' (tail roles)
  end.

Definition sortParents (parents : list NodeRef) (parentRoles : list string)
    : list NodeRef * list string :=
  let indexed := sort_refs (zip_roles parents parentRoles) in (indexed.*1, indexed.*2).

(** ** Construction, commit and verification *)

(** [now] is the wall clock. *)
Definition NewDAGNode (now : Z) (sessionID phaseID role : string) (payload : bytes)
    (parents : list NodeRef) (parentRoles : list string) (producer signature : bytes)
    (algorithm : string) : DAGNode :=
  let '(sortedParents, sortedRoles) := sortParents parents parentRoles in
  {| Hash := DeriveNodeHash sessionID phaseID role payload sortedParents;
     SessionID := sessionID; PhaseID := phaseID; Role := role;
     Parents := sortedParents; ParentRoles := sortedRoles;
     PayloadHash := HashPayload payload; CreatedAt := now;
     Producer := producer; Signature := signature; NAlgorithm := algorithm |}.

Inductive CommitError := ErrNilSigner | ErrSign.

Definition Commit (now : Z) (sessionID phaseID role : string) (payload : bytes)
    (parents : list DAGNode) (signer : option Signer) : CommitError + DAGNode :=
  match signer with
  | None => inl ErrNilSigner
  | Some signer =>
      let parentRefs := Hash <$> parents in
      let parentRoles := Role <$> parents in
      let '(sortedRefs, sortedRoles) := sortParents parentRefs parentRoles in
      let hash := DeriveNodeHash sessionID phaseID role payload sortedRefs in
      let sigMsg := SigningMessage hash sessionID phaseID role in
      match Sign signer sigMsg with
      | None => inl ErrSign
      | Some signature =>
          inr (NewDAGNode now sessionID phaseID role payload sortedRefs sortedRoles
                 (PublicKey signer) signature (Algorithm signer))
      end
  end.

(** [None] is acceptance. *)
Definition Verify (node : DAGNode) (payload : bytes) (verifiers : gmap string Signer)
    : option MismatchError :=
  match verifiers !! NAlgorithm node with
  | None => Some (mkMismatch FAlgorithm (Text "verifier for %q" [NAlgorithm node]) (Raw []) (Hash node))
  | Some v =>
      let payloadHash := HashPayload payload in
      if negb (bool_decide (payloadHash = PayloadHash node)) then
        Some (mkMismatch FPayloadHash (Raw (PayloadHash node)) (Raw payloadHash) (Hash node))
      else
        let derived := DeriveNodeHash (SessionID node) (PhaseID node) (Role node) payload (Parents node) in
        if negb (bool_decide (derived = Hash node)) then
          Some (mkMismatch FPayloadHash (Raw (Hash node)) (Raw derived) (Hash node))
        else if zlen (Producer node) =? 0 then
          Some (mkMismatch FSignature (Text "non-empty producer pubkey" []) (Raw []) (Hash node))
        else
          let sigMsg := SigningMessage (Hash node) (SessionID node) (PhaseID node) (Role node) in
          if negb (VerifySig v (Producer node) sigMsg (Signature node)) then
            Some (mkMismatch FSignature (Raw (Signature node)) (Raw []) (Hash node))
          else None
  end.

(** ** Wire form *)

Record dagNodeJSON := mkNodeJSON {
  j_hash : string; j_session_id : string; j_phase_id : string; j_role : string;
  j_parents : list string; j_parent_roles : list string; j_payload_hash : string;
  j_created_at : Z; j_producer : string; j_signature : string; j_algorithm : string
}.

(** [NodeRef.MarshalJSON] and [NodeRef.UnmarshalJSON], inside the JSON string. *)
Definition marshalRef (r : NodeRef) : string := hex_encode r.
Definition unmarshalRef (s : string) : option NodeRef :=
  if negb (Nat.eqb (String.length s) 64) then None else hex_decode s.

Definition marshalNode (n : DAGNode) : dagNodeJSON := {|
  j_hash := marshalRef (Hash n); j_session_id := SessionID n; j_phase_id := PhaseID n;
  j_role := Role n; j_parents := marshalRef <$> Parents n; j_parent_roles := ParentRoles n;
  j_payload_hash := marshalRef (PayloadHash n); j_created_at := CreatedAt n;
  j_producer := hex_encode (Producer n); j_signature := hex_encode (Signature n);
  j_algorithm := NAlgorithm n |}.

Definition unmarshalNode (d : dagNodeJSON) : option DAGNode :=
  hash ← unmarshalRef (j_hash d);
  parents ← mapM unmarshalRef (j_parents d);
  payloadHash ← unmarshalRef (j_payload_hash d);
  prod ← hex_decode (j_producer d);
  sig ← hex_decode (j_signature d);
  Some (mkNode hash (j_session_id d) (j_phase_id d) (j_role d) parents (j_parent_roles d)
          payloadHash (j_created_at d) prod sig (j_algorithm d)).

(** ** Lemmas on canonical encodings *)

(** Two different inputs with one digest. *)
Definition collision (x y : bytes) : Prop := x <> y /\ sha256 x = sha256 y.

Lemma sha256_inj_or x y : sha256 x = sha256 y -> x = y \/ collision x y.
Proof. intros Hs. destruct (decide (x = y)); [by left|by right]. Qed.

(** Lengths that fit the 32-bit prefix. *)
Definition short (b : bytes) : Prop := zlen b < 2 ^ 32.

Lemma writeLenPrefixed_inj b1 b2 r1 r2 :
  short b1 -> short b2 -> writeLenPrefixed b1 ++ r1 = writeLenPrefixed b2 ++ r2 -> b1 = b2 /\ r1 = r2.
Proof.
  unfold short, writeLenPrefixed, zlen. intros H1 H2 He. rewrite <- !app_assoc in He.
  apply app_inj_1 in He as [Hl He]; [|reflexivity].
  apply be32_inj in Hl; [|lia..]. apply app_inj_1 in He; [done|lia].
Qed.

Lemma concat_refs_inj (ps qs : list NodeRef) :
  Forall ref_ok ps -> Forall ref_ok qs -> length ps = length qs -> concat ps = concat qs -> ps = qs.
Proof.
  intros Hp. revert qs. induction Hp as [|p ps Hp1 Hp IH]; intros [|q qs] Hq Hl Hc; try done.
  inversion Hq as [|? ? Hq1 Hq2]; subst. simpl in *.
  apply app_inj_1 in Hc as [-> Hc]; [|unfold ref_ok in *; congruence].
  f_equal. apply IH; [done|lia|done].
Qed.

Lemma node_preimage_inj s1 p1 r1 h1 l1 s2 p2 r2 h2 l2 :
  Forall short (bytes_of_string <$> [s1; p1; r1; s2; p2; r2]) -> ref_ok h1 -> ref_ok h2 ->
  Forall ref_ok l1 -> Forall ref_ok l2 -> zlen l1 < 2 ^ 32 -> zlen l2 < 2 ^ 32 ->
  node_preimage s1 p1 r1 h1 l1 = node_preimage s2 p2 r2 h2 l2 ->
  s1 = s2 /\ p1 = p2 /\ r1 = r2 /\ h1 = h2 /\ l1 = l2.
Proof.
  intros Hs Hh1 Hh2 Hl1 Hl2 Hn1 Hn2 He. simpl in Hs. rewrite !Forall_cons in Hs.
  destruct Hs as (? & ? & ? & ? & ? & ? & _). unfold node_preimage in He.
  assert (Hsh : forall h, ref_ok h -> short h) by (unfold ref_ok, short, zlen; intros ? ->; lia).
  apply writeLenPrefixed_inj in He as [E1 He]; [|done..].
  apply writeLenPrefixed_inj in He as [E2 He]; [|done..].
  apply writeLenPrefixed_inj in He as [E3 He]; [|done..].
  apply writeLenPrefixed_inj in He as [E4 He]; [|auto..].
  apply app_inj_1 in He as [E5 He]; [|reflexivity].
  apply be32_inj in E5; [|unfold zlen in *; lia..].
  split_and!; try by apply (inj bytes_of_string). { done. }
  apply concat_refs_inj; try done. unfold zlen in E5. lia.
Qed.

Lemma HashPayload_ok payload : ref_ok (HashPayload payload).
Proof. apply sha256_length. Qed.

Lemma DeriveNodeHash_ok s p r payload l : ref_ok (DeriveNodeHash s p r payload l).
Proof. apply sha256_length. Qed.
End Lineage.
