(* ===== verification/LineageStore.v ===== *)
(** * Lineage stores ([pkg/ares/lineage]: store.go, inmemory.go)

    The [Store] interface with the laws its documentation states, the
    in-memory implementation, and the refinement of an append-only log by it. *)

From S2P Require Import Prelude Lineage.
Import Lineage.

#[local] Open Scope Z_scope.
#[local] Open Scope go_scope.

Module LineageStore.

(** ** The interface *)

(** The package's sentinels, and any other error of a backend. *)
Inductive StoreError := ErrNodeExists | ErrNodeNotFound | ErrBackend (msg : string).

#[export] Instance StoreError_eq_decision : EqDecision StoreError.
Proof. solve_decision. Defined.

(** [Append] returns the new store and [nil] or an error; [WalkSession] is the
    sequence of pairs its iterator yields. *)
Class Store (St : Type) := {
  Append : St -> DAGNode -> St * option StoreError;
  Get : St -> NodeRef -> StoreError + DAGNode;
  WalkSession : St -> string -> list (DAGNode * option StoreError)
}.

(** What store.go documents, over the content map a store stands for. *)
Class StoreLaws (St : Type) `{Store St} := {
  contents : St -> gmap NodeRef DAGNode;
  store_inv : St -> Prop;
  append_inv : forall s n, store_inv s -> store_inv (Append s n).1;
  append_contents : forall s n, store_inv s ->
    contents (Append s n).1 =
      match (Append s n).2 with None => <[Hash n := n]> (contents s) | Some _ => contents s end;
  append_exists : forall s n, store_inv s ->
    (Append s n).2 = Some ErrNodeExists -> is_Some (contents s !! Hash n);
  append_fresh : forall s n, store_inv s -> (Append s n).2 = None -> contents s !! Hash n = None;
  get_contents : forall s h n, store_inv s -> Get s h = inr n -> contents s !! h = Some n;
  get_missing : forall s h, store_inv s -> Get s h = inl ErrNodeNotFound -> contents s !! h = None;
  walk_contents : forall s sid n, store_inv s ->
    (n, None) ∈ WalkSession s sid -> contents s !! Hash n = Some n /\ SessionID n = sid
}.

(** ** The in-memory store *)

Record InMemoryStore := mkStore {
  byHash : gmap NodeRef DAGNode;
  bySession : gmap string (list NodeRef)
}.

#[export] Instance InMemoryStore_eta : Eta InMemoryStore :=
  fun s => mkStore (byHash s) (bySession s).

Definition NewInMemoryStore : InMemoryStore := mkStore ∅ ∅.

Definition im_Append (s : InMemoryStore) (node : DAGNode) : InMemoryStore * option StoreError :=
  match byHash s !! Hash node with
  | Some _ => (s, Some ErrNodeExists)
  | None =>
      let s := s <| byHash := <[Hash node := node]> (byHash s) |> in
      (s <| bySession := <[SessionID node :=
             default [] (bySession s !! SessionID node) ++ [Hash node]]> (bySession s) |>, None)
  end.

Definition im_Get (s : InMemoryStore) (hash : NodeRef) : StoreError + DAGNode :=
  match byHash s !! hash with
  | None => inl ErrNodeNotFound
  | Some node => inr node
  end.

(** The snapshot taken under the lock: the refs still present, in order. *)
Definition im_snapshot (s : InMemoryStore) (sessionID : string) : list DAGNode :=
  omap (fun r => byHash s !! r) (default [] (bySession s !! sessionID)).

Definition im_WalkSession (s : InMemoryStore) (sessionID : string) : list (DAGNode * option StoreError) :=
  (fun n => (n, None)) <$> im_snapshot s sessionID.

Definition im_Clear (s : InMemoryStore) (sessionID : string) : InMemoryStore :=
  let refs := default [] (bySession s !! sessionID) in
  let s := s <| byHash := foldl (fun m r => delete r m) (byHash s) refs |> in
  s <| bySession := delete sessionID (bySession s) |>.

#[export] Instance InMemoryStore_Store : Store InMemoryStore := {|
  Append := im_Append; Get := im_Get; WalkSession := im_WalkSession |}.

(** ** The log it stands for *)

(** The appended nodes that were not cleared, oldest first. *)
Abbreviation log := (list DAGNode).

Definition of_session (sid : string) (l : log) : log := filter (fun n => SessionID n = sid) l.

Definition find_hash (h : NodeRef) (l : log) : option DAGNode :=
  (list_to_map ((fun n => (Hash n, n)) <$> l) : gmap NodeRef DAGNode) !! h.

Record abstracts (s : InMemoryStore) (l : log) : Prop := {
  abs_nodup : NoDup (Hash <$> l);
  abs_byHash : byHash s = list_to_map ((fun n => (Hash n, n)) <$> l);
  abs_bySession : forall sid, default [] (bySession s !! sid) = Hash <$> of_session sid l
}.

Inductive store_op :=
  | OpAppend (n : DAGNode) | OpGet (h : NodeRef) | OpWalk (sid : string) | OpClear (sid : string).

Inductive store_reply :=
  | RAppend (err : option StoreError) | RGet (r : StoreError + DAGNode)
  | RWalk (ns : list (DAGNode * option StoreError)) | RClear.

Definition store_step (s : InMemoryStore) (o : store_op) : InMemoryStore * store_reply :=
  match o with
  | OpAppend n => let '(s', e) := Append s n in (s', RAppend e)
  | OpGet h => (s, RGet (Get s h))
  | OpWalk sid => (s, RWalk (WalkSession s sid))
  | OpClear sid => (im_Clear s sid, RClear)
  end.

(** The contract over the log. *)
Definition log_step (l : log) (o : store_op) : log * store_reply :=
  match o with
  | OpAppend n =>
      if decide (Hash n ∈ Hash <$> l) then (l, RAppend (Some ErrNodeExists))
      else (l ++ [n], RAppend None)
  | OpGet h =>
      (l, RGet (match find_hash h l with Some n => inr n | None => inl ErrNodeNotFound end))
  | OpWalk sid => (l, RWalk ((fun n => (n, None)) <$> of_session sid l))
  | OpClear sid => (filter (fun n => SessionID n <> sid) l, RClear)
  end.

(** The replies of a run. *)
Fixpoint replies {St} (step : St -> store_op -> St * store_reply) (s : St) (ops : list store_op)
    : list store_reply :=
  match ops with
  | [] => []
  | o :: ops' => let '(s', r) := step s o in r :: replies step s' ops'
  end.

(** ** Lemmas *)

Abbreviation index l := ((fun n => (Hash n, n)) <$> l).

Lemma index_keys (l : log) : (index l).*1 = Hash <$> l.
Proof. by rewrite <- list_fmap_compose. Qed.

Lemma find_hash_Some h l n : NoDup (Hash <$> l) -> find_hash h l = Some n <-> n ∈ l /\ Hash n = h.
Proof.
  intros Hnd. unfold find_hash.
  rewrite <- elem_of_list_to_map by (by rewrite index_keys).
  rewrite list_elem_of_fmap. naive_solver.
Qed.

Lemma find_hash_None h l : find_hash h l = None <-> h ∉ Hash <$> l.
Proof. unfold find_hash. by rewrite <- not_elem_of_list_to_map, index_keys. Qed.

Lemma abstracts_new : abstracts NewInMemoryStore [].
Proof. split; [constructor|done|done]. Qed.

Lemma omap_index (m : gmap NodeRef DAGNode) (l : log) :
  (forall n, n ∈ l -> m !! Hash n = Some n) -> omap (fun r => m !! r) (Hash <$> l) = l.
Proof.
  induction l as [|n l IH]; intros Hm; simpl; [done|].
  rewrite Hm by left. f_equal. apply IH. intros. apply Hm. by right.
Qed.

Lemma abs_lookup s l h : abstracts s l -> byHash s !! h = find_hash h l.
Proof. intros [_ -> _]. done. Qed.

Lemma abs_snapshot s l sid : abstracts s l -> im_snapshot s sid = of_session sid l.
Proof.
  intros Ha. unfold im_snapshot. rewrite (abs_bySession _ _ Ha). apply omap_index.
  intros n [_ Hn]%list_elem_of_filter. rewrite (abs_lookup _ _ _ Ha).
  apply find_hash_Some; [apply Ha|done].
Qed.

Lemma abs_append s l n :
  abstracts s l -> Hash n ∉ Hash <$> l -> abstracts (im_Append s n).1 (l ++ [n]).
Proof.
  intros Ha Hn. pose proof (abs_lookup _ _ (Hash n) Ha) as Hl.
  rewrite (proj2 (find_hash_None _ _) Hn) in Hl. unfold im_Append. rewrite Hl.
  destruct Ha as [Hnd Hb Hs]. split; cbn.
  - rewrite fmap_app. apply NoDup_app. split; [done|]. split; [|apply NoDup_singleton].
    intros h Hh Hh'. apply list_elem_of_singleton in Hh'. by subst h.
  - rewrite fmap_app, list_to_map_app, <- Hb. simpl. rewrite insert_empty.
    rewrite insert_union_singleton_l. apply map_union_comm, map_disjoint_singleton_l_2, Hl.
  - intros sid. unfold of_session. rewrite filter_app, fmap_app. fold (of_session sid l).
    rewrite filter_cons, filter_nil. case_decide as Hd.
    + subst sid. by rewrite lookup_insert_eq, Hs.
    + by rewrite lookup_insert_ne, Hs, app_nil_r.
Qed.

Lemma foldl_delete_lookup (refs : list NodeRef) (m : gmap NodeRef DAGNode) h :
  foldl (fun m r => delete r m) m refs !! h = if decide (h ∈ refs) then None else m !! h.
Proof.
  revert m. induction refs as [|r refs IH]; intros m; simpl.
  - done.
  - rewrite IH, lookup_delete. repeat case_decide; set_solver.
Qed.

Lemma of_session_clear sid sid' (l : log) :
  of_session sid' (filter (fun n => SessionID n <> sid) l) =
  if decide (sid' = sid) then [] else of_session sid' l.
Proof.
  unfold of_session. induction l as [|n l IH]; [by case_decide|].
  rewrite !filter_cons. repeat case_decide; simplify_eq; rewrite ?filter_cons, ?IH;
    repeat case_decide; by simplify_eq.
Qed.

Lemma abs_clear s l sid :
  abstracts s l -> abstracts (im_Clear s sid) (filter (fun n => SessionID n <> sid) l).
Proof.
  intros Ha. assert (Hnd' : NoDup (Hash <$> filter (fun n => SessionID n <> sid) l)).
  { eapply sublist_NoDup; [apply Ha|]. apply fmap_sublist, sublist_filter. }
  split; [done| |]; cbn.
  - apply map_eq. intros h. rewrite foldl_delete_lookup, (abs_lookup _ _ _ Ha), (abs_bySession _ _ Ha).
    fold (find_hash h (filter (fun n => SessionID n <> sid) l)).
    apply option_eq. intros n. rewrite (find_hash_Some _ _ _ Hnd'), list_elem_of_filter.
    unfold of_session. case_decide as Hd.
    + split; [done|]. intros ((Hs & Hn) & <-).
      apply list_elem_of_fmap in Hd as (n' & Hh & (Hs' & Hn')%list_elem_of_filter).
      assert (n' = n) as ->; [|done].
      pose proof (proj2 (find_hash_Some (Hash n) l n (abs_nodup _ _ Ha)) (conj Hn eq_refl)) as H1.
      rewrite (proj2 (find_hash_Some (Hash n) l n' (abs_nodup _ _ Ha)) (conj Hn' (eq_sym Hh))) in H1.
      by simplify_eq.
    + rewrite (find_hash_Some _ _ _ (abs_nodup _ _ Ha)). split; [|naive_solver].
      intros [Hn <-]. split; [split; [|done]|done]. intros Hs. apply Hd.
      apply list_elem_of_fmap. exists n. by rewrite list_elem_of_filter.
  - intros sid'. rewrite of_session_clear, lookup_delete.
    repeat case_decide; simplify_eq; try done. apply Ha.
Qed.

(** One step of the store is one step of the log, with the same reply. *)
Lemma store_step_sim s l o :
  abstracts s l ->
  abstracts (store_step s o).1 (log_step l o).1 /\ (store_step s o).2 = (log_step l o).2.
Proof.
  intros Ha. destruct o as [n|h|sid|sid]; simpl.
  - unfold im_Append. rewrite (abs_lookup _ _ _ Ha). case_decide as Hd; simpl.
    + destruct (find_hash (Hash n) l) eqn:Hf; [done|]. by apply find_hash_None in Hf.
    + pose proof (abs_append _ _ _ Ha Hd) as Ha'. unfold im_Append in Ha'.
      rewrite (abs_lookup _ _ _ Ha) in Ha'.
      rewrite (proj2 (find_hash_None _ _) Hd) in *. done.
  - unfold im_Get. by rewrite (abs_lookup _ _ _ Ha).
  - unfold im_WalkSession. by rewrite (abs_snapshot _ _ _ Ha).
  - split; [by apply abs_clear|done].
Qed.

(** The in-memory store keeps the interface's laws. *)
#[export] Instance InMemoryStore_laws : StoreLaws InMemoryStore.
Proof.
  refine {| contents := byHash; store_inv := fun s => exists l, abstracts s l |}.
  - intros s n [l Ha]. destruct (store_step_sim s l (OpAppend n) Ha) as [Hs _].
    simpl in Hs. destruct (im_Append s n) eqn:E; simpl in *. rewrite E. eexists. exact Hs.
  - intros s n _. simpl. unfold im_Append. by destruct (byHash s !! Hash n).
  - intros s n _. simpl. unfold im_Append. destruct (byHash s !! Hash n) eqn:E; simpl.
    + by eexists.
    + done.
  - intros s n _. simpl. unfold im_Append. destruct (byHash s !! Hash n) eqn:E; simpl; [done|by intros].
  - intros s h n _. simpl. unfold im_Get. destruct (byHash s !! h); naive_solver.
  - intros s h _. simpl. unfold im_Get. destruct (byHash s !! h); naive_solver.
  - intros s sid n [l Ha] (n' & [= <-] & Hn)%list_elem_of_fmap.
    rewrite (abs_snapshot _ _ _ Ha) in Hn. apply list_elem_of_filter in Hn as [Hs Hn].
    split; [|done]. rewrite (abs_lookup _ _ _ Ha). apply find_hash_Some; [apply Ha|done].
Defined.

(** C34: an in-memory store answers any sequence of appends, lookups, walks
    and clears exactly as the append-only log does: each append succeeds once
    per hash, walks list a session's nodes in append order, and clearing a
    session removes its nodes and no others. *)
Theorem store_refines_log (ops : list store_op) :
  replies store_step NewInMemoryStore ops = replies log_step [] ops.
Proof.
  assert (Hg : forall s l, abstracts s l -> replies store_step s ops = replies log_step l ops).
  { induction ops as [|o ops IH]; intros s l Ha; cbn [replies]; [done|].
    destruct (store_step_sim _ _ o Ha) as [Ha' Hr].
    destruct (store_step s o), (log_step l o). simpl in *. subst. f_equal. by apply IH. }
  apply Hg, abstracts_new.
Qed.
End LineageStore.
