(* ===== verification/LineageTheorems.v ===== *)
(** * Theorems about lineage nodes

    Canonical parent order, commit/verify, what a hash binds, and the wire
    form's round trip. *)

From stdpp Require Import sorting.
From S2P Require Import Prelude Sha256 Lineage LineageStore.
Import Sha256 Lineage LineageStore.

#[local] Open Scope Z_scope.
#[local] Open Scope go_scope.

Module LineageTheorems.

(** ** The order on hashes *)

Definition ref_le (a b : NodeRef) : Prop := bytes_lt b a = false.

Lemma ref_le_cons x y a b :
  ref_le (x :: a) (y :: b) <->
  Z_of_byte x < Z_of_byte y \/ (Z_of_byte x = Z_of_byte y /\ ref_le a b).
Proof.
  unfold ref_le. simpl. rewrite orb_false_iff, andb_false_iff.
  destruct (bytes_lt b a); naive_solver lia.
Qed.

#[export] Instance ref_le_preorder : PreOrder ref_le.
Proof.
  split.
  - intros a. induction a as [|x a IH]; [done|]. rewrite ref_le_cons. by right.
  - intros a. induction a as [|x a IH]; intros [|y b] [|z c]; try done.
    rewrite !ref_le_cons. intros [?|[? ?]] [?|[? ?]]; [left; lia..|right].
    split; [lia|]. by apply (IH b).
Qed.

#[export] Instance ref_le_antisymm : AntiSymm (=) ref_le.
Proof.
  intros a. induction a as [|x a IH]; intros [|y b]; try done. rewrite !ref_le_cons.
  intros [?|[Hx ?]] [?|[? ?]]; try lia. f_equal; [|by apply IH].
  rewrite <- (byte_of_Z_of_byte x), Hx. apply byte_of_Z_of_byte.
Qed.

Lemma bytes_lt_le a b : bytes_lt a b = true -> ref_le a b.
Proof.
  revert b. induction a as [|x a IH]; intros [|y b]; try done. rewrite ref_le_cons. simpl.
  intros [?|[? ?]%andb_prop]%orb_prop; [left; lia|right; split; [lia|auto]].
Qed.

(** ** Sorting *)

Definition pair_le (x y : NodeRef * string) : Prop := ref_le x.1 y.1.

#[export] Instance pair_le_trans : Transitive pair_le.
Proof. intros x y z. unfold pair_le. apply transitivity. Qed.

Lemma insert_ref_perm x l : insert_ref x l ≡ₚ x :: l.
Proof. induction l as [|y l IH]; simpl; [done|]. case_match; [|done]. rewrite IH. constructor. Qed.

Lemma sort_refs_perm l : sort_refs l ≡ₚ l.
Proof. induction l as [|x l IH]; simpl; [done|]. by rewrite insert_ref_perm, IH. Qed.

Lemma insert_ref_sorted x l : StronglySorted pair_le l -> StronglySorted pair_le (insert_ref x l).
Proof.
  induction 1 as [|y l Hs IH Hy]; simpl; [by repeat constructor|].
  destruct (bytes_lt y.1 x.1) eqn:E.
  - constructor; [done|]. rewrite insert_ref_perm. constructor; [by apply bytes_lt_le|done].
  - constructor; [by constructor|]. constructor; [done|].
    eapply Forall_impl; [exact Hy|]. intros z. by apply (transitivity (R := pair_le)).
Qed.

Lemma sort_refs_sorted l : StronglySorted pair_le (sort_refs l).
Proof. induction l; simpl; [constructor|by apply insert_ref_sorted]. Qed.

Lemma sort_refs_id l : StronglySorted pair_le l -> sort_refs l = l.
Proof.
  induction 1 as [|x l Hs IH Hx]; simpl; [done|]. rewrite IH.
  destruct Hx as [|y l Hy Hx]; simpl; [done|]. unfold pair_le, ref_le in Hy. by rewrite Hy.
Qed.

Lemma zip_roles_id (l : list (NodeRef * string)) : zip_roles l.*1 l.*2 = l.
Proof. induction l as [|[p r] l IH]; csimpl; [done|]. by rewrite IH. Qed.

Lemma zip_roles_refs ps rs : (zip_roles ps rs).*1 = ps.
Proof. revert rs. induction ps as [|p ps IH]; intros rs; simpl; [done|]. by rewrite IH. Qed.

Lemma sortParents_idem ps rs :
  sortParents (sortParents ps rs).1 (sortParents ps rs).2 = sortParents ps rs.
Proof.
  unfold sortParents. simpl. rewrite zip_roles_id, sort_refs_id; [done|apply sort_refs_sorted].
Qed.

Lemma StronglySorted_refs l : StronglySorted pair_le l -> StronglySorted ref_le l.*1.
Proof. induction 1; simpl; constructor; [done|]. by apply Forall_fmap. Qed.

Lemma sorted_refs ps rs : StronglySorted ref_le (sortParents ps rs).1.
Proof. apply StronglySorted_refs, sort_refs_sorted. Qed.

Lemma sortParents_perm ps rs : (sortParents ps rs).1 ≡ₚ ps.
Proof. simpl. rewrite sort_refs_perm. by rewrite zip_roles_refs. Qed.

Lemma sortParents_canonical ps ps' rs rs' :
  ps ≡ₚ ps' -> (sortParents ps rs).1 = (sortParents ps' rs').1.
Proof.
  intros Hp. apply (StronglySorted_unique ref_le); [apply sorted_refs..|].
  by rewrite !sortParents_perm.
Qed.

(** ** Commit *)

(** What a successful commit is made of. *)
Lemma Commit_inv now s p r payload parents sg n :
  Commit now s p r payload parents sg = inr n ->
  exists signer sig,
    let refs := (sortParents (Hash <$> parents) (Role <$> parents)).1 in
    let h := DeriveNodeHash s p r payload refs in
    sg = Some signer /\ Sign signer (SigningMessage h s p r) = Some sig /\
    n = mkNode h s p r refs (sortParents (Hash <$> parents) (Role <$> parents)).2
          (HashPayload payload) now (PublicKey signer) sig (Algorithm signer).
Proof.
  unfold Commit. destruct sg as [signer|]; [|done].
  destruct (sortParents (Hash <$> parents) (Role <$> parents)) as [refs roles] eqn:Es.
  destruct (Sign signer _) as [sig|] eqn:Hs; [|done]. intros [= <-]. exists signer, sig.
  split; [done|]. split; [done|]. unfold NewDAGNode.
  pose proof (sortParents_idem (Hash <$> parents) (Role <$> parents)) as Hi.
  rewrite Es in Hi. simpl in Hi. by rewrite Hi.
Qed.

(** ** Verify *)

Record verified (node : DAGNode) (payload : bytes) (verifiers : gmap string Signer) : Prop := {
  ver_scheme : exists v, verifiers !! NAlgorithm node = Some v /\
    VerifySig v (Producer node)
      (SigningMessage (Hash node) (SessionID node) (PhaseID node) (Role node)) (Signature node) = true;
  ver_payload : PayloadHash node = HashPayload payload;
  ver_hash : Hash node =
    DeriveNodeHash (SessionID node) (PhaseID node) (Role node) payload (Parents node);
  ver_producer : Producer node <> []
}.

Lemma Verify_None node payload vs : Verify node payload vs = None <-> verified node payload vs.
Proof.
  unfold Verify. split.
  - intros Hv. guards. destruct (bool_decide_reflect (HashPayload payload = PayloadHash node)) as [E|];
      [|done]. simpl in *. guards. destruct (bool_decide_reflect
      (DeriveNodeHash (SessionID node) (PhaseID node) (Role node) payload (Parents node) = Hash node));
      [|done]. simpl in *. guards. split; [|done..|].
    + exists s. split; [done|]. by destruct (VerifySig _ _ _ _).
    + intros Hn. by rewrite Hn in *.
  - intros [(v & -> & Hsig) Hp Hh Hn]. rewrite bool_decide_true by done. simpl.
    rewrite bool_decide_true by done. simpl. destruct (zlen (Producer node) =? 0) eqn:E.
    + unfold zlen in E. destruct (Producer node); [done|]. simpl in E. lia.
    + by rewrite Hsig.
Qed.

(** ** A concrete scheme for the witnesses *)

(** Keys padded to 32 bytes; a signature is the public key and the digest. *)
#[local] Instance toy : Ed25519 := {|
  ed_public := fun priv => take 32 (priv ++ replicate 32 x00);
  ed_sign := fun priv m => take 32 (priv ++ replicate 32 x00) ++ sha256 m;
  ed_verify := fun pub m sig => bool_decide (sig = pub ++ sha256 m) |}.

#[local] Instance toy_laws : Ed25519Laws toy.
Proof.
  assert (Hp : forall priv : bytes, length (take 32 (priv ++ replicate 32 x00)) = 32%nat).
  { intros priv. rewrite length_take, length_app, length_replicate. lia. }
  split; simpl; intros.
  - apply Hp.
  - by rewrite length_app, Hp, sha256_length.
  - by apply bool_decide_true.
Qed.

Definition alice : Signer := NewEd25519SignerFromKey [x01].
Definition verifiers : gmap string Signer := {[ Ed25519Algorithm := NewEd25519SignerFromKey [] ]}.

(** Every commit of [alice] succeeds. *)
Definition commit_alice (r : string) (payload : bytes) (parents : list DAGNode) : DAGNode :=
  let refs := (sortParents (Hash <$> parents) (Role <$> parents)).1 in
  let h := DeriveNodeHash "s" "p" r payload refs in
  mkNode h "s" "p" r refs (sortParents (Hash <$> parents) (Role <$> parents)).2
    (HashPayload payload) 7 (PublicKey alice) (ed_sign [x01] (SigningMessage h "s" "p" r))
    Ed25519Algorithm.

Lemma commit_alice_ok r payload parents :
  Commit 7 "s" "p" r payload parents (Some alice) = inr (commit_alice r payload parents).
Proof.
  unfold Commit, commit_alice.
  pose proof (sortParents_idem (Hash <$> parents) (Role <$> parents)) as Hi.
  destruct (sortParents (Hash <$> parents) (Role <$> parents)) as [refs roles]. simpl in *.
  unfold NewDAGNode. by rewrite Hi.
Qed.

(** ** Claims *)

(** C33: a node that [Commit] returns passes [Verify] with the committed
    payload wherever the signer's algorithm has a correct verifier, whatever
    the parents and the clock. *)
Theorem commit_verifies now sessionID phaseID role payload parents signer v vs node :
  SignerCorrect v signer -> vs !! Algorithm signer = Some v ->
  Commit now sessionID phaseID role payload parents (Some signer) = inr node ->
  Verify node payload vs = None.
Proof.
  intros Hc Hv (sg & sig & [= <-] & Hs & ->)%Commit_inv. apply Verify_None. split; simpl; try done.
  - exists v. split; [done|]. by apply sign_verifies.
  - apply Hc.
Qed.

Lemma commit_verifies_witness :
  Verify (commit_alice "out" [x02] [commit_alice "in" [x03] []]) [x02] verifiers = None.
Proof.
  apply (commit_verifies 7 "s" "p" "out" [x02] [commit_alice "in" [x03] []] alice
           (NewEd25519SignerFromKey []) verifiers).
  - apply ed25519_signer_correct.
  - reflexivity.
  - apply commit_alice_ok.
Defined.

(** [Verify] accepts exactly the nodes whose payload hash, content hash,
    producer and signature all check under a registered scheme; a rejection
    names the node and a field that is really wrong, a signature being blamed
    only when both hashes are right, and parents never. *)
Lemma Verify_spec node payload vs :
  match Verify node payload vs with
  | None => verified node payload vs
  | Some e =>
      ~ verified node payload vs /\ mm_NodeHash e = Hash node /\
      let derived := DeriveNodeHash (SessionID node) (PhaseID node) (Role node) payload (Parents node) in
      match mm_Field e with
      | FAlgorithm => vs !! NAlgorithm node = None
      | FPayloadHash => PayloadHash node <> HashPayload payload \/ Hash node <> derived
      | FSignature => PayloadHash node = HashPayload payload /\ Hash node = derived /\
          (Producer node = [] \/ exists v, vs !! NAlgorithm node = Some v /\
             VerifySig v (Producer node)
               (SigningMessage (Hash node) (SessionID node) (PhaseID node) (Role node))
               (Signature node) = false)
      | FParentRef => False
      end
  end.
Proof.
  destruct (Verify node payload vs) as [e|] eqn:Hv; [|by apply Verify_None].
  split; [by rewrite <- Verify_None, Hv|]. unfold Verify in Hv.
  destruct (vs !! NAlgorithm node) as [v|]; [|by simplify_eq].
  destruct (bool_decide_reflect (HashPayload payload = PayloadHash node)); simpl in Hv;
    [|simplify_eq; split; [done|left; congruence]].
  destruct (bool_decide_reflect
      (DeriveNodeHash (SessionID node) (PhaseID node) (Role node) payload (Parents node) = Hash node));
    simpl in Hv; [|simplify_eq; split; [done|right; congruence]].
  destruct (zlen (Producer node) =? 0) eqn:Hz.
  - simplify_eq/=. split_and!; try done. left. unfold zlen in Hz. destruct (Producer node); [done|].
    simpl in Hz. lia.
  - destruct (VerifySig _ _ _ _) eqn:Hs; simplify_eq/=. split_and!; try done. right. by exists v.
Qed.

(** ** What a hash binds *)

Definition preimage_of (n : DAGNode) : bytes :=
  node_preimage (SessionID n) (PhaseID n) (Role n) (PayloadHash n) (Parents n).

(** The fields under the hash. *)
Definition same_content (n m : DAGNode) : Prop :=
  SessionID n = SessionID m /\ PhaseID n = PhaseID m /\ Role n = Role m /\
  PayloadHash n = PayloadHash m /\ Parents n = Parents m.

(** Hashes are 32-byte arrays, and the lengths written in 32 bits fit. *)
Record sized (n : DAGNode) : Prop := {
  sized_payload : ref_ok (PayloadHash n);
  sized_parents : Forall ref_ok (Parents n);
  sized_strings : Forall short (bytes_of_string <$> [SessionID n; PhaseID n; Role n]);
  sized_count : zlen (Parents n) < 2 ^ 32
}.

Lemma verified_hash n payload vs : verified n payload vs -> Hash n = sha256 (preimage_of n).
Proof. intros [_ Hp -> _]. unfold preimage_of. by rewrite Hp. Qed.

Lemma preimage_binds n m :
  sized n -> sized m -> sha256 (preimage_of n) = sha256 (preimage_of m) ->
  same_content n m \/ collision (preimage_of n) (preimage_of m).
Proof.
  intros [? ? Hn ?] [? ? Hm ?] [He|Hc]%sha256_inj_or; [left|by right].
  apply node_preimage_inj in He; [by split_and!; apply He|..]; try done.
  rewrite !Forall_fmap, !Forall_cons in *. naive_solver.
Qed.

(** Tamper evidence. Two nodes with one hash that both verify carry the
    same session, phase, role and parents and their payloads are equal, or the
    two payloads, or the two hashed encodings, are a SHA-256 collision. *)
Lemma hash_binds_content n m pn pm vs vs' :
  sized n -> sized m -> Verify n pn vs = None -> Verify m pm vs' = None -> Hash n = Hash m ->
  (same_content n m /\ pn = pm) \/ collision pn pm \/ collision (preimage_of n) (preimage_of m).
Proof.
  intros Sn Sm Vn%Verify_None Vm%Verify_None He.
  rewrite (verified_hash _ _ _ Vn), (verified_hash _ _ _ Vm) in He.
  destruct (preimage_binds _ _ Sn Sm He) as [Hs|]; [|by do 2 right].
  destruct (sha256_inj_or pn pm); [|by left|by right; left].
  pose proof (ver_payload _ _ _ Vn). pose proof (ver_payload _ _ _ Vm).
  destruct Hs as (_ & _ & _ & Hp & _). unfold HashPayload in *. congruence.
Qed.

Lemma sized_commit r payload (parents : list DAGNode) :
  Forall (fun n => ref_ok (Hash n)) parents -> short (bytes_of_string r) -> zlen parents < 2 ^ 32 ->
  sized (commit_alice r payload parents).
Proof.
  intros Hp Hr Hl. assert (Hperm := sortParents_perm (Hash <$> parents) (Role <$> parents)).
  split; cbn [commit_alice PayloadHash Parents SessionID PhaseID Role].
  - apply HashPayload_ok.
  - rewrite Hperm. by apply Forall_fmap.
  - simpl. repeat constructor; done.
  - unfold zlen. rewrite Hperm, length_fmap. exact Hl.
Qed.

Lemma hash_binds_content_witness :
  let n := commit_alice "out" [x02] [] in
  (same_content n n /\ [x02] = [x02]) \/ collision [x02] [x02] \/ collision (preimage_of n) (preimage_of n).
Proof.
  apply (hash_binds_content (commit_alice "out" [x02] []) (commit_alice "out" [x02] [])
           [x02] [x02] verifiers verifiers).
  - by apply sized_commit.
  - by apply sized_commit.
  - apply Verify_None. split; try done.
    exists (NewEd25519SignerFromKey []). split; [reflexivity|].
    by apply (sign_verifies (s := alice)).
  - apply Verify_None. split; try done.
    exists (NewEd25519SignerFromKey []). split; [reflexivity|].
    by apply (sign_verifies (s := alice)).
  - reflexivity.
Defined.

(** ** Histories *)

(** The content map of a store whose nodes are filed under their own, correct,
    hash and whose parents are all present. *)
Record dag_ok (g : gmap NodeRef DAGNode) : Prop := {
  dag_key : forall h n, g !! h = Some n -> Hash n = h;
  dag_hash : forall h n, g !! h = Some n -> Hash n = sha256 (preimage_of n);
  dag_closed : forall h n p, g !! h = Some n -> p ∈ Parents n -> is_Some (g !! p)
}.

Inductive ancestor (g : gmap NodeRef DAGNode) (h : NodeRef) : NodeRef -> Prop :=
  | anc_self : ancestor g h h
  | anc_parent a n p : ancestor g h a -> g !! a = Some n -> p ∈ Parents n -> ancestor g h p.

Definition all_sized (g : gmap NodeRef DAGNode) : Prop := map_Forall (fun _ n => sized n) g.

(** Two stored nodes whose hashed encodings collide. *)
Definition clash (g g' : gmap NodeRef DAGNode) : Prop :=
  exists h n m, g !! h = Some n /\ g' !! h = Some m /\ collision (preimage_of n) (preimage_of m).

Lemma ancestor_stored g h a : dag_ok g -> is_Some (g !! h) -> ancestor g h a -> is_Some (g !! a).
Proof. intros Hg Hh Ha. destruct Ha as [|a n p _ Hn Hp]; [done|]. by eapply dag_closed. Qed.

Lemma same_hash_same_content g g' h n m :
  dag_ok g -> dag_ok g' -> all_sized g -> all_sized g' -> g !! h = Some n -> g' !! h = Some m ->
  same_content n m \/ clash g g'.
Proof.
  intros Hg Hg' Hs Hs' Hn Hm. destruct (preimage_binds n m); [by eapply Hs|by eapply Hs'| |by left|].
  - rewrite <- (dag_hash _ Hg _ _ Hn), <- (dag_hash _ Hg' _ _ Hm).
    by rewrite (dag_key _ Hg _ _ Hn), (dag_key _ Hg' _ _ Hm).
  - right. by exists h, n, m.
Qed.

(** C10: one hash pins a whole history. If two stores, each closed under
    parents, hold a node with hash [h], then every ancestor of [h] in the one
    is an ancestor of [h] in the other with the same session, phase, role,
    payload hash and parents, or two stored encodings are a SHA-256 collision. *)
Theorem history_pinned g g' h a :
  dag_ok g -> dag_ok g' -> all_sized g -> all_sized g' ->
  is_Some (g !! h) -> is_Some (g' !! h) -> ancestor g h a ->
  (exists n m, g !! a = Some n /\ g' !! a = Some m /\ same_content n m /\ ancestor g' h a) \/ clash g g'.
Proof.
  intros Hg Hg' Hs Hs' Hh Hh' Ha.
  assert (Hanc : ancestor g' h a \/ clash g g').
  { induction Ha as [|a n p Ha IH Hn Hp]; [left; constructor|].
    destruct IH as [Ha'|]; [|by right].
    destruct (ancestor_stored _ _ _ Hg' Hh' Ha') as [m Hm].
    destruct (same_hash_same_content _ _ _ _ _ Hg Hg' Hs Hs' Hn Hm) as [Hc|]; [left|by right].
    eapply anc_parent; [done..|]. destruct Hc as (_ & _ & _ & _ & <-). done. }
  destruct Hanc as [Ha'|]; [|by right].
  destruct (ancestor_stored _ _ _ Hg Hh Ha) as [n Hn], (ancestor_stored _ _ _ Hg' Hh' Ha') as [m Hm].
  destruct (same_hash_same_content _ _ _ _ _ Hg Hg' Hs Hs' Hn Hm); [left; eauto 10|by right].
Qed.

Lemma dag_ok_singleton n : Hash n = sha256 (preimage_of n) -> Parents n = [] -> dag_ok {[ Hash n := n ]}.
Proof.
  intros Hh Hp. split.
  - intros h m [<- <-]%lookup_singleton_Some. done.
  - intros h m [<- <-]%lookup_singleton_Some. done.
  - intros h m p [<- <-]%lookup_singleton_Some. rewrite Hp. by intros ?%not_elem_of_nil.
Qed.

Lemma dag_ok_insert g n :
  dag_ok g -> Hash n = sha256 (preimage_of n) ->
  Forall (fun p => is_Some (g !! p)) (Parents n) -> dag_ok (<[Hash n := n]> g).
Proof.
  intros [Hk Hh Hc] Hn Hp. split.
  - intros h m [[<- <-]|[_ ?]]%lookup_insert_Some; eauto.
  - intros h m [[<- <-]|[_ ?]]%lookup_insert_Some; eauto.
  - intros h m p Hm Hin. apply lookup_insert_is_Some'. right.
    apply lookup_insert_Some in Hm as [[<- <-]|[_ ?]]; [|eauto].
    rewrite Forall_forall in Hp. auto.
Qed.

Lemma history_pinned_witness :
  let n := commit_alice "in" [x03] [] in
  (exists a b, ({[ Hash n := n ]} : gmap NodeRef DAGNode) !! Hash n = Some a /\
     ({[ Hash n := n ]} : gmap NodeRef DAGNode) !! Hash n = Some b /\ same_content a b /\
     ancestor {[ Hash n := n ]} (Hash n) (Hash n)) \/ clash {[ Hash n := n ]} {[ Hash n := n ]}.
Proof.
  set (n := commit_alice "in" [x03] []). cbv zeta.
  assert (Hg : dag_ok {[ Hash n := n ]}) by by apply dag_ok_singleton.
  assert (Hs : all_sized {[ Hash n := n ]}).
  { apply map_Forall_singleton. by apply sized_commit. }
  assert (Hh : is_Some (({[ Hash n := n ]} : gmap NodeRef DAGNode) !! Hash n)).
  { rewrite lookup_singleton_eq. by eexists. }
  apply (history_pinned _ _ (Hash n) (Hash n) Hg Hg Hs Hs Hh Hh). constructor.
Defined.

(** ** Parent order *)

(** The order in which parents are given is irrelevant: committing the
    same payload over any reordering of the parents gives the same hash,
    parent list, payload hash and signature; the stored parents are the given
    hashes in ascending order. *)
Lemma parent_order_canonical now now' s p r payload parents parents' sg n n' :
  parents ≡ₚ parents' ->
  Commit now s p r payload parents sg = inr n -> Commit now' s p r payload parents' sg = inr n' ->
  Hash n = Hash n' /\ Parents n = Parents n' /\ PayloadHash n = PayloadHash n' /\
  Signature n = Signature n' /\ StronglySorted ref_le (Parents n) /\ Parents n ≡ₚ Hash <$> parents.
Proof.
  intros Hp (sg1 & sig1 & -> & Hs1 & ->)%Commit_inv (sg2 & sig2 & [= <-] & Hs2 & ->)%Commit_inv.
  assert (He : (sortParents (Hash <$> parents) (Role <$> parents)).1 =
               (sortParents (Hash <$> parents') (Role <$> parents')).1).
  { apply sortParents_canonical. by rewrite Hp. }
  rewrite <- He in Hs2. rewrite Hs1 in Hs2. injection Hs2 as <-.
  cbn [Hash Parents PayloadHash Signature]. rewrite <- He.
  split_and!; try done; [apply sorted_refs|apply sortParents_perm].
Qed.

Lemma parent_order_canonical_witness :
  let a := commit_alice "a" [x03] [] in let b := commit_alice "b" [x04] [] in
  Hash (commit_alice "out" [] [a; b]) = Hash (commit_alice "out" [] [b; a]).
Proof.
  cbv zeta. apply (parent_order_canonical 7 7 "s" "p" "out" []
    [commit_alice "a" [x03] []; commit_alice "b" [x04] []]
    [commit_alice "b" [x04] []; commit_alice "a" [x03] []] (Some alice)).
  - apply Permutation_swap.
  - apply commit_alice_ok.
  - apply commit_alice_ok.
Defined.

(** ** Signatures and wire form *)

(** A signature cannot be moved to another node: signing messages of
    different (hash, session, phase, role) are different. *)
Lemma SigningMessage_injective h s p r h' s' p' r' :
  ref_ok h -> ref_ok h' -> Forall short (bytes_of_string <$> [s; p; r; s'; p'; r']) ->
  SigningMessage h s p r = SigningMessage h' s' p' r' -> h = h' /\ s = s' /\ p = p' /\ r = r'.
Proof.
  intros Hh Hh' Hs He. simpl in Hs. rewrite !Forall_cons in Hs.
  destruct Hs as (? & ? & ? & ? & ? & ? & _). unfold SigningMessage in He.
  apply app_inj_1 in He as [-> He]; [|unfold ref_ok in *; congruence].
  apply writeLenPrefixed_inj in He as [E1 He]; [|done..].
  apply writeLenPrefixed_inj in He as [E2 He]; [|done..].
  rewrite <- (app_nil_r (writeLenPrefixed _)), <- (app_nil_r (writeLenPrefixed (bytes_of_string r'))) in He.
  apply writeLenPrefixed_inj in He as [E3 _]; [|done..].
  split_and!; [done|by apply (inj bytes_of_string)..].
Qed.

Lemma unmarshal_marshalRef h : ref_ok h -> unmarshalRef (marshalRef h) = Some h.
Proof.
  intros Hh. unfold unmarshalRef, marshalRef. rewrite hex_encode_length, Hh. simpl.
  apply hex_decode_encode.
Qed.

(** Decoding the wire form of a node gives the node back, every binary
    field through hexadecimal. *)
Lemma node_json_roundtrip n :
  ref_ok (Hash n) -> ref_ok (PayloadHash n) -> Forall ref_ok (Parents n) ->
  unmarshalNode (marshalNode n) = Some n.
Proof.
  intros Hh Hp Hps. unfold unmarshalNode, marshalNode. simpl.
  rewrite unmarshal_marshalRef by done. simpl.
  assert (mapM unmarshalRef (marshalRef <$> Parents n) = Some (Parents n)) as ->.
  { apply mapM_fmap_Forall_Some. eapply Forall_impl; [exact Hps|]. apply unmarshal_marshalRef. }
  simpl. rewrite unmarshal_marshalRef by done. simpl. rewrite !hex_decode_encode. simpl. by destruct n.
Qed.

Lemma node_json_roundtrip_witness :
  unmarshalNode (marshalNode (commit_alice "out" [x02] [])) = Some (commit_alice "out" [x02] []).
Proof.
  apply node_json_roundtrip; [apply DeriveNodeHash_ok|apply HashPayload_ok|constructor].
Defined.
End LineageTheorems.
