(* ===== verification/PhaseTypes.v ===== *)
(** * Phases and session contexts ([pkg/ares/phase]: errors.go, types.go, phase.go,
      context.go, accumulator.go, hooks.go)

    Classified errors, the dynamically typed context, the [Phase] interface
    with its hooks as programs over the context's methods, and the
    per-sender accumulators. *)

From S2P Require Import Prelude Float64 Lineage LineageStore.
Import Lineage LineageStore.

#[local] Open Scope Z_scope.
#[local] Open Scope go_scope.

Module PhaseTypes.

(** ** Errors *)

Inductive sentinel := ErrTransient | ErrPermanent | ErrAppAttributable | ErrFrameworkBug.

#[export] Instance sentinel_eq_decision : EqDecision sentinel.
Proof. solve_decision. Defined.

(** An error value as a tree: the leaves are the sentinels and the typed
    errors, [Errorf] is [fmt.Errorf] with its format, its textual arguments and
    the errors under its [%w] verbs. *)
Inductive gerror :=
  | ESentinel (s : sentinel)
  | EMismatch (e : MismatchError)
  | EStore (e : StoreError)
  | ECommit (e : CommitError)
  | EMissingContext (key phase : string)
  | Errorf (format : string) (args : list string) (wrapped : list gerror).

(** [errors.Is(err, s)] for a sentinel. *)
Fixpoint errors_Is (err : gerror) (s : sentinel) : bool :=
  match err with
  | ESentinel s' => bool_decide (s' = s)
  | Errorf _ _ wrapped => existsb (fun e => errors_Is e s) wrapped
  | _ => false
  end.

(** ** Dynamic values *)

(** The Go types the sources store in an [any].  A [map[string]any] is an
    association list with distinct keys; [VStruct] is a value of a named type of
    an application; [VFuse] is the partial-decryption closure of the bound
    check; [VHandle] and [VOther] are opaque. *)
Inductive any :=
  | VNil
  | VBool (b : bool)
  | VInt (z : Z) | VInt32 (z : Z) | VInt64 (z : Z)
  | VUint (z : Z) | VUint32 (z : Z) | VUint64 (z : Z)
  | VFloat32 (f : float64) | VFloat64 (f : float64)
  | VString (s : string)
  | VBytes (b : bytes)
  | VStrings (l : list string)
  | VBucket (m : gmap string bytes)
  | VMap (m : list (string * any))
  | VStruct (type : string) (fields : list (string * any))
  | VFuse (f : list bytes -> Z -> gerror + list float64)
  | VHandle (id : string)
  | VOther (type repr : string).

(** Type assertions. *)
Definition as_bytes (v : any) : option bytes := match v with VBytes b => Some b | _ => None end.
Definition as_strings (v : any) : option (list string) := match v with VStrings l => Some l | _ => None end.
Definition as_bucket (v : any) : option (gmap string bytes) := match v with VBucket m => Some m | _ => None end.
Definition as_int (v : any) : option Z := match v with VInt z => Some z | _ => None end.
Definition as_map (v : any) : option (list (string * any)) := match v with VMap m => Some m | _ => None end.

(** How an application's own type is kept in an [any] and asserted back. *)
Class GoType (T : Type) := {
  inject : T -> any;
  project : any -> option T;
  project_inject : forall x, project (inject x) = Some x
}.

(** [fmt.Sprintf("%v", v)]; the shortest decimal form of a float, which for a
    float32 is the shortest that gives the float32 back, and the form of opaque
    values are parameters. *)
Class GoFmt := {
  fmt_float : float64 -> string;
  fmt_float32 : float64 -> string;
  fmt_opaque : any -> string
}.

Definition spaced (l : list string) : string := String.concat " " l.

Definition fmt_bytes (b : bytes) : string :=
  ("[" +:+ spaced ((fun x => pretty (Z_of_byte x)) <$> b) +:+ "]")%string.

Fixpoint Sprint_v `{GoFmt} (v : any) : string :=
  match v with
  | VNil => "<nil>"
  | VBool b => if b then "true" else "false"
  | VInt z | VInt32 z | VInt64 z | VUint z | VUint32 z | VUint64 z => pretty z
  | VFloat32 f => fmt_float32 f
  | VFloat64 f => fmt_float f
  | VString s => s
  | VBytes b => fmt_bytes b
  | VStrings l => ("[" +:+ spaced l +:+ "]")%string
  | VBucket m =>
      ("map[" +:+ spaced ((fun kv => kv.1 +:+ ":" +:+ fmt_bytes kv.2)%string <$>
                    merge_sort (fun a b => String.leb a.1 b.1) (map_to_list m)) +:+ "]")%string
  | VMap m =>
      ("map[" +:+ spaced ((fun kv => kv.1 +:+ ":" +:+ kv.2)%string <$>
                    merge_sort (fun a b => String.leb a.1 b.1)
                      (map (fun kv => (kv.1, Sprint_v kv.2)) m)) +:+ "]")%string
  | VStruct _ _ | VFuse _ | VHandle _ | VOther _ _ => fmt_opaque v
  end.

(** ** Schemas *)

Abbreviation SessionState := string.
Definition StateNone : SessionState := "".

Inductive LifetimeT := LifetimePerSession | LifetimePerCohort | LifetimePersistent.
Inductive RunsAtT := RunsAtRegistration | RunsAtSessionStart | RunsAtInline.

#[export] Instance RunsAtT_eq_decision : EqDecision RunsAtT.
Proof. solve_decision. Defined.

Record ContextKeyType := mkKeyType {
  TypeName : string;
  Required : bool;
  Constraints : gmap string any;
  NoLineage : bool
}.

Abbreviation ContextSchema := (gmap string ContextKeyType).

(** ** Session contexts *)

(** [lineageStore] says whether the context points at the runner's store, which
    is shared and lives in the runner's state. *)
Record SessionContext := mkContext {
  CtxSessionID : string;
  CohortID : string;
  values : gmap string any;
  ctx_lineageStore : bool;
  ctx_lineageSigner : option Signer
}.

#[export] Instance SessionContext_eta : Eta SessionContext := fun c =>
  mkContext (CtxSessionID c) (CohortID c) (values c) (ctx_lineageStore c) (ctx_lineageSigner c).

Definition NewSessionContext (sessionID : string) : SessionContext := {|
  CtxSessionID := sessionID; CohortID := ""; values := ∅;
  ctx_lineageStore := false; ctx_lineageSigner := None |}.

Definition ctx_Get (c : SessionContext) (key : string) : option any := values c !! key.
Definition ctx_Set (c : SessionContext) (key : string) (value : any) : SessionContext :=
  c <| values := <[key := value]> (values c) |>.
Definition ctx_Update (c : SessionContext) (key : string) (fn : any -> any) : SessionContext :=
  c <| values := <[key := fn (default VNil (values c !! key))]> (values c) |>.
Definition ctx_Has (c : SessionContext) (key : string) : bool := bool_decide (is_Some (values c !! key)).
Definition ctx_Keys `{GoRange} (c : SessionContext) : list string := (range_of (values c)).*1.

(** ** Hooks *)

(** A hook is a program over the context it is given: it reads and writes
    entries, commits artifacts, walks the session's nodes, returns or panics.
    Phases keep no state of their own across sessions. *)
Inductive Prog (A : Type) : Type :=
  | Ret (a : A)
  | Panic (msg : string)
  | DoCtx (f : SessionContext -> SessionContext) (k : SessionContext -> Prog A)
  | DoCommit (phaseID role : string) (payload : bytes) (parents : list DAGNode)
      (k : gerror + DAGNode -> Prog A)
  | DoDAG (k : list DAGNode -> Prog A).
Arguments Ret {A} a.
Arguments Panic {A} msg.
Arguments DoCtx {A} f k.
Arguments DoCommit {A} phaseID role payload parents k.
Arguments DoDAG {A} k.

Fixpoint pbind {A B} (p : Prog A) (f : A -> Prog B) : Prog B :=
  match p with
  | Ret a => f a
  | Panic msg => Panic msg
  | DoCtx g k => DoCtx g (fun c => pbind (k c) f)
  | DoCommit ph r pl ps k => DoCommit ph r pl ps (fun x => pbind (k x) f)
  | DoDAG k => DoDAG (fun l => pbind (k l) f)
  end.

(** What the hooks of the repository use.  [DoCtx f k] applies [f] to the
    context's entries under its lock and goes on with the context before. *)
Definition hContext : Prog SessionContext := DoCtx id Ret.
Definition hGet (key : string) : Prog (option any) := DoCtx id (fun c => Ret (ctx_Get c key)).
Definition hHas (key : string) : Prog bool := DoCtx id (fun c => Ret (ctx_Has c key)).
Definition hSet (key : string) (v : any) : Prog unit := DoCtx (fun c => ctx_Set c key v) (fun _ => Ret tt).
Definition hUpdate (key : string) (fn : any -> any) : Prog unit :=
  DoCtx (fun c => ctx_Update c key fn) (fun _ => Ret tt).
Definition hCommitArtifact (phaseID role : string) (payload : bytes) (parents : list DAGNode)
    : Prog (gerror + DAGNode) := DoCommit phaseID role payload parents Ret.
Definition hLineageDAG : Prog (list DAGNode) := DoDAG Ret.

(** [TryGet[T]]: the entry when present and of the asserted type. *)
Definition TryGet {T} (assert : any -> option T) (c : SessionContext) (key : string) : option T :=
  v ← ctx_Get c key; assert v.
Definition hTryGet {T} (assert : any -> option T) (key : string) : Prog (option T) :=
  DoCtx id (fun c => Ret (TryGet assert c key)).

(** [MustGet[T]] panics where [TryGet] fails. *)
Definition hMustGet {T} (assert : any -> option T) (key : string) : Prog T :=
  DoCtx id (fun c =>
    match ctx_Get c key with
    | None => Panic ("phase: required context key %q is not set: " +:+ key)%string
    | Some v => match assert v with
                | None => Panic ("phase: context key %q has type %T, expected %T: " +:+ key)%string
                | Some t => Ret t
                end
    end).

(** ** Accumulators *)

Definition accumulate (from : string) (payload : bytes) (current : any) : any :=
  let bucket := default ∅ (as_bucket current) in VBucket (<[from := payload]> bucket).

Definition AccumulateMessage (bucketKey from : string) (payload : bytes) : Prog unit :=
  hUpdate bucketKey (accumulate from payload).

Definition MessageCount (c : SessionContext) (bucketKey : string) : Z :=
  match ctx_Get c bucketKey with
  | None => 0
  | Some v => msize (default ∅ (as_bucket v))
  end.

Definition AccumulatedMessages (c : SessionContext) (bucketKey : string) : gmap string bytes :=
  match ctx_Get c bucketKey with
  | None => ∅
  | Some v => default ∅ (as_bucket v)
  end.

Definition QuorumReached (c : SessionContext) (bucketKey : string) (n : Z) : bool :=
  n <=? MessageCount c bucketKey.

(** ** The phase interface *)

Record Phase := mkPhase {
  Name : string;
  Lifetime : LifetimeT;
  RunsAt : RunsAtT;
  EntryState : SessionState;
  ExitState : SessionState;
  InternalStates : list SessionState;
  ConsumedMessageTypes : list string;
  Requires : ContextSchema;
  Provides : ContextSchema;
  Enter : Prog (option gerror);
  OnMessage : string -> string -> bytes -> Prog (option gerror);
  CheckComplete : Prog bool;
  Exit : Prog (option gerror)
}.

(** ** Lineage failure events *)

Record LineageFailureEvent := mkFailure {
  ev_Kind : string;
  ev_SessionID : string;
  ev_PhaseID : string;
  ev_Role : string;
  ev_Attributee : bytes;
  ev_DAGNodes : list DAGNode
}.

(** The application's callback: [Some msg] when it panics with [msg]. *)
Abbreviation LineageFailureFn := (LineageFailureEvent -> option string).

(** ** Running a hook *)

(** How a call ends. *)
Inductive outcome (A : Type) := Ok (a : A) | Crash (msg : string).
Arguments Ok {A} a.
Arguments Crash {A} msg.

(** [time.Now] at each reading. *)
Class Clock := time_now : nat -> Z.

Section run.
Context {St : Type} `{Store St} `{Clock}.

(** The context, the shared store and the number of clock readings. *)
Record world := mkWorld { w_ctx : SessionContext; w_store : option St; w_tick : nat }.

#[export] Instance world_eta : Eta world := fun w => mkWorld (w_ctx w) (w_store w) (w_tick w).

(** [store.Append], with [ErrNodeExists] taken as success. *)
Definition append_idempotent (st : St) (node : DAGNode) : St * option StoreError :=
  match Append st node with
  | (st', Some ErrNodeExists) => (st', None)
  | r => r
  end.

Definition CommitArtifact (phaseID role : string) (payload : bytes) (parents : list DAGNode)
    (w : world) : world * (gerror + DAGNode) :=
  match w_store w, ctx_lineageStore (w_ctx w), ctx_lineageSigner (w_ctx w) with
  | Some st, true, Some signer =>
      let w := w <| w_tick := S (w_tick w) |> in
      match Commit (time_now (w_tick w)) (CtxSessionID (w_ctx w)) phaseID role payload parents
              (Some signer) with
      | inl e => (w, inl (Errorf "%w: CommitArtifact: %w" [] [ESentinel ErrFrameworkBug; ECommit e]))
      | inr node =>
          let '(st', err) := append_idempotent st node in
          let w := w <| w_store := Some st' |> in
          match err with
          | Some e => (w, inl (Errorf "%w: CommitArtifact store.Append: %w" []
                                [ESentinel ErrFrameworkBug; EStore e]))
          | None => (w, inr node)
          end
      end
  | _, _, _ =>
      (w, inl (Errorf "%w: CommitArtifact requires a lineage-enabled runner (build via ComposeWith)" []
                 [ESentinel ErrPermanent]))
  end.

(** The nodes before the first error the walk yields. *)
Fixpoint until_error (l : list (DAGNode * option StoreError)) : list DAGNode :=
  match l with
  | (n, None) :: l' => n :: until_error l'
  | _ => []
  end.

Definition LineageDAG (w : world) : list DAGNode :=
  match w_store w, ctx_lineageStore (w_ctx w) with
  | Some st, true => until_error (WalkSession st (CtxSessionID (w_ctx w)))
  | _, _ => []
  end.

(** Hooks change entries only: the identity and lineage fields stay. *)
Definition touch (f : SessionContext -> SessionContext) (c : SessionContext) : SessionContext :=
  c <| values := values (f c) |>.

Fixpoint run {A} (p : Prog A) (w : world) : world * outcome A :=
  match p with
  | Ret a => (w, Ok a)
  | Panic msg => (w, Crash msg)
  | DoCtx f k => run (k (w_ctx w)) (w <| w_ctx := touch f (w_ctx w) |>)
  | DoCommit ph r pl ps k => let '(w', x) := CommitArtifact ph r pl ps w in run (k x) w'
  | DoDAG k => run (k (LineageDAG w)) w
  end.
End run.
Arguments world St : clear implicits.
Arguments mkWorld {St} w_ctx w_store w_tick.

Declare Scope prog_scope.
Delimit Scope prog_scope with prog.
Notation "'let*' x ':=' p 'in' q" := (pbind p (fun x => q))
  (at level 200, x pattern, p at level 100, q at level 200) : prog_scope.
Notation "p ;; q" := (pbind p (fun _ => q)) (at level 100, q at level 200, right associativity) : prog_scope.
End PhaseTypes.
