(* ===== verification/Compose.v ===== *)
(** * Pipeline composition ([pkg/ares/phase]: runner.go Compose, options.go, compose_with.go)

    The construction-time validation of a phase list, constraint checking and
    the lineage-enabled constructor. *)

From S2P Require Import Prelude Float64 Lineage LineageStore PhaseTypes.
Import Lineage LineageStore PhaseTypes.

#[local] Open Scope Z_scope.
#[local] Open Scope go_scope.

Module Compose.

(** ** Runners *)

Record sessionTracker := mkTracker {
  ctx : SessionContext;
  state : SessionState;
  current : option Phase;
  entered : bool
}.

#[export] Instance sessionTracker_eta : Eta sessionTracker :=
  fun t => mkTracker (ctx t) (state t) (current t) (entered t).

(** [ticks] counts clock readings; [hook_calls] are the failure events handed
    to the application's callback and [panic_log] the panics recovered from it. *)
Record SessionRunner (St : Type) := mkRunner {
  phases : list Phase;
  byName : gmap string Phase;
  byEntryState : gmap SessionState Phase;
  byInternalState : gmap SessionState Phase;
  initialState : SessionState;
  sessions : gmap string sessionTracker;
  lineageStore : option St;
  lineageSigner : option Signer;
  lineageVerifiers : gmap string Signer;
  lineageFailureHook : option LineageFailureFn;
  ticks : nat;
  hook_calls : list LineageFailureEvent;
  panic_log : list (LineageFailureEvent * string)
}.
Arguments mkRunner {St}.
Arguments phases {St} s.
Arguments byName {St} s.
Arguments byEntryState {St} s.
Arguments byInternalState {St} s.
Arguments initialState {St} s.
Arguments sessions {St} s.
Arguments lineageStore {St} s.
Arguments lineageSigner {St} s.
Arguments lineageVerifiers {St} s.
Arguments lineageFailureHook {St} s.
Arguments ticks {St} s.
Arguments hook_calls {St} s.
Arguments panic_log {St} s.

#[export] Instance SessionRunner_eta {St} : Eta (SessionRunner St) := fun r =>
  mkRunner (phases r) (byName r) (byEntryState r) (byInternalState r) (initialState r) (sessions r)
    (lineageStore r) (lineageSigner r) (lineageVerifiers r) (lineageFailureHook r) (ticks r)
    (hook_calls r) (panic_log r).

(** ** Constraints *)

Definition asFloat (v : any) : option float64 :=
  match v with
  | VInt x | VInt32 x | VInt64 x | VUint x | VUint32 x | VUint64 x => Some (f64_of_Z x)
  | VFloat32 x | VFloat64 x => Some x
  | _ => None
  end.

(** [None] is the error for non-numeric values. *)
Definition atLeast (a b : any) : option bool :=
  match asFloat a, asFloat b with
  | Some af, Some bf => Some (f64_ge af bf)
  | _, _ => None
  end.

Definition equalConstraint `{GoFmt} (a b : any) : bool := String.eqb (Sprint_v a) (Sprint_v b).

(** [minName[:len-4]] when the name is longer than four bytes and ends in [_min]. *)
Definition min_of (cname : string) : option string :=
  let n := (String.length cname - 4)%nat in
  if (4 <? String.length cname)%nat && String.eqb (String.substring n 4 cname) "_min"
  then Some (String.substring 0 n cname) else None.

Section compose.
Context `{GoRange} `{GoFmt}.

Definition checkConstraint (phaseName key : string) (got : gmap string any) (cname : string) (cval : any)
    : option gerror :=
  if String.eqb cname "" then None
  else match min_of cname with
  | Some producerKey =>
      match got !! producerKey with
      | None => Some (Errorf "phase %q: context key %q requires minimum %s but producer omits %s"
                        [phaseName; key; cname; producerKey] [])
      | Some gv =>
          match atLeast gv cval with
          | None => Some (Errorf "phase %q: context key %q constraint %s: %w" [phaseName; key; cname]
                       [Errorf "non-numeric values %v (%T) vs %v (%T)" [Sprint_v gv; Sprint_v cval] []])
          | Some false => Some (Errorf "phase %q: context key %q requires %s=%v but producer provides %s=%v"
                             [phaseName; key; cname; Sprint_v cval; producerKey; Sprint_v gv] [])
          | Some true => None
          end
      end
  | None =>
      match got !! cname with
      | None => Some (Errorf "phase %q: context key %q requires constraint %s but producer omits it"
                        [phaseName; key; cname] [])
      | Some gv =>
          if equalConstraint gv cval then None
          else Some (Errorf "phase %q: context key %q constraint %s: producer=%v, required=%v"
                       [phaseName; key; cname; Sprint_v gv; Sprint_v cval] [])
      end
  end.

(** The first error of a loop over entries. *)
Fixpoint first_error {A} (f : A -> option gerror) (l : list A) : option gerror :=
  match l with
  | [] => None
  | a :: l' => match f a with Some e => Some e | None => first_error f l' end
  end.

Definition checkConstraints (phaseName key : string) (want got : gmap string any) : option gerror :=
  first_error (fun cv => checkConstraint phaseName key got cv.1 cv.2) (range_of want).

Definition validateRequire (phaseName : string) (provided : ContextSchema) (key : string)
    (want : ContextKeyType) : option gerror :=
  match provided !! key with
  | None =>
      if Required want
      then Some (Errorf "phase %q: requires context key %q but no preceding phase provides it"
                   [phaseName; key] [])
      else None
  | Some got =>
      if negb (String.eqb (TypeName want) "") && negb (String.eqb (TypeName got) "")
         && negb (String.eqb (TypeName want) (TypeName got))
      then Some (Errorf "phase %q: context key %q has provided type %q, required type %q"
                   [phaseName; key; TypeName got; TypeName want] [])
      else checkConstraints phaseName key (Constraints want) (Constraints got)
  end.

Definition validateRequires (phaseName : string) (reqs provided : ContextSchema) : option gerror :=
  first_error (fun kw => validateRequire phaseName provided kw.1 kw.2) (range_of reqs).

(** ** Compose *)

Definition permanent (format : string) (args : list string) : gerror :=
  Errorf format args [ESentinel ErrPermanent].

(** The loop's variables. *)
Record builder := mkBuilder {
  b_byName : gmap string Phase;
  b_byEntry : gmap SessionState Phase;
  b_byInternal : gmap SessionState Phase;
  b_initial : SessionState;
  b_provided : ContextSchema;
  b_prev : option Phase
}.

Definition builder0 : builder := mkBuilder ∅ ∅ ∅ StateNone ∅ None.

(** The inner loop over [InternalStates]. *)
Fixpoint addInternal (p : Phase) (byEntry byInternal : gmap SessionState Phase)
    (subs : list SessionState) : gerror + gmap SessionState Phase :=
  match subs with
  | [] => inr byInternal
  | sub :: subs' =>
      if String.eqb sub StateNone then
        inl (permanent "%w: phase %q: InternalStates contains StateNone" [Name p])
      else if String.eqb sub (EntryState p) then
        inl (permanent "%w: phase %q: InternalStates duplicates EntryState %q" [Name p; sub])
      else match byEntry !! sub with
      | Some existing =>
          inl (permanent "%w: phase %q: internal state %q is also EntryState of %q"
                 [Name p; sub; Name existing])
      | None =>
          match byInternal !! sub with
          | Some existing =>
              inl (permanent "%w: phase %q: internal state %q is also an internal state of %q"
                     [Name p; sub; Name existing])
          | None => addInternal p byEntry (<[sub := p]> byInternal) subs'
          end
      end
  end.

(** The state rules of one phase. *)
Definition addStates (b : builder) (p : Phase) : gerror + builder :=
  if bool_decide (RunsAt p = RunsAtInline) then
    let entry := EntryState p in
    if String.eqb entry StateNone then
      inl (permanent "%w: phase %q: inline phase needs an EntryState" [Name p])
    else match b_byEntry b !! entry with
    | Some existing =>
        inl (permanent "%w: phase: entry state %q claimed by both %q and %q" [entry; Name existing; Name p])
    | None =>
        let byEntry := <[entry := p]> (b_byEntry b) in
        match addInternal p byEntry (b_byInternal b) (InternalStates p) with
        | inl e => inl e
        | inr byInternal =>
            match b_prev b with
            | None =>
                inr (mkBuilder (b_byName b) byEntry byInternal entry (b_provided b) (Some p))
            | Some prev =>
                if negb (String.eqb (ExitState prev) entry) then
                  inl (permanent "%w: phase: %q.ExitState=%q but %q.EntryState=%q - pipeline is not connected"
                         [Name prev; ExitState prev; Name p; entry])
                else
                  inr (mkBuilder (b_byName b) byEntry byInternal (b_initial b) (b_provided b) (Some p))
            end
        end
    end
  else if negb (String.eqb (EntryState p) StateNone) || negb (String.eqb (ExitState p) StateNone) then
    inl (permanent "%w: phase %q: non-inline phases must have StateNone for entry and exit" [Name p])
  else inr b.

(** One iteration of the loop over the phases. *)
Definition addPhase (b : builder) (p : Phase) : gerror + builder :=
  let name := Name p in
  if String.eqb name "" then
    inl (permanent "%w: Compose: phase has empty Name() (index %d in pipeline)" [pretty (msize (b_byName b))])
  else match b_byName b !! name with
  | Some _ => inl (permanent "%w: Compose: duplicate phase name %q" [name])
  | None =>
      match validateRequires name (Requires p) (b_provided b) with
      | Some err => inl (Errorf "%w: %w" [] [ESentinel ErrPermanent; err])
      | None =>
          (* later providers overwrite earlier ones *)
          addStates (mkBuilder (<[name := p]> (b_byName b)) (b_byEntry b) (b_byInternal b) (b_initial b)
                       (Provides p ∪ b_provided b) (b_prev b)) p
      end
  end.

Fixpoint addPhases (b : builder) (ps : list Phase) : gerror + builder :=
  match ps with
  | [] => inr b
  | p :: ps' => match addPhase b p with inl e => inl e | inr b' => addPhases b' ps' end
  end.

Definition Compose {St} (ps : list Phase) : gerror + SessionRunner St :=
  match ps with
  | [] => inl (permanent "%w: Compose needs at least one phase" [])
  | _ =>
      match addPhases builder0 ps with
      | inl e => inl e
      | inr b => inr (mkRunner ps (b_byName b) (b_byEntry b) (b_byInternal b) (b_initial b) ∅
                        None None ∅ None 0 [] [])
      end
  end.

(** ** Options and ComposeWith *)

Record runnerOpts (St : Type) := mkOpts {
  store : option St;
  signer : option Signer;
  peerVerifiers : gmap string Signer;
  failureHook : option LineageFailureFn
}.
Arguments mkOpts {St}.
Arguments store {St} r.
Arguments signer {St} r.
Arguments peerVerifiers {St} r.
Arguments failureHook {St} r.

#[export] Instance runnerOpts_eta {St} : Eta (runnerOpts St) :=
  fun o => mkOpts (store o) (signer o) (peerVerifiers o) (failureHook o).

Inductive ComposeOption (St : Type) :=
  | WithStore (s : St)
  | WithSigner (s : Signer)
  | WithPeerVerifiers (v : gmap string Signer)
  | WithLineageFailureHook (fn : LineageFailureFn).
Arguments WithStore {St} s.
Arguments WithSigner {St} s.
Arguments WithPeerVerifiers {St} v.
Arguments WithLineageFailureHook {St} fn.

Definition apply_option {St} (o : runnerOpts St) (opt : ComposeOption St) : runnerOpts St :=
  match opt with
  | WithStore s => o <| store := Some s |>
  | WithSigner s => o <| signer := Some s |>
  | WithPeerVerifiers v => o <| peerVerifiers := v |>
  | WithLineageFailureHook fn => o <| failureHook := Some fn |>
  end.

Definition needsPeers (ps : list Phase) : bool :=
  existsb (fun p => 0 <? zlen (ConsumedMessageTypes p)) ps.

Definition attachLineage {St} (r : SessionRunner St) (st : St) (sg : Signer)
    (verifiers : gmap string Signer) (hook : option LineageFailureFn) : SessionRunner St :=
  r <| lineageStore := Some st |> <| lineageSigner := Some sg |>
    <| lineageVerifiers := verifiers |> <| lineageFailureHook := hook |>.

(** A store of the application, or the default one. *)
Abbreviation AnyStore St := (InMemoryStore + St)%type.

Definition ComposeWith {St} (ps : list Phase) (opts : list (ComposeOption St))
    : gerror + SessionRunner (AnyStore St) :=
  let o := foldl apply_option (mkOpts None None ∅ None) opts in
  match signer o with
  | None => inl (permanent "%w: ComposeWith requires WithSigner(...)" [])
  | Some sg =>
      if needsPeers ps && (msize (peerVerifiers o) =? 0) then
        inl (permanent "%w: ComposeWith requires WithPeerVerifiers(...) for multi-party pipelines (pipeline contains phases that consume WS messages)" [])
      else
        let st := match store o with Some s => inr s | None => inl NewInMemoryStore end in
        let verifiers := match peerVerifiers o !! Algorithm sg with
                         | Some _ => peerVerifiers o
                         | None => <[Algorithm sg := sg]> (peerVerifiers o)
                         end in
        match Compose ps with
        | inl err => inl (Errorf "ComposeWith: %w" [] [err])
        | inr runner => inr (attachLineage runner st sg verifiers (failureHook o))
        end
  end.
End compose.
Arguments mkOpts {St}.
Arguments store {St} r.
Arguments signer {St} r.
Arguments peerVerifiers {St} r.
Arguments failureHook {St} r.
Arguments WithStore {St} s.
Arguments WithSigner {St} s.
Arguments WithPeerVerifiers {St} v.
Arguments WithLineageFailureHook {St} fn.

(** Either store is a store. *)
#[export] Instance sum_Store {A B} `{Store A} `{Store B} : Store (A + B) := {|
  Append := fun s n => match s with
    | inl a => let '(a', e) := Append a n in (inl a', e)
    | inr b => let '(b', e) := Append b n in (inr b', e)
    end;
  Get := fun s h => match s with inl a => Get a h | inr b => Get b h end;
  WalkSession := fun s sid => match s with inl a => WalkSession a sid | inr b => WalkSession b sid end |}.

#[export] Instance sum_StoreLaws {A B} `{StoreLaws A} `{StoreLaws B} : StoreLaws (A + B).
Proof.
  refine {| contents := fun s => match s with inl a => contents a | inr b => contents b end;
            store_inv := fun s => match s with inl a => store_inv a | inr b => store_inv b end |}.
  all: intros [a|b] *; simpl.
  all: try (pose proof (append_inv a) as Ha; pose proof (append_contents a) as Hc;
    pose proof (append_exists a) as He; pose proof (append_fresh a) as Hf).
  all: try (pose proof (append_inv b) as Ha; pose proof (append_contents b) as Hc;
    pose proof (append_exists b) as He; pose proof (append_fresh b) as Hf).
  all: try (specialize (Ha n); specialize (Hc n); specialize (He n); specialize (Hf n)).
  all: try (destruct (Append a n)); try (destruct (Append b n)); simpl in *; auto.
  all: intros ?; eauto using get_contents, get_missing, walk_contents.
Defined.
End Compose.
