(* ===== verification/ComposeTheorems.v ===== *)
(** * Theorems about pipeline composition

    [Compose] accepts exactly the well-formed pipelines, and the runner it
    returns indexes them. *)

From S2P Require Import Prelude Float64 Lineage LineageStore PhaseTypes Compose.
Import Lineage LineageStore PhaseTypes Compose.

#[local] Open Scope Z_scope.
#[local] Open Scope go_scope.

Module ComposeTheorems.

Section compose_theorems.
Context `{GoRange} `{GoFmt}.

(** ** What a pipeline must satisfy *)

Definition inline (ps : list Phase) : list Phase := filter (fun p => RunsAt p = RunsAtInline) ps.

(** The declaration in force for each key after a prefix: the last provider's. *)
Definition provided_by (ps : list Phase) : ContextSchema := foldl (fun acc p => Provides p ∪ acc) ∅ ps.

(** ["<name>_min"] asks a numeric minimum of the producer's [<name>]; any other
    name asks for a value that prints the same. *)
Definition constraint_ok (got : gmap string any) (cname : string) (cval : any) : Prop :=
  cname = "" \/
  match min_of cname with
  | Some producerKey => exists gv, got !! producerKey = Some gv /\ atLeast gv cval = Some true
  | None => exists gv, got !! cname = Some gv /\ equalConstraint gv cval = true
  end.

Definition satisfied (provided : ContextSchema) (key : string) (want : ContextKeyType) : Prop :=
  match provided !! key with
  | None => Required want = false
  | Some got =>
      (TypeName want = "" \/ TypeName got = "" \/ TypeName want = TypeName got) /\
      forall cname cval, Constraints want !! cname = Some cval -> constraint_ok (Constraints got) cname cval
  end.

(** The states an inline phase may declare after the phases [pre]. *)
Definition states_ok (pre : list Phase) (p : Phase) : Prop :=
  EntryState p <> StateNone /\ EntryState p ∉ EntryState <$> inline pre /\
  NoDup (InternalStates p) /\
  Forall (fun s => s <> StateNone /\ s <> EntryState p /\ s ∉ EntryState <$> inline pre /\
                   s ∉ concat (InternalStates <$> inline pre)) (InternalStates p) /\
  (forall q, last (inline pre) = Some q -> ExitState q = EntryState p).

Definition phase_ok (pre : list Phase) (p : Phase) : Prop :=
  Name p <> "" /\ Name p ∉ Name <$> pre /\
  (forall key want, Requires p !! key = Some want -> satisfied (provided_by pre) key want) /\
  (RunsAt p = RunsAtInline -> states_ok pre p) /\
  (RunsAt p <> RunsAtInline -> EntryState p = StateNone /\ ExitState p = StateNone).

Definition pipeline_ok (ps : list Phase) : Prop :=
  ps <> [] /\ forall pre p post, ps = pre ++ p :: post -> phase_ok pre p.

(** ** Loops over maps *)

Lemma first_error_None {A} (f : A -> option gerror) l :
  first_error f l = None <-> forall a, a ∈ l -> f a = None.
Proof.
  induction l as [|a l IH]; simpl.
  - split; [intros _ a []%not_elem_of_nil|done].
  - destruct (f a) eqn:Hf.
    + split; [done|]. intros Hall. rewrite Hall in Hf by left. done.
    + rewrite IH. split; [|intros Hall b Hb; apply Hall; by right].
      intros Hall b [->|Hb]%elem_of_cons; auto.
Qed.

Lemma range_error_None {V} (f : string * V -> option gerror) (m : gmap string V) :
  first_error f (range_of m) = None <-> forall k v, m !! k = Some v -> f (k, v) = None.
Proof.
  rewrite first_error_None. split.
  - intros Hall k v Hkv. apply Hall. by apply elem_of_range.
  - intros Hall [k v] Hkv. apply Hall. by apply elem_of_range.
Qed.

Lemma checkConstraint_None ph key got cname cval :
  checkConstraint ph key got cname cval = None <-> constraint_ok got cname cval.
Proof.
  unfold checkConstraint, constraint_ok.
  destruct (String.eqb_spec cname "") as [Hc|Hc]; [split; [by left|done]|].
  destruct (min_of cname) as [pk|].
  - destruct (got !! pk) as [gv|]; [|split; [done|intros [?|(? & ? & ?)]; done]].
    destruct (atLeast gv cval) as [[]|] eqn:Ha;
      (split; [intros; try done; right; by exists gv|intros [?|(? & [= <-] & ?)]; congruence]).
  - destruct (got !! cname) as [gv|]; [|split; [done|intros [?|(? & ? & ?)]; done]].
    destruct (equalConstraint gv cval) eqn:He;
      (split; [intros; try done; right; by exists gv|intros [?|(? & [= <-] & ?)]; congruence]).
Qed.

Lemma validateRequire_None ph provided key want :
  validateRequire ph provided key want = None <-> satisfied provided key want.
Proof.
  unfold validateRequire, satisfied. destruct (provided !! key) as [got|].
  - destruct (String.eqb_spec (TypeName want) ""), (String.eqb_spec (TypeName got) ""),
      (String.eqb_spec (TypeName want) (TypeName got)); simpl; try (split; [done|naive_solver]).
    all: unfold checkConstraints; rewrite range_error_None; simpl;
      setoid_rewrite checkConstraint_None; naive_solver.
  - destruct (Required want); naive_solver.
Qed.

Lemma validateRequires_None ph reqs provided :
  validateRequires ph reqs provided = None <->
  forall key want, reqs !! key = Some want -> satisfied provided key want.
Proof.
  unfold validateRequires. rewrite range_error_None. simpl.
  by setoid_rewrite validateRequire_None.
Qed.

(** ** The builder *)

Record built (pre : list Phase) (b : builder) : Prop := {
  bt_name : forall s, is_Some (b_byName b !! s) <-> s ∈ Name <$> pre;
  bt_entry : forall s p, b_byEntry b !! s = Some p <-> p ∈ inline pre /\ EntryState p = s;
  bt_internal : forall s p, b_byInternal b !! s = Some p <-> p ∈ inline pre /\ s ∈ InternalStates p;
  bt_initial : b_initial b = from_option EntryState StateNone (head (inline pre));
  bt_provided : b_provided b = provided_by pre;
  bt_prev : b_prev b = last (inline pre)
}.

Lemma built_nil : built [] builder0.
Proof.
  split; simpl; try done.
  - intros s. rewrite lookup_empty. split; [by intros [? ?]|by intros ?%not_elem_of_nil].
  - intros s p. rewrite lookup_empty. split; [done|by intros [?%not_elem_of_nil ?]].
  - intros s p. rewrite lookup_empty. split; [done|by intros [?%not_elem_of_nil ?]].
Qed.

Lemma inline_app pre p :
  inline (pre ++ [p]) = inline pre ++ (if decide (RunsAt p = RunsAtInline) then [p] else []).
Proof. unfold inline. by rewrite filter_app, filter_cons, filter_nil. Qed.

Lemma provided_app pre p : provided_by (pre ++ [p]) = Provides p ∪ provided_by pre.
Proof. unfold provided_by. by rewrite foldl_app. Qed.

Lemma lookup_None_iff {K V} `{Countable K} (m : gmap K V) k (P : V -> Prop) :
  (forall v, m !! k = Some v <-> P v) -> m !! k = None <-> forall v, ~ P v.
Proof.
  intros Hm. split.
  - intros Hn v Hv. apply Hm in Hv. congruence.
  - intros Hall. destruct (m !! k) as [v|] eqn:E; [|done]. destruct (Hall v). by apply Hm.
Qed.

Lemma bt_entry_None pre b s : built pre b -> b_byEntry b !! s = None <-> s ∉ EntryState <$> inline pre.
Proof.
  intros Hb. rewrite (lookup_None_iff _ _ _ (fun p => bt_entry _ _ Hb s p)), list_elem_of_fmap.
  naive_solver.
Qed.

Lemma bt_internal_None pre b s :
  built pre b -> b_byInternal b !! s = None <-> s ∉ concat (InternalStates <$> inline pre).
Proof.
  intros Hb. rewrite (lookup_None_iff _ _ _ (fun p => bt_internal _ _ Hb s p)).
  rewrite list_elem_of_In, in_concat.
  setoid_rewrite <- list_elem_of_In. setoid_rewrite list_elem_of_fmap. naive_solver.
Qed.

(** The inner loop inserts the sub-states, each fresh when its turn comes. *)
Lemma addInternal_spec p byEntry subs byInternal :
  match addInternal p byEntry byInternal subs with
  | inr m =>
      NoDup subs /\
      Forall (fun s => s <> StateNone /\ s <> EntryState p /\ byEntry !! s = None /\ byInternal !! s = None)
        subs /\
      forall s, m !! s = if decide (s ∈ subs) then Some p else byInternal !! s
  | inl e =>
      errors_Is e ErrPermanent = true /\
      ~ (NoDup subs /\
         Forall (fun s => s <> StateNone /\ s <> EntryState p /\ byEntry !! s = None /\ byInternal !! s = None)
           subs)
  end.
Proof.
  revert byInternal. induction subs as [|s subs IH]; intros byInternal; simpl.
  { split_and!; [constructor|constructor|done]. }
  destruct (String.eqb_spec s StateNone) as [->|Hs1].
  { split; [done|]. intros [_ [? _]%Forall_cons]. naive_solver. }
  destruct (String.eqb_spec s (EntryState p)) as [->|Hs2].
  { split; [done|]. intros [_ [? _]%Forall_cons]. naive_solver. }
  destruct (byEntry !! s) eqn:He.
  { split; [done|]. intros [_ [? _]%Forall_cons]. naive_solver. }
  destruct (byInternal !! s) eqn:Hi.
  { split; [done|]. intros [_ [? _]%Forall_cons]. naive_solver. }
  specialize (IH (<[s := p]> byInternal)).
  destruct (addInternal p byEntry (<[s := p]> byInternal) subs) as [e|m].
  - destruct IH as [? Hn]. split; [done|]. intros [[Hs Hnd]%NoDup_cons [_ Hall]%Forall_cons].
    apply Hn. split; [done|]. rewrite Forall_forall in *. intros s' Hs'.
    rewrite lookup_insert_ne by (by intros ->). naive_solver.
  - destruct IH as (Hnd & Hall & Hm). rewrite Forall_forall in Hall.
    assert (s ∉ subs) as Hs by (intros Hs; destruct (Hall s Hs) as (_ & _ & _ & Hx);
      by rewrite lookup_insert_eq in Hx).
    split_and!.
    + by constructor.
    + constructor; [done|]. apply Forall_forall. intros s' Hs'.
      destruct (Hall s' Hs') as (? & ? & ? & Hx). by rewrite lookup_insert_ne in Hx by (by intros ->).
    + intros s'. rewrite Hm. destruct (decide (s' = s)) as [->|Hne].
      * rewrite decide_False by done. rewrite decide_True by left. by rewrite lookup_insert_eq.
      * rewrite lookup_insert_ne by done. repeat case_decide; set_solver.
Qed.

(** ** One phase *)

Lemma addStates_spec pre b p :
  (* [b] as [addPhase] hands it over: only the names and providers moved on *)
  (forall s q, b_byEntry b !! s = Some q <-> q ∈ inline pre /\ EntryState q = s) ->
  (forall s q, b_byInternal b !! s = Some q <-> q ∈ inline pre /\ s ∈ InternalStates q) ->
  b_prev b = last (inline pre) ->
  b_initial b = from_option EntryState StateNone (head (inline pre)) ->
  match addStates b p with
  | inr b' =>
      (RunsAt p = RunsAtInline -> states_ok pre p) /\
      (RunsAt p <> RunsAtInline -> EntryState p = StateNone /\ ExitState p = StateNone) /\
      b_byName b' = b_byName b /\ b_provided b' = b_provided b /\
      (forall s q, b_byEntry b' !! s = Some q <-> q ∈ inline (pre ++ [p]) /\ EntryState q = s) /\
      (forall s q, b_byInternal b' !! s = Some q <-> q ∈ inline (pre ++ [p]) /\ s ∈ InternalStates q) /\
      b_prev b' = last (inline (pre ++ [p])) /\
      b_initial b' = from_option EntryState StateNone (head (inline (pre ++ [p])))
  | inl e =>
      errors_Is e ErrPermanent = true /\
      ~ ((RunsAt p = RunsAtInline -> states_ok pre p) /\
         (RunsAt p <> RunsAtInline -> EntryState p = StateNone /\ ExitState p = StateNone))
  end.
Proof.
  intros He Hi Hp Hini. unfold addStates. rewrite inline_app. case_bool_decide as Hr.
  - rewrite decide_True by done.
    assert (Hent : forall s, b_byEntry b !! s = None <-> s ∉ EntryState <$> inline pre).
    { intros s. rewrite (lookup_None_iff _ _ _ (He s)), list_elem_of_fmap. naive_solver. }
    assert (Hint : forall s, b_byInternal b !! s = None <-> s ∉ concat (InternalStates <$> inline pre)).
    { intros s. rewrite (lookup_None_iff _ _ _ (Hi s)), list_elem_of_In, in_concat.
      setoid_rewrite <- list_elem_of_In. setoid_rewrite list_elem_of_fmap. naive_solver. }
    destruct (String.eqb_spec (EntryState p) StateNone) as [Hn|Hn].
    { split; [done|]. intros [[? _] _]; done. }
    destruct (b_byEntry b !! EntryState p) eqn:Hx.
    { split; [done|]. intros [(_ & Hf & _) _]; [done|]. apply Hent in Hf. congruence. }
    pose proof (addInternal_spec p (<[EntryState p := p]> (b_byEntry b)) (InternalStates p)
                  (b_byInternal b)) as Hadd.
    assert (Hall : Forall (fun s => s <> StateNone /\ s <> EntryState p /\
        <[EntryState p := p]> (b_byEntry b) !! s = None /\ b_byInternal b !! s = None) (InternalStates p) <->
      Forall (fun s => s <> StateNone /\ s <> EntryState p /\ s ∉ EntryState <$> inline pre /\
                   s ∉ concat (InternalStates <$> inline pre)) (InternalStates p)).
    { rewrite !Forall_forall. apply forall_proper. intros s. rewrite <- Hint, <- Hent.
      destruct (decide (s = EntryState p)) as [->|?]; [naive_solver|].
      rewrite lookup_insert_ne by done. done. }
    destruct (addInternal _ _ _ _) as [e|m].
    { destruct Hadd as [? Hneg]. split; [done|]. intros [Hst _]. apply Hneg.
      destruct (Hst Hr) as (_ & _ & ? & ? & _). by rewrite Hall. }
    destruct Hadd as (Hnd & Hall' & Hm). apply Hall in Hall'.
    assert (Hents : forall s q, <[EntryState p := p]> (b_byEntry b) !! s = Some q <->
                           q ∈ inline pre ++ [p] /\ EntryState q = s).
    { intros s q. rewrite lookup_insert_Some, He, elem_of_app, list_elem_of_singleton.
      apply Hent in Hx. rewrite list_elem_of_fmap in Hx. naive_solver. }
    assert (Hints : forall s q, m !! s = Some q <-> q ∈ inline pre ++ [p] /\ s ∈ InternalStates q).
    { intros s q. rewrite Hm, elem_of_app, list_elem_of_singleton. rewrite Forall_forall in Hall'.
      case_decide as Hs; [|rewrite Hi; naive_solver].
      destruct (Hall' s Hs) as (_ & _ & _ & Hc). rewrite <- Hint in Hc.
      pose proof (proj1 (lookup_None_iff _ _ _ (Hi s)) Hc q). naive_solver. }
    rewrite Hp. destruct (last (inline pre)) as [q|] eqn:Hl.
    + destruct (String.eqb_spec (ExitState q) (EntryState p)) as [Hex|Hex]; simpl.
      * split_and!; try done.
        -- intros _. split_and!; try done; [by apply Hent|naive_solver].
        -- by rewrite last_snoc.
        -- rewrite Hini. by destruct (inline pre).
      * split; [done|]. intros [Hst _]. destruct (Hst Hr) as (_ & _ & _ & _ & Hlast).
        rewrite Hl in Hlast. by apply Hex, Hlast.
    + apply last_None in Hl. simpl. split_and!; try done.
      * intros _. split_and!; try done; [by apply Hent|]. by rewrite Hl.
      * by rewrite last_snoc.
      * by rewrite Hl.
  - rewrite decide_False by done. rewrite app_nil_r.
    destruct (String.eqb_spec (EntryState p) StateNone), (String.eqb_spec (ExitState p) StateNone); simpl;
      try (split_and!; done); (split; [done|]); intros [_ Hn]; destruct (Hn Hr); done.
Qed.

Lemma addPhase_spec pre b p :
  built pre b ->
  match addPhase b p with
  | inr b' => phase_ok pre p /\ built (pre ++ [p]) b'
  | inl e => ~ phase_ok pre p /\ errors_Is e ErrPermanent = true
  end.
Proof.
  intros Hb. unfold addPhase. destruct (String.eqb_spec (Name p) "") as [Hn|Hn].
  { split; [|done]. by intros [? _]. }
  destruct (b_byName b !! Name p) eqn:Hx.
  { split; [|done]. intros (_ & Hd & _). apply Hd, (bt_name _ _ Hb). by rewrite Hx. }
  assert (Hfresh : Name p ∉ Name <$> pre).
  { rewrite <- (bt_name _ _ Hb). rewrite Hx. by intros [? ?]. }
  destruct (validateRequires _ _ _) eqn:Hv.
  { split; [|done]. intros (_ & _ & Hr & _). rewrite <- (bt_provided _ _ Hb) in Hr.
    apply (validateRequires_None (Name p)) in Hr. congruence. }
  rewrite validateRequires_None, (bt_provided _ _ Hb) in Hv.
  pose proof (addStates_spec pre (mkBuilder (<[Name p := p]> (b_byName b)) (b_byEntry b) (b_byInternal b)
    (b_initial b) (Provides p ∪ b_provided b) (b_prev b)) p (bt_entry _ _ Hb) (bt_internal _ _ Hb)
    (bt_prev _ _ Hb) (bt_initial _ _ Hb)) as Hs.
  destruct (addStates _ p) as [e|b'].
  - destruct Hs as [? Hneg]. split; [|done]. intros (_ & _ & _ & Ha & Hc). by apply Hneg.
  - destruct Hs as (Ha & Hc & Hname & Hprov & He & Hi & Hp & Hini). split; [done|].
    split; try done.
    + intros s. rewrite Hname. simpl. rewrite lookup_insert_is_Some', (bt_name _ _ Hb), fmap_app, elem_of_app.
      simpl. rewrite list_elem_of_singleton. naive_solver.
    + rewrite Hprov, provided_app. simpl. by rewrite (bt_provided _ _ Hb).
Qed.

Lemma addPhases_spec pre b ps :
  built pre b ->
  match addPhases b ps with
  | inr b' => (forall l p r, ps = l ++ p :: r -> phase_ok (pre ++ l) p) /\ built (pre ++ ps) b'
  | inl e => ~ (forall l p r, ps = l ++ p :: r -> phase_ok (pre ++ l) p) /\ errors_Is e ErrPermanent = true
  end.
Proof.
  revert pre b. induction ps as [|p ps IH]; intros pre b Hb; cbn [addPhases].
  { rewrite app_nil_r. split; [|done]. by intros [|? ?] ? ?. }
  pose proof (addPhase_spec _ _ p Hb) as Hs. destruct (addPhase b p) as [e|b'].
  { destruct Hs as [Hn ?]. split; [|done]. intros Hall. apply Hn.
    specialize (Hall [] p ps eq_refl). by rewrite app_nil_r in Hall. }
  destruct Hs as [Hok Hb']. specialize (IH _ _ Hb').
  destruct (addPhases b' ps) as [e|b'']; rewrite <- (app_assoc pre [p] ps) in * || idtac.
  - destruct IH as [Hn ?]. split; [|done]. intros Hall. apply Hn. intros l q r ->.
    rewrite <- app_assoc. by apply (Hall (p :: l) q r).
  - destruct IH as [Hall ?]. split; [|done]. intros [|p' l] q r [= <- ->].
    + by rewrite app_nil_r.
    + specialize (Hall l q r eq_refl). by rewrite <- app_assoc in Hall.
Qed.

(** ** Claims *)

(** The runner of a composed pipeline: its indexes hold exactly the declared
    states, sessions start at the first inline phase, and lineage is off. *)
Record composed {St} (ps : list Phase) (r : SessionRunner St) : Prop := {
  cp_phases : phases r = ps;
  cp_entry : forall s p, byEntryState r !! s = Some p <-> p ∈ inline ps /\ EntryState p = s;
  cp_internal : forall s p, byInternalState r !! s = Some p <-> p ∈ inline ps /\ s ∈ InternalStates p;
  cp_initial : initialState r = from_option EntryState StateNone (head (inline ps))
}.

Lemma Compose_correct {St} (ps : list Phase) :
  match Compose (St := St) ps with
  | inr r => pipeline_ok ps /\ composed ps r /\ sessions r = ∅ /\ lineageStore r = None
  | inl e => ~ pipeline_ok ps /\ errors_Is e ErrPermanent = true
  end.
Proof.
  unfold Compose. destruct ps as [|p ps]; [by split; [intros [? _]|]|].
  pose proof (addPhases_spec [] builder0 (p :: ps) built_nil) as Hs.
  destruct (addPhases builder0 (p :: ps)) as [e|b].
  - destruct Hs as [Hn ?]. split; [|done]. intros [_ Hall]. by apply Hn.
  - destruct Hs as [Hall Hb]. split; [by split|]. split; [|done].
    split; simpl; [done|apply Hb..].
Qed.

(** *** The documented rule *)

(** The documentation has the other constraints compared structurally: the
    producer's value is the consumer's. *)
Definition documented_constraint (got : gmap string any) (cname : string) (cval : any) : Prop :=
  cname = "" \/
  match min_of cname with
  | Some producerKey => exists gv, got !! producerKey = Some gv /\ atLeast gv cval = Some true
  | None => got !! cname = Some cval
  end.

Definition documented_satisfied (provided : ContextSchema) (key : string) (want : ContextKeyType) : Prop :=
  match provided !! key with
  | None => Required want = false
  | Some got =>
      (TypeName want = "" \/ TypeName got = "" \/ TypeName want = TypeName got) /\
      forall cname cval, Constraints want !! cname = Some cval -> documented_constraint (Constraints got) cname cval
  end.

Definition documented (ps : list Phase) : Prop :=
  pipeline_ok ps /\ forall pre p post key want, ps = pre ++ p :: post -> Requires p !! key = Some want ->
    documented_satisfied (provided_by pre) key want.

(** Depths that print alike: a number, and a text. *)
Definition text_depth : Phase := {|
  Name := "text-depth"; Lifetime := LifetimePerSession; RunsAt := RunsAtInline;
  EntryState := "OPEN"; ExitState := "CLOSING"; InternalStates := []; ConsumedMessageTypes := [];
  Requires := ∅; Provides := {[ "key" := mkKeyType "[]byte" false {[ "depth" := VString "8" ]} false ]};
  Enter := Ret None; OnMessage := fun _ _ _ => Ret None; CheckComplete := Ret true; Exit := Ret None |}.

Definition int_depth : Phase := {|
  Name := "int-depth"; Lifetime := LifetimePerSession; RunsAt := RunsAtInline;
  EntryState := "CLOSING"; ExitState := StateNone; InternalStates := []; ConsumedMessageTypes := [];
  Requires := {[ "key" := mkKeyType "[]byte" true {[ "depth" := VInt 8 ]} false ]}; Provides := ∅;
  Enter := Ret None; OnMessage := fun _ _ _ => Ret None; CheckComplete := Ret true; Exit := Ret None |}.

Lemma text_for_int : ~ documented [text_depth; int_depth].
Proof.
  intros [_ Hd]. specialize (Hd [text_depth] int_depth [] "key" _ eq_refl eq_refl).
  unfold documented_satisfied in Hd. change (provided_by [text_depth] !! "key") with (Some (mkKeyType "[]byte" false {[ "depth" := VString "8" ]} false)) in Hd.
  destruct Hd as [_ Hd]. destruct (Hd "depth" (VInt 8) eq_refl) as [?|Hc]; [done|]. change (min_of "depth") with (@None string) in Hc. done.
Qed.

Lemma int_depth_satisfied : satisfied (provided_by [text_depth]) "key" (mkKeyType "[]byte" true {[ "depth" := VInt 8 ]} false).
Proof.
  unfold satisfied. change (provided_by [text_depth] !! "key") with (Some (mkKeyType "[]byte" false {[ "depth" := VString "8" ]} false)).
  split; [by right; right|]. intros cname cval Hc. cbn in Hc. apply lookup_singleton_Some in Hc as [<- <-]. right.
  change (min_of "depth") with (@None string). by exists (VString "8").
Qed.


(** [ComposeWith] needs a signer and, when some phase consumes messages,
    at least one peer verifier; otherwise it behaves as [Compose] with lineage
    switched on, the signer's own algorithm always among the verifiers. *)
Lemma ComposeWith_spec {St} (ps : list Phase) (opts : list (ComposeOption St)) :
  let o := foldl apply_option (mkOpts None None ∅ None) opts in
  match ComposeWith ps opts with
  | inr r =>
      pipeline_ok ps /\ composed ps r /\
      (needsPeers ps = true -> peerVerifiers o <> ∅) /\
      is_Some (lineageStore r) /\
      exists sg, signer o = Some sg /\ lineageSigner r = Some sg /\
        is_Some (lineageVerifiers r !! Algorithm sg) /\ peerVerifiers o ⊆ lineageVerifiers r
  | inl e =>
      errors_Is e ErrPermanent = true /\
      (signer o = None \/ (needsPeers ps = true /\ peerVerifiers o = ∅) \/ ~ pipeline_ok ps)
  end.
Proof.
  intros o. unfold ComposeWith. fold o. destruct (signer o) as [sg|]; [|by split; [|left]].
  assert (Hsz : (msize (peerVerifiers o) =? 0) = true <-> peerVerifiers o = ∅).
  { unfold msize. rewrite Z.eqb_eq. rewrite <- map_size_empty_iff. lia. }
  destruct (needsPeers ps && (msize (peerVerifiers o) =? 0)) eqn:Hn.
  { split; [done|]. apply andb_prop in Hn as [? ?%Hsz]. by right; left. }
  pose proof (Compose_correct (St := InMemoryStore + St) ps) as Hc.
  destruct (Compose ps) as [e|r].
  - destruct Hc as [? He]. split; [simpl; by rewrite He|by do 2 right].
  - destruct Hc as (? & [Hp He Hi Hini] & _). split; [done|]. split; [by split|]. split_and!.
    + intros Hnp Hemp. rewrite Hnp in Hn. apply Hsz in Hemp. by rewrite Hemp in Hn.
    + eexists. reflexivity.
    + exists sg. cbn [lineageSigner lineageVerifiers attachLineage set_field]. destruct (peerVerifiers o !! Algorithm sg) eqn:Ha; split_and!; try done.
      * by rewrite lookup_insert_eq.
      * by apply insert_subseteq.
Qed.
End compose_theorems.
End ComposeTheorems.
