(* ===== verification/Runner.v ===== *)
(** * The session runner ([pkg/ares/phase]: runner.go, runner_lineage.go)

    Session lifecycle, message dispatch, the advance cascade, and the lineage
    gate before and auto-commit after a phase. *)

From S2P Require Import Prelude Float64 Lineage LineageStore PhaseTypes Compose.
Import Lineage LineageStore PhaseTypes Compose.

#[local] Open Scope Z_scope.
#[local] Open Scope go_scope.

Module Runner.

(** How a runner method ends: a value, an error, or a panic that unwinds it. *)
Inductive result (A : Type) := Good (a : A) | Bad (e : gerror) | Unwind (msg : string).
Arguments Good {A} a.
Arguments Bad {A} e.
Arguments Unwind {A} msg.

(** What one session's dispatch works on: its tracker, and the lineage state
    shared by all sessions. *)
Record env (St : Type) := mkEnv { tracker : sessionTracker; e_store : option St; e_tick : nat }.
Arguments mkEnv {St}.
Arguments tracker {St} e.
Arguments e_store {St} e.
Arguments e_tick {St} e.

#[export] Instance env_eta {St} : Eta (env St) := fun e => mkEnv (tracker e) (e_store e) (e_tick e).

Definition E (St A : Type) : Type := env St -> env St * result A.

Definition eret {St A} (a : A) : E St A := fun e => (e, Good a).
Definition fail {St A} (err : gerror) : E St A := fun e => (e, Bad err).
Definition ebind {St A B} (m : E St A) (f : A -> E St B) : E St B := fun e =>
  match m e with
  | (e', Good a) => f a e'
  | (e', Bad err) => (e', Bad err)
  | (e', Unwind msg) => (e', Unwind msg)
  end.

Declare Scope run_scope.
Delimit Scope run_scope with run.
#[local] Open Scope run_scope.
Notation "'do' x <- m ; q" := (ebind m (fun x => q))
  (at level 200, x name, m at level 100, q at level 200) : run_scope.
Notation "m ;;; q" := (ebind m (fun _ => q)) (at level 100, q at level 200, right associativity) : run_scope.

Section runner.
Context {St : Type} `{Store St} `{Clock} `{GoRange} `{GoFmt}.
Implicit Types r : SessionRunner St.

(** ** Steps on the environment *)

Definition setTracker (f : sessionTracker -> sessionTracker) : E St unit :=
  fun e => (e <| tracker := f (tracker e) |>, Good tt).

(** Run a hook on the session's context. *)
Definition exec {A} (p : Prog A) : E St A := fun e =>
  let '(w, o) := run p (mkWorld (ctx (tracker e)) (e_store e) (e_tick e)) in
  (mkEnv (tracker e <| ctx := w_ctx w |>) (w_store w) (w_tick w),
   match o with Ok a => Good a | Crash msg => Unwind msg end).

(** [if err := hook(ctx); err != nil { return fmt.Errorf(format, name, err) }]. *)
Definition guard (format : string) (p : Phase) (h : Prog (option gerror)) : E St unit :=
  do err <- exec h;
  match err with
  | Some e => fail (Errorf format [Name p] [e])
  | None => eret tt
  end.

(** [tracker.current], whose methods panic when it is nil. *)
Definition currentPhase : E St Phase := fun e =>
  match current (tracker e) with
  | Some p => (e, Good p)
  | None => (e, Unwind "runtime error: invalid memory address or nil pointer dereference")
  end.

(** ** Auto-commit *)

(** The first node of the walk with this payload hash. *)
Fixpoint find_payload (h : NodeRef) (l : list (DAGNode * option StoreError))
    : gerror + option DAGNode :=
  match l with
  | [] => inr None
  | (_, Some err) :: _ => inl (EStore err)
  | (n, None) :: l' => if bool_decide (PayloadHash n = h) then inr (Some n) else find_payload h l'
  end.

(** The loop of [resolveParents] over the required keys. *)
Fixpoint resolve_keys (st : St) (c : SessionContext) (keys : list string) : gerror + list DAGNode :=
  match keys with
  | [] => inr []
  | key :: keys' =>
      match TryGet as_bytes c key with
      | None => resolve_keys st c keys'
      | Some payload =>
          match find_payload (HashPayload payload) (WalkSession st (CtxSessionID c)) with
          | inl e => inl e
          | inr found =>
              match resolve_keys st c keys' with
              | inl e => inl e
              | inr ps => inr (match found with Some n => n :: ps | None => ps end)
              end
          end
      end
  end.

Definition resolveParents (st : St) (p : Phase) (c : SessionContext) : gerror + list DAGNode :=
  resolve_keys st c (range_of (Requires p)).*1.

(** The loop of [commitPhaseOutputsIfEnabled] over [Provides]. *)
Fixpoint commit_outputs r (p : Phase) (parents : list DAGNode) (outs : list (string * ContextKeyType))
    : E St unit :=
  match outs with
  | [] => eret tt
  | (key, kt) :: outs' => fun e =>
      let skip := commit_outputs r p parents outs' in
      if NoLineage kt then skip e
      else match TryGet as_bytes (ctx (tracker e)) key, e_store e with
      | Some payload, Some st =>
          let e := e <| e_tick := S (e_tick e) |> in
          match Commit (time_now (e_tick e)) (CtxSessionID (ctx (tracker e))) (Name p) key payload
                  parents (lineageSigner r) with
          | inl err => (e, Bad (Errorf "%w: lineage.Commit for phase %q output %q: %w" [Name p; key]
                                  [ESentinel ErrFrameworkBug; ECommit err]))
          | inr node =>
              let '(st', err) := append_idempotent st node in
              let e := e <| e_store := Some st' |> in
              match err with
              | Some err => (e, Bad (Errorf "%w: lineage.Store.Append for phase %q output %q: %w"
                                       [Name p; key] [ESentinel ErrFrameworkBug; EStore err]))
              | None => skip e
              end
          end
      | _, _ => skip e
      end
  end.

Definition commitPhaseOutputsIfEnabled r (p : Phase) : E St unit := fun e =>
  match e_store e with
  | None => (e, Good tt)
  | Some st =>
      match resolveParents st p (ctx (tracker e)) with
      | inl err => (e, Bad err)
      | inr parents => commit_outputs r p parents (range_of (Provides p)) e
      end
  end.

Definition guard_commit (format : string) r (p : Phase) : E St unit := fun e =>
  match commitPhaseOutputsIfEnabled r p e with
  | (e', Bad err) => (e', Bad (Errorf format [Name p] [err]))
  | res => res
  end.

(** ** Advancing *)

(** Leave [cur] and enter [np]: the common middle of both loops. *)
Definition enterNext (format : string) (np : Phase) (next : SessionState) : E St unit :=
  setTracker (fun t => t <| state := next |> <| current := Some np |> <| entered := false |>) ;;;
  guard format np (Enter np) ;;;
  setTracker (fun t => t <| entered := true |>).

Definition hopLimit : gerror :=
  Errorf "%w: cascade hop limit exceeded (>%d hops); pipeline likely has a cycle" []
    [ESentinel ErrFrameworkBug].

Fixpoint advance_loop r (hops : nat) : E St bool :=
  match hops with
  | O => fail hopLimit
  | S hops' =>
      do cur <- currentPhase;
      guard "phase %q: Exit: %w" cur (Exit cur) ;;;
      guard_commit "phase %q: lineage commit: %w" r cur ;;;
      let next := ExitState cur in
      if String.eqb next StateNone then
        setTracker (fun t => t <| state := StateNone |> <| current := None |>) ;;; eret true
      else match byEntryState r !! next with
      | None => fail (Errorf "%w: no phase claims state %q (ExitState of %q)" [next; Name cur]
                        [ESentinel ErrFrameworkBug])
      | Some np =>
          enterNext "phase %q: Enter: %w" np next ;;;
          if 0 <? zlen (ConsumedMessageTypes np) then eret true
          else
            do complete <- exec (CheckComplete np);
            if negb complete then eret true else advance_loop r hops'
      end
  end.

Definition advance r : E St bool := advance_loop r (length (phases r) + 1).

Definition walkLimit (sessionID : string) (target : SessionState) : gerror :=
  Errorf "%w: AdvanceToState: hop limit exceeded for session %q (target %q); pipeline likely has a cycle"
    [sessionID; target] [ESentinel ErrFrameworkBug].

Fixpoint walk_loop r (sessionID : string) (target : SessionState) (hops : nat) : E St unit :=
  match hops with
  | O => fail (walkLimit sessionID target)
  | S hops' => fun e =>
      if String.eqb (state (tracker e)) target then (e, Good tt)
      else match current (tracker e) with
      | None => fail (Errorf "%w: AdvanceToState: session %q has no current phase but target %q not reached"
                        [sessionID; target] [ESentinel ErrFrameworkBug]) e
      | Some cur =>
          (guard "phase %q: Exit during AdvanceToState: %w" cur (Exit cur) ;;;
           guard_commit "phase %q: lineage commit during AdvanceToState: %w" r cur ;;;
           let next := ExitState cur in
           if String.eqb next StateNone then
             fail (Errorf "%w: AdvanceToState: session %q reached terminal phase %q without entering target %q"
                     [sessionID; Name cur; target] [ESentinel ErrPermanent])
           else match byEntryState r !! next with
           | None => fail (Errorf "%w: AdvanceToState: no phase claims state %q" [next]
                             [ESentinel ErrFrameworkBug])
           | Some np =>
               enterNext "phase %q: Enter during AdvanceToState: %w" np next ;;;
               walk_loop r sessionID target hops'
           end) e
      end
  end.

Definition advanceTo r (sessionID : string) (target : SessionState) : E St unit := fun e =>
  if String.eqb (state (tracker e)) target then (e, Good tt)
  else if match current (tracker e) with
          | Some p => bool_decide (target ∈ InternalStates p)
          | None => false
          end
  then (e, Good tt)
  else walk_loop r sessionID target (length (phases r) + 1) e.

(** ** Methods *)

Definition PhaseForState r (s : SessionState) : option Phase :=
  match byEntryState r !! s with
  | Some p => Some p
  | None => byInternalState r !! s
  end.

(** Run a dispatch on a tracked session and write its effects back. *)
Definition on_session {A} r (sessionID : string) (t : sessionTracker) (m : E St A)
    : SessionRunner St * result A :=
  let '(e, res) := m (mkEnv t (lineageStore r) (ticks r)) in
  (r <| sessions := <[sessionID := tracker e]> (sessions r) |>
     <| lineageStore := e_store e |> <| ticks := e_tick e |>, res).

Definition is_some {A} (o : option A) : bool := match o with Some _ => true | None => false end.

Definition BeginSession r (sessionID cohortID : string) : SessionRunner St * result SessionContext :=
  if String.eqb sessionID "" then
    (r, Bad (permanent "%w: BeginSession requires non-empty sessionID" []))
  else match sessions r !! sessionID with
  | Some _ => (r, Bad (permanent "%w: BeginSession: session %q is already active" [sessionID]))
  | None =>
      let c := NewSessionContext sessionID <| CohortID := cohortID |>
                 <| ctx_lineageStore := is_some (lineageStore r) |>
                 <| ctx_lineageSigner := lineageSigner r |> in
      match byEntryState r !! initialState r with
      | None => (r, Bad (Errorf "%w: BeginSession: no phase claims initial state %q" [initialState r]
                           [ESentinel ErrFrameworkBug]))
      | Some first =>
          let '(r', res) := on_session r sessionID (mkTracker c (initialState r) (Some first) false)
            (guard "phase %q: Enter: %w" first (Enter first) ;;;
             setTracker (fun t => t <| entered := true |>)) in
          match res with
          | Good _ => (r', match sessions r' !! sessionID with
                           | Some t => Good (ctx t)
                           | None => Unwind "unreachable"
                           end)
          | Bad err => (r' <| sessions := delete sessionID (sessions r') |>, Bad err)
          | Unwind msg => (r', Unwind msg)
          end
      end
  end.

Definition phaseConsumes (p : Phase) (msgType : string) : bool :=
  bool_decide (msgType ∈ ConsumedMessageTypes p).

(** The dispatch of one message to the current phase. *)
Definition dispatch r (msgType from : string) (payload : bytes) : E St bool :=
  do cur <- currentPhase;
  fun e =>
    if negb (phaseConsumes cur msgType) then
      (e, Bad (permanent "%w: phase %q: does not consume message type %q in state %q"
                 [Name cur; msgType; state (tracker e)]))
    else
      (guard "phase %q: OnMessage: %w" cur (OnMessage cur msgType from payload) ;;;
       do complete <- exec (CheckComplete cur);
       if negb complete then eret false else advance r) e.

Definition HandleMessage r (sessionID msgType from : string) (payload : bytes)
    : SessionRunner St * result bool :=
  match sessions r !! sessionID with
  | None => (r, Bad (permanent "%w: HandleMessage: session %q is not active" [sessionID]))
  | Some t => on_session r sessionID t (dispatch r msgType from payload)
  end.

Definition AdvanceToState r (sessionID : string) (target : SessionState)
    : SessionRunner St * result unit :=
  match sessions r !! sessionID with
  | None => (r, Bad (permanent "%w: AdvanceToState: session %q is not active" [sessionID]))
  | Some t => on_session r sessionID t (advanceTo r sessionID target)
  end.

Definition EndSession r (sessionID : string) : SessionRunner St :=
  r <| sessions := delete sessionID (sessions r) |>.

Definition CurrentState r (sessionID : string) : SessionState * bool :=
  match sessions r !! sessionID with
  | None => (StateNone, false)
  | Some t => (state t, true)
  end.

(** The accessors [Phases], [InitialState] and [SessionContext]. *)
Definition Phases r : list Phase := phases r.

Definition InitialState r : SessionState := initialState r.

Definition sessionContext r (sessionID : string) : option SessionContext := ctx <$> sessions r !! sessionID.

(** [SessionContextKeys]: [map[string]any] values go through [json.Marshal],
    [None] being its error; a later duplicate of a name gives the same entry. *)
Definition render (marshal : list (string * any) -> option string) (v : any) : option string :=
  match v with
  | VBytes b => Some (hex_encode b)
  | VString s => Some s
  | VMap m => marshal m
  | _ => Some (Sprint_v v)
  end.

Definition SessionContextKeys r (marshal : list (string * any) -> option string)
    (sessionID : string) (names : list string) : option (gmap string string) :=
  t ← sessions r !! sessionID;
  Some (foldl (fun out k =>
          match ctx_Get (ctx t) k with
          | None => out
          | Some v => match render marshal v with Some s => <[k := s]> out | None => out end
          end) ∅ names).

(** A caller's [ctx.Set] on the context [BeginSession] returned. *)
Definition SeedContext r (sessionID key : string) (v : any) : SessionRunner St :=
  match sessions r !! sessionID with
  | None => r
  | Some t => r <| sessions := <[sessionID := t <| ctx := ctx_Set (ctx t) key v |>]> (sessions r) |>
  end.

(** ** Lineage messages *)

Definition fireFailureHook r (ev : LineageFailureEvent) : SessionRunner St :=
  match lineageFailureHook r with
  | None => r
  | Some hook =>
      let r := r <| hook_calls := hook_calls r ++ [ev] |> in
      match hook ev with
      | None => r
      | Some rec => r <| panic_log := panic_log r ++ [(ev, rec)] |>
      end
  end.

(** The loop over the parents: the first that the store does not return. *)
Fixpoint missingParent (st : St) (node : DAGNode) (i : Z) (ps : list NodeRef) : option MismatchError :=
  match ps with
  | [] => None
  | p :: ps' =>
      match Get st p with
      | inr _ => missingParent st node (i + 1) ps'
      | inl _ => Some (mkMismatch FParentRef (Raw p) (Text "parent[%d] not in store: %v" [pretty i])
                         (Hash node))
      end
  end.

Definition verifyInbound r (st : St) (node : DAGNode) (payload : bytes) : option MismatchError :=
  match Verify node payload (lineageVerifiers r) with
  | Some e => Some e
  | None => missingParent st node 0 (Parents node)
  end.

Definition mismatchEvent (sessionID : string) (node : DAGNode) : LineageFailureEvent := {|
  ev_Kind := "mismatch-confirmed"; ev_SessionID := sessionID; ev_PhaseID := PhaseID node;
  ev_Role := Role node; ev_Attributee := Producer node; ev_DAGNodes := [node] |}.

Definition HandleLineageMessage r (sessionID msgType from : string) (payload : bytes)
    (lineageNode : option DAGNode) : SessionRunner St * result bool :=
  match lineageStore r with
  | None => HandleMessage r sessionID msgType from payload
  | Some st =>
      match lineageNode with
      | None => (r, Bad (permanent "%w: HandleLineageMessage requires non-nil lineage node (v2 frame)" []))
      | Some node =>
          match verifyInbound r st node payload with
          | Some verifyErr =>
              (fireFailureHook r (mismatchEvent sessionID node),
               Bad (Errorf "%w: HandleLineageMessage: session %q phase %q role %q: %w"
                      [sessionID; PhaseID node; Role node]
                      [ESentinel ErrAppAttributable; EMismatch verifyErr]))
          | None =>
              let '(st', err) := append_idempotent st node in
              let r := r <| lineageStore := Some st' |> in
              match err with
              | Some err => (r, Bad (Errorf "%w: HandleLineageMessage: store.Append for phase %q role %q: %w"
                                       [PhaseID node; Role node] [ESentinel ErrFrameworkBug; EStore err]))
              | None => HandleMessage r sessionID msgType from payload
              end
          end
      end
  end.

(** The claim's payload is the text of the error. *)
Definition BuildMismatchClaim r (sessionID phaseID role : string) (mismatchErr : string)
    : SessionRunner St * (gerror + DAGNode) :=
  match lineageSigner r with
  | None => (r, inl (permanent "%w: BuildMismatchClaim requires lineage-enabled runner (build via ComposeWith, not Compose)" []))
  | Some sg =>
      let r := r <| ticks := S (ticks r) |> in
      (r, match Commit (time_now (ticks r)) sessionID phaseID "mismatch-claim"
                  (bytes_of_string mismatchErr) [] (Some sg) with
          | inl e => inl (ECommit e)
          | inr n => inr n
          end)
  end.

Definition ReportFalseLineageClaim r (sessionID : string) (claim : DAGNode) : SessionRunner St :=
  fireFailureHook r {|
    ev_Kind := "mismatch-false-claim"; ev_SessionID := sessionID; ev_PhaseID := PhaseID claim;
    ev_Role := Role claim; ev_Attributee := Producer claim; ev_DAGNodes := [claim] |}.

(** ** Runs *)

Inductive runner_op :=
  | RBegin (sessionID cohortID : string)
  | RSeed (sessionID key : string) (v : any)
  | RMessage (sessionID msgType from : string) (payload : bytes)
  | RLineage (sessionID msgType from : string) (payload : bytes) (node : option DAGNode)
  | RAdvance (sessionID : string) (target : SessionState)
  | REnd (sessionID : string)
  | RClaim (sessionID phaseID role : string) (mismatchErr : string)
  | RFalseClaim (sessionID : string) (claim : DAGNode).

Definition runner_step r (o : runner_op) : SessionRunner St :=
  match o with
  | RBegin sid cid => (BeginSession r sid cid).1
  | RSeed sid key v => SeedContext r sid key v
  | RMessage sid ty from pl => (HandleMessage r sid ty from pl).1
  | RLineage sid ty from pl n => (HandleLineageMessage r sid ty from pl n).1
  | RAdvance sid target => (AdvanceToState r sid target).1
  | REnd sid => EndSession r sid
  | RClaim sid ph role e => (BuildMismatchClaim r sid ph role e).1
  | RFalseClaim sid claim => ReportFalseLineageClaim r sid claim
  end.

Definition runner_run r (ops : list runner_op) : SessionRunner St := foldl runner_step r ops.
End runner.
End Runner.
