(* ===== verification/RunnerInvariant.v ===== *)
(** * The session runner's invariant

    A small logic for dispatch code, and the invariant of trackers and shared
    store that every runner operation keeps. *)

From S2P Require Import Prelude Sha256 Float64 Lineage LineageStore LineageTheorems PhaseTypes Compose ComposeTheorems Runner.
Import Sha256 Lineage LineageStore LineageTheorems PhaseTypes Compose ComposeTheorems Runner.

#[local] Open Scope Z_scope.
#[local] Open Scope go_scope.
#[local] Open Scope run_scope.

Module RunnerInvariant.

Section runner_theorems.
Context {St : Type} {HStore : Store St} {HClock : Clock} {HRange : GoRange} {HFmt : GoFmt}.
Implicit Types (r : SessionRunner St) (e : env St).

(** ** Hooks keep the frame *)

(** A context with the same identity and lineage fields. *)
Definition same_frame (c c' : SessionContext) : Prop :=
  CtxSessionID c' = CtxSessionID c /\ CohortID c' = CohortID c /\
  ctx_lineageStore c' = ctx_lineageStore c /\ ctx_lineageSigner c' = ctx_lineageSigner c.

Lemma CommitArtifact_frame ph ro pl ps (w : world St) :
  w_ctx (CommitArtifact ph ro pl ps w).1 = w_ctx w /\
  is_some (w_store (CommitArtifact ph ro pl ps w).1) = is_some (w_store w).
Proof.
  unfold CommitArtifact. destruct (w_store w) eqn:Hs, (ctx_lineageStore (w_ctx w)),
    (ctx_lineageSigner (w_ctx w)); cbn -[Commit]; rewrite ?Hs; try done.
  destruct (Commit _ _ _ _ _ _ _); cbn; [by rewrite Hs|].
  destruct (append_idempotent s d) as [s' [err|]]; cbn; done.
Qed.

Lemma run_frame {A} (p : Prog A) (w : world St) :
  same_frame (w_ctx w) (w_ctx (run p w).1) /\ is_some (w_store (run p w).1) = is_some (w_store w).
Proof.
  revert w. induction p as [a|msg|f k IH|ph ro pl ps k IH|k IH]; intros w; cbn [run].
  - done.
  - done.
  - specialize (IH (w_ctx w) (w <| w_ctx := touch f (w_ctx w) |>)). exact IH.
  - pose proof (CommitArtifact_frame ph ro pl ps w) as [Hc Hs].
    destruct (CommitArtifact ph ro pl ps w) as [w' x]. cbn in *.
    specialize (IH x w'). by rewrite Hc, Hs in IH.
  - apply IH.
Qed.

(** ** A logic for dispatch *)

(** [keeps P m]: whatever [m] does, [P] still holds of the environment. *)
Definition keeps {A} (P : env St -> Prop) (m : E St A) : Prop := forall e, P e -> P (m e).1.

Lemma keeps_ret {A} P (a : A) : keeps P (eret a).
Proof. by intros e He. Qed.

Lemma keeps_fail {A} P err : keeps (A := A) P (fail err).
Proof. by intros e He. Qed.

Lemma keeps_bind {A B} P (m : E St A) (f : A -> E St B) :
  keeps P m -> (forall a, keeps P (f a)) -> keeps P (ebind m f).
Proof.
  intros Hm Hf e He. unfold ebind. specialize (Hm e He).
  destruct (m e) as [e' [a| |]]; simpl in *; [by apply Hf|done..].
Qed.

Lemma keeps_current P : keeps P currentPhase.
Proof. intros e He. unfold currentPhase. by destruct (current (tracker e)). Qed.

Create HintDb keeps.
Hint Resolve keeps_ret keeps_fail keeps_bind keeps_current : keeps.

(** ** The session invariant *)

(** The phase of a session is the one whose entry state it is in; a finished
    session has none. *)
Definition coherent r (t : sessionTracker) : Prop :=
  match current t with
  | Some p => byEntryState r !! state t = Some p
  | None => state t = StateNone
  end.

(** [Q] is what is asked of the shared store. *)
Record env_ok (Q : option St -> Prop) r (sid : string) e : Prop := {
  eo_phase : coherent r (tracker e);
  eo_sid : CtxSessionID (ctx (tracker e)) = sid;
  eo_flag : ctx_lineageStore (ctx (tracker e)) = is_some (e_store e);
  eo_signer : ctx_lineageSigner (ctx (tracker e)) = lineageSigner r;
  eo_store : is_some (e_store e) = is_some (lineageStore r);
  eo_Q : Q (e_store e)
}.

Definition prog_keeps (Q : option St -> Prop) {A} (h : Prog A) : Prop :=
  forall w, Q (w_store w) -> Q (w_store (run h w).1).

Record phase_keeps (Q : option St -> Prop) (p : Phase) : Prop := {
  pk_enter : prog_keeps Q (Enter p);
  pk_message : forall ty from pl, prog_keeps Q (OnMessage p ty from pl);
  pk_check : prog_keeps Q (CheckComplete p);
  pk_exit : prog_keeps Q (Exit p)
}.

Definition commit_keeps (Q : option St -> Prop) r (p : Phase) : Prop :=
  forall e, Q (e_store e) -> Q (e_store (commitPhaseOutputsIfEnabled r p e).1).

Lemma keeps_exec {A} Q r sid (h : Prog A) : prog_keeps Q h -> keeps (env_ok Q r sid) (exec h).
Proof.
  intros Hh e [Hp Hs Hf Hg Ht HQ]. unfold exec.
  pose proof (run_frame h (mkWorld (ctx (tracker e)) (e_store e) (e_tick e))) as [(H1 & _ & H3 & H4) H5].
  specialize (Hh (mkWorld (ctx (tracker e)) (e_store e) (e_tick e)) HQ).
  destruct (run h _) as [w o]. cbn in *. split; cbn; try done; congruence.
Qed.

Lemma keeps_guard Q r sid fmt p h : prog_keeps Q h -> keeps (env_ok Q r sid) (guard fmt p h).
Proof.
  intros Hh. apply keeps_bind; [by apply keeps_exec|]. intros [err|]; auto with keeps.
Qed.

Lemma commit_outputs_frame r p parents outs e :
  tracker (commit_outputs r p parents outs e).1 = tracker e /\
  is_some (e_store (commit_outputs r p parents outs e).1) = is_some (e_store e).
Proof.
  revert e. induction outs as [|[key kt] outs IH]; intros e; cbn [commit_outputs]; [done|].
  destruct (NoLineage kt); [apply IH|].
  destruct (TryGet as_bytes (ctx (tracker e)) key), (e_store e) as [st|] eqn:Hs; try apply IH.
  - destruct (Commit _ _ _ _ _ _ _); cbn; [by rewrite Hs|].
    destruct (append_idempotent st d) as [st' [err|]]; cbn; [done|].
    destruct (IH (e <| e_tick := S (e_tick e) |> <| e_store := Some st' |>)) as [-> ->]. done.
  - destruct (IH e) as [-> ->]. by rewrite Hs.
  - destruct (IH e) as [-> ->]. by rewrite Hs.
  - destruct (IH e) as [-> ->]. by rewrite Hs.
Qed.

Lemma commitPhase_frame r p e :
  tracker (commitPhaseOutputsIfEnabled r p e).1 = tracker e /\
  is_some (e_store (commitPhaseOutputsIfEnabled r p e).1) = is_some (e_store e).
Proof.
  unfold commitPhaseOutputsIfEnabled. destruct (e_store e) eqn:Hs; cbn; [|by rewrite Hs].
  destruct (resolveParents _ _ _); cbn; [by rewrite Hs|]. destruct (commit_outputs_frame r p l (range_of (Provides p)) e) as [-> ->]. by rewrite Hs.
Qed.

Lemma keeps_guard_commit Q r sid fmt p : commit_keeps Q r p -> keeps (env_ok Q r sid) (guard_commit fmt r p).
Proof.
  intros Hc e [Hp Hs Hf Hg Ht HQ]. unfold guard_commit.
  pose proof (commitPhase_frame r p e) as [H1 H2]. specialize (Hc e HQ).
  destruct (commitPhaseOutputsIfEnabled r p e) as [e' res]. cbn in *.
  assert (env_ok Q r sid e') by (split; congruence). by destruct res.
Qed.

Lemma keeps_enterNext Q r sid fmt np next :
  prog_keeps Q (Enter np) -> byEntryState r !! next = Some np ->
  keeps (env_ok Q r sid) (enterNext fmt np next).
Proof.
  intros Hn He. unfold enterNext. apply keeps_bind; [|intros _; apply keeps_bind; [by apply keeps_guard|]].
  - intros e [Hp Hs Hf Hg Ht HQ]. split; cbn; done.
  - intros _ e [Hp Hs Hf Hg Ht HQ]. split; cbn; done.
Qed.

Section dispatch.
Context (Q : option St -> Prop) (r : SessionRunner St) (sid : string).
Hypothesis keeps_phases : forall s p, byEntryState r !! s = Some p -> phase_keeps Q p.
Hypothesis keeps_commits : forall s p, byEntryState r !! s = Some p -> commit_keeps Q r p.

(** Only a phase of the pipeline can be current. *)
Lemma keeps_current_phase {B} (f : Phase -> E St B) :
  (forall s p, byEntryState r !! s = Some p -> keeps (env_ok Q r sid) (f p)) ->
  keeps (env_ok Q r sid) (ebind currentPhase f).
Proof.
  intros Hf e He. unfold ebind, currentPhase.
  pose proof (eo_phase _ _ _ _ He) as Hp. unfold coherent in Hp.
  destruct (current (tracker e)) as [p|]; [|done]. by eapply Hf.
Qed.

Lemma keeps_advance_loop hops : keeps (env_ok Q r sid) (advance_loop r hops).
Proof.
  induction hops as [|hops IH]; cbn [advance_loop]; [apply keeps_fail|].
  apply keeps_current_phase. intros s p Hp.
  apply keeps_bind; [apply keeps_guard, (pk_exit _ _ (keeps_phases _ _ Hp))|intros _].
  apply keeps_bind; [apply keeps_guard_commit; by eapply keeps_commits|intros _].
  cbv zeta. destruct (String.eqb (ExitState p) StateNone).
  - apply keeps_bind; [|intros _; apply keeps_ret]. intros e [? ? ? ? ? ?]. split; cbn; done.
  - destruct (byEntryState r !! ExitState p) as [np|] eqn:Hn; [|apply keeps_fail].
    apply keeps_bind; [apply keeps_enterNext; [apply (pk_enter _ _ (keeps_phases _ _ Hn))|done]|intros _].
    destruct (0 <? _); [apply keeps_ret|].
    apply keeps_bind; [apply keeps_exec, (pk_check _ _ (keeps_phases _ _ Hn))|]. intros [|]; [apply IH|apply keeps_ret].
Qed.

Lemma keeps_walk_loop target hops : keeps (env_ok Q r sid) (walk_loop r sid target hops).
Proof.
  induction hops as [|hops IH]; cbn [walk_loop]; [apply keeps_fail|]. intros e He.
  destruct (String.eqb (state (tracker e)) target); [done|].
  pose proof (eo_phase _ _ _ _ He) as Hp. unfold coherent in Hp.
  destruct (current (tracker e)) as [p|]; [|done]. revert e Hp He. intros e Hp.
  enough (Hk : keeps (env_ok Q r sid)
    (guard "phase %q: Exit during AdvanceToState: %w" p (Exit p) ;;;
     guard_commit "phase %q: lineage commit during AdvanceToState: %w" r p ;;;
     if String.eqb (ExitState p) StateNone then
       fail (Errorf "%w: AdvanceToState: session %q reached terminal phase %q without entering target %q"
               [sid; Name p; target] [ESentinel ErrPermanent])
     else match byEntryState r !! ExitState p with
     | None => fail (Errorf "%w: AdvanceToState: no phase claims state %q" [ExitState p]
                       [ESentinel ErrFrameworkBug])
     | Some np =>
         enterNext "phase %q: Enter during AdvanceToState: %w" np (ExitState p) ;;;
         walk_loop r sid target hops
     end)) by apply (Hk e).
  apply keeps_bind; [apply keeps_guard, (pk_exit _ _ (keeps_phases _ _ Hp))|intros _].
  apply keeps_bind; [apply keeps_guard_commit; by eapply keeps_commits|intros _].
  destruct (String.eqb (ExitState p) StateNone); [apply keeps_fail|].
  destruct (byEntryState r !! ExitState p) as [np|] eqn:Hn; [|apply keeps_fail].
  apply keeps_bind; [apply keeps_enterNext; [apply (pk_enter _ _ (keeps_phases _ _ Hn))|done]|intros _; apply IH].
Qed.

Lemma keeps_advanceTo target : keeps (env_ok Q r sid) (advanceTo r sid target).
Proof.
  intros e He. unfold advanceTo. destruct (String.eqb _ _); [done|].
  destruct (match current (tracker e) with Some _ => _ | None => _ end); [done|].
  by apply keeps_walk_loop.
Qed.

Lemma keeps_dispatch ty from pl : keeps (env_ok Q r sid) (dispatch r ty from pl).
Proof.
  apply keeps_current_phase. intros s p Hp e He.
  destruct (negb (phaseConsumes p ty)); [done|].
  enough (Hk : keeps (env_ok Q r sid)
    (guard "phase %q: OnMessage: %w" p (OnMessage p ty from pl) ;;;
     do complete <- exec (CheckComplete p);
     if negb complete then eret false else advance r)) by by apply Hk.
  apply keeps_bind; [apply keeps_guard, (pk_message _ _ (keeps_phases _ _ Hp))|intros _].
  apply keeps_bind; [apply keeps_exec, (pk_check _ _ (keeps_phases _ _ Hp))|].
  intros [|]; [apply keeps_advance_loop|apply keeps_ret].
Qed.
End dispatch.

(** ** The runner invariant *)

(** What no operation changes. *)
Definition static r0 r : Prop :=
  phases r = phases r0 /\ byEntryState r = byEntryState r0 /\ byInternalState r = byInternalState r0 /\
  initialState r = initialState r0 /\ lineageSigner r = lineageSigner r0 /\
  lineageVerifiers r = lineageVerifiers r0 /\ lineageFailureHook r = lineageFailureHook r0 /\
  is_some (lineageStore r) = is_some (lineageStore r0).

Record session_ok r (sid : string) (t : sessionTracker) : Prop := {
  so_phase : coherent r t;
  so_sid : CtxSessionID (ctx t) = sid;
  so_flag : ctx_lineageStore (ctx t) = is_some (lineageStore r);
  so_signer : ctx_lineageSigner (ctx t) = lineageSigner r
}.

Record runner_ok (Q : option St -> Prop) r0 r : Prop := {
  ro_static : static r0 r;
  ro_Q : Q (lineageStore r);
  ro_sessions : forall sid t, sessions r !! sid = Some t -> session_ok r sid t
}.

Lemma session_ok_static r r' sid t : static r r' -> session_ok r sid t -> session_ok r' sid t.
Proof.
  intros (_ & He & _ & _ & Hg & _ & _ & Hs) [Hp ? ? ?]. split; try congruence.
  unfold coherent in *. by rewrite He.
Qed.

Lemma on_session_ok {A} Q r0 r sid t (m : E St A) :
  runner_ok Q r0 r -> session_ok r sid t -> keeps (env_ok Q r sid) m ->
  runner_ok Q r0 (on_session r sid t m).1.
Proof.
  intros [Hst HQ Hs] [Hp Hi Hf Hg] Hm. unfold on_session.
  specialize (Hm (mkEnv t (lineageStore r) (ticks r))).
  destruct (m _) as [e res]. cbn in *. destruct Hm as [Hp' Hi' Hf' Hg' Ht' HQ']; [by split|].
  assert (Hstat : static r (r <| sessions := <[sid := tracker e]> (sessions r) |>
                              <| lineageStore := e_store e |> <| ticks := e_tick e |>)) by done.
  split; [|done|].
  - unfold static in *. cbn. intuition congruence.
  - cbn. intros sid' t' [[<- <-]|[_ Hl]]%lookup_insert_Some.
    + split; cbn; try done.
    + apply (session_ok_static r); [done|by apply Hs].
Qed.

Lemma runner_ok_delete Q r0 r sid :
  runner_ok Q r0 r -> runner_ok Q r0 (r <| sessions := delete sid (sessions r) |>).
Proof.
  intros [Hst HQ Hs]. split; [done|done|]. cbn. intros sid' t [_ Hl]%lookup_delete_Some.
  apply (session_ok_static r); [done|by apply Hs].
Qed.

Lemma fireFailureHook_ok Q r0 r ev : runner_ok Q r0 r -> runner_ok Q r0 (fireFailureHook r ev).
Proof.
  intros [Hst HQ Hs]. unfold fireFailureHook. destruct (lineageFailureHook r) as [hook|] eqn:Hh; [|done].
  destruct (hook ev); (split; cbn; [|done|]).
  1,3: unfold static in *; cbn; rewrite Hh in *; done.
  all: intros sid t Hl; apply (session_ok_static r); [|by apply Hs]; unfold static; cbn; by rewrite Hh.
Qed.

Section runner_invariant.
Context (Q : option St -> Prop) (r0 : SessionRunner St).
Hypothesis keeps_phases : forall s p, byEntryState r0 !! s = Some p -> phase_keeps Q p.
Hypothesis keeps_commits : forall r p, commit_keeps Q r p.
Hypothesis keeps_inbound : forall st node payload,
  Q (Some st) -> verifyInbound r0 st node payload = None -> Q (Some (append_idempotent st node).1).

Lemma static_phases r : static r0 r -> forall s p, byEntryState r !! s = Some p -> phase_keeps Q p.
Proof. intros (_ & He & _) s p. rewrite He. apply keeps_phases. Qed.

Lemma HandleMessage_ok r sid ty from pl :
  runner_ok Q r0 r -> runner_ok Q r0 (HandleMessage r sid ty from pl).1.
Proof.
  intros Hr. unfold HandleMessage. destruct (sessions r !! sid) as [t|] eqn:Ht; [|done].
  apply on_session_ok; [done|by apply Hr|]. apply keeps_dispatch; [|done].
  apply static_phases, Hr.
Qed.

Lemma AdvanceToState_ok r sid target :
  runner_ok Q r0 r -> runner_ok Q r0 (AdvanceToState r sid target).1.
Proof.
  intros Hr. unfold AdvanceToState. destruct (sessions r !! sid) as [t|] eqn:Ht; [|done].
  apply on_session_ok; [done|by apply Hr|]. apply keeps_advanceTo; [|done].
  apply static_phases, Hr.
Qed.

Lemma BeginSession_ok r sid cid : runner_ok Q r0 r -> runner_ok Q r0 (BeginSession r sid cid).1.
Proof.
  intros Hr. unfold BeginSession. destruct (String.eqb sid ""); [done|].
  destruct (sessions r !! sid) eqn:Hs; [done|].
  destruct (byEntryState r !! initialState r) as [first|] eqn:Hf; [|done].
  set (t := mkTracker _ _ _ _). cbv zeta.
  assert (Ht : session_ok r sid t) by (split; done).
  match goal with |- context [on_session r sid t ?m] => set (body := m) end.
  assert (Hm : keeps (env_ok Q r sid) body).
  { apply keeps_bind; [apply keeps_guard, (pk_enter _ _ (static_phases _ (ro_static _ _ _ Hr) _ _ Hf))|].
    intros _ e [? ? ? ? ? ?]. by split. }
  pose proof (on_session_ok Q r0 r sid t body Hr Ht Hm) as Hok.
  destruct (on_session r sid t body) as [r' [u|err|msg]]; cbn in *; try done.
  by apply runner_ok_delete.
Qed.

Lemma SeedContext_ok r sid key v : runner_ok Q r0 r -> runner_ok Q r0 (SeedContext r sid key v).
Proof.
  intros [Hst HQ Hs]. unfold SeedContext. destruct (sessions r !! sid) as [t|] eqn:Ht; [|done].
  split; [done|done|]. cbn. intros sid' t' [[<- <-]|[_ Hl]]%lookup_insert_Some;
    (apply (session_ok_static r); [done|]); [|by apply Hs].
  destruct (Hs _ _ Ht). by split.
Qed.

Lemma HandleLineageMessage_ok r sid ty from pl node :
  runner_ok Q r0 r -> runner_ok Q r0 (HandleLineageMessage r sid ty from pl node).1.
Proof.
  intros Hr. unfold HandleLineageMessage. destruct (lineageStore r) as [st|] eqn:Hst;
    [|by apply HandleMessage_ok].
  destruct node as [n|]; [|done]. destruct (verifyInbound r st n pl) eqn:Hv;
    [by apply fireFailureHook_ok|].
  assert (HQ : Q (Some (append_idempotent st n).1)).
  { eapply keeps_inbound; [rewrite <- Hst; apply Hr|]. unfold verifyInbound in *.
    destruct (ro_static _ _ _ Hr) as (_ & _ & _ & _ & _ & Hvs & _). rewrite <- Hvs. exact Hv. }
  assert (Hr' : runner_ok Q r0 (r <| lineageStore := Some (append_idempotent st n).1 |>)).
  { destruct Hr as [Hs _ Hss]. split; [|done|].
    - unfold static in *. cbn. rewrite Hst in Hs. intuition congruence.
    - intros sid' t Ht. cbn in Ht. apply (session_ok_static r); [|by apply Hss].
      unfold static. cbn. by rewrite Hst. }
  destruct (append_idempotent st n) as [st' [err|]]; [done|]. by apply HandleMessage_ok.
Qed.

Lemma runner_step_ok r o : runner_ok Q r0 r -> runner_ok Q r0 (runner_step r o).
Proof.
  intros Hr. destruct o; cbn [runner_step].
  - by apply BeginSession_ok.
  - by apply SeedContext_ok.
  - by apply HandleMessage_ok.
  - by apply HandleLineageMessage_ok.
  - by apply AdvanceToState_ok.
  - by apply runner_ok_delete.
  - unfold BuildMismatchClaim. destruct (lineageSigner r) eqn:Hg; [|done]. cbn [fst].
    destruct Hr as [Hs HQ Hss]. split; [|done|].
    + exact Hs.
    + intros sid t Ht. cbn in Ht. apply (session_ok_static r); [|by apply Hss].
      done.
  - by apply fireFailureHook_ok.
Qed.

Lemma runner_run_ok r ops : runner_ok Q r0 r -> runner_ok Q r0 (runner_run r ops).
Proof. revert r. induction ops as [|o ops IH]; intros r Hr; [done|]. by apply IH, runner_step_ok. Qed.
End runner_invariant.
End runner_theorems.
End RunnerInvariant.
