(* ===== verification/RunnerTheorems.v ===== *)
(** * Theorems about the session runner

    Session coherence, bounded and progressing cascades, the lineage gate, and
    the integrity of the committed DAG. *)

From S2P Require Import Prelude Sha256 Float64 Lineage LineageStore LineageTheorems PhaseTypes Compose ComposeTheorems Runner RunnerInvariant.
Import Sha256 Lineage LineageStore LineageTheorems PhaseTypes Compose ComposeTheorems Runner RunnerInvariant.

#[local] Open Scope Z_scope.
#[local] Open Scope go_scope.
#[local] Open Scope run_scope.

Module RunnerTheorems.

(** ** The chain of inline phases *)

Section chain.
Context {HRange : GoRange} {HFmt : GoFmt}.

Record chained (l : list Phase) : Prop := {
  ch_nodup : NoDup (EntryState <$> l);
  ch_entry : Forall (fun p => EntryState p <> StateNone) l;
  ch_next : forall i p q, l !! i = Some p -> l !! S i = Some q -> ExitState p = EntryState q
}.

Lemma chained_snoc l p :
  chained l -> EntryState p <> StateNone -> EntryState p ∉ EntryState <$> l ->
  (forall q, last l = Some q -> ExitState q = EntryState p) -> chained (l ++ [p]).
Proof.
  intros [Hn He Hx] Hp Hf Hl. split.
  - rewrite fmap_app. apply NoDup_app. split; [done|]. split; [|apply NoDup_singleton].
    intros s Hs Hs'. apply list_elem_of_singleton in Hs'. by subst.
  - apply Forall_app. by split; [|constructor].
  - intros i a b Ha Hb. apply lookup_app_Some in Hb as [Hb|[Hlen Hb]].
    + apply lookup_app_Some in Ha as [Ha|[? _]]; [by eapply Hx|].
      apply lookup_lt_Some in Hb. lia.
    + destruct (S i - length l)%nat as [|] eqn:Hi; [|done]. injection Hb as <-.
      rewrite lookup_app_l in Ha by lia. apply Hl. rewrite last_lookup.
      by replace (pred (length l)) with i by lia.
Qed.

Lemma pipeline_chained ps : pipeline_ok ps -> chained (inline ps).
Proof.
  intros [_ Hall]. induction ps as [|p ps IH] using rev_ind.
  { split; [constructor|constructor|done]. }
  rewrite inline_app. destruct (Hall ps p [] eq_refl) as (_ & _ & _ & Hin & _).
  assert (Hc : chained (inline ps)).
  { apply IH. intros pre q post ->. apply (Hall pre q (post ++ [p])). by rewrite <- app_assoc. }
  case_decide as Hr; [|by rewrite app_nil_r].
  destruct (Hin Hr) as (? & ? & _ & _ & ?). by apply chained_snoc.
Qed.

(** The terminal phase leaves the pipeline. *)
Definition acyclic (ps : list Phase) : Prop :=
  forall q, last (inline ps) = Some q -> ExitState q ∉ EntryState <$> inline ps.

(** Following an exit state moves one place forward. *)
Lemma next_phase {St} ps (r : SessionRunner St) i p q :
  chained (inline ps) -> acyclic ps -> composed ps r ->
  inline ps !! i = Some p -> byEntryState r !! ExitState p = Some q -> inline ps !! S i = Some q.
Proof.
  intros [Hn _ Hx] Ha Hc Hp Hq. apply (cp_entry _ _ Hc) in Hq as [Hin Heq].
  destruct (inline ps !! S i) as [q'|] eqn:Hi.
  - f_equal. apply list_elem_of_lookup in Hin as [j Hj].
    assert (S i = j) as <-; [|congruence].
    eapply NoDup_lookup; [exact Hn| |]; rewrite list_lookup_fmap.
    + rewrite Hi. reflexivity.
    + rewrite Hj. simpl. f_equal. rewrite Heq. by eapply Hx.
  - exfalso. apply (Ha p).
    + rewrite last_lookup. apply lookup_ge_None in Hi. apply lookup_lt_Some in Hp as Hlt.
      by replace (pred (length (inline ps))) with i by lia.
    + rewrite <- Heq. by apply list_elem_of_fmap_2.
Qed.

Lemma inline_length ps : (length (inline ps) <= length ps)%nat.
Proof. apply length_filter. Qed.
End chain.

Section runner_theorems.
Context {St : Type} {HStore : Store St} {HClock : Clock} {HRange : GoRange} {HFmt : GoFmt}.
Implicit Types (r : SessionRunner St) (e : env St).

(** ** Postconditions of dispatch code *)

(** A step before which the tracker's phase is [p] and after which, when it
    succeeds, it still is; its errors all have one format. *)
Definition at_phase (p : Phase) e : Prop := current (tracker e) = Some p.

Lemma guard_spec fmt p h q e :
  at_phase q e ->
  at_phase q (guard fmt p h e).1 /\
  match (guard fmt p h e).2 with Bad err => exists err', err = Errorf fmt [Name p] [err'] | _ => True end.
Proof.
  intros Hq. unfold guard, ebind, exec. destruct (run h _) as [w [[err|]|msg]]; cbn; eauto.
Qed.

Lemma guard_commit_spec fmt r p q e :
  at_phase q e ->
  at_phase q (guard_commit fmt r p e).1 /\
  match (guard_commit fmt r p e).2 with Bad err => exists err', err = Errorf fmt [Name p] [err'] | _ => True end.
Proof.
  intros Hq. unfold guard_commit. pose proof (commitPhase_frame r p e) as [Ht _].
  destruct (commitPhaseOutputsIfEnabled r p e) as [e' [u|err|msg]]; cbn in *;
    unfold at_phase in *; rewrite Ht; eauto.
Qed.

Lemma enterNext_spec fmt np next e :
  at_phase np (enterNext fmt np next e).1 /\
  match (enterNext fmt np next e).2 with Bad err => exists err', err = Errorf fmt [Name np] [err'] | _ => True end.
Proof.
  unfold enterNext, ebind, setTracker.
  match goal with |- context [guard fmt np (Enter np) ?x] =>
    destruct (guard_spec fmt np (Enter np) np x eq_refl) as [Hp He];
    destruct (guard fmt np (Enter np) x) as [e2 [u|err|msg]] end; (split; [exact Hp|done]).
Qed.

(** ** Bounded cascades *)

Section bounded.
Context (ps : list Phase) (r : SessionRunner St).
Hypothesis Hchain : chained (inline ps).
Hypothesis Hacyclic : acyclic ps.
Hypothesis Hcomposed : composed ps r.

Lemma advance_loop_bounded hops i p e :
  inline ps !! i = Some p -> at_phase p e -> (length (inline ps) - i <= hops)%nat ->
  (advance_loop r hops e).2 <> Bad hopLimit.
Proof.
  revert i p e. induction hops as [|hops IH]; intros i p e Hi Hp Hh.
  { apply lookup_lt_Some in Hi. lia. }
  cbn [advance_loop]. unfold ebind at 1, currentPhase. rewrite Hp. unfold ebind at 1.
  destruct (guard_spec "phase %q: Exit: %w" p (Exit p) p e Hp) as [Hp1 He1].
  destruct (guard _ p (Exit p) e) as [e1 [[]|err|msg]]; cbn [fst snd] in *;
    [|by destruct He1 as [? ->]|done].
  unfold ebind at 1. destruct (guard_commit_spec "phase %q: lineage commit: %w" r p p e1 Hp1) as [Hp2 He2].
  destruct (guard_commit _ r p e1) as [e2 [[]|err|msg]]; cbn [fst snd] in *;
    [|by destruct He2 as [? ->]|done].
  cbv zeta. destruct (String.eqb (ExitState p) StateNone); [done|].
  destruct (byEntryState r !! ExitState p) as [np|] eqn:Hn; [|done].
  pose proof (next_phase ps r i p np Hchain Hacyclic Hcomposed Hi Hn) as Hi'.
  unfold ebind at 1. destruct (enterNext_spec "phase %q: Enter: %w" np (ExitState p) e2) as [Hp3 He3].
  destruct (enterNext _ np (ExitState p) e2) as [e3 [[]|err|msg]]; cbn [fst snd] in *;
    [|by destruct He3 as [? ->]|done].
  destruct (0 <? _); [done|]. unfold ebind, exec. unfold at_phase in Hp3.
  destruct (run (CheckComplete np) _) as [w [[|]|msg]]; cbn [fst snd negb]; [|done..].
  apply (IH (S i) np); [done|done|lia].
Qed.

Lemma walk_loop_bounded sid target hops i p e :
  inline ps !! i = Some p -> at_phase p e -> (length (inline ps) - i <= hops)%nat ->
  (walk_loop r sid target hops e).2 <> Bad (walkLimit sid target).
Proof.
  revert i p e. induction hops as [|hops IH]; intros i p e Hi Hp Hh.
  { apply lookup_lt_Some in Hi. lia. }
  cbn [walk_loop]. destruct (String.eqb (state (tracker e)) target); [done|].
  rewrite Hp. unfold ebind at 1.
  destruct (guard_spec "phase %q: Exit during AdvanceToState: %w" p (Exit p) p e Hp) as [Hp1 He1].
  destruct (guard _ p (Exit p) e) as [e1 [[]|err|msg]]; cbn [fst snd] in *;
    [|by destruct He1 as [? ->]|done].
  unfold ebind at 1.
  destruct (guard_commit_spec "phase %q: lineage commit during AdvanceToState: %w" r p p e1 Hp1) as [Hp2 He2].
  destruct (guard_commit _ r p e1) as [e2 [[]|err|msg]]; cbn [fst snd] in *;
    [|by destruct He2 as [? ->]|done].
  cbv zeta. destruct (String.eqb (ExitState p) StateNone); [done|].
  destruct (byEntryState r !! ExitState p) as [np|] eqn:Hn; [|done].
  pose proof (next_phase ps r i p np Hchain Hacyclic Hcomposed Hi Hn) as Hi'.
  unfold ebind at 1.
  destruct (enterNext_spec "phase %q: Enter during AdvanceToState: %w" np (ExitState p) e2) as [Hp3 He3].
  destruct (enterNext _ np (ExitState p) e2) as [e3 [[]|err|msg]]; cbn [fst snd] in *;
    [|by destruct He3 as [? ->]|done].
  apply (IH (S i) np); [done|done|lia].
Qed.
End bounded.

(** ** Runs of a composed runner *)

Lemma composed_static ps r r' : composed ps r -> static r r' -> composed ps r'.
Proof.
  intros [Hp He Hi H0] (Hp' & He' & Hi' & H0' & _). split; [congruence|..].
  - intros s p. by rewrite He'.
  - intros s p. by rewrite Hi'.
  - by rewrite H0'.
Qed.

Lemma run_coherent r0 ops :
  sessions r0 = ∅ -> runner_ok (fun _ => True) r0 (runner_run r0 ops).
Proof.
  intros Hs. apply runner_run_ok; [done..|]. split; [done|done|].
  intros sid t. by rewrite Hs, lookup_empty.
Qed.

Lemma tracked_phase ps r0 ops sid t p :
  composed ps r0 -> sessions r0 = ∅ -> sessions (runner_run r0 ops) !! sid = Some t ->
  current t = Some p -> p ∈ inline ps /\ state t = EntryState p.
Proof.
  intros Hc Hs Ht Hp. destruct (run_coherent r0 ops Hs) as [Hst _ Hss].
  destruct (Hss _ _ Ht) as [Hco _ _ _]. unfold coherent in Hco. rewrite Hp in Hco.
  apply (cp_entry _ _ (composed_static _ _ _ Hc Hst)) in Hco as [? <-]. done.
Qed.

(** Whatever hooks do and whatever sequence of operations ran, each
    tracked session is finished, with no phase and no state, or is in a phase
    of the inline pipeline whose entry state is the session's state; its
    context still names the session. *)
Lemma runner_invariant ps r0 ops sid t :
  composed ps r0 -> sessions r0 = ∅ -> sessions (runner_run r0 ops) !! sid = Some t ->
  CtxSessionID (ctx t) = sid /\
  ((current t = None /\ state t = StateNone) \/
   (exists p, current t = Some p /\ p ∈ inline ps /\ state t = EntryState p)).
Proof.
  intros Hc Hs Ht. destruct (ro_sessions _ _ _ (run_coherent r0 ops Hs) _ _ Ht) as [Hco Hsid _ _].
  split; [done|]. destruct (current t) as [p|] eqn:Hp.
  - right. exists p. split; [done|]. by eapply tracked_phase.
  - left. split; [done|]. unfold coherent in Hco. by rewrite Hp in Hco.
Qed.

Lemma dispatch_bounded ps r ty from pl e p :
  chained (inline ps) -> acyclic ps -> composed ps r -> at_phase p e -> p ∈ inline ps ->
  (dispatch r ty from pl e).2 <> Bad hopLimit.
Proof.
  intros Hch Ha Hc Hp Hin. unfold dispatch, ebind at 1, currentPhase. rewrite Hp.
  destruct (negb (phaseConsumes p ty)); [done|]. unfold ebind at 1.
  destruct (guard_spec "phase %q: OnMessage: %w" p (OnMessage p ty from pl) p e Hp) as [Hp1 He1].
  destruct (guard _ p (OnMessage p ty from pl) e) as [e1 [[]|err|msg]]; cbn [fst snd] in *;
    [|by destruct He1 as [? ->]|done].
  unfold ebind, exec. destruct (run (CheckComplete p) _) as [w [[|]|msg]]; cbn [negb fst snd]; [|done..].
  apply list_elem_of_lookup in Hin as [i Hi].
  apply (advance_loop_bounded ps r Hch Ha Hc _ i p); [done|done|].
  rewrite (cp_phases _ _ Hc). pose proof (inline_length ps). lia.
Qed.

(** When the terminal phase's exit state is not an entry state of the
    pipeline, the hop limits are never reached: no message and no
    [AdvanceToState] call, in any run, fails with a hop-limit error. *)
Lemma cascade_bounded ps r0 ops sid ty from pl target :
  pipeline_ok ps -> acyclic ps -> composed ps r0 -> sessions r0 = ∅ ->
  (HandleMessage (runner_run r0 ops) sid ty from pl).2 <> Bad hopLimit /\
  (AdvanceToState (runner_run r0 ops) sid target).2 <> Bad (walkLimit sid target).
Proof.
  intros Hpl Ha Hc Hs. pose proof (pipeline_chained _ Hpl) as Hch.
  pose proof (composed_static _ _ _ Hc (ro_static _ _ _ (run_coherent r0 ops Hs))) as Hc'.
  pose proof (fun t p => tracked_phase ps r0 ops sid t p Hc Hs) as Hph.
  set (r := runner_run r0 ops) in *. unfold HandleMessage, AdvanceToState.
  destruct (sessions r !! sid) as [t|] eqn:Ht; [|done]. specialize (Hph t). split.
  - unfold on_session. destruct (current t) as [p|] eqn:Hp.
    + pose proof (dispatch_bounded ps r ty from pl (mkEnv t (lineageStore r) (ticks r)) p Hch Ha Hc' Hp
        (proj1 (Hph p eq_refl eq_refl))) as Hd.
      by destruct (dispatch r ty from pl _).
    + unfold dispatch, ebind, currentPhase. cbn. by rewrite Hp.
  - unfold on_session, advanceTo. cbn. destruct (String.eqb (state t) target); [done|].
    destruct (current t) as [p|] eqn:Hp; [case_bool_decide; [done|]|].
    + destruct (Hph p eq_refl eq_refl) as [Hin _]. apply list_elem_of_lookup in Hin as [i Hi].
      pose proof (walk_loop_bounded ps r Hch Ha Hc' sid target (length (phases r) + 1) i p
        (mkEnv t (lineageStore r) (ticks r)) Hi Hp) as Hw.
      destruct (walk_loop _ _ _ _ _). apply Hw. rewrite (cp_phases _ _ Hc').
      pose proof (inline_length ps). lia.
    + rewrite Nat.add_1_r. cbn. rewrite Hp. by destruct (String.eqb (state t) target).
Qed.

(** ** Progress *)

(** Hooks that neither fail nor panic. *)
Record benign (p : Phase) : Prop := {
  bn_enter : forall w : world St, (run (Enter p) w).2 = Ok None;
  bn_message : forall ty from pl (w : world St), (run (OnMessage p ty from pl) w).2 = Ok None;
  bn_check : forall w : world St, exists b, (run (CheckComplete p) w).2 = Ok b;
  bn_exit : forall w : world St, (run (Exit p) w).2 = Ok None
}.

Lemma exec_no_store {A} (h : Prog A) e :
  e_store e = None -> e_store (exec h e).1 = None /\ state (tracker (exec h e).1) = state (tracker e) /\
  current (tracker (exec h e).1) = current (tracker e) /\ entered (tracker (exec h e).1) = entered (tracker e).
Proof.
  intros Hs. unfold exec.
  pose proof (run_frame h (mkWorld (ctx (tracker e)) (e_store e) (e_tick e))) as [_ Hf].
  destruct (run h _) as [w o]. cbn in *. rewrite Hs in Hf. by destruct (w_store w).
Qed.

Lemma guard_benign fmt p h e :
  (forall w : world St, (run h w).2 = Ok None) -> guard fmt p h e = ((exec h e).1, Good tt).
Proof.
  intros Hh. unfold guard, ebind, exec.
  specialize (Hh (mkWorld (ctx (tracker e)) (e_store e) (e_tick e))).
  destruct (run h _) as [w o]. cbn in *. by subst.
Qed.

Lemma guard_commit_off fmt r p e : e_store e = None -> guard_commit fmt r p e = (e, Good tt).
Proof. intros Hs. unfold guard_commit, commitPhaseOutputsIfEnabled. by rewrite Hs. Qed.

(** Where a cascade that left place [i] comes to rest. *)
Definition rests ps (i : nat) (t : sessionTracker) : Prop :=
  (current t = None /\ state t = StateNone) \/
  exists j q, (i < j)%nat /\ inline ps !! j = Some q /\ current t = Some q /\
    state t = EntryState q /\ entered t = true /\
    (forall k s, (i < k < j)%nat -> inline ps !! k = Some s -> ConsumedMessageTypes s = []) /\
    (ConsumedMessageTypes q <> [] \/ exists w : world St, (run (CheckComplete q) w).2 = Ok false).

(** One round of the cascade over benign phases, lineage off: the rest of the
    round after the exit, and after the next phase's entry. *)
Lemma advance_exit r hops p e :
  at_phase p e -> benign p -> e_store e = None ->
  let e1 := (exec (Exit p) e).1 in
  advance_loop r (S hops) e =
  if String.eqb (ExitState p) StateNone
  then (e1 <| tracker := tracker e1 <| state := StateNone |> <| current := None |> |>, Good true)
  else match byEntryState r !! ExitState p with
  | None => fail (Errorf "%w: no phase claims state %q (ExitState of %q)" [ExitState p; Name p]
                    [ESentinel ErrFrameworkBug]) e1
  | Some np =>
      (enterNext "phase %q: Enter: %w" np (ExitState p) ;;;
       if 0 <? zlen (ConsumedMessageTypes np) then eret true
       else do complete <- exec (CheckComplete np);
            if negb complete then eret true else advance_loop r hops) e1
  end.
Proof.
  intros Hp Hb Hs e1. destruct (exec_no_store (Exit p) e Hs) as (Hs1 & _). fold e1 in Hs1.
  cbn [advance_loop]. unfold ebind at 1, currentPhase. rewrite Hp.
  unfold ebind at 1. rewrite (guard_benign _ _ _ _ (bn_exit _ Hb)). fold e1.
  unfold ebind at 1. rewrite (guard_commit_off _ r p e1 Hs1). cbv zeta.
  destruct (String.eqb _ _); [done|]. by destruct (byEntryState r !! ExitState p).
Qed.

Lemma enterNext_benign fmt np next e :
  benign np -> e_store e = None ->
  exists e', enterNext fmt np next e = (e', Good tt) /\ e_store e' = None /\
    current (tracker e') = Some np /\ state (tracker e') = next /\ entered (tracker e') = true.
Proof.
  intros Hb Hs. unfold enterNext, ebind, setTracker.
  rewrite (guard_benign _ _ _ _ (bn_enter _ Hb)). eexists. split; [done|].
  match goal with |- context [exec (Enter np) ?x] =>
    destruct (exec_no_store (Enter np) x Hs) as (? & ? & ? & _) end.
  by split_and!.
Qed.

Lemma exec_check p e : benign p -> exists b, exec (CheckComplete p) e = ((exec (CheckComplete p) e).1, Good b) /\
  exists w : world St, (run (CheckComplete p) w).2 = Ok b.
Proof.
  intros Hb. destruct (bn_check _ Hb (mkWorld (ctx (tracker e)) (e_store e) (e_tick e))) as [b Hck].
  exists b. split; [|eauto]. unfold exec. destruct (run (CheckComplete p) _) as [w o]. cbn in *. by subst.
Qed.

Lemma rests_next ps i q t :
  rests ps (S i) t -> inline ps !! S i = Some q -> ConsumedMessageTypes q = [] -> rests ps i t.
Proof.
  intros [?|(j & p & Hj & Hq & ? & ? & ? & Hmid & ?)] Hi Hn; [by left|].
  right. exists j, p. split_and!; try done; [lia|]. intros k s Hk Hks.
  destruct (decide (k = S i)) as [->|]; [congruence|]. apply (Hmid k s); [lia|done].
Qed.

Lemma advance_loop_rests ps r hops i p e :
  chained (inline ps) -> composed ps r -> Forall benign (inline ps) ->
  (forall q, last (inline ps) = Some q -> ExitState q = StateNone) ->
  inline ps !! i = Some p -> at_phase p e -> e_store e = None -> (length (inline ps) - i <= hops)%nat ->
  (advance_loop r hops e).2 = Good true /\ e_store (advance_loop r hops e).1 = None /\
  rests ps i (tracker (advance_loop r hops e).1).
Proof.
  intros Hch Hc Hbn Hlast. revert i p e. induction hops as [|hops IH]; intros i p e Hi Hp Hs Hh.
  { apply lookup_lt_Some in Hi. lia. }
  rewrite (advance_exit r hops p e Hp (Forall_lookup_1 _ _ _ _ Hbn Hi) Hs).
  destruct (exec_no_store (Exit p) e Hs) as (Hs1 & _). set (e1 := (exec (Exit p) e).1) in *.
  destruct (String.eqb_spec (ExitState p) StateNone) as [Hx|Hx].
  { split_and!; [done|done|]. by left. }
  destruct (inline ps !! S i) as [np|] eqn:Hi'; last first.
  { exfalso. apply Hx, Hlast. rewrite last_lookup. apply lookup_ge_None in Hi'.
    apply lookup_lt_Some in Hi as ?. by replace (pred (length (inline ps))) with i by lia. }
  assert (Hent : ExitState p = EntryState np) by by eapply ch_next.
  assert (byEntryState r !! ExitState p = Some np) as ->.
  { apply (cp_entry _ _ Hc). split; [by eapply list_elem_of_lookup_2|done]. }
  pose proof (Forall_lookup_1 _ _ _ _ Hbn Hi') as Hb'.
  destruct (enterNext_benign "phase %q: Enter: %w" np (ExitState p) e1 Hb' Hs1)
    as (e2 & He & Hs2 & Hp2 & Hst2 & Hen2).
  unfold ebind at 1 3 5. rewrite He. cbn iota beta.
  assert (Hhere : forall e', current (tracker e') = Some np -> state (tracker e') = ExitState p ->
    entered (tracker e') = true ->
    (ConsumedMessageTypes np <> [] \/ exists w : world St, (run (CheckComplete np) w).2 = Ok false) -> rests ps i (tracker e')).
  { intros e' ? ? ? ?. right. exists (S i), np. split_and!; try done; try lia; congruence. }
  destruct (ConsumedMessageTypes np) as [|ty tys] eqn:Hnil.
  2:{ split_and!; [done|done|]. apply Hhere; try done. by left. }
  destruct (exec_check np e2 Hb') as (b & Hex & Hw).
  destruct (exec_no_store (CheckComplete np) e2 Hs2) as (Hs3 & Hst3 & Hp3 & He3).
  set (e3 := (exec (CheckComplete np) e2).1) in *.
  change (0 <? zlen (A := string) []) with false. cbn iota. unfold ebind. rewrite Hex. cbn iota beta.
  destruct b; cbn [negb].
  - destruct (IH (S i) np e3 Hi') as (Hr & Hs4 & Hrest); [by unfold at_phase; rewrite Hp3|done|lia|].
    split_and!; [done|done|]. by eapply rests_next.
  - split_and!; [done|done|]. apply (Hhere e3); [congruence..|by right].
Qed.

(** Liveness of dispatch. With hooks that do not fail, lineage off and a
    terminal phase that exits to [StateNone], a message of a consumed type
    either leaves the session in its phase, or moves it strictly forward past
    phases that consume no messages, to the end or to an entered phase that
    waits for messages or is not complete. *)
Lemma HandleMessage_progress ps r0 ops sid t i p ty from pl :
  pipeline_ok ps -> composed ps r0 -> sessions r0 = ∅ -> lineageStore r0 = None ->
  Forall benign (inline ps) -> (forall q, last (inline ps) = Some q -> ExitState q = StateNone) ->
  sessions (runner_run r0 ops) !! sid = Some t -> current t = Some p -> inline ps !! i = Some p ->
  ty ∈ ConsumedMessageTypes p ->
  exists t',
    sessions (HandleMessage (runner_run r0 ops) sid ty from pl).1 !! sid = Some t' /\
    (((HandleMessage (runner_run r0 ops) sid ty from pl).2 = Good false /\
      current t' = Some p /\ state t' = state t) \/
     ((HandleMessage (runner_run r0 ops) sid ty from pl).2 = Good true /\ rests ps i t')).
Proof.
  intros Hpl Hc Hs Hoff Hbn Hlast Ht Hp Hi Hty. pose proof (pipeline_chained _ Hpl) as Hch.
  destruct (run_coherent r0 ops Hs) as [Hst _ _]. pose proof (composed_static _ _ _ Hc Hst) as Hc'.
  destruct Hst as (_ & _ & _ & _ & _ & _ & _ & Hstore). rewrite Hoff in Hstore.
  set (r := runner_run r0 ops) in *. unfold HandleMessage. rewrite Ht. unfold on_session.
  set (e := mkEnv t (lineageStore r) (ticks r)).
  assert (Hse : e_store e = None) by (cbn; by destruct (lineageStore r)).
  pose proof (Forall_lookup_1 _ _ _ _ Hbn Hi) as Hb.
  destruct (exec_no_store (OnMessage p ty from pl) e Hse) as (Hs1 & Hst1 & Hp1 & _).
  set (e1 := (exec (OnMessage p ty from pl) e).1) in *.
  destruct (exec_check p e1 Hb) as (b & Hex & _).
  destruct (exec_no_store (CheckComplete p) e1 Hs1) as (Hs2 & Hst2 & Hp2 & _).
  set (e2 := (exec (CheckComplete p) e1).1) in *.
  assert (dispatch r ty from pl e = if negb b then (e2, Good false) else advance r e2) as ->.
  { unfold dispatch, ebind at 1, currentPhase. cbn [tracker e]. rewrite Hp.
    unfold phaseConsumes. rewrite bool_decide_true by done. cbn [negb].
    unfold ebind. rewrite (guard_benign _ _ _ _ (bn_message _ Hb ty from pl)). fold e e1.
    rewrite Hex. by destruct b. }
  destruct b; cbn [negb].
  - destruct (advance_loop_rests ps r (length (phases r) + 1) i p e2) as (Hr & _ & Hrest); try done.
    { unfold at_phase. by rewrite Hp2, Hp1. }
    { rewrite (cp_phases _ _ Hc'). pose proof (inline_length ps). lia. }
    unfold advance. destruct (advance_loop r _ e2) as [e3 res]. cbn in *. exists (tracker e3).
    rewrite lookup_insert_eq. split; [done|by right].
  - exists (tracker e2). cbn [fst snd sessions set_field]. rewrite lookup_insert_eq.
    split; [done|left]. split_and!; [done|..].
    + by rewrite Hp2, Hp1.
    + by rewrite Hst2, Hst1.
Qed.

(** ** The lineage gate *)

Lemma missingParent_None st n i ps :
  missingParent st n i ps = None <-> forall p, p ∈ ps -> exists m, Get st p = inr m.
Proof.
  revert i. induction ps as [|p ps IH]; intros i; cbn [missingParent].
  - split; [intros _ p []%not_elem_of_nil|done].
  - destruct (Get st p) as [err|m] eqn:Hg.
    + split; [done|]. intros Hall. destruct (Hall p) as [m Hm]; [by left|congruence].
    + rewrite IH. split; [|intros Hall q Hq; apply Hall; by right].
      intros Hall q [->|Hq]%elem_of_cons; eauto.
Qed.

(** The nodes the gate lets through. *)
Definition admissible r (st : St) (n : DAGNode) (payload : bytes) : Prop :=
  verified n payload (lineageVerifiers r) /\ forall p, p ∈ Parents n -> exists m, Get st p = inr m.

Lemma verifyInbound_None r st n pl : verifyInbound r st n pl = None <-> admissible r st n pl.
Proof.
  unfold verifyInbound, admissible. destruct (Verify n pl (lineageVerifiers r)) eqn:Hv.
  - split; [done|]. intros [Hok _]. apply Verify_None in Hok. congruence.
  - rewrite missingParent_None. apply Verify_None in Hv. naive_solver.
Qed.

(** C9: verify before dispatch. On a lineage-enabled runner a frame without a
    node is refused with [ErrPermanent]: it changes nothing, is attributed to
    nobody, and no failure callback is called for it; a node that does not
    verify against the payload, or has a parent the store does not return, is
    refused with [ErrAppAttributable], no session, context or store changing,
    and the failure callback, when set, is called once with the producer as
    attributee; any other node is stored, and then exactly the plain dispatch
    follows (a store failure is [ErrFrameworkBug], without a callback). *)
Theorem lineage_gate r st sid ty from pl node :
  lineageStore r = Some st ->
  let '(r', res) := HandleLineageMessage r sid ty from pl node in
  match node with
  | None => r' = r /\ exists err, res = Bad err /\ errors_Is err ErrPermanent = true
  | Some n =>
      (admissible r st n pl /\
       let '(st', serr) := append_idempotent st n in
       let r1 := r <| lineageStore := Some st' |> in
       match serr with
       | None => (r', res) = HandleMessage r1 sid ty from pl
       | Some _ => r' = r1 /\ exists err, res = Bad err /\ errors_Is err ErrFrameworkBug = true
       end) \/
      (~ admissible r st n pl /\
       sessions r' = sessions r /\ lineageStore r' = lineageStore r /\ static r r' /\
       hook_calls r' = hook_calls r ++
         (if lineageFailureHook r is Some _ then [mismatchEvent sid n] else []) /\
       exists err, res = Bad err /\ errors_Is err ErrAppAttributable = true)
  end.
Proof.
  intros Hst. unfold HandleLineageMessage. rewrite Hst. destruct node as [n|]; [|by split; [|eexists]].
  destruct (verifyInbound r st n pl) as [m|] eqn:Hv.
  - right. split; [intros Ha%verifyInbound_None; congruence|].
    unfold fireFailureHook. destruct (lineageFailureHook r) as [hook|] eqn:Hh; cbn.
    + destruct (hook _); cbn; rewrite Hst; (split_and!; try done); try (by eexists);
        unfold static; cbn; by rewrite Hh.
    + rewrite app_nil_r, Hst. split_and!; try done. by eexists.
  - apply verifyInbound_None in Hv.
    destruct (append_idempotent st n) as [st' [err|]]; [by left; split; [|split; [|eexists]]|].
    destruct (HandleMessage _ sid ty from pl). by left.
Qed.

(** ** The committed DAG *)

(** A hook that names as parents only nodes it was given: by an earlier commit
    of its own or by the session's walk. *)
Inductive disciplined {A} : list DAGNode -> Prog A -> Prop :=
  | disc_ret known a : disciplined known (Ret a)
  | disc_panic known msg : disciplined known (Panic msg)
  | disc_ctx known f k : (forall c, disciplined known (k c)) -> disciplined known (DoCtx f k)
  | disc_commit known ph ro pl ps k :
      ps ⊆ known -> (forall err, disciplined known (k (inl err))) ->
      (forall n, disciplined (n :: known) (k (inr n))) -> disciplined known (DoCommit ph ro pl ps k)
  | disc_dag known k : (forall l, disciplined (l ++ known) (k l)) -> disciplined known (DoDAG k).

Record disciplined_phase (p : Phase) : Prop := {
  dp_enter : disciplined [] (Enter p);
  dp_message : forall ty from pl, disciplined [] (OnMessage p ty from pl);
  dp_check : disciplined [] (CheckComplete p);
  dp_exit : disciplined [] (Exit p)
}.

Lemma Commit_hashed now s p ro pl parents sg n :
  Commit now s p ro pl parents sg = inr n ->
  Hash n = sha256 (preimage_of n) /\ Parents n ≡ₚ Hash <$> parents.
Proof. intros (signer & sig & _ & _ & ->)%Commit_inv. split; [done|apply sortParents_perm]. Qed.

Section dag.
Context {HLaws : StoreLaws St}.

(** A store whose contents are a parent-closed, correctly hashed DAG. *)
Definition dag_store (s : option St) : Prop :=
  match s with None => True | Some st => store_inv st /\ dag_ok (contents st) end.

Definition present (st : St) (ns : list DAGNode) : Prop :=
  Forall (fun n => is_Some (contents st !! Hash n)) ns.

Lemma append_dag st n :
  store_inv st -> dag_ok (contents st) -> Hash n = sha256 (preimage_of n) ->
  Forall (fun p => is_Some (contents st !! p)) (Parents n) ->
  let '(st', err) := append_idempotent st n in
  store_inv st' /\ dag_ok (contents st') /\ (forall ns, present st ns -> present st' ns) /\
  (err = None -> is_Some (contents st' !! Hash n)).
Proof.
  intros Hi Hd Hh Hp. unfold append_idempotent.
  pose proof (append_inv st n Hi) as Hi'. pose proof (append_contents st n Hi) as Hc.
  pose proof (append_exists st n Hi) as He.
  destruct (Append st n) as [st' err]. cbn [fst snd] in *.
  assert (Hmono : forall ns, present st ns -> present st' ns).
  { intros ns Hns. eapply Forall_impl; [exact Hns|]. intros m Hm. cbn in *. rewrite Hc. destruct err; [done|].
    apply lookup_insert_is_Some'. by right. }
  assert (Hd' : dag_ok (contents st')).
  { rewrite Hc. destruct err; [done|]. by apply dag_ok_insert. }
  destruct err as [[]|]; split_and!; try done.
  - intros _. rewrite Hc. by apply He.
  - intros _. rewrite Hc, lookup_insert_eq. by eexists.
Qed.

Lemma commit_dag st now s p ro pl parents sg n :
  store_inv st -> dag_ok (contents st) -> present st parents ->
  Commit now s p ro pl parents sg = inr n ->
  let '(st', err) := append_idempotent st n in
  store_inv st' /\ dag_ok (contents st') /\ (forall ns, present st ns -> present st' ns) /\
  (err = None -> is_Some (contents st' !! Hash n)).
Proof.
  intros Hi Hd Hp [Hh Hperm]%Commit_hashed. apply append_dag; try done.
  rewrite Hperm. by apply Forall_fmap.
Qed.

Lemma until_error_elem n l : n ∈ until_error l -> (n, None) ∈ l.
Proof.
  induction l as [|[m [e|]] l IH]; cbn [until_error]; try (by intros ?%not_elem_of_nil).
  intros [->|?]%elem_of_cons; [left|right; auto].
Qed.

Lemma LineageDAG_present (w : world St) st :
  w_store w = Some st -> store_inv st -> present st (LineageDAG w).
Proof.
  intros Hs Hi. unfold LineageDAG. rewrite Hs. destruct (ctx_lineageStore (w_ctx w)); [|constructor].
  apply Forall_forall. intros n [Hc _]%until_error_elem%walk_contents; [by rewrite Hc|done].
Qed.

Lemma run_dag {A} (p : Prog A) known (w : world St) :
  disciplined known p -> dag_store (w_store w) ->
  (forall st, w_store w = Some st -> present st known) -> dag_store (w_store (run p w).1).
Proof.
  intros Hd. revert w.
  induction Hd as [known a|known msg|known f k _ IH|known ph ro pl ps k Hsub _ IHe _ IHn|known k _ IH];
    intros w Hw Hk; cbn [run]; try done.
  - by apply IH.
  - unfold CommitArtifact. destruct (w_store w) as [st|] eqn:Hs; [|by apply IHe; rewrite ?Hs].
    destruct (ctx_lineageStore (w_ctx w)), (ctx_lineageSigner (w_ctx w)) as [sg|];
      try (apply IHe; rewrite Hs; done).
    cbn [w_tick set_field w_ctx]. destruct (Commit _ _ _ _ _ _ _) as [err|n] eqn:Hc.
    { apply IHe; cbn; rewrite Hs; done. }
    destruct Hw as [Hi Hdag]. specialize (Hk st eq_refl).
    assert (Hps : present st ps).
    { unfold present in *. rewrite Forall_forall in *. auto. }
    pose proof (commit_dag st _ _ _ _ _ ps _ n Hi Hdag Hps Hc) as Ha.
    destruct (append_idempotent st n) as [st' [err|]]; destruct Ha as (Hi' & Hd' & Hm & Hin).
    + apply IHe; cbn; [done|]. intros st'' [= <-]. by apply Hm.
    + apply IHn; cbn; [done|]. intros st'' [= <-]. constructor; [by apply Hin|by apply Hm].
  - apply IH; [done|]. intros st Hs. apply Forall_app. split; [|by apply Hk].
    rewrite Hs in Hw. by apply LineageDAG_present; [|apply Hw].
Qed.

Lemma find_payload_elem h l n : find_payload h l = inr (Some n) -> (n, None) ∈ l.
Proof.
  induction l as [|[m [err|]] l IH]; cbn [find_payload]; try done.
  case_bool_decide; [intros [= <-]; left|right; auto].
Qed.

Lemma resolve_present st c keys parents :
  store_inv st -> resolve_keys st c keys = inr parents -> present st parents.
Proof.
  intros Hi. revert parents. induction keys as [|key keys IH]; intros parents; cbn [resolve_keys].
  { intros [= <-]. constructor. }
  destruct (TryGet as_bytes c key); [|apply IH].
  destruct (find_payload _ _) as [|found] eqn:Hf; [done|].
  destruct (resolve_keys st c keys) as [|ps]; [done|]. intros [= <-].
  destruct found as [n|]; [|by apply IH]. constructor; [|by apply IH].
  apply find_payload_elem, walk_contents in Hf as [Hc _]; [by rewrite Hc|done].
Qed.

Lemma commit_outputs_dag r p parents outs e :
  (forall st, e_store e = Some st -> present st parents) -> dag_store (e_store e) ->
  dag_store (e_store (commit_outputs r p parents outs e).1).
Proof.
  revert e. induction outs as [|[key kt] outs IH]; intros e Hp Hd; cbn [commit_outputs]; [done|].
  destruct (NoLineage kt); [by apply IH|].
  destruct (TryGet as_bytes (ctx (tracker e)) key) as [pl|]; [|by apply IH].
  destruct (e_store e) as [st|] eqn:Hs; [|by apply IH; rewrite Hs].
  cbn [e_tick set_field tracker]. destruct (Commit _ _ _ _ _ _ _) as [err|n] eqn:Hc.
  { cbn. by rewrite Hs. }
  destruct Hd as [Hi Hdag].
  pose proof (commit_dag st _ _ _ _ _ parents _ n Hi Hdag (Hp st eq_refl) Hc) as Ha.
  destruct (append_idempotent st n) as [st' [err|]]; destruct Ha as (Hi' & Hd' & Hm & _); [done|].
  apply IH; cbn; [|done]. intros st'' [= <-]. by apply Hm, Hp.
Qed.

Lemma commit_keeps_dag r p : commit_keeps dag_store r p.
Proof.
  intros e Hd. unfold commitPhaseOutputsIfEnabled. destruct (e_store e) as [st|] eqn:Hs; [|by cbn; rewrite Hs].
  destruct (resolveParents st p (ctx (tracker e))) as [err|parents] eqn:Hr; [by cbn; rewrite Hs|].
  apply commit_outputs_dag; rewrite Hs; [|done]. intros st' [= <-].
  eapply resolve_present; [apply Hd|exact Hr].
Qed.

Lemma inbound_dag r st n pl :
  dag_store (Some st) -> verifyInbound r st n pl = None -> dag_store (Some (append_idempotent st n).1).
Proof.
  intros [Hi Hd] [Hv Hp]%verifyInbound_None.
  pose proof (append_dag st n Hi Hd (verified_hash _ _ _ Hv)) as Ha.
  destruct (append_idempotent st n) as [st' err]. cbn. destruct Ha as (? & ? & _); [|done].
  apply Forall_forall. intros p [m Hm]%Hp. apply get_contents in Hm; [by rewrite Hm|done].
Qed.

(** C3: the shared store of a lineage-enabled runner is always a Merkle DAG:
    every node is filed under the hash of its own content and every parent is
    present, for any mix of sessions, messages, admitted peer nodes and
    auto-commits, with any store that keeps the interface's laws and phases
    that only name nodes they were given as parents. *)
Theorem store_stays_dag ps r0 ops :
  composed ps r0 -> sessions r0 = ∅ -> Forall disciplined_phase (inline ps) ->
  dag_store (lineageStore r0) -> dag_store (lineageStore (runner_run r0 ops)).
Proof.
  intros Hc Hs Hph Hd.
  apply (ro_Q dag_store r0). apply runner_run_ok.
  - intros s p [Hin _]%(cp_entry _ _ Hc). rewrite Forall_forall in Hph.
    destruct (Hph _ Hin) as [He Hm Hk Hx].
    split; [|intros ty from pl|..]; intros w Hw; (apply (run_dag _ []); [solve [auto]|done|by intros; constructor]).
  - intros r p. apply commit_keeps_dag.
  - intros st n pl. apply inbound_dag.
  - split; [done|done|]. intros sid t. by rewrite Hs, lookup_empty.
Qed.
End dag.
End runner_theorems.

(** ** A two-phase pipeline for the witnesses *)

Section demo.
#[local] Instance demo_clock : Clock := Z.of_nat.
#[local] Instance demo_range : GoRange := sorted_range.
#[local] Instance demo_fmt : GoFmt := {| fmt_float := fun _ => ""; fmt_float32 := fun _ => ""; fmt_opaque := fun _ => "" |}.

(** Collect two submissions, then settle without messages. *)
Definition collect : Phase := {|
  Name := "collect"; Lifetime := LifetimePerSession; RunsAt := RunsAtInline;
  EntryState := "OPEN"; ExitState := "SETTLING"; InternalStates := []; ConsumedMessageTypes := ["bid"];
  Requires := ∅; Provides := {[ "bids" := mkKeyType "[]byte" false {[ "depth" := VInt 10 ]} false ]};
  Enter := Ret None;
  OnMessage := fun _ from pl => pbind (AccumulateMessage "bucket" from pl) (fun _ => Ret None);
  CheckComplete := pbind hContext (fun c => Ret (QuorumReached c "bucket" 2));
  Exit := pbind (hSet "bids" (VBytes [x01; x02])) (fun _ => Ret None) |}.

Definition settle : Phase := {|
  Name := "settle"; Lifetime := LifetimePerSession; RunsAt := RunsAtInline;
  EntryState := "SETTLING"; ExitState := StateNone; InternalStates := []; ConsumedMessageTypes := [];
  Requires := {[ "bids" := mkKeyType "[]byte" true {[ "depth_min" := VInt 4 ]} false ]}; Provides := ∅;
  Enter := Ret None; OnMessage := fun _ _ _ => Ret None; CheckComplete := Ret true; Exit := Ret None |}.

Definition demo : list Phase := [collect; settle].

(** The runner [Compose] returns for it. *)
Definition demo_runner : SessionRunner InMemoryStore :=
  mkRunner demo {[ "collect" := collect; "settle" := settle ]} {[ "OPEN" := collect; "SETTLING" := settle ]}
    ∅ "OPEN" ∅ None None ∅ None 0 [] [].

Lemma demo_composes : Compose demo = inr demo_runner.
Proof. reflexivity. Qed.

Lemma demo_ok : pipeline_ok demo /\ composed demo demo_runner /\ sessions demo_runner = ∅ /\
  lineageStore demo_runner = None.
Proof. pose proof (Compose_correct (St := InMemoryStore) demo) as Hc. by rewrite demo_composes in Hc. Qed.

Lemma demo_exits q : last (inline demo) = Some q -> ExitState q = StateNone.
Proof. by intros [= <-]. Qed.

Lemma demo_acyclic : acyclic demo.
Proof. intros q Hq. rewrite (demo_exits q Hq). cbn. set_solver. Qed.

Lemma demo_benign : Forall (benign (St := InMemoryStore)) (inline demo).
Proof. repeat constructor; simpl; eauto. Qed.

Lemma demo_disciplined : Forall disciplined_phase (inline demo).
Proof. repeat constructor. Qed.

Definition open_ops : list (runner_op) := [RBegin "s1" "c1"].

(** The session after it began. *)
Definition begun : sessionTracker :=
  mkTracker (mkContext "s1" "c1" ∅ false None) "OPEN" (Some collect) true.

Lemma demo_begun : sessions (runner_run demo_runner open_ops) !! "s1" = Some begun.
Proof. reflexivity. Qed.

Lemma runner_invariant_witness :
  CtxSessionID (ctx begun) = "s1" /\
  ((current begun = None /\ state begun = StateNone) \/
   (exists p, current begun = Some p /\ p ∈ inline demo /\ state begun = EntryState p)).
Proof.
  destruct demo_ok as (_ & Hc & Hs & _).
  exact (runner_invariant demo demo_runner open_ops "s1" begun Hc Hs demo_begun).
Defined.

Lemma cascade_bounded_witness :
  (HandleMessage (runner_run demo_runner open_ops) "s1" "bid" "a" [x01]).2 <> Bad hopLimit.
Proof.
  destruct demo_ok as (Hp & Hc & Hs & _).
  exact (proj1 (cascade_bounded demo demo_runner open_ops "s1" "bid" "a" [x01] "SETTLING"
                  Hp demo_acyclic Hc Hs)).
Defined.

(** Two messages take the session past [settle] to its end. *)
Definition bids_ops : list runner_op := open_ops ++ [RMessage "s1" "bid" "a" [x01]].

Definition half : sessionTracker :=
  mkTracker (mkContext "s1" "c1" {[ "bucket" := VBucket {[ "a" := [x01] ]} ]} false None) "OPEN"
    (Some collect) true.

Lemma demo_half : sessions (runner_run demo_runner bids_ops) !! "s1" = Some half.
Proof. reflexivity. Qed.

Lemma HandleMessage_progress_witness :
  exists t',
    sessions (HandleMessage (runner_run demo_runner bids_ops) "s1" "bid" "b" [x02]).1 !! "s1" = Some t' /\
    (((HandleMessage (runner_run demo_runner bids_ops) "s1" "bid" "b" [x02]).2 = Good false /\
      current t' = Some collect /\ state t' = state half) \/
     ((HandleMessage (runner_run demo_runner bids_ops) "s1" "bid" "b" [x02]).2 = Good true /\
      rests (St := InMemoryStore) demo 0 t')).
Proof.
  destruct demo_ok as (Hp & Hc & Hs & Hl).
  exact (HandleMessage_progress demo demo_runner bids_ops "s1" half 0 collect "bid" "b" [x02]
           Hp Hc Hs Hl demo_benign demo_exits demo_half eq_refl eq_refl (list_elem_of_here _ _)).
Defined.

(** With lineage on, over an empty in-memory store. *)
Definition demo_lineage : SessionRunner InMemoryStore :=
  attachLineage demo_runner NewInMemoryStore alice verifiers None.

Lemma demo_lineage_composed : composed demo demo_lineage.
Proof. destruct demo_ok as (_ & [? ? ? ?] & _). by split. Qed.

(** The same with a failure callback. *)
Definition demo_reporting : SessionRunner InMemoryStore :=
  attachLineage demo_runner NewInMemoryStore alice verifiers (Some (fun _ => None)).

Definition bid_node : DAGNode := commit_alice "bid" [x01] [].

(** No node, a node with the payload of another, and a node that verifies. *)
Lemma lineage_gate_witness :
  HandleLineageMessage demo_reporting "s1" "bid" "a" [x01] None =
    (demo_reporting, Bad (permanent "%w: HandleLineageMessage requires non-nil lineage node (v2 frame)" [])) /\
  hook_calls (HandleLineageMessage demo_reporting "s1" "bid" "a" [x02] (Some bid_node)).1 = [mismatchEvent "s1" bid_node] /\
  HandleLineageMessage demo_reporting "s1" "bid" "a" [x01] (Some bid_node) =
    HandleMessage (demo_reporting <| lineageStore := Some (append_idempotent NewInMemoryStore bid_node).1 |>) "s1" "bid" "a" [x01].
Proof.
  split_and!.
  - pose proof (lineage_gate demo_reporting NewInMemoryStore "s1" "bid" "a" [x01] None eq_refl) as Hg.
    cbn zeta in Hg. reflexivity.
  - pose proof (lineage_gate demo_reporting NewInMemoryStore "s1" "bid" "a" [x02] (Some bid_node) eq_refl) as Hg.
    cbn zeta in Hg. destruct (HandleLineageMessage _ _ _ _ _ (Some bid_node)) as [r' res]. destruct Hg as [[Ha _]|(_ & _ & _ & _ & Hh & _)]; [|exact Hh].
    apply verifyInbound_None in Ha. vm_compute in Ha. discriminate Ha.
  - pose proof (lineage_gate demo_reporting NewInMemoryStore "s1" "bid" "a" [x01] (Some bid_node) eq_refl) as Hg.
    cbn zeta in Hg. destruct (HandleLineageMessage _ _ _ _ _ (Some bid_node)) as [r' res]. destruct Hg as [[_ Hs]|[Hn _]]; [exact Hs|].
    destruct Hn. apply verifyInbound_None. vm_compute. reflexivity.
Defined.

Lemma store_stays_dag_witness :
  dag_store (lineageStore (runner_run demo_lineage
    [RBegin "s1" "c1"; RMessage "s1" "bid" "a" [x01]; RMessage "s1" "bid" "b" [x02]])).
Proof.
  apply (store_stays_dag demo demo_lineage).
  - exact demo_lineage_composed.
  - reflexivity.
  - exact demo_disciplined.
  - split; [exists []; exact abstracts_new|]. by split.
Defined.
End demo.
End RunnerTheorems.
