(* ===== verification/Defaults.v ===== *)
(** * Default phases and key-generation variants
      ([pkg/ares/phase/defaults], [pkg/ares/phase/keygen])

    The framework's own phases as [Phase] values, and what composition
    guarantees of pipelines built from them. *)

From S2P Require Import Prelude Float64 Lineage LineageStore PhaseTypes Compose ComposeTheorems.
Import Lineage LineageStore PhaseTypes Compose ComposeTheorems.

#[local] Open Scope Z_scope.
#[local] Open Scope go_scope.

Module Defaults.

(** ** States and context keys *)

Definition StateInviting : SessionState := "INVITING".
Definition StateLocked : SessionState := "LOCKED".
Definition StateKeygen : SessionState := "KEYGEN".
Definition StateGossip : SessionState := "GOSSIP".
Definition StateVerifying : SessionState := "VERIFYING".
Definition StateSubmitting : SessionState := "SUBMITTING".
Definition StateScoring : SessionState := "SCORING".
Definition StateDecrypting : SessionState := "DECRYPTING".
Definition StateBroadcasting : SessionState := "BROADCASTING".
Definition StateClosed : SessionState := "CLOSED".

Definition CtxParticipants : string := "participants".
Definition CtxCryptoContract : string := "crypto_ctx".
Definition CtxCollectivePublicKey : string := "collective_pk".
Definition CtxSecretShares : string := "secret_shares".
Definition CtxEvalKeys : string := "eval_keys".
Definition CtxResultCiphertext : string := "result_ct".
Definition CtxResultBytes : string := "result_bytes".

(** ** Schema literals *)

Definition schema (l : list (string * ContextKeyType)) : ContextSchema := list_to_map l.
Definition constraints (l : list (string * any)) : gmap string any := list_to_map l.

Definition gives (ty : string) : ContextKeyType := mkKeyType ty false ∅ false.
Definition needs (ty : string) : ContextKeyType := mkKeyType ty true ∅ false.
Definition gives_with (ty : string) (cs : list (string * any)) : ContextKeyType :=
  mkKeyType ty false (constraints cs) false.
Definition needs_with (ty : string) (cs : list (string * any)) : ContextKeyType :=
  mkKeyType ty true (constraints cs) false.

(** Hooks that do nothing. *)
Definition ok : Prog (option gerror) := Ret None.
Definition ignore : string -> string -> bytes -> Prog (option gerror) := fun _ _ _ => Ret None.

(** ** The default phases *)

Definition Phase0aThresholdKeygen : Phase := {|
  Name := "phase-0a-threshold-keygen"; Lifetime := LifetimePerSession; RunsAt := RunsAtInline;
  EntryState := StateLocked; ExitState := StateGossip; InternalStates := [StateKeygen];
  ConsumedMessageTypes := ["keygen.share"; "keygen.eval_round1"; "keygen.eval_share"];
  Requires := schema
    [(CtxParticipants, needs "[]string");
     (CtxCryptoContract, needs_with "OpenFHEContract" [("depth_min", VInt 4)])];
  Provides := schema
    [(CtxCollectivePublicKey, gives_with "[]byte" [("topology", VString "threshold")]);
     (CtxSecretShares, gives_with "map[string][]byte" [("topology", VString "threshold")]);
     (CtxEvalKeys, gives "OpenFHEEvalKeys")];
  Enter := ok; OnMessage := ignore; CheckComplete := Ret false; Exit := ok |}.

Definition Phase0bRegistration : Phase := {|
  Name := "phase-0b-registration"; Lifetime := LifetimePersistent; RunsAt := RunsAtRegistration;
  EntryState := StateNone; ExitState := StateNone; InternalStates := []; ConsumedMessageTypes := [];
  Requires := schema []; Provides := schema [("participant_identity", gives "ParticipantIdentity")];
  Enter := ok; OnMessage := ignore; CheckComplete := Ret true; Exit := ok |}.

Definition Phase1aSessionInitiation : Phase := {|
  Name := "phase-1a-session-initiation"; Lifetime := LifetimePerSession; RunsAt := RunsAtInline;
  EntryState := StateInviting; ExitState := StateLocked; InternalStates := [];
  ConsumedMessageTypes := ["session.accept"];
  Requires := schema [];
  Provides := schema
    [(CtxParticipants, gives "[]string");
     (CtxCryptoContract, gives_with "OpenFHEContract"
        [("depth", VInt 30); ("ring_dim", VInt 4096); ("scaling_mod_size", VInt 50)])];
  Enter := ok; OnMessage := ignore; CheckComplete := Ret true; Exit := ok |}.

Definition Phase3ThresholdDecrypt : Phase := {|
  Name := "phase-3-threshold-decrypt"; Lifetime := LifetimePerSession; RunsAt := RunsAtInline;
  EntryState := StateDecrypting; ExitState := StateBroadcasting; InternalStates := [];
  ConsumedMessageTypes := ["decrypt.partial"];
  Requires := schema
    [(CtxParticipants, needs "[]string");
     (CtxSecretShares, needs_with "map[string][]byte" [("topology", VString "threshold")]);
     (CtxResultCiphertext, needs "[]byte")];
  Provides := schema [(CtxResultBytes, gives "[]byte")];
  Enter := ok; OnMessage := ignore; CheckComplete := Ret false; Exit := ok |}.

(** ** Key-generation variants *)

Definition SinglePartyKeygenPhase : Phase := {|
  Name := "keygen-single-party"; Lifetime := LifetimePerSession; RunsAt := RunsAtInline;
  EntryState := StateLocked; ExitState := StateGossip; InternalStates := [StateKeygen];
  ConsumedMessageTypes := [];
  Requires := schema
    [(CtxParticipants, needs "[]string");
     (CtxCryptoContract, needs_with "OpenFHEContract" [("depth_min", VInt 4)])];
  Provides := schema
    [(CtxCollectivePublicKey, gives "[]byte");
     (CtxSecretShares, gives_with "map[string][]byte" [("topology", VString "single_party")]);
     (CtxEvalKeys, gives "OpenFHEEvalKeys")];
  Enter := ok; OnMessage := ignore; CheckComplete := Ret true; Exit := ok |}.

Definition PlaintextKeygenPhase : Phase := {|
  Name := "keygen-plaintext"; Lifetime := LifetimePerSession; RunsAt := RunsAtInline;
  EntryState := StateLocked; ExitState := StateGossip; InternalStates := [StateKeygen];
  ConsumedMessageTypes := [];
  Requires := schema [(CtxParticipants, needs "[]string")];
  Provides := schema
    [(CtxCollectivePublicKey, gives_with "[]byte" [("topology", VString "plaintext")]);
     (CtxSecretShares, gives_with "[]byte" [("topology", VString "plaintext")]);
     (CtxEvalKeys, gives "OpenFHEEvalKeys")];
  Enter := ok; OnMessage := ignore; CheckComplete := Ret true; Exit := ok |}.

(** The loop of [PreSharedKeygenPhase.Enter]. *)
Fixpoint require_keys (phase : string) (keys : list string) : Prog (option gerror) :=
  match keys with
  | [] => Ret None
  | key :: keys' =>
      pbind (hHas key) (fun present =>
        if negb present then Ret (Some (EMissingContext key phase)) else require_keys phase keys')
  end.

Definition PreSharedKeygenPhase : Phase := {|
  Name := "keygen-preshared"; Lifetime := LifetimePerCohort; RunsAt := RunsAtInline;
  EntryState := StateLocked; ExitState := StateGossip; InternalStates := [StateKeygen];
  ConsumedMessageTypes := [];
  Requires := schema
    [(CtxParticipants, needs "[]string"); (CtxCollectivePublicKey, needs "[]byte");
     (CtxSecretShares, needs_with "map[string][]byte" [("topology", VString "threshold")]);
     (CtxEvalKeys, needs "OpenFHEEvalKeys")];
  Provides := schema [];
  Enter := require_keys "keygen-preshared" [CtxCollectivePublicKey; CtxSecretShares; CtxEvalKeys];
  OnMessage := ignore; CheckComplete := Ret true; Exit := ok |}.

(** ** Claims *)

Section defaults_theorems.
Context `{GoRange} `{GoFmt} {St : Type}.

Lemma Compose_rejects pre p post key want :
  Requires p !! key = Some want -> ~ satisfied (provided_by pre) key want ->
  exists e, Compose (St := St) (pre ++ p :: post) = inl e /\ errors_Is e ErrPermanent = true.
Proof.
  intros Hr Hn. pose proof (Compose_correct (St := St) (pre ++ p :: post)) as Hc.
  destruct (Compose (pre ++ p :: post)) as [e|r]; [exists e; naive_solver|].
  destruct Hc as [[_ Hall] _]. destruct (Hall pre p post eq_refl) as (_ & _ & Hreq & _).
  destruct Hn. by apply Hreq.
Qed.

(** The phases of [mid] leave a declaration alone. *)
Lemma provided_last pre q mid key kt :
  Provides q !! key = Some kt -> Forall (fun p => Provides p !! key = None) mid ->
  provided_by (pre ++ q :: mid) !! key = Some kt.
Proof.
  intros Hq. induction mid as [|p mid IH] using rev_ind; intros Hm.
  - rewrite provided_app. by apply lookup_union_Some_l.
  - apply Forall_app in Hm as [Hm [Hp _]%Forall_cons].
    rewrite app_comm_cons, app_assoc, provided_app, lookup_union_r by done. by apply IH.
Qed.

(** The topology guard. Wherever the secret shares in force before
    [Phase3ThresholdDecrypt] come from single-party or plaintext key
    generation, with no later provider, [Compose] rejects the pipeline with
    [ErrPermanent], whatever phases stand before, between and after. *)
Lemma topology_guard keygen pre mid post :
  keygen = SinglePartyKeygenPhase \/ keygen = PlaintextKeygenPhase ->
  Forall (fun p => Provides p !! CtxSecretShares = None) mid ->
  exists e, Compose (St := St) (pre ++ keygen :: mid ++ Phase3ThresholdDecrypt :: post) = inl e /\
    errors_Is e ErrPermanent = true.
Proof.
  intros Hk Hm. rewrite app_comm_cons, app_assoc.
  eapply (Compose_rejects _ _ _ CtxSecretShares); [reflexivity|]. unfold satisfied.
  destruct Hk as [-> | ->].
  - rewrite (provided_last pre SinglePartyKeygenPhase mid CtxSecretShares
      (gives_with "map[string][]byte" [("topology", VString "single_party")]) eq_refl Hm).
    intros [_ Hc]. destruct (Hc "topology" (VString "threshold") eq_refl) as [?|(gv & Hg & He)]; [done|].
    injection Hg as <-. discriminate He.
  - rewrite (provided_last pre PlaintextKeygenPhase mid CtxSecretShares
      (gives_with "[]byte" [("topology", VString "plaintext")]) eq_refl Hm).
    by intros [[?|[?|?]] _].
Qed.

(** Pre-shared key generation composes only after a phase that provides
    the collective key: a pipeline whose earlier phases do not declare it is
    rejected, though the keys may be seeded into the session's context. *)
Lemma preshared_needs_provider pre post :
  Forall (fun p => Provides p !! CtxCollectivePublicKey = None) pre ->
  exists e, Compose (St := St) (pre ++ PreSharedKeygenPhase :: post) = inl e /\
    errors_Is e ErrPermanent = true.
Proof.
  intros Hm. eapply (Compose_rejects _ _ _ CtxCollectivePublicKey); [reflexivity|].
  assert (Hn : provided_by pre !! CtxCollectivePublicKey = None).
  { induction pre as [|p pre IH] using rev_ind; [done|].
    apply Forall_app in Hm as [Hm [Hp _]%Forall_cons]. rewrite provided_app, lookup_union_r by done. auto. }
  unfold satisfied. by rewrite Hn.
Qed.

(** ** Quorums *)

(** The bucket after a list of submissions. *)
Definition submitted (c : SessionContext) (bucketKey : string) (ms : list (string * bytes)) : SessionContext :=
  foldl (fun c m => ctx_Update c bucketKey (accumulate m.1 m.2)) c ms.

Lemma submitted_bucket c bucketKey ms :
  AccumulatedMessages (submitted c bucketKey ms) bucketKey =
  foldl (fun b m => <[m.1 := m.2]> b) (AccumulatedMessages c bucketKey) ms.
Proof.
  revert c. induction ms as [|[from pl] ms IH]; intros c; [done|]. cbn [submitted foldl].
  change (foldl _ _ ms) with (submitted (ctx_Update c bucketKey (accumulate from pl)) bucketKey ms) at 1.
  rewrite IH. f_equal. unfold AccumulatedMessages, ctx_Get, ctx_Update, accumulate. cbn.
  rewrite lookup_insert_eq. cbn. by destruct (values c !! bucketKey).
Qed.

Lemma MessageCount_bucket c bucketKey : MessageCount c bucketKey = msize (AccumulatedMessages c bucketKey).
Proof. unfold MessageCount, AccumulatedMessages. by destruct (ctx_Get c bucketKey). Qed.

Lemma dom_foldl_insert (b : gmap string bytes) (ms : list (string * bytes)) :
  dom (foldl (fun b m => <[m.1 := m.2]> b) b ms) = dom b ∪ list_to_set ms.*1.
Proof.
  revert b. induction ms as [|[k v] ms IH]; intros b; cbn [foldl]; [set_solver|].
  rewrite IH, dom_insert_L. csimpl. set_solver.
Qed.

Lemma foldl_insert_other (b : gmap string bytes) (ms : list (string * bytes)) k v :
  k ∉ ms.*1 -> b !! k = Some v -> foldl (fun b m => <[m.1 := m.2]> b) b ms !! k = Some v.
Proof.
  revert b. induction ms as [|[k' v'] ms IH]; intros b Hk Hb; cbn [foldl]; [done|].
  csimpl in Hk. apply not_elem_of_cons in Hk as [Hne Hk]. apply IH; [done|]. by rewrite lookup_insert_ne.
Qed.

(** The quorum counts distinct senders: after any sequence of
    submissions into a fresh bucket, [QuorumReached] holds for [n] exactly when
    at least [n] different senders appear in it, repeats counting once, and
    each sender's latest payload is the one kept. *)
Lemma quorum_counts_senders c bucketKey (ms : list (string * bytes)) n :
  ctx_Get c bucketKey = None ->
  QuorumReached (submitted c bucketKey ms) bucketKey n =
    (n <=? Z.of_nat (size (list_to_set ms.*1 : gset string))) /\
  forall pre from pl post, ms = pre ++ (from, pl) :: post -> from ∉ post.*1 ->
    AccumulatedMessages (submitted c bucketKey ms) bucketKey !! from = Some pl.
Proof.
  intros Hc. assert (He : AccumulatedMessages c bucketKey = ∅) by (unfold AccumulatedMessages; by rewrite Hc).
  split.
  - unfold QuorumReached. rewrite MessageCount_bucket, submitted_bucket, He. unfold msize.
    rewrite <- size_dom, dom_foldl_insert. repeat f_equal. set_solver.
  - intros pre from pl post -> Hp. rewrite submitted_bucket, foldl_app. cbn [foldl].
    apply foldl_insert_other; [done|]. apply lookup_insert_eq.
Qed.
End defaults_theorems.

(** ** Witnesses *)

Section witnesses.
#[local] Instance wit_range : GoRange := sorted_range.
#[local] Instance wit_fmt : GoFmt := {| fmt_float := fun _ => ""; fmt_float32 := fun _ => ""; fmt_opaque := fun _ => "" |}.

Lemma topology_guard_witness :
  exists e, Compose (St := InMemoryStore)
    ([Phase1aSessionInitiation] ++ SinglePartyKeygenPhase :: [] ++ [Phase3ThresholdDecrypt]) = inl e /\
    errors_Is e ErrPermanent = true.
Proof.
  apply (topology_guard SinglePartyKeygenPhase [Phase1aSessionInitiation] [] []).
  - by left.
  - constructor.
Defined.

Lemma preshared_needs_provider_witness :
  exists e, Compose (St := InMemoryStore) ([Phase1aSessionInitiation] ++ [PreSharedKeygenPhase]) = inl e /\
    errors_Is e ErrPermanent = true.
Proof.
  apply (preshared_needs_provider [Phase1aSessionInitiation] []). repeat constructor.
Defined.

Lemma quorum_counts_senders_witness :
  QuorumReached (submitted (NewSessionContext "s") "b" [("a", [x01]); ("a", [x02])]) "b" 2 = false.
Proof.
  exact (proj1 (quorum_counts_senders (NewSessionContext "s") "b" [("a", [x01]); ("a", [x02])] 2 eq_refl)).
Defined.

(** The threshold pipeline itself composes. *)
Lemma threshold_pipeline_composes :
  exists r : SessionRunner InMemoryStore,
    Compose [Phase0bRegistration; Phase1aSessionInitiation; Phase0aThresholdKeygen] = inr r.
Proof. eexists. reflexivity. Qed.
End witnesses.
End Defaults.
