(* ===== verification/PipelineSpec.v ===== *)
(** * Sessions as walks along their pipeline

    An abstract specification of the session runner without lineage: a session
    is its context and the phases still ahead of it, and every operation is a
    structural recursion on that list.  The runner, which finds its way by
    state names through maps and under hop limits, refines it.  The example
    applications are proved against the specification. *)

From S2P Require Import Prelude Float64 Lineage LineageStore PhaseTypes Compose ComposeTheorems Runner RunnerInvariant RunnerTheorems.
Import Lineage LineageStore PhaseTypes Compose ComposeTheorems Runner RunnerInvariant RunnerTheorems.

#[local] Open Scope Z_scope.
#[local] Open Scope go_scope.
#[local] Open Scope run_scope.

Module PipelineSpec.

(** ** Composing concrete pipelines *)

Definition is_inr {A B} (x : A + B) : bool := match x with inr _ => true | inl _ => false end.

Definition composed_or_empty {St} (x : gerror + SessionRunner St) : SessionRunner St :=
  match x with inr r => r | inl _ => mkRunner [] ∅ ∅ ∅ "" ∅ None None ∅ None 0 [] [] end.

Lemma composes {St} (x : gerror + SessionRunner St) : is_inr x = true -> x = inr (composed_or_empty x).
Proof. by destruct x. Qed.

(** Composition does not look at the type of the store. *)
Lemma Compose_store {HRange : GoRange} {HFmt : GoFmt} {A B} ps : is_inr (Compose (St := A) ps) = is_inr (Compose (St := B) ps).
Proof. unfold Compose. destruct ps; [done|]. by destruct (addPhases _ _). Qed.

(** With a signer and a peer, [ComposeWith] accepts what [Compose] accepts. *)
Lemma ComposeWith_composes {HRange : GoRange} {HFmt : GoFmt} {St} ps sg peers (st : St) :
  is_inr (Compose (St := unit) ps) = true -> peers <> ∅ ->
  is_inr (ComposeWith ps [WithSigner sg; WithPeerVerifiers peers; WithStore st]) = true.
Proof.
  intros Hc Hp. unfold ComposeWith. cbn.
  assert (Hn : (msize peers =? 0) = false).
  { apply Z.eqb_neq. unfold msize. intros Hz. apply Hp, map_size_empty_iff. lia. }
  rewrite Hn, andb_false_r. rewrite (Compose_store (B := InMemoryStore + St)) in Hc. by destruct (Compose ps).
Qed.

(** ** The specification *)

Definition no_lineage : gerror :=
  Errorf "%w: CommitArtifact requires a lineage-enabled runner (build via ComposeWith)" []
    [ESentinel ErrPermanent].

(** A hook as a function on the context. *)
Fixpoint hook {A} (p : Prog A) (c : SessionContext) : SessionContext * outcome A :=
  match p with
  | Ret a => (c, Ok a)
  | Panic msg => (c, Crash msg)
  | DoCtx f k => hook (k c) (touch f c)
  | DoCommit _ _ _ _ k => hook (k (inl no_lineage)) c
  | DoDAG k => hook (k []) c
  end.

(** Hooks by rewriting. *)
Lemma touch_id c : touch id c = c.
Proof. by destruct c. Qed.

Lemma hook_context {A} (k : SessionContext -> Prog A) c : hook (pbind hContext k) c = hook (k c) c.
Proof. unfold hContext. cbn. by rewrite touch_id. Qed.

Lemma hook_get {A} key (k : option any -> Prog A) c : hook (pbind (hGet key) k) c = hook (k (ctx_Get c key)) c.
Proof. unfold hGet. cbn. by rewrite touch_id. Qed.

Lemma hook_has {A} key (k : bool -> Prog A) c : hook (pbind (hHas key) k) c = hook (k (ctx_Has c key)) c.
Proof. unfold hHas. cbn. by rewrite touch_id. Qed.

Lemma hook_tryget {A T} (assert : any -> option T) key (k : option T -> Prog A) c :
  hook (pbind (hTryGet assert key) k) c = hook (k (TryGet assert c key)) c.
Proof. unfold hTryGet. cbn. by rewrite touch_id. Qed.

Lemma hook_set {A} key v (k : unit -> Prog A) c : hook (pbind (hSet key v) k) c = hook (k tt) (ctx_Set c key v).
Proof. done. Qed.

Lemma hook_update {A} key f (k : unit -> Prog A) c :
  hook (pbind (hUpdate key f) k) c = hook (k tt) (ctx_Update c key f).
Proof. done. Qed.

Lemma hook_accumulate {A} key from pl (k : unit -> Prog A) c :
  hook (pbind (AccumulateMessage key from pl) k) c = hook (k tt) (ctx_Update c key (accumulate from pl)).
Proof. done. Qed.

(** A key that holds a value of the asserted type. *)
Lemma hook_must {A T} (assert : any -> option T) key x (k : T -> Prog A) c :
  TryGet assert c key = Some x -> hook (pbind (hMustGet assert key) k) c = hook (k x) c.
Proof.
  unfold TryGet, hMustGet. cbn. destruct (ctx_Get c key) as [v|]; [|done]. cbn. intros ->. cbn. by rewrite touch_id.
Qed.

(** Reads after writes. *)
Lemma TryGet_set {T} (assert : any -> option T) c key v : TryGet assert (ctx_Set c key v) key = assert v.
Proof. unfold TryGet, ctx_Get, ctx_Set. cbn. by rewrite lookup_insert_eq. Qed.

Lemma TryGet_set_ne {T} (assert : any -> option T) c key key' v :
  key <> key' -> TryGet assert (ctx_Set c key v) key' = TryGet assert c key'.
Proof. intros Hne. unfold TryGet, ctx_Get, ctx_Set. cbn. by rewrite lookup_insert_ne. Qed.

Lemma TryGet_update_ne {T} (assert : any -> option T) c key key' f :
  key <> key' -> TryGet assert (ctx_Update c key f) key' = TryGet assert c key'.
Proof. intros Hne. unfold TryGet, ctx_Get, ctx_Update. cbn. by rewrite lookup_insert_ne. Qed.

Lemma get_set c key v : ctx_Get (ctx_Set c key v) key = Some v.
Proof. apply lookup_insert_eq. Qed.

Lemma get_set_ne c key key' v : key <> key' -> ctx_Get (ctx_Set c key v) key' = ctx_Get c key'.
Proof. apply lookup_insert_ne. Qed.

Lemma messages_set_ne c key bucket v :
  key <> bucket -> AccumulatedMessages (ctx_Set c key v) bucket = AccumulatedMessages c bucket.
Proof. intros Hne. unfold AccumulatedMessages. by rewrite get_set_ne. Qed.

Lemma session_set c key v : CtxSessionID (ctx_Set c key v) = CtxSessionID c.
Proof. done. Qed.

#[export] Hint Rewrite @get_set session_set : hook.
#[export] Hint Rewrite @get_set_ne @messages_set_ne using discriminate : hook.
#[export] Hint Rewrite @hook_context @hook_get @hook_has @hook_tryget @hook_set @hook_update @hook_accumulate : hook.
#[export] Hint Rewrite @TryGet_set : hook.
#[export] Hint Rewrite @TryGet_set_ne @TryGet_update_ne using discriminate : hook.

(** Run the hooks in sight. *)
Ltac hooks := repeat (progress (autorewrite with hook; cbn [hook])).

(** The current phase heads [s_rest]; a finished session has none. *)
Record session := mkSession { s_ctx : SessionContext; s_rest : list Phase; s_entered : bool }.

(** A hook of phase [p], its error wrapped by [format], then [next]. *)
Definition guarded {B} (format : string) (p : Phase) (h : Prog (option gerror)) (rest : list Phase) (en : bool)
    (c : SessionContext) (next : SessionContext -> session * result B) : session * result B :=
  match hook h c with
  | (c', Ok None) => next c'
  | (c', Ok (Some err)) => (mkSession c' rest en, Bad (Errorf format [Name p] [err]))
  | (c', Crash msg) => (mkSession c' rest en, Unwind msg)
  end.

Definition unclaimed (p : Phase) : gerror :=
  Errorf "%w: no phase claims state %q (ExitState of %q)" [ExitState p; Name p] [ESentinel ErrFrameworkBug].

(** Leave [p] for the phases of [rest], as far as they complete at once. *)
Fixpoint leave (p : Phase) (rest : list Phase) (en : bool) (c : SessionContext) : session * result bool :=
  guarded "phase %q: Exit: %w" p (Exit p) (p :: rest) en c (fun c =>
    match rest with
    | [] => if String.eqb (ExitState p) StateNone then (mkSession c [] en, Good true)
            else (mkSession c [p] en, Bad (unclaimed p))
    | q :: rest' =>
        guarded "phase %q: Enter: %w" q (Enter q) rest false c (fun c =>
          if 0 <? zlen (ConsumedMessageTypes q) then (mkSession c rest true, Good true)
          else match hook (CheckComplete q) c with
          | (c, Ok true) => leave q rest' true c
          | (c, Ok false) => (mkSession c rest true, Good true)
          | (c, Crash msg) => (mkSession c rest true, Unwind msg)
          end)
    end).

Definition nil_phase : string := "runtime error: invalid memory address or nil pointer dereference".

Definition s_message (s : session) (ty from : string) (pl : bytes) : session * result bool :=
  match s_rest s with
  | [] => (s, Unwind nil_phase)
  | p :: rest =>
      if negb (phaseConsumes p ty) then
        (s, Bad (permanent "%w: phase %q: does not consume message type %q in state %q" [Name p; ty; EntryState p]))
      else guarded "phase %q: OnMessage: %w" p (OnMessage p ty from pl) (s_rest s) (s_entered s) (s_ctx s) (fun c =>
        match hook (CheckComplete p) c with
        | (c, Ok true) => leave p rest (s_entered s) c
        | (c, Ok false) => (mkSession c (s_rest s) (s_entered s), Good false)
        | (c, Crash msg) => (mkSession c (s_rest s) (s_entered s), Unwind msg)
        end)
  end.

Definition lost (sid : string) (target : SessionState) : gerror :=
  Errorf "%w: AdvanceToState: session %q has no current phase but target %q not reached" [sid; target]
    [ESentinel ErrFrameworkBug].

Definition overrun (sid : string) (p : Phase) (target : SessionState) : gerror :=
  Errorf "%w: AdvanceToState: session %q reached terminal phase %q without entering target %q"
    [sid; Name p; target] [ESentinel ErrPermanent].

(** Walk through phases, complete or not, up to the one that enters [target]. *)
Fixpoint walk (sid : string) (target : SessionState) (rest : list Phase) (en : bool) (c : SessionContext)
    : session * result unit :=
  match rest with
  | [] => (mkSession c [] en, if String.eqb StateNone target then Good tt else Bad (lost sid target))
  | p :: rest' =>
      if String.eqb (EntryState p) target then (mkSession c rest en, Good tt)
      else guarded "phase %q: Exit during AdvanceToState: %w" p (Exit p) rest en c (fun c =>
        match rest' with
        | [] => (mkSession c rest en,
                 Bad (if String.eqb (ExitState p) StateNone then overrun sid p target
                      else Errorf "%w: AdvanceToState: no phase claims state %q" [ExitState p] [ESentinel ErrFrameworkBug]))
        | q :: _ => guarded "phase %q: Enter during AdvanceToState: %w" q (Enter q) rest' false c
                      (walk sid target rest' true)
        end)
  end.

Definition s_advance (sid : string) (target : SessionState) (s : session) : session * result unit :=
  match s_rest s with
  | p :: _ => if bool_decide (target ∈ InternalStates p) then (s, Good tt)
              else walk sid target (s_rest s) (s_entered s) (s_ctx s)
  | [] => walk sid target [] (s_entered s) (s_ctx s)
  end.

(** A new session on a pipeline. *)
Definition s_begin (ps : list Phase) (sg : option Signer) (sid cohort : string) : option (session * result unit) :=
  match inline ps with
  | [] => None
  | p :: _ =>
      Some (guarded "phase %q: Enter: %w" p (Enter p) (inline ps) false
              (NewSessionContext sid <| CohortID := cohort |> <| ctx_lineageSigner := sg |>)
              (fun c => (mkSession c (inline ps) true, Good tt)))
  end.

(** Runs of many sessions. *)
Definition spec_step (ps : list Phase) (sg : option Signer) (m : gmap string session) (o : runner_op)
    : gmap string session :=
  match o with
  | RBegin sid cohort =>
      if String.eqb sid "" then m
      else match m !! sid, s_begin ps sg sid cohort with
      | None, Some (s, Bad _) => m
      | None, Some (s, _) => <[sid := s]> m
      | _, _ => m
      end
  | RSeed sid key v => alter (fun s => mkSession (ctx_Set (s_ctx s) key v) (s_rest s) (s_entered s)) sid m
  | RMessage sid ty from pl | RLineage sid ty from pl _ => alter (fun s => (s_message s ty from pl).1) sid m
  | RAdvance sid target => alter (fun s => (s_advance sid target s).1) sid m
  | REnd sid => delete sid m
  | RClaim _ _ _ _ | RFalseClaim _ _ => m
  end.

Definition spec_run ps sg (ops : list runner_op) : gmap string session := foldl (spec_step ps sg) ∅ ops.

(** ** Refinement *)

(** The tracker that represents a session. *)
Definition tracker_of (s : session) : sessionTracker :=
  mkTracker (s_ctx s) (from_option EntryState StateNone (head (s_rest s))) (head (s_rest s)) (s_entered s).

Section refinement.
Context {St : Type} {HStore : Store St} {HClock : Clock} {HRange : GoRange} {HFmt : GoFmt}.
Implicit Types (r : SessionRunner St) (s : session).

Lemma run_hook {A} (p : Prog A) c n :
  run (St := St) p (mkWorld c None n) = (mkWorld (hook p c).1 None n, (hook p c).2).
Proof.
  revert c n. induction p as [a|msg|f k IH|ph ro pl ps k IH|k IH]; intros c n; cbn [run hook]; (done || apply IH).
Qed.

Definition lift (n : nat) {B} (x : session * result B) : env St * result B :=
  (mkEnv (tracker_of x.1) None n, x.2).

Lemma exec_hook {A} (h : Prog A) s n :
  exec (St := St) h (mkEnv (tracker_of s) None n) =
  (mkEnv (tracker_of (mkSession (hook h (s_ctx s)).1 (s_rest s) (s_entered s))) None n,
   match (hook h (s_ctx s)).2 with Ok a => Good a | Crash msg => Unwind msg end).
Proof. unfold exec. cbn [tracker ctx tracker_of e_store e_tick]. rewrite run_hook. by destruct (hook h (s_ctx s)). Qed.

Lemma guard_hook {B} fmt p h c rest en n (next : SessionContext -> session * result B) (k : E St B) :
  (forall c', k (mkEnv (tracker_of (mkSession c' rest en)) None n) = lift n (next c')) ->
  (guard fmt p h ;;; k) (mkEnv (tracker_of (mkSession c rest en)) None n) = lift n (guarded fmt p h rest en c next).
Proof.
  intros Hk. unfold guard, ebind. rewrite exec_hook. unfold guarded. cbn [s_ctx s_rest s_entered].
  destruct (hook h c) as [c' [[err|]|msg]]; cbn [fst snd]; try done. apply Hk.
Qed.

(** ... and when nothing but the state is behind the hook. *)
Lemma guard_commit_none {B} fmt r p (k : E St B) t n :
  (guard_commit fmt r p ;;; k) (mkEnv t None n) = k (mkEnv t None n).
Proof. unfold ebind at 1. by rewrite guard_commit_off. Qed.

Lemma enterNext_hook {B} fmt q next s rest n (f : SessionContext -> session * result B) (k : E St B) :
  head rest = Some q -> EntryState q = next ->
  (forall c', k (mkEnv (tracker_of (mkSession c' rest true)) None n) = lift n (f c')) ->
  (enterNext fmt q next ;;; k) (mkEnv (tracker_of s) None n) =
  lift n (guarded fmt q (Enter q) rest false (s_ctx s) f).
Proof.
  intros Hq <- Hk.
  assert (Ha : forall e, (enterNext fmt q (EntryState q) ;;; k) e =
    (guard fmt q (Enter q) ;;; (setTracker (fun t => t <| entered := true |>) ;;; k))
      (e <| tracker := tracker e <| state := EntryState q |> <| current := Some q |> <| entered := false |> |>)).
  { intros e. unfold enterNext, ebind, setTracker. destruct (guard _ _ _ _) as [e' [[]|err|msg]]; done. }
  rewrite Ha.
  replace (_ <| tracker := _ |>) with (mkEnv (St := St) (tracker_of (mkSession (s_ctx s) rest false)) None n).
  2:{ unfold tracker_of. cbn. by rewrite Hq. }
  apply guard_hook. intros c'. rewrite <- Hk. done.
Qed.

Section on_pipeline.
Context (ps : list Phase) (r : SessionRunner St).
Hypothesis Hok : pipeline_ok ps.
Hypothesis Hacyclic : acyclic ps.
Hypothesis Hcomposed : composed ps r.

(** The phase that claims the exit state is the next of the list. *)
Lemma next_claims pre p rest :
  inline ps = pre ++ p :: rest ->
  byEntryState r !! ExitState p = head rest /\ (rest <> [] -> ExitState p <> StateNone) /\
  (forall q, head rest = Some q -> EntryState q = ExitState p).
Proof.
  intros Hps. pose proof (pipeline_chained _ Hok) as Hch. pose proof Hch as [Hn He Hx].
  assert (Hp : inline ps !! length pre = Some p) by (rewrite Hps; by apply list_lookup_middle).
  assert (Hq : inline ps !! S (length pre) = head rest).
  { rewrite Hps, lookup_app_r by lia. replace (S (length pre) - length pre)%nat with 1%nat by lia.
    by destruct rest. }
  destruct rest as [|q rest]; cbn [head] in Hq.
  - split; [|done]. destruct (byEntryState r !! ExitState p) as [q|] eqn:Hl; [|done].
    pose proof (next_phase ps r _ p q Hch Hacyclic Hcomposed Hp Hl). congruence.
  - pose proof (Hx _ _ _ Hp Hq) as Hpq. split_and!.
    + apply (cp_entry _ _ Hcomposed). split; [|done]. by apply list_elem_of_lookup_2 in Hq.
    + intros _. rewrite Hpq. rewrite Forall_forall in He. apply He. by apply list_elem_of_lookup_2 in Hq.
    + intros q' [= <-]. done.
Qed.

Lemma advance_leave hops pre p rest en c n :
  inline ps = pre ++ p :: rest -> (length rest < hops)%nat ->
  advance_loop r hops (mkEnv (tracker_of (mkSession c (p :: rest) en)) None n) = lift n (leave p rest en c).
Proof.
  revert hops pre p en c. induction rest as [|q rest IH]; intros hops pre p en c Hps Hh;
    (destruct hops as [|hops]; [cbn in Hh; lia|]); cbn [advance_loop leave]; unfold ebind at 1; cbn [currentPhase tracker current tracker_of head s_rest];
    apply guard_hook; intros c1; rewrite guard_commit_none; destruct (next_claims pre p _ Hps) as (Hn & Hne & Hen); rewrite Hn; cbn [head].
  - by destruct (String.eqb (ExitState p) StateNone).
  - destruct (String.eqb_spec (ExitState p) StateNone) as [?|_]; [by destruct Hne|].
    apply enterNext_hook; [done|by apply Hen|]. intros c2.
    destruct (0 <? _); [done|]. unfold ebind. rewrite exec_hook. cbn [s_ctx s_rest s_entered].
    destruct (hook (CheckComplete q) c2) as [c3 [[]|msg]]; cbn [fst snd negb]; try done.
    apply (IH hops (pre ++ [p])); [by rewrite <- app_assoc|cbn in Hh; lia].
Qed.

Lemma walk_walk hops sid target pre rest en c n :
  inline ps = pre ++ rest -> (length rest <= hops)%nat -> hops <> 0%nat ->
  walk_loop r sid target hops (mkEnv (tracker_of (mkSession c rest en)) None n) = lift n (walk sid target rest en c).
Proof.
  revert hops pre en c. induction rest as [|p rest IH]; intros hops pre en c Hps Hh H0; (destruct hops as [|hops]; [done|]);
    cbn [walk_loop walk tracker tracker_of state current s_rest head from_option].
  { by destruct (String.eqb StateNone target). }
  destruct (String.eqb (EntryState p) target); [done|].
  destruct (next_claims pre p rest Hps) as (Hn & Hne & Hen).
  change (mkTracker c (EntryState p) (Some p) en) with (tracker_of (mkSession c (p :: rest) en)).
  apply guard_hook. intros c1. rewrite guard_commit_none, Hn.
  destruct rest as [|q rest]; cbn [head].
  { by destruct (String.eqb (ExitState p) StateNone). }
  destruct (String.eqb_spec (ExitState p) StateNone) as [?|_]; [by destruct Hne|].
  apply enterNext_hook; [done|by apply Hen|]. intros c2.
  apply (IH hops (pre ++ [p])); [by rewrite <- app_assoc|cbn in *; lia|cbn in Hh; lia].
Qed.

(** What a session's phases ahead may be. *)
Definition ahead (s : session) : Prop := exists pre, inline ps = pre ++ s_rest s.

Lemma ahead_length s : ahead s -> (length (s_rest s) <= length (phases r))%nat.
Proof.
  intros [pre Hps]. rewrite (cp_phases _ _ Hcomposed). etransitivity; [|apply inline_length].
  rewrite Hps, length_app. lia.
Qed.

Lemma dispatch_message s ty from pl n :
  ahead s -> dispatch r ty from pl (mkEnv (tracker_of s) None n) = lift n (s_message s ty from pl).
Proof.
  intros Ha. pose proof (ahead_length s Ha) as Hlen. destruct Ha as [pre Hps]. destruct s as [c rest en]. cbn in *.
  unfold dispatch, ebind at 1, currentPhase, s_message. cbn [tracker tracker_of current s_rest].
  destruct rest as [|p rest]; [done|]. cbn [head from_option].
  destruct (phaseConsumes p ty); [|done]. cbn [negb].
  change (mkTracker _ (EntryState p) (Some p) _) with (tracker_of (mkSession c (p :: rest) en)).
  apply guard_hook. intros c1. unfold ebind. rewrite exec_hook. cbn [s_ctx s_rest s_entered].
  destruct (hook (CheckComplete p) c1) as [c2 [[]|msg]]; cbn [fst snd negb]; try done.
  eapply advance_leave; [done|]. cbn in Hlen. lia.
Qed.

Lemma advanceTo_advance s sid target n :
  ahead s -> advanceTo r sid target (mkEnv (tracker_of s) None n) = lift n (s_advance sid target s).
Proof.
  intros Ha. pose proof (ahead_length s Ha) as Hlen. destruct Ha as [pre Hps]. destruct s as [c rest en]. cbn in *.
  unfold advanceTo, s_advance. cbn [tracker tracker_of state current s_rest].
  destruct rest as [|p rest]; cbn [head from_option s_entered s_ctx].
  - cbn [walk]. destruct (String.eqb StateNone target) eqn:Ht; [done|].
    rewrite Nat.add_1_r. cbn [walk_loop tracker state tracker_of head s_rest from_option]. by rewrite Ht.
  - destruct (String.eqb (EntryState p) target) eqn:Ht.
    + case_bool_decide; [done|]. cbn [walk]. by rewrite Ht.
    + case_bool_decide; [done|].
      change (mkTracker _ (EntryState p) (Some p) _) with (tracker_of (mkSession c (p :: rest) en)).
      apply (walk_walk _ sid target pre); [done|cbn in *; lia|lia].
Qed.

(** Phases ahead only shrink. *)
Lemma guarded_rest {B} fmt p h rest en c (next : SessionContext -> session * result B) l :
  rest `suffix_of` l -> (forall c', s_rest (next c').1 `suffix_of` l) ->
  s_rest (guarded fmt p h rest en c next).1 `suffix_of` l.
Proof. intros Hr Hn. unfold guarded. by destruct (hook h c) as [c' [[err|]|msg]]; cbn. Qed.

Lemma leave_rest p rest en c : s_rest (leave p rest en c).1 `suffix_of` p :: rest.
Proof.
  revert p en c. induction rest as [|q rest IH]; intros p en c; cbn [leave]; apply guarded_rest; try done; intros c1.
  - destruct (String.eqb _ _); cbn; [apply suffix_nil|done].
  - apply guarded_rest; [by apply suffix_cons_r|]. intros c2.
    destruct (0 <? _); [by apply suffix_cons_r|].
    destruct (hook _ c2) as [c3 [[]|msg]]; cbn; try by apply suffix_cons_r.
Qed.

Lemma s_message_rest s ty from pl : s_rest (s_message s ty from pl).1 `suffix_of` s_rest s.
Proof.
  unfold s_message. destruct (s_rest s) as [|p rest] eqn:Hs; [by cbn; rewrite Hs|].
  destruct (negb _); [by cbn; rewrite Hs|]. apply guarded_rest; [done|]. intros c.
  destruct (hook _ c) as [c' [[]|msg]]; try done. apply leave_rest.
Qed.

Lemma walk_rest sid target rest en c : s_rest (walk sid target rest en c).1 `suffix_of` rest.
Proof.
  revert en c. induction rest as [|p rest IH]; intros en c; cbn [walk]; [done|].
  destruct (String.eqb _ _); [done|]. apply guarded_rest; [done|]. intros c1.
  destruct rest as [|q rest]; [done|]. apply guarded_rest; [by apply suffix_cons_r|]. intros c2.
  etransitivity; [apply IH|by apply suffix_cons_r].
Qed.

Lemma s_advance_rest sid target s : s_rest (s_advance sid target s).1 `suffix_of` s_rest s.
Proof.
  unfold s_advance. destruct (s_rest s) as [|p rest] eqn:Hs; [done|].
  case_bool_decide; [by cbn; rewrite Hs|apply walk_rest].
Qed.

Lemma ahead_suffix s s' : ahead s -> s_rest s' `suffix_of` s_rest s -> ahead s'.
Proof. intros [pre Hps] [mid Hs]. exists (pre ++ mid). by rewrite <- app_assoc, <- Hs. Qed.

(** The sessions of [r] are those of the specification. *)
Definition represents (m : gmap string session) : Prop :=
  sessions r = tracker_of <$> m /\ lineageStore r = None /\ map_Forall (fun _ => ahead) m.
End on_pipeline.

Lemma on_session_represents {B} ps r m sid s (k : E St B) (x : session * result B) :
  represents ps r m -> m !! sid = Some s -> ahead ps x.1 ->
  k (mkEnv (tracker_of s) None (ticks r)) = lift (ticks r) x ->
  represents ps (on_session r sid (tracker_of s) k).1 (<[sid := x.1]> m) /\
  (on_session r sid (tracker_of s) k).2 = x.2.
Proof.
  intros (Hs & Hl & Ha) Hsid Hx Hk. unfold on_session. rewrite Hl, Hk. cbn. split; [|done].
  split_and!; [by rewrite Hs, fmap_insert|done|by apply map_Forall_insert_2].
Qed.

Section runs.
Context (ps : list Phase) (r0 : SessionRunner St).
Hypothesis Hok : pipeline_ok ps.
Hypothesis Hacyclic : acyclic ps.
Hypothesis Hcomposed : composed ps r0.

Lemma HandleMessage_represents r m sid ty from pl :
  composed ps r -> represents ps r m ->
  represents ps (HandleMessage r sid ty from pl).1 (alter (fun s => (s_message s ty from pl).1) sid m) /\
  (forall s, m !! sid = Some s -> (HandleMessage r sid ty from pl).2 = (s_message s ty from pl).2).
Proof.
  intros Hc Hr. pose proof Hr as (Hs & Hl & Ha). unfold HandleMessage. rewrite Hs, lookup_fmap.
  destruct (m !! sid) as [s|] eqn:Hsid; cbn [fmap option_fmap option_map].
  - pose proof (map_Forall_lookup_1 _ _ _ _ Ha Hsid) as Has.
    destruct (on_session_represents ps r m sid s (dispatch r ty from pl) (s_message s ty from pl) Hr Hsid) as [H1 H2].
    { apply (ahead_suffix ps s); [exact Has|apply s_message_rest]. }
    { apply (dispatch_message ps); [done..|exact Has]. }
    rewrite alter_alt, Hsid. split; [done|]. by intros s' [= <-].
  - by rewrite alter_alt, Hsid.
Qed.

Lemma AdvanceToState_represents r m sid target :
  composed ps r -> represents ps r m ->
  represents ps (AdvanceToState r sid target).1 (alter (fun s => (s_advance sid target s).1) sid m) /\
  (forall s, m !! sid = Some s -> (AdvanceToState r sid target).2 = (s_advance sid target s).2).
Proof.
  intros Hc Hr. pose proof Hr as (Hs & Hl & Ha). unfold AdvanceToState. rewrite Hs, lookup_fmap.
  destruct (m !! sid) as [s|] eqn:Hsid; cbn [fmap option_fmap option_map].
  - pose proof (map_Forall_lookup_1 _ _ _ _ Ha Hsid) as Has.
    destruct (on_session_represents ps r m sid s (advanceTo r sid target) (s_advance sid target s) Hr Hsid) as [H1 H2].
    { apply (ahead_suffix ps s); [exact Has|apply s_advance_rest]. }
    { apply (advanceTo_advance ps); [done..|exact Has]. }
    rewrite alter_alt, Hsid. split; [done|]. by intros s' [= <-].
  - by rewrite alter_alt, Hsid.
Qed.

Lemma BeginSession_represents r m sid cohort :
  composed ps r -> represents ps r m ->
  represents ps (BeginSession r sid cohort).1 (spec_step ps (lineageSigner r) m (RBegin sid cohort)).
Proof.
  intros Hc Hr. pose proof Hr as (Hs & Hl & Ha). unfold BeginSession, spec_step.
  destruct (String.eqb sid ""); [done|]. rewrite Hs, lookup_fmap.
  destruct (m !! sid) as [s|] eqn:Hsid; cbn [fmap option_fmap option_map]; [done|].
  unfold s_begin. pose proof (cp_initial _ _ Hc) as Hi. destruct (inline ps) as [|p rest] eqn:Hps; cbn in Hi.
  { destruct (byEntryState r !! initialState r) as [q|] eqn:Hq; [|done].
    apply (cp_entry _ _ Hc) in Hq as [Hq _]. rewrite Hps in Hq. by apply not_elem_of_nil in Hq. }
  assert (Hp : byEntryState r !! initialState r = Some p).
  { apply (cp_entry _ _ Hc). rewrite Hps. split; [left|done]. }
  rewrite Hp. unfold on_session. rewrite Hs, Hl, Hi.
  set (c := NewSessionContext sid <| CohortID := cohort |> <| ctx_lineageSigner := lineageSigner r |>).
  pose proof (guard_hook "phase %q: Enter: %w" p (Enter p) c (p :: rest) false (ticks r)
    (fun c => (mkSession c (p :: rest) true, Good tt)) (setTracker (St := St) (fun t => t <| entered := true |>))
    (fun _ => eq_refl)) as Hg.
  match goal with |- context [mkTracker ?c0 _ _ false] => change c0 with c end.
  unfold tracker_of in Hg at 1; cbn [head s_rest from_option s_ctx s_entered] in Hg. rewrite Hg. unfold guarded.
  assert (Hnew : forall c' en, represents ps
    (r <| sessions := <[sid := tracker_of (mkSession c' (p :: rest) en)]> (tracker_of <$> m) |>
       <| lineageStore := None |> <| ticks := ticks r |>) (<[sid := mkSession c' (p :: rest) en]> m)).
  { intros c' en. split_and!; [by cbn; rewrite fmap_insert|done|]. apply map_Forall_insert_2; [by exists []|done]. }
  destruct (hook (Enter p) c) as [c' [[err|]|msg]]; cbn [lift fst snd tracker e_store e_tick]; [|apply Hnew..].
  split_and!; [|done|done]. cbn. rewrite delete_insert_id; [done|]. by rewrite lookup_fmap, Hsid.
Qed.

(** ... and a new session is begun when its first phase is entered. *)
Lemma BeginSession_good r m sid cohort s :
  composed ps r -> represents ps r m -> sid <> "" -> m !! sid = None ->
  s_begin ps (lineageSigner r) sid cohort = Some (s, Good tt) -> exists c, (BeginSession r sid cohort).2 = Good c.
Proof.
  intros Hc (Hs & Hl & _) Hne Hsid. unfold BeginSession, s_begin. apply String.eqb_neq in Hne as ->.
  rewrite Hs, lookup_fmap, Hsid. cbn [fmap option_fmap option_map].
  pose proof (cp_initial _ _ Hc) as Hi. destruct (inline ps) as [|p rest] eqn:Hps; [done|]. cbn in Hi.
  assert (Hp : byEntryState r !! initialState r = Some p).
  { apply (cp_entry _ _ Hc). rewrite Hps. split; [left|done]. }
  rewrite Hp, Hl. cbn [is_some]. unfold guarded. intros Hb.
  assert (Hh : exists c', hook (Enter p) (NewSessionContext sid <| CohortID := cohort |>
    <| ctx_lineageSigner := lineageSigner r |>) = (c', Ok None)).
  { destruct (hook (Enter p) _) as [c' [[err|]|msg]] in Hb |- *; [done|by exists c'|done]. }
  destruct Hh as [c' Hh]. unfold on_session, guard, ebind, exec. rewrite Hl. cbn [tracker e_store e_tick ctx].
  rewrite run_hook. match goal with |- context [hook (Enter p) ?c0] => change c0 with (NewSessionContext sid
    <| CohortID := cohort |> <| ctx_lineageSigner := lineageSigner r |>) end.
  rewrite Hh. cbn. rewrite lookup_insert_eq. by eexists.
Qed.

Lemma runner_step_represents r m o :
  composed ps r -> represents ps r m ->
  represents ps (runner_step r o) (spec_step ps (lineageSigner r) m o).
Proof.
  intros Hc Hr. pose proof Hr as (Hs & Hl & Ha). destruct o as [sid cid|sid key v|sid ty from pl|sid ty from pl n|sid target|sid|sid ph ro e|sid n].
  - by apply BeginSession_represents.
  - cbn. unfold SeedContext. rewrite Hs, lookup_fmap, alter_alt. destruct (m !! sid) as [s|] eqn:Hsid; [|done].
    split_and!; [by cbn; rewrite fmap_insert|done|]. apply map_Forall_insert_2; [|done].
    exact (map_Forall_lookup_1 _ _ _ _ Ha Hsid).
  - by apply HandleMessage_represents.
  - cbn. unfold HandleLineageMessage. rewrite Hl. by apply HandleMessage_represents.
  - by apply AdvanceToState_represents.
  - split_and!; [by cbn; rewrite Hs, fmap_delete|done|by apply map_Forall_delete].
  - cbn. unfold BuildMismatchClaim. by destruct (lineageSigner r).
  - cbn. unfold ReportFalseLineageClaim, fireFailureHook. destruct (lineageFailureHook r) as [f|]; [|done].
    by destruct (f _).
Qed.

Lemma runner_run_represents ops :
  sessions r0 = ∅ -> lineageStore r0 = None ->
  represents ps (runner_run r0 ops) (spec_run ps (lineageSigner r0) ops) /\
  composed ps (runner_run r0 ops) /\ lineageSigner (runner_run r0 ops) = lineageSigner r0.
Proof.
  intros Hs Hl. induction ops as [|o ops IH] using rev_ind.
  - split_and!; [|done|done]. split_and!; [done|done|apply map_Forall_empty].
  - destruct (run_coherent r0 (ops ++ [o]) Hs) as [Hst _ _]. split_and!.
    + destruct IH as (Hr & Hc & Hg). unfold runner_run, spec_run. rewrite !foldl_app. cbn [foldl].
      rewrite <- Hg at 1. by apply runner_step_represents.
    + by apply (composed_static ps r0).
    + by destruct Hst as (_ & _ & _ & _ & ? & _).
Qed.
End runs.

(** ** Pipelines without an end *)

(** A session whose last phase leads to a state that is not the terminal one
    never finishes. *)
Definition open_ended (l : list Phase) : Prop := forall q, last l = Some q -> ExitState q <> StateNone.

Lemma open_ended_tail p q l : open_ended (p :: q :: l) -> open_ended (q :: l).
Proof. intros Ho r Hr. apply Ho. by rewrite last_cons_cons. Qed.

Lemma guarded_open {B} fmt p h rest en c (next : SessionContext -> session * result B) :
  rest <> [] -> (forall c', s_rest (next c').1 <> []) -> s_rest (guarded fmt p h rest en c next).1 <> [].
Proof. intros Hr Hn. unfold guarded. by destruct (hook h c) as [c' [[err|]|msg]]; cbn. Qed.

Lemma leave_open p rest en c : open_ended (p :: rest) -> s_rest (leave p rest en c).1 <> [].
Proof.
  revert p en c. induction rest as [|q rest IH]; intros p en c Ho; cbn [leave]; apply guarded_open; try done; intros c1.
  - destruct (String.eqb_spec (ExitState p) StateNone) as [He|]; [|done]. by destruct (Ho p).
  - apply guarded_open; [done|]. intros c2. destruct (0 <? _); [done|].
    destruct (hook _ c2) as [c3 [[]|msg]]; cbn; try done. eapply IH, open_ended_tail, Ho.
Qed.

Lemma s_message_open s ty from pl : s_rest s <> [] -> open_ended (s_rest s) -> s_rest (s_message s ty from pl).1 <> [].
Proof.
  intros Hne Ho. unfold s_message. destruct (s_rest s) as [|p rest] eqn:Hs; [done|].
  destruct (negb _); [by cbn; rewrite Hs|]. apply guarded_open; [done|]. intros c.
  destruct (hook _ c) as [c' [[]|msg]]; try done. by apply leave_open.
Qed.

Lemma walk_open sid target rest en c : rest <> [] -> s_rest (walk sid target rest en c).1 <> [].
Proof.
  revert en c. induction rest as [|p rest IH]; intros en c Hne; cbn [walk]; [done|].
  destruct (String.eqb _ _); [done|]. apply guarded_open; [done|]. intros c1.
  destruct rest as [|q rest]; [done|]. apply guarded_open; [done|]. intros c2. by apply IH.
Qed.

Lemma s_advance_open sid target s : s_rest s <> [] -> s_rest (s_advance sid target s).1 <> [].
Proof.
  intros Hne. unfold s_advance. destruct (s_rest s) as [|p rest] eqn:Hs; [done|].
  case_bool_decide; [by cbn; rewrite Hs|by apply walk_open].
Qed.

(** Runs of a composed pipeline. *)
Lemma composed_runs ps r0 ops :
  Compose ps = inr r0 -> acyclic ps ->
  pipeline_ok ps /\ composed ps (runner_run r0 ops) /\ represents ps (runner_run r0 ops) (spec_run ps None ops).
Proof.
  intros Hcp Ha. pose proof (Compose_correct (St := St) ps) as Hc. rewrite Hcp in Hc.
  destruct Hc as (Hok & Hc & Hs & Hl).
  destruct (runner_run_represents ps r0 Hok Ha Hc ops Hs Hl) as (Hr & Hc' & _).
  assert (Hg : lineageSigner r0 = None).
  { unfold Compose in Hcp. destruct ps; [done|]. destruct (addPhases _ _); [done|]. by injection Hcp as <-. }
  by rewrite Hg in Hr.
Qed.

Lemma open_ended_suffix l l' : open_ended l -> l' `suffix_of` l -> l' <> [] -> open_ended l'.
Proof. intros Ho [k ->] Hne q Hq. apply Ho. by rewrite last_app, Hq. Qed.

(** On such a pipeline no session ever finishes, whatever is done to it. *)
Lemma never_finished ps r0 ops sid t :
  Compose ps = inr r0 -> acyclic ps -> open_ended (inline ps) ->
  sessions (runner_run r0 ops) !! sid = Some t -> current t <> None.
Proof.
  intros Hc Ha Ho Ht. destruct (composed_runs ps r0 ops Hc Ha) as (_ & _ & Hs & _). rewrite Hs, lookup_fmap in Ht.
  assert (Hall : map_Forall (fun _ s => s_rest s <> []) (spec_run ps None ops)).
  { clear Hs Ht t sid. induction ops as [|o ops IH] using rev_ind; [apply map_Forall_empty|].
    destruct (composed_runs ps r0 ops Hc Ha) as (_ & _ & _ & _ & Hah).
    unfold spec_run in *. rewrite foldl_app. cbn [foldl]. set (m := foldl _ _ ops) in *.
    assert (Hal : forall f sid, (forall s, s_rest s <> [] -> open_ended (s_rest s) -> s_rest (f s) <> []) ->
      map_Forall (fun _ s => s_rest s <> []) (alter f sid m)).
    { intros f sid Hf. rewrite alter_alt. destruct (m !! sid) as [s|] eqn:Hs; [|done]. apply map_Forall_insert_2; [|done].
      pose proof (map_Forall_lookup_1 _ _ _ _ IH Hs) as Hne. apply Hf; [done|].
      destruct (map_Forall_lookup_1 _ _ _ _ Hah Hs) as [pre Hpre]. apply (open_ended_suffix (inline ps)); [done|by exists pre|done]. }
    destruct o as [sid cid|sid key v|sid ty from pl|sid ty from pl n|sid target|sid|sid ph ro e|sid n]; cbn [spec_step]; try done.
    - destruct (String.eqb sid ""); [done|]. destruct (m !! sid); [done|]. unfold s_begin.
      destruct (inline ps) as [|p l] eqn:Hps; [done|].
      assert (Hg : s_rest (guarded "phase %q: Enter: %w" p (Enter p) (p :: l) false
        (NewSessionContext sid <| CohortID := cid |> <| ctx_lineageSigner := None |>)
        (fun c => (mkSession c (p :: l) true, Good tt))).1 <> []) by (by apply guarded_open).
      destruct (guarded _ _ _ _ _ _ _) as [s [u|err|msg]]; [by apply map_Forall_insert_2|done|by apply map_Forall_insert_2].
    - by apply Hal.
    - apply Hal. intros. by apply s_message_open.
    - apply Hal. intros. by apply s_message_open.
    - apply Hal. intros. by apply s_advance_open.
    - by apply map_Forall_delete. }
  destruct (spec_run ps None ops !! sid) as [s|] eqn:Hsid; [|done]. injection Ht as <-.
  pose proof (map_Forall_lookup_1 _ _ _ _ Hall Hsid) as Hne. cbn in Hne |- *. by destruct (s_rest s).
Qed.

(** C4: the session runner refines the pipeline specification.  On the runner
    that [Compose] returns, for a pipeline whose last phase does not lead back
    into it, every run of begins, seeds, messages, advances and ends keeps
    exactly the sessions of the specification, in which a session walks along
    its list of phases; and the next message and the next advance return what
    the specification returns, errors and panics included. *)
Theorem runner_refines_pipeline ps r0 ops :
  Compose ps = inr r0 -> acyclic ps ->
  let r := runner_run r0 ops in
  let m := spec_run ps None ops in
  sessions r = tracker_of <$> m /\
  forall sid s, m !! sid = Some s ->
    (forall ty from pl, (HandleMessage r sid ty from pl).2 = (s_message s ty from pl).2) /\
    (forall target, (AdvanceToState r sid target).2 = (s_advance sid target s).2).
Proof.
  intros Hcp Ha r m. destruct (composed_runs ps r0 ops Hcp Ha) as (Hok & Hc & Hr).
  split; [apply Hr|]. intros sid s Hsid. split.
  - intros ty from pl. by eapply HandleMessage_represents.
  - intros target. by eapply AdvanceToState_represents.
Qed.
End refinement.

(** ** Witness *)

Section witnesses.
#[local] Instance wit_range : GoRange := sorted_range.
#[local] Instance wit_fmt : GoFmt := {| fmt_float := fun _ => ""; fmt_float32 := fun _ => ""; fmt_opaque := fun _ => "" |}.
#[local] Instance wit_clock : Clock := fun n => Z.of_nat n.

Lemma runner_refines_pipeline_witness :
  sessions (runner_run demo_runner bids_ops) = tracker_of <$> spec_run demo None bids_ops.
Proof. exact (proj1 (runner_refines_pipeline demo demo_runner bids_ops demo_composes demo_acyclic)). Defined.
End witnesses.
End PipelineSpec.
