(* ===== verification/Collecting.v ===== *)
(** * Collecting phases

    Most phases of the example applications wait for one message of every
    participant: each message goes into a bucket under its sender, and the phase
    completes when the bucket has as many senders as there are participants.
    This file holds the two hooks they repeat, and what a session does on a
    whole round of messages. *)

From S2P Require Import Prelude Float64 Lineage LineageStore PhaseTypes Compose ComposeTheorems Runner RunnerInvariant RunnerTheorems Defaults PipelineSpec.
Import Lineage LineageStore PhaseTypes Compose ComposeTheorems Runner RunnerInvariant RunnerTheorems Defaults PipelineSpec.

#[local] Open Scope Z_scope.
#[local] Open Scope go_scope.

Module Collecting.
#[local] Open Scope prog_scope.

(** ** The hooks *)

Definition collect (bucketKey : string) (_ from : string) (payload : bytes) : Prog (option gerror) :=
  AccumulateMessage bucketKey from payload ;; Ret None.

Definition quorum (participantsKey bucketKey : string) : Prog bool :=
  let* c := hContext in
  match TryGet as_strings c participantsKey with
  | None => Ret false
  | Some participants => Ret (QuorumReached c bucketKey (zlen participants))
  end.

(** A phase with these hooks. *)
Record collects (p : Phase) (ty participantsKey bucketKey : string) : Prop := {
  co_consumes : phaseConsumes p ty = true;
  co_message : OnMessage p = collect bucketKey;
  co_complete : CheckComplete p = quorum participantsKey bucketKey;
  co_keys : bucketKey <> participantsKey
}.

(** ** Rounds *)

(** The payloads in force after a list of messages: each sender's latest. *)
Definition latest (msgs : list (string * bytes)) : gmap string bytes :=
  foldl (fun b m => <[m.1 := m.2]> b) ∅ msgs.

(** Feed messages of one type to a session. *)
Definition feed (ty : string) (s : session) (msgs : list (string * bytes)) : session :=
  foldl (fun s m => (s_message s ty m.1 m.2).1) s msgs.

Definition messages (sid ty : string) (msgs : list (string * bytes)) : list runner_op :=
  (fun m => RMessage sid ty m.1 m.2) <$> msgs.

Lemma spec_run_feed ps sg ops sid ty msgs s :
  spec_run ps sg ops = {[ sid := s ]} ->
  spec_run ps sg (ops ++ messages sid ty msgs) = {[ sid := feed ty s msgs ]}.
Proof.
  intros Hs. unfold spec_run in *. rewrite foldl_app, Hs. clear Hs. unfold messages.
  revert s. induction msgs as [|m msgs IH]; intros s; [done|]. cbn [foldl fmap list_fmap spec_step feed].
  rewrite alter_singleton_eq. apply IH.
Qed.

(** Feeding one session of many. *)
Lemma spec_run_feed_lookup ps sg ops sid ty msgs s :
  spec_run ps sg ops !! sid = Some s -> spec_run ps sg (ops ++ messages sid ty msgs) !! sid = Some (feed ty s msgs).
Proof.
  unfold spec_run. rewrite foldl_app. generalize (foldl (spec_step ps sg) ∅ ops). intros m. unfold messages.
  revert m s. induction msgs as [|x msgs IH]; intros m s Hs; [done|]. cbn [foldl fmap list_fmap spec_step feed].
  apply IH. by rewrite lookup_alter_eq, Hs.
Qed.

Lemma latest_size msgs : msize (latest msgs) = Z.of_nat (size (list_to_set msgs.*1 : gset string)).
Proof. unfold msize, latest. rewrite <- size_dom, dom_foldl_insert. repeat f_equal. set_solver. Qed.

Lemma submitted_latest c bucketKey msgs :
  ctx_Get c bucketKey = None -> AccumulatedMessages (submitted c bucketKey msgs) bucketKey = latest msgs.
Proof. intros Hc. rewrite submitted_bucket. unfold AccumulatedMessages. by rewrite Hc. Qed.

Lemma submitted_other {T} (assert : any -> option T) c bucketKey msgs key :
  bucketKey <> key -> TryGet assert (submitted c bucketKey msgs) key = TryGet assert c key.
Proof.
  intros Hne. revert c. induction msgs as [|m msgs IH]; intros c; [done|]. cbn [submitted foldl].
  fold (submitted (ctx_Update c bucketKey (accumulate m.1 m.2)) bucketKey msgs). rewrite IH. by apply TryGet_update_ne.
Qed.

Lemma submitted_get c bucketKey msgs key :
  bucketKey <> key -> ctx_Get (submitted c bucketKey msgs) key = ctx_Get c key.
Proof.
  intros Hne. pose proof (submitted_other Some c bucketKey msgs key Hne) as Ht. unfold TryGet in Ht.
  by destruct (ctx_Get (submitted c bucketKey msgs) key), (ctx_Get c key).
Qed.

Lemma submitted_snoc c bucketKey msgs from pl :
  submitted c bucketKey (msgs ++ [(from, pl)]) = ctx_Update (submitted c bucketKey msgs) bucketKey (accumulate from pl).
Proof. unfold submitted. by rewrite foldl_app. Qed.

Lemma submitted_session c bucketKey msgs : CtxSessionID (submitted c bucketKey msgs) = CtxSessionID c.
Proof. revert c. induction msgs as [|m msgs IH]; intros c; [done|]. exact (IH (ctx_Update c _ _)). Qed.

Lemma submitted_messages c bucketKey msgs other :
  bucketKey <> other -> AccumulatedMessages (submitted c bucketKey msgs) other = AccumulatedMessages c other.
Proof. intros Hne. unfold AccumulatedMessages. by rewrite submitted_get. Qed.

#[export] Hint Rewrite submitted_session : hook.
#[export] Hint Rewrite @submitted_other submitted_get submitted_messages using discriminate : hook.

(** Feed messages to a session until a dispatch panics. *)
Fixpoint serve (ty : string) (s : session) (msgs : list (string * bytes)) : option session :=
  match msgs with
  | [] => Some s
  | m :: msgs' =>
      match s_message s ty m.1 m.2 with
      | (_, Unwind _) => None
      | (s', _) => serve ty s' msgs'
      end
  end.

Lemma serve_feed ty s msgs s' : serve ty s msgs = Some s' -> feed ty s msgs = s'.
Proof.
  revert s. induction msgs as [|m msgs IH]; intros s; cbn [serve feed foldl]; [by intros [= ->]|].
  destruct (s_message s ty m.1 m.2) as [s1 []]; intros Hs; try done; by apply IH.
Qed.

Lemma serve_app ty s msgs msgs' : serve ty s (msgs ++ msgs') = s1 ← serve ty s msgs; serve ty s1 msgs'.
Proof.
  revert s. induction msgs as [|m msgs IH]; intros s; [done|]. cbn [serve app].
  destruct (s_message s ty m.1 m.2) as [s1 []]; (done || apply IH).
Qed.

(** A round: the last message completes the quorum and no earlier one does. *)
Definition full_round (participants : list string) (msgs : list (string * bytes)) : Prop :=
  exists pre from pl, msgs = pre ++ [(from, pl)] /\ from ∉ pre.*1 /\
    length participants = S (size (list_to_set pre.*1 : gset string)).

Lemma full_round_size participants msgs : full_round participants msgs -> msize (latest msgs) = zlen participants.
Proof.
  intros (pre & from & pl & -> & Hf & Hlen). unfold zlen.
  rewrite latest_size, Hlen, fmap_app, list_to_set_app_L, size_union by set_solver.
  cbn [fmap list_fmap fst]. rewrite list_to_set_singleton_L, size_singleton. lia.
Qed.

Section rounds.
Context (p : Phase) (ty participantsKey bucketKey : string).
Hypothesis Hp : collects p ty participantsKey bucketKey.

Lemma collect_message rest c en participants from pl :
  TryGet as_strings c participantsKey = Some participants ->
  let c1 := ctx_Update c bucketKey (accumulate from pl) in
  s_message (mkSession c (p :: rest) en) ty from pl =
  if zlen participants <=? msize (AccumulatedMessages c1 bucketKey) then leave p rest en c1
  else (mkSession c1 (p :: rest) en, Good false).
Proof.
  intros Hps c1. destruct Hp as [Hc Hm Hq Hk]. unfold s_message. cbn [s_rest s_ctx s_entered]. rewrite Hc. cbn [negb].
  unfold guarded at 1. rewrite Hm, Hq. unfold collect, quorum. hooks.
  rewrite (TryGet_update_ne as_strings c _ _ _ Hk), Hps. hooks. fold c1. unfold QuorumReached.
  rewrite MessageCount_bucket. by destruct (_ <=? _).
Qed.

Lemma serve_waits rest c en participants msgs :
  TryGet as_strings c participantsKey = Some participants -> ctx_Get c bucketKey = None ->
  (size (list_to_set msgs.*1 : gset string) < length participants)%nat ->
  serve ty (mkSession c (p :: rest) en) msgs = Some (mkSession (submitted c bucketKey msgs) (p :: rest) en).
Proof.
  intros Hps Hb. induction msgs as [|[from pl] msgs IH] using rev_ind; intros Hn; [done|].
  rewrite serve_app, IH.
  2:{ eapply Nat.le_lt_trans; [|exact Hn]. apply subseteq_size. rewrite fmap_app, list_to_set_app. set_solver. }
  cbn [serve mbind option_bind fst snd]. rewrite (collect_message rest _ en participants).
  2:{ rewrite submitted_other; [done|apply (co_keys _ _ _ _ Hp)]. }
  rewrite <- submitted_snoc, submitted_latest, latest_size by done.
  destruct (zlen participants <=? _) eqn:Hq; [|done]. unfold zlen in Hq. lia.
Qed.

Lemma feed_waits rest c en participants msgs :
  TryGet as_strings c participantsKey = Some participants -> ctx_Get c bucketKey = None ->
  (size (list_to_set msgs.*1 : gset string) < length participants)%nat ->
  feed ty (mkSession c (p :: rest) en) msgs = mkSession (submitted c bucketKey msgs) (p :: rest) en.
Proof. intros Hps Hb Hn. by apply serve_feed, (serve_waits rest c en participants). Qed.

(** The message that completes the round leaves the phase. *)
Lemma round_message rest c en participants pre from pl :
  TryGet as_strings c participantsKey = Some participants -> ctx_Get c bucketKey = None ->
  from ∉ pre.*1 -> length participants = S (size (list_to_set pre.*1 : gset string)) ->
  s_message (feed ty (mkSession c (p :: rest) en) pre) ty from pl =
  leave p rest en (submitted c bucketKey (pre ++ [(from, pl)])).
Proof.
  intros Hps Hb Hf Hlen. rewrite (feed_waits rest c en participants) by (done || lia).
  rewrite (collect_message rest _ en participants).
  2:{ rewrite submitted_other; [done|apply (co_keys _ _ _ _ Hp)]. }
  rewrite <- submitted_snoc, submitted_latest by done.
  rewrite (full_round_size participants); [by rewrite Z.leb_refl|]. by exists pre, from, pl.
Qed.

Lemma round_serves rest c en participants msgs b :
  TryGet as_strings c participantsKey = Some participants -> ctx_Get c bucketKey = None ->
  full_round participants msgs -> (leave p rest en (submitted c bucketKey msgs)).2 = Good b ->
  serve ty (mkSession c (p :: rest) en) msgs = Some (leave p rest en (submitted c bucketKey msgs)).1.
Proof.
  intros Hps Hb (pre & from & pl & -> & Hf & Hlen) Hgood.
  pose proof (feed_waits rest c en participants pre Hps Hb ltac:(lia)) as Hw.
  rewrite serve_app, (serve_waits rest c en participants pre) by (done || lia). cbn [mbind option_bind serve fst snd].
  rewrite <- Hw, (round_message rest c en participants) by done.
  by destruct (leave p rest en _) as [s' []].
Qed.

Lemma round_leaves rest c en participants msgs :
  TryGet as_strings c participantsKey = Some participants -> ctx_Get c bucketKey = None ->
  full_round participants msgs ->
  feed ty (mkSession c (p :: rest) en) msgs = (leave p rest en (submitted c bucketKey msgs)).1.
Proof.
  intros Hps Hb (pre & from & pl & -> & Hf & Hlen). unfold feed at 1. rewrite foldl_app. cbn [foldl fst snd].
  fold (feed ty (mkSession c (p :: rest) en) pre). by rewrite (round_message rest c en participants).
Qed.
End rounds.
End Collecting.
