(* ===== verification/BoundCheck.v ===== *)
(** * The bound-check phase ([pkg/ares/phase/boundcheck]: bound.go, circuits.go, phase.go)

    The homomorphic bound check between submission and scoring: computation of
    the check ciphertexts and their commitments, quorum of partial decrypts,
    classification, and attribution of violators. *)

From Stdlib Require Import SpecFloat.
From S2P Require Import Prelude Sha256 Float64 Lineage LineageStore PhaseTypes Compose Runner Defaults.
Import Sha256 Lineage LineageStore PhaseTypes Compose Defaults.

#[local] Open Scope Z_scope.
#[local] Open Scope go_scope.
#[local] Open Scope prog_scope.

Module BoundCheck.

(** ** Bounds *)

Record Bound := mkBound { Lo : float64; Hi : float64 }.

Inductive Severity := SeverityOK | SeveritySoft | SeverityHard.

#[export] Instance Severity_eq_decision : EqDecision Severity.
Proof. solve_decision. Defined.

Record Params := mkParams { EpsNorm : float64; NuHard : float64 }.

Definition DefaultParams : Params := mkParams (f64_lit 1 2) (f64_lit 125 2).

Definition classify (value : float64) (b : Bound) (p : Params) : float64 * Severity :=
  let nu := f64_max f64_zero (f64_max (f64_sub (Lo b) value) (f64_sub value (Hi b))) in
  if f64_le nu (EpsNorm p) then (nu, SeverityOK)
  else if f64_le nu (NuHard p) then (nu, SeveritySoft)
  else (nu, SeverityHard).

(** ** Context keys and messages *)

Definition CtxEncryptedInputs : string := "boundcheck.encrypted_inputs".
Definition CtxInputDim : string := "boundcheck.input_dim".
Definition CtxEvalKeyBundle : string := "boundcheck.eval_key_bundle".
Definition CtxJointPublicKey : string := "boundcheck.joint_public_key".
Definition CtxBoundCheckCiphers : string := "boundcheck.check_ciphertexts".
Definition CtxBoundCheckCommitments : string := "boundcheck.check_commitments".
Definition CtxBoundCheckHandle : string := "boundcheck.handle".
Definition CtxBoundCheckFuse : string := "boundcheck.fuse".
Definition MsgBoundPartial : string := "bound_check.partial".
Definition bucketPartials : string := "boundcheck.bucket.partials".

(** ** Circuits *)

(** The operations of [fhecalib.ContextHandle] the circuits use; a handle is
    its identifier. *)
Class ContextHandles := {
  EvalSubConst : string -> bytes -> list float64 -> gerror + bytes;
  EvalProductSum : string -> bytes -> bytes -> Z -> gerror + bytes
}.

(** [BoundCircuit]; the single encrypted input is [enc[0]]. *)
Record BoundCircuit := mkCircuit {
  bc_Name : string;
  bc_Inputs : list (list float64);
  bc_Expected : list float64 -> list float64;
  bc_Eval : string -> bytes -> gerror + bytes;
  bc_Bound : Bound;
  bc_Dim : Z
}.

Definition sumOfSquares (v : list float64) : float64 :=
  foldl (fun s x => f64_add s (f64_mul x x)) f64_zero v.

Section circuits.
Context `{ContextHandles}.

Definition NormCircuit (Eps : float64) (NDim : Z) : BoundCircuit := {|
  bc_Name := "norm";
  bc_Inputs := [replicate (Z.to_nat NDim) (f64_div f64_one (f64_sqrt (f64_of_Z NDim)))];
  bc_Expected := fun v => [sumOfSquares v];
  bc_Eval := fun h enc => EvalProductSum h enc enc NDim;
  bc_Bound := mkBound (f64_sub f64_one Eps) (f64_add f64_one Eps);
  bc_Dim := NDim |}.

(** [Expected] indexes the center by the input's positions, so an input longer
    than the center panics; calibration inputs have its length. *)
Definition DistanceBoundCircuit (Center : list float64) (lo hi : float64) : BoundCircuit := {|
  bc_Name := "distance";
  bc_Inputs := [Center];
  bc_Expected := fun v =>
    [foldl (fun s xc => let d := f64_sub xc.1 xc.2 in f64_add s (f64_mul d d)) f64_zero (zip v Center)];
  bc_Eval := fun h enc =>
    match EvalSubConst h enc Center with
    | inl err => inl err
    | inr shifted => EvalProductSum h shifted shifted (zlen Center)
    end;
  bc_Bound := mkBound lo hi;
  bc_Dim := zlen Center |}.
End circuits.

(** ** The phase *)

Abbreviation Fuse := (list bytes -> Z -> gerror + list float64).

(** The application's handler is a program on the session's context whose
    error is discarded. *)
Abbreviation ViolationHandler := (string -> float64 -> Severity -> Prog (option gerror)).

Record BoundPhase := mkBoundPhase {
  circuit : BoundCircuit;
  handler : option ViolationHandler;
  params : Params;
  entryState : SessionState;
  exitState : SessionState;
  handle : option string;
  fuse : option Fuse
}.

Definition NewPhase (c : BoundCircuit) (h : option ViolationHandler) (p : Params) (entry exit : SessionState)
    : BoundPhase := mkBoundPhase c h p entry exit None None.

Definition NewPhaseWithCrypto (c : BoundCircuit) (h : option ViolationHandler) (p : Params)
    (entry exit : SessionState) (hd : option string) (f : option Fuse) : BoundPhase :=
  mkBoundPhase c h p entry exit hd f.

Definition as_handle (v : any) : option string := match v with VHandle h => Some h | _ => None end.
Definition as_fuse (v : any) : option Fuse := match v with VFuse f => Some f | _ => None end.

Definition or_else {A} (o o' : option A) : option A := match o with Some _ => o | None => o' end.

Section phase.
(** [decode] is [json.Unmarshal] of a party-to-partial map. *)
Context `{GoRange} (decode : bytes -> option (gmap string bytes)).

(** [check_commitment_i]: the digest of [enc_check_i], the digest of [enc_x_i]
    and the session id. *)
Definition commitment (encCheck encInput : bytes) (sessionID : string) : bytes :=
  sha256 (encCheck ++ sha256 encInput ++ bytes_of_string sessionID).

(** The loop of [Enter] over the encrypted inputs. *)
Fixpoint eval_checks (p : BoundPhase) (hd : string) (sessionID : string) (inputs : list (string * bytes))
    (checks commitments : gmap string bytes) : gerror + (gmap string bytes * gmap string bytes) :=
  match inputs with
  | [] => inr (checks, commitments)
  | (party, encInput) :: inputs' =>
      match bc_Eval (circuit p) hd encInput with
      | inl err => inl (Errorf "%w: boundcheck: eval circuit for party %s: %w" [party] [ESentinel ErrTransient; err])
      | inr encCheck =>
          eval_checks p hd sessionID inputs' (<[party := encCheck]> checks)
            (<[party := commitment encCheck encInput sessionID]> commitments)
      end
  end.

Definition bc_Enter (p : BoundPhase) : Prog (option gerror) :=
  let* c := hContext in
  match TryGet as_int c CtxInputDim with
  | None => Ret (Some (permanent "%w: boundcheck: context key %q not set" [CtxInputDim]))
  | Some dim =>
      if dim <? 2 then
        Ret (Some (permanent "%w: boundcheck: input dim %d < 2; scalar bounds need a Class-2 comparison circuit" [pretty dim]))
      else if negb (dim =? bc_Dim (circuit p)) then
        Ret (Some (permanent "%w: boundcheck: CtxInputDim %d != circuit dim %d" [pretty dim; pretty (bc_Dim (circuit p))]))
      else match or_else (handle p) (TryGet as_handle c CtxBoundCheckHandle) with
      | None => Ret None
      | Some hd =>
          match TryGet as_bucket c CtxEncryptedInputs with
          | None => Ret (Some (permanent "%w: boundcheck: context key %q not set" [CtxEncryptedInputs]))
          | Some encInputs =>
              match eval_checks p hd (CtxSessionID c) (range_of encInputs) ∅ ∅ with
              | inl err => Ret (Some err)
              | inr (checks, commitments) =>
                  hSet CtxBoundCheckCiphers (VBucket checks) ;;
                  hSet CtxBoundCheckCommitments (VBucket commitments) ;; Ret None
              end
          end
      end
  end.

Definition bc_OnMessage (_ from : string) (payload : bytes) : Prog (option gerror) :=
  AccumulateMessage bucketPartials from payload ;; Ret None.

Definition bc_CheckComplete : Prog bool :=
  let* c := hContext in
  match TryGet as_strings c CtxParticipants with
  | None => Ret false
  | Some participants => Ret (QuorumReached c bucketPartials (zlen participants))
  end.

(** Decode each sender's map. *)
Fixpoint decode_maps (raws : list (string * bytes)) (acc : gmap string (gmap string bytes))
    : gerror + gmap string (gmap string bytes) :=
  match raws with
  | [] => inr acc
  | (sender, raw) :: raws' =>
      match decode raw with
      | None => inl (Errorf "%w: boundcheck: decode partial map from %s: %w" [sender] [ESentinel ErrTransient])
      | Some m => decode_maps raws' (<[sender := m]> acc)
      end
  end.

Record violation := mkViolation { v_party : string; v_nu : float64; v_sev : Severity }.

(** The inner loop: the partials of one check ciphertext in participant order,
    the senders that withheld theirs, and whether all are there. *)
Fixpoint collect (senderMaps : gmap string (gmap string bytes)) (checkedParty : string)
    (senders : list string) (withholding : gmap string unit) : list bytes * gmap string unit * bool :=
  match senders with
  | [] => ([], withholding, true)
  | sender :: senders' =>
      match (senderMap ← senderMaps !! sender; senderMap !! checkedParty) with
      | None =>
          let '(partials, w, _) := collect senderMaps checkedParty senders' (<[sender := tt]> withholding) in
          (partials, w, false)
      | Some blob =>
          let '(partials, w, complete) := collect senderMaps checkedParty senders' withholding in
          (blob :: partials, w, complete)
      end
  end.

(** The loop over the checked parties. *)
Fixpoint check_parties (p : BoundPhase) (fuse : Fuse) (participants : list string)
    (senderMaps : gmap string (gmap string bytes)) (checked : list string)
    (violators : list violation) (withholding : gmap string unit)
    : gerror + (list violation * gmap string unit) :=
  match checked with
  | [] => inr (violators, withholding)
  | checkedParty :: checked' =>
      let '(partialsForI, withholding, quorumComplete) :=
        collect senderMaps checkedParty participants withholding in
      if negb quorumComplete then
        check_parties p fuse participants senderMaps checked' violators withholding
      else match fuse partialsForI 1 with
      | inl err => inl (Errorf "%w: boundcheck: fuse partials for checked party %s: %w" [checkedParty]
                          [ESentinel ErrTransient; err])
      | inr [] => inl (Errorf "%w: boundcheck: fuse returned no values for checked party %s" [checkedParty]
                         [ESentinel ErrTransient])
      | inr (value :: _) =>
          let '(nu, sev) := classify value (bc_Bound (circuit p)) (params p) in
          let violators := if bool_decide (sev = SeverityOK) then violators
                           else violators ++ [mkViolation checkedParty nu sev] in
          check_parties p fuse participants senderMaps checked' violators withholding
      end
  end.

(** Everything [Exit] decides before it calls the handler. *)
Definition assess (p : BoundPhase) (fuse : Fuse) (participants : list string) (raw : gmap string bytes)
    : gerror + list violation :=
  match decode_maps (range_of raw) ∅ with
  | inl err => inl err
  | inr senderMaps =>
      match check_parties p fuse participants senderMaps participants [] ∅ with
      | inl err => inl err
      | inr (violators, withholding) =>
          let nuMissing := f64_add (NuHard (params p)) f64_one in
          inr (violators ++ ((fun s => mkViolation s nuMissing SeverityHard) <$> (range_of withholding).*1))
      end
  end.

(** The notification loop; the handler's errors are dropped. *)
Fixpoint notify (h : option ViolationHandler) (vs : list violation) : Prog unit :=
  match vs with
  | [] => Ret tt
  | v :: vs' =>
      match h with
      | None => notify h vs'
      | Some f => let* _ := f (v_party v) (v_nu v) (v_sev v) in notify h vs'
      end
  end.

Definition boundViolation : gerror := Errorf "%w: bound violation" [] [ESentinel ErrAppAttributable].

(** The jitter sleep before the abort has no effect on the state. *)
Definition bc_Exit (p : BoundPhase) : Prog (option gerror) :=
  let* c := hContext in
  match or_else (fuse p) (TryGet as_fuse c CtxBoundCheckFuse) with
  | None => Ret None
  | Some f =>
      let participants := default [] (TryGet as_strings c CtxParticipants) in
      match assess p f participants (AccumulatedMessages c bucketPartials) with
      | inl err => Ret (Some err)
      | inr [] => Ret None
      | inr violators => notify (handler p) violators ;; Ret (Some boundViolation)
      end
  end.

Definition bound_phase (p : BoundPhase) : Phase := {|
  Name := "bound-check"; Lifetime := LifetimePerSession; RunsAt := RunsAtInline;
  EntryState := entryState p; ExitState := exitState p; InternalStates := [];
  ConsumedMessageTypes := [MsgBoundPartial];
  Requires := schema
    [(CtxEncryptedInputs, needs "map[string][]byte"); (CtxInputDim, needs "int");
     (CtxEvalKeyBundle, needs "[]byte"); (CtxJointPublicKey, needs "[]byte");
     (CtxParticipants, needs "[]string")];
  Provides := schema
    [(CtxBoundCheckCiphers, gives "map[string][]byte"); (CtxBoundCheckCommitments, gives "map[string][]byte")];
  Enter := bc_Enter p; OnMessage := bc_OnMessage; CheckComplete := bc_CheckComplete; Exit := bc_Exit p |}.
End phase.

(** ** What a round must establish *)

(** The partial of [sender] for the check ciphertext of [party]. *)
Definition partial_of (senderMaps : gmap string (gmap string bytes)) (party sender : string) : option bytes :=
  senderMap ← senderMaps !! sender; senderMap !! party.

(** [sender] left out some participant's partial. *)
Definition withheld senderMaps (participants : list string) (sender : string) : Prop :=
  sender ∈ participants /\ exists party, party ∈ participants /\ partial_of senderMaps party sender = None.

(** All participants' partials for [party], in participant order. *)
Definition all_partials senderMaps (participants : list string) (party : string) : option (list bytes) :=
  mapM (partial_of senderMaps party) participants.

(** [party]'s fused check value is classified out of bounds as [v] says. *)
Definition out_of_bound (p : BoundPhase) (f : Fuse) senderMaps participants (v : violation) : Prop :=
  v_party v ∈ participants /\ v_sev v <> SeverityOK /\
  exists partials value rest,
    all_partials senderMaps participants (v_party v) = Some partials /\
    f partials 1 = inr (value :: rest) /\
    classify value (bc_Bound (circuit p)) (params p) = (v_nu v, v_sev v).

Definition missing_violation (p : BoundPhase) (sender : string) : violation :=
  mkViolation sender (f64_add (NuHard (params p)) f64_one) SeverityHard.

Lemma all_partials_cons senderMaps s senders party :
  all_partials senderMaps (s :: senders) party =
  (b ← partial_of senderMaps party s; bs ← all_partials senderMaps senders party; Some (b :: bs)).
Proof. done. Qed.

Lemma collect_spec senderMaps party senders w :
  let '(partials, w', complete) := collect senderMaps party senders w in
  (if complete then all_partials senderMaps senders party = Some partials
   else all_partials senderMaps senders party = None) /\
  forall s, is_Some (w' !! s) <-> is_Some (w !! s) \/ (s ∈ senders /\ partial_of senderMaps party s = None).
Proof.
  revert w. induction senders as [|s senders IH]; intros w; cbn [collect].
  { split; [done|]. intros s. set_solver. }
  fold (partial_of senderMaps party s). rewrite all_partials_cons.
  destruct (partial_of senderMaps party s) as [blob|] eqn:Hb.
  - specialize (IH w). destruct (collect senderMaps party senders w) as [[partials w'] complete].
    destruct IH as [Hp Hw]. split.
    + destruct complete; cbn; by rewrite Hp.
    + intros s'. rewrite Hw, elem_of_cons. naive_solver.
  - specialize (IH (<[s := tt]> w)). destruct (collect senderMaps party senders _) as [[partials w'] complete].
    destruct IH as [_ Hw]. split; [done|].
    intros s'. rewrite Hw, lookup_insert_is_Some', elem_of_cons. naive_solver.
Qed.

Section assess.
Context (p : BoundPhase) (f : Fuse) (participants : list string) (senderMaps : gmap string (gmap string bytes)).

Lemma check_parties_spec checked vs w vs' w' :
  checked ⊆ participants ->
  check_parties p f participants senderMaps checked vs w = inr (vs', w') ->
  (forall s, is_Some (w' !! s) <-> is_Some (w !! s) \/
     (s ∈ participants /\ exists i, i ∈ checked /\ partial_of senderMaps i s = None)) /\
  (forall v, v ∈ vs' <-> v ∈ vs \/ (v_party v ∈ checked /\ out_of_bound p f senderMaps participants v)).
Proof.
  revert vs w. induction checked as [|i checked IH]; intros vs w Hsub; cbn [check_parties].
  { intros [= <- <-]. split; intros; set_solver. }
  assert (Hi : i ∈ participants) by set_solver. assert (Hsub' : checked ⊆ participants) by set_solver.
  pose proof (collect_spec senderMaps i participants w) as Hc.
  destruct (collect senderMaps i participants w) as [[partials w1] complete]. destruct Hc as [Hp Hw].
  assert (Hstep : forall s, (is_Some (w1 !! s) \/ (s ∈ participants /\ exists j, j ∈ checked /\ partial_of senderMaps j s = None))
    <-> is_Some (w !! s) \/ (s ∈ participants /\ exists j, j ∈ i :: checked /\ partial_of senderMaps j s = None)).
  { intros s. rewrite Hw. setoid_rewrite elem_of_cons. naive_solver. }
  destruct complete; cbn [negb].
  2:{ intros Hr. destruct (IH _ _ Hsub' Hr) as [Hs Hv]. split; [intros s; by rewrite Hs|].
      intros v. rewrite Hv, elem_of_cons. split; [naive_solver|]. intros [?|[[Heq|?] Ho]]; [by left| |by right].
      destruct Ho as (_ & _ & ? & ? & ? & Hall & _). congruence. }
  destruct (f partials 1) as [err|[|value rest]] eqn:Hf; [done|done|].
  destruct (classify value (bc_Bound (circuit p)) (params p)) as [nu sev] eqn:Hcl.
  intros Hr. destruct (IH _ _ Hsub' Hr) as [Hs Hv]. split; [intros s; by rewrite Hs|].
  assert (Hown : forall v, v_party v = i ->
    out_of_bound p f senderMaps participants v <-> v = mkViolation i nu sev /\ sev <> SeverityOK).
  { intros [party' nu' sev'] Heq. cbn in Heq. subst party'. unfold out_of_bound. cbn. split.
    - intros (_ & Hne & ps & val & rst & Hall & Hfu & Hcl'). rewrite Hp in Hall. simplify_eq.
      rewrite Hf in Hfu. simplify_eq. rewrite Hcl in Hcl'. by simplify_eq.
    - intros [[= -> ->] Hne]. split_and!; [done|done|]. by exists partials, value, rest. }
  intros v. rewrite Hv, elem_of_cons.
  case_bool_decide as Hok.
  - split; [naive_solver|]. intros [?|[[Heq|?] Ho]]; [by left| |by right].
    by apply (Hown _ Heq) in Ho as [_ ?].
  - rewrite elem_of_app, list_elem_of_singleton. split.
    + intros [[?| ->]|?]; [by left| |naive_solver]. right. split; [by left|]. by apply Hown.
    + intros [?|[[Heq|?] Ho]]; [naive_solver| |naive_solver].
      left. right. by apply (Hown _ Heq) in Ho as [-> _].
Qed.
End assess.

Lemma violators_spec `{GoRange} decode p f participants raw senderMaps vs :
  decode_maps decode (range_of raw) ∅ = inr senderMaps ->
  assess decode p f participants raw = inr vs ->
  forall v, v ∈ vs <->
    out_of_bound p f senderMaps participants v \/
    (withheld senderMaps participants (v_party v) /\ v = missing_violation p (v_party v)).
Proof.
  intros Hd. unfold assess. rewrite Hd.
  destruct (check_parties _ _ _ _ _ _ _) as [err|[vs0 w]] eqn:Hc; [done|]. intros [= <-] v.
  destruct (check_parties_spec p f participants senderMaps participants _ _ _ _ ltac:(done) Hc) as [Hs Hv].
  rewrite elem_of_app, Hv. unfold withheld.
  assert (Hw : forall s, s ∈ (range_of w).*1 <-> withheld senderMaps participants s).
  { intros s. rewrite list_elem_of_fmap. unfold withheld. split.
    - intros ([s' []] & -> & Hin%elem_of_range). cbn.
      destruct (proj1 (Hs s') ltac:(by eexists)) as [Hx|?]; [|done]. rewrite lookup_empty in Hx. by destruct Hx.
    - intros Hx. destruct (proj2 (Hs s) ltac:(by right)) as [[] Hx']. exists (s, tt).
      split; [done|by apply elem_of_range]. }
  rewrite list_elem_of_fmap. setoid_rewrite Hw. unfold withheld, missing_violation. split.
  - intros [[?%not_elem_of_nil|[_ ?]]|(s & -> & ?)]; [done|by left|by right].
  - intros [Ho|[? ->]]; [left; right; split; [apply Ho|done]|right]. by eexists.
Qed.

(** Attribution is exact. When the check of a round reaches a verdict, the
    reported violators are precisely the participants whose fused check value,
    computed from every participant's partial in order, is classified out of
    bounds, and the senders that withheld some partial, each reported hard:
    nobody else is blamed and nobody is spared. *)
Lemma attribution_exact `{GoRange} decode p f participants raw senderMaps vs :
  decode_maps decode (range_of raw) ∅ = inr senderMaps ->
  assess decode p f participants raw = inr vs ->
  forall v, v ∈ vs <->
    out_of_bound p f senderMaps participants v \/
    (withheld senderMaps participants (v_party v) /\ v = missing_violation p (v_party v)).
Proof. apply violators_spec. Qed.

(** A check value that is not a number is a hard violation. *)
Lemma classify_nan b p : (classify S754_nan b p).2 = SeverityHard.
Proof. unfold classify. by destruct (Lo b), (Hi b). Qed.

Lemma run_context {St} `{Store St} `{Clock} {A} (k : SessionContext -> Prog A) (w : world St) :
  run (pbind hContext k) w = run (k (w_ctx w)) w.
Proof. destruct w as [[] ? ?]. reflexivity. Qed.

Lemma run_notify_not_None {St} `{Store St} `{Clock} h vs (w : world St) :
  (run (notify h vs ;; Ret (Some boundViolation)) w).2 <> Ok None.
Proof.
  destruct h as [f|]; [|by induction vs].
  revert w. induction vs as [|v vs IH]; intros w; [done|]. cbn [notify pbind].
  generalize (f (v_party v) (v_nu v) (v_sev v)). intros q. revert w.
  induction q as [a|msg|g k IHq|ph ro pl ps k IHq|k IHq]; intros w; cbn [pbind run]; [apply IH|done|..].
  - apply IHq.
  - destruct (CommitArtifact ph ro pl ps w). apply IHq.
  - apply IHq.
Qed.

Lemma all_partials_total senderMaps participants party :
  (forall s, s ∈ participants -> partial_of senderMaps party s <> None) ->
  exists partials, all_partials senderMaps participants party = Some partials.
Proof.
  intros Hall. assert (Hsome : is_Some (all_partials senderMaps participants party)).
  { apply mapM_is_Some, Forall_forall. intros s Hs. apply not_eq_None_Some. by apply Hall. }
  destruct Hsome; eauto.
Qed.

(** A verdict means every complete set of partials was fused to a value. *)
Lemma check_parties_fused p f participants senderMaps checked vs w res i partials :
  check_parties p f participants senderMaps checked vs w = inr res -> i ∈ checked ->
  all_partials senderMaps participants i = Some partials ->
  exists value rest, f partials 1 = inr (value :: rest).
Proof.
  revert vs w. induction checked as [|j checked IH]; intros vs w; cbn [check_parties];
    [by intros _ ?%not_elem_of_nil|].
  pose proof (collect_spec senderMaps j participants w) as Hc.
  destruct (collect senderMaps j participants w) as [[ps w1] complete]. destruct Hc as [Hp _].
  intros Hr Hi Hall. apply elem_of_cons in Hi as [->|Hi].
  - destruct complete; cbn [negb] in Hr; [|congruence].
    rewrite Hp in Hall. injection Hall as ->. destruct (f partials 1) as [|[|v rest]]; [done|done|eauto].
  - destruct complete; cbn [negb] in Hr; [|by eapply IH].
    destruct (f ps 1) as [|[|v rest]]; [done|done|].
    destruct (classify _ _ _) as [nu sev]. by eapply IH.
Qed.

(** Soundness of the round. In real mode [Exit] returns nil, so the
    session can reach scoring, only if every participant's check value was
    fused from the partials of all participants and classified in bound. *)
Lemma bound_check_sound {St} `{Store St} `{Clock} `{GoRange} decode p f (w : world St) party :
  or_else (fuse p) (TryGet as_fuse (w_ctx w) CtxBoundCheckFuse) = Some f ->
  (run (bc_Exit decode p) w).2 = Ok None ->
  party ∈ default [] (TryGet as_strings (w_ctx w) CtxParticipants) ->
  exists senderMaps partials value rest nu,
    decode_maps decode (range_of (AccumulatedMessages (w_ctx w) bucketPartials)) ∅ = inr senderMaps /\
    all_partials senderMaps (default [] (TryGet as_strings (w_ctx w) CtxParticipants)) party = Some partials /\
    f partials 1 = inr (value :: rest) /\
    classify value (bc_Bound (circuit p)) (params p) = (nu, SeverityOK).
Proof.
  intros Hf. unfold bc_Exit. rewrite run_context, Hf.
  set (participants := default [] (TryGet as_strings (w_ctx w) CtxParticipants)).
  set (raw := AccumulatedMessages (w_ctx w) bucketPartials). intros Hr Hin.
  destruct (assess decode p f participants raw) as [err|vs] eqn:Ha; [done|].
  destruct vs as [|v vs]; [|by apply run_notify_not_None in Hr].
  assert (Hd : exists sm, decode_maps decode (range_of raw) ∅ = inr sm).
  { unfold assess in Ha. destruct (decode_maps _ _ _); [done|eauto]. }
  destruct Hd as [sm Hd]. pose proof (fun v => proj2 (violators_spec decode p f participants raw sm [] Hd Ha v)) as Hnone.
  assert (Hc : exists res, check_parties p f participants sm participants [] ∅ = inr res).
  { unfold assess in Ha. rewrite Hd in Ha. destruct (check_parties _ _ _ _ _ _ _); [done|eauto]. }
  destruct Hc as [res Hc].
  destruct (all_partials_total sm participants party) as [partials Hall].
  { intros s Hs Hp. apply (not_elem_of_nil (missing_violation p s)), Hnone. right. cbn. split; [|done].
    split; [done|]. by exists party. }
  destruct (check_parties_fused _ _ _ _ _ _ _ _ _ _ Hc Hin Hall) as (value & rest & Hfu).
  destruct (classify value (bc_Bound (circuit p)) (params p)) as [nu sev] eqn:Hcl.
  exists sm, partials, value, rest, nu. split_and!; try done. rewrite Hcl. f_equal.
  destruct (decide (sev = SeverityOK)) as [|Hne]; [done|]. exfalso.
  apply (not_elem_of_nil (mkViolation party nu sev)), Hnone. left.
  split_and!; [done|done|]. by exists partials, value, rest.
Qed.

(** Within a session a check commitment binds the check ciphertext to the
    submitted one: equal commitments come from equal pairs, or exhibit a
    SHA-256 collision. *)
Lemma commitment_binds encCheck encInput encCheck' encInput' sid :
  commitment encCheck encInput sid = commitment encCheck' encInput' sid ->
  (encCheck = encCheck' /\ encInput = encInput') \/ collision encInput encInput' \/
  collision (encCheck ++ sha256 encInput ++ bytes_of_string sid)
            (encCheck' ++ sha256 encInput' ++ bytes_of_string sid).
Proof.
  intros [He|?]%sha256_inj_or; [|by do 2 right].
  rewrite !app_assoc in He. apply app_inj_2 in He as [He _]; [|done].
  apply app_inj_2 in He as [-> He]; [|by rewrite !sha256_length].
  apply sha256_inj_or in He as [->|?]; [by left|by right; left].
Qed.

(** ** Witnesses: two parties, one withholds *)

Section witnesses.
#[local] Instance bw_range : GoRange := sorted_range.
#[local] Instance bw_clock : Clock := fun _ => 0.
#[local] Instance bw_handles : ContextHandles := {|
  EvalSubConst := fun _ b _ => inr b; EvalProductSum := fun _ b _ _ => inr b |}.

Definition demo_decode (b : bytes) : option (gmap string bytes) :=
  match b with
  | [x01] => Some {[ "a" := [x0a]; "b" := [x0b] ]}
  | [x02] => Some {[ "a" := [x0c] ]}
  | _ => None
  end.

(** Fuses to the number one. *)
Definition demo_fuse : Fuse := fun _ _ => inr [f64_one].

Definition demo_phase : BoundPhase :=
  NewPhaseWithCrypto (NormCircuit (f64_lit 5 2) 2) None DefaultParams StateScoring StateDecrypting
    (Some "h") (Some demo_fuse).

Definition demo_raw : gmap string bytes := {[ "a" := [x01]; "b" := [x02] ]}.
Definition demo_maps : gmap string (gmap string bytes) :=
  {[ "a" := {[ "a" := [x0a]; "b" := [x0b] ]}; "b" := {[ "a" := [x0c] ]} ]}.

(** Party [b] withheld its partial of its own check and is the only violator. *)
Lemma attribution_exact_witness :
  let v := missing_violation demo_phase "b" in
  v ∈ [missing_violation demo_phase "b"] <->
    out_of_bound demo_phase demo_fuse demo_maps ["a"; "b"] v \/
    (withheld demo_maps ["a"; "b"] (v_party v) /\ v = missing_violation demo_phase (v_party v)).
Proof.
  intros v. apply (attribution_exact demo_decode demo_phase demo_fuse ["a"; "b"] demo_raw demo_maps).
  - vm_compute. reflexivity.
  - vm_compute. reflexivity.
Defined.

(** Both partials present: the value one is in [0.95, 1.05]. *)
Definition good_world : world InMemoryStore :=
  mkWorld (mkContext "s" "" {[ CtxParticipants := VStrings ["a"];
                               bucketPartials := VBucket {[ "a" := [x01] ]} ]} false None) None 0.

Lemma bound_check_sound_witness :
  exists senderMaps partials value rest nu,
    decode_maps demo_decode (range_of (AccumulatedMessages (w_ctx good_world) bucketPartials)) ∅ = inr senderMaps /\
    all_partials senderMaps ["a"] "a" = Some partials /\
    demo_fuse partials 1 = inr (value :: rest) /\
    classify value (bc_Bound (circuit demo_phase)) (params demo_phase) = (nu, SeverityOK).
Proof.
  apply (bound_check_sound demo_decode demo_phase demo_fuse good_world "a").
  - reflexivity.
  - vm_compute. reflexivity.
  - left.
Defined.
End witnesses.
End BoundCheck.
