(* ===== verification/Transport.v ===== *)
(** * The WebSocket hub ([pkg/ares/transport]: hub.go, validate.go,
    rate_limit.go, auth.go)

    Authentication, the envelope check, replay protection, the token bucket,
    the client registry and the bounded outbound queues.  Connections are
    objects of a heap, since a reader keeps its client after the registry has
    forgotten it.  The JSON form of the envelope and of time stamps is a
    parameter; log lines have no effect, and the close callback, which the service
    does not install, is left out. *)

From S2P Require Import Prelude Float64 Sha256 Lineage.
Import Sha256 Lineage.

#[local] Open Scope Z_scope.
#[local] Open Scope go_scope.

Module Transport.

Definition SendBufferSize : Z := 256.
Definition DefaultMaxMessageSize : Z := Z.shiftl 32 20.
Definition WireProtocolVersion : string := "1".
Definition WireProtocolVersionLineage : string := "2".

Record WSMessage := mkWSMessage {
  Version : string;
  Type_ : string;
  SessionID : string;
  Seq : Z;
  Payload : bytes;
  Timestamp : string;
  Lineage : option DAGNode
}.

#[export] Instance wsmessage_eta : Eta WSMessage := fun m =>
  mkWSMessage (Version m) (Type_ m) (SessionID m) (Seq m) (Payload m) (Timestamp m) (Lineage m).

(** [json.Marshal] and [json.Unmarshal] of the envelope, and
    [Format(time.RFC3339Nano)] of a time in nanoseconds. *)
Class Wire := {
  wire_encode : WSMessage -> option bytes;
  wire_decode : bytes -> option WSMessage;
  wire_time : Z -> string
}.

(** ** Envelope validation *)

Inductive FrameError := MissingLineage (v : string) | UnknownVersion (v : string).

Definition ValidateInboundMessage (msg : WSMessage) : option FrameError :=
  let v := if String.eqb (Version msg) "" then WireProtocolVersion else Version msg in
  if String.eqb v WireProtocolVersion then None
  else if String.eqb v WireProtocolVersionLineage then
    match Lineage msg with None => Some (MissingLineage v) | Some _ => None end
  else Some (UnknownVersion v).

(** ** Token bucket *)

Record rateLimiter := mkLimiter {
  capacity : float64;
  refillRate : float64;
  tokens : float64;
  lastTick : Z
}.

#[export] Instance limiter_eta : Eta rateLimiter := fun l =>
  mkLimiter (capacity l) (refillRate l) (tokens l) (lastTick l).

(** The nil limiter is [None]. *)
Definition newRateLimiter (rate burst : float64) (now : Z) : option rateLimiter :=
  if f64_le rate f64_zero || f64_le burst f64_zero then None
  else Some (mkLimiter burst rate burst now).

(** [now.Sub(t)], which saturates, and [Duration.Seconds]. *)
Definition time_Sub (now t : Z) : Z := Z.max (- 2 ^ 63) (Z.min (2 ^ 63 - 1) (now - t)).

Definition Seconds (d : Z) : float64 :=
  f64_add (f64_of_Z (Z.quot d 1000000000))
          (f64_div (f64_of_Z (Z.rem d 1000000000)) (f64_of_Z 1000000000)).

Definition refill (rl : rateLimiter) (now : Z) : rateLimiter :=
  let elapsed := Seconds (time_Sub now (lastTick rl)) in
  if f64_gt elapsed f64_zero then
    let t := f64_add (tokens rl) (f64_mul elapsed (refillRate rl)) in
    rl <| tokens := if f64_gt t (capacity rl) then capacity rl else t |> <| lastTick := now |>
  else rl.

Definition Allow (rl : option rateLimiter) (now : Z) : option rateLimiter * bool :=
  match rl with
  | None => (None, true)
  | Some rl =>
      let rl := refill rl now in
      if f64_ge (tokens rl) f64_one then (Some (rl <| tokens := f64_sub (tokens rl) f64_one |>), true)
      else (Some rl, false)
  end.

(** ** Authentication *)

Record AuthMiddleware := mkAuth { Secret : bytes; AllowDevBypass : bool }.

Definition GenerateToken (m : AuthMiddleware) (pseudonym : string) : string :=
  hex_encode (hmac_sha256 (Secret m) (bytes_of_string pseudonym)).

Definition ValidateToken (m : AuthMiddleware) (pseudonym token : string) : bool :=
  if zlen (Secret m) =? 0 then AllowDevBypass m
  else String.eqb (hex_encode (hmac_sha256 (Secret m) (bytes_of_string pseudonym))) token.

(** ** The hub *)

Record Client := mkClient {
  Pseudonym : string;
  Send : list bytes;
  limiter : option rateLimiter
}.

#[export] Instance client_eta : Eta Client := fun c => mkClient (Pseudonym c) (Send c) (limiter c).

(** [clients] holds pointers into [conns], the connections whose reader is
    still running; [nextConn] is the next pointer. *)
Record Hub := mkHub {
  clients : gmap string nat;
  conns : gmap nat Client;
  nextConn : nat;
  auth : AuthMiddleware;
  allowedOrigins : list string;
  allowAnyOrigin : bool;
  maxMessageSize : Z;
  inboundRate : float64;
  inboundBurst : float64;
  seqHigh : gmap string Z
}.

#[export] Instance hub_eta : Eta Hub := fun h =>
  mkHub (clients h) (conns h) (nextConn h) (auth h) (allowedOrigins h) (allowAnyOrigin h)
    (maxMessageSize h) (inboundRate h) (inboundBurst h) (seqHigh h).

Record HubOptions := mkHubOptions {
  AllowedOrigins : list string;
  AllowAnyOrigin : bool;
  MaxMessageSize : Z;
  InboundRate : float64;
  InboundBurst : float64
}.

Definition NewHubWithOptions (a : AuthMiddleware) (opts : HubOptions) : Hub :=
  let maxMsg := if MaxMessageSize opts <=? 0 then DefaultMaxMessageSize else MaxMessageSize opts in
  mkHub ∅ ∅ 0 a (AllowedOrigins opts) (AllowAnyOrigin opts) maxMsg (InboundRate opts) (InboundBurst opts) ∅.

Definition NewHub (a : AuthMiddleware) : Hub :=
  NewHubWithOptions a (mkHubOptions [] true 0 f64_zero f64_zero).

(** The upgrader's [CheckOrigin] on the [Origin] header. *)
Definition CheckOrigin (h : Hub) (origin : string) : bool :=
  if String.eqb origin "" then true
  else if allowAnyOrigin h && (zlen (allowedOrigins h) =? 0) then true
  else existsb (String.eqb origin) (allowedOrigins h).

Definition seq_key (pseudonym : string) (msg : WSMessage) : string :=
  (SessionID msg +:+ "|" +:+ pseudonym +:+ "|" +:+ Type_ msg)%string.

Definition checkAndRecordSeq (h : Hub) (pseudonym : string) (msg : WSMessage) : Hub * bool :=
  if Seq msg =? 0 then (h, true)
  else
    let key := seq_key pseudonym msg in
    match seqHigh h !! key with
    | Some last =>
        if Seq msg <=? last then (h, false)
        else (h <| seqHigh := <[key := Seq msg]> (seqHigh h) |>, true)
    | None => (h <| seqHigh := <[key := Seq msg]> (seqHigh h) |>, true)
    end.

(** How an upgrade request ends; [handshake] is whether the rest of
    [upgrader.Upgrade] succeeds. *)
Inductive upgrade := MissingPseudonym | InvalidAuth | UpgradeFailed | Upgraded (conn : nat).

Definition HandleWS (h : Hub) (now : Z) (pseudonym token origin : string) (handshake : bool)
    : Hub * upgrade :=
  if String.eqb pseudonym "" then (h, MissingPseudonym)
  else if negb (ValidateToken (auth h) pseudonym token) then (h, InvalidAuth)
  else if negb (CheckOrigin h origin && handshake) then (h, UpgradeFailed)
  else
    let client := mkClient pseudonym [] (newRateLimiter (inboundRate h) (inboundBurst h) now) in
    let p := nextConn h in
    (h <| conns := <[p := client]> (conns h) |> <| nextConn := S p |>
       <| clients := <[pseudonym := p]> (clients h) |>, Upgraded p).

(** The deferred cleanup of [readPump]: the registry entry of the pseudonym
    goes, whichever connection it points to. *)
Definition closeConn (h : Hub) (p : nat) : Hub :=
  match conns h !! p with
  | None => h
  | Some c => h <| clients := delete (Pseudonym c) (clients h) |> <| conns := delete p (conns h) |>
  end.

Inductive frame_result := NoConn | ReadError | BadJSON | Invalid (e : FrameError) | Replay | RateLimited
  | Delivered (from : string) (msg : WSMessage).

Section hub.
Context `{Wire}.

(** One turn of [readPump] on a frame of [data]; a frame over the read limit
    is a read error. *)
Definition readFrame (h : Hub) (p : nat) (now : Z) (data : bytes) : Hub * frame_result :=
  match conns h !! p with
  | None => (h, NoConn)
  | Some c =>
      if maxMessageSize h <? zlen data then (closeConn h p, ReadError)
      else match wire_decode data with
      | None => (h, BadJSON)
      | Some msg =>
          match ValidateInboundMessage msg with
          | Some e => (h, Invalid e)
          | None =>
              let '(h, fresh) := checkAndRecordSeq h (Pseudonym c) msg in
              if negb fresh then (h, Replay)
              else
                let '(rl, allowed) := Allow (limiter c) now in
                let h := h <| conns := <[p := c <| limiter := rl |>]> (conns h) |> in
                if negb allowed then (h, RateLimited) else (h, Delivered (Pseudonym c) msg)
          end
      end
  end.

(** [select { case client.Send <- data: default: }] *)
Definition enqueue (h : Hub) (p : nat) (data : bytes) : Hub :=
  match conns h !! p with
  | None => h
  | Some c =>
      if zlen (Send c) <? SendBufferSize then h <| conns := <[p := c <| Send := Send c ++ [data] |>]> (conns h) |>
      else h
  end.

(** [false] when the message cannot be marshalled. *)
Definition SendTo (h : Hub) (now : Z) (pseudonym : string) (msg : WSMessage) : Hub * bool :=
  match wire_encode (msg <| Timestamp := wire_time now |>) with
  | None => (h, false)
  | Some data =>
      match clients h !! pseudonym with
      | None => (h, true)
      | Some p => (enqueue h p data, true)
      end
  end.

(** A marshalling error leaves nil data, which is sent all the same. *)
Definition Broadcast `{GoRange} (h : Hub) (now : Z) (msg : WSMessage) : Hub :=
  let data := default [] (wire_encode (msg <| Timestamp := wire_time now |>)) in
  foldl (fun h e => enqueue h (snd e) data) h (range_of (clients h)).

Definition BroadcastToSession (h : Hub) (now : Z) (sessionID : string) (pseudonyms : list string)
    (msg : WSMessage) : Hub :=
  let data := default [] (wire_encode (msg <| Timestamp := wire_time now |> <| SessionID := sessionID |>)) in
  foldl (fun h p => match clients h !! p with Some c => enqueue h c data | None => h end) h pseudonyms.

Definition IsConnected (h : Hub) (pseudonym : string) : bool :=
  match clients h !! pseudonym with Some _ => true | None => false end.

Definition ConnectedCount (h : Hub) : Z := msize (clients h).

(** [writePump] takes the next frame of the queue. *)
Definition takeSend (h : Hub) (p : nat) : Hub * option bytes :=
  match conns h !! p with
  | Some c =>
      match Send c with
      | [] => (h, None)
      | data :: rest => (h <| conns := <[p := c <| Send := rest |>]> (conns h) |>, Some data)
      end
  | None => (h, None)
  end.
End hub.

(** ** Runs of the hub *)

Inductive hub_op :=
  | OpConnect (now : Z) (pseudonym token origin : string) (handshake : bool)
  | OpFrame (conn : nat) (now : Z) (data : bytes)
  | OpClose (conn : nat)
  | OpSendTo (now : Z) (pseudonym : string) (msg : WSMessage)
  | OpBroadcast (now : Z) (msg : WSMessage)
  | OpToSession (now : Z) (sessionID : string) (pseudonyms : list string) (msg : WSMessage)
  | OpWrite (conn : nat).

Section runs.
Context `{Wire} `{GoRange}.

(** A step and the frames it hands to the message handler. *)
Definition hub_step (h : Hub) (o : hub_op) : Hub * list (string * WSMessage) :=
  match o with
  | OpConnect now ps tok origin hs => ((HandleWS h now ps tok origin hs).1, [])
  | OpFrame p now data =>
      match readFrame h p now data with
      | (h', Delivered from msg) => (h', [(from, msg)])
      | (h', _) => (h', [])
      end
  | OpClose p => (closeConn h p, [])
  | OpSendTo now ps msg => ((SendTo h now ps msg).1, [])
  | OpBroadcast now msg => (Broadcast h now msg, [])
  | OpToSession now sid ps msg => (BroadcastToSession h now sid ps msg, [])
  | OpWrite p => ((takeSend h p).1, [])
  end.

Fixpoint hub_run (h : Hub) (ops : list hub_op) : Hub * list (string * WSMessage) :=
  match ops with
  | [] => (h, [])
  | o :: ops' =>
      let '(h1, d1) := hub_step h o in
      let '(h2, d2) := hub_run h1 ops' in
      (h2, d1 ++ d2)
  end.
End runs.

(** ** Authentication *)

Lemma ValidateToken_spec m pseudonym token :
  Secret m <> [] -> ValidateToken m pseudonym token = true <-> token = GenerateToken m pseudonym.
Proof.
  intros Hs. unfold ValidateToken, GenerateToken.
  replace (zlen (Secret m) =? 0) with false.
  - rewrite String.eqb_eq. split; congruence.
  - destruct (Secret m); [done|]. unfold zlen. cbn. symmetry. apply Z.eqb_neq. lia.
Qed.

(** ** The registry *)

(** Every registry entry points to a live connection of its pseudonym, every
    queue fits its channel, and every connection's pseudonym is in [P]. *)
Record hub_ok (P : string -> Prop) (h : Hub) : Prop := {
  reg_live : forall ps p, clients h !! ps = Some p -> exists c, conns h !! p = Some c /\ Pseudonym c = ps;
  conn_old : forall p c, conns h !! p = Some c -> (p < nextConn h)%nat;
  queue_bound : forall p c, conns h !! p = Some c -> zlen (Send c) <= SendBufferSize;
  conn_in : forall p c, conns h !! p = Some c -> P (Pseudonym c)
}.

(** Replacing a live connection by one of the same pseudonym keeps the registry. *)
Lemma hub_ok_update P h p c c' :
  hub_ok P h -> conns h !! p = Some c -> Pseudonym c' = Pseudonym c -> zlen (Send c') <= SendBufferSize ->
  hub_ok P (h <| conns := <[p := c']> (conns h) |>).
Proof.
  intros [Hl Ho Hq Hp] Hc He Hs. split; cbn.
  - intros ps q Hr. destruct (Hl ps q Hr) as (d & Hd & Hps).
    destruct (decide (p = q)) as [->|Hn]; [|exists d; by rewrite lookup_insert_ne].
    exists c'. rewrite lookup_insert_eq. split; [done|]. simplify_eq. congruence.
  - intros q d. destruct (decide (p = q)) as [->|Hn]; [intros _; eauto|].
    rewrite lookup_insert_ne by done. eauto.
  - intros q d. destruct (decide (p = q)) as [->|Hn].
    + rewrite lookup_insert_eq. by intros [= <-].
    + rewrite lookup_insert_ne by done. eauto.
  - intros q d. destruct (decide (p = q)) as [->|Hn].
    + rewrite lookup_insert_eq. intros [= <-]. rewrite He. eauto.
    + rewrite lookup_insert_ne by done. eauto.
Qed.

Lemma enqueue_ok P h p data : hub_ok P h -> hub_ok P (enqueue h p data).
Proof.
  intros Hh. unfold enqueue. destruct (conns h !! p) as [c|] eqn:Hc; [|done].
  destruct (zlen (Send c) <? SendBufferSize) eqn:Hq; [|done].
  eapply hub_ok_update; [done|done|done|]. apply Z.ltb_lt in Hq. cbn.
  unfold zlen in *. rewrite length_app. cbn. lia.
Qed.

Lemma foldl_keeps {A} (Q : Hub -> Prop) (f : Hub -> A -> Hub) l h :
  (forall h x, Q h -> Q (f h x)) -> Q h -> Q (foldl f h l).
Proof. intros Hf. revert h. induction l as [|x l IH]; intros h Hh; [done|]. cbn. apply IH, Hf, Hh. Qed.

Lemma closeConn_ok P h p : hub_ok P h -> hub_ok P (closeConn h p).
Proof.
  intros [Hl Ho Hq Hp]. unfold closeConn. destruct (conns h !! p) as [c|] eqn:Hc; [|done]. split; cbn.
  - intros ps q [Hn Hr]%lookup_delete_Some. destruct (Hl ps q Hr) as (d & Hd & Hps).
    exists d. split; [|done]. rewrite lookup_delete_ne; [done|]. intros ->. simplify_eq.
  - intros q d [_ Hd]%lookup_delete_Some. eauto.
  - intros q d [_ Hd]%lookup_delete_Some. eauto.
  - intros q d [_ Hd]%lookup_delete_Some. eauto.
Qed.

Lemma HandleWS_ok P h now ps tok origin hs :
  hub_ok P h -> (ValidateToken (auth h) ps tok = true -> P ps) ->
  hub_ok P (HandleWS h now ps tok origin hs).1.
Proof.
  intros Hh Hps. unfold HandleWS.
  destruct (String.eqb ps ""); [done|]. destruct (ValidateToken (auth h) ps tok) eqn:Hv; [|done].
  destruct (CheckOrigin h origin && hs); [|done]. cbn. destruct Hh as [Hl Ho Hq Hp]. split; cbn.
  - intros qs q. destruct (decide (ps = qs)) as [->|Hn].
    + rewrite lookup_insert_eq. intros [= <-]. eexists. by rewrite lookup_insert_eq.
    + rewrite lookup_insert_ne by done. intros Hr. destruct (Hl qs q Hr) as (d & Hd & Hds).
      exists d. split; [|done]. rewrite lookup_insert_ne; [done|]. apply Ho in Hd. lia.
  - intros q d [[<- _]|[_ Hd]]%lookup_insert_Some; [lia|]. apply Ho in Hd. lia.
  - intros q d [[_ <-]|[_ Hd]]%lookup_insert_Some; [cbn; unfold zlen, SendBufferSize; cbn; lia|eauto].
  - intros q d [[_ <-]|[_ Hd]]%lookup_insert_Some; [cbn; auto|eauto].
Qed.


(** ** Steps *)

(** What a step does not touch, and how it moves the sequence marks: an
    accepted frame with a sequence number exceeds the mark of its key and
    becomes it; no mark ever goes down. *)
Record step_ok (h h' : Hub) (d : list (string * WSMessage)) : Prop := {
  st_auth : auth h' = auth h;
  st_marks : forall k v, seqHigh h !! k = Some v -> exists v', seqHigh h' !! k = Some v' /\ v <= v';
  st_fresh : forall from msg, (from, msg) ∈ d -> Seq msg <> 0 ->
    (forall v, seqHigh h !! seq_key from msg = Some v -> v < Seq msg) /\
    seqHigh h' !! seq_key from msg = Some (Seq msg);
  st_one : (length d <= 1)%nat
}.

Lemma step_ok_same h h' : auth h' = auth h -> seqHigh h' = seqHigh h -> step_ok h h' [].
Proof.
  intros Ha Hs. split; [done| |by intros ? ? ?%not_elem_of_nil|cbn; lia].
  rewrite Hs. eauto with lia.
Qed.

Lemma checkAndRecordSeq_spec h ps msg h' b :
  checkAndRecordSeq h ps msg = (h', b) ->
  h' = h <| seqHigh := seqHigh h' |> /\
  (forall k v, seqHigh h !! k = Some v -> exists v', seqHigh h' !! k = Some v' /\ v <= v') /\
  (b = true -> Seq msg <> 0 ->
    (forall v, seqHigh h !! seq_key ps msg = Some v -> v < Seq msg) /\
    seqHigh h' !! seq_key ps msg = Some (Seq msg)).
Proof.
  unfold checkAndRecordSeq. destruct (Seq msg =? 0) eqn:H0.
  { intros [= <- <-]. apply Z.eqb_eq in H0. split_and!; [by destruct h|eauto with lia|done]. }
  assert (Hup : forall h0, (forall v, seqHigh h0 !! seq_key ps msg = Some v -> v < Seq msg) ->
    forall k v, seqHigh h0 !! k = Some v ->
    exists v', <[seq_key ps msg := Seq msg]> (seqHigh h0) !! k = Some v' /\ v <= v').
  { intros h0 Hlt k v Hk. destruct (decide (seq_key ps msg = k)) as [<-|Hn].
    - exists (Seq msg). rewrite lookup_insert_eq. split; [done|]. apply Hlt in Hk. lia.
    - exists v. rewrite lookup_insert_ne by done. split; [done|lia]. }
  destruct (seqHigh h !! seq_key ps msg) as [last|] eqn:Hl.
  - destruct (Seq msg <=? last) eqn:Hle; intros [= <- <-].
    + split_and!; [by destruct h|eauto with lia|done].
    + apply Z.leb_gt in Hle.
      assert (Hlt : forall v, seqHigh h !! seq_key ps msg = Some v -> v < Seq msg)
        by (rewrite Hl; intros v [= <-]; lia).
      split_and!; [done|by apply Hup|]. intros _ _. split; [by rewrite Hl in Hlt|apply lookup_insert_eq].
  - intros [= <- <-].
    assert (Hlt : forall v, seqHigh h !! seq_key ps msg = Some v -> v < Seq msg) by (rewrite Hl; done).
    split_and!; [done|by apply Hup|]. intros _ _. split; [done|apply lookup_insert_eq].
Qed.

Section step_lemmas.
Context `{HW : Wire} `{HG : GoRange}.

Lemma enqueue_same h p data :
  auth (enqueue h p data) = auth h /\ seqHigh (enqueue h p data) = seqHigh h.
Proof. unfold enqueue. split_matches; done. Qed.

Lemma foldl_same {A} (f : Hub -> A -> Hub) l h :
  (forall h x, auth (f h x) = auth h /\ seqHigh (f h x) = seqHigh h) ->
  auth (foldl f h l) = auth h /\ seqHigh (foldl f h l) = seqHigh h.
Proof.
  intros Hf. apply (foldl_keeps (fun h' => auth h' = auth h /\ seqHigh h' = seqHigh h)); [|done].
  intros h' x [Ha Hs]. destruct (Hf h' x). split; congruence.
Qed.

Lemma closeConn_same h p : auth (closeConn h p) = auth h /\ seqHigh (closeConn h p) = seqHigh h.
Proof. unfold closeConn. split_matches; done. Qed.

(** One frame: the registry is kept, the marks move as they should, and a
    delivered frame is a valid frame of a live connection. *)
Lemma readFrame_ok P h p now data h' r :
  hub_ok P h -> readFrame h p now data = (h', r) ->
  hub_ok P h' /\
  step_ok h h' (match r with Delivered from msg => [(from, msg)] | _ => [] end) /\
  (forall from msg, r = Delivered from msg -> P from /\ ValidateInboundMessage msg = None).
Proof.
  intros Hh. unfold readFrame. destruct (conns h !! p) as [c|] eqn:Hc.
  2:{ intros [= <- <-]. split_and!; [done|by apply step_ok_same|done]. }
  destruct (maxMessageSize h <? zlen data).
  { intros [= <- <-]. destruct (closeConn_same h p).
    split_and!; [by apply closeConn_ok|by apply step_ok_same|done]. }
  destruct (wire_decode data) as [msg|];
    [|intros [= <- <-]; split_and!; [done|by apply step_ok_same|done]].
  destruct (ValidateInboundMessage msg) as [e|] eqn:Hv;
    [intros [= <- <-]; split_and!; [done|by apply step_ok_same|done]|].
  destruct (checkAndRecordSeq h (Pseudonym c) msg) as [h1 fresh] eqn:Hs.
  apply checkAndRecordSeq_spec in Hs as (Heq & Hm & Hf).
  assert (Hh1 : hub_ok P h1) by (rewrite Heq; destruct Hh; by split).
  assert (Ha1 : auth h1 = auth h) by (by rewrite Heq).
  assert (Hc1 : conns h1 !! p = Some c) by (by rewrite Heq).
  assert (Hnil : forall h2, auth h2 = auth h1 -> seqHigh h2 = seqHigh h1 -> step_ok h h2 []).
  { intros h2 He2 Hs2. split; [congruence|by rewrite Hs2|by intros ? ? ?%not_elem_of_nil|cbn; lia]. }
  destruct fresh; cbn [negb]; [|intros [= <- <-]; split_and!; [done|by apply Hnil|done]].
  destruct (Allow (limiter c) now) as [rl allowed].
  assert (Hh2 : hub_ok P (h1 <| conns := <[p := c <| limiter := rl |>]> (conns h1) |>)).
  { eapply hub_ok_update; [done|done|done|]. cbn. eapply queue_bound; eauto. }
  destruct allowed; cbn [negb]; intros [= <- <-]; (split; [done|]).
  - split; [split|]; [done|done| |cbn; lia|].
    + intros from m [= -> ->]%list_elem_of_singleton H0. by apply Hf.
    + intros from m [= <- <-]. split; [|done]. exact (conn_in _ _ Hh1 _ _ Hc1).
  - split; [by apply Hnil|done].
Qed.

Lemma hub_step_ok P h o h' d :
  hub_ok P h -> hub_step h o = (h', d) ->
  (forall now ps tok origin hs, o = OpConnect now ps tok origin hs ->
     ValidateToken (auth h) ps tok = true -> P ps) ->
  hub_ok P h' /\ step_ok h h' d /\
  (forall from msg, (from, msg) ∈ d -> P from /\ ValidateInboundMessage msg = None).
Proof.
  intros Hh Hs Ho.
  assert (Hnil : forall from msg, (from, msg) ∈ @nil (string * WSMessage) -> P from /\ ValidateInboundMessage msg = None)
    by (by intros ? ? ?%not_elem_of_nil).
  destruct o as [now ps tok origin hs|p now data|p|now ps msg|now msg|now sid ps msg|p]; cbn [hub_step] in Hs.
  - injection Hs as <- <-. split_and!; [eapply HandleWS_ok; eauto| |done].
    apply step_ok_same; unfold HandleWS; by split_matches.
  - destruct (readFrame h p now data) as [h1 r] eqn:Hr.
    destruct (readFrame_ok P h p now data h1 r Hh Hr) as (H1 & H2 & H3).
    destruct r; injection Hs as <- <-; (split; [done|split; [done|]]); try done.
    intros f m [= -> ->]%list_elem_of_singleton. auto.
  - injection Hs as <- <-. destruct (closeConn_same h p).
    split_and!; [by apply closeConn_ok|by apply step_ok_same|done].
  - injection Hs as <- <-. unfold SendTo. destruct (wire_encode _) as [data|]; [|by split_and!; [|apply step_ok_same|]].
    destruct (clients h !! ps) as [q|]; [|by split_and!; [|apply step_ok_same|]].
    destruct (enqueue_same h q data). split_and!; [by apply enqueue_ok|by apply step_ok_same|done].
  - injection Hs as <- <-. unfold Broadcast.
    match goal with |- context [foldl ?f h ?l] => destruct (foldl_same f l h) end.
    { intros. apply enqueue_same. }
    split_and!; [|by apply step_ok_same|done]. apply foldl_keeps; [|done]. intros. by apply enqueue_ok.
  - injection Hs as <- <-. unfold BroadcastToSession.
    match goal with |- context [foldl ?f h ?l] => destruct (foldl_same f l h) end.
    { intros h0 x. destruct (clients h0 !! x); [apply enqueue_same|done]. }
    split_and!; [|by apply step_ok_same|done]. apply foldl_keeps; [|done].
    intros h0 x ?. destruct (clients h0 !! x); [by apply enqueue_ok|done].
  - injection Hs as <- <-. unfold takeSend.
    destruct (conns h !! p) as [c|] eqn:Hc; [|by split_and!; [|apply step_ok_same|]].
    destruct (Send c) as [|b rest] eqn:Hb; [by split_and!; [|apply step_ok_same|]|].
    split_and!; [|by apply step_ok_same|done]. eapply hub_ok_update; [done|done|done|].
    pose proof (queue_bound _ _ Hh _ _ Hc) as Hq. rewrite Hb in Hq. unfold zlen in *. cbn in *. lia.
Qed.
End step_lemmas.


(** ** Runs *)

Definition in_order (x y : string * WSMessage) : Prop :=
  seq_key x.1 x.2 = seq_key y.1 y.2 -> Seq x.2 <> 0 -> Seq y.2 <> 0 -> Seq x.2 < Seq y.2.

Section run_lemmas.
Context `{HW : Wire} `{HG : GoRange}.

Lemma hub_run_ok P h ops :
  hub_ok P h ->
  (forall now ps tok origin hs, OpConnect now ps tok origin hs ∈ ops ->
     ValidateToken (auth h) ps tok = true -> P ps) ->
  hub_ok P (hub_run h ops).1 /\
  Forall (fun e => P e.1 /\ ValidateInboundMessage e.2 = None) (hub_run h ops).2.
Proof.
  revert h. induction ops as [|o ops IH]; intros h Hh Hops; [done|]. cbn [hub_run].
  destruct (hub_step h o) as [h1 d1] eqn:Hs.
  destruct (hub_step_ok P h o h1 d1 Hh Hs) as (H1 & Hst & Hd).
  { intros now ps tok origin hs -> Hv. eapply Hops; [left|done]. }
  destruct (IH h1 H1) as [H2 Hd2].
  { intros now ps tok origin hs Hin Hv. rewrite (st_auth _ _ _ Hst) in Hv. eapply Hops; [by right|done]. }
  destruct (hub_run h1 ops) as [h2 d2]. split; [done|]. cbn. apply Forall_app. split; [|done].
  apply Forall_forall. intros [from msg] Hin. by apply Hd.
Qed.

(** The frames of a run exceed the marks it starts from and are in order. *)
Lemma hub_run_ordered P h ops :
  hub_ok P h -> (forall ps, P ps) ->
  Forall (fun e => Seq e.2 <> 0 -> forall v, seqHigh h !! seq_key e.1 e.2 = Some v -> v < Seq e.2)
    (hub_run h ops).2 /\
  StronglySorted in_order (hub_run h ops).2.
Proof.
  intros Hh HP. revert h Hh. induction ops as [|o ops IH]; intros h Hh; [split; constructor|]. cbn [hub_run].
  destruct (hub_step h o) as [h1 d1] eqn:Hs.
  destruct (hub_step_ok P h o h1 d1 Hh Hs) as (H1 & Hst & _); [auto|].
  destruct (IH h1 H1) as [Hf Ho]. destruct (hub_run h1 ops) as [h2 d2]. cbn in *. split.
  - apply Forall_app. split.
    + apply Forall_forall. intros [from msg] Hin H0. by apply (st_fresh _ _ _ Hst from msg Hin H0).
    + eapply Forall_impl; [done|]. intros [from msg] Hlt H0 v Hv. cbn in *.
      destruct (st_marks _ _ _ Hst _ _ Hv) as (v' & Hv' & ?). specialize (Hlt H0 v' Hv'). lia.
  - pose proof (st_one _ _ _ Hst) as Hlen. destruct d1 as [|[from msg] [|? ?]]; cbn in Hlen; [done| |lia].
    cbn. constructor; [done|]. eapply Forall_impl; [done|].
    intros [from' msg'] Hlt Hk H0 H0'. cbn in *. apply Hlt; [done|]. rewrite <- Hk.
    apply (st_fresh _ _ _ Hst from msg); [left|done].
Qed.

Lemma NewHub_ok P a opts : hub_ok P (NewHubWithOptions a opts).
Proof. split; cbn; intros ? ? Hl; by rewrite lookup_empty in Hl. Qed.

Lemma StronglySorted_lookup {A} (R : A -> A -> Prop) l i j x y :
  StronglySorted R l -> (i < j)%nat -> l !! i = Some x -> l !! j = Some y -> R x y.
Proof.
  intros Hl. revert i j. induction Hl as [|z l Hl IH Hz]; intros i j Hij Hi Hj; [done|].
  destruct j as [|j]; [lia|]. cbn in Hj. destruct i as [|i].
  - injection Hi as <-. eapply Forall_lookup in Hz; eauto.
  - apply (IH i j); [lia|done|done].
Qed.

(** C30: replay protection. Whatever clients connect, reconnect, send and
    disconnect, of any two frames that reach the message handler with the same
    session, sender and type and with sequence numbers, the later one has the
    strictly greater number: no frame is ever delivered twice. *)
Theorem replay_protection a opts ops i j from msg msg' :
  let d := (hub_run (NewHubWithOptions a opts) ops).2 in
  (i < j)%nat -> d !! i = Some (from, msg) -> d !! j = Some (from, msg') ->
  SessionID msg = SessionID msg' -> Type_ msg = Type_ msg' -> Seq msg <> 0 -> Seq msg' <> 0 ->
  Seq msg < Seq msg'.
Proof.
  intros d Hij Hi Hj Hs Ht H0 H0'.
  destruct (hub_run_ordered (fun _ => True) (NewHubWithOptions a opts) ops) as [_ Ho]; [apply NewHub_ok|done|].
  apply (StronglySorted_lookup in_order d i j (from, msg) (from, msg') Ho Hij Hi Hj); [|done|done].
  unfold seq_key. cbn. by rewrite Hs, Ht.
Qed.

(** With a secret, every frame that reaches the message handler is a
    valid frame of a sender for whom some client presented the sender's own
    token, and after any run the registry points to live connections whose
    queues fit their channels. *)
Lemma delivered_authenticated a opts ops :
  Secret a <> [] ->
  Forall (fun e => ValidateInboundMessage e.2 = None /\
     exists now origin hs, OpConnect now e.1 (GenerateToken a e.1) origin hs ∈ ops)
    (hub_run (NewHubWithOptions a opts) ops).2 /\
  hub_ok (fun _ => True) (hub_run (NewHubWithOptions a opts) ops).1.
Proof.
  intros Hs. split; [|apply hub_run_ok; [apply NewHub_ok|done]].
  destruct (hub_run_ok (fun ps => exists now origin hs, OpConnect now ps (GenerateToken a ps) origin hs ∈ ops)
    (NewHubWithOptions a opts) ops) as [_ Hf]; [apply NewHub_ok| |].
  - intros now ps tok origin hs Hin Hv. apply (ValidateToken_spec a ps tok Hs) in Hv as ->. eauto.
  - eapply Forall_impl; [done|]. cbn. by intros ? [? ?].
Qed.
End run_lemmas.


(** ** Witnesses: a sender that replays a frame *)

Section witnesses.
Definition demo_frame (n : Z) : WSMessage := mkWSMessage "1" "bid" "s1" n [] "" None.

#[local] Instance demo_wire : Wire := {|
  wire_encode := fun m => Some [byte_of_Z (Seq m)];
  wire_decode := fun b => match b with [x] => Some (demo_frame (Z_of_byte x)) | _ => None end;
  wire_time := fun _ => "" |}.
#[local] Instance demo_range : GoRange := sorted_range.

Definition demo_opts : HubOptions := mkHubOptions [] false 0 f64_zero f64_zero.
Definition demo_secret : AuthMiddleware := mkAuth [x2a] false.

(** The second connection replays the first one's frame. *)
Definition demo_ops : list hub_op :=
  [OpConnect 0 "alice" (GenerateToken demo_secret "alice") "" true; OpFrame 0 1 [x01];
   OpConnect 2 "alice" (GenerateToken demo_secret "alice") "" true; OpFrame 1 3 [x01]; OpFrame 1 4 [x02];
   OpConnect 5 "bob" "guess" "" true; OpFrame 2 6 [x07]].

Lemma replay_protection_witness :
  (hub_run (NewHubWithOptions demo_secret demo_opts) demo_ops).2 =
    [("alice", demo_frame 1); ("alice", demo_frame 2)] /\ Seq (demo_frame 1) < Seq (demo_frame 2).
Proof.
  split; [vm_compute; reflexivity|].
  apply (replay_protection demo_secret demo_opts demo_ops 0 1 "alice" (demo_frame 1) (demo_frame 2));
    solve [vm_compute; reflexivity | lia | vm_compute; discriminate].
Defined.

Lemma delivered_authenticated_witness :
  Secret demo_secret <> [] /\ hub_ok (fun _ => True) (hub_run (NewHubWithOptions demo_secret demo_opts) demo_ops).1.
Proof.
  split; [discriminate|].
  exact (proj2 (delivered_authenticated demo_secret demo_opts demo_ops ltac:(discriminate))).
Defined.
End witnesses.
End Transport.
