(* ===== verification/Service.v ===== *)
(** * The session service ([pkg/ares/transport]: service.go, events.go,
    trigger.go, admin.go)

    The hub's frames dispatched into the session runner, the per-session event
    ring, the admin trigger and the session endpoints.  A panic of the
    dispatch unwinds the reader's goroutine and with it the process: a step
    then has no next state. *)

From S2P Require Import Prelude Float64 Sha256 Lineage LineageStore PhaseTypes Compose Runner Transport.
Import Lineage LineageStore PhaseTypes Compose Runner Transport.

#[local] Open Scope Z_scope.
#[local] Open Scope go_scope.

Module Service.

(** ** The event ring *)

Record SessionEvent := mkEvent {
  ev_Time : Z;
  ev_SessionID : string;
  ev_Type : string;
  ev_From : string;
  ev_Error : string
}.

#[export] Instance event_eq_decision : EqDecision SessionEvent.
Proof. solve_decision. Defined.

Record SessionEventRing := mkRing { cap : Z; ring : gmap string (list SessionEvent) }.

#[export] Instance ring_eta : Eta SessionEventRing := fun r => mkRing (cap r) (ring r).

Definition NewSessionEventRing (cap : Z) : SessionEventRing :=
  mkRing (if cap <=? 0 then 128 else cap) ∅.

Definition RecordEvent (r : SessionEventRing) (now : Z) (sessionID msgType from errStr : string)
    : SessionEventRing :=
  let ev := mkEvent now sessionID msgType from errStr in
  let events := default [] (ring r !! sessionID) in
  let events := if (cap r <=? zlen events) && (0 <? cap r) then tail events else events in
  r <| ring := <[sessionID := events ++ [ev]]> (ring r) |>.

Definition Events (r : SessionEventRing) (sessionID : string) : list SessionEvent :=
  default [] (ring r !! sessionID).

Definition Prune (r : SessionEventRing) (active : gmap string bool) : SessionEventRing :=
  r <| ring := filter (fun e => default false (active !! e.1) = true) (ring r) |>.

(** ** Trigger and service *)

(** [ManualAdminTrigger]; its runner and hub are the service's. *)
Record ManualAdminTrigger := mkTrigger { InviteType : string; startedCount : Z }.

#[export] Instance trigger_eta : Eta ManualAdminTrigger := fun t => mkTrigger (InviteType t) (startedCount t).

Definition NewManualAdminTrigger (inviteType : string) : ManualAdminTrigger := mkTrigger inviteType 0.

Definition StartedCount (t : ManualAdminTrigger) : Z := startedCount t.

Record Config (St : Type) := mkConfig {
  cfg_Addr : string;
  cfg_ServiceName : string;
  cfg_Secret : bytes;
  cfg_AllowDevBypass : bool;
  cfg_Runner : option (SessionRunner St);
  cfg_InviteType : string;
  cfg_EventRing : option SessionEventRing;
  cfg_AllowedOrigins : list string;
  cfg_MaxWSMessageSize : Z
}.
Arguments mkConfig {St}.
Arguments cfg_Addr {St} c.
Arguments cfg_ServiceName {St} c.
Arguments cfg_Secret {St} c.
Arguments cfg_AllowDevBypass {St} c.
Arguments cfg_Runner {St} c.
Arguments cfg_InviteType {St} c.
Arguments cfg_EventRing {St} c.
Arguments cfg_AllowedOrigins {St} c.
Arguments cfg_MaxWSMessageSize {St} c.

Record Service (St : Type) := mkService {
  s_runner : SessionRunner St;
  s_hub : Hub;
  s_ring : SessionEventRing;
  s_trigger : ManualAdminTrigger
}.
Arguments mkService {St}.
Arguments s_runner {St} s.
Arguments s_hub {St} s.
Arguments s_ring {St} s.
Arguments s_trigger {St} s.

#[export] Instance service_eta {St} : Eta (Service St) := fun s =>
  mkService (s_runner s) (s_hub s) (s_ring s) (s_trigger s).

Inductive ConfigError := AddrRequired | RunnerRequired | EmptySecret | BypassInProduction.

(** [NewService]; [env] is the value of [ARES_ENV].  The service keeps the state
    of one [ManualAdminTrigger]: the default one, or the one a configured
    trigger wraps. *)
Definition NewService {St} (env : string) (cfg : Config St) : ConfigError + Service St :=
  if String.eqb (cfg_Addr cfg) "" then inl AddrRequired
  else match cfg_Runner cfg with
  | None => inl RunnerRequired
  | Some r =>
      if (zlen (cfg_Secret cfg) =? 0) && negb (cfg_AllowDevBypass cfg) then inl EmptySecret
      else if cfg_AllowDevBypass cfg && String.eqb env "production" then inl BypassInProduction
      else
        let a := mkAuth (cfg_Secret cfg) (cfg_AllowDevBypass cfg) in
        let h := NewHubWithOptions a
          (mkHubOptions (cfg_AllowedOrigins cfg)
             ((zlen (cfg_AllowedOrigins cfg) =? 0) && cfg_AllowDevBypass cfg)
             (cfg_MaxWSMessageSize cfg) f64_zero f64_zero) in
        inr (mkService r h (default (NewSessionEventRing 128) (cfg_EventRing cfg))
               (NewManualAdminTrigger (cfg_InviteType cfg)))
  end.

(** [err.Error()]. *)
Class GoErrors := err_Error : gerror -> string.

(** The outbound calls of a [PostDispatchHook]. *)
Inductive outbound :=
  | OutTo (pseudonym : string) (msg : WSMessage)
  | OutAll (msg : WSMessage)
  | OutSession (sessionID : string) (pseudonyms : list string) (msg : WSMessage).

(** A [PostDispatchHook] over the runner as the dispatch left it: the entries it
    sets on the context of the message's session, and its calls on the hub. *)
Definition PostDispatchHook (St : Type) : Type :=
  SessionRunner St -> string -> WSMessage -> option gerror -> list (string * any) * list outbound.

(** The [SessionTrigger] interface: [Start] on the runner and hub of a service. *)
Definition SessionTrigger (St : Type) : Type :=
  Service St -> Z -> string -> list string -> gmap string any -> Service St * result unit.

Section service.
Context {St : Type} `{HStore : Store St} `{HClock : Clock} `{HRange : GoRange} `{HFmt : GoFmt}
  `{HErr : GoErrors} `{HWire : Wire}.
Context (trigger : SessionTrigger St) (postHook : option (PostDispatchHook St)).
Implicit Types s : Service St.

Definition emit (now : Z) (h : Hub) (o : outbound) : Hub :=
  match o with
  | OutTo ps msg => (SendTo h now ps msg).1
  | OutAll msg => Broadcast h now msg
  | OutSession sid ps msg => BroadcastToSession h now sid ps msg
  end.

(** [ctx.Set] of each entry. *)
Definition seed_all (r : SessionRunner St) (sessionID : string) (entries : list (string * any)) : SessionRunner St :=
  foldl (fun r e => SeedContext r sessionID (fst e) (snd e)) r entries.

(** The message handler [NewService] installs. *)
Definition onMessage s (now : Z) (from : string) (msg : WSMessage) : option (Service St) :=
  if String.eqb (SessionID msg) "" then Some s
  else
    let '(r, res) :=
      match Transport.Lineage msg with
      | Some n => HandleLineageMessage (s_runner s) (SessionID msg) (Type_ msg) from (Payload msg) (Some n)
      | None => HandleMessage (s_runner s) (SessionID msg) (Type_ msg) from (Payload msg)
      end in
    match res with
    | Unwind _ => None
    | _ =>
        let err := match res with Bad e => Some e | _ => None end in
        let errStr := match err with Some e => err_Error e | None => "" end in
        let '(sets, out) := match postHook with Some f => f r from msg err | None => ([], []) end in
        Some (s <| s_runner := seed_all r (SessionID msg) sets |>
                <| s_ring := RecordEvent (s_ring s) now (SessionID msg) (Type_ msg) from errStr |>
                <| s_hub := foldl (emit now) (s_hub s) out |>)
    end.

(** [ManualAdminTrigger.Start]: the attributes are set on the context
    [BeginSession] returns, after the first [Enter] has run. *)
Definition Start s (now : Z) (sessionID : string) (participants : list string) (attrs : gmap string any)
    : Service St * result unit :=
  if zlen participants =? 0 then (s, Bad (Errorf "trigger: no participants supplied" [] []))
  else
    let s := s <| s_trigger := s_trigger s <| startedCount := wrap64 (startedCount (s_trigger s) + 1) |> |> in
    let '(r, res) := BeginSession (s_runner s) sessionID "" in
    let s := s <| s_runner := r |> in
    match res with
    | Bad err => (s, Bad (Errorf "trigger: BeginSession(%q): %w" [sessionID] [err]))
    | Unwind m => (s, Unwind m)
    | Good _ =>
        let s := s <| s_runner := seed_all r sessionID (range_of attrs) |> in
        if String.eqb (InviteType (s_trigger s)) "" then (s, Good tt)
        else
          let invite := mkWSMessage "" (InviteType (s_trigger s)) "" 0 [] "" None in
          (s <| s_hub := BroadcastToSession (s_hub s) now sessionID participants invite |>, Good tt)
    end.

(** ** Admin endpoints *)

Inductive response := Status (code : Z) | SessionState (code : Z) (sessionID state : string)
  | SessionEvents (code : Z) (sessionID : string) (events : list SessionEvent)
  | Results (code : Z) (sessionID : string) (results : option (gmap string string))
  | Stats (code connected : Z).

(** [POST /admin/sessions]; the body is [None] when it does not decode.  A
    panic of the runner is recovered by the HTTP server. *)
Definition handleSessionStart s (now : Z) (body : option (string * list string * gmap string any))
    : Service St * response :=
  match body with
  | None => (s, Status 400)
  | Some (sid, participants, attrs) =>
      if String.eqb sid "" then (s, Status 400)
      else match trigger s now sid participants attrs with
      | (s', Good _) => (s', SessionState 201 sid (CurrentState (s_runner s') sid).1)
      | (s', Bad _) => (s', Status 409)
      | (s', Unwind _) => (s', Status 0)
      end
  end.

Definition handleSessionGet s (id : string) : response :=
  let '(state, ok) := CurrentState (s_runner s) id in
  if ok then SessionState 200 id state else Status 404.

(** [strings.Split(query, ",")] is [keys]. *)
Definition handleSessionResults s (marshal : list (string * any) -> option string) (id : string)
    (keys : list string) : response :=
  if negb (CurrentState (s_runner s) id).2 then Status 404
  else if bool_decide (keys = []) || bool_decide (keys = [""]) then Status 400
  else Results 200 id (SessionContextKeys (s_runner s) marshal id keys).

Definition handleSessionEvents s (id : string) : response :=
  if negb (CurrentState (s_runner s) id).2 then Status 404
  else SessionEvents 200 id (Events (s_ring s) id).

Definition handleStats s : response := Stats 200 (ConnectedCount (s_hub s)).

(** ** Runs of the service *)

Inductive svc_op :=
  | SvcHub (o : hub_op)
  | SvcStart (now : Z) (body : option (string * list string * gmap string any)).

Definition op_now (o : hub_op) : Z :=
  match o with
  | OpConnect now _ _ _ _ | OpFrame _ now _ | OpSendTo now _ _ | OpBroadcast now _
  | OpToSession now _ _ _ => now
  | OpClose _ | OpWrite _ => 0
  end.

(** A hub event, and the handler on the frame it delivers; no state is left
    after a crash. *)
Definition svc_step s (o : svc_op) : option (Service St) :=
  match o with
  | SvcHub o =>
      let '(h, d) := hub_step (s_hub s) o in
      foldl (fun acc e => s ← acc; onMessage s (op_now o) (fst e) (snd e)) (Some (s <| s_hub := h |>)) d
  | SvcStart now body => Some (handleSessionStart s now body).1
  end.

Fixpoint svc_run s (ops : list svc_op) : option (Service St) :=
  match ops with
  | [] => Some s
  | o :: ops' => s' ← svc_step s o; svc_run s' ops'
  end.
End service.

(** ** The event ring keeps the latest events *)

Lemma RecordEvent_latest r now sid ty from err (all : list SessionEvent) :
  0 < cap r -> Events r sid = lastN (Z.to_nat (cap r)) all ->
  Events (RecordEvent r now sid ty from err) sid =
  lastN (Z.to_nat (cap r)) (all ++ [mkEvent now sid ty from err]).
Proof.
  intros Hc He. unfold Events, RecordEvent in *. cbn. rewrite lookup_insert_eq. cbn. rewrite He.
  rewrite lastN_snoc by lia. f_equal. rewrite (proj2 (Z.ltb_lt 0 (cap r)) Hc), andb_true_r. unfold zlen.
  destruct (Z.leb_spec (cap r) (Z.of_nat (length (lastN (Z.to_nat (cap r)) all)))) as [Hl|Hl];
    destruct (Nat.leb_spec (Z.to_nat (cap r)) (length (lastN (Z.to_nat (cap r)) all))); (done || lia).
Qed.

(** ** The service runs the runner *)

Section refinement.
Context {St : Type} `{HStore : Store St} `{HClock : Clock} `{HRange : GoRange} `{HFmt : GoFmt}
  `{HErr : GoErrors} `{HWire : Wire}.
Implicit Types s : Service St.

(** The runner operations a service performs: messages only from senders in
    [P]; session starts with their attributes and the walk to the state they
    open in; entries a hook sets.  Nothing else. *)
Definition authentic (P : string -> Prop) (o : runner_op) : Prop :=
  match o with
  | RMessage _ _ from _ | RLineage _ _ from _ _ => P from
  | RBegin _ _ | RSeed _ _ _ | RAdvance _ _ => True
  | _ => False
  end.

(** [s'] is [s] after authentic runner operations, with the hub still sound. *)
Definition follows (P : string -> Prop) s s' : Prop :=
  hub_ok P (s_hub s') /\ auth (s_hub s') = auth (s_hub s) /\
  exists rops, s_runner s' = runner_run (s_runner s) rops /\ Forall (authentic P) rops.

Lemma runner_run_app (r : SessionRunner St) ops1 ops2 :
  runner_run r (ops1 ++ ops2) = runner_run (runner_run r ops1) ops2.
Proof. apply foldl_app. Qed.

Lemma follows_trans P s1 s2 s3 : follows P s1 s2 -> follows P s2 s3 -> follows P s1 s3.
Proof.
  intros (_ & Ha & ops & Hr & Hf) (Hh & Ha' & ops' & Hr' & Hf'). split_and!; [done|congruence|].
  exists (ops ++ ops'). rewrite runner_run_app, <- Hr. split; [done|]. by apply Forall_app.
Qed.

Lemma follows_refl P s : hub_ok P (s_hub s) -> follows P s s.
Proof. intros Hh. split_and!; [done|done|]. by exists []. Qed.

(** One more runner operation. *)
Lemma follows_snoc P s s' o :
  authentic P o -> follows P s s' -> follows P s (s' <| s_runner := runner_step (s_runner s') o |>).
Proof.
  intros Ho (Hh & Ha & ops & Hr & Hf). split_and!; [done|done|]. exists (ops ++ [o]).
  rewrite runner_run_app, <- Hr. split; [done|]. apply Forall_app. split; [done|by constructor].
Qed.

(** What a trigger promises the service. *)
Class LawfulTrigger (trigger : SessionTrigger St) : Prop :=
  trigger_follows : forall P s now sid participants attrs,
    hub_ok P (s_hub s) -> follows P s (trigger s now sid participants attrs).1.

Lemma out_step now h o : exists op, emit now h o = (hub_step h op).1 /\
  forall n ps tok origin hs, op <> OpConnect n ps tok origin hs.
Proof.
  destruct o as [ps msg|msg|sid ps msg].
  - by exists (OpSendTo now ps msg).
  - by exists (OpBroadcast now msg).
  - by exists (OpToSession now sid ps msg).
Qed.

Lemma emit_ok P now out h : hub_ok P h ->
  hub_ok P (foldl (emit now) h out) /\ auth (foldl (emit now) h out) = auth h.
Proof.
  revert h. induction out as [|o out IH]; intros h Hh; [done|]. cbn [foldl].
  destruct (out_step now h o) as (op & -> & Hop). destruct (hub_step h op) as [h' d] eqn:Hs.
  destruct (hub_step_ok P h op h' d Hh Hs) as (Hh' & Hst & _).
  { intros n ps tok origin hs ->. by destruct (Hop n ps tok origin hs). }
  destruct (IH h' Hh') as [H1 H2]. split; [done|]. cbn in *. by rewrite H2, (st_auth _ _ _ Hst).
Qed.

Lemma seeds_run sid attrs (r : SessionRunner St) :
  seed_all r sid attrs = runner_run r ((fun e => RSeed sid e.1 e.2) <$> attrs).
Proof.
  unfold seed_all. revert r. induction attrs as [|[k v] attrs IH]; intros r; [done|]. cbn. by rewrite IH.
Qed.

Lemma seeds_follow P s s' sid attrs :
  follows P s s' -> follows P s (s' <| s_runner := seed_all (s_runner s') sid attrs |>).
Proof.
  intros (Hh & Ha & ops & Hr & Hf). split_and!; [done|done|].
  exists (ops ++ ((fun e => RSeed sid e.1 e.2) <$> attrs)). cbn. rewrite seeds_run, runner_run_app, <- Hr.
  split; [done|]. apply Forall_app. split; [done|]. apply Forall_fmap, Forall_true. done.
Qed.

Lemma onMessage_follows postHook P s now from msg s' :
  hub_ok P (s_hub s) -> P from -> onMessage postHook s now from msg = Some s' -> follows P s s'.
Proof.
  intros Hh Hp. unfold onMessage.
  destruct (String.eqb (SessionID msg) ""); [intros [= <-]; by apply follows_refl|].
  set (op := match Transport.Lineage msg with
    | Some n => RLineage (SessionID msg) (Type_ msg) from (Payload msg) (Some n)
    | None => RMessage (SessionID msg) (Type_ msg) from (Payload msg) end).
  match goal with |- context [let '(_, _) := ?e in _] => destruct e as [r res] eqn:Hr end.
  assert (Hop : runner_step (s_runner s) op = r /\ authentic P op).
  { unfold op. destruct (Transport.Lineage msg); cbn [runner_step]; by rewrite Hr. }
  destruct Hop as [Hop Ha].
  destruct (match res with Unwind _ => true | _ => false end) eqn:Hu; [by destruct res|].
  intros Hs.
  assert (Hs' : exists ring sets out, s' = s <| s_runner := seed_all r (SessionID msg) sets |> <| s_ring := ring |>
                                <| s_hub := foldl (emit now) (s_hub s) out |>).
  { destruct res; [| |done]; destruct (match postHook with Some f => _ | None => _ end) as [sets out];
      injection Hs as <-; by eexists _, sets, out. }
  destruct Hs' as (ring' & sets & out & ->). destruct (emit_ok P now out (s_hub s) Hh) as [H1 H2].
  pose proof (follows_snoc P s s op Ha (follows_refl P s Hh)) as H0. rewrite Hop in H0.
  destruct (seeds_follow P s _ (SessionID msg) sets H0) as (_ & _ & Hr'). by split_and!.
Qed.

#[export] Instance Start_lawful : LawfulTrigger Start.
Proof.
  intros P s now sid participants attrs Hh. unfold Start.
  destruct (zlen participants =? 0); [by apply follows_refl|].
  destruct (BeginSession _ sid "") as [r res] eqn:Hr. cbn in Hr.
  pose proof (follows_snoc P s s (RBegin sid "") I (follows_refl P s Hh)) as H0. cbn [runner_step] in H0. rewrite Hr in H0.
  destruct res as [c|e|m]; [|exact H0..]. pose proof (seeds_follow P s _ sid (range_of attrs) H0) as (_ & _ & H1).
  cbn. destruct (String.eqb _ ""); [by split_and!|]. cbn.
  destruct (emit_ok P now [OutSession sid participants (mkWSMessage "" (InviteType (s_trigger s)) "" 0 [] "" None)]
    (s_hub s) Hh). by split_and!.
Qed.

Section runs.
Context (trigger : SessionTrigger St) {Htrigger : LawfulTrigger trigger} (postHook : option (PostDispatchHook St)).

Lemma svc_step_follows P s o s' :
  hub_ok P (s_hub s) -> svc_step trigger postHook s o = Some s' ->
  (forall now ps tok origin hs, o = SvcHub (OpConnect now ps tok origin hs) ->
     ValidateToken (auth (s_hub s)) ps tok = true -> P ps) ->
  follows P s s'.
Proof.
  intros Hh Hs Ho. destruct o as [o|now body]; cbn [svc_step] in Hs.
  - destruct (hub_step (s_hub s) o) as [h d] eqn:Hst.
    destruct (hub_step_ok P (s_hub s) o h d Hh Hst) as (Hh' & Hok & Hd).
    { intros now ps tok origin hs ->. eauto. }
    assert (Hf0 : follows P s (s <| s_hub := h |>)).
    { split_and!; [done|apply (st_auth _ _ _ Hok)|]. by exists []. }
    pose proof (st_one _ _ _ Hok) as Hlen. destruct d as [|[from msg] [|? ?]]; cbn in Hlen; [| |lia].
    + injection Hs as <-. done.
    + eapply follows_trans; [done|]. eapply onMessage_follows; [done| |done].
      apply (Hd from msg). left.
  - injection Hs as <-. unfold handleSessionStart.
    destruct body as [[[sid ps] attrs]|]; [|by apply follows_refl].
    destruct (String.eqb sid ""); [by apply follows_refl|].
    pose proof (trigger_follows P s now sid ps attrs Hh) as Hf.
    by destruct (trigger s now sid ps attrs) as [s' []].
Qed.

Lemma svc_run_follows P s ops s' :
  hub_ok P (s_hub s) -> svc_run trigger postHook s ops = Some s' ->
  (forall now ps tok origin hs, SvcHub (OpConnect now ps tok origin hs) ∈ ops ->
     ValidateToken (auth (s_hub s)) ps tok = true -> P ps) ->
  follows P s s'.
Proof.
  revert s. induction ops as [|o ops IH]; intros s Hh Hs Ho; cbn [svc_run] in Hs.
  - injection Hs as <-. by apply follows_refl.
  - destruct (svc_step trigger postHook s o) as [s1|] eqn:Hst; [|done]. cbn in Hs.
    assert (H1 : follows P s s1).
    { eapply svc_step_follows; [done|done|]. intros now ps tok origin hs ->. intros Hv. eapply Ho; [left|done]. }
    eapply follows_trans; [exact H1|]. destruct H1 as (Hh1 & Ha & _). apply IH; [done|done|].
    rewrite Ha. intros now ps tok origin hs Hin. eapply Ho. by right.
Qed.

(** C29: the live service refines the runner. Whatever sockets, frames and
    admin requests it meets, under any trigger that keeps the trigger's promise
    and whatever hook runs after a dispatch, as long as the process lives its
    runner is one reached from the configured runner by message dispatches,
    session starts, advances and seeded entries alone. Every message dispatched
    is from the pseudonym of a connection whose token was accepted: with a
    secret that is the pseudonym's own token, and without one the service only
    exists with the development bypass. So every invariant of the runner holds
    of the running service. *)
Theorem service_refines_runner env cfg r s ops s' :
  let a := mkAuth (cfg_Secret cfg) (cfg_AllowDevBypass cfg) in
  cfg_Runner cfg = Some r -> NewService env cfg = inr s -> svc_run trigger postHook s ops = Some s' ->
  (cfg_Secret cfg = [] -> cfg_AllowDevBypass cfg = true) /\
  exists rops, s_runner s' = runner_run r rops /\
    Forall (authentic (fun ps => exists now tok origin hs,
      SvcHub (OpConnect now ps tok origin hs) ∈ ops /\ (cfg_Secret cfg <> [] -> tok = GenerateToken a ps))) rops.
Proof.
  intros a Hr Hn Hrun. unfold NewService in Hn. rewrite Hr in Hn.
  destruct (String.eqb (cfg_Addr cfg) ""); [done|].
  destruct ((zlen (cfg_Secret cfg) =? 0) && _) eqn:Hsec; [done|].
  destruct (cfg_AllowDevBypass cfg && _); [done|]. injection Hn as <-. split.
  { intros He. rewrite He in Hsec. by destruct (cfg_AllowDevBypass cfg). }
  eapply (svc_run_follows (fun ps => exists now tok origin hs,
      SvcHub (OpConnect now ps tok origin hs) ∈ ops /\ (cfg_Secret cfg <> [] -> tok = GenerateToken a ps))) in Hrun
    as (_ & _ & Hf); [exact Hf| |].
  - apply NewHub_ok.
  - intros now ps tok origin hs Hin Hv. exists now, tok, origin, hs. split; [done|]. intros Hne. by apply (ValidateToken_spec a ps tok Hne).
Qed.

(** C36: a finished session is a crash waiting for a message. Once a session's
    terminal phase has exited, any frame of an authenticated client that names
    the session and carries no lineage node makes the dispatch dereference the
    nil current phase in the reader's goroutine: the service has no next
    state, whatever the frame's type. *)
Theorem finished_session_crashes s p now data h from msg t :
  readFrame (s_hub s) p now data = (h, Delivered from msg) ->
  SessionID msg <> "" -> Transport.Lineage msg = None ->
  sessions (s_runner s) !! SessionID msg = Some t -> current t = None ->
  svc_step trigger postHook s (SvcHub (OpFrame p now data)) = None.
Proof.
  intros Hf Hsid Hl Ht Hc. cbn [svc_step hub_step]. rewrite Hf. cbn [foldl fst snd op_now mbind option_bind].
  unfold onMessage. apply String.eqb_neq in Hsid. rewrite Hsid, Hl. unfold HandleMessage. cbn.
  rewrite Ht. unfold on_session, dispatch, ebind, currentPhase. cbn. by rewrite Hc.
Qed.
End runs.
End refinement.

(** ** Witnesses: a one-message session served to its end *)

Section witnesses.
#[local] Instance sw_clock : Clock := Z.of_nat.
#[local] Instance sw_range : GoRange := sorted_range.
#[local] Instance sw_fmt : GoFmt := {| fmt_float := fun _ => ""; fmt_float32 := fun _ => ""; fmt_opaque := fun _ => "" |}.
#[local] Instance sw_errors : GoErrors := fun _ => "error".
#[local] Instance sw_wire : Wire := {|
  wire_encode := fun m => Some [byte_of_Z (Seq m)];
  wire_decode := fun b => match b with [x] => Some (demo_frame (Z_of_byte x)) | _ => None end;
  wire_time := fun _ => "" |}.

(** A pipeline that takes one bid. *)
Definition once : Phase := {|
  Name := "once"; Lifetime := LifetimePerSession; RunsAt := RunsAtInline;
  EntryState := "OPEN"; ExitState := StateNone; InternalStates := []; ConsumedMessageTypes := ["bid"];
  Requires := ∅; Provides := ∅; Enter := Ret None; OnMessage := fun _ _ _ => Ret None;
  CheckComplete := Ret true; Exit := Ret None |}.

Definition once_runner : SessionRunner InMemoryStore :=
  mkRunner [once] {[ "once" := once ]} {[ "OPEN" := once ]} ∅ "OPEN" ∅ None None ∅ None 0 [] [].

Lemma once_composes : Compose [once] = inr once_runner.
Proof. reflexivity. Qed.

Definition once_config (secret : bytes) (bypass : bool) : Config InMemoryStore :=
  mkConfig ":8000" "demo" secret bypass (Some once_runner) "invite" None [] 0.

Definition once_service (secret : bytes) (bypass : bool) : Service InMemoryStore :=
  mkService once_runner
    (NewHubWithOptions (mkAuth secret bypass)
       (mkHubOptions [] bypass 0 f64_zero f64_zero))
    (NewSessionEventRing 128) (mkTrigger "invite" 0).

Definition once_ops (token : string) : list svc_op :=
  [SvcHub (OpConnect 0 "alice" token "" true); SvcStart 1 (Some ("s1", ["alice"], ∅));
   SvcHub (OpFrame 0 2 [x01])].

Definition token : string := GenerateToken (mkAuth [x2a] false) "alice".

(** The session is over and the ring holds the bid. *)
Definition served (o : option (Service InMemoryStore)) : bool :=
  match o with
  | Some s => bool_decide (CurrentState (s_runner s) "s1" = (StateNone, true)) &&
              bool_decide (Events (s_ring s) "s1" = [mkEvent 2 "s1" "bid" "alice" ""])
  | None => false
  end.

Lemma once_served : served (svc_run Start None (once_service [x2a] false) (once_ops token)) = true.
Proof. vm_compute. reflexivity. Qed.

Lemma service_refines_runner_witness :
  exists s', svc_run Start None (once_service [x2a] false) (once_ops token) = Some s' /\ served (Some s') = true /\
  exists rops, s_runner s' = runner_run once_runner rops.
Proof.
  pose proof once_served as Hs.
  destruct (svc_run Start None (once_service [x2a] false) (once_ops token)) as [s'|] eqn:Hr; [|discriminate Hs].
  exists s'. split; [reflexivity|]. split; [exact Hs|].
  destruct (service_refines_runner Start None "" (once_config [x2a] false) once_runner (once_service [x2a] false)
    (once_ops token) s' eq_refl eq_refl Hr) as (_ & rops & H1 & _).
  exists rops. exact H1.
Defined.

Definition finished_service : Service InMemoryStore :=
  default (once_service [] true) (svc_run Start None (once_service [] true) (once_ops "")).

Lemma finished_session_crashes_witness :
  svc_step Start None finished_service (SvcHub (OpFrame 0 3 [x02])) = None.
Proof.
  apply (finished_session_crashes Start None finished_service 0 3 [x02]
    (readFrame (s_hub finished_service) 0 3 [x02]).1 "alice" (demo_frame 2)
    (mkTracker (mkContext "s1" "" ∅ false None) StateNone None true)).
  - vm_compute. reflexivity.
  - discriminate.
  - reflexivity.
  - reflexivity.
  - reflexivity.
Defined.
End witnesses.
End Service.
