(* ===== verification/Artifacts.v ===== *)
(** * The artifact store ([pkg/ares/transport]: artifacts.go, admin.go)

    Blobs under string keys with an expiry, the content-addressed layer over
    them, and the upload and download endpoints.  Times are nanoseconds; every
    operation takes the clock reading it makes. *)

From S2P Require Import Prelude Sha256 Lineage.
Import Sha256 Lineage.

#[local] Open Scope Z_scope.
#[local] Open Scope go_scope.

Module Artifacts.

Record artifactEntry := mkEntry { data : bytes; expires : Z }.

Record ArtifactStore := mkArtifacts { entries : gmap string artifactEntry; ttl : Z }.

#[export] Instance artifacts_eta : Eta ArtifactStore := fun s => mkArtifacts (entries s) (ttl s).

Definition NewArtifactStoreWithTTL (ttl : Z) : ArtifactStore := mkArtifacts ∅ ttl.

(** Thirty minutes. *)
Definition NewArtifactStore : ArtifactStore := NewArtifactStoreWithTTL (30 * 60 * 1000000000).

Definition Put (s : ArtifactStore) (now : Z) (key : string) (d : bytes) : ArtifactStore :=
  s <| entries := <[key := mkEntry d (now + ttl s)]> (entries s) |>.

Definition Get (s : ArtifactStore) (now : Z) (key : string) : option bytes :=
  match entries s !! key with
  | None => None
  | Some e => if expires e <? now then None else Some (data e)
  end.

Definition Delete (s : ArtifactStore) (key : string) : ArtifactStore :=
  s <| entries := delete key (entries s) |>.

(** The entries kept, and how many were purged. *)
Definition Sweep (s : ArtifactStore) (now : Z) : ArtifactStore * Z :=
  let kept := filter (fun e => (expires e.2 <? now) = false) (entries s) in
  (s <| entries := kept |>, msize (entries s) - msize kept).

Inductive ArtifactError := NotFound (key : string) | HandleNotFound (handle : bytes) | ErrCorrupted.

Definition Resolve (s : ArtifactStore) (now : Z) (key : string) : ArtifactError + bytes :=
  match Get s now key with Some d => inr d | None => inl (NotFound key) end.

Definition ContentKey (handle : bytes) : string := ("content:" +:+ hex_encode handle)%string.

Definition PutContent (s : ArtifactStore) (now : Z) (d : bytes) : ArtifactStore * bytes :=
  let handle := sha256 d in (Put s now (ContentKey handle) d, handle).

Definition GetContent (s : ArtifactStore) (now : Z) (handle : bytes) : ArtifactError + bytes :=
  match Get s now (ContentKey handle) with
  | None => inl (HandleNotFound handle)
  | Some d => if decide (sha256 d = handle) then inr d else inl ErrCorrupted
  end.

(** ** Endpoints *)

Definition DefaultMaxArtifactSize : Z := Z.shiftl 64 20.

(** [PUT /v2/artifacts/{key}]: the status code.  [body] is [None] when reading
    it fails; a body over the limit is refused. *)
Definition handleArtifactPut (s : ArtifactStore) (now maxSize : Z) (key : string) (body : option bytes)
    : ArtifactStore * Z :=
  if String.eqb key "" then (s, 400)
  else
    let limit := if maxSize =? 0 then DefaultMaxArtifactSize else maxSize in
    match body with
    | None => (s, 400)
    | Some buf =>
        if (0 <? limit) && (limit <? zlen buf) then (s, 413) else (Put s now key buf, 204)
    end.

Definition handleArtifactGet (s : ArtifactStore) (now : Z) (key : string) : Z * bytes :=
  match Get s now key with None => (404, []) | Some d => (200, d) end.

(** ** Runs *)

Inductive artifact_op :=
  | APut (now : Z) (key : string) (d : bytes)
  | APutContent (now : Z) (d : bytes)
  | AUpload (now maxSize : Z) (key : string) (body : option bytes)
  | ADelete (key : string)
  | ASweep (now : Z).

Definition artifact_step (s : ArtifactStore) (o : artifact_op) : ArtifactStore :=
  match o with
  | APut now key d => Put s now key d
  | APutContent now d => (PutContent s now d).1
  | AUpload now maxSize key body => (handleArtifactPut s now maxSize key body).1
  | ADelete key => Delete s key
  | ASweep now => (Sweep s now).1
  end.

Definition artifact_run (s : ArtifactStore) (ops : list artifact_op) : ArtifactStore := foldl artifact_step s ops.

(** ** Content addressing *)

#[export] Instance ContentKey_inj : Inj (=) (=) ContentKey.
Proof. intros h h' He. unfold ContentKey in He. by apply (inj hex_encode), (inj (String.append "content:")). Qed.

(** An operation within the life of an entry stored at [t0] that does not
    remove it or put bytes of another hash under its key. *)
Definition spares (handle : bytes) (t0 life : Z) (o : artifact_op) : Prop :=
  match o with
  | APut now key d => t0 <= now /\ (key = ContentKey handle -> sha256 d = handle)
  | APutContent now d => t0 <= now
  | AUpload now _ key body => t0 <= now /\ (key = ContentKey handle -> forall d, body = Some d -> sha256 d = handle)
  | ADelete key => key <> ContentKey handle
  | ASweep now => now <= t0 + life
  end.

(** The entry of [handle] is there, hashes to it and lives until [until]. *)
Definition holds (s : ArtifactStore) (handle : bytes) (until : Z) : Prop :=
  exists e, entries s !! ContentKey handle = Some e /\ sha256 (data e) = handle /\ until <= expires e.

Lemma Put_holds s now key d handle until :
  until <= now + ttl s -> (key = ContentKey handle -> sha256 d = handle) ->
  holds s handle until \/ key = ContentKey handle -> holds (Put s now key d) handle until.
Proof.
  intros Ht Hk Ho. unfold holds. cbn. destruct (decide (key = ContentKey handle)) as [->|Hn].
  - rewrite lookup_insert_eq. exists (mkEntry d (now + ttl s)). auto.
  - rewrite lookup_insert_ne by done. by destruct Ho.
Qed.

Lemma step_holds s handle t0 o :
  spares handle t0 (ttl s) o -> holds s handle (t0 + ttl s) ->
  ttl (artifact_step s o) = ttl s /\ holds (artifact_step s o) handle (t0 + ttl s).
Proof.
  intros Ho Hh. destruct o as [now key d|now d|now mx key body|key|now]; cbn [spares artifact_step] in *.
  - destruct Ho. split; [done|]. apply Put_holds; [lia|done|by left].
  - split; [done|]. apply Put_holds; [lia| |by left]. by intros ?%(inj ContentKey).
  - destruct Ho as [? Ho]. unfold handleArtifactPut. destruct (String.eqb key ""); [done|].
    destruct body as [d|]; [|done]. destruct (_ && _); [done|]. split; [done|].
    apply Put_holds; [lia|by intros He; apply (Ho He)|by left].
  - destruct Hh as (e & He & ? & ?). split; [done|]. exists e. cbn. by rewrite lookup_delete_ne.
  - destruct Hh as (e & He & Hs & Hx). split; [done|]. exists e. cbn. split_and!; [|done|done].
    apply map_lookup_filter_Some. split; [done|]. cbn. apply Z.ltb_ge. lia.
Qed.

Lemma run_holds s handle t0 ops :
  Forall (spares handle t0 (ttl s)) ops -> holds s handle (t0 + ttl s) ->
  ttl (artifact_run s ops) = ttl s /\ holds (artifact_run s ops) handle (t0 + ttl s).
Proof.
  revert s. induction ops as [|o ops IH]; intros s Ho Hh; [done|].
  apply Forall_cons in Ho as [Ho Hos]. destruct (step_holds s handle t0 o Ho Hh) as [Ht Hh'].
  cbn [artifact_run foldl]. rewrite <- Ht in Hos, Hh' |- *. by apply IH.
Qed.

(** An upload within the limit; no limit is a negative one. *)
Lemma upload_accepted s now mx key d :
  key <> "" -> mx < 0 \/ zlen d <= (if mx =? 0 then DefaultMaxArtifactSize else mx) ->
  handleArtifactPut s now mx key (Some d) = (Put s now key d, 204).
Proof.
  intros Hk Hmx. unfold handleArtifactPut. rewrite (proj2 (String.eqb_neq key "") Hk). cbv zeta.
  replace ((0 <? _) && (_ <? zlen d)) with false; [done|]. symmetry. apply andb_false_iff. rewrite !Z.ltb_ge. destruct (mx =? 0) eqn:Hz; lia.
Qed.

(** C37: content addressing. While nobody deletes the content key of a handle or
    puts bytes of another hash under that key, bytes put under their hash are
    what the handle gives back for the life of the entry, whatever else is
    stored, uploaded, deleted or swept meanwhile, or two byte strings collide
    under SHA-256.  The condition is needed, since the upload endpoint accepts
    content keys: an upload of other bytes under the key, in any state of the
    store, is answered 204 and the handle then yields the corruption error.
    And whatever the store holds, a handle never yields bytes of another
    hash. *)
Theorem artifact_content s t0 d ops now :
  let '(s0, handle) := PutContent s t0 d in
  (Forall (spares handle t0 (ttl s)) ops -> now <= t0 + ttl s ->
   exists d', GetContent (artifact_run s0 ops) now handle = inr d' /\ (d' = d \/ collision d' d)) /\
  (forall s' t1 mx d', sha256 d' <> handle -> 0 <= ttl s' -> mx < 0 \/ zlen d' <= (if mx =? 0 then DefaultMaxArtifactSize else mx) ->
   exists s1, handleArtifactPut s' t1 mx (ContentKey handle) (Some d') = (s1, 204) /\ GetContent s1 t1 handle = inl ErrCorrupted) /\
  (forall s' now' handle' d', GetContent s' now' handle' = inr d' -> sha256 d' = handle').
Proof.
  cbn. split_and!.
  - intros Ho Hn. destruct (run_holds (Put s t0 (ContentKey (sha256 d)) d) (sha256 d) t0 ops Ho) as (_ & e & He & Hs & Hx).
    { apply Put_holds; [done|done|by right]. }
    exists (data e). unfold GetContent, Get. rewrite He. cbn in Hx.
    rewrite (proj2 (Z.ltb_ge (expires e) now)) by lia. rewrite decide_True by done. split; [done|].
    by apply sha256_inj_or.
  - intros s' t1 mx d' Hd Ht Hmx. exists (Put s' t1 (ContentKey (sha256 d)) d'). split; [by apply upload_accepted|].
    unfold GetContent, Get, Put. cbn. rewrite lookup_insert_eq. cbn. rewrite (proj2 (Z.ltb_ge (t1 + ttl s') t1)) by lia. by rewrite decide_False.
  - intros s' now' handle' d'. unfold GetContent. destruct (Get _ _ _) as [d0|]; [|done].
    case_decide; [|done]. by intros [= <-].
Qed.

(** ** Witness: a sweep and a foreign upload in between *)

Lemma artifact_content_witness :
  exists d', GetContent (artifact_run (PutContent NewArtifactStore 5 [x01; x02]).1
      [AUpload 6 0 "other" (Some [x09]); ASweep 7; ADelete "other"]) 8 (sha256 [x01; x02]) = inr d' /\
    (d' = [x01; x02] \/ collision d' [x01; x02]).
Proof.
  destruct (artifact_content NewArtifactStore 5 [x01; x02]
    [AUpload 6 0 "other" (Some [x09]); ASweep 7; ADelete "other"] 8) as [Hc _]. apply Hc.
  - repeat constructor; cbn; try lia; try discriminate.
  - vm_compute. discriminate.
Defined.
End Artifacts.
