(* ===== verification/LogStream.v ===== *)
(** * The log stream ([pkg/ares/transport]: log_stream.go)

    The process-wide ring of log lines, its subscribers' bounded channels, and
    the server-sent-event framing, with a client of that format as its
    specification.  Go strings are their bytes. *)

From S2P Require Import Prelude.

#[local] Open Scope Z_scope.
#[local] Open Scope go_scope.

Module LogStream.

Definition LF : byte := x0a.
Definition CR : byte := x0d.

(** [strings.TrimRight(l, c)] and [strings.Split(l, c)] for one byte [c]. *)
Fixpoint drop_leading (c : byte) (l : bytes) : bytes :=
  match l with
  | [] => []
  | x :: l' => if decide (x = c) then drop_leading c l' else l
  end.

Definition TrimRight (l : bytes) (c : byte) : bytes := reverse (drop_leading c (reverse l)).

Fixpoint Split (l : bytes) (c : byte) : list bytes :=
  match l with
  | [] => [[]]
  | x :: l' =>
      if decide (x = c) then [] :: Split l' c
      else match Split l' c with
      | [] => [[x]]
      | part :: parts => (x :: part) :: parts
      end
  end.

(** ** The ring *)

(** A stream over a ring of lines; subscribers are channels,
    named by number. *)
Record LogStream := mkLog {
  ring : list bytes;
  pos : nat;
  full : bool;
  subs : gmap nat (list bytes);
  next_sub : nat
}.

#[export] Instance log_eta : Eta LogStream := fun l => mkLog (ring l) (pos l) (full l) (subs l) (next_sub l).

Definition logRingSize : nat := N.to_nat 4000.

Definition subBuffer : Z := 512.

Section log_stream.
(** The ring's size; the code's is [logRingSize] below. *)
Context (size : nat).

Definition NewLogStream : LogStream := mkLog (replicate size []) 0 false ∅ 0.

(** [select { case ch <- line: default: }] *)
Definition offer (line : bytes) (ch : list bytes) : list bytes :=
  if zlen ch <? subBuffer then ch ++ [line] else ch.

(** [Write] ends by reporting the length of its argument. *)
Definition Write (ls : LogStream) (p : bytes) : LogStream :=
  let line := TrimRight p LF in
  let pos' := ((pos ls + 1) mod size)%nat in
  ls <| ring := <[pos ls := line]> (ring ls) |> <| pos := pos' |>
     <| full := if decide (pos' = 0%nat) then true else full ls |>
     <| subs := offer line <$> subs ls |>.

Definition nonempty (l : bytes) : bool := negb (bool_decide (l = [])).

Definition buffered (ls : LogStream) : list bytes :=
  (if full ls then filter nonempty (drop (pos ls) (ring ls)) else []) ++
  filter nonempty (take (pos ls) (ring ls)).

Definition subscribe (ls : LogStream) : LogStream * nat :=
  (ls <| subs := <[next_sub ls := []]> (subs ls) |> <| next_sub := S (next_sub ls) |>, next_sub ls).

Definition unsubscribe (ls : LogStream) (ch : nat) : LogStream := ls <| subs := delete ch (subs ls) |>.

(** ** The ring is a window on the log *)

(** After the lines [all], the cells in reading order are the latest
    [size] of them. *)
Record window (ls : LogStream) (all : list bytes) : Prop := {
  win_len : length (ring ls) = size;
  win_pos : (pos ls < size)%nat;
  win_part : full ls = false -> pos ls = length all /\ take (pos ls) (ring ls) = all;
  win_full : full ls = true -> (size <= length all)%nat /\
    drop (pos ls) (ring ls) ++ take (pos ls) (ring ls) = lastN size all
}.

Lemma window_new : (0 < size)%nat -> window NewLogStream [].
Proof. intros Hn. split; cbn; [by rewrite length_replicate|done|done|done]. Qed.

(** [Write] replaces the cell at [pos] and moves on, wrapping at the end. *)
Lemma Write_shape ls p :
  length (ring ls) = size -> (pos ls < size)%nat ->
  exists A x B, ring ls = A ++ x :: B /\ length A = pos ls /\ length B = (size - S (pos ls))%nat /\
    ring (Write ls p) = A ++ TrimRight p LF :: B /\
    pos (Write ls p) = (if decide (S (pos ls) = size) then 0%nat else S (pos ls)) /\
    full (Write ls p) = (if decide (S (pos ls) = size) then true else full ls).
Proof.
  intros Hl Hp. destruct (lookup_lt_is_Some_2 (ring ls) (pos ls)) as [x Hx]; [lia|].
  pose proof (take_drop_middle (ring ls) (pos ls) x Hx) as Hsplit.
  assert (HA : length (take (pos ls) (ring ls)) = pos ls) by (apply length_take_le; lia).
  assert (Hpos : pos (Write ls p) = if decide (S (pos ls) = size) then 0%nat else S (pos ls)).
  { cbn. rewrite Nat.add_1_r. case_decide as He; [by rewrite He, Nat.Div0.mod_same|apply Nat.mod_small; lia]. }
  exists (take (pos ls) (ring ls)), x, (drop (S (pos ls)) (ring ls)).
  split_and!; [done|done|rewrite length_drop; lia| |done|].
  - cbn. rewrite <- Hsplit at 1. rewrite insert_app_r_alt by lia. by rewrite HA, Nat.sub_diag.
  - change (full (Write ls p)) with (if decide (pos (Write ls p) = 0%nat) then true else full ls).
    rewrite Hpos. by repeat case_decide.
Qed.

Lemma cut_after {T} (A B : list T) (x : T) n :
  n = length A -> take (S n) (A ++ x :: B) = A ++ [x] /\ drop (S n) (A ++ x :: B) = B.
Proof.
  intros ->. replace (A ++ x :: B) with ((A ++ [x]) ++ B) by (by rewrite <- app_assoc).
  replace (S (length A)) with (length (A ++ [x])) by (rewrite length_app; cbn; lia).
  by rewrite drop_app_length, take_app_length.
Qed.

Lemma window_write ls all p :
  (0 < size)%nat -> window ls all -> window (Write ls p) (all ++ [TrimRight p LF]).
Proof.
  intros Hn [Hl Hp Hpart Hfull].
  destruct (Write_shape ls p Hl Hp) as (A & x & B & Hring & HA & HB & Hring' & Hpos & Hfl).
  set (line := TrimRight p LF) in *. rewrite Hring, <- HA, take_app_length, drop_app_length in Hfull.
  rewrite Hring, <- HA, take_app_length in Hpart.
  destruct (cut_after A B line (pos ls) (eq_sym HA)) as [Hct Hcd].
  assert (Hnext : full ls = true -> B ++ A ++ [line] = lastN size (all ++ [line])).
  { intros Hf. destruct (Hfull Hf) as [Hlen Hw]. rewrite lastN_snoc, length_lastN, <- Hw by done.
    rewrite (proj2 (Nat.leb_le size (Nat.min size (length all)))) by lia. cbn. by rewrite app_assoc. }
  split; rewrite ?Hring', ?Hpos, ?Hfl.
  - rewrite length_app. cbn. lia.
  - case_decide; lia.
  - case_decide; [done|]. intros Hf. destruct (Hpart Hf) as [Hlen Htake].
    rewrite Hct, length_app, Htake. cbn. split; [lia|done].
  - rewrite length_app. cbn [length]. case_decide as He.
    + intros _. assert (HB0 : B = []) by (apply length_zero_iff_nil; lia). subst B.
      rewrite drop_0, take_0, app_nil_r. destruct (full ls) eqn:Hf.
      * destruct (Hfull eq_refl). split; [lia|by apply Hnext].
      * destruct (Hpart eq_refl) as [Hlen Htake]. rewrite Htake. split; [lia|].
        rewrite lastN_short; [done|]. rewrite length_app. cbn. lia.
    + intros Hf. destruct (Hfull Hf). rewrite Hct, Hcd. split; [lia|by apply Hnext].
Qed.

Lemma window_run ls all ps :
  (0 < size)%nat -> window ls all ->
  window (foldl Write ls ps) (all ++ ((fun p => TrimRight p LF) <$> ps)).
Proof.
  intros Hn. revert ls all. induction ps as [|p ps IH]; intros ls all Hw; [by rewrite app_nil_r|].
  cbn [foldl fmap list_fmap]. rewrite cons_middle, app_assoc. by apply IH, window_write.
Qed.

Lemma window_buffered ls all : window ls all -> buffered ls = filter nonempty (lastN size all).
Proof.
  intros [Hl Hp Hpart Hfull]. unfold buffered. destruct (full ls).
  - destruct (Hfull eq_refl) as [_ <-]. by rewrite filter_app.
  - destruct (Hpart eq_refl) as [Hlen ->]. rewrite lastN_short; [done|lia].
Qed.
End log_stream.

(** The ring refines the log: after any sequence of writes, a new
    subscriber is replayed exactly the latest 4000 lines written, oldest first
    and without the empty ones, however often the ring has wrapped. *)
Lemma log_ring_refines (ps : list bytes) :
  buffered (foldl (Write logRingSize) (NewLogStream logRingSize) ps) =
  filter nonempty (lastN logRingSize ((fun p => TrimRight p LF) <$> ps)).
Proof.
  assert (Hn : (0 < logRingSize)%nat) by (unfold logRingSize; lia).
  apply window_buffered. apply (window_run logRingSize _ [] ps Hn), window_new, Hn.
Qed.

(** ** Server-sent events *)

Definition writeSSE (line : bytes) : bytes :=
  concat ((fun part => bytes_of_string "data: " ++ TrimRight part CR ++ [LF]) <$> Split line LF) ++ [LF].

(** What [handleStream] writes: log lines and heartbeats. *)
Inductive item := Line (l : bytes) | Heartbeat.

Definition write_item (i : item) : bytes :=
  match i with Line l => writeSSE l | Heartbeat => bytes_of_string ": heartbeat" ++ [LF; LF] end.

(** The client of the format: lines end at LF, CR or CRLF; a [data] line adds
    to the event, a blank line dispatches it, other lines are ignored. *)
Fixpoint sse_lines (cur : bytes) (stream : bytes) : list bytes :=
  match stream with
  | [] => []
  | x :: rest =>
      if decide (x = LF) then cur :: sse_lines [] rest
      else if decide (x = CR) then
        match rest with
        | y :: rest' => if decide (y = LF) then cur :: sse_lines [] rest' else cur :: sse_lines [] rest
        | [] => [cur]
        end
      else sse_lines (cur ++ [x]) rest
  end.

Definition data_field (l : bytes) : option bytes :=
  match l with
  | x64 :: x61 :: x74 :: x61 :: x3a :: x20 :: v => Some v
  | x64 :: x61 :: x74 :: x61 :: x3a :: v => Some v
  | [x64; x61; x74; x61] => Some []
  | _ => None
  end.

(** [buf] is the data collected so far, [None] when there is none. *)
Fixpoint sse_dispatch (buf : option bytes) (lines : list bytes) : list bytes :=
  match lines with
  | [] => []
  | [] :: rest =>
      match buf with Some d => d :: sse_dispatch None rest | None => sse_dispatch None rest end
  | l :: rest =>
      match data_field l with
      | Some v => sse_dispatch (Some (match buf with None => v | Some d => d ++ LF :: v end)) rest
      | None => sse_dispatch buf rest
      end
  end.

Definition sse_events (stream : bytes) : list bytes := sse_dispatch None (sse_lines [] stream).

(** Bytes without a line terminator. *)
Definition plain (l : bytes) : Prop := LF ∉ l /\ CR ∉ l.

Lemma sse_lines_plain cur l rest : plain l -> sse_lines cur (l ++ LF :: rest) = (cur ++ l) :: sse_lines [] rest.
Proof.
  revert cur. induction l as [|x l IH]; intros cur [Hl Hc].
  - cbn. by rewrite app_nil_r.
  - apply not_elem_of_cons in Hl as [? ?], Hc as [? ?]. cbn [sse_lines app].
    rewrite !decide_False by done. rewrite IH by done. by rewrite <- app_assoc.
Qed.

Lemma TrimRight_plain l : CR ∉ l -> TrimRight l CR = l.
Proof.
  intros Hc. unfold TrimRight. transitivity (reverse (reverse l)); [f_equal|apply reverse_involutive].
  rewrite <- (reverse_involutive l) in Hc. destruct (reverse l) as [|x r]; [done|]. cbn.
  rewrite decide_False; [done|]. intros ->. apply Hc. rewrite reverse_cons. set_solver.
Qed.

Lemma Split_plain l : CR ∉ l -> Forall plain (Split l LF).
Proof.
  induction l as [|x l IH]; intros Hc; cbn [Split].
  - repeat constructor; apply not_elem_of_nil.
  - apply not_elem_of_cons in Hc as [? Hc]. specialize (IH Hc). case_decide.
    + constructor; [split; apply not_elem_of_nil|done].
    + destruct (Split l LF) as [|part parts]; [by repeat constructor; set_solver|].
      apply Forall_cons in IH as [[] ?]. constructor; [|done]. split; apply not_elem_of_cons; done.
Qed.

(** Joining the parts again. *)
Definition rejoin (buf : option bytes) (parts : list bytes) : option bytes :=
  foldl (fun b v => Some (match b with None => v | Some d => d ++ LF :: v end)) buf parts.

Lemma rejoin_prefix a d parts : rejoin (Some (a ++ d)) parts = (app a) <$> rejoin (Some d) parts.
Proof.
  revert d. induction parts as [|v parts IH]; intros d; [done|]. unfold rejoin in *. cbn.
  by rewrite <- IH, app_assoc.
Qed.

Lemma Split_rejoin l : rejoin None (Split l LF) = Some l.
Proof.
  induction l as [|x l IH]; [done|]. cbn [Split]. case_decide as Hx.
  - subst. destruct (Split l LF) as [|v parts]; [done|].
    change (rejoin (Some ([LF] ++ v)) parts = Some (LF :: l)). rewrite rejoin_prefix.
    change (rejoin None (v :: parts)) with (rejoin (Some v) parts) in IH. by rewrite IH.
  - destruct (Split l LF) as [|v parts]; [done|].
    change (rejoin (Some ([x] ++ v)) parts = Some (x :: l)). rewrite rejoin_prefix.
    change (rejoin None (v :: parts)) with (rejoin (Some v) parts) in IH. by rewrite IH.
Qed.

Definition data_line (part : bytes) : bytes := bytes_of_string "data: " ++ part.

Lemma plain_app l l' : plain l -> plain l' -> plain (l ++ l').
Proof. intros [] []. split; by apply not_elem_of_app. Qed.

Lemma plain_data part : plain part -> plain (data_line part).
Proof. apply plain_app. by split; apply (bool_decide_unpack _). Qed.

Lemma writeSSE_lines line rest :
  CR ∉ line -> sse_lines [] (writeSSE line ++ rest) = (data_line <$> Split line LF) ++ [] :: sse_lines [] rest.
Proof.
  intros Hc. unfold writeSSE. rewrite <- app_assoc. induction (Split_plain line Hc) as [|part parts Hp _ IH]; [done|].
  cbn [fmap list_fmap concat]. rewrite TrimRight_plain by apply Hp.
  rewrite (app_assoc (bytes_of_string _) part), <- !app_assoc, app_assoc.
  change (bytes_of_string "data: " ++ part) with (data_line part).
  cbn [app]. rewrite sse_lines_plain by (by apply plain_data). cbn [app]. f_equal. exact IH.
Qed.

Lemma dispatch_data buf parts rest :
  sse_dispatch buf ((data_line <$> parts) ++ rest) = sse_dispatch (rejoin buf parts) rest.
Proof. revert buf. induction parts as [|v parts IH]; intros buf; [done|]. cbn. apply IH. Qed.

(** Framing is faithful. Whatever lines without carriage returns are
    logged, newlines included, and whatever heartbeats come between, the
    client of the stream receives exactly those lines, one event each: a line
    cannot forge or split an event. *)
Lemma sse_roundtrip (items : list item) :
  Forall (fun i => match i with Line l => CR ∉ l | Heartbeat => True end) items ->
  sse_events (concat (write_item <$> items)) =
  omap (fun i => match i with Line l => Some l | Heartbeat => None end) items.
Proof.
  unfold sse_events. induction 1 as [|[l|] items Hi _ IH]; [done| |].
  - cbn [fmap list_fmap concat write_item]. rewrite writeSSE_lines, dispatch_data, Split_rejoin by done.
    cbn. f_equal. exact IH.
  - exact IH.
Qed.

Lemma sse_roundtrip_witness :
  sse_events (concat (write_item <$> [Line [x61; LF; LF; x62]; Heartbeat; Line []])) = [[x61; LF; LF; x62]; []].
Proof.
  apply (sse_roundtrip [Line [x61; LF; LF; x62]; Heartbeat; Line []]).
  repeat constructor; apply (bool_decide_unpack _); vm_compute; exact I.
Defined.

(** A carriage return inside a line still forges an event: only trailing ones
    are trimmed. *)
Lemma sse_cr_forges :
  sse_events (writeSSE (bytes_of_string "ok" ++ [CR; CR] ++ bytes_of_string "data: forged")) =
  [bytes_of_string "ok"; bytes_of_string "forged"].
Proof. vm_compute. reflexivity. Qed.
End LogStream.
