(* ===== verification/Onion.v ===== *)
(** * Onion routing ([pkg/ares/onion]: permutation.go, ecies.go, onion.go)

    The coordinator-free slot permutation over a SHA-256 keystream, the ECIES
    envelope over X25519, HKDF and AES-GCM as parameters with their laws, and
    the onion a participant builds and the peelers open. *)

From S2P Require Import Prelude Sha256.
Import Sha256.

#[local] Open Scope Z_scope.
#[local] Open Scope go_scope.

Module Onion.

(** ** The keystream *)

Record seedStream := mkStream { seed : bytes; counter : Z; buf : bytes; off : nat }.

(** [counter] is a uint64. *)
Definition next (s : seedStream) : byte * seedStream :=
  let s :=
    if decide (length (buf s) <= off s)%nat then
      mkStream (seed s) ((counter s + 1) mod 2 ^ 64) (sha256 (seed s ++ be64 (counter s))) 0
    else s in
  (nth (off s) (buf s) x00, mkStream (seed s) (counter s) (buf s) (S (off s))).

(** Four stream bytes as a uint32. *)
Definition draw (s : seedStream) : Z * seedStream :=
  let '(b0, s) := next s in
  let '(b1, s) := next s in
  let '(b2, s) := next s in
  let '(b3, s) := next s in
  (Z.lor (Z.lor (Z.lor (Z.shiftl (Z_of_byte b0) 24) (Z.shiftl (Z_of_byte b1) 16))
                (Z.shiftl (Z_of_byte b2) 8)) (Z_of_byte b3), s).

(** [uint32(m)]. *)
Definition uint32 (m : Z) : Z := m mod 2 ^ 32.

Definition draw_limit (m : Z) : Z := uint32 (4294967295 / uint32 m * uint32 m).

(** Draw until a value is below the limit; [None] when [fuel] draws were not. *)
Fixpoint draw_loop (fuel : nat) (m : Z) (s : seedStream) : option (Z * seedStream) :=
  match fuel with
  | O => None
  | S fuel' =>
      let '(v, s) := draw s in
      if v <? draw_limit m then Some (v mod uint32 m, s) else draw_loop fuel' m s
  end.

Definition intn (fuel : nat) (m : Z) (s : seedStream) : option (Z * seedStream) :=
  if m <=? 1 then Some (0, s) else draw_loop fuel m s.

(** [perm[i], perm[j] = perm[j], perm[i]] *)
Definition swap (i j : nat) (l : list Z) : list Z :=
  match l !! i, l !! j with
  | Some x, Some y => <[j := x]> (<[i := y]> l)
  | _, _ => l
  end.

(** The shuffle from index [i] down. *)
Fixpoint shuffle (fuel : nat) (i : nat) (perm : list Z) (s : seedStream) : option (list Z) :=
  match i with
  | O => Some perm
  | S i' =>
      match intn fuel (Z.of_nat i + 1) s with
      | None => None
      | Some (j, s) => shuffle fuel i' (swap i (Z.to_nat j) perm) s
      end
  end.

Definition SlotPermutation (fuel : nat) (sd : bytes) (n : nat) : option (list Z) :=
  shuffle fuel (n - 1) (seqZ 0 (Z.of_nat n)) (mkStream sd 0 [] 0).

(** ** Envelopes *)

Definition x25519KeyLen : nat := 32.
Definition gcmNonceLen : nat := 12.
Definition hkdfInfo : bytes := bytes_of_string "ares_onion_v1".

(** X25519 public keys and key agreement ([None]: the all-zero result), the
    first 32 bytes of HKDF-SHA256 of a secret and an info string, and
    AES-256-GCM with an empty additional data. *)
Class Ciphers := {
  x_public : bytes -> bytes;
  x_ecdh : bytes -> bytes -> option bytes;
  hkdf32 : bytes -> bytes -> bytes;
  gcm_seal : bytes -> bytes -> bytes -> bytes;
  gcm_open : bytes -> bytes -> bytes -> option bytes
}.

Class CiphersLaws `{Ciphers} : Prop := {
  x_public_size : forall a, length a = x25519KeyLen -> length (x_public a) = x25519KeyLen;
  x_ecdh_comm : forall a b, length a = x25519KeyLen -> length b = x25519KeyLen ->
    x_ecdh a (x_public b) = x_ecdh b (x_public a);
  gcm_open_seal : forall k nonce m, length nonce = gcmNonceLen -> gcm_open k nonce (gcm_seal k nonce m) = Some m
}.

Inductive OnionError :=
  | BadRecipientPub | BadRecipientPriv | ECDHError | EnvelopeTooShort | AEADOpen
  | SelfIndexRange (i n : Z)
  | WrapLayer (i : nat) (e : OnionError)
  | PeelItem (i : nat) (e : OnionError)
  | MemoNotFound.

Section onion.
Context `{Ciphers}.

Definition deriveKey (shared : bytes) : bytes := hkdf32 shared hkdfInfo.

(** [rnd] is the fresh ephemeral private key and nonce. *)
Definition ECIESEncrypt (rnd : bytes * bytes) (recipientPub plaintext : bytes) : OnionError + bytes :=
  let '(eph, nonce) := rnd in
  if negb (Nat.eqb (length recipientPub) x25519KeyLen) then inl BadRecipientPub
  else match x_ecdh eph recipientPub with
  | None => inl ECDHError
  | Some shared => inr (x_public eph ++ nonce ++ gcm_seal (deriveKey shared) nonce plaintext)
  end.

Definition ECIESDecrypt (recipientPriv envelope : bytes) : OnionError + bytes :=
  if decide (length envelope < x25519KeyLen + gcmNonceLen)%nat then inl EnvelopeTooShort
  else if negb (Nat.eqb (length recipientPriv) x25519KeyLen) then inl BadRecipientPriv
  else
    let ephPub := take x25519KeyLen envelope in
    let nonce := take gcmNonceLen (drop x25519KeyLen envelope) in
    let ct := drop (x25519KeyLen + gcmNonceLen) envelope in
    match x_ecdh recipientPriv ephPub with
    | None => inl ECDHError
    | Some shared =>
        match gcm_open (deriveKey shared) nonce ct with
        | None => inl AEADOpen
        | Some pt => inr pt
        end
    end.

(** ** Onions *)

(** The loop of [BuildOnion] from the last layer down to layer [i]: the data
    and the memo so far.  [rnds] is the randomness of each layer. *)
Fixpoint wrap (rnds : nat -> bytes * bytes) (payload : bytes) (selfIndex : nat) (i : nat)
    (pubs : list bytes) : OnionError + (bytes * option bytes) :=
  match pubs with
  | [] => inr (payload, None)
  | pub :: pubs' =>
      match wrap rnds payload selfIndex (S i) pubs' with
      | inl e => inl e
      | inr (data, memo) =>
          match ECIESEncrypt (rnds i) pub data with
          | inl e => inl (WrapLayer i e)
          | inr enc => inr (enc, if decide (i = selfIndex) then Some enc else memo)
          end
      end
  end.

Definition BuildOnion (rnds : nat -> bytes * bytes) (payload : bytes) (peelOrderPubs : list bytes)
    (selfIndex : Z) : OnionError + (bytes * option bytes) :=
  if (selfIndex <? 0) || (zlen peelOrderPubs <=? selfIndex) then
    inl (SelfIndexRange selfIndex (zlen peelOrderPubs))
  else wrap rnds payload (Z.to_nat selfIndex) 0 peelOrderPubs.

(** The loop of [PeelBatch]: the inner layers and the index of the last item
    equal to the memo. *)
Fixpoint peel_items (priv : bytes) (selfMemo : option bytes) (i : nat) (own : Z) (onions : list bytes)
    : OnionError + (list bytes * Z) :=
  match onions with
  | [] => inr ([], own)
  | o :: onions' =>
      let own := if bool_decide (Some o = selfMemo) then Z.of_nat i else own in
      match ECIESDecrypt priv o with
      | inl e => inl (PeelItem i e)
      | inr inner =>
          match peel_items priv selfMemo (S i) own onions' with
          | inl e => inl e
          | inr (peeled, own) => inr (inner :: peeled, own)
          end
      end
  end.

Definition PeelBatch (myPriv : bytes) (selfMemo : option bytes) (onions : list bytes)
    : OnionError + (list bytes * Z) :=
  match peel_items myPriv selfMemo 0 (-1) onions with
  | inl e => inl e
  | inr (peeled, own) =>
      if bool_decide (is_Some selfMemo) && (own <? 0) then inl MemoNotFound else inr (peeled, own)
  end.

(** The peel chain: each peeler opens its layer of the whole batch, shuffles
    it and forwards it. *)
Record peeler := mkPeeler { priv : bytes; memo : bytes; mix : list bytes -> list bytes }.

Fixpoint peel_chain (ps : list peeler) (batch : list bytes) : OnionError + list bytes :=
  match ps with
  | [] => inr batch
  | p :: ps' =>
      match PeelBatch (priv p) (Some (memo p)) batch with
      | inl e => inl e
      | inr (peeled, _) => peel_chain ps' (mix p peeled)
      end
  end.
End onion.

Lemma uint32_small m : 0 <= m < 2 ^ 32 -> uint32 m = m.
Proof. apply Z.mod_small. Qed.

Lemma draw_limit_eq m : 1 < m < 2 ^ 32 -> draw_limit m = 4294967295 / m * m.
Proof.
  intros Hm. unfold draw_limit. rewrite (uint32_small m) by lia. apply uint32_small.
  pose proof (Z.div_mod 4294967295 m ltac:(lia)). pose proof (Z.mod_pos_bound 4294967295 m ltac:(lia)).
  assert (0 <= 4294967295 / m) by (apply Z.div_pos; lia). nia.
Qed.

#[global] Opaque draw_limit draw uint32.

(** ** The permutation *)

Lemma swap_perm i j l : swap i j l ≡ₚ l.
Proof.
  unfold swap. destruct (l !! i) as [x|] eqn:Hi; [|done]. destruct (l !! j) as [y|] eqn:Hj; [|done].
  by apply Permutation_insert_swap.
Qed.

Lemma shuffle_perm fuel i l s l' : shuffle fuel i l s = Some l' -> l' ≡ₚ l.
Proof.
  revert l s. induction i as [|i IH]; intros l s Hs; cbn [shuffle] in Hs; [by simplify_eq|].
  destruct (intn _ _ _) as [[j s']|]; [|done]. etrans; [by eapply IH|apply swap_perm].
Qed.

(** More fuel does not change a result. *)
Lemma draw_loop_mono f f' m s r : (f <= f')%nat -> draw_loop f m s = Some r -> draw_loop f' m s = Some r.
Proof.
  revert f' s. induction f as [|f IH]; intros f' s Hle Hd; [done|]. destruct f' as [|f']; [lia|].
  cbn [draw_loop] in *. destruct (draw s) as [v s']. destruct (v <? draw_limit m); [done|].
  apply IH; [lia|done].
Qed.

Lemma shuffle_mono f f' i l s r : (f <= f')%nat -> shuffle f i l s = Some r -> shuffle f' i l s = Some r.
Proof.
  intros Hle. revert l s. induction i as [|i IH]; intros l s Hs; cbn [shuffle] in *; [done|].
  destruct (intn f _ s) as [[j s']|] eqn:Hi; [|done].
  assert (Hi' : intn f' (Z.of_nat (S i) + 1) s = Some (j, s')).
  { unfold intn in *. destruct (_ <=? 1); [done|]. by eapply draw_loop_mono. }
  rewrite Hi'. by apply IH.
Qed.

(** The draws are below the modulus. *)
Lemma intn_range fuel m s j s' : 1 <= m < 2 ^ 32 -> intn fuel m s = Some (j, s') -> 0 <= j < m.
Proof.
  intros Hm. unfold intn. destruct (Z.leb_spec m 1); [intros; simplify_eq; lia|].
  assert (Hu : uint32 m = m) by (apply uint32_small; lia).
  revert s. induction fuel as [|fuel IH]; intros s Hs; cbn [draw_loop] in Hs; [done|].
  destruct (draw s) as [v s1]. destruct (v <? draw_limit m); [|by eapply IH].
  injection Hs as <- _. rewrite Hu. apply Z.mod_pos_bound. lia.
Qed.

Lemma filter_none {A} (P : A -> Prop) `{forall x, Decision (P x)} (l : list A) :
  (forall x, x ∈ l -> ~ P x) -> filter P l = [].
Proof.
  induction l as [|x l IH]; intros Hl; [done|]. rewrite filter_cons_False by (apply Hl; left).
  apply IH. intros y Hy. apply Hl. by right.
Qed.

Lemma seqZ_around a m r :
  0 <= r < m -> seqZ a m = seqZ a r ++ (a + r) :: seqZ (a + r + 1) (m - r - 1).
Proof.
  intros Hr. replace (seqZ a m) with (seqZ a (r + (1 + (m - r - 1)))) by (f_equal; lia).
  by rewrite !seqZ_app by lia.
Qed.

(** Exactly [q] of the values below [q * m] have residue [r]. *)
Lemma residues m r (q : nat) :
  0 <= r < m -> length (filter (fun v => v mod m = r) (seqZ 0 (Z.of_nat q * m))) = q.
Proof.
  intros Hr. induction q as [|q IH]; [done|].
  assert (Hmod : forall i, Z.of_nat q * m <= i < Z.of_nat q * m + m -> i mod m = i - Z.of_nat q * m).
  { intros i Hi. replace i with ((i - Z.of_nat q * m) + Z.of_nat q * m) at 1 by lia.
    rewrite Z_mod_plus_full. apply Z.mod_small. lia. }
  replace (Z.of_nat (S q) * m) with (Z.of_nat q * m + m) by lia.
  rewrite seqZ_app, filter_app, length_app, IH by (auto || nia).
  rewrite (seqZ_around _ m r Hr), filter_app, filter_cons_True by (rewrite Hmod; lia).
  rewrite !filter_none; [cbn; lia| |].
  all: intros v Hv%elem_of_seqZ; rewrite Hmod; lia.
Qed.

(** The slot permutation. Whenever the rejection sampling of every draw
    ends, within any bound, [SlotPermutation] is a permutation of the slots,
    the same for every larger bound, so all parties with the seed agree and no
    two of them share a slot; and each draw is unbiased: of the stream values
    it accepts, every residue has equally many. *)
Lemma slot_permutation fuel sd n perm :
  SlotPermutation fuel sd n = Some perm ->
  perm ≡ₚ seqZ 0 (Z.of_nat n) /\
  (forall fuel', (fuel <= fuel')%nat -> SlotPermutation fuel' sd n = Some perm) /\
  (forall m r, 1 < m < 2 ^ 32 -> 0 <= r < m ->
     Z.of_nat (length (filter (fun v => v mod m = r) (seqZ 0 (draw_limit m)))) = 4294967295 / m).
Proof.
  intros Hs. split_and!.
  - by eapply shuffle_perm.
  - intros fuel' Hle. by eapply shuffle_mono.
  - intros m r Hm Hr. rewrite draw_limit_eq by done.
    assert (0 <= 4294967295 / m) by (apply Z.div_pos; lia).
    replace (4294967295 / m * m) with (Z.of_nat (Z.to_nat (4294967295 / m)) * m) by (rewrite Z2Nat.id; lia).
    rewrite residues by done. lia.
Qed.

(** The four slots of the seed [1, 2, 3]. *)
Lemma slot_permutation_witness :
  exists perm, SlotPermutation 4 [x01; x02; x03] 4 = Some perm /\ perm ≡ₚ seqZ 0 4.
Proof.
  destruct (SlotPermutation 4 [x01; x02; x03] 4) as [perm|] eqn:He; [|vm_compute in He; discriminate].
  exists perm. split; [reflexivity|]. exact (proj1 (slot_permutation 4 [x01; x02; x03] 4 perm He)).
Defined.

(** ** The peel chain *)

Section chain.
Context `{HC : Ciphers} `{HL : !CiphersLaws}.

Definition rnd_ok (r : bytes * bytes) : Prop := length r.1 = x25519KeyLen /\ length r.2 = gcmNonceLen.

(** Opening an envelope gives back what was sealed. *)
Lemma ECIES_roundtrip rnd sk pt env :
  rnd_ok rnd -> length sk = x25519KeyLen ->
  ECIESEncrypt rnd (x_public sk) pt = inr env -> ECIESDecrypt sk env = inr pt.
Proof.
  destruct rnd as [eph nonce]. intros [He Hn] Hs. cbn in He, Hn. unfold ECIESEncrypt.
  destruct (negb _); [done|]. destruct (x_ecdh eph (x_public sk)) as [shared|] eqn:Hx; [|done].
  intros [= <-]. unfold ECIESDecrypt.
  assert (Hp : length (x_public eph) = x25519KeyLen) by (by apply x_public_size).
  rewrite decide_False by (rewrite !length_app; lia).
  rewrite (proj2 (Nat.eqb_eq _ _) Hs). cbn [negb].
  rewrite <- Hp, take_app_length, drop_app_length, <- drop_drop, drop_app_length.
  rewrite <- Hn, take_app_length, drop_app_length, x_ecdh_comm, Hx by done. cbn.
  by rewrite gcm_open_seal.
Qed.

Lemma peel_items_ok sk (f : bytes -> bytes) m i own batch :
  (forall o, o ∈ batch -> ECIESDecrypt sk o = inr (f o)) ->
  exists own', peel_items sk (Some m) i own batch = inr (f <$> batch, own') /\
    ((m ∉ batch /\ own' = own) \/ (exists k, own' = Z.of_nat (i + k) /\ batch !! k = Some m)).
Proof.
  revert i own. induction batch as [|o batch IH]; intros i own Hd; cbn [peel_items].
  - exists own. split; [done|]. left. split; [apply not_elem_of_nil|done].
  - rewrite (Hd o) by left.
    destruct (IH (S i) (if bool_decide (Some o = Some m) then Z.of_nat i else own)) as (own' & -> & Ho).
    { intros o' Ho'. apply Hd. by right. }
    exists own'. split; [done|]. destruct Ho as [[Hn ->]|(k & -> & Hk)].
    + case_bool_decide as He; [right; exists 0%nat; rewrite Nat.add_0_r; by simplify_eq|].
      left. split; [|done]. apply not_elem_of_cons. split; [congruence|done].
    + right. exists (S k). split; [f_equal; lia|done].
Qed.

(** A peeler whose memo is in a batch addressed to it opens the whole batch
    and finds its own item. *)
Lemma PeelBatch_ok sk (f : bytes -> bytes) m batch :
  (forall o, o ∈ batch -> ECIESDecrypt sk o = inr (f o)) -> m ∈ batch ->
  exists k, PeelBatch sk (Some m) batch = inr (f <$> batch, Z.of_nat k) /\ batch !! k = Some m.
Proof.
  intros Hd Hm. unfold PeelBatch. destruct (peel_items_ok sk f m 0 (-1) batch Hd) as (own & -> & [[? _]|(k & -> & Hk)]); [done|].
  exists k. split; [|done]. rewrite (proj2 (Z.ltb_ge _ _)) by lia. by rewrite andb_false_r.
Qed.

(** A participant: its payload, its layers' randomness and its place. *)
Record builder := mkBuilder { b_payload : bytes; b_rnds : nat -> bytes * bytes; b_self : nat }.

Definition layer (b : builder) (i : nat) (sks : list bytes) : OnionError + (bytes * option bytes) :=
  wrap (b_rnds b) (b_payload b) (b_self b) i (x_public <$> sks).

Lemma layer_peel b i sk sks d m :
  (forall k, rnd_ok (b_rnds b k)) -> length sk = x25519KeyLen -> layer b i (sk :: sks) = inr (d, m) ->
  exists d' m', layer b (S i) sks = inr (d', m') /\ ECIESDecrypt sk d = inr d' /\
    m = if decide (i = b_self b) then Some d else m'.
Proof.
  intros Hr Hs. unfold layer. cbn [fmap list_fmap wrap].
  destruct (wrap _ _ _ (S i) _) as [|[d' m']]; [done|].
  destruct (ECIESEncrypt (b_rnds b i) (x_public sk) d') as [|enc] eqn:He; [done|]. intros [= <- <-].
  exists d', m'. split_and!; [done| |done]. by eapply ECIES_roundtrip.
Qed.

(** The memo is the layer at the builder's own place. *)
Lemma layer_memo b i done sk sks d m :
  (forall k, rnd_ok (b_rnds b k)) -> Forall (fun k => length k = x25519KeyLen) (done ++ sk :: sks) ->
  b_self b = (i + length done)%nat -> layer b i (done ++ sk :: sks) = inr (d, m) ->
  exists m', layer b (b_self b) (sk :: sks) = inr (m', Some m') /\ m = Some m'.
Proof.
  intros Hr. revert i d m. induction done as [|k done IH]; intros i d m Hl Hb Hw.
  - cbn in Hb. rewrite Nat.add_0_r in Hb. apply Forall_cons in Hl as [Hk _].
    destruct (layer_peel b i sk sks d m Hr Hk Hw) as (d' & m' & _ & _ & Hm).
    rewrite decide_True in Hm by done. subst m. rewrite Hb. by exists d.
  - apply Forall_cons in Hl as [Hk Hl].
    destruct (layer_peel b i k (done ++ sk :: sks) d m Hr Hk Hw) as (d' & m' & Hw' & _ & Hm).
    cbn in Hb. rewrite decide_False in Hm by lia. subst m. apply (IH (S i) d' m'); [done|lia|done].
Qed.

(** The invariant of the chain before round [i]: the batch is, up to order,
    one layer-[i] onion of each builder. *)
Definition in_flight (bs : list builder) (i : nat) (sks : list bytes) (batch : list bytes) : Prop :=
  exists datas, batch ≡ₚ datas /\ Forall2 (fun b d => exists m, layer b i sks = inr (d, m)) bs datas.

Lemma Forall2_fmap_r_exists {A B} (P : A -> B -> Prop) (Q : A -> B -> Prop) (f : B -> B) l k :
  (forall a b, a ∈ l -> P a b -> Q a (f b)) -> Forall2 P l k -> Forall2 Q l (f <$> k).
Proof.
  intros Hf. induction 1 as [|a b l k Hab _ IH]; [constructor|]. cbn. constructor.
  - apply Hf; [left|done].
  - apply IH. intros a' b' Ha'. apply Hf. by right.
Qed.

Definition opened (sk o : bytes) : bytes := match ECIESDecrypt sk o with inr d => d | inl _ => [] end.

(** One round: the peeler opens every item and finds its own. *)
Lemma peel_round bs i sk sks batch (b : builder) m :
  (forall b k, b ∈ bs -> rnd_ok (b_rnds b k)) -> length sk = x25519KeyLen ->
  in_flight bs i (sk :: sks) batch -> b ∈ bs -> layer b i (sk :: sks) = inr (m, Some m) ->
  exists k, PeelBatch sk (Some m) batch = inr (opened sk <$> batch, Z.of_nat k) /\ batch !! k = Some m /\
    in_flight bs (S i) sks (opened sk <$> batch).
Proof.
  intros Hr Hs (datas & Hp & Hf) Hb Hm.
  assert (Hdec : forall o, o ∈ batch -> ECIESDecrypt sk o = inr (opened sk o)).
  { intros o Ho. rewrite Hp in Ho. apply list_elem_of_lookup in Ho as [j Hj].
    destruct (Forall2_lookup_r _ _ _ _ _ Hf Hj) as (b' & Hb' & m' & Hw).
    apply list_elem_of_lookup_2 in Hb'.
    destruct (layer_peel b' i sk sks o m' (fun k => Hr b' k Hb') Hs Hw) as (d' & m'' & _ & Hd & _).
    unfold opened. by rewrite Hd. }
  assert (Hin : m ∈ batch).
  { rewrite Hp. apply list_elem_of_lookup in Hb as [j Hj].
    destruct (Forall2_lookup_l _ _ _ _ _ Hf Hj) as (d & Hd & m' & Hw). apply list_elem_of_lookup. exists j. congruence. }
  destruct (PeelBatch_ok sk (opened sk) m batch Hdec Hin) as (k & Hk & Hl).
  exists k. split_and!; [done|done|]. exists (opened sk <$> datas). split; [by rewrite Hp|].
  eapply Forall2_fmap_r_exists; [|done]. intros b' d Hb' [m' Hw].
  destruct (layer_peel b' i sk sks d m' (fun k => Hr b' k Hb') Hs Hw) as (d' & m'' & Hw' & Hd & _).
  exists m''. unfold opened. by rewrite Hd.
Qed.

(** Peeler [j] of the chain has key [j], and the memo of the builder at [j]. *)
Definition peeler_ok (bs : list builder) (sks : list bytes) (j : nat) (p : peeler) : Prop :=
  sks !! j = Some (priv p) /\ (forall l, mix p l ≡ₚ l) /\
  exists b, bs !! j = Some b /\ b_self b = j /\ exists d, layer b 0 sks = inr (d, Some (memo p)).

Lemma peel_chain_ok bs done sks ps batch :
  (forall b k, b ∈ bs -> rnd_ok (b_rnds b k)) -> Forall (fun k => length k = x25519KeyLen) (done ++ sks) ->
  length ps = length sks ->
  (forall j p, ps !! j = Some p -> peeler_ok bs (done ++ sks) (length done + j) p) ->
  in_flight bs (length done) sks batch ->
  exists final, peel_chain ps batch = inr final /\ in_flight bs (length (done ++ sks)) [] final.
Proof.
  intros Hr. revert done sks batch. induction ps as [|p ps IH]; intros done sks batch Hl Hlen Hps Hin.
  - destruct sks; [|done]. exists batch. rewrite app_nil_r. done.
  - destruct sks as [|sk sks]; [done|]. cbn in Hlen.
    destruct (Hps 0%nat p eq_refl) as (Hk & Hmix & b & Hb & Hself & d & Hd). rewrite Nat.add_0_r in *.
    rewrite lookup_app_r, Nat.sub_diag in Hk by lia. cbn in Hk. injection Hk as Hk.
    apply list_elem_of_lookup_2 in Hb.
    destruct (layer_memo b 0 done sk sks d _ (fun k => Hr b k Hb) Hl Hself Hd) as (m' & Hm & [= <-]).
    assert (Hsk : length sk = x25519KeyLen) by (by apply Forall_app in Hl as [_ [? _]%Forall_cons]).
    rewrite Hself in Hm.
    destruct (peel_round bs (length done) sk sks batch b (memo p) Hr Hsk Hin Hb Hm) as (k & Hpeel & _ & Hnext).
    cbn [peel_chain]. rewrite <- Hk, Hpeel.
    replace (done ++ sk :: sks) with ((done ++ [sk]) ++ sks) in * by (by rewrite <- app_assoc).
    apply IH; [done|lia| |].
    + intros j q Hq. specialize (Hps (S j) q Hq). rewrite length_app. cbn.
      by replace (length done + 1 + j)%nat with (length done + S j)%nat by lia.
    + rewrite length_app. cbn. rewrite Nat.add_1_r. destruct Hnext as (datas & Hpm & Hf).
      exists datas. split; [by rewrite Hmix|done].
Qed.

(** C31: the shuffle delivers. When every participant built its onion for the
    peel order, whatever the fresh randomness, and the peelers open the batch
    in order, each shuffling it as it likes, then no peeler fails, every one
    finds its own item by its memo, and what comes out is exactly the
    participants' payloads, in some order. *)
Theorem onion_chain_delivers (bs : list builder) (sks : list bytes) (ps : list peeler) (onions batch : list bytes) :
  (forall b k, b ∈ bs -> rnd_ok (b_rnds b k)) -> Forall (fun k => length k = x25519KeyLen) sks ->
  length bs = length sks -> length ps = length sks ->
  Forall2 (fun b o => exists m, BuildOnion (b_rnds b) (b_payload b) (x_public <$> sks) (Z.of_nat (b_self b)) = inr (o, m))
    bs onions ->
  (forall j p, ps !! j = Some p -> sks !! j = Some (priv p) /\ (forall l, mix p l ≡ₚ l) /\
     exists b o, bs !! j = Some b /\ b_self b = j /\
       BuildOnion (b_rnds b) (b_payload b) (x_public <$> sks) (Z.of_nat j) = inr (o, Some (memo p))) ->
  batch ≡ₚ onions ->
  exists final, peel_chain ps batch = inr final /\ final ≡ₚ b_payload <$> bs.
Proof.
  intros Hr Hl Hbs Hps Hon Hpe Hbatch.
  assert (Hbuild : forall b o m, BuildOnion (b_rnds b) (b_payload b) (x_public <$> sks) (Z.of_nat (b_self b)) = inr (o, m) ->
    layer b 0 sks = inr (o, m)).
  { intros b o m. unfold BuildOnion. destruct (_ || _); [done|]. by rewrite Nat2Z.id. }
  destruct (peel_chain_ok bs [] sks ps batch) as (final & Hc & datas & Hp & Hf); [done|done|done| | |].
  - intros j p Hj. destruct (Hpe j p Hj) as (? & ? & b & o & ? & Hs & Hbo). split_and!; [done|done|].
    exists b. split_and!; [done|done|]. exists o. apply Hbuild. by rewrite Hs.
  - exists onions. split; [done|]. eapply Forall2_impl; [done|]. intros b o [m Hm]. exists m. by apply Hbuild.
  - exists final. split; [done|]. rewrite Hp. clear -Hf.
    induction Hf as [|b d bs datas [m Hm] _ IH]; [done|]. cbn in *. injection Hm as <- _. by rewrite IH.
Qed.
End chain.

(** ** Witness: two participants over transparent ciphers *)

Section witness.
#[local] Instance plain_ciphers : Ciphers := {|
  x_public := fun a => a; x_ecdh := fun _ _ => Some []; hkdf32 := fun _ _ => [];
  gcm_seal := fun _ _ m => m; gcm_open := fun _ _ c => Some c |}.
#[local] Instance plain_laws : CiphersLaws.
Proof. split; done. Qed.

Definition demo_sks : list bytes := [replicate 32 x01; replicate 32 x02].
Definition demo_builders : list builder :=
  [mkBuilder [x0a] (fun _ => (replicate 32 x03, replicate 12 x04)) 0;
   mkBuilder [x0b] (fun _ => (replicate 32 x05, replicate 12 x06)) 1].

Definition built (b : builder) : bytes * option bytes :=
  match BuildOnion (b_rnds b) (b_payload b) (x_public <$> demo_sks) (Z.of_nat (b_self b)) with
  | inr r => r
  | inl _ => ([], None)
  end.

Definition demo_peelers : list peeler :=
  zip_with (fun sk b => mkPeeler sk (default [] (built b).2) reverse) demo_sks demo_builders.

Lemma onion_chain_delivers_witness :
  exists final, peel_chain demo_peelers (reverse (fst ∘ built <$> demo_builders)) = inr final /\
    final ≡ₚ [[x0a]; [x0b]].
Proof.
  apply (onion_chain_delivers demo_builders demo_sks demo_peelers (fst ∘ built <$> demo_builders)).
  - intros b k [->|[->|[]%not_elem_of_nil]%elem_of_cons]%elem_of_cons; split; reflexivity.
  - repeat constructor.
  - reflexivity.
  - reflexivity.
  - repeat constructor; eexists; reflexivity.
  - intros [|[|j]] p Hp; [..|discriminate Hp]; injection Hp as <-;
      (split; [reflexivity|split; [intros l; apply reverse_Permutation|]]); eexists _, _; split_and!; reflexivity.
  - apply reverse_Permutation.
Defined.
End witness.
End Onion.
