(* ===== verification/Anon.v ===== *)
(** * Anonymous submission ([pkg/ares/phase/anon])

    The participant's side of the onion shuffle and the two phases that
    sequence it: gossip, and the assembly of the slot list with its lineage
    parents. *)

From S2P Require Import Prelude Sha256 Float64 Lineage LineageStore PhaseTypes Defaults Onion.
Import Lineage LineageStore PhaseTypes Defaults Onion.

#[local] Open Scope Z_scope.
#[local] Open Scope go_scope.

Module Anon.
#[local] Open Scope prog_scope.

Definition CtxAnonParticipants : string := "anon.participants".
Definition CtxPeelRounds : string := "anon.peel_rounds".
Definition CtxAssembledSlotList : string := "anon.assembled_slot_list".
Definition RoleSlotSubmission : string := "slot-submission".
Definition MsgOnionBatch : string := "onion.batch".
Definition MsgPeelForward : string := "onion.peel_forward".
Definition MsgSlotSubmit : string := "slot.submit".
Definition bucketOnions : string := "anon.bucket.onions".
Definition bucketPeels : string := "anon.bucket.peels".
Definition bucketSlots : string := "anon.bucket.slots".

Definition AccumulatedOnions (c : SessionContext) : gmap string bytes := AccumulatedMessages c bucketOnions.

Record SlotEntry := mkSlot { SlotIndex : Z; SlotDKPubHex : string }.

(** [json.Marshal] and [json.Unmarshal] of slot entries and their list. *)
Class SlotJSON := {
  encode_entry : SlotEntry -> bytes;
  decode_entry : bytes -> option SlotEntry;
  encode_entries : list SlotEntry -> bytes
}.

(** An entry whose key is hex survives the wire. *)
Class SlotJSONLaws `{SlotJSON} : Prop :=
  decode_encode_entry : forall i key, decode_entry (encode_entry (mkSlot i (hex_encode key))) = Some (mkSlot i (hex_encode key)).

(** ** Participants *)

Record Participant := mkParticipant {
  p_SlotIndex : Z;
  p_SlotPub : bytes;
  slotPriv : bytes;
  sigSigner : Signer
}.

(** [NewParticipant] over a fresh slot key and signer; an index outside the
    permutation panics, as does a permutation that is not drawn within [fuel]. *)
Definition NewParticipant `{Ciphers} (fuel : nat) (seed : bytes) (n selfIndex : nat) (key : bytes) (sig : Signer)
    : option Participant :=
  perm ← SlotPermutation fuel seed n;
  slot ← perm !! selfIndex;
  Some (mkParticipant slot (x_public key) key sig).

Section participants.
Context `{SlotJSON} `{Ciphers}.

Definition slot_payload (p : Participant) : bytes :=
  encode_entry (mkSlot (p_SlotIndex p) (hex_encode (p_SlotPub p))).

Definition p_BuildOnion (p : Participant) (rnds : nat -> bytes * bytes) (peelOrderPubs : list bytes)
    (selfPeelIndex : Z) : OnionError + (bytes * option bytes) :=
  BuildOnion rnds (slot_payload p) peelOrderPubs selfPeelIndex.

Definition Peel (p : Participant) (selfMemo : option bytes) (onions : list bytes)
    : OnionError + (list bytes * Z) := PeelBatch (slotPriv p) selfMemo onions.

Definition SlotSubmission (now : Z) (p : Participant) (sessionID : string) : CommitError + (bytes * DAGNode) :=
  let payload := slot_payload p in
  match Commit now sessionID "anon-g-verify" RoleSlotSubmission payload [] (Some (sigSigner p)) with
  | inl e => inl e
  | inr node => inr (payload, node)
  end.
End participants.

(** ** The gossip phase *)

Definition gs_OnMessage (msgType from : string) (payload : bytes) : Prog (option gerror) :=
  (if String.eqb msgType MsgOnionBatch then AccumulateMessage bucketOnions from payload
   else if String.eqb msgType MsgPeelForward then AccumulateMessage bucketPeels from payload
   else Ret tt) ;; Ret None.

Definition gs_CheckComplete : Prog bool :=
  let* c := hContext in
  match TryGet as_strings c CtxAnonParticipants with
  | None => Ret false
  | Some participants => Ret (QuorumReached c bucketPeels (zlen participants))
  end.

Definition gs_Exit : Prog (option gerror) :=
  let* c := hContext in
  hSet CtxPeelRounds (VInt (msize (AccumulatedMessages c bucketPeels))) ;; Ret None.

Definition PhaseGShuffle : Phase := {|
  Name := "anon-g-shuffle"; Lifetime := LifetimePerSession; RunsAt := RunsAtInline;
  EntryState := StateGossip; ExitState := StateVerifying; InternalStates := [];
  ConsumedMessageTypes := [MsgOnionBatch; MsgPeelForward];
  Requires := schema [(CtxAnonParticipants, needs "[]string")];
  Provides := schema [(CtxPeelRounds, gives "int")];
  Enter := Ret None; OnMessage := gs_OnMessage; CheckComplete := gs_CheckComplete; Exit := gs_Exit |}.

(** ** The verification phase *)

Section verify.
Context `{SlotJSON} `{GoRange}.

(** The loop of [Exit]: decode every submission, refuse a slot seen before. *)
Fixpoint assemble (raw : list (string * bytes)) (seen : gset Z) : gerror + list SlotEntry :=
  match raw with
  | [] => inr []
  | (sender, payload) :: raw' =>
      match decode_entry payload with
      | None => inl (Errorf "anon: decode slot submission from %s: %w" [sender] [])
      | Some e =>
          if bool_decide (SlotIndex e ∈ seen) then
            inl (Errorf "anon: duplicate slot index %d" [pretty (SlotIndex e)] [])
          else match assemble raw' ({[SlotIndex e]} ∪ seen) with
          | inl err => inl err
          | inr entries => inr (e :: entries)
          end
      end
  end.

Definition slot_le (a b : SlotEntry) : Prop := SlotIndex a <= SlotIndex b.
#[export] Instance slot_le_dec : RelDecision slot_le := fun a b => decide (SlotIndex a <= SlotIndex b).

(** [sort.Slice]; the indices are distinct, so its result is determined. *)
Definition sort_slots (entries : list SlotEntry) : list SlotEntry := merge_sort slot_le entries.

Definition gv_Exit : Prog (option gerror) :=
  let* c := hContext in
  match assemble (range_of (AccumulatedMessages c bucketSlots)) ∅ with
  | inl err => Ret (Some err)
  | inr entries =>
      let encoded := encode_entries (sort_slots entries) in
      hSet CtxAssembledSlotList (VBytes encoded) ;;
      let* dag := hLineageDAG in
      let parents := filter (fun node => Role node = RoleSlotSubmission) dag in
      let* r := hCommitArtifact "anon-g-verify" CtxAssembledSlotList encoded parents in
      match r with
      | inr _ => Ret None
      | inl err =>
          if errors_Is err ErrPermanent then Ret None
          else Ret (Some (Errorf "anon: commit assembled slot list: %w" [] [err]))
      end
  end.

Definition gv_OnMessage (_ from : string) (payload : bytes) : Prog (option gerror) :=
  AccumulateMessage bucketSlots from payload ;; Ret None.

Definition gv_CheckComplete : Prog bool :=
  let* c := hContext in
  match TryGet as_strings c CtxAnonParticipants with
  | None => Ret false
  | Some participants => Ret (QuorumReached c bucketSlots (zlen participants))
  end.

Definition PhaseGVerify (exitState : SessionState) : Phase := {|
  Name := "anon-g-verify"; Lifetime := LifetimePerSession; RunsAt := RunsAtInline;
  EntryState := StateVerifying; ExitState := exitState; InternalStates := [];
  ConsumedMessageTypes := [MsgSlotSubmit];
  Requires := schema [(CtxAnonParticipants, needs "[]string")];
  Provides := schema [(CtxAssembledSlotList, mkKeyType "[]byte" false ∅ true)];
  Enter := Ret None; OnMessage := gv_OnMessage; CheckComplete := gv_CheckComplete; Exit := gv_Exit |}.

(** ** The assembled list *)

(** Assembly succeeds exactly on decodable submissions with distinct slots. *)
Lemma assemble_spec raw seen entries :
  assemble raw seen = inr entries <->
  Forall2 (fun sp e => decode_entry sp.2 = Some e) raw entries /\ NoDup (SlotIndex <$> entries) /\
  (forall e, e ∈ entries -> SlotIndex e ∉ seen).
Proof.
  revert seen entries. induction raw as [|[s pl] raw IH]; intros seen entries; cbn [assemble].
  - split.
    + intros [= <-]. split_and!; [constructor|constructor|by intros e ?%not_elem_of_nil].
    + intros (Hf & _). by inversion Hf.
  - destruct (decode_entry pl) as [e|] eqn:Hd.
    2:{ split; [done|]. intros (Hf & _). inversion Hf. cbn in *. congruence. }
    case_bool_decide as Hs.
    { split; [done|]. intros (Hf & _ & Hn). inversion Hf; subst. cbn in *. simplify_eq.
      exfalso. eapply Hn; [left|done]. }
    destruct (assemble raw ({[SlotIndex e]} ∪ seen)) as [err|es] eqn:Ha.
    + split; [done|]. intros (Hf & Hnd & Hn). inversion Hf as [|? e' ? es' He Hf']; subst. cbn in *. simplify_eq.
      apply NoDup_cons in Hnd as [Hni Hnd]. exfalso.
      assert (Hr : assemble raw ({[SlotIndex e]} ∪ seen) = inr es'); [|congruence].
      apply IH. split_and!; [done|done|]. intros e' He'. apply not_elem_of_union. split; [|apply Hn; by right].
      rewrite not_elem_of_singleton. intros Heq. apply Hni. rewrite <- Heq. by apply list_elem_of_fmap_2.
    + apply IH in Ha as (Hf & Hnd & Hn). split.
      * intros [= <-]. split_and!; [by constructor| |].
        -- cbn. constructor; [|done]. intros (e' & Heq & He')%list_elem_of_fmap_1. apply (Hn e' He'). set_solver.
        -- intros e' [->|He']%elem_of_cons; [done|]. intros Hse. apply (Hn e' He'). set_solver.
      * intros (Hf' & _ & _). inversion Hf' as [|? e' ? es' He Hf'']; subst. cbn in *. simplify_eq. f_equal. f_equal.
        clear -Hf Hf''. revert es' Hf''. induction Hf as [|? ? ? ? Hx _ IH']; intros es' Hf''; inversion Hf''; subst; [done|].
        f_equal; [congruence|by apply IH'].
Qed.
End verify.

(** ** Sorted lists *)

Lemma seqZ_sorted a n : StronglySorted Z.le (seqZ a n).
Proof.
  destruct (decide (0 <= n)) as [Hn|Hn]; [|rewrite seqZ_nil by lia; constructor].
  revert a. pattern n. apply natlike_ind; [intros a; constructor| |done]. clear n Hn.
  intros n Hn IH a. rewrite seqZ_cons by lia. rewrite Z.pred_succ. constructor; [apply IH|].
  apply Forall_forall. intros x [? ?]%elem_of_seqZ. lia.
Qed.

Lemma sort_slots_sorted es : StronglySorted Z.le (SlotIndex <$> sort_slots es).
Proof.
  assert (Hs : StronglySorted slot_le (sort_slots es)).
  { unfold sort_slots. apply StronglySorted_merge_sort; unfold slot_le; [intros ? ? ?; lia|intros ? ?; lia]. }
  induction Hs as [|e l _ IH Hf]; [constructor|]. cbn. constructor; [done|]. by apply Forall_fmap.
Qed.

(** ** The honest run *)

Section honest.
Context {St : Type} `{HStore : Store St} `{HClock : Clock} `{HRange : GoRange} `{HJSON : SlotJSON} `{HC : Ciphers}.
Context `{HLaws : !SlotJSONLaws}.

Definition slot_of (p : Participant) : SlotEntry := mkSlot (p_SlotIndex p) (hex_encode (p_SlotPub p)).

(** Participants of one session: the [i]-th was made with index [i]. *)
Definition cohort (fuel : nat) (seed : bytes) (ps : list Participant) : Prop :=
  forall i p, ps !! i = Some p -> exists key sig, NewParticipant fuel seed (length ps) i key sig = Some p.

(** Their slots are the permutation. *)
Lemma cohort_slots fuel seed ps : cohort fuel seed ps -> p_SlotIndex <$> ps ≡ₚ seqZ 0 (zlen ps).
Proof.
  intros Hc. destruct ps as [|p0 ps0]; [done|]. set (ps := p0 :: ps0) in *.
  destruct (Hc 0%nat p0 eq_refl) as (key & sig & Hp). unfold NewParticipant in Hp.
  destruct (SlotPermutation fuel seed (length ps)) as [perm|] eqn:Hs; [|done].
  assert (Hperm : perm ≡ₚ seqZ 0 (zlen ps)) by (by eapply shuffle_perm).
  replace (p_SlotIndex <$> ps) with perm; [done|]. apply list_eq. intros i. rewrite list_lookup_fmap.
  destruct (ps !! i) as [p|] eqn:Hi; cbn.
  - destruct (Hc i p Hi) as (k & sg & Hq). unfold NewParticipant in Hq. rewrite Hs in Hq. cbn in Hq.
    destruct (perm !! i); [|done]. cbn in Hq. by injection Hq as <-.
  - apply lookup_ge_None in Hi. apply lookup_ge_None. rewrite Hperm, length_seqZ. unfold zlen. lia.
Qed.

(** What the bucket decodes to. *)
Lemma bucket_entries (senders : list string) ps (raw : gmap string bytes) :
  length senders = length ps -> NoDup senders -> raw = list_to_map (zip senders (slot_payload <$> ps)) ->
  exists es, Forall2 (fun sp e => decode_entry sp.2 = Some e) (range_of raw) es /\ es ≡ₚ slot_of <$> ps.
Proof.
  intros Hl Hn ->.
  assert (Hfst : (zip senders (slot_payload <$> ps)).*1 = senders) by (apply fst_zip; rewrite length_fmap; lia).
  assert (Hp : range_of (list_to_map (zip senders (slot_payload <$> ps)) : gmap string bytes) ≡ₚ
               zip senders (slot_payload <$> ps)).
  { rewrite range_of_perm. apply map_to_list_to_map. by rewrite Hfst. }
  set (f := fun sp : string * bytes => default (mkSlot 0 "") (decode_entry sp.2)).
  exists (f <$> range_of (list_to_map (zip senders (slot_payload <$> ps)) : gmap string bytes)). split.
  - apply Forall2_fmap_r, Forall_Forall2_diag, Forall_forall. intros [sd pl] Hin. rewrite Hp in Hin.
    apply elem_of_zip_r, list_elem_of_fmap_1 in Hin as (p & -> & _).
    unfold f. cbn. unfold slot_payload. by rewrite decode_encode_entry.
  - rewrite Hp. clear -Hl HLaws. revert senders Hl. induction ps as [|p ps IH]; intros [|sd senders] Hl; try done.
    cbn in *. unfold f at 1, slot_payload at 1. cbn. rewrite decode_encode_entry. cbn. unfold slot_of at 1.
    constructor. apply IH. lia.
Qed.

Lemma CommitArtifact_keeps ph role pl parents (w : world St) :
  w_ctx (CommitArtifact ph role pl parents w).1 = w_ctx w /\
  (w_store w = None -> exists e, (CommitArtifact ph role pl parents w).2 = inl e /\ errors_Is e ErrPermanent = true).
Proof.
  unfold CommitArtifact. split.
  - repeat case_match; done.
  - intros ->. eexists. split; [done|]. reflexivity.
Qed.

(** What [Exit] does once the entries are assembled. *)
Lemma gv_Exit_assembled (w : world St) es :
  assemble (range_of (AccumulatedMessages (w_ctx w) bucketSlots)) ∅ = inr es ->
  ctx_Get (w_ctx (run gv_Exit w).1) CtxAssembledSlotList = Some (VBytes (encode_entries (sort_slots es))) /\
  (w_store w = None -> (run gv_Exit w).2 = Ok None).
Proof.
  intros Ha. unfold gv_Exit. cbn [run pbind hContext]. rewrite Ha. cbn [run pbind hSet hLineageDAG hCommitArtifact].
  match goal with |- context [CommitArtifact ?a ?b ?c ?d ?w'] =>
    destruct (CommitArtifact_keeps a b c d w') as [Hk Hn]; destruct (CommitArtifact a b c d w') as [w2 r] end.
  cbn [fst snd] in Hk, Hn. split.
  - assert (Hw : w_ctx (run (match r with inr _ => Ret None | inl err => if errors_Is err ErrPermanent then Ret None
        else Ret (Some (Errorf "anon: commit assembled slot list: %w" [] [err])) end) w2).1 = w_ctx w2).
    { destruct r as [err|]; [destruct (errors_Is err ErrPermanent)|]; done. }
    rewrite Hw, Hk. cbn. apply lookup_insert_eq.
  - intros Hs. destruct (Hn Hs) as (e & -> & He). by rewrite He.
Qed.

(** C32: honest participants get their slots. When the participants of a
    session, made from one seed, have all submitted, [Exit] sets the slot list
    whose indices are exactly 0 to n-1 in order, holding each participant's
    own delivery key, whatever the iteration order of the bucket; without
    lineage it returns nil. *)
Theorem honest_slots_assemble fuel seed (senders : list string) (ps : list Participant) (w : world St) :
  cohort fuel seed ps -> length senders = length ps -> NoDup senders ->
  AccumulatedMessages (w_ctx w) bucketSlots = list_to_map (zip senders (slot_payload <$> ps)) ->
  exists slots,
    ctx_Get (w_ctx (run gv_Exit w).1) CtxAssembledSlotList = Some (VBytes (encode_entries slots)) /\
    SlotIndex <$> slots = seqZ 0 (zlen ps) /\ slots ≡ₚ slot_of <$> ps /\
    (w_store w = None -> (run gv_Exit w).2 = Ok None).
Proof.
  intros Hc Hl Hn Hraw.
  destruct (bucket_entries senders ps _ Hl Hn Hraw) as (es & Hdec & Hes).
  assert (Hidx : SlotIndex <$> es ≡ₚ seqZ 0 (zlen ps)).
  { rewrite Hes, <- list_fmap_compose. exact (cohort_slots fuel seed ps Hc). }
  assert (Ha : assemble (range_of (AccumulatedMessages (w_ctx w) bucketSlots)) ∅ = inr es).
  { apply assemble_spec. split_and!; [done| |set_solver]. rewrite Hidx. apply NoDup_seqZ. }
  destruct (gv_Exit_assembled w es Ha) as [Hctx Hret]. exists (sort_slots es).
  assert (Hp : sort_slots es ≡ₚ es) by apply merge_sort_Permutation.
  split_and!; [done| |by rewrite Hp|done].
  apply (StronglySorted_unique Z.le); [apply sort_slots_sorted|apply seqZ_sorted|]. by rewrite Hp.
Qed.
End honest.

(** ** Witness: three participants *)

Section witness.
#[local] Instance aw_clock : Clock := Z.of_nat.
#[local] Instance aw_range : GoRange := sorted_range.
#[local] Instance aw_ciphers : Ciphers := plain_ciphers.

(** A wire form: the bits of the entry's code. *)
Fixpoint bits (p : positive) : bytes :=
  match p with xH => [] | xO p => x00 :: bits p | xI p => x01 :: bits p end.

Fixpoint unbits (b : bytes) : positive :=
  match b with [] => xH | x00 :: b => xO (unbits b) | _ :: b => xI (unbits b) end.

Lemma unbits_bits p : unbits (bits p) = p.
Proof. induction p; cbn; congruence. Qed.

#[local] Instance bits_json : SlotJSON := {|
  encode_entry := fun e => bits (encode (SlotIndex e, SlotDKPubHex e));
  decode_entry := fun b => (fun p => mkSlot p.1 p.2) <$> (decode (unbits b) : option (Z * string));
  encode_entries := fun l => mjoin ((fun e => bits (encode (SlotIndex e, SlotDKPubHex e))) <$> l) |}.
#[local] Instance bits_laws : SlotJSONLaws.
Proof. intros i key. cbn. by rewrite unbits_bits, decode_encode. Qed.

Definition nobody : Signer := mkSigner (fun _ => None) (fun _ _ _ => false) [] "".

Definition trio : list Participant :=
  (fun e => mkParticipant e.1 e.2 e.2 nobody) <$> [(1, [x0a]); (0, [x0b]); (2, [x0c])].

Lemma trio_permutation : SlotPermutation 4 [x01; x02; x03] 3 = Some [1; 0; 2].
Proof. vm_compute. reflexivity. Qed.

Definition trio_world : world InMemoryStore :=
  mkWorld (mkContext "s" "" {[ bucketSlots :=
    VBucket (list_to_map (zip ["x"; "y"; "z"] (slot_payload <$> trio))) ]} false None) None 0.

Lemma honest_slots_assemble_witness :
  exists slots,
    ctx_Get (w_ctx (run gv_Exit trio_world).1) CtxAssembledSlotList = Some (VBytes (encode_entries slots)) /\
    SlotIndex <$> slots = seqZ 0 3.
Proof.
  destruct (honest_slots_assemble 4 [x01; x02; x03] ["x"; "y"; "z"] trio trio_world) as (slots & H1 & H2 & _).
  - intros [|[|[|i]]] p Hp; [..|discriminate Hp]; injection Hp as <-; eexists _, nobody; unfold NewParticipant;
      change (length trio) with 3%nat; rewrite trio_permutation; reflexivity.
  - reflexivity.
  - apply (bool_decide_unpack _). vm_compute. exact I.
  - reflexivity.
  - exists slots. split; [exact H1|exact H2].
Defined.
End witness.
End Anon.
