(* ===== verification/Voting.v ===== *)
(** * Weighted voting ([examples/voting])

    The application's phases and pipelines, and what an election run on them
    decides. *)

From S2P Require Import Prelude Sha256 Float64 Lineage LineageStore PhaseTypes Compose ComposeTheorems Runner RunnerInvariant RunnerTheorems Defaults Onion Anon PipelineSpec Collecting.
Import Sha256 Lineage LineageStore PhaseTypes Compose ComposeTheorems Runner RunnerInvariant RunnerTheorems Defaults Anon PipelineSpec Collecting.

#[local] Open Scope Z_scope.
#[local] Open Scope go_scope.

Module Voting.
#[local] Open Scope prog_scope.

(** ** Data *)

Definition CtxVoteParticipants : string := "vote.participants".
Definition CtxVoteBallots : string := "vote.ballots".
Definition CtxVoteTally : string := "vote.tally".
Definition CtxVoteTranscript : string := "vote.transcript".
Definition bucketBallots : string := "vote.bucket.ballots".

Record Ballot := mkBallot { Voter : string; Choice : Z; Weight : float64 }.

Record Tally := mkTally {
  Totals : gmap Z float64;
  TotalBallots : Z;
  WinnerChoice : Z;
  WinnerWeight : float64
}.

(** How both are kept in a context. *)
Definition inject_ballot (kv : string * Ballot) : string * any :=
  (kv.1, VStruct "voting.Ballot"
    [("Voter", VString (Voter kv.2)); ("Choice", VInt (Choice kv.2)); ("Weight", VFloat64 (Weight kv.2))]).

Definition project_ballot (fv : string * any) : option (string * Ballot) :=
  match fv.2 with
  | VStruct _ [(_, VString v); (_, VInt c); (_, VFloat64 w)] => Some (fv.1, mkBallot v c w)
  | _ => None
  end.

Definition inject_total (kv : Z * float64) : string * any :=
  ("", VStruct "entry" [("key", VInt kv.1); ("value", VFloat64 kv.2)]).

Definition project_total (fv : string * any) : option (Z * float64) :=
  match fv.2 with
  | VStruct _ [(_, VInt k); (_, VFloat64 w)] => Some (k, w)
  | _ => None
  end.

Lemma project_all {A B} (f : A -> B) (g : B -> option A) (l : list A) :
  (forall x, g (f x) = Some x) -> mapM g (f <$> l) = Some l.
Proof. intros Hg. apply mapM_Some, Forall2_fmap_l, Forall_Forall2_diag, Forall_forall. auto. Qed.

Definition project_ballots (v : any) : option (gmap string Ballot) :=
  match v with
  | VStruct ty fs =>
      if String.eqb ty "map[string]voting.Ballot" then list_to_map <$> mapM project_ballot fs else None
  | _ => None
  end.

#[export] Instance ballots_type : GoType (gmap string Ballot).
Proof.
  refine {| inject := fun m => VStruct "map[string]voting.Ballot" (inject_ballot <$> map_to_list m);
            project := project_ballots |}.
  intros m. cbn. rewrite project_all; [cbn; by rewrite list_to_map_to_list|by intros [k []]].
Defined.

Definition project_tally (v : any) : option Tally :=
  match v with
  | VStruct ty [(_, VStruct _ fs); (_, VInt n); (_, VInt c); (_, VFloat64 w)] =>
      if String.eqb ty "voting.Tally" then l ← mapM project_total fs; Some (mkTally (list_to_map l) n c w) else None
  | _ => None
  end.

#[export] Instance tally_type : GoType Tally.
Proof.
  refine {| inject := fun t => VStruct "voting.Tally"
              [("Totals", VStruct "map[int]float64" (inject_total <$> map_to_list (Totals t)));
               ("TotalBallots", VInt (TotalBallots t)); ("WinnerChoice", VInt (WinnerChoice t));
               ("WinnerWeight", VFloat64 (WinnerWeight t))];
            project := project_tally |}.
  intros [m n c w]. cbn. rewrite project_all; [cbn; by rewrite list_to_map_to_list|by intros []].
Defined.

(** [encoding/json] on ballots, tallies and transcripts; [None] is its error.
    A tally with an infinite total has no JSON form. *)
Class VoteJSON := {
  decode_ballot : bytes -> option (Z * float64);
  encode_tally : Tally -> option bytes;
  encode_transcript : bytes -> string -> bytes
}.

(** JSON numbers are never NaN. *)
Class VoteJSONLaws `{VoteJSON} : Prop :=
  decode_not_nan : forall payload c w, decode_ballot payload = Some (c, w) -> f64_is_nan w = false.

(** ** Phases *)

Definition PhaseInvite : Phase := {|
  Name := "vote-invitation"; Lifetime := LifetimePerSession; RunsAt := RunsAtInline;
  EntryState := StateInviting; ExitState := StateLocked; InternalStates := []; ConsumedMessageTypes := [];
  Requires := schema [];
  Provides := schema
    [(CtxVoteParticipants, gives "[]string"); (CtxParticipants, gives "[]string");
     (CtxAnonParticipants, gives "[]string")];
  Enter := ok; OnMessage := ignore; CheckComplete := Ret true; Exit := ok |}.

Section phases.
Context `{VoteJSON} `{GoRange}.

(** One ballot: a weight that is not positive counts as one. *)
Definition parse_ballot (voter : string) (payload : bytes) : option Ballot :=
  '(choice, weight) ← decode_ballot payload;
  Some (mkBallot voter choice (if f64_le weight f64_zero then f64_one else weight)).

(** The loop of [Exit]. *)
Fixpoint parse_ballots (raw : list (string * bytes)) (parsed : gmap string Ballot) : gerror + gmap string Ballot :=
  match raw with
  | [] => inr parsed
  | (voter, payload) :: raw' =>
      match parse_ballot voter payload with
      | None => inl (Errorf "PhaseSubmitVote: decode ballot from %s: %w" [voter] [])
      | Some b => parse_ballots raw' (<[voter := b]> parsed)
      end
  end.

Definition sv_Exit : Prog (option gerror) :=
  let* c := hContext in
  match parse_ballots (range_of (AccumulatedMessages c bucketBallots)) ∅ with
  | inl err => Ret (Some err)
  | inr parsed => hSet CtxVoteBallots (inject parsed) ;; Ret None
  end.

Definition PhaseSubmitVote (entryState : SessionState) : Phase := {|
  Name := "vote-submit"; Lifetime := LifetimePerSession; RunsAt := RunsAtInline;
  EntryState := entryState; ExitState := StateScoring; InternalStates := [];
  ConsumedMessageTypes := ["vote.ballot"];
  Requires := schema [(CtxVoteParticipants, needs "[]string")];
  Provides := schema [(CtxVoteBallots, gives "map[string]Ballot")];
  Enter := ok; OnMessage := collect bucketBallots;
  CheckComplete := quorum CtxVoteParticipants bucketBallots; Exit := sv_Exit |}.

(** [totals[b.Choice] += b.Weight] over the ballots. *)
Definition add_ballot (totals : gmap Z float64) (b : Ballot) : gmap Z float64 :=
  <[Choice b := f64_add (default f64_zero (totals !! Choice b)) (Weight b)]> totals.

Definition sum_ballots (bs : list Ballot) : gmap Z float64 := foldl add_ballot ∅ bs.

Definition total (totals : gmap Z float64) (c : Z) : float64 := default f64_zero (totals !! c).

Definition pick (totals : gmap Z float64) (winner c : Z) : Z :=
  if f64_gt (total totals c) (total totals winner) then c else winner.

(** [None] is the panic of [choices[0]]. *)
Definition compute_tally (ballots : gmap string Ballot) : option Tally :=
  let totals := sum_ballots (range_of ballots).*2 in
  match merge_sort Z.le (map_to_list totals).*1 with
  | [] => None
  | first :: rest =>
      let winner := foldl (pick totals) first rest in
      Some (mkTally totals (msize ballots) winner (total totals winner))
  end.

Definition pt_Enter : Prog (option gerror) :=
  let* ballots := hMustGet (project (T := gmap string Ballot)) CtxVoteBallots in
  match compute_tally ballots with
  | None => Panic "runtime error: index out of range [0] with length 0"
  | Some tally => hSet CtxVoteTally (inject tally) ;; Ret None
  end.

Definition PhaseTally : Phase := {|
  Name := "vote-tally"; Lifetime := LifetimePerSession; RunsAt := RunsAtInline;
  EntryState := StateScoring; ExitState := StateDecrypting; InternalStates := []; ConsumedMessageTypes := [];
  Requires := schema [(CtxVoteBallots, needs "map[string]Ballot")];
  Provides := schema [(CtxVoteTally, gives "Tally")];
  Enter := pt_Enter; OnMessage := ignore; CheckComplete := Ret true; Exit := ok |}.

Definition ps_Enter : Prog (option gerror) :=
  let* tally := hMustGet (project (T := Tally)) CtxVoteTally in
  match encode_tally tally with
  | None => Ret (Some (Errorf "PhaseSettle: marshal tally: %w" [] []))
  | Some body =>
      hSet CtxVoteTranscript (VBytes (encode_transcript body (hex_encode (sha256 body)))) ;; Ret None
  end.

Definition PhaseSettle : Phase := {|
  Name := "vote-settle"; Lifetime := LifetimePerSession; RunsAt := RunsAtInline;
  EntryState := StateDecrypting; ExitState := StateNone; InternalStates := []; ConsumedMessageTypes := [];
  Requires := schema [(CtxVoteTally, needs "Tally")];
  Provides := schema [(CtxVoteTranscript, gives "[]byte")];
  Enter := ps_Enter; OnMessage := ignore; CheckComplete := Ret true; Exit := ok |}.

(** ** Pipelines *)

Definition vote_phases : list Phase :=
  [PhaseInvite; PlaintextKeygenPhase; PhaseSubmitVote StateGossip; PhaseTally; PhaseSettle].

Definition shuffle_phases `{SlotJSON} : list Phase :=
  [PhaseInvite; PlaintextKeygenPhase; PhaseGShuffle; PhaseGVerify StateSubmitting;
   PhaseSubmitVote StateSubmitting; PhaseTally; PhaseSettle].

Definition Pipeline `{GoFmt} {St} : gerror + SessionRunner St := Compose vote_phases.

Definition lineage_options (signer : Signer) (peers : gmap string Signer) : list (ComposeOption InMemoryStore) :=
  [WithSigner signer; WithPeerVerifiers peers; WithStore NewInMemoryStore].

Definition PipelineWithLineage `{GoFmt} (signer : Signer) (peers : gmap string Signer)
    : gerror + SessionRunner (InMemoryStore + InMemoryStore) :=
  ComposeWith vote_phases (lineage_options signer peers).

Definition PipelineWithShuffle `{GoFmt} `{SlotJSON} (signer : Signer) (peers : gmap string Signer)
    : gerror + SessionRunner (InMemoryStore + InMemoryStore) :=
  ComposeWith shuffle_phases (lineage_options signer peers).
End phases.

(** ** The winner *)

Section tally.
Context `{GoRange}.

Lemma add_ballot_nonneg totals b :
  map_Forall (fun _ => f64_nonneg) totals -> f64_nonneg (Weight b) ->
  map_Forall (fun _ => f64_nonneg) (add_ballot totals b).
Proof.
  intros Ht Hb. apply map_Forall_insert_2; [|done]. apply f64_add_nonneg; [|done].
  destruct (totals !! Choice b) eqn:Hl; cbn; [by eapply Ht|done].
Qed.

Lemma sum_ballots_nonneg bs :
  Forall (fun b => f64_nonneg (Weight b)) bs -> map_Forall (fun _ => f64_nonneg) (sum_ballots bs).
Proof.
  induction bs as [|b bs IH] using rev_ind; intros Hb; [apply map_Forall_empty|].
  apply Forall_app in Hb as [Hbs [Hb _]%Forall_cons]. unfold sum_ballots. rewrite foldl_app.
  apply add_ballot_nonneg; [by apply IH|done].
Qed.

Lemma sum_ballots_dom bs c : is_Some (sum_ballots bs !! c) <-> c ∈ Choice <$> bs.
Proof.
  induction bs as [|b bs IH] using rev_ind.
  - split; [by intros [? ?]|by intros ?%not_elem_of_nil].
  - unfold sum_ballots. rewrite foldl_app, fmap_app, elem_of_app, <- IH. cbn.
    unfold add_ballot at 1. rewrite lookup_insert_is_Some, list_elem_of_singleton.
    destruct (decide (Choice b = c)); naive_solver.
Qed.

(** The scan keeps the first choice of greatest weight. *)
Lemma pick_best totals first rest :
  StronglySorted Z.lt (first :: rest) ->
  Forall (fun c => f64_is_nan (total totals c) = false) (first :: rest) ->
  let w := foldl (pick totals) first rest in
  w ∈ first :: rest /\
  Forall (fun c => f64_le (total totals c) (total totals w) = true /\
                   (c < w -> f64_lt (total totals c) (total totals w) = true)) (first :: rest).
Proof.
  induction rest as [|c rest IH] using rev_ind; intros Hs Hn w; subst w.
  - cbn [foldl]. split; [left|]. apply Forall_cons in Hn as [Hn _]. apply Forall_singleton. split; [by apply f64_le_refl|lia].
  - rewrite app_comm_cons in *. apply StronglySorted_app in Hs as (Hlt & Hs & _).
    apply Forall_app in Hn as [Hn [Hc _]%Forall_cons].
    destruct (IH Hs Hn) as [Hin Hall]. rewrite foldl_app. cbn [foldl]. set (w := foldl _ _ _) in *.
    assert (Hw : f64_is_nan (total totals w) = false) by (rewrite Forall_forall in Hn; auto).
    unfold pick. change (f64_gt (total totals c) (total totals w)) with (f64_lt (total totals w) (total totals c)).
    destruct (f64_lt (total totals w) (total totals c)) eqn:Hgt.
    + split; [apply elem_of_app; right; left|]. apply Forall_app. split.
      * eapply Forall_impl; [exact Hall|]. intros d [Hd _].
        pose proof (f64_le_lt_trans _ _ _ Hd Hgt) as Hlt'. split; [by apply f64_lt_le|done].
      * apply Forall_singleton. split; [by apply f64_le_refl|lia].
    + split; [by apply elem_of_app; left|]. apply Forall_app. split; [done|]. apply Forall_singleton. split.
      * rewrite f64_le_or_lt in Hgt by done. by apply negb_false_iff in Hgt.
      * intros Hlt2. specialize (Hlt w c Hin). rewrite list_elem_of_singleton in Hlt. lia.
Qed.

(** A choice's total is the sum of its ballots' weights in the order visited. *)
Lemma sum_ballots_total bs c :
  total (sum_ballots bs) c = foldl f64_add f64_zero (Weight <$> filter (fun b => Choice b = c) bs).
Proof.
  induction bs as [|b bs IH] using rev_ind; [done|]. unfold sum_ballots. rewrite foldl_app. cbn [foldl].
  rewrite filter_app, fmap_app, foldl_app, <- IH. unfold total, add_ballot at 1.
  destruct (decide (Choice b = c)) as [<-|Hne].
  - rewrite filter_cons_True, lookup_insert_eq by done. done.
  - rewrite filter_cons_False, lookup_insert_ne by done. done.
Qed.

Lemma sorted_choices (totals : gmap Z float64) :
  StronglySorted Z.lt (merge_sort Z.le (map_to_list totals).*1) /\
  forall c, c ∈ merge_sort Z.le (map_to_list totals).*1 <-> is_Some (totals !! c).
Proof.
  set (l := merge_sort _ _).
  assert (Hp : l ≡ₚ (map_to_list totals).*1) by apply merge_sort_Permutation.
  assert (Hn : NoDup l) by (rewrite Hp; apply NoDup_fst_map_to_list).
  assert (Hs : StronglySorted Z.le l) by (apply StronglySorted_merge_sort; apply _). split.
  - clear Hp. induction Hs as [|c l' Hs IH Hle]; [constructor|]. apply NoDup_cons in Hn as [Hc Hn].
    constructor; [by apply IH|]. rewrite Forall_forall in Hle |- *. intros d Hd. specialize (Hle d Hd).
    assert (c <> d) by (by intros ->). lia.
  - intros c. rewrite Hp, list_elem_of_fmap. split.
    + intros ([k v] & -> & Hv%elem_of_map_to_list). eauto.
    + intros [v Hv]. exists (c, v). by rewrite elem_of_map_to_list.
Qed.

(** What a tally must be. *)
Record decides (ballots : gmap string Ballot) (t : Tally) : Prop := {
  dc_count : TotalBallots t = msize ballots;
  dc_totals : exists order, order ≡ₚ (map_to_list ballots).*2 /\
    forall c, total (Totals t) c = foldl f64_add f64_zero (Weight <$> filter (fun b => Choice b = c) order);
  dc_voted : exists v b, ballots !! v = Some b /\ Choice b = WinnerChoice t;
  dc_weight : WinnerWeight t = total (Totals t) (WinnerChoice t);
  dc_best : forall v b, ballots !! v = Some b ->
    f64_le (total (Totals t) (Choice b)) (WinnerWeight t) = true /\
    (Choice b < WinnerChoice t -> f64_lt (total (Totals t) (Choice b)) (WinnerWeight t) = true)
}.

Lemma compute_tally_decides ballots :
  ballots <> ∅ -> map_Forall (fun _ b => f64_nonneg (Weight b)) ballots ->
  exists t, compute_tally ballots = Some t /\ decides ballots t.
Proof.
  intros Hne Hw. unfold compute_tally. set (bs := (range_of ballots).*2). set (totals := sum_ballots bs).
  assert (Hin : forall b, b ∈ bs <-> exists v, ballots !! v = Some b).
  { intros b. unfold bs. rewrite list_elem_of_fmap. split.
    - intros ([v b'] & -> & Hb%elem_of_range). eauto.
    - intros [v Hb%elem_of_range]. by exists (v, b). }
  destruct (sorted_choices totals) as [Hs Hel].
  assert (Hch : forall c, is_Some (totals !! c) <-> exists v b, ballots !! v = Some b /\ Choice b = c).
  { intros c. unfold totals. rewrite sum_ballots_dom, list_elem_of_fmap. setoid_rewrite Hin. naive_solver. }
  assert (Hnn : map_Forall (fun _ => f64_nonneg) totals).
  { apply sum_ballots_nonneg, Forall_forall. intros b [v Hb]%Hin. by eapply Hw. }
  destruct (merge_sort Z.le (map_to_list totals).*1) as [|first rest] eqn:Hm.
  { destruct (map_choose ballots Hne) as (v & b & Hb). exfalso.
    apply (not_elem_of_nil (Choice b)), Hel, Hch. eauto. }
  eexists. split; [done|]. destruct (pick_best totals first rest Hs) as [Hwin Hbest].
  { apply Forall_forall. intros c [w Hc]%Hel. unfold total. rewrite Hc. cbn. by apply (Hnn c). }
  rewrite Forall_forall in Hbest. split; cbn; [done| | |done|].
  - exists bs. split; [unfold bs; by rewrite range_of_perm|]. intros c. apply sum_ballots_total.
  - by apply Hch, Hel.
  - intros v b Hb. apply Hbest, Hel, Hch. eauto.
Qed.
End tally.

(** ** Elections *)

Section elections.
Context `{VoteJSON} `{GoRange} `{GoFmt} {St : Type} `{Store St} `{Clock}.

Definition submitting : list Phase := [PhaseSubmitVote StateGossip; PhaseTally; PhaseSettle].

(** The session's answer to the ballot that may complete the quorum. *)
Definition counted (c : SessionContext) (en : bool) (box : gmap string bytes) : session * result bool :=
  match parse_ballots (range_of box) ∅ with
  | inl err => (mkSession c submitting en, Bad (Errorf "phase %q: Exit: %w" ["vote-submit"] [err]))
  | inr parsed =>
      let c := ctx_Set c CtxVoteBallots (inject parsed) in
      match compute_tally parsed with
      | None => (mkSession c [PhaseTally; PhaseSettle] false,
                 Unwind "runtime error: index out of range [0] with length 0")
      | Some t =>
          let c := ctx_Set c CtxVoteTally (inject t) in
          match encode_tally t with
          | None => (mkSession c [PhaseSettle] false,
                     Bad (Errorf "phase %q: Enter: %w" ["vote-settle"] [Errorf "PhaseSettle: marshal tally: %w" [] []]))
          | Some body =>
              (mkSession (ctx_Set c CtxVoteTranscript (VBytes (encode_transcript body (hex_encode (sha256 body)))))
                 [] true, Good true)
          end
      end
  end.

Lemma leave_submitting c en : leave (PhaseSubmitVote StateGossip) [PhaseTally; PhaseSettle] en c =
  counted c en (AccumulatedMessages c bucketBallots).
Proof.
  unfold counted. cbn [leave]. unfold guarded at 1. cbn [Exit PhaseSubmitVote]. unfold sv_Exit. hooks.
  destruct (parse_ballots _ ∅) as [err|parsed]; hooks; [done|].
  unfold guarded at 1. cbn [Enter PhaseTally]. unfold pt_Enter.
  erewrite hook_must by (rewrite TryGet_set; apply project_inject).
  destruct (compute_tally parsed) as [t|]; hooks; [|done].
  change (0 <? zlen (ConsumedMessageTypes PhaseTally)) with false. cbn [CheckComplete PhaseTally hook leave]. cbn iota.
  unfold guarded at 1. cbn [Exit ok hook PhaseTally].
  unfold guarded at 1. cbn [Enter PhaseSettle]. unfold ps_Enter.
  erewrite hook_must by (rewrite TryGet_set; apply project_inject).
  by destruct (encode_tally t) as [body|]; hooks.
Qed.

(** The calls that open an election: begin, name the participants, advance. *)
Definition open_election (sid cohort : string) (participants : list string) : list runner_op :=
  [RBegin sid cohort; RSeed sid CtxVoteParticipants (VStrings participants); RAdvance sid StateGossip].

Definition cast (sid : string) : list (string * bytes) -> list runner_op := messages sid "vote.ballot".

Definition election_ctx (sid cohort : string) (participants : list string) : SessionContext :=
  ctx_Set (NewSessionContext sid <| CohortID := cohort |>) CtxVoteParticipants (VStrings participants).

Lemma open_election_spec sid cohort participants :
  sid <> "" ->
  spec_run vote_phases None (open_election sid cohort participants) =
  {[ sid := mkSession (election_ctx sid cohort participants) submitting true ]}.
Proof.
  intros Hsid. unfold spec_run, open_election. cbn [foldl]. unfold spec_step at 3.
  destruct (String.eqb_spec sid ""); [done|]. rewrite lookup_empty.
  change (s_begin vote_phases None sid cohort) with
    (Some (mkSession (NewSessionContext sid <| CohortID := cohort |>) vote_phases true, Good tt)). cbn iota.
  unfold spec_step at 2. rewrite alter_insert_eq. unfold spec_step. rewrite alter_insert_eq. done.
Qed.

Lemma submit_collects entry : collects (PhaseSubmitVote entry) "vote.ballot" CtxVoteParticipants bucketBallots.
Proof. by split. Qed.

Lemma parse_ballots_spec raw acc :
  (forall v pl, (v, pl) ∈ raw -> is_Some (decode_ballot pl)) ->
  NoDup raw.*1 -> (forall v, v ∈ raw.*1 -> acc !! v = None) ->
  exists parsed, parse_ballots raw acc = inr parsed /\
    forall v b, parsed !! v = Some b <-> acc !! v = Some b \/ exists pl, (v, pl) ∈ raw /\ parse_ballot v pl = Some b.
Proof.
  revert acc. induction raw as [|[v pl] raw IH]; intros acc Hd Hn Ha.
  { exists acc. split; [done|]. intros v b. split; [by left|]. intros [?|(? & []%not_elem_of_nil & _)]; done. }
  cbn [parse_ballots]. destruct (Hd v pl) as [[c w] Hdec]; [left|].
  assert (Hpb : exists b, parse_ballot v pl = Some b) by (unfold parse_ballot; rewrite Hdec; cbn; eauto).
  destruct Hpb as [b Hpb]. rewrite Hpb. csimpl in Hn. apply NoDup_cons in Hn as [Hv Hn].
  destruct (IH (<[v := b]> acc)) as (parsed & Hpa & Hlk); [intros; eapply Hd; by right|done| |].
  { intros v' Hv'. rewrite lookup_insert_ne by (by intros ->). apply Ha. csimpl. by right. }
  exists parsed. split; [done|]. intros v' b'. rewrite Hlk. setoid_rewrite elem_of_cons. split.
  - intros [[[-> ->]|[? ?]]%lookup_insert_Some|(pl' & ? & ?)]; [right; exists pl; auto|by left|right; exists pl'; auto].
  - intros [Hacc|(pl' & [[= -> ->]|Hin] & Hp)].
    + left. rewrite lookup_insert_ne; [done|]. intros ->. rewrite Ha in Hacc by (csimpl; by left). done.
    + left. rewrite lookup_insert_eq. congruence.
    + right. eauto.
Qed.

Lemma vote_acyclic : acyclic vote_phases.
Proof. intros q [= <-]. cbn. set_solver. Qed.

(** The ballots a box of payloads stands for. *)
Definition stands_for (box : gmap string bytes) (ballots : gmap string Ballot) : Prop :=
  forall v b, ballots !! v = Some b <-> exists pl, box !! v = Some pl /\ parse_ballot v pl = Some b.

Lemma stands_for_dom box ballots :
  stands_for box ballots -> (forall v pl, box !! v = Some pl -> is_Some (decode_ballot pl)) -> msize ballots = msize box.
Proof.
  intros Hs Hd. unfold msize. f_equal. rewrite <- !size_dom. f_equal. apply set_eq. intros v. rewrite !elem_of_dom. split.
  - intros [b (pl & Hpl & _)%Hs]. eauto.
  - intros [pl Hpl]. destruct (Hd v pl Hpl) as [[c w] Hdec]. eexists. apply Hs. exists pl. split; [done|].
    unfold parse_ballot. rewrite Hdec. done.
Qed.

Lemma parse_ballot_nonneg `{!VoteJSONLaws} v pl b : parse_ballot v pl = Some b -> f64_nonneg (Weight b).
Proof.
  unfold parse_ballot. destruct (decode_ballot pl) as [[c w]|] eqn:Hd; [|done]. cbn. intros [= <-]. cbn.
  pose proof (decode_not_nan pl c w Hd) as Hn. destruct (f64_le w f64_zero) eqn:Hz; [done|].
  apply f64_pos_nonneg. rewrite f64_le_or_lt by done. by rewrite Hz.
Qed.

(** The session after a tally. *)
Definition settled (t : Tally) (tr : sessionTracker) (res : result bool) : Prop :=
  ctx_Get (ctx tr) CtxVoteTally = Some (inject t) /\
  match encode_tally t with
  | Some body =>
      res = Good true /\ state tr = StateNone /\ current tr = None /\
      ctx_Get (ctx tr) CtxVoteTranscript = Some (VBytes (encode_transcript body (hex_encode (sha256 body))))
  | None =>
      res = Bad (Errorf "phase %q: Enter: %w" ["vote-settle"] [Errorf "PhaseSettle: marshal tally: %w" [] []]) /\
      state tr = StateDecrypting /\ current tr = Some PhaseSettle
  end.

Lemma counted_decides `{!VoteJSONLaws} c en box :
  box <> ∅ -> (forall v pl, box !! v = Some pl -> is_Some (decode_ballot pl)) ->
  exists ballots t,
    stands_for box ballots /\ decides ballots t /\
    settled t (tracker_of (counted c en box).1) (counted c en box).2.
Proof.
  intros Hne Hd. unfold counted.
  destruct (parse_ballots_spec (range_of box) ∅) as (ballots & Hp & Hb).
  { intros v pl Hin%elem_of_range. by eapply Hd. }
  { rewrite range_of_perm. apply NoDup_fst_map_to_list. }
  { done. }
  assert (Hs : stands_for box ballots).
  { intros v b. rewrite Hb, lookup_empty. setoid_rewrite elem_of_range. naive_solver. }
  rewrite Hp. destruct (compute_tally_decides ballots) as (t & Ht & Hdt).
  { intros ->. pose proof (stands_for_dom _ _ Hs Hd) as Hz. apply Hne. apply map_size_empty_iff.
    unfold msize in Hz. rewrite map_size_empty in Hz. lia. }
  { intros v b (pl & _ & Hpl)%Hs. by eapply parse_ballot_nonneg. }
  rewrite Ht. exists ballots, t. split_and!; [done..|]. unfold settled.
  destruct (encode_tally t) as [body|]; cbn; unfold ctx_Get, ctx_Set; cbn; split_and!; try done.
  - rewrite lookup_insert_ne, lookup_insert_eq by done. done.
  - by rewrite lookup_insert_eq.
  - by rewrite lookup_insert_eq.
Qed.

(** C8: an election decides.  On the composed pipeline, after the session is
    opened for the participants and ballots arrive, resubmissions included,
    each ballot before the quorum is taken and waits; the one of the last
    missing sender completes the cascade.  The tally counts each sender's
    latest ballot once, its winner is a choice some ballot names, no choice
    outweighs it and a choice of equal weight is not of lower index; the
    session finishes with a transcript of the encoded tally and its SHA-256
    digest, or, where the tally has no JSON form, stops at the settlement with
    that error. *)
Theorem election_decides `{!VoteJSONLaws} r0 sid cohort participants msgs from pl :
  Pipeline (St := St) = inr r0 -> sid <> "" ->
  from ∉ msgs.*1 -> length participants = S (size (list_to_set msgs.*1 : gset string)) ->
  let box := latest (msgs ++ [(from, pl)]) in
  (forall v payload, box !! v = Some payload -> is_Some (decode_ballot payload)) ->
  let r := runner_run r0 (open_election sid cohort participants ++ cast sid msgs) in
  (exists c, sessions r !! sid = Some (mkTracker c StateGossip (Some (PhaseSubmitVote StateGossip)) true)) /\
  exists ballots t tr,
    stands_for box ballots /\ TotalBallots t = zlen participants /\ decides ballots t /\
    sessions (HandleMessage r sid "vote.ballot" from pl).1 !! sid = Some tr /\
    settled t tr (HandleMessage r sid "vote.ballot" from pl).2.
Proof.
  intros Hr0 Hsid Hfrom Hlen box Hdec r.
  set (ops := open_election sid cohort participants ++ cast sid msgs) in *.
  destruct (composed_runs vote_phases r0 ops Hr0 vote_acyclic) as (Hok & Hc & Hr). fold r in Hc, Hr.
  unfold ops, cast in Hr. rewrite (spec_run_feed _ _ _ _ _ _ _ (open_election_spec sid cohort participants Hsid)) in Hr.
  set (c0 := election_ctx sid cohort participants) in *.
  assert (Hps : TryGet as_strings c0 CtxVoteParticipants = Some participants) by (unfold c0, election_ctx; by rewrite TryGet_set).
  assert (Hb : ctx_Get c0 bucketBallots = None) by done.
  pose proof (submit_collects StateGossip) as Hco.
  destruct (HandleMessage_represents vote_phases Hok vote_acyclic r _ sid "vote.ballot" from pl Hc Hr) as [(Hs' & _) Hres].
  specialize (Hres _ (lookup_singleton_eq _ _)). rewrite alter_singleton_eq in Hs'. unfold submitting in *.
  rewrite (round_message _ _ _ _ Hco _ _ _ participants), leave_submitting in Hs', Hres by done.
  rewrite submitted_latest in Hs', Hres by done. fold box in Hs', Hres.
  assert (Hsz : msize box = zlen participants) by (apply full_round_size; by exists msgs, from, pl).
  destruct (counted_decides (submitted c0 bucketBallots (msgs ++ [(from, pl)])) true box) as (ballots & t & Hst & Hdt & Hset); [|done|].
  { intros He. rewrite He in Hsz. unfold msize, zlen in Hsz. rewrite map_size_empty in Hsz. lia. }
  split.
  - destruct Hr as (Hs & _). rewrite (feed_waits _ _ _ _ Hco _ _ _ participants) in Hs by (done || lia).
    eexists. by rewrite Hs, map_fmap_singleton, lookup_singleton_eq.
  - exists ballots, t. eexists. split_and!; [done| |done| |rewrite Hres; exact Hset].
    + by rewrite (dc_count _ _ Hdt), (stands_for_dom _ _ Hst Hdec).
    + by rewrite Hs', map_fmap_singleton, lookup_singleton_eq.
Qed.
End elections.

(** ** Witness *)

Section witnesses.
#[local] Instance wit_range : GoRange := sorted_range.
#[local] Instance wit_fmt : GoFmt := {| fmt_float := fun _ => ""; fmt_float32 := fun _ => ""; fmt_opaque := fun _ => "" |}.
#[local] Instance wit_clock : Clock := fun n => Z.of_nat n.

(** Two-byte ballots. *)
#[local] Instance wit_json : VoteJSON := {|
  decode_ballot pl := match pl with [c; w] => Some (Z_of_byte c, f64_of_Z (Z_of_byte w)) | _ => None end;
  encode_tally t := Some [byte_of_Z (WinnerChoice t)];
  encode_transcript body hash := body ++ bytes_of_string hash |}.

Lemma f64_of_Z_byte_not_nan b : f64_is_nan (f64_of_Z (Z_of_byte b)) = false.
Proof. by destruct b. Qed.

#[local] Instance wit_laws : VoteJSONLaws.
Proof.
  intros pl c w. destruct pl as [|c' [|w' [|]]]; try done. cbn. intros [= <- <-]. apply f64_of_Z_byte_not_nan.
Qed.

Abbreviation wit_runner := (composed_or_empty (Pipeline (St := InMemoryStore))).

Lemma vote_accepted : is_inr (Pipeline (St := InMemoryStore)) = true.
Proof. vm_compute. reflexivity. Qed.

Lemma ballots_decode v pl :
  latest ([("a", [x01; x02])] ++ [("b", [x03; x05])]) !! v = Some pl -> is_Some (decode_ballot pl).
Proof.
  revert v pl. apply (map_Forall_to_list (fun _ pl => is_Some (decode_ballot pl))).
  repeat constructor; eexists; reflexivity.
Qed.

Lemma election_decides_witness :
  exists c, sessions (runner_run wit_runner (open_election "s" "c" ["a"; "b"] ++ cast "s" [("a", [x01; x02])]))
    !! "s" = Some (mkTracker c StateGossip (Some (PhaseSubmitVote StateGossip)) true).
Proof.
  refine (proj1 (election_decides wit_runner "s" "c" ["a"; "b"] [("a", [x01; x02])] "b" [x03; x05]
    (composes _ vote_accepted) _ _ _ ballots_decode)).
  - discriminate.
  - set_solver.
  - reflexivity.
Defined.

(** The other two pipelines compose for every signer with a peer. *)
Lemma lineage_pipelines_compose `{SlotJSON} (sg : Signer) (peers : gmap string Signer) :
  peers <> ∅ ->
  is_inr (PipelineWithLineage sg peers) = true /\ is_inr (PipelineWithShuffle sg peers) = true.
Proof. intros Hp. split; (apply ComposeWith_composes; [vm_compute; reflexivity|done..]). Qed.
End witnesses.
End Voting.
