(* ===== verification/Base64.v ===== *)
(** * Base64

    [encoding/base64] with the standard alphabet and padding, as the helper's
    wire format and the credentials use it. *)

From S2P Require Import Prelude.

#[local] Open Scope Z_scope.
#[local] Open Scope go_scope.

Module Base64.

Definition alphabet : string := "ABCDEFGHIJKLMNOPQRSTUVWXYZabcdefghijklmnopqrstuvwxyz0123456789+/".

Definition pad : byte := "="%byte.

Definition b64_digit (q : Z) : byte := default pad (bytes_of_string alphabet !! Z.to_nat q).

Definition b64_value (c : byte) : option Z :=
  (fun i : nat * byte => Z.of_nat i.1) <$> list_find (fun d => d = c) (bytes_of_string alphabet).

Fixpoint b64_chars (raw : bytes) : bytes :=
  match raw with
  | [] => []
  | [x] =>
      let a := Z_of_byte x in [b64_digit (a / 4); b64_digit (a mod 4 * 16); pad; pad]
  | [x; y] =>
      let a := Z_of_byte x in let b := Z_of_byte y in
      [b64_digit (a / 4); b64_digit (a mod 4 * 16 + b / 16); b64_digit (b mod 16 * 4); pad]
  | x :: y :: z :: raw' =>
      let a := Z_of_byte x in let b := Z_of_byte y in let c := Z_of_byte z in
      b64_digit (a / 4) :: b64_digit (a mod 4 * 16 + b / 16) :: b64_digit (b mod 16 * 4 + c / 64) ::
      b64_digit (c mod 64) :: b64_chars raw'
  end.

(** One group of four; padding only at the end. *)
Fixpoint b64_groups (cs : bytes) : option bytes :=
  match cs with
  | [] => Some []
  | p :: q :: r :: s :: cs' =>
      a ← b64_value p; b ← b64_value q;
      match b64_value r, b64_value s with
      | Some c, Some d =>
          rest ← b64_groups cs';
          Some (byte_of_Z (a * 4 + b / 16) :: byte_of_Z (b mod 16 * 16 + c / 4) :: byte_of_Z (c mod 4 * 64 + d) :: rest)
      | Some c, None =>
          if bool_decide (s = pad /\ cs' = []) then
            Some [byte_of_Z (a * 4 + b / 16); byte_of_Z (b mod 16 * 16 + c / 4)] else None
      | None, _ =>
          if bool_decide (r = pad /\ s = pad /\ cs' = []) then Some [byte_of_Z (a * 4 + b / 16)] else None
      end
  | _ => None
  end.

(** Line breaks are skipped. *)
Definition b64_decode (s : string) : option bytes :=
  b64_groups (filter (fun c => c <> x0a /\ c <> x0d) (bytes_of_string s)).

(** [decodeQuantum] at byte [si] of the input with [j] digits of the quantum
    read: the byte a [CorruptInputError] of input that does not decode names. *)
Fixpoint skip_breaks (si : Z) (src : bytes) : Z * bytes :=
  match src with
  | c :: src' => if bool_decide (c = x0a \/ c = x0d) then skip_breaks (si + 1) src' else (si, src)
  | [] => (si, [])
  end.

Definition corrupt_padding (si j : Z) (src : bytes) : Z :=
  if j <? 2 then si
  else
    let '(si', rest) := skip_breaks (si + 1) src in
    if j =? 2 then
      match rest with
      | [] => si'
      | c :: rest' => if bool_decide (c = pad) then fst (skip_breaks (si' + 1) rest') else si' - 1
      end
    else si'.

Fixpoint b64_corrupt (si j : Z) (src : bytes) : Z :=
  match src with
  | [] => si - j
  | c :: src' =>
      match b64_value c with
      | Some _ => b64_corrupt (si + 1) ((j + 1) mod 4) src'
      | None =>
          if bool_decide (c = x0a \/ c = x0d) then b64_corrupt (si + 1) j src'
          else if bool_decide (c = pad) then corrupt_padding si j src' else si
      end
  end.

Definition CorruptInputError (s : string) : string :=
  "illegal base64 data at input byte " +:+ pretty (b64_corrupt 0 0 (bytes_of_string s)).

Example corrupt_short : CorruptInputError "AAAAAB" = "illegal base64 data at input byte 4".
Proof. reflexivity. Qed.

Example corrupt_char : CorruptInputError "AA*A" = "illegal base64 data at input byte 2".
Proof. reflexivity. Qed.

Example corrupt_pad : CorruptInputError "AA=A" = "illegal base64 data at input byte 2".
Proof. reflexivity. Qed.

Example corrupt_tail : CorruptInputError "AA==A" = "illegal base64 data at input byte 4".
Proof. reflexivity. Qed.

Definition b64_encode (raw : bytes) : string := string_of_bytes (b64_chars raw).

Lemma b64_value_digit q : 0 <= q < 64 -> b64_value (b64_digit q) = Some q.
Proof.
  intros Hq. assert (Hall : Forall (fun n => b64_value (b64_digit (Z.of_nat n)) = Some (Z.of_nat n)) (seq 0 64)).
  { apply Forall_forall. intros n Hn.
    assert (Hb : forallb (fun n => bool_decide (b64_value (b64_digit (Z.of_nat n)) = Some (Z.of_nat n))) (seq 0 64) = true)
      by (vm_compute; reflexivity).
    rewrite forallb_forall in Hb. apply list_elem_of_In in Hn. specialize (Hb n Hn). by apply bool_decide_eq_true in Hb. }
  rewrite Forall_forall in Hall. rewrite <- (Z2Nat.id q) by lia. apply Hall, elem_of_seq. lia.
Qed.

Lemma b64_digit_plain q : b64_digit q <> x0a /\ b64_digit q <> x0d.
Proof.
  unfold b64_digit. destruct (bytes_of_string alphabet !! Z.to_nat q) as [c|] eqn:Hc; [|done]. cbn.
  assert (Hall : Forall (fun c => c <> x0a /\ c <> x0d) (bytes_of_string alphabet)).
  { apply Forall_forall. intros d Hd.
    assert (Hb : forallb (fun c => bool_decide (c <> x0a /\ c <> x0d)) (bytes_of_string alphabet) = true)
      by (vm_compute; reflexivity).
    rewrite forallb_forall in Hb. apply list_elem_of_In in Hd. specialize (Hb d Hd). by apply bool_decide_eq_true in Hb. }
  rewrite Forall_forall in Hall. apply Hall. by apply list_elem_of_lookup_2 in Hc.
Qed.

Lemma b64_value_pad : b64_value pad = None.
Proof. by vm_compute. Qed.

(** Byte lists in steps of three. *)
Lemma bytes_ind3 (P : bytes -> Prop) :
  P [] -> (forall x, P [x]) -> (forall x y, P [x; y]) -> (forall x y z l, P l -> P (x :: y :: z :: l)) -> forall l, P l.
Proof.
  intros H0 H1 H2 H3. fix IH 1. intros [|x [|y [|z l]]]; [exact H0|apply H1|apply H2|apply H3, IH].
Qed.

Lemma b64_chars_plain raw : Forall (fun c => c <> x0a /\ c <> x0d) (b64_chars raw).
Proof.
  induction raw as [|x|x y|x y z raw IH] using bytes_ind3; cbn [b64_chars]; repeat constructor;
    try apply b64_digit_plain; done.
Qed.

Lemma byte_of_Z_is z x : z = Z_of_byte x -> byte_of_Z z = x.
Proof. intros ->. apply byte_of_Z_of_byte. Qed.

Ltac b64_arith :=
  repeat match goal with x : byte |- _ =>
    lazymatch goal with
    | H : 0 <= Z_of_byte x < 256 |- _ => fail
    | _ => pose proof (Z_of_byte_range x)
    end end; Z.to_euclidean_division_equations; lia.

Lemma b64_groups_chars raw : b64_groups (b64_chars raw) = Some raw.
Proof.
  induction raw as [|x|x y|x y z raw IH] using bytes_ind3; cbn [b64_chars b64_groups]; [done|..].
  all: rewrite !b64_value_digit by b64_arith; cbn [mbind option_bind].
  - rewrite b64_value_pad, bool_decide_true by done. do 2 f_equal. apply byte_of_Z_is. b64_arith.
  - rewrite b64_value_pad, bool_decide_true by done. f_equal.
    f_equal; [apply byte_of_Z_is; b64_arith|]. f_equal. apply byte_of_Z_is. b64_arith.
  - rewrite IH. cbn. f_equal. f_equal; [|f_equal; [|f_equal]]; apply byte_of_Z_is; b64_arith.
Qed.

Lemma b64_roundtrip raw : b64_decode (b64_encode raw) = Some raw.
Proof.
  unfold b64_decode, b64_encode, bytes_of_string, string_of_bytes. rewrite String.list_byte_of_string_of_list_byte.
  rewrite filter_all by apply b64_chars_plain. apply b64_groups_chars.
Qed.

Lemma b64_encode_empty raw : String.eqb (b64_encode raw) "" = bool_decide (raw = []).
Proof. by destruct raw as [|x [|y [|z raw]]]. Qed.

(** A byte outside the alphabet that comes first makes the text undecodable. *)
Lemma b64_decode_bad c s : b64_value c = None -> c <> x0a -> c <> x0d -> b64_decode (string_of_bytes (c :: s)) = None.
Proof.
  intros Hc Ha Hd. unfold b64_decode, bytes_of_string, string_of_bytes. rewrite String.list_byte_of_string_of_list_byte.
  rewrite filter_cons_True by done. destruct (filter _ s) as [|x [|y [|z l]]]; cbn [b64_groups]; try done. by rewrite Hc.
Qed.
End Base64.
