(* ===== verification/HelperClient.v ===== *)
(** * The helper client ([pkg/ares/crypto/helperclient])

    The Go side of the encryption helper: the wire types, the base64 codec, one
    operation per method over a request-response transport, the chained key
    generations and the built-in sharpening polynomials. *)

From Stdlib Require Import SpecFloat QArith Qfield Lqa.
From S2P Require Import Prelude Float64 Base64.
Import Base64.

#[local] Open Scope Z_scope.
#[local] Open Scope go_scope.

Module HelperClient.

Definition encodeB64 (raw : bytes) : string := b64_encode raw.

Lemma b64_decode_encode raw : b64_decode (encodeB64 raw) = Some raw.
Proof. apply b64_roundtrip. Qed.

Lemma encodeB64_empty raw : String.eqb (encodeB64 raw) "" = bool_decide (raw = []).
Proof. apply b64_encode_empty. Qed.

(** ** Wire types *)

Definition SchemeCKKS : string := "ckks".
Definition SchemeBFV : string := "bfv".

Record ContractParams := mkParams {
  Scheme : string;
  RingDim : Z;
  ScalingFactor : float64;
  ScalingModSize : Z;
  Depth : Z
}.

Definition EffectiveScheme (p : ContractParams) : string :=
  if String.eqb (Scheme p) "" then SchemeCKKS else Scheme p.

Record BFVContractParams := mkBFVParams {
  BFVRingDim : Z;
  MultiplicativeDepth : Z;
  PlaintextModulus : Z;
  BatchSize : Z
}.

Record Request := mkRequest {
  Op : string;
  Params : ContractParams;
  BFVParams : BFVContractParams;
  PrevPublicKey : string;
  JointPublicKey : string;
  OwnPublicKey : string;
  FinalPublicKey : string;
  EvalMultBase : string;
  EvalSumBase : string;
  EvalMultJoined : string;
  Values : list float64;
  IntValues : list Z;
  Ciphertext : string;
  SecretKeyShare : string;
  Lead : bool;
  Partials : list string;
  NSlots : Z;
  EvalKeys : string;
  CiphertextA : string;
  CiphertextB : string;
  Scalar : float64;
  Coefficients : list float64;
  PolyLowerBound : float64;
  PolyUpperBound : float64;
  Ciphertexts : list string;
  PublicKeys : list string;
  EvalMultRound1Shares : list string;
  EvalSumRound1Shares : list string;
  EvalMultFinalShares : list string;
  EvalSumFinalKey : string
}.

#[export] Instance Request_eta : Eta Request := fun r =>
  mkRequest (Op r) (Params r) (BFVParams r) (PrevPublicKey r) (JointPublicKey r) (OwnPublicKey r) (FinalPublicKey r)
    (EvalMultBase r) (EvalSumBase r) (EvalMultJoined r) (Values r) (IntValues r) (Ciphertext r) (SecretKeyShare r)
    (Lead r) (Partials r) (NSlots r) (EvalKeys r) (CiphertextA r) (CiphertextB r) (Scalar r) (Coefficients r)
    (PolyLowerBound r) (PolyUpperBound r) (Ciphertexts r) (PublicKeys r) (EvalMultRound1Shares r)
    (EvalSumRound1Shares r) (EvalMultFinalShares r) (EvalSumFinalKey r).

(** Zero values. *)
Definition no_params : ContractParams := mkParams "" 0 f64_zero 0 0.
Definition no_bfv : BFVContractParams := mkBFVParams 0 0 0 0.

Definition request_of (op : string) (params : ContractParams) (bfv : BFVContractParams) : Request := {|
  Op := op; Params := params; BFVParams := bfv; PrevPublicKey := ""; JointPublicKey := ""; OwnPublicKey := "";
  FinalPublicKey := ""; EvalMultBase := ""; EvalSumBase := ""; EvalMultJoined := ""; Values := []; IntValues := [];
  Ciphertext := ""; SecretKeyShare := ""; Lead := false; Partials := []; NSlots := 0; EvalKeys := "";
  CiphertextA := ""; CiphertextB := ""; Scalar := f64_zero; Coefficients := []; PolyLowerBound := f64_zero;
  PolyUpperBound := f64_zero; Ciphertexts := []; PublicKeys := []; EvalMultRound1Shares := [];
  EvalSumRound1Shares := []; EvalMultFinalShares := []; EvalSumFinalKey := "" |}.

(** [Request{Op: op, Params: params}] and [Request{Op: op, BFVParams: params}]. *)
Definition ckks_request (op : string) (params : ContractParams) : Request := request_of op params no_bfv.
Definition bfv_request (op : string) (params : BFVContractParams) : Request := request_of op no_params params.

Record Response := mkResponse {
  rPublicKey : string;
  rSecretKeyShare : string;
  rLead : option bool;
  rCiphertext : string;
  rPartial : string;
  rValues : list float64;
  rIntValues : list Z;
  rEvalMultBase : string;
  rEvalSumBase : string;
  rEvalMultShare : string;
  rEvalSumShare : string;
  rEvalMultJoined : string;
  rEvalMultFinalShare : string;
  rEvalSumFinal : string;
  rEvalMultFinal : string;
  rCiphertexts : list string;
  rVersion : string
}.

Record envelope := mkEnvelope { env_Result : option Response; env_Error : string }.

(** ** The client *)

Inductive herror :=
  | HClosed
  | HEncode (op : string)
  | HDecode (op : string)
  | HelperError (op msg : string)
  | HEmpty (op : string)
  | HBase64
  | HWrap (text : string) (err : herror)
  | HTooFew (text : string) (n : Z).

(** How one request fares with the process behind the pipe: [None] as its
    answer is a failure to write it or to read the reply. *)
Class Transport (W : Type) := exchange : Request -> W -> W * option envelope.

(** [encoding/json] has no form for NaN and the infinities. *)
Definition finite (f : float64) : bool := negb (f64_is_nan f || f64_is_inf f).

Definition encodable (r : Request) : bool :=
  finite (ScalingFactor (Params r)) && forallb finite (Values r) && finite (Scalar r) &&
  forallb finite (Coefficients r) && finite (PolyLowerBound r) && finite (PolyUpperBound r).

Record Client (W : Type) := mkClient { proc : W; done : bool }.
Arguments mkClient {W}.
Arguments proc {W} c.
Arguments done {W} c.

(** A method: a client, the client after it and its result. *)
Definition H (W A : Type) : Type := Client W -> Client W * (herror + A).

Definition hret {W A} (a : A) : H W A := fun c => (c, inr a).
Definition hfail {W A} (e : herror) : H W A := fun c => (c, inl e).
Definition hbind {W A B} (m : H W A) (f : A -> H W B) : H W B := fun c =>
  match m c with
  | (c', inr a) => f a c'
  | (c', inl e) => (c', inl e)
  end.

Declare Scope helper_scope.
Delimit Scope helper_scope with helper.
#[local] Open Scope helper_scope.
Notation "'let!' x ':=' p 'in' q" := (hbind p (fun x => q))
  (at level 200, x pattern, p at level 100, q at level 200) : helper_scope.

(** [if err != nil { return fmt.Errorf(text, err) }]. *)
Definition hwrap {W A} (text : string) (m : H W A) : H W A := fun c =>
  match m c with
  | (c', inl e) => (c', inl (HWrap text e))
  | r => r
  end.

Definition hlift {W A} (o : option A) : H W A := match o with Some a => hret a | None => hfail HBase64 end.

Definition decodeB64 (s : string) : option bytes := if String.eqb s "" then Some [] else b64_decode s.

Record KeyShare := mkKeyShare { ks_PublicKey : bytes; ks_SecretKeyShare : bytes; ks_Lead : bool }.

Definition EvalKeyRound1Result : Type := bytes * bytes.
Definition EvalKeyRound1ParticipantShare : Type := bytes * bytes.
Definition CombineEvalKeyRound1Result : Type := bytes * bytes.

Record EvalKeyBundle := mkBundle {
  eb_PublicKey : bytes;
  eb_EvalKeys : bytes;
  eb_EvalSumKeys : bytes;
  eb_KeyShares : list KeyShare
}.

Record EvalPolyParams := mkPoly { poly_Coefficients : list float64; LowerBound : float64; UpperBound : float64 }.

Section client.
Context {W : Type} `{Transport W}.

Definition Close : H W unit := fun c => (mkClient (proc c) true, inr tt).

Definition call (req : Request) : H W Response := fun c =>
  if done c then (c, inl HClosed)
  else if negb (encodable req) then (c, inl (HEncode (Op req)))
  else
    let '(w, answer) := exchange req (proc c) in
    let c := mkClient w false in
    match answer with
    | None => (c, inl (HDecode (Op req)))
    | Some env =>
        if negb (String.eqb (env_Error env) "") then (c, inl (HelperError (Op req) (env_Error env)))
        else match env_Result env with
        | None => (c, inl (HEmpty (Op req)))
        | Some r => (c, inr r)
        end
    end.

Definition decodeKeyShare (resp : Response) : option KeyShare :=
  pk ← decodeB64 (rPublicKey resp);
  sk ← decodeB64 (rSecretKeyShare resp);
  Some (mkKeyShare pk sk (default false (rLead resp))).

(** *** Protocol operations *)

Definition KeygenFirst (params : ContractParams) : H W KeyShare :=
  let! resp := call (ckks_request "keygen_first" params) in
  hlift (decodeKeyShare resp).

Definition KeygenNext (params : ContractParams) (prevPublicKey : bytes) : H W KeyShare :=
  let! resp := call (ckks_request "keygen_next" params <| PrevPublicKey := encodeB64 prevPublicKey |>) in
  hlift (decodeKeyShare resp).

Definition EncryptProfile (params : ContractParams) (jointPublicKey : bytes) (values : list float64) : H W bytes :=
  let! resp := call (ckks_request "encrypt_profile" params
                       <| JointPublicKey := encodeB64 jointPublicKey |> <| Values := values |>) in
  hlift (decodeB64 (rCiphertext resp)).

(** The pair of fields a response must decode. *)
Definition decode_pair (a b : string) : option (bytes * bytes) :=
  x ← decodeB64 a; y ← decodeB64 b; Some (x, y).

Definition EvalKeyRound1Lead (params : ContractParams) (secretKeyShare : bytes) : H W EvalKeyRound1Result :=
  let! resp := call (ckks_request "evalkey_round1_lead" params <| SecretKeyShare := encodeB64 secretKeyShare |>) in
  hlift (decode_pair (rEvalMultBase resp) (rEvalSumBase resp)).

Definition EvalKeyRound1Participant (params : ContractParams)
    (secretKeyShare evalMultBase evalSumBase ownPublicKey : bytes) : H W EvalKeyRound1ParticipantShare :=
  let! resp := call (ckks_request "evalkey_round1_participant" params
                       <| SecretKeyShare := encodeB64 secretKeyShare |> <| EvalMultBase := encodeB64 evalMultBase |>
                       <| EvalSumBase := encodeB64 evalSumBase |> <| OwnPublicKey := encodeB64 ownPublicKey |>) in
  hlift (decode_pair (rEvalMultShare resp) (rEvalSumShare resp)).

Definition EvalKeyRound2Participant (params : ContractParams)
    (secretKeyShare evalMultJoined finalPublicKey : bytes) (lead : bool) : H W bytes :=
  let! resp := call (ckks_request "evalkey_round2_participant" params
                       <| SecretKeyShare := encodeB64 secretKeyShare |> <| EvalMultJoined := encodeB64 evalMultJoined |>
                       <| FinalPublicKey := encodeB64 finalPublicKey |> <| Lead := lead |>) in
  hlift (decodeB64 (rEvalMultFinalShare resp)).

Definition PartialDecrypt (params : ContractParams) (ciphertext secretKeyShare : bytes) (lead : bool) : H W bytes :=
  let! resp := call (ckks_request "partial_decrypt" params
                       <| Ciphertext := encodeB64 ciphertext |> <| SecretKeyShare := encodeB64 secretKeyShare |>
                       <| Lead := lead |>) in
  hlift (decodeB64 (rPartial resp)).

Definition CombineEvalKeyRound1 (params : ContractParams) (pks multShares sumShares : list bytes)
    : H W CombineEvalKeyRound1Result :=
  let! resp := call (ckks_request "combine_evalkey_round1" params
                       <| PublicKeys := encodeB64 <$> pks |> <| EvalMultRound1Shares := encodeB64 <$> multShares |>
                       <| EvalSumRound1Shares := encodeB64 <$> sumShares |>) in
  hlift (decode_pair (rEvalMultJoined resp) (rEvalSumFinal resp)).

Definition CombineEvalKeyRound2 (params : ContractParams) (finalPublicKey : bytes) (finalShares : list bytes)
    (evalSumFinal : bytes) : H W bytes :=
  let! resp := call (ckks_request "combine_evalkey_round2" params
                       <| FinalPublicKey := encodeB64 finalPublicKey |>
                       <| EvalMultFinalShares := encodeB64 <$> finalShares |>
                       <| EvalSumFinalKey := encodeB64 evalSumFinal |>) in
  hlift (decodeB64 (rEvalMultFinal resp)).

Definition FusePartials (params : ContractParams) (partials : list bytes) (nSlots : Z) : H W (list float64) :=
  let! resp := call (ckks_request "fuse_partials" params
                       <| Partials := encodeB64 <$> partials |> <| NSlots := nSlots |>) in
  hret (rValues resp).

Definition Version : H W string :=
  let! res := call (request_of "version" no_params no_bfv) in hret (rVersion res).

(** *** Scoring operations *)

Definition eval_binary (op : string) (params : ContractParams) (evalKeys ctA ctB : bytes) : H W bytes :=
  let! resp := call (ckks_request op params <| EvalKeys := encodeB64 evalKeys |>
                       <| CiphertextA := encodeB64 ctA |> <| CiphertextB := encodeB64 ctB |>) in
  hlift (decodeB64 (rCiphertext resp)).

Definition EvalAdd := eval_binary "eval_add".
Definition EvalSub := eval_binary "eval_sub".
Definition EvalMult := eval_binary "eval_mult".

Definition EvalConstMult (params : ContractParams) (ct : bytes) (scalar : float64) : H W bytes :=
  let! resp := call (ckks_request "eval_const_mult" params <| Ciphertext := encodeB64 ct |> <| Scalar := scalar |>) in
  hlift (decodeB64 (rCiphertext resp)).

Definition EvalPoly (params : ContractParams) (evalKeys ct : bytes) (poly : EvalPolyParams) : H W bytes :=
  let! resp := call (ckks_request "eval_poly" params <| EvalKeys := encodeB64 evalKeys |>
                       <| Ciphertext := encodeB64 ct |> <| Coefficients := poly_Coefficients poly |>
                       <| PolyLowerBound := LowerBound poly |> <| PolyUpperBound := UpperBound poly |>) in
  hlift (decodeB64 (rCiphertext resp)).

Definition Argmax (params : ContractParams) (evalKeys : bytes) (ciphertexts : list bytes) (p : EvalPolyParams)
    : H W (list bytes) :=
  let! resp := call (ckks_request "argmax" params <| EvalKeys := encodeB64 evalKeys |>
                       <| Ciphertexts := encodeB64 <$> ciphertexts |> <| Coefficients := poly_Coefficients p |>
                       <| PolyLowerBound := LowerBound p |> <| PolyUpperBound := UpperBound p |>) in
  hlift (mapM decodeB64 (rCiphertexts resp)).

(** *** BFV operations *)

Definition BFVKeygenFirst (params : BFVContractParams) : H W KeyShare :=
  let! resp := call (bfv_request "bfv_keygen_first" params) in
  hlift (decodeKeyShare resp).

Definition BFVKeygenNext (params : BFVContractParams) (prevPublicKey : bytes) : H W KeyShare :=
  let! resp := call (bfv_request "bfv_keygen_next" params <| PrevPublicKey := encodeB64 prevPublicKey |>) in
  hlift (decodeKeyShare resp).

Definition BFVEncryptIntVector (params : BFVContractParams) (jointPublicKey : bytes) (values : list Z) : H W bytes :=
  let! resp := call (bfv_request "bfv_encrypt_int_vector" params
                       <| JointPublicKey := encodeB64 jointPublicKey |> <| IntValues := values |>) in
  hlift (decodeB64 (rCiphertext resp)).

Definition BFVEvalKeyRound1Lead (params : BFVContractParams) (secretKeyShare : bytes) : H W EvalKeyRound1Result :=
  let! resp := call (bfv_request "bfv_evalkey_round1_lead" params <| SecretKeyShare := encodeB64 secretKeyShare |>) in
  hlift (decode_pair (rEvalMultBase resp) (rEvalSumBase resp)).

Definition BFVEvalKeyRound1Participant (params : BFVContractParams)
    (secretKeyShare evalMultBase evalSumBase ownPublicKey : bytes) : H W EvalKeyRound1ParticipantShare :=
  let! resp := call (bfv_request "bfv_evalkey_round1_participant" params
                       <| SecretKeyShare := encodeB64 secretKeyShare |> <| EvalMultBase := encodeB64 evalMultBase |>
                       <| EvalSumBase := encodeB64 evalSumBase |> <| OwnPublicKey := encodeB64 ownPublicKey |>) in
  hlift (decode_pair (rEvalMultShare resp) (rEvalSumShare resp)).

Definition BFVCombineEvalKeyRound1 (params : BFVContractParams) (pks multShares sumShares : list bytes)
    : H W CombineEvalKeyRound1Result :=
  let! resp := call (bfv_request "bfv_combine_evalkey_round1" params
                       <| PublicKeys := encodeB64 <$> pks |> <| EvalMultRound1Shares := encodeB64 <$> multShares |>
                       <| EvalSumRound1Shares := encodeB64 <$> sumShares |>) in
  hlift (decode_pair (rEvalMultJoined resp) (rEvalSumFinal resp)).

Definition BFVEvalKeyRound2Participant (params : BFVContractParams)
    (secretKeyShare evalMultJoined finalPublicKey : bytes) (lead : bool) : H W bytes :=
  let! resp := call (bfv_request "bfv_evalkey_round2_participant" params
                       <| SecretKeyShare := encodeB64 secretKeyShare |> <| EvalMultJoined := encodeB64 evalMultJoined |>
                       <| FinalPublicKey := encodeB64 finalPublicKey |> <| Lead := lead |>) in
  hlift (decodeB64 (rEvalMultFinalShare resp)).

Definition BFVCombineEvalKeyRound2 (params : BFVContractParams) (finalPublicKey : bytes) (finalShares : list bytes)
    (evalSumFinal : bytes) : H W bytes :=
  let! resp := call (bfv_request "bfv_combine_evalkey_round2" params
                       <| FinalPublicKey := encodeB64 finalPublicKey |>
                       <| EvalMultFinalShares := encodeB64 <$> finalShares |>
                       <| EvalSumFinalKey := encodeB64 evalSumFinal |>) in
  hlift (decodeB64 (rEvalMultFinal resp)).

Definition BFVEvalProductSum (params : BFVContractParams)
    (evalMultKey evalSumKey leftCiphertext rightCiphertext : bytes) (nSlots : Z) : H W bytes :=
  let! resp := call (bfv_request "bfv_eval_product_sum" params
                       <| EvalKeys := encodeB64 evalMultKey |> <| EvalSumFinalKey := encodeB64 evalSumKey |>
                       <| CiphertextA := encodeB64 leftCiphertext |> <| CiphertextB := encodeB64 rightCiphertext |>
                       <| NSlots := nSlots |>) in
  hlift (decodeB64 (rCiphertext resp)).

Definition BFVPartialDecrypt (params : BFVContractParams) (ciphertext secretKeyShare : bytes) (lead : bool) : H W bytes :=
  let! resp := call (bfv_request "bfv_partial_decrypt" params
                       <| Ciphertext := encodeB64 ciphertext |> <| SecretKeyShare := encodeB64 secretKeyShare |>
                       <| Lead := lead |>) in
  hlift (decodeB64 (rPartial resp)).

Definition BFVFusePartials (params : BFVContractParams) (partials : list bytes) (nSlots : Z) : H W (list Z) :=
  let! resp := call (bfv_request "bfv_fuse_partials_int" params
                       <| Partials := encodeB64 <$> partials |> <| NSlots := nSlots |>) in
  hret (rIntValues resp).
End client.

(** ** Chained key generation *)

(** The calls of one chain; the two chains of the source have one shape and
    differ in these calls and in the words of their errors. *)
Record chain_ops (W : Type) := mkChain {
  ch_label : string;
  ch_prefix : string;
  ch_first : H W KeyShare;
  ch_next : bytes -> H W KeyShare;
  ch_lead : bytes -> H W (bytes * bytes);
  ch_participant : bytes -> bytes -> bytes -> bytes -> H W (bytes * bytes);
  ch_combine1 : list bytes -> list bytes -> list bytes -> H W (bytes * bytes);
  ch_round2 : bytes -> bytes -> bytes -> bool -> H W bytes;
  ch_combine2 : bytes -> list bytes -> bytes -> H W bytes
}.
Arguments mkChain {W}.
Arguments ch_label {W}. Arguments ch_prefix {W}. Arguments ch_first {W}. Arguments ch_next {W}.
Arguments ch_lead {W}. Arguments ch_participant {W}. Arguments ch_combine1 {W}. Arguments ch_round2 {W}.
Arguments ch_combine2 {W}.

Section chain.
Context {W : Type} (o : chain_ops W).

Definition at_step (op : string) : string := (ch_label o +:+ ": " +:+ ch_prefix o +:+ op)%string.
Definition at_slot (slot : nat) (op : string) : string :=
  (ch_label o +:+ ": slot " +:+ pretty slot +:+ " " +:+ ch_prefix o +:+ op)%string.

(** Slots [slot ..] up to [k] more, each from the key before it. *)
Fixpoint next_keys (slot k : nat) (prev : KeyShare) : H W (list KeyShare) :=
  match k with
  | O => hret []
  | S k' =>
      let! next := hwrap (at_slot slot "keygen_next") (ch_next o (ks_PublicKey prev)) in
      let! rest := next_keys (S slot) k' next in
      hret (next :: rest)
  end.

Fixpoint round1_shares (slot : nat) (base : bytes * bytes) (shares : list KeyShare) : H W (list (bytes * bytes)) :=
  match shares with
  | [] => hret []
  | s :: shares' =>
      let! ps := hwrap (at_slot slot "evalkey_round1_participant")
                   (ch_participant o (ks_SecretKeyShare s) base.1 base.2 (ks_PublicKey s)) in
      let! rest := round1_shares (S slot) base shares' in
      hret (ps :: rest)
  end.

Fixpoint round2_shares (slot : nat) (joined finalPublicKey : bytes) (shares : list KeyShare) : H W (list bytes) :=
  match shares with
  | [] => hret []
  | s :: shares' =>
      let! final := hwrap (at_slot slot "evalkey_round2_participant")
                      (ch_round2 o (ks_SecretKeyShare s) joined finalPublicKey (slot =? 0)%nat) in
      let! rest := round2_shares (S slot) joined finalPublicKey shares' in
      hret (final :: rest)
  end.

Definition chain (n : Z) : H W EvalKeyBundle :=
  if n <? 2 then hfail (HTooFew (ch_label o +:+ ": n must be >= 2, got %d") n)
  else
    let! first := hwrap (at_slot 0 "keygen_first") (ch_first o) in
    let! others := next_keys 1 (Z.to_nat (n - 1)) first in
    let shares := first :: others in
    let finalPublicKey := ks_PublicKey (List.last others first) in
    let! base := hwrap (at_step "evalkey_round1_lead") (ch_lead o (ks_SecretKeyShare first)) in
    let! ps := round1_shares 1 base others in
    let! combined := hwrap (at_step "combine_evalkey_round1")
      (ch_combine1 o (ks_PublicKey <$> shares) (base.1 :: ps.*1) (base.2 :: ps.*2)) in
    let! r2 := round2_shares 0 combined.1 finalPublicKey shares in
    let! evalKeys := hwrap (at_step "combine_evalkey_round2") (ch_combine2 o finalPublicKey r2 combined.2) in
    hret (mkBundle finalPublicKey evalKeys combined.2 shares).
End chain.

Definition ckks_chain {W} `{Transport W} (params : ContractParams) : chain_ops W :=
  mkChain "KeygenChain" "" (KeygenFirst params) (KeygenNext params) (EvalKeyRound1Lead params)
    (EvalKeyRound1Participant params) (CombineEvalKeyRound1 params) (EvalKeyRound2Participant params)
    (CombineEvalKeyRound2 params).

Definition bfv_chain {W} `{Transport W} (params : BFVContractParams) : chain_ops W :=
  mkChain "BFVKeygenChain" "bfv_" (BFVKeygenFirst params) (BFVKeygenNext params) (BFVEvalKeyRound1Lead params)
    (BFVEvalKeyRound1Participant params) (BFVCombineEvalKeyRound1 params) (BFVEvalKeyRound2Participant params)
    (BFVCombineEvalKeyRound2 params).

Definition KeygenChain {W} `{Transport W} (params : ContractParams) (n : Z) : H W EvalKeyBundle :=
  chain (ckks_chain params) n.

Definition BFVKeygenChain {W} `{Transport W} (params : BFVContractParams) (n : Z) : H W EvalKeyBundle :=
  chain (bfv_chain params) n.

(** ** Sharpening polynomials *)

Definition SharpenSignDegree3 : EvalPolyParams :=
  mkPoly [f64_zero; f64_lit 15 1; f64_zero; SFopp (f64_lit 5 1)] (SFopp f64_one) f64_one.

Definition SharpenSignDegree9 : EvalPolyParams :=
  mkPoly
    [f64_zero; f64_div (f64_of_Z 315) (f64_of_Z 128); f64_zero; f64_div (f64_of_Z (-105)) (f64_of_Z 32); f64_zero;
     f64_div (f64_of_Z 189) (f64_of_Z 64); f64_zero; f64_div (f64_of_Z (-45)) (f64_of_Z 32); f64_zero;
     f64_div (f64_of_Z 35) (f64_of_Z 128)]
    (SFopp f64_one) f64_one.

Definition SharpenChebyshev (low high : float64) (degree : Z) : EvalPolyParams := mkPoly [] low high.

(** A float as the rational it is, and a polynomial in ascending coefficients. *)
Definition f64_Q (f : float64) : Q :=
  match f with
  | S754_finite s m e => (if s then Qopp else fun q => q) (inject_Z (Zpos m) * Qpower 2 e)%Q
  | _ => 0%Q
  end.

Fixpoint poly_eval (coeffs : list Q) (x : Q) : Q :=
  match coeffs with
  | [] => 0
  | c :: cs => (c + x * poly_eval cs x)%Q
  end.

Definition sharpen (p : EvalPolyParams) (x : Q) : Q := poly_eval (f64_Q <$> poly_Coefficients p) x.

Lemma poly_eval_Qeq cs ds x : Forall2 Qeq cs ds -> (poly_eval cs x == poly_eval ds x)%Q.
Proof. induction 1 as [|c d cs ds Hc _ IH]; cbn [poly_eval]; [done|]. by rewrite Hc, IH. Qed.

Lemma coefficients3 : Forall2 Qeq (f64_Q <$> poly_Coefficients SharpenSignDegree3) [0; 3 # 2; 0; - 1 # 2]%Q.
Proof. vm_compute. repeat constructor. Qed.

Lemma coefficients9 : Forall2 Qeq (f64_Q <$> poly_Coefficients SharpenSignDegree9)
  [0; 315 # 128; 0; - 105 # 32; 0; 189 # 64; 0; - 45 # 32; 0; 35 # 128]%Q.
Proof. vm_compute. repeat constructor. Qed.

Lemma sharpen3_eq x : (sharpen SharpenSignDegree3 x == x * ((3 # 2) - (1 # 2) * (x * x)))%Q.
Proof. unfold sharpen. rewrite (poly_eval_Qeq _ _ x coefficients3). cbn [poly_eval]. ring. Qed.

Lemma sharpen9_eq x :
  (sharpen SharpenSignDegree9 x ==
   x * (1 + (1 - x * x) * ((187 # 128) - (233 # 128) * (x * x) + (145 # 128) * (x * x * (x * x))
                           - (35 # 128) * (x * x * (x * x) * (x * x)))))%Q.
Proof. unfold sharpen. rewrite (poly_eval_Qeq _ _ x coefficients9). cbn [poly_eval]. ring. Qed.

Lemma sharpen3_top x : (1 - sharpen SharpenSignDegree3 x == (1 - x) * (1 - x) * (1 + (1 # 2) * x))%Q.
Proof. rewrite sharpen3_eq. ring. Qed.

Lemma sharpen9_top x : (1 - sharpen SharpenSignDegree9 x ==
  (1 - x) * (1 - x) * ((1 - x) * (1 - x)) * (1 - x) *
  (1 + (325 # 128) * x + (345 # 128) * (x * x) + (175 # 128) * (x * x * x) + (35 # 128) * (x * x * (x * x))))%Q.
Proof. rewrite sharpen9_eq. ring. Qed.

#[local] Open Scope Q_scope.

(** An odd map of [-1, 1] into itself that pushes values away from zero. *)
Definition sharpens (f : Q -> Q) : Prop :=
  (forall x, f (- x) == - f x) /\ (forall x, 0 <= x <= 1 -> x <= f x <= 1).

Lemma sharpens3 : sharpens (sharpen SharpenSignDegree3).
Proof.
  split.
  - intros x. rewrite !sharpen3_eq. ring.
  - intros x [H0 H1]. split; [rewrite sharpen3_eq; nra|].
    apply Qle_minus_iff. fold (1 - sharpen SharpenSignDegree3 x). rewrite sharpen3_top.
    repeat apply Qmult_le_0_compat; lra.
Qed.

Lemma sharpens9 : sharpens (sharpen SharpenSignDegree9).
Proof.
  split.
  - intros x. rewrite !sharpen9_eq. ring.
  - intros x [H0 H1]. split.
    + rewrite sharpen9_eq. assert (Ht : 0 <= x * x <= 1) by nra. revert Ht. generalize (x * x). intros t Ht.
      assert (Hh : 0 <= (187 # 128) - (233 # 128) * t + (145 # 128) * (t * t) - (35 # 128) * (t * t * t)) by nra.
      assert (Hp : 0 <= (1 - t) * ((187 # 128) - (233 # 128) * t + (145 # 128) * (t * t) - (35 # 128) * (t * t * t))).
      { apply Qmult_le_0_compat; [nra|exact Hh]. }
      nra.
    + apply Qle_minus_iff. fold (1 - sharpen SharpenSignDegree9 x). rewrite sharpen9_top.
      repeat apply Qmult_le_0_compat; try lra. assert (0 <= x * x) by nra. assert (0 <= x * x * x) by nra. nra.
Qed.

(** The built-in sharpening polynomials do what the selector needs of them.
    As rationals, exactly as the coefficients are stored, each is odd, maps
    [-1, 1] into itself and never pulls a difference towards zero: a
    difference [x] in [0, 1] comes out between [x] and 1, and a negative one
    symmetrically, so the sign of every comparison survives. *)
Lemma sharpening_keeps_order p x :
  In p [SharpenSignDegree3; SharpenSignDegree9] -> - 1 <= x <= 1 ->
  sharpen p (- x) == - sharpen p x /\ - 1 <= sharpen p x <= 1 /\
  (0 < x -> x <= sharpen p x) /\ (x < 0 -> sharpen p x <= x).
Proof.
  intros Hp [Hlo Hhi].
  assert (Hs : sharpens (sharpen p)) by (destruct Hp as [<-|[<-|[]]]; [apply sharpens3|apply sharpens9]).
  destruct Hs as [Hodd Hpos]. pose proof (Hodd x) as Hx. destruct (Qlt_le_dec x 0) as [Hneg|Hnn].
  - destruct (Hpos (- x)) as [H1 H2]; [lra|]. rewrite Hx in H1, H2. split_and!; try lra; intros; lra.
  - destruct (Hpos x) as [H1 H2]; [lra|]. split_and!; try lra; intros; lra.
Qed.

Lemma sharpening_keeps_order_witness : 1 # 2 <= sharpen SharpenSignDegree9 (1 # 2).
Proof.
  apply (sharpening_keeps_order SharpenSignDegree9 (1 # 2)).
  - right. left. reflexivity.
  - split; discriminate.
  - reflexivity.
Defined.
End HelperClient.
