(* ===== verification/HelperServer.v ===== *)
(** * The encryption helper ([cmd/openfhe-contract-helper])

    The daemon behind the helper client: it decodes a request, runs the one
    operation of the encryption library it names, and answers with an envelope.
    The library itself is a parameter.  Client and daemon together are shown to
    add nothing to the library's operations. *)

From Stdlib Require Import SpecFloat.
From S2P Require Import Prelude Float64 Base64 HelperClient.
Import Base64 HelperClient.

#[local] Open Scope Z_scope.
#[local] Open Scope go_scope.

Module HelperServer.

(** ** The library's interface *)

Record openfheParams := mkOpenFHE { o_RingDim : Z; o_ScalingFactor : float64; o_Depth : Z }.

Record EvalKeyFinal := mkFinal { EvalMultFinal : bytes; EvalSumFinal : bytes }.

(** An operation may change the library's state (its randomness) and fails with
    a text. *)
Definition B (W A : Type) : Type := W -> W * (string + A).

Class Bridge (W : Type) := {
  OpenFHEVersion : string;
  DistributedKeyGenFirst : openfheParams -> B W KeyShare;
  DistributedKeyGenNext : openfheParams -> bytes -> B W KeyShare;
  BFVDistributedKeyGenFirst : BFVContractParams -> B W KeyShare;
  BFVDistributedKeyGenNext : BFVContractParams -> bytes -> B W KeyShare;
  EncryptCKKSForContract : openfheParams -> bytes -> list float64 -> B W bytes;
  EncryptBFVForContract : BFVContractParams -> bytes -> list Z -> B W bytes;
  b_EvalKeyRound1Lead : openfheParams -> bytes -> B W (bytes * bytes);
  b_BFVEvalKeyRound1Lead : BFVContractParams -> bytes -> B W (bytes * bytes);
  b_EvalKeyRound1Participant : openfheParams -> bytes -> bytes -> bytes -> bytes -> B W (bytes * bytes);
  b_BFVEvalKeyRound1Participant : BFVContractParams -> bytes -> bytes -> bytes -> bytes -> B W (bytes * bytes);
  b_EvalKeyRound2Participant : openfheParams -> bytes -> bytes -> bytes -> bool -> B W bytes;
  b_BFVEvalKeyRound2Participant : BFVContractParams -> bytes -> bytes -> bytes -> bool -> B W bytes;
  PartialDecryptCKKSForContract : openfheParams -> bytes -> bytes -> bool -> B W bytes;
  PartialDecryptBFVForContract : BFVContractParams -> bytes -> bytes -> bool -> B W bytes;
  b_CombineEvalKeyRound1 : openfheParams -> list bytes -> list bytes -> list bytes -> B W (bytes * bytes);
  b_BFVCombineEvalKeyRound1 : BFVContractParams -> list bytes -> list bytes -> list bytes -> B W (bytes * bytes);
  b_CombineEvalKeyRound2 : openfheParams -> bytes -> list bytes -> bytes -> B W EvalKeyFinal;
  b_BFVCombineEvalKeyRound2 : BFVContractParams -> bytes -> list bytes -> bytes -> B W EvalKeyFinal;
  SplitRotShareAB : openfheParams -> bytes -> B W (bytes * bytes);
  ReconstructRotShareAB : openfheParams -> bytes -> bytes -> B W bytes;
  FuseCKKSPartialsForContract : openfheParams -> list bytes -> Z -> B W (list float64);
  FuseBFVPartialsForContract : BFVContractParams -> list bytes -> Z -> B W (list Z);
  EvalProductSumBFVForContract : BFVContractParams -> EvalKeyFinal -> bytes -> bytes -> Z -> B W bytes;
  EvalPolyCKKSForContract : openfheParams -> bytes -> bytes -> list float64 -> B W bytes;
  EvalAddCKKSForContract : openfheParams -> bytes -> bytes -> B W bytes;
  EvalSubCKKSForContract : openfheParams -> bytes -> bytes -> B W bytes;
  EvalMultCKKSForContract : openfheParams -> bytes -> bytes -> bytes -> B W bytes;
  EvalConstMultCKKSForContract : openfheParams -> bytes -> float64 -> B W bytes;
  EvalArgmaxCKKSForContract : openfheParams -> bytes -> list bytes -> list float64 -> B W (list bytes)
}.

(** ** Requests and responses on this side *)

(** The fields of the client's [Request], by their JSON names, and three more. *)
Record request := mkServerRequest {
  q : Request;
  EvalSumShare : string;
  EvalSumShareA : string;
  EvalSumShareB : string
}.

(** The fields of the client's [Response] and two more. *)
Record response := mkServerResponse {
  r : Response;
  rEvalSumShareA : string;
  rEvalSumShareB : string
}.

Definition no_response : Response := mkResponse "" "" None "" "" [] [] "" "" "" "" "" "" "" "" [] "".

#[export] Instance Response_eta : Eta Response := fun r =>
  mkResponse (rPublicKey r) (rSecretKeyShare r) (rLead r) (rCiphertext r) (rPartial r) (rValues r) (rIntValues r)
    (rEvalMultBase r) (rEvalSumBase r) (rEvalMultShare r) (rEvalSumShare r) (rEvalMultJoined r)
    (rEvalMultFinalShare r) (rEvalSumFinal r) (rEvalMultFinal r) (rCiphertexts r) (rVersion r).

Definition reply (r : Response) : response := mkServerResponse r "" "".

(** ** Decoding *)

(** [math.Ldexp(1, n)]. *)
Definition ldexp1 (n : Z) : float64 := binary_normalize 53 1024 1 n false.

Definition toContractParams (p : ContractParams) : openfheParams :=
  let scalingFactor :=
    if f64_eq (ScalingFactor p) f64_zero && (0 <? ScalingModSize p) then ldexp1 (ScalingModSize p) else ScalingFactor p in
  mkOpenFHE (RingDim p) scalingFactor (Depth p).

Definition toBFVContractParams (p : BFVContractParams) : BFVContractParams :=
  mkBFVParams (BFVRingDim p) (MultiplicativeDepth p) (PlaintextModulus p) (BatchSize p).

(** [%q] of a string: quotes, escapes, and every other printable character as
    it is (those outside ASCII taken as printable). *)
Definition quote_char (c : Ascii.ascii) : string :=
  let code := Ascii.nat_of_ascii c in
  let escaped (d : string) := String (Ascii.ascii_of_nat 92) d in
  if bool_decide (code = 34 \/ code = 92)%nat then escaped (String c "")
  else if (code =? 7)%nat then escaped "a" else if (code =? 8)%nat then escaped "b"
  else if (code =? 9)%nat then escaped "t" else if (code =? 10)%nat then escaped "n"
  else if (code =? 11)%nat then escaped "v" else if (code =? 12)%nat then escaped "f"
  else if (code =? 13)%nat then escaped "r"
  else if (code <? 32)%nat || (code =? 127)%nat then escaped ("x" +:+ hex_encode [Ascii.byte_of_ascii c])
  else String c "".

Fixpoint quote_chars (s : string) : string :=
  match s with EmptyString => "" | String c s' => quote_char c +:+ quote_chars s' end.

Definition Quote (s : string) : string :=
  let mark := String (Ascii.ascii_of_nat 34) "" in mark +:+ quote_chars s +:+ mark.

Definition s_decodeB64 (field value : string) : string + bytes :=
  if String.eqb value "" then inl (field +:+ " is required")
  else match b64_decode value with
  | None => inl (field +:+ " must be base64: " +:+ CorruptInputError value)
  | Some out => inr out
  end.

(** The slice decoders, with the index in the field's name. *)
Fixpoint decode_from (field : string) (i : nat) (values : list string) : string + list bytes :=
  match values with
  | [] => inr []
  | v :: values' =>
      match s_decodeB64 (field +:+ "[" +:+ pretty i +:+ "]") v with
      | inl e => inl e
      | inr raw => match decode_from field (S i) values' with inl e => inl e | inr out => inr (raw :: out) end
      end
  end.

Definition decodeB64Slice (field : string) (values : list string) : string + list bytes := decode_from field 0 values.

Definition keyShareResponse (share : KeyShare) : response :=
  reply (no_response <| rPublicKey := encodeB64 (ks_PublicKey share) |>
                     <| rSecretKeyShare := encodeB64 (ks_SecretKeyShare share) |> <| rLead := Some (ks_Lead share) |>).

(** The replies of the operations. *)
Definition ciphertext_of (ct : bytes) : response := reply (no_response <| rCiphertext := encodeB64 ct |>).
Definition base_of (x : bytes * bytes) : response :=
  reply (no_response <| rEvalMultBase := encodeB64 x.1 |> <| rEvalSumBase := encodeB64 x.2 |>).
Definition share_of (x : bytes * bytes) : response :=
  reply (no_response <| rEvalMultShare := encodeB64 x.1 |> <| rEvalSumShare := encodeB64 x.2 |>).
Definition joined_of (x : bytes * bytes) : response :=
  reply (no_response <| rEvalMultJoined := encodeB64 x.1 |> <| rEvalSumFinal := encodeB64 x.2 |>).
Definition final_of (x : EvalKeyFinal) : response :=
  reply (no_response <| rEvalMultFinal := encodeB64 (EvalMultFinal x) |> <| rEvalSumFinal := encodeB64 (EvalSumFinal x) |>).
Definition round2_of (x : bytes) : response := reply (no_response <| rEvalMultFinalShare := encodeB64 x |>).
Definition partial_of (x : bytes) : response := reply (no_response <| rPartial := encodeB64 x |>).
Definition masks_of (masks : list bytes) : response := reply (no_response <| rCiphertexts := encodeB64 <$> masks |>).

(** ** Dispatch *)

Section server.
Context {W : Type} `{Bridge W}.

Definition bbind {A C} (m : B W A) (f : A -> B W C) : B W C := fun w =>
  match m w with
  | (w', inr a) => f a w'
  | (w', inl e) => (w', inl e)
  end.
Definition bret {A} (a : A) : B W A := fun w => (w, inr a).
Definition bfail {A} (e : string) : B W A := fun w => (w, inl e).
Definition bof {A} (x : string + A) : B W A := fun w => (w, x).

Notation "'let$' x ':=' p 'in' k" := (bbind p (fun x => k)) (at level 200, x pattern, p at level 100, k at level 200).
Notation "'arg!' x ':=' f 'of' v 'in' k" := (bbind (bof (s_decodeB64 f v)) (fun x => k))
  (at level 200, x name, f at level 9, v at level 9, k at level 200).
Notation "'args!' x ':=' f 'of' v 'in' k" := (bbind (bof (decodeB64Slice f v)) (fun x => k))
  (at level 200, x name, f at level 9, v at level 9, k at level 200).

Definition runEvalBinary (req : Request) (params : openfheParams)
    (fn : openfheParams -> bytes -> bytes -> B W bytes) : B W response :=
  arg! ctA := "ciphertext_a" of (CiphertextA req) in
  arg! ctB := "ciphertext_b" of (CiphertextB req) in
  let$ out := fn params ctA ctB in bret (ciphertext_of out).

(** The arguments of the first participant round, for either scheme. *)
Definition participant_args (req : Request) (f : bytes -> bytes -> bytes -> bytes -> B W (bytes * bytes)) : B W response :=
  arg! sk := "secret_key_share" of (SecretKeyShare req) in
  arg! multBase := "eval_mult_base" of (EvalMultBase req) in
  arg! sumBase := "eval_sum_base" of (EvalSumBase req) in
  arg! ownPK := "own_public_key" of (OwnPublicKey req) in
  let$ x := f sk multBase sumBase ownPK in bret (share_of x).

Definition round2_args (req : Request) (f : bytes -> bytes -> bytes -> bool -> B W bytes) : B W response :=
  arg! sk := "secret_key_share" of (SecretKeyShare req) in
  arg! joined := "eval_mult_joined" of (EvalMultJoined req) in
  arg! finalPK := "final_public_key" of (FinalPublicKey req) in
  let$ x := f sk joined finalPK (Lead req) in bret (round2_of x).

Definition partial_args (req : Request) (f : bytes -> bytes -> bool -> B W bytes) : B W response :=
  arg! ct := "ciphertext" of (Ciphertext req) in
  arg! sk := "secret_key_share" of (SecretKeyShare req) in
  let$ x := f ct sk (Lead req) in bret (partial_of x).

Definition combine1_args (req : Request) (f : list bytes -> list bytes -> list bytes -> B W (bytes * bytes)) : B W response :=
  args! pks := "public_keys" of (PublicKeys req) in
  args! multShares := "eval_mult_round1_shares" of (EvalMultRound1Shares req) in
  args! sumShares := "eval_sum_round1_shares" of (EvalSumRound1Shares req) in
  let$ x := f pks multShares sumShares in bret (joined_of x).

Definition combine2_args (req : Request) (f : bytes -> list bytes -> bytes -> B W EvalKeyFinal) : B W response :=
  arg! finalPK := "final_public_key" of (FinalPublicKey req) in
  args! finalShares := "eval_mult_final_shares" of (EvalMultFinalShares req) in
  arg! sumFinal := "eval_sum_final_key" of (EvalSumFinalKey req) in
  let$ x := f finalPK finalShares sumFinal in bret (final_of x).

(** [run]: the operations in the order of the source's switch; first those on
    ciphertexts, which come last in it. *)
Definition run_ciphertexts (sreq : request) : B W response :=
  let req := q sreq in
  let params := toContractParams (Params req) in
  let bfv := toBFVContractParams (BFVParams req) in
  if String.eqb (Op req) "fuse_partials" then
    args! partials := "partials" of (Partials req) in
    let$ values := FuseCKKSPartialsForContract params partials (NSlots req) in
    bret (reply (no_response <| rValues := values |>))
  else if String.eqb (Op req) "bfv_fuse_partials_int" then
    args! partials := "partials" of (Partials req) in
    let$ values := FuseBFVPartialsForContract bfv partials (NSlots req) in
    bret (reply (no_response <| rIntValues := values |>))
  else if String.eqb (Op req) "bfv_eval_product_sum" then
    arg! evalMult := "eval_keys" of (EvalKeys req) in
    arg! evalSum := "eval_sum_final_key" of (EvalSumFinalKey req) in
    arg! ctA := "ciphertext_a" of (CiphertextA req) in
    arg! ctB := "ciphertext_b" of (CiphertextB req) in
    let$ out := EvalProductSumBFVForContract bfv (mkFinal evalMult evalSum) ctA ctB (NSlots req) in
    bret (ciphertext_of out)
  else if String.eqb (Op req) "eval_poly" then
    arg! evalKeys := "eval_keys" of (EvalKeys req) in
    arg! ct := "ciphertext" of (Ciphertext req) in
    if zlen (Coefficients req) =? 0 then bfail "eval_poly requires coefficients"
    else let$ out := EvalPolyCKKSForContract params evalKeys ct (Coefficients req) in bret (ciphertext_of out)
  else if String.eqb (Op req) "eval_add" then runEvalBinary req params EvalAddCKKSForContract
  else if String.eqb (Op req) "eval_sub" then runEvalBinary req params EvalSubCKKSForContract
  else if String.eqb (Op req) "eval_mult" then
    arg! ctA := "ciphertext_a" of (CiphertextA req) in
    arg! ctB := "ciphertext_b" of (CiphertextB req) in
    arg! evalKey := "eval_keys" of (EvalKeys req) in
    let$ out := EvalMultCKKSForContract params evalKey ctA ctB in bret (ciphertext_of out)
  else if String.eqb (Op req) "eval_const_mult" then
    arg! ct := "ciphertext" of (Ciphertext req) in
    let$ out := EvalConstMultCKKSForContract params ct (Scalar req) in bret (ciphertext_of out)
  else if String.eqb (Op req) "argmax" then
    arg! evalKey := "eval_keys" of (EvalKeys req) in
    if zlen (Ciphertexts req) <? 2 then bfail "argmax requires at least 2 ciphertexts"
    else
      args! cts := "ciphertexts" of (Ciphertexts req) in
      if zlen (Coefficients req) <? 2 then bfail "argmax requires sharpening coefficients (>= 2)"
      else
        let$ masks := EvalArgmaxCKKSForContract params evalKey cts (Coefficients req) in
        bret (masks_of masks)
  else bfail ("unsupported op " +:+ Quote (Op req)).

Definition run (sreq : request) : B W response :=
  let req := q sreq in
  let params := toContractParams (Params req) in
  let bfv := toBFVContractParams (BFVParams req) in
  if String.eqb (Op req) "version" then bret (reply (no_response <| rVersion := OpenFHEVersion |>))
  else if String.eqb (Op req) "keygen_first" then
    let$ share := DistributedKeyGenFirst params in bret (keyShareResponse share)
  else if String.eqb (Op req) "keygen_next" then
    arg! prev := "prev_public_key" of (PrevPublicKey req) in
    let$ share := DistributedKeyGenNext params prev in bret (keyShareResponse share)
  else if String.eqb (Op req) "bfv_keygen_first" then
    let$ share := BFVDistributedKeyGenFirst bfv in bret (keyShareResponse share)
  else if String.eqb (Op req) "bfv_keygen_next" then
    arg! prev := "prev_public_key" of (PrevPublicKey req) in
    let$ share := BFVDistributedKeyGenNext bfv prev in bret (keyShareResponse share)
  else if String.eqb (Op req) "encrypt_profile" then
    arg! joint := "joint_public_key" of (JointPublicKey req) in
    let$ ct := EncryptCKKSForContract params joint (Values req) in bret (ciphertext_of ct)
  else if String.eqb (Op req) "bfv_encrypt_int_vector" then
    arg! joint := "joint_public_key" of (JointPublicKey req) in
    let$ ct := EncryptBFVForContract bfv joint (IntValues req) in bret (ciphertext_of ct)
  else if String.eqb (Op req) "evalkey_round1_lead" then
    arg! sk := "secret_key_share" of (SecretKeyShare req) in
    let$ x := b_EvalKeyRound1Lead params sk in bret (base_of x)
  else if String.eqb (Op req) "bfv_evalkey_round1_lead" then
    arg! sk := "secret_key_share" of (SecretKeyShare req) in
    let$ x := b_BFVEvalKeyRound1Lead bfv sk in bret (base_of x)
  else if String.eqb (Op req) "evalkey_round1_participant" then
    participant_args req (b_EvalKeyRound1Participant params)
  else if String.eqb (Op req) "bfv_evalkey_round1_participant" then
    participant_args req (b_BFVEvalKeyRound1Participant bfv)
  else if String.eqb (Op req) "evalkey_round2_participant" then round2_args req (b_EvalKeyRound2Participant params)
  else if String.eqb (Op req) "bfv_evalkey_round2_participant" then round2_args req (b_BFVEvalKeyRound2Participant bfv)
  else if String.eqb (Op req) "partial_decrypt" then partial_args req (PartialDecryptCKKSForContract params)
  else if String.eqb (Op req) "bfv_partial_decrypt" then partial_args req (PartialDecryptBFVForContract bfv)
  else if String.eqb (Op req) "combine_evalkey_round1" then combine1_args req (b_CombineEvalKeyRound1 params)
  else if String.eqb (Op req) "bfv_combine_evalkey_round1" then combine1_args req (b_BFVCombineEvalKeyRound1 bfv)
  else if String.eqb (Op req) "combine_evalkey_round2" then combine2_args req (b_CombineEvalKeyRound2 params)
  else if String.eqb (Op req) "bfv_combine_evalkey_round2" then combine2_args req (b_BFVCombineEvalKeyRound2 bfv)
  else if String.eqb (Op req) "split_rot_share" then
    arg! full := "eval_sum_share" of (EvalSumShare sreq) in
    let$ ab := SplitRotShareAB params full in
    bret (mkServerResponse no_response (encodeB64 ab.1) (encodeB64 ab.2))
  else if String.eqb (Op req) "reconstruct_rot_share" then
    arg! a := "eval_sum_share_a" of (EvalSumShareA sreq) in
    arg! b := "eval_sum_share_b" of (EvalSumShareB sreq) in
    let$ full := ReconstructRotShareAB params a b in
    bret (reply (no_response <| rEvalSumShare := encodeB64 full |>))
  else run_ciphertexts sreq.

(** ** The daemon *)

(** What JSON carries over: every field of the request by its name; of a
    response, the fields the client knows. *)
Definition transmit (req : Request) : request := mkServerRequest req "" "" "".

(** One turn of [runDaemon]'s loop.  A response that JSON cannot express ends
    the process, which then answers nothing. *)
Definition daemon_turn (req : request) (w : W) : option W * option envelope :=
  match run req w with
  | (w', inl e) => (Some w', Some (mkEnvelope None e))
  | (w', inr res) =>
      if forallb finite (rValues (r res)) then (Some w', Some (mkEnvelope (Some (r res)) ""))
      else (None, None)
  end.

#[export] Instance daemon : Transport (option W) := fun req p =>
  match p with
  | None => (None, None)
  | Some w => daemon_turn (transmit req) w
  end.
End server.

(** ** Transparency *)

Section transparency.
Context {W : Type} `{Bridge W}.

(** A library operation on the state of a running helper, its failure as the
    client reports it. *)
Definition direct {A} (op : string) (f : B W A) : H (option W) A := fun c =>
  match proc c with
  | None => (c, inl (HDecode op))
  | Some w =>
      match f w with
      | (w', inr a) => (mkClient (Some w') (done c), inr a)
      | (w', inl e) => (mkClient (Some w') (done c), inl (if String.eqb e "" then HEmpty op else HelperError op e))
      end
  end.

Definition live (c : Client (option W)) : Prop := done c = false /\ is_Some (proc c).

(** [m] and [m'] do the same on a live client, leave it live, and a result
    satisfies [P]. *)
Definition same {A} (P : A -> Prop) (m m' : H (option W) A) : Prop := forall c, live c ->
  m c = m' c /\ live (m' c).1 /\ match (m' c).2 with inr a => P a | inl _ => True end.

Lemma same_bind {A C} (P : A -> Prop) (Q : C -> Prop) m m' f f' :
  same P m m' -> (forall a, P a -> same Q (f a) (f' a)) -> same Q (hbind m f) (hbind m' f').
Proof.
  intros Hm Hf c Hc. destruct (Hm c Hc) as (He & Hl & Hp). unfold hbind. rewrite He.
  destruct (m' c) as [c' [e|a]]; cbn in *; [done|]. by apply Hf.
Qed.

Lemma same_wrap {A} (P : A -> Prop) text m m' : same P m m' -> same P (hwrap text m) (hwrap text m').
Proof.
  intros Hm c Hc. destruct (Hm c Hc) as (He & Hl & Hp). unfold hwrap. rewrite He.
  by destruct (m' c) as [c' [e|a]].
Qed.

Lemma same_ret {A} (P : A -> Prop) a : P a -> same P (hret a) (hret a).
Proof. by intros Hp c Hc. Qed.

Lemma same_fail {A} (P : A -> Prop) e : same P (hfail e) (hfail e).
Proof. by intros c Hc. Qed.

Lemma decodeB64_encode raw : decodeB64 (encodeB64 raw) = Some raw.
Proof.
  unfold decodeB64. rewrite encodeB64_empty. case_bool_decide; [by subst|apply b64_decode_encode].
Qed.

Lemma s_decodeB64_encode field raw : raw <> [] -> s_decodeB64 field (encodeB64 raw) = inr raw.
Proof.
  intros Hr. unfold s_decodeB64. rewrite encodeB64_empty, bool_decide_false by done. by rewrite b64_decode_encode.
Qed.

Definition filled (l : list bytes) : Prop := Forall (fun b => b <> []) l.

Lemma decode_from_encode field i l : filled l -> decode_from field i (encodeB64 <$> l) = inr l.
Proof.
  intros Hl. revert i. induction Hl as [|b l Hb _ IH]; intros i; cbn; [done|]. by rewrite s_decodeB64_encode, IH.
Qed.

(** One request: the response of [run], or its error, reaches the client. *)
Lemma call_run req c w :
  done c = false -> proc c = Some w -> encodable req = true ->
  call req c =
  match run (transmit req) w with
  | (w', inl e) => (mkClient (Some w') false, inl (if String.eqb e "" then HEmpty (Op req) else HelperError (Op req) e))
  | (w', inr res) =>
      if forallb finite (rValues (r res)) then (mkClient (Some w') false, inr (r res))
      else (mkClient None false, inl (HDecode (Op req)))
  end.
Proof.
  intros Hd Hp He. unfold call. rewrite Hd, He, Hp. cbn [negb]. unfold exchange, daemon, daemon_turn.
  destruct (run (transmit req) w) as [w' [e|res]]; cbn.
  - by destruct (String.eqb e "").
  - by destruct (forallb finite (rValues (r res))).
Qed.

Definition yields {A} (P : A -> Prop) (f : B W A) : Prop :=
  forall w, match (f w).2 with inr a => P a | inl _ => True end.

Definition bmap {A C} (g : A -> C) (f : B W A) : B W C := bbind f (fun a => bret (g a)).

(** An operation whose dispatch is [f] followed by a reply that decodes to [g]
    of [f]'s result. *)
Lemma rpc_map {A C} (P : C -> Prop) op req (f : B W A) (g : A -> C) (mk : A -> response) (dec : Response -> option C) :
  Op req = op -> encodable req = true ->
  run (transmit req) = bbind f (fun a => bret (mk a)) ->
  (forall a, dec (r (mk a)) = Some (g a)) -> (forall a, rValues (r (mk a)) = []) -> yields (fun a => P (g a)) f ->
  same P (hbind (call req) (fun resp => hlift (dec resp))) (direct op (bmap g f)).
Proof.
  intros <- He Hr Hd Hv HP c [Hdone [w Hw]]. unfold hbind, direct. rewrite (call_run req c w Hdone Hw He), Hw, Hdone, Hr.
  specialize (HP w). unfold bmap, bbind, bret in *. destruct (f w) as [w' [e|a]]; cbn in *.
  - split_and!; [done| |done]. split; cbn; eauto.
  - rewrite Hv. cbn. rewrite Hd. cbn. split_and!; [done| |done]. split; cbn; eauto.
Qed.

Lemma rpc {A} (P : A -> Prop) op req (f : B W A) (mk : A -> response) (dec : Response -> option A) :
  Op req = op -> encodable req = true ->
  run (transmit req) = bbind f (fun a => bret (mk a)) ->
  (forall a, dec (r (mk a)) = Some a) -> (forall a, rValues (r (mk a)) = []) -> yields P f ->
  same P (hbind (call req) (fun resp => hlift (dec resp))) (direct op f).
Proof.
  intros Ho He Hr Hd Hv HP c Hc. destruct (rpc_map P op req f id mk dec Ho He Hr Hd Hv HP c Hc) as (H1 & H2 & H3).
  assert (Hi : direct op (bmap id f) c = direct op f c).
  { unfold direct, bmap, bbind, bret. destruct (proc c) as [w|]; [|done]. by destruct (f w) as [w' []]. }
  by rewrite Hi in H1, H2, H3.
Qed.

Lemma yields_any {A} (f : B W A) : yields (fun _ => True) f.
Proof. intros w. by destruct (f w) as [w' []]. Qed.

(** Serialized objects are never empty. *)
Definition share_ok (s : KeyShare) : Prop := ks_PublicKey s <> [] /\ ks_SecretKeyShare s <> [].
Definition pair_ok (x : bytes * bytes) : Prop := x.1 <> [] /\ x.2 <> [].

Definition bytes_ok (b : bytes) : Prop := b <> [].

Class BridgeLaws : Prop := {
  first_ok : forall p, yields share_ok (DistributedKeyGenFirst p);
  next_ok : forall p k, yields share_ok (DistributedKeyGenNext p k);
  lead_ok : forall p k, yields pair_ok (b_EvalKeyRound1Lead p k);
  participant_ok : forall p a b c d, yields pair_ok (b_EvalKeyRound1Participant p a b c d);
  combine1_ok : forall p a b c, yields pair_ok (b_CombineEvalKeyRound1 p a b c);
  round2_ok : forall p a b c l, yields bytes_ok (b_EvalKeyRound2Participant p a b c l);
  bfv_first_ok : forall p, yields share_ok (BFVDistributedKeyGenFirst p);
  bfv_next_ok : forall p k, yields share_ok (BFVDistributedKeyGenNext p k);
  bfv_lead_ok : forall p k, yields pair_ok (b_BFVEvalKeyRound1Lead p k);
  bfv_participant_ok : forall p a b c d, yields pair_ok (b_BFVEvalKeyRound1Participant p a b c d);
  bfv_combine1_ok : forall p a b c, yields pair_ok (b_BFVCombineEvalKeyRound1 p a b c);
  bfv_round2_ok : forall p a b c l, yields bytes_ok (b_BFVEvalKeyRound2Participant p a b c l)
}.

(** Evaluate the dispatch of a concrete operation on encoded arguments. *)
Ltac dispatch :=
  unfold run, run_ciphertexts, participant_args, round2_args, partial_args, combine1_args, combine2_args, runEvalBinary, decodeB64Slice;
  cbn -[s_decodeB64 decode_from encodeB64 b64_decode toContractParams toBFVContractParams bbind];
  rewrite ?s_decodeB64_encode, ?decode_from_encode by done;
  reflexivity.

Ltac decodes := intros []; cbn -[decodeB64 encodeB64]; unfold decodeKeyShare, decode_pair; cbn -[decodeB64 encodeB64];
  rewrite ?decodeB64_encode; reflexivity.

(** One [same] goal for an operation: its request, how its reply is built and
    decoded, and what the library promises. *)
Ltac rpc_of mk dec law :=
  eapply (rpc _ _ _ _ mk dec);
  [ reflexivity | unfold encodable; cbn; rewrite ?andb_true_r; auto | dispatch | decodes | done | apply law ].

(** *** Chains *)

(** Two chains whose calls agree on non-empty arguments. *)
Record chain_same (o o' : chain_ops (option W)) : Prop := {
  cs_label : ch_label o = ch_label o';
  cs_prefix : ch_prefix o = ch_prefix o';
  cs_first : same share_ok (ch_first o) (ch_first o');
  cs_next : forall pk, pk <> [] -> same share_ok (ch_next o pk) (ch_next o' pk);
  cs_lead : forall sk, sk <> [] -> same pair_ok (ch_lead o sk) (ch_lead o' sk);
  cs_participant : forall sk m s pk, sk <> [] -> m <> [] -> s <> [] -> pk <> [] ->
    same pair_ok (ch_participant o sk m s pk) (ch_participant o' sk m s pk);
  cs_combine1 : forall a b c, filled a -> filled b -> filled c -> same pair_ok (ch_combine1 o a b c) (ch_combine1 o' a b c);
  cs_round2 : forall sk j pk l, sk <> [] -> j <> [] -> pk <> [] -> same bytes_ok (ch_round2 o sk j pk l) (ch_round2 o' sk j pk l);
  cs_combine2 : forall pk l s, pk <> [] -> filled l -> s <> [] ->
    same (fun _ => True) (ch_combine2 o pk l s) (ch_combine2 o' pk l s)
}.

Section chains.
Context (o o' : chain_ops (option W)).
Hypothesis Ho : chain_same o o'.

Lemma at_slot_same slot op : at_slot o slot op = at_slot o' slot op.
Proof. unfold at_slot. by rewrite (cs_label _ _ Ho), (cs_prefix _ _ Ho). Qed.

Lemma at_step_same op : at_step o op = at_step o' op.
Proof. unfold at_step. by rewrite (cs_label _ _ Ho), (cs_prefix _ _ Ho). Qed.

Lemma next_keys_same slot k prev :
  share_ok prev -> same (Forall share_ok) (next_keys o slot k prev) (next_keys o' slot k prev).
Proof.
  revert slot prev. induction k as [|k IH]; intros slot prev Hp; cbn [next_keys]; [by apply same_ret|].
  rewrite at_slot_same. eapply same_bind; [apply same_wrap, (cs_next _ _ Ho), Hp|]. intros next Hn.
  eapply same_bind; [by apply IH|]. intros rest Hr. apply same_ret. by constructor.
Qed.

Lemma round1_same slot base shares :
  pair_ok base -> Forall share_ok shares ->
  same (Forall pair_ok) (round1_shares o slot base shares) (round1_shares o' slot base shares).
Proof.
  intros Hb Hs. revert slot. induction Hs as [|s shares [Hpk Hsk] _ IH]; intros slot; cbn [round1_shares]; [by apply same_ret|].
  rewrite at_slot_same. eapply same_bind; [apply same_wrap, (cs_participant _ _ Ho); (done || apply Hb)|]. intros ps Hps.
  eapply same_bind; [apply IH|]. intros rest Hr. apply same_ret. by constructor.
Qed.

Lemma round2_same slot joined pk shares :
  joined <> [] -> pk <> [] -> Forall share_ok shares ->
  same filled (round2_shares o slot joined pk shares) (round2_shares o' slot joined pk shares).
Proof.
  intros Hj Hk Hs. revert slot. induction Hs as [|s shares [Hpk Hsk] _ IH]; intros slot; cbn [round2_shares];
    [apply same_ret; constructor|].
  rewrite at_slot_same. eapply same_bind; [by apply same_wrap, (cs_round2 _ _ Ho)|]. intros final Hf.
  eapply same_bind; [apply IH|]. intros rest Hr. apply same_ret. by constructor.
Qed.

Lemma last_ok first others : share_ok first -> Forall share_ok others -> share_ok (List.last others first).
Proof. intros Hf Ho'. induction Ho' as [|s l Hs Hl IH]; [done|]. destruct l; [done|exact IH]. Qed.

Lemma filled_pks shares : Forall share_ok shares -> filled (ks_PublicKey <$> shares).
Proof. intros Hs. apply Forall_fmap. eapply Forall_impl; [exact Hs|]. by intros s []. Qed.

Lemma filled_pairs ps : Forall pair_ok ps -> filled ps.*1 /\ filled ps.*2.
Proof. intros Hs. split; apply Forall_fmap; (eapply Forall_impl; [exact Hs|]); by intros s []. Qed.

Lemma chain_agrees n : same (fun _ => True) (chain o n) (chain o' n).
Proof.
  unfold chain. rewrite (cs_label _ _ Ho). destruct (n <? 2); [apply same_fail|].
  rewrite at_slot_same, !at_step_same.
  eapply same_bind; [apply same_wrap, (cs_first _ _ Ho)|]. intros first Hf.
  eapply same_bind; [by apply next_keys_same|]. intros others Hoth.
  pose proof (last_ok first others Hf Hoth) as [Hlast _].
  eapply same_bind; [apply same_wrap, (cs_lead _ _ Ho), Hf|]. intros base Hb.
  eapply same_bind; [by apply round1_same|]. intros ps Hps. destruct (filled_pairs ps Hps) as [Hp1 Hp2].
  eapply same_bind.
  { apply same_wrap, (cs_combine1 _ _ Ho); [apply (filled_pks (first :: others)); by constructor|..];
      (constructor; [apply Hb|done]). }
  intros combined [Hj Hsum]. eapply same_bind; [apply round2_same; try done; by constructor|]. intros r2 Hr2.
  eapply same_bind; [by apply same_wrap, (cs_combine2 _ _ Ho)|]. intros ek _. by apply same_ret.
Qed.
End chains.

(** *** What a chain that succeeds has called *)

(** The call [m] has answered [x]. *)
Definition answered {V A} (m : H V A) (x : A) : Prop := exists c c', m c = (c', inr x).

(** The bundle of a protocol among [n] parties: the first key stands alone,
    every later one extends the key before it, the lead opens the first round
    and the others answer its base, all slots join the second round under the
    last public key, slot 0 as the lead. *)
Record linked {V} (o : chain_ops V) (n : Z) (b : EvalKeyBundle) : Prop := mkLinked {
  ln_count : zlen (eb_KeyShares b) = n;
  ln_first : exists s, eb_KeyShares b !! 0%nat = Some s /\ answered (ch_first o) s;
  ln_next : forall i s s', eb_KeyShares b !! i = Some s -> eb_KeyShares b !! S i = Some s' -> answered (ch_next o (ks_PublicKey s)) s';
  ln_rounds : exists first others base ps joined r2,
    eb_KeyShares b = first :: others /\ List.last (ks_PublicKey <$> eb_KeyShares b) [] = eb_PublicKey b /\
    answered (ch_lead o (ks_SecretKeyShare first)) base /\
    Forall2 (fun s p => answered (ch_participant o (ks_SecretKeyShare s) base.1 base.2 (ks_PublicKey s)) p) others ps /\
    answered (ch_combine1 o (ks_PublicKey <$> eb_KeyShares b) (base.1 :: ps.*1) (base.2 :: ps.*2)) (joined, eb_EvalSumKeys b) /\
    length r2 = length (eb_KeyShares b) /\
    (forall i s r, eb_KeyShares b !! i = Some s -> r2 !! i = Some r ->
       answered (ch_round2 o (ks_SecretKeyShare s) joined (eb_PublicKey b) (i =? 0)%nat) r) /\
    answered (ch_combine2 o (eb_PublicKey b) r2 (eb_EvalSumKeys b)) (eb_EvalKeys b)
}.

Lemma bind_answers {V A B} (m : H V A) (f : A -> H V B) x : answered (hbind m f) x -> exists a, answered m a /\ answered (f a) x.
Proof.
  intros (c & c' & Hc). unfold hbind in Hc. destruct (m c) as [c1 [e|a]] eqn:Hm; [done|]. exists a. split; by eexists _, _.
Qed.

Lemma wrap_answers {V A} text (m : H V A) x : answered (hwrap text m) x -> answered m x.
Proof.
  intros (c & c' & Hc). unfold hwrap in Hc. destruct (m c) as [c1 [e|a]] eqn:Hm; [done|]. injection Hc as <- <-. by eexists _, _.
Qed.

Lemma ret_answers {V A} (a x : A) : answered (hret (W := V) a) x -> x = a.
Proof. intros (c & c' & Hc). by injection Hc. Qed.

Ltac answers H a Ha :=
  apply bind_answers in H as (a & Ha & H); try apply wrap_answers in Ha.

Section answers.
Context {V : Type} (o : chain_ops V).

Lemma next_keys_linked slot k prev l :
  answered (next_keys o slot k prev) l ->
  length l = k /\ forall i s s', (prev :: l) !! i = Some s -> l !! i = Some s' -> answered (ch_next o (ks_PublicKey s)) s'.
Proof.
  revert slot prev l. induction k as [|k IH]; intros slot prev l Hl; cbn [next_keys] in Hl.
  - apply ret_answers in Hl as ->. split; [done|]. by intros [] s s'.
  - answers Hl next Hnext. answers Hl rest Hrest. apply ret_answers in Hl as ->.
    apply IH in Hrest as [Hlen Hrest]. split; [cbn; by rewrite Hlen|]. intros [|i] s s' Hs Hs'; [by simplify_eq/=|by eapply Hrest].
Qed.

Lemma round1_linked slot base l ps :
  answered (round1_shares o slot base l) ps ->
  Forall2 (fun s p => answered (ch_participant o (ks_SecretKeyShare s) base.1 base.2 (ks_PublicKey s)) p) l ps.
Proof.
  revert slot ps. induction l as [|s l IH]; intros slot ps Hl; cbn [round1_shares] in Hl.
  - by apply ret_answers in Hl as ->.
  - answers Hl p Hp. answers Hl rest Hrest. apply ret_answers in Hl as ->. constructor; [done|by eapply IH].
Qed.

Lemma round2_linked slot joined pk l r2 :
  answered (round2_shares o slot joined pk l) r2 ->
  length r2 = length l /\
  forall i s r, l !! i = Some s -> r2 !! i = Some r -> answered (ch_round2 o (ks_SecretKeyShare s) joined pk (slot + i =? 0)%nat) r.
Proof.
  revert slot r2. induction l as [|s l IH]; intros slot r2 Hl; cbn [round2_shares] in Hl.
  - by apply ret_answers in Hl as ->.
  - answers Hl own Hown. answers Hl rest Hrest. apply ret_answers in Hl as ->.
    apply IH in Hrest as [Hlen Hrest]. split; [cbn; by rewrite Hlen|]. intros [|i] s' r' Hs Hs'.
    + simplify_eq/=. by rewrite Nat.add_0_r.
    + rewrite Nat.add_succ_r. by apply Hrest.
Qed.

Lemma last_key first others :
  List.last (ks_PublicKey <$> first :: others) [] = ks_PublicKey (List.last others first).
Proof.
  revert first. induction others as [|s l IH]; intros first; [done|]. rewrite fmap_cons.
  change (List.last (ks_PublicKey <$> s :: l) [] = ks_PublicKey (List.last (s :: l) first)). rewrite IH.
  destruct l; [done|]. f_equal. clear. revert k first s. induction l as [|x l IH]; intros; [done|]. apply (IH x).
Qed.

Lemma chain_linked n b : answered (chain o n) b -> linked o n b.
Proof.
  unfold chain. destruct (Z.ltb_spec n 2) as [_|Hn]; [by intros (c & c' & [=])|]. intros Hb.
  answers Hb share0 Hfirst. answers Hb others Hothers. answers Hb base Hbase. answers Hb ps Hps.
  answers Hb combined Hcombined. answers Hb r2 Hr2. answers Hb ek Hek. apply ret_answers in Hb as ->.
  apply next_keys_linked in Hothers as [Hlen Hnext]. apply round1_linked in Hps. apply round2_linked in Hr2 as [Hlen2 Hr2].
  split; cbn [eb_KeyShares eb_PublicKey eb_EvalSumKeys eb_EvalKeys].
  - unfold zlen. cbn [length]. lia.
  - by exists share0.
  - intros i s s' Hs Hs'. by eapply Hnext.
  - exists share0, others, base, ps, combined.1, r2. rewrite last_key. destruct combined. by split_and!.
Qed.
End answers.

(** The chains on the library itself. *)
Definition direct_ckks (params : ContractParams) : chain_ops (option W) :=
  let p := toContractParams params in
  mkChain "KeygenChain" "" (direct "keygen_first" (DistributedKeyGenFirst p))
    (fun pk => direct "keygen_next" (DistributedKeyGenNext p pk))
    (fun sk => direct "evalkey_round1_lead" (b_EvalKeyRound1Lead p sk))
    (fun sk m s pk => direct "evalkey_round1_participant" (b_EvalKeyRound1Participant p sk m s pk))
    (fun a b c => direct "combine_evalkey_round1" (b_CombineEvalKeyRound1 p a b c))
    (fun sk j pk l => direct "evalkey_round2_participant" (b_EvalKeyRound2Participant p sk j pk l))
    (fun pk l s => direct "combine_evalkey_round2" (bmap EvalMultFinal (b_CombineEvalKeyRound2 p pk l s))).

Definition direct_bfv (params : BFVContractParams) : chain_ops (option W) :=
  let p := toBFVContractParams params in
  mkChain "BFVKeygenChain" "bfv_" (direct "bfv_keygen_first" (BFVDistributedKeyGenFirst p))
    (fun pk => direct "bfv_keygen_next" (BFVDistributedKeyGenNext p pk))
    (fun sk => direct "bfv_evalkey_round1_lead" (b_BFVEvalKeyRound1Lead p sk))
    (fun sk m s pk => direct "bfv_evalkey_round1_participant" (b_BFVEvalKeyRound1Participant p sk m s pk))
    (fun a b c => direct "bfv_combine_evalkey_round1" (b_BFVCombineEvalKeyRound1 p a b c))
    (fun sk j pk l => direct "bfv_evalkey_round2_participant" (b_BFVEvalKeyRound2Participant p sk j pk l))
    (fun pk l s => direct "bfv_combine_evalkey_round2" (bmap EvalMultFinal (b_BFVCombineEvalKeyRound2 p pk l s))).

Section laws.
Context {HLaws : BridgeLaws}.

Ltac rpc_map_of mk dec :=
  eapply (rpc_map _ _ _ _ _ mk dec);
  [ reflexivity | unfold encodable; cbn; rewrite ?andb_true_r; auto | dispatch | decodes | done | apply yields_any ].

Lemma ckks_chain_same params :
  finite (ScalingFactor params) = true -> chain_same (ckks_chain params) (direct_ckks params).
Proof.
  intros Hfin. split; try done; cbn [ckks_chain direct_ckks ch_first ch_next ch_lead ch_participant ch_combine1 ch_round2 ch_combine2]; intros.
  - rpc_of keyShareResponse decodeKeyShare first_ok.
  - rpc_of keyShareResponse decodeKeyShare next_ok.
  - rpc_of base_of (fun resp => decode_pair (rEvalMultBase resp) (rEvalSumBase resp)) lead_ok.
  - rpc_of share_of (fun resp => decode_pair (rEvalMultShare resp) (rEvalSumShare resp)) participant_ok.
  - rpc_of joined_of (fun resp => decode_pair (rEvalMultJoined resp) (rEvalSumFinal resp)) combine1_ok.
  - rpc_of round2_of (fun resp => decodeB64 (rEvalMultFinalShare resp)) round2_ok.
  - rpc_map_of final_of (fun resp => decodeB64 (rEvalMultFinal resp)).
Qed.

Lemma bfv_chain_same params : chain_same (bfv_chain params) (direct_bfv params).
Proof.
  split; try done; cbn [bfv_chain direct_bfv ch_first ch_next ch_lead ch_participant ch_combine1 ch_round2 ch_combine2]; intros.
  - rpc_of keyShareResponse decodeKeyShare bfv_first_ok.
  - rpc_of keyShareResponse decodeKeyShare bfv_next_ok.
  - rpc_of base_of (fun resp => decode_pair (rEvalMultBase resp) (rEvalSumBase resp)) bfv_lead_ok.
  - rpc_of share_of (fun resp => decode_pair (rEvalMultShare resp) (rEvalSumShare resp)) bfv_participant_ok.
  - rpc_of joined_of (fun resp => decode_pair (rEvalMultJoined resp) (rEvalSumFinal resp)) bfv_combine1_ok.
  - rpc_of round2_of (fun resp => decodeB64 (rEvalMultFinalShare resp)) bfv_round2_ok.
  - rpc_map_of final_of (fun resp => decodeB64 (rEvalMultFinal resp)).
Qed.

(** Chained key generation through the helper is the library's chain.  On a
    running helper, [KeygenChain] and [BFVKeygenChain] return what the same
    chain of library calls returns, errors included, for every number of
    parties, with the library left in the same state; and a bundle they return
    is the result of the protocol among [n] parties: the key of slot [i] is
    the library's answer to the public key of slot [i-1], the evaluation-key
    rounds combine the answers of all slots in order under the last public key,
    and only slot 0 is the lead. *)
Lemma keygen_chain_transparent params bfv n c :
  live c -> finite (ScalingFactor params) = true ->
  KeygenChain params n c = chain (direct_ckks params) n c /\
  BFVKeygenChain bfv n c = chain (direct_bfv bfv) n c /\
  (forall c' b, KeygenChain params n c = (c', inr b) -> linked (direct_ckks params) n b) /\
  (forall c' b, BFVKeygenChain bfv n c = (c', inr b) -> linked (direct_bfv bfv) n b).
Proof.
  intros Hc Hf.
  assert (Hckks : KeygenChain params n c = chain (direct_ckks params) n c)
    by by apply (chain_agrees _ _ (ckks_chain_same params Hf) n c Hc).
  assert (Hbfv : BFVKeygenChain bfv n c = chain (direct_bfv bfv) n c)
    by by apply (chain_agrees _ _ (bfv_chain_same bfv) n c Hc).
  rewrite Hckks, Hbfv. split_and!; [done..| |]; intros c' b Hb; apply chain_linked; by eexists _, _.
Qed.
End laws.

Ltac op_of mk dec :=
  eapply (rpc _ _ _ _ mk dec);
  [ reflexivity | unfold encodable; cbn; repeat (apply andb_true_intro; split); (done || auto)
  | dispatch | decodes | done | apply yields_any ].

Lemma mapM_decode_encode masks : mapM decodeB64 (encodeB64 <$> masks) = Some masks.
Proof.
  induction masks as [|m l IH]; [done|]. cbn [fmap list_fmap mapM]. by rewrite decodeB64_encode, IH.
Qed.

Lemma Argmax_same params keys cts poly :
  finite (ScalingFactor params) = true -> forallb finite (poly_Coefficients poly) = true ->
  finite (LowerBound poly) = true -> finite (UpperBound poly) = true ->
  keys <> [] -> filled cts -> 2 <= zlen cts -> 2 <= zlen (poly_Coefficients poly) ->
  same (fun _ => True) (Argmax params keys cts poly)
    (direct "argmax" (EvalArgmaxCKKSForContract (toContractParams params) keys cts (poly_Coefficients poly))).
Proof.
  intros Hf Hc Hl Hu Hk Hcts Hn Hp. eapply (rpc _ _ _ _ masks_of (fun resp => mapM decodeB64 (rCiphertexts resp))).
  - reflexivity.
  - unfold encodable. cbn. by rewrite Hf, Hc, Hl, Hu.
  - unfold run, run_ciphertexts, decodeB64Slice. cbn -[s_decodeB64 decode_from encodeB64 toContractParams bbind zlen Z.ltb].
    rewrite s_decodeB64_encode, decode_from_encode by done.
    replace (zlen (encodeB64 <$> cts) <? 2) with false by (unfold zlen in *; rewrite length_fmap; lia).
    replace (zlen (poly_Coefficients poly) <? 2) with false by lia. reflexivity.
  - intros masks. cbn -[mapM]. apply mapM_decode_encode.
  - done.
  - apply yields_any.
Qed.

(** The reply to [fuse_partials] carries the values as JSON numbers: with one
    that is not finite the helper exits and the client reads no reply. *)
Definition fused (f : B W (list float64)) : H (option W) (list float64) := fun c =>
  match direct "fuse_partials" f c with
  | (c', inr vs) => if forallb finite vs then (c', inr vs) else (mkClient None (done c), inl (HDecode "fuse_partials"))
  | failed => failed
  end.

(** Each CKKS operation of the client, on arguments that are not empty and
    numbers that are finite, is the library's operation. *)
Record CKKSTransparent (params : ContractParams) (c : Client (option W)) (p := toContractParams params) : Prop := {
  tr_first : KeygenFirst params c = direct "keygen_first" (DistributedKeyGenFirst p) c;
  tr_next : forall pk, pk <> [] -> KeygenNext params pk c = direct "keygen_next" (DistributedKeyGenNext p pk) c;
  tr_encrypt : forall pk vs, pk <> [] -> forallb finite vs = true ->
    EncryptProfile params pk vs c = direct "encrypt_profile" (EncryptCKKSForContract p pk vs) c;
  tr_lead : forall sk, sk <> [] ->
    EvalKeyRound1Lead params sk c = direct "evalkey_round1_lead" (b_EvalKeyRound1Lead p sk) c;
  tr_participant : forall sk m s pk, sk <> [] -> m <> [] -> s <> [] -> pk <> [] ->
    EvalKeyRound1Participant params sk m s pk c =
    direct "evalkey_round1_participant" (b_EvalKeyRound1Participant p sk m s pk) c;
  tr_combine1 : forall pks ms ss, filled pks -> filled ms -> filled ss ->
    CombineEvalKeyRound1 params pks ms ss c = direct "combine_evalkey_round1" (b_CombineEvalKeyRound1 p pks ms ss) c;
  tr_round2 : forall sk j pk lead, sk <> [] -> j <> [] -> pk <> [] ->
    EvalKeyRound2Participant params sk j pk lead c =
    direct "evalkey_round2_participant" (b_EvalKeyRound2Participant p sk j pk lead) c;
  tr_combine2 : forall pk shares s, pk <> [] -> filled shares -> s <> [] ->
    CombineEvalKeyRound2 params pk shares s c =
    direct "combine_evalkey_round2" (bmap EvalMultFinal (b_CombineEvalKeyRound2 p pk shares s)) c;
  tr_partial : forall ct sk lead, ct <> [] -> sk <> [] ->
    PartialDecrypt params ct sk lead c = direct "partial_decrypt" (PartialDecryptCKKSForContract p ct sk lead) c;
  tr_fuse : forall partials n, filled partials ->
    FusePartials params partials n c = fused (FuseCKKSPartialsForContract p partials n) c;
  tr_add : forall keys x y, x <> [] -> y <> [] ->
    EvalAdd params keys x y c = direct "eval_add" (EvalAddCKKSForContract p x y) c;
  tr_sub : forall keys x y, x <> [] -> y <> [] ->
    EvalSub params keys x y c = direct "eval_sub" (EvalSubCKKSForContract p x y) c;
  tr_mult : forall keys x y, keys <> [] -> x <> [] -> y <> [] ->
    EvalMult params keys x y c = direct "eval_mult" (EvalMultCKKSForContract p keys x y) c;
  tr_const : forall ct k, ct <> [] -> finite k = true ->
    EvalConstMult params ct k c = direct "eval_const_mult" (EvalConstMultCKKSForContract p ct k) c;
  tr_poly : forall keys ct poly, keys <> [] -> ct <> [] -> poly_Coefficients poly <> [] ->
    forallb finite (poly_Coefficients poly) = true -> finite (LowerBound poly) = true -> finite (UpperBound poly) = true ->
    EvalPoly params keys ct poly c = direct "eval_poly" (EvalPolyCKKSForContract p keys ct (poly_Coefficients poly)) c;
  tr_argmax : forall keys cts poly, keys <> [] -> filled cts -> 2 <= zlen cts -> 2 <= zlen (poly_Coefficients poly) ->
    forallb finite (poly_Coefficients poly) = true -> finite (LowerBound poly) = true -> finite (UpperBound poly) = true ->
    Argmax params keys cts poly c = direct "argmax" (EvalArgmaxCKKSForContract p keys cts (poly_Coefficients poly)) c
}.

Record BFVTransparent (bfv : BFVContractParams) (c : Client (option W)) (b := toBFVContractParams bfv) : Prop := {
  bt_first : BFVKeygenFirst bfv c = direct "bfv_keygen_first" (BFVDistributedKeyGenFirst b) c;
  bt_next : forall pk, pk <> [] -> BFVKeygenNext bfv pk c = direct "bfv_keygen_next" (BFVDistributedKeyGenNext b pk) c;
  bt_encrypt : forall pk vs, pk <> [] ->
    BFVEncryptIntVector bfv pk vs c = direct "bfv_encrypt_int_vector" (EncryptBFVForContract b pk vs) c;
  bt_lead : forall sk, sk <> [] ->
    BFVEvalKeyRound1Lead bfv sk c = direct "bfv_evalkey_round1_lead" (b_BFVEvalKeyRound1Lead b sk) c;
  bt_participant : forall sk m s pk, sk <> [] -> m <> [] -> s <> [] -> pk <> [] ->
    BFVEvalKeyRound1Participant bfv sk m s pk c =
    direct "bfv_evalkey_round1_participant" (b_BFVEvalKeyRound1Participant b sk m s pk) c;
  bt_combine1 : forall pks ms ss, filled pks -> filled ms -> filled ss ->
    BFVCombineEvalKeyRound1 bfv pks ms ss c =
    direct "bfv_combine_evalkey_round1" (b_BFVCombineEvalKeyRound1 b pks ms ss) c;
  bt_round2 : forall sk j pk lead, sk <> [] -> j <> [] -> pk <> [] ->
    BFVEvalKeyRound2Participant bfv sk j pk lead c =
    direct "bfv_evalkey_round2_participant" (b_BFVEvalKeyRound2Participant b sk j pk lead) c;
  bt_combine2 : forall pk shares s, pk <> [] -> filled shares -> s <> [] ->
    BFVCombineEvalKeyRound2 bfv pk shares s c =
    direct "bfv_combine_evalkey_round2" (bmap EvalMultFinal (b_BFVCombineEvalKeyRound2 b pk shares s)) c;
  bt_partial : forall ct sk lead, ct <> [] -> sk <> [] ->
    BFVPartialDecrypt bfv ct sk lead c = direct "bfv_partial_decrypt" (PartialDecryptBFVForContract b ct sk lead) c;
  bt_fuse : forall partials n, filled partials ->
    BFVFusePartials bfv partials n c = direct "bfv_fuse_partials_int" (FuseBFVPartialsForContract b partials n) c;
  bt_product : forall m s x y n, m <> [] -> s <> [] -> x <> [] -> y <> [] ->
    BFVEvalProductSum bfv m s x y n c =
    direct "bfv_eval_product_sum" (EvalProductSumBFVForContract b (mkFinal m s) x y n) c
}.

Lemma same_at {A} (m m' : H (option W) A) c : live c -> same (fun _ => True) m m' -> m c = m' c.
Proof. intros Hc Hm. by apply Hm. Qed.

(** The fused values are read off the reply as they stand. *)
Lemma FusePartials_fused params partials n c :
  live c -> finite (ScalingFactor params) = true -> filled partials ->
  FusePartials params partials n c = fused (FuseCKKSPartialsForContract (toContractParams params) partials n) c.
Proof.
  intros [Hd [w Hw]] Hf Hps. unfold FusePartials, fused, direct, hbind. rewrite (call_run _ c w Hd Hw) by (unfold encodable; cbn; by rewrite Hf).
  assert (Hr : forall req, req = ckks_request "fuse_partials" params <| Partials := encodeB64 <$> partials |> <| NSlots := n |> ->
    run (transmit req) = bbind (FuseCKKSPartialsForContract (toContractParams params) partials n)
    (fun vs => bret (reply (no_response <| rValues := vs |>)))) by (intros req ->; dispatch).
  rewrite (Hr _ eq_refl), Hw, Hd. unfold bbind, bret.
  destruct (FuseCKKSPartialsForContract (toContractParams params) partials n w) as [w' [e|vs]]; cbn; [done|].
  by destruct (forallb finite vs).
Qed.

Lemma BFVFusePartials_same bfv partials n c :
  live c -> filled partials ->
  BFVFusePartials bfv partials n c =
  direct "bfv_fuse_partials_int" (FuseBFVPartialsForContract (toBFVContractParams bfv) partials n) c.
Proof.
  intros Hc Hps. refine (same_at _ _ c Hc _).
  eapply (rpc _ _ _ _ (fun vs => reply (no_response <| rIntValues := vs |>)) (fun resp => Some (rIntValues resp)));
    [reflexivity|reflexivity|dispatch|done|done|apply yields_any].
Qed.

Lemma EvalPoly_same params keys ct poly :
  finite (ScalingFactor params) = true -> keys <> [] -> ct <> [] -> poly_Coefficients poly <> [] ->
  forallb finite (poly_Coefficients poly) = true -> finite (LowerBound poly) = true -> finite (UpperBound poly) = true ->
  same (fun _ => True) (EvalPoly params keys ct poly)
    (direct "eval_poly" (EvalPolyCKKSForContract (toContractParams params) keys ct (poly_Coefficients poly))).
Proof.
  intros Hf Hk Hct Hp Hc Hl Hu. eapply (rpc _ _ _ _ ciphertext_of (fun resp => decodeB64 (rCiphertext resp))).
  - reflexivity.
  - unfold encodable. cbn. by rewrite Hf, Hc, Hl, Hu.
  - unfold run, run_ciphertexts. cbn -[s_decodeB64 encodeB64 toContractParams bbind zlen Z.eqb].
    rewrite !s_decodeB64_encode by done.
    replace (zlen (poly_Coefficients poly) =? 0) with false; [reflexivity|].
    symmetry. apply Z.eqb_neq. unfold zlen. by destruct (poly_Coefficients poly).
  - decodes.
  - done.
  - apply yields_any.
Qed.

Ltac op_map_of mk dec :=
  eapply (rpc_map _ _ _ _ _ mk dec);
  [ reflexivity | unfold encodable; cbn; repeat (apply andb_true_intro; split); (done || auto)
  | dispatch | decodes | done | apply yields_any ].

Lemma ckks_transparent params c : live c -> finite (ScalingFactor params) = true -> CKKSTransparent params c.
Proof.
  intros Hc Hf. split; intros; first [by apply FusePartials_fused|refine (same_at _ _ c Hc _)].
  - op_of keyShareResponse decodeKeyShare.
  - op_of keyShareResponse decodeKeyShare.
  - op_of ciphertext_of (fun resp => decodeB64 (rCiphertext resp)).
  - op_of base_of (fun resp => decode_pair (rEvalMultBase resp) (rEvalSumBase resp)).
  - op_of share_of (fun resp => decode_pair (rEvalMultShare resp) (rEvalSumShare resp)).
  - op_of joined_of (fun resp => decode_pair (rEvalMultJoined resp) (rEvalSumFinal resp)).
  - op_of round2_of (fun resp => decodeB64 (rEvalMultFinalShare resp)).
  - op_map_of final_of (fun resp => decodeB64 (rEvalMultFinal resp)).
  - op_of partial_of (fun resp => decodeB64 (rPartial resp)).
  - op_of ciphertext_of (fun resp => decodeB64 (rCiphertext resp)).
  - op_of ciphertext_of (fun resp => decodeB64 (rCiphertext resp)).
  - op_of ciphertext_of (fun resp => decodeB64 (rCiphertext resp)).
  - op_of ciphertext_of (fun resp => decodeB64 (rCiphertext resp)).
  - by apply EvalPoly_same.
  - by apply Argmax_same.
Qed.

Lemma bfv_transparent bfv c : live c -> BFVTransparent bfv c.
Proof.
  intros Hc. split; intros; first [by apply BFVFusePartials_same|refine (same_at _ _ c Hc _)].
  - op_of keyShareResponse decodeKeyShare.
  - op_of keyShareResponse decodeKeyShare.
  - op_of ciphertext_of (fun resp => decodeB64 (rCiphertext resp)).
  - op_of base_of (fun resp => decode_pair (rEvalMultBase resp) (rEvalSumBase resp)).
  - op_of share_of (fun resp => decode_pair (rEvalMultShare resp) (rEvalSumShare resp)).
  - op_of joined_of (fun resp => decode_pair (rEvalMultJoined resp) (rEvalSumFinal resp)).
  - op_of round2_of (fun resp => decodeB64 (rEvalMultFinalShare resp)).
  - op_map_of final_of (fun resp => decodeB64 (rEvalMultFinal resp)).
  - op_of partial_of (fun resp => decodeB64 (rPartial resp)).
  - op_of ciphertext_of (fun resp => decodeB64 (rCiphertext resp)).
Qed.

Lemma Version_same c : live c -> Version c = direct "version" (bret OpenFHEVersion) c.
Proof.
  intros Hc. refine (same_at _ _ c Hc _).
  eapply (rpc _ _ _ _ (fun v => reply (no_response <| rVersion := v |>)) (fun resp => Some (rVersion resp)));
    [reflexivity|reflexivity|reflexivity|done|done|apply yields_any].
Qed.

(** C17: the helper is transparent.  On a running helper every operation of the
    client - [Version], and for both schemes key generation, the rounds of the
    evaluation keys, encryption, evaluation, partial decryption and fusing -
    returns what the library's operation returns on the same bytes, or its error
    text under the operation's name, and leaves the library in the same state.
    The conditions: a finite [ScalingFactor]; arguments that are not empty (the
    helper refuses an empty field); values, coefficients, scalars and bounds
    that are finite (JSON has no others); for [EvalPoly] at least one
    coefficient and for [Argmax] at least two ciphertexts and two coefficients.
    One operation is not transparent on every result: where the fused CKKS values
    hold a NaN or an infinity, [FusePartials] fails and the helper process is gone. *)
Theorem helper_transparent params bfv c :
  live c -> finite (ScalingFactor params) = true ->
  Version c = direct "version" (bret OpenFHEVersion) c /\ CKKSTransparent params c /\ BFVTransparent bfv c.
Proof.
  intros Hc Hf. split_and!; [by apply Version_same|by apply ckks_transparent|by apply bfv_transparent].
Qed.

(** A call on a helper that has exited. *)
Lemma call_dead req c :
  done c = false -> proc c = None -> exists err, call req c = (mkClient None false, inl err).
Proof.
  intros Hd Hp. unfold call. rewrite Hd, Hp. destruct c as [w d]. cbn in *. subst.
  destruct (encodable req); cbn; eauto.
Qed.

(** Fusing partials. On a running helper [FusePartials] returns what the
    library returns when all values are finite; when one is NaN or infinite
    the reply has no JSON form, the helper process exits, the call fails, and
    so does every later call of the same client. *)
Lemma fuse_partials_outcome params partials n c w :
  done c = false -> proc c = Some w -> finite (ScalingFactor params) = true -> filled partials ->
  let '(c', res) := FusePartials params partials n c in
  match FuseCKKSPartialsForContract (toContractParams params) partials n w with
  | (w', inr vs) =>
      if forallb finite vs then c' = mkClient (Some w') false /\ res = inr vs
      else res = inl (HDecode "fuse_partials") /\ forall req, exists err, (call req c').2 = inl err
  | (w', inl e) =>
      c' = mkClient (Some w') false /\
      res = inl (if String.eqb e "" then HEmpty "fuse_partials" else HelperError "fuse_partials" e)
  end.
Proof.
  intros Hd Hp Hf Hps. unfold FusePartials, hbind.
  set (req := ckks_request "fuse_partials" params <| Partials := encodeB64 <$> partials |> <| NSlots := n |>).
  assert (He : encodable req = true) by (unfold encodable; cbn; by rewrite Hf).
  assert (Hr : run (transmit req) = bbind (FuseCKKSPartialsForContract (toContractParams params) partials n)
    (fun vs => bret (reply (no_response <| rValues := vs |>)))) by dispatch.
  rewrite (call_run req c w Hd Hp He), Hr. unfold bbind, bret.
  destruct (FuseCKKSPartialsForContract (toContractParams params) partials n w) as [w' [e|vs]]; cbn; [done|].
  destruct (forallb finite vs); cbn; [done|]. split; [done|]. intros rq.
  destruct (call_dead rq (mkClient None false) eq_refl eq_refl) as [err Herr]. exists err. exact (f_equal snd Herr).
Qed.

(** The polynomial that names a Chebyshev approximation is always refused. *)
Lemma chebyshev_refused params keys ct cts low high degree c :
  live c -> finite (ScalingFactor params) = true -> finite low = true -> finite high = true ->
  keys <> [] -> ct <> [] -> filled cts -> 2 <= zlen cts ->
  (EvalPoly params keys ct (SharpenChebyshev low high degree) c).2 =
    inl (HelperError "eval_poly" "eval_poly requires coefficients") /\
  (Argmax params keys cts (SharpenChebyshev low high degree) c).2 =
    inl (HelperError "argmax" "argmax requires sharpening coefficients (>= 2)").
Proof.
  intros [Hd [w Hw]] Hf Hl Hh Hk Hct Hcts Hn. unfold EvalPoly, Argmax, hbind. split.
  - erewrite call_run; [|done|done|unfold encodable; cbn; by rewrite Hf, Hl, Hh].
    unfold run, run_ciphertexts. cbn -[s_decodeB64 encodeB64 bbind]. rewrite !s_decodeB64_encode by done. done.
  - erewrite call_run; [|done|done|unfold encodable; cbn; by rewrite Hf, Hl, Hh].
    unfold run, run_ciphertexts, decodeB64Slice. cbn -[s_decodeB64 decode_from encodeB64 bbind zlen Z.ltb].
    rewrite s_decodeB64_encode, decode_from_encode by done.
    replace (zlen (encodeB64 <$> cts) <? 2) with false by (unfold zlen in *; rewrite length_fmap; lia). done.
Qed.
End transparency.

(** ** Witnesses *)

(** A library whose objects are lists of tags. *)
Section witnesses.
Definition wit_op {A} (a : A) : B unit A := fun w => (w, inr a).

#[local] Instance wit_bridge : Bridge unit := {|
  OpenFHEVersion := "v1.5.0";
  DistributedKeyGenFirst _ := wit_op (mkKeyShare [x01] [x02] true);
  DistributedKeyGenNext _ pk := wit_op (mkKeyShare (x01 :: pk) [x02] false);
  BFVDistributedKeyGenFirst _ := wit_op (mkKeyShare [x01] [x02] true);
  BFVDistributedKeyGenNext _ pk := wit_op (mkKeyShare (x01 :: pk) [x02] false);
  EncryptCKKSForContract _ pk _ := wit_op pk;
  EncryptBFVForContract _ pk _ := wit_op pk;
  b_EvalKeyRound1Lead _ sk := wit_op ([x03], [x04]);
  b_BFVEvalKeyRound1Lead _ sk := wit_op ([x03], [x04]);
  b_EvalKeyRound1Participant _ sk _ _ _ := wit_op ([x05], [x06]);
  b_BFVEvalKeyRound1Participant _ sk _ _ _ := wit_op ([x05], [x06]);
  b_EvalKeyRound2Participant _ sk _ _ _ := wit_op [x07];
  b_BFVEvalKeyRound2Participant _ sk _ _ _ := wit_op [x07];
  PartialDecryptCKKSForContract _ ct _ _ := wit_op ct;
  PartialDecryptBFVForContract _ ct _ _ := wit_op ct;
  b_CombineEvalKeyRound1 _ _ _ _ := wit_op ([x08], [x09]);
  b_BFVCombineEvalKeyRound1 _ _ _ _ := wit_op ([x08], [x09]);
  b_CombineEvalKeyRound2 _ _ _ _ := wit_op (mkFinal [x0a] [x0b]);
  b_BFVCombineEvalKeyRound2 _ _ _ _ := wit_op (mkFinal [x0a] [x0b]);
  SplitRotShareAB _ full := wit_op (full, full);
  ReconstructRotShareAB _ a _ := wit_op a;
  FuseCKKSPartialsForContract _ ps n := wit_op [if n =? 1 then f64_one else S754_nan];
  FuseBFVPartialsForContract _ ps n := wit_op [n];
  EvalProductSumBFVForContract _ _ x _ _ := wit_op x;
  EvalPolyCKKSForContract _ _ ct _ := wit_op ct;
  EvalAddCKKSForContract _ x _ := wit_op x;
  EvalSubCKKSForContract _ x _ := wit_op x;
  EvalMultCKKSForContract _ _ x _ := wit_op x;
  EvalConstMultCKKSForContract _ x _ := wit_op x;
  EvalArgmaxCKKSForContract _ _ cts _ := wit_op cts |}.

#[local] Instance wit_laws : BridgeLaws.
Proof. split; intros; intros w; cbn; unfold share_ok, pair_ok, bytes_ok; cbn; repeat split; discriminate. Qed.

Definition wit_params : ContractParams := mkParams "" 2048 f64_zero 40 10.
Definition wit_bfv : BFVContractParams := mkBFVParams 2048 2 65537 0.
Definition wit_client : Client (option unit) := mkClient (Some tt) false.

Lemma wit_live : live wit_client.
Proof. split; [done|by exists tt]. Qed.

Lemma keygen_chain_transparent_witness :
  match KeygenChain wit_params 3 wit_client with
  | (_, inr b) => linked (direct_ckks wit_params) 3 b
  | _ => False
  end.
Proof.
  destruct (keygen_chain_transparent wit_params wit_bfv 3 wit_client wit_live eq_refl) as (Heq & _ & Hlink & _).
  assert (Hok : match (chain (direct_ckks wit_params) 3 wit_client).2 with inr _ => true | inl _ => false end = true) by reflexivity.
  rewrite <- Heq in Hok. destruct (KeygenChain wit_params 3 wit_client) as [c' [e|b]]; [discriminate Hok|].
  exact (Hlink c' b eq_refl).
Defined.

Lemma helper_transparent_witness :
  EncryptProfile wit_params [x01] [f64_one] wit_client =
  direct "encrypt_profile" (EncryptCKKSForContract (toContractParams wit_params) [x01] [f64_one]) wit_client /\
  FusePartials wit_params [[x01]] 1 wit_client = (wit_client, inr [f64_one]) /\
  FusePartials wit_params [[x01]] 2 wit_client = (mkClient None false, inl (HDecode "fuse_partials")) /\
  BFVKeygenNext wit_bfv [x05] wit_client = (wit_client, inr (mkKeyShare [x01; x05] [x02] false)).
Proof.
  destruct (helper_transparent wit_params wit_bfv wit_client wit_live eq_refl) as (_ & Hckks & Hbfv).
  assert (Hps : filled [[x01]]) by by repeat constructor.
  split_and!.
  - apply (tr_encrypt _ _ Hckks); [discriminate|reflexivity].
  - exact (tr_fuse _ _ Hckks [[x01]] 1 Hps).
  - exact (tr_fuse _ _ Hckks [[x01]] 2 Hps).
  - apply (bt_next _ _ Hbfv). discriminate.
Defined.

Lemma wit_filled : filled [[x01]].
Proof. by repeat constructor. Qed.

Lemma fuse_partials_outcome_witness :
  (FusePartials wit_params [[x01]] 1 wit_client).2 = inr [f64_one].
Proof.
  pose proof (fuse_partials_outcome wit_params [[x01]] 1 wit_client tt eq_refl eq_refl eq_refl
    wit_filled) as Hw.
  destruct (FusePartials wit_params [[x01]] 1 wit_client) as [c' res]. exact (proj2 Hw).
Defined.
End witnesses.
End HelperServer.
