(* ===== verification/HelperPhases.v ===== *)
(** * What the helper-backed example phases share

    The sealed-bid auction, the ride-share matcher and the cohort ranking each
    carry their own copy of the same hooks around the encryption helper: the
    reading of the crypto contract, key generation, scoring, fusing and the
    settlement transcript.  Each hook is defined here once, over the names and
    labels of the copy. *)

From S2P Require Import Prelude Sha256 Float64 Lineage LineageStore PhaseTypes Compose Defaults HelperClient PipelineSpec Collecting.
Import Sha256 Lineage LineageStore PhaseTypes Compose Defaults HelperClient PipelineSpec Collecting.

#[local] Open Scope Z_scope.
#[local] Open Scope go_scope.

Module HelperPhases.
#[local] Open Scope prog_scope.

(** ** Parameters *)

(** A phase's helper client, as the answers of its process to the requests of a
    session; errors are the client's. *)
Record Helper := mkHelper {
  h_KeygenChain : ContractParams -> Z -> gerror + EvalKeyBundle;
  h_Argmax : ContractParams -> bytes -> list bytes -> EvalPolyParams -> gerror + list bytes;
  h_FusePartials : ContractParams -> list bytes -> Z -> gerror + list float64
}.

(** [encoding/json]: the named string fields of an object (missing ones are
    empty; no value when decoding fails), an envelope of two string lists, and
    a [map[string]any], which fails on NaN and infinities. *)
Class FormJSON := {
  json_fields : list string -> bytes -> option (string -> string);
  encode_envelope : list string -> list string -> bytes;
  encode_map : list (string * any) -> option bytes
}.

(** ** Contract parameters *)

Definition map_get (k : string) (m : list (string * any)) : option any :=
  (fun x => x.2.2) <$> list_find (fun kv => kv.1 = k) m.

(** Which integer types a copy's conversions accept besides [int] and
    [float64]. *)
Record widths := mkWidths { uint_int32 : bool; int_int32 : bool; int_int64 : bool }.

Section contract.
Context `{GoConv}.

Definition asUint (w : widths) (contract : list (string * any)) (k : string) : gerror + Z :=
  match map_get k contract with
  | None => inl (Errorf "crypto_ctx.%s missing" [k] [])
  | Some v =>
      match v with
      | VInt n | VInt64 n => inr (wrap32u n)
      | VInt32 n => if uint_int32 w then inr (wrap32u n) else inl (Errorf "crypto_ctx.%s has type %T" [k] [])
      | VUint32 n => inr n
      | VFloat64 f => inr (f64_uint32 f)
      | _ => inl (Errorf "crypto_ctx.%s has type %T" [k] [])
      end
  end.

Definition asInt (w : widths) (contract : list (string * any)) (k : string) : Z :=
  match map_get k contract with
  | None => 0
  | Some v =>
      match v with
      | VInt n => n
      | VInt32 n => if int_int32 w then n else 0
      | VInt64 n => if int_int64 w then n else 0
      | VFloat64 f => f64_int f
      | _ => 0
      end
  end.

(** [name] is the constant under which a copy knows its key. *)
Definition contract_map (name key : string) (c : SessionContext) : gerror + list (string * any) :=
  match ctx_Get c key with
  | None => inl (Errorf "%s missing" [name] [])
  | Some v => match as_map v with Some m => inr m | None => inl (Errorf "%s has type %T" [name] []) end
  end.

Definition read_params (w : widths) (name key : string) (c : SessionContext) : gerror + ContractParams :=
  match contract_map name key c with
  | inl e => inl e
  | inr contract =>
      match asUint w contract "ring_dim" with
      | inl e => inl e
      | inr ringDim =>
          match asUint w contract "depth" with
          | inl e => inl e
          | inr depth => inr (mkParams "" ringDim f64_zero (asInt w contract "scaling_mod_size") depth)
          end
      end
  end.
End contract.

(** ** Decoding payloads *)

Section payloads.
Context `{FormJSON}.

(** A hex field that must be there. *)
Definition decode_field (field : string) (raw : bytes) : gerror + bytes :=
  match json_fields [field] raw with
  | None => inl (Errorf "json" [] [])
  | Some get =>
      if String.eqb (get field) "" then inl (Errorf "%s is empty" [field] [])
      else match hex_decode (get field) with None => inl (Errorf "hex" [] []) | Some b => inr b end
  end.

(** [decodePartialCiphertext]: [partial_ct], else [partial]. *)
Definition decode_partial (raw : bytes) : gerror + bytes :=
  match json_fields ["partial_ct"; "partial"] raw with
  | None => inl (Errorf "json" [] [])
  | Some get =>
      let field := if String.eqb (get "partial_ct") "" then get "partial" else get "partial_ct" in
      if String.eqb field "" then inl (Errorf "no partial_ct or partial field in decrypt-partial payload" [] [])
      else match hex_decode field with None => inl (Errorf "hex" [] []) | Some b => inr b end
  end.

(** Decode a list in order, stopping at the first error. *)
Fixpoint decode_all {A} (f : A -> gerror + bytes) (l : list A) : gerror + list bytes :=
  match l with
  | [] => inr []
  | x :: l' =>
      match f x with
      | inl e => inl e
      | inr b => match decode_all f l' with inl e => inl e | inr bs => inr (b :: bs) end
      end
  end.
End payloads.

(** ** Hooks *)

Definition stub_pk : any := VBytes (bytes_of_string "stub-collective-pk").
Definition stub_keys : any := VBytes (bytes_of_string "stub-eval-keys").

(** Both keys are there and not empty. *)
Definition preshared (c : SessionContext) (pkKey ekKey : string) : bool :=
  match TryGet as_bytes c pkKey, TryGet as_bytes c ekKey with
  | Some pk, Some ek => (0 <? zlen pk) && (0 <? zlen ek)
  | _, _ => false
  end.

Section hooks.
Context `{FormJSON} `{GoRange}.

(** [PhaseKeygen.Exit]. *)
Definition keygen_Exit (label missing participantsKey pkKey sharesKey ekKey bucket : string)
    (readParams : SessionContext -> gerror + ContractParams) (helper : option Helper) : Prog (option gerror) :=
  let* c := hContext in
  let shares := VBucket (AccumulatedMessages c bucket) in
  if preshared c pkKey ekKey then hSet sharesKey shares ;; Ret None
  else match helper with
  | None => hSet pkKey stub_pk ;; hSet sharesKey shares ;; hSet ekKey stub_keys ;; Ret None
  | Some h =>
      match TryGet as_strings c participantsKey with
      | None | Some [] => Ret (Some (Errorf missing [] []))
      | Some participants =>
          match readParams c with
          | inl e => Ret (Some (Errorf "%s: %w" [label] [e]))
          | inr params =>
              match h_KeygenChain h params (zlen participants) with
              | inl e => Ret (Some (Errorf "%s: helper.KeygenChain: %w" [label] [e]))
              | inr bundle =>
                  hSet pkKey (VBytes (eb_PublicKey bundle)) ;; hSet sharesKey shares ;;
                  hSet ekKey (VBytes (eb_EvalKeys bundle)) ;; Ret None
              end
          end
      end
  end.

(** [Exit] of the collecting phases: the bucket becomes the phase's output. *)
Definition publish (key bucket : string) : Prog (option gerror) :=
  let* c := hContext in hSet key (VBucket (AccumulatedMessages c bucket)) ;; Ret None.

(** The scoring hook. *)
Definition score_Enter (label missing undecodable bucket ekKey out field : string)
    (readParams : SessionContext -> gerror + ContractParams) (helper : option (Helper * EvalPolyParams))
    : Prog (option gerror) :=
  let* c := hContext in
  let bids := AccumulatedMessages c bucket in
  match helper with
  | None => hSet out (VBytes (bytes_of_string "stub-winner-of-" ++ [byte_of_Z (msize bids)])) ;; Ret None
  | Some (h, sharpening) =>
      match readParams c with
      | inl e => Ret (Some e)
      | inr params =>
          match TryGet as_bytes c ekKey with
          | None | Some [] => Ret (Some (Errorf missing [] []))
          | Some evalKeys =>
              let bidders := sort_strings (range_of bids).*1 in
              let decode b :=
                match decode_field field (default [] (bids !! b)) with
                | inl e => inl (Errorf undecodable [b] [e])
                | inr ct => inr ct
                end in
              match decode_all decode bidders with
              | inl e => Ret (Some e)
              | inr cts =>
                  match h_Argmax h params evalKeys cts sharpening with
                  | inl e => Ret (Some (Errorf "%s: helper.Argmax: %w" [label] [e]))
                  | inr masks => hSet out (VBytes (encode_envelope bidders (hex_encode <$> masks))) ;; Ret None
                  end
              end
          end
      end
  end.

(** The decryption hook: [result] is what goes to [out] given the first fused
    value and the number of partials. *)
Definition fuse_Exit (label bucket out : string) (nSlots : Z)
    (readParams : SessionContext -> gerror + ContractParams) (helper : option Helper)
    (stub : Z -> any) (result : float64 -> Z -> any) : Prog (option gerror) :=
  let* c := hContext in
  let partials := AccumulatedMessages c bucket in
  match helper with
  | None => hSet out (stub (msize partials)) ;; Ret None
  | Some h =>
      match readParams c with
      | inl e => Ret (Some (Errorf "%s: %w" [label] [e]))
      | inr params =>
          let decode raw :=
            match decode_partial raw with
            | inl e => inl (Errorf "%s: decode partial: %w" [label] [e])
            | inr b => inr b
            end in
          match decode_all decode (range_of partials).*2 with
          | inl e => Ret (Some e)
          | inr raw =>
              match h_FusePartials h params raw nSlots with
              | inl e => Ret (Some (Errorf "%s: fuse: %w" [label] [e]))
              | inr values => hSet out (result (default f64_zero (head values)) (msize partials)) ;; Ret None
              end
          end
      end
  end.

(** [signTranscript]: the digest of the transcript without its signature; an
    encoding error is ignored. *)
Definition signTranscript (t : list (string * any)) : string :=
  hex_encode (sha256 (default [] (encode_map (filter (fun kv => kv.1 <> "signature") t)))).

Definition transcript_of (sessionID field by_ : string) (value : any) : list (string * any) :=
  [("session_id", VString sessionID); (field, value); ("settlement_by", VString by_)].

Definition sign_off (t : list (string * any)) : list (string * any) := t ++ [("signature", VString (signTranscript t))].

(** The settlement hook; a missing result is a nil entry. *)
Definition settle_Enter (from out field by_ : string) : Prog (option gerror) :=
  let* c := hContext in
  let value := default VNil (ctx_Get c from) in
  hSet out (VMap (sign_off (transcript_of (CtxSessionID c) field by_ value))) ;; Ret None.

(** ** Facts *)

(** An observer recomputes the signature from the transcript itself. *)
Lemma signature_recomputes sessionID field by_ value :
  field <> "signature" ->
  let t := sign_off (transcript_of sessionID field by_ value) in
  map_get "signature" t = Some (VString (signTranscript t)).
Proof.
  intros Hf t.
  assert (Hs : signTranscript t = signTranscript (transcript_of sessionID field by_ value)).
  { unfold signTranscript, t, sign_off. by rewrite filter_app, filter_cons_False, filter_nil, app_nil_r by (cbn; tauto). }
  rewrite Hs. unfold map_get, t, sign_off, transcript_of. cbn. by rewrite (decide_False (P := field = "signature")).
Qed.

Lemma decode_all_spec {A} (f : A -> gerror + bytes) l bs :
  decode_all f l = inr bs <-> Forall2 (fun x b => f x = inr b) l bs.
Proof.
  revert bs. induction l as [|x l IH]; intros bs; cbn [decode_all].
  { split; [intros [= <-]; constructor|by inversion 1]. }
  destruct (f x) as [e|b] eqn:Hx; [split; [done|inversion 1; congruence]|].
  destruct (decode_all f l) as [e|bs'].
  - split; [done|]. inversion 1 as [|? b' ? bs' Hb Hl]; subst. by apply IH in Hl.
  - split.
    + intros [= <-]. constructor; [done|by apply IH].
    + inversion 1 as [|? b' ? bs'' Hb Hl]; subst. apply IH in Hl. congruence.
Qed.

(** The hooks when the helper answers. *)
Lemma keygen_Exit_helper label missing participantsKey pkKey sharesKey ekKey bucket readParams h c participants params bundle :
  preshared c pkKey ekKey = false -> TryGet as_strings c participantsKey = Some participants -> participants <> [] ->
  readParams c = inr params -> h_KeygenChain h params (zlen participants) = inr bundle ->
  hook (keygen_Exit label missing participantsKey pkKey sharesKey ekKey bucket readParams (Some h)) c =
  (ctx_Set (ctx_Set (ctx_Set c pkKey (VBytes (eb_PublicKey bundle))) sharesKey (VBucket (AccumulatedMessages c bucket)))
     ekKey (VBytes (eb_EvalKeys bundle)), Ok None).
Proof.
  intros Hpre Hp Hne Hr Hk. unfold keygen_Exit. hooks. rewrite Hpre, Hp. destruct participants as [|p ps]; [done|].
  rewrite Hr, Hk. by hooks.
Qed.

(** The ciphertexts of the bids in the order of their bidders. *)
Definition bid_cts (field : string) (bids : gmap string bytes) (cts : list bytes) : Prop :=
  Forall2 (fun b ct => exists raw, bids !! b = Some raw /\ decode_field field raw = inr ct)
    (sort_strings (range_of bids).*1) cts.

Lemma bidders_perm (bids : gmap string bytes) : sort_strings (range_of bids).*1 ≡ₚ (map_to_list bids).*1.
Proof. unfold sort_strings. rewrite merge_sort_Permutation. by rewrite range_of_perm. Qed.

Lemma bidder_bid (bids : gmap string bytes) b : b ∈ sort_strings (range_of bids).*1 <-> is_Some (bids !! b).
Proof.
  rewrite bidders_perm, list_elem_of_fmap. split.
  - intros ([k v] & -> & Hv%elem_of_map_to_list). eauto.
  - intros [v Hv]. exists (b, v). by rewrite elem_of_map_to_list.
Qed.

Lemma score_Enter_helper label missing undecodable bucket ekKey out field readParams h sharpening c params ek cts masks :
  readParams c = inr params -> TryGet as_bytes c ekKey = Some ek -> ek <> [] ->
  bid_cts field (AccumulatedMessages c bucket) cts -> h_Argmax h params ek cts sharpening = inr masks ->
  hook (score_Enter label missing undecodable bucket ekKey out field readParams (Some (h, sharpening))) c =
  (ctx_Set c out (VBytes (encode_envelope (sort_strings (range_of (AccumulatedMessages c bucket)).*1) (hex_encode <$> masks))),
   Ok None).
Proof.
  intros Hr Hek Hne Hcts Hm. unfold score_Enter. hooks. rewrite Hr, Hek. destruct ek as [|x ek]; [done|].
  rewrite (proj2 (decode_all_spec _ _ cts)).
  - rewrite Hm. by hooks.
  - eapply Forall2_impl; [exact Hcts|]. intros b ct (raw & Hraw & Hd). rewrite Hraw. cbn. by rewrite Hd.
Qed.

Lemma fuse_Exit_helper label bucket out n readParams h stub result c params raw values :
  readParams c = inr params ->
  Forall2 (fun pl b => decode_partial pl = inr b) (range_of (AccumulatedMessages c bucket)).*2 raw ->
  h_FusePartials h params raw n = inr values ->
  hook (fuse_Exit label bucket out n readParams (Some h) stub result) c =
  (ctx_Set c out (result (default f64_zero (head values)) (msize (AccumulatedMessages c bucket))), Ok None).
Proof.
  intros Hr Hraw Hv. unfold fuse_Exit. hooks. rewrite Hr. rewrite (proj2 (decode_all_spec _ _ raw)).
  - rewrite Hv. by hooks.
  - eapply Forall2_impl; [exact Hraw|]. intros pl b Hd. by rewrite Hd.
Qed.

Lemma settle_Enter_hook from out field by_ c :
  hook (settle_Enter from out field by_) c =
  (ctx_Set c out (VMap (sign_off (transcript_of (CtxSessionID c) field by_ (default VNil (ctx_Get c from))))), Ok None).
Proof. unfold settle_Enter. by hooks. Qed.

Lemma publish_hook key bucket c :
  hook (publish key bucket) c = (ctx_Set c key (VBucket (AccumulatedMessages c bucket)), Ok None).
Proof. unfold publish. by hooks. Qed.
End hooks.
End HelperPhases.
