(* ===== verification/SealedBid.v ===== *)
(** * Sealed-bid auction ([examples/sealed_bid_auction])

    The application's phases with and without the encryption helper, its
    pipelines, and the outcome of a whole auction. *)

From S2P Require Import Prelude Sha256 Float64 Lineage LineageStore PhaseTypes Compose ComposeTheorems Runner RunnerInvariant RunnerTheorems Defaults PipelineSpec Collecting HelperClient HelperPhases.
Import Sha256 Lineage LineageStore PhaseTypes Compose ComposeTheorems Runner RunnerInvariant RunnerTheorems Defaults PipelineSpec Collecting HelperClient HelperPhases.

#[local] Open Scope Z_scope.
#[local] Open Scope go_scope.

Module SealedBid.

(** ** States and context keys *)

Definition StateAuctionInviting : SessionState := "AUCTION_INVITING".
Definition StateAuctionLocked : SessionState := "AUCTION_LOCKED".
Definition StateAuctionBidding : SessionState := "AUCTION_BIDDING".
Definition StateAuctionScoring : SessionState := "AUCTION_SCORING".
Definition StateAuctionDecrypting : SessionState := "AUCTION_DECRYPTING".
Definition StateAuctionSettled : SessionState := "AUCTION_SETTLED".

Definition CtxAuctionParticipants : string := "auction.participants".
Definition CtxAuctionCryptoContract : string := "auction.crypto_ctx".
Definition CtxAuctionCollectivePublicKey : string := "auction.collective_pk".
Definition CtxAuctionSecretShares : string := "auction.secret_shares".
Definition CtxAuctionEvalKeys : string := "auction.eval_keys".
Definition CtxAuctionBids : string := "auction.bids".
Definition CtxAuctionCipherWinnerBid : string := "auction.ct_winner_bid".
Definition CtxAuctionWinnerBid : string := "auction.winner_bid".
Definition CtxAuctionSettlement : string := "auction.settlement".
Definition bucketKeygenShares : string := "auction.bucket.keygen_shares".
Definition bucketScalarBids : string := "auction.bucket.scalar_bids".
Definition bucketDecryptPartials : string := "auction.bucket.decrypt_partials".

(** ** Phases *)

Definition PhaseInvitation : Phase := {|
  Name := "auction-invitation"; Lifetime := LifetimePerSession; RunsAt := RunsAtInline;
  EntryState := StateAuctionInviting; ExitState := StateAuctionLocked; InternalStates := [];
  ConsumedMessageTypes := []; Requires := schema [];
  Provides := schema
    [(CtxAuctionParticipants, gives "[]string");
     (CtxAuctionCryptoContract, gives_with "OpenFHEContract"
        [("depth", VInt 10); ("ring_dim", VInt 2048); ("scaling_mod_size", VInt 40)])];
  Enter := ok; OnMessage := ignore; CheckComplete := Ret true; Exit := ok |}.

Section phases.
Context `{FormJSON} `{GoRange} `{GoConv}.

Definition readContractParams (c : SessionContext) : gerror + ContractParams :=
  read_params (mkWidths true true true) "CtxAuctionCryptoContract" CtxAuctionCryptoContract c.

Definition PhaseKeygen (helper : option Helper) : Phase := {|
  Name := "auction-keygen"; Lifetime := LifetimePerSession; RunsAt := RunsAtInline;
  EntryState := StateAuctionLocked; ExitState := StateAuctionBidding; InternalStates := [];
  ConsumedMessageTypes := ["auction.keygen.share"];
  Requires := schema
    [(CtxAuctionParticipants, needs "[]string");
     (CtxAuctionCryptoContract, needs_with "OpenFHEContract" [("depth_min", VInt 4)])];
  Provides := schema
    [(CtxAuctionCollectivePublicKey, gives "[]byte"); (CtxAuctionSecretShares, gives "map[string][]byte");
     (CtxAuctionEvalKeys, gives "OpenFHEEvalKeys")];
  Enter := ok; OnMessage := collect bucketKeygenShares;
  CheckComplete := quorum CtxAuctionParticipants bucketKeygenShares;
  Exit := keygen_Exit "PhaseKeygen" "PhaseKeygen: CtxAuctionParticipants is missing or empty" CtxAuctionParticipants
    CtxAuctionCollectivePublicKey CtxAuctionSecretShares CtxAuctionEvalKeys bucketKeygenShares readContractParams helper |}.

Definition PhaseScalarBid : Phase := {|
  Name := "auction-scalar-bid"; Lifetime := LifetimePerSession; RunsAt := RunsAtInline;
  EntryState := StateAuctionBidding; ExitState := StateAuctionScoring; InternalStates := [];
  ConsumedMessageTypes := ["auction.bid"];
  Requires := schema
    [(CtxAuctionParticipants, needs "[]string"); (CtxAuctionCollectivePublicKey, needs "[]byte");
     (CtxAuctionCryptoContract, needs "OpenFHEContract")];
  Provides := schema [(CtxAuctionBids, gives "map[string][]byte")];
  Enter := ok; OnMessage := collect bucketScalarBids;
  CheckComplete := quorum CtxAuctionParticipants bucketScalarBids;
  Exit := publish CtxAuctionBids bucketScalarBids |}.

Definition pa_Enter (helper : option (Helper * EvalPolyParams)) : Prog (option gerror) :=
  score_Enter "PhaseArgmax" "PhaseArgmax: CtxAuctionEvalKeys is missing or empty" "PhaseArgmax: decode bid from %s: %w"
    bucketScalarBids CtxAuctionEvalKeys CtxAuctionCipherWinnerBid "bid_ct" readContractParams helper.

Definition PhaseArgmax (helper : option (Helper * EvalPolyParams)) : Phase := {|
  Name := "auction-argmax-scoring"; Lifetime := LifetimePerSession; RunsAt := RunsAtInline;
  EntryState := StateAuctionScoring; ExitState := StateAuctionDecrypting; InternalStates := [];
  ConsumedMessageTypes := [];
  Requires := schema
    [(CtxAuctionParticipants, needs "[]string");
     (CtxAuctionCryptoContract, needs_with "OpenFHEContract" [("depth_min", VInt 8)]);
     (CtxAuctionEvalKeys, needs "OpenFHEEvalKeys"); (CtxAuctionBids, needs "map[string][]byte")];
  Provides := schema [(CtxAuctionCipherWinnerBid, gives "[]byte")];
  Enter := pa_Enter helper; OnMessage := ignore; CheckComplete := Ret true; Exit := ok |}.

Definition winner_map (winner : string) (price : any) (partials : Z) : any :=
  VMap [("winner", VString winner); ("price", price); ("num_partials", VInt partials)].

Definition pd_Exit (helper : option Helper) : Prog (option gerror) :=
  fuse_Exit "PhaseDecrypt" bucketDecryptPartials CtxAuctionWinnerBid 1 readContractParams helper
    (fun n => winner_map "stub-winner" (VInt 0) n)
    (fun winningBid n => winner_map "bidder-determined-by-mask" (VFloat64 winningBid) n).

Definition PhaseDecrypt (helper : option Helper) : Phase := {|
  Name := "auction-threshold-decrypt"; Lifetime := LifetimePerSession; RunsAt := RunsAtInline;
  EntryState := StateAuctionDecrypting; ExitState := StateAuctionSettled; InternalStates := [];
  ConsumedMessageTypes := ["auction.decrypt.partial"];
  Requires := schema
    [(CtxAuctionParticipants, needs "[]string"); (CtxAuctionSecretShares, needs "map[string][]byte");
     (CtxAuctionCipherWinnerBid, needs "[]byte")];
  Provides := schema [(CtxAuctionWinnerBid, gives "WinnerBid")];
  Enter := ok; OnMessage := collect bucketDecryptPartials;
  CheckComplete := quorum CtxAuctionParticipants bucketDecryptPartials; Exit := pd_Exit helper |}.

Definition PhaseSettlement : Phase := {|
  Name := "auction-settlement"; Lifetime := LifetimePerSession; RunsAt := RunsAtInline;
  EntryState := StateAuctionSettled; ExitState := StateNone; InternalStates := []; ConsumedMessageTypes := [];
  Requires := schema [(CtxAuctionWinnerBid, needs "WinnerBid")];
  Provides := schema [(CtxAuctionSettlement, gives "SignedTranscript")];
  Enter := settle_Enter CtxAuctionWinnerBid CtxAuctionSettlement "winner" "auctioneer";
  OnMessage := ignore; CheckComplete := Ret true; Exit := ok |}.

(** ** Pipelines *)

Definition auction_phases (helper : option (Helper * EvalPolyParams)) : list Phase :=
  [PhaseInvitation; PhaseKeygen (fst <$> helper); PhaseScalarBid; PhaseArgmax helper; PhaseDecrypt (fst <$> helper);
   PhaseSettlement].

Definition Pipeline `{GoFmt} {St} : gerror + SessionRunner St := Compose (auction_phases None).

Definition PipelineWithHelper `{GoFmt} {St} (helper : Helper) (sharpening : EvalPolyParams) : gerror + SessionRunner St :=
  Compose (auction_phases (Some (helper, sharpening))).

Definition PipelineWithLineage `{GoFmt} (sg : Signer) (peers : gmap string Signer)
    : gerror + SessionRunner (InMemoryStore + InMemoryStore) :=
  ComposeWith (auction_phases None) [WithSigner sg; WithPeerVerifiers peers; WithStore NewInMemoryStore].

Definition PipelineWithLineageAndHelper `{GoFmt} (helper : Helper) (sharpening : EvalPolyParams) (sg : Signer)
    (peers : gmap string Signer) : gerror + SessionRunner (InMemoryStore + InMemoryStore) :=
  ComposeWith (auction_phases (Some (helper, sharpening)))
    [WithSigner sg; WithPeerVerifiers peers; WithStore NewInMemoryStore].

(** ** A whole auction *)

Section auction.
Context `{GoFmt} {St : Type} `{Store St} `{Clock}.
Context (h : Helper) (sharpening : EvalPolyParams).

Definition rest_decrypt : list Phase := [PhaseDecrypt (Some h); PhaseSettlement].
Definition rest_bid : list Phase := PhaseScalarBid :: PhaseArgmax (Some (h, sharpening)) :: rest_decrypt.

Definition keyed (c : SessionContext) (bundle : EvalKeyBundle) : SessionContext :=
  ctx_Set (ctx_Set (ctx_Set c CtxAuctionCollectivePublicKey (VBytes (eb_PublicKey bundle)))
             CtxAuctionSecretShares (VBucket (AccumulatedMessages c bucketKeygenShares)))
    CtxAuctionEvalKeys (VBytes (eb_EvalKeys bundle)).

Lemma leave_keygen en c participants params bundle :
  preshared c CtxAuctionCollectivePublicKey CtxAuctionEvalKeys = false ->
  TryGet as_strings c CtxAuctionParticipants = Some participants -> participants <> [] ->
  readContractParams c = inr params -> h_KeygenChain h params (zlen participants) = inr bundle ->
  leave (PhaseKeygen (Some h)) rest_bid en c = (mkSession (keyed c bundle) rest_bid true, Good true).
Proof.
  intros Hpre Hp Hne Hr Hk. unfold rest_bid. cbn [leave]. unfold guarded at 1. cbn [Exit PhaseKeygen].
  by erewrite keygen_Exit_helper by done.
Qed.

Definition scored (c : SessionContext) (masks : list bytes) : SessionContext :=
  let bids := AccumulatedMessages c bucketScalarBids in
  ctx_Set (ctx_Set c CtxAuctionBids (VBucket bids)) CtxAuctionCipherWinnerBid
    (VBytes (encode_envelope (sort_strings (range_of bids).*1) (hex_encode <$> masks))).

Lemma leave_bidding en c params ek cts masks :
  readContractParams c = inr params -> TryGet as_bytes c CtxAuctionEvalKeys = Some ek -> ek <> [] ->
  bid_cts "bid_ct" (AccumulatedMessages c bucketScalarBids) cts -> h_Argmax h params ek cts sharpening = inr masks ->
  leave PhaseScalarBid (PhaseArgmax (Some (h, sharpening)) :: rest_decrypt) en c =
  (mkSession (scored c masks) rest_decrypt true, Good true).
Proof.
  intros Hr Hek Hne Hcts Hm. cbn [leave]. unfold guarded at 1. cbn [Exit PhaseScalarBid]. rewrite publish_hook.
  unfold guarded at 1. cbn [Enter PhaseArgmax]. unfold pa_Enter. unfold readContractParams, read_params, contract_map in *.
  erewrite score_Enter_helper; [..|exact Hm]; autorewrite with hook; try done.
Qed.

Definition won (c : SessionContext) (values : list float64) : SessionContext :=
  ctx_Set c CtxAuctionWinnerBid
    (winner_map "bidder-determined-by-mask" (VFloat64 (default f64_zero (head values)))
       (msize (AccumulatedMessages c bucketDecryptPartials))).

Definition transcript (c : SessionContext) : list (string * any) :=
  sign_off (transcript_of (CtxSessionID c) "winner" "auctioneer" (default VNil (ctx_Get c CtxAuctionWinnerBid))).

Lemma leave_decrypting en c params raw values :
  readContractParams c = inr params ->
  Forall2 (fun pl b => decode_partial pl = inr b) (range_of (AccumulatedMessages c bucketDecryptPartials)).*2 raw ->
  h_FusePartials h params raw 1 = inr values ->
  leave (PhaseDecrypt (Some h)) [PhaseSettlement] en c =
  (mkSession (ctx_Set (won c values) CtxAuctionSettlement (VMap (transcript (won c values)))) [] true, Good true).
Proof.
  intros Hr Hraw Hv. cbn [leave]. unfold guarded at 1. cbn [Exit PhaseDecrypt]. unfold pd_Exit.
  erewrite fuse_Exit_helper by done. unfold guarded at 1. cbn [Enter PhaseSettlement]. by rewrite settle_Enter_hook.
Qed.

(** The calls of a whole auction. *)
Definition open_auction (sid cohort : string) (participants : list string) (contract : list (string * any))
    : list runner_op :=
  [RBegin sid cohort; RSeed sid CtxAuctionParticipants (VStrings participants);
   RSeed sid CtxAuctionCryptoContract (VMap contract); RAdvance sid StateAuctionLocked].

Definition auction_ops sid cohort participants contract (shares bids partials : list (string * bytes)) : list runner_op :=
  open_auction sid cohort participants contract ++ messages sid "auction.keygen.share" shares ++
  messages sid "auction.bid" bids ++ messages sid "auction.decrypt.partial" partials.

Definition auction_ctx (sid cohort : string) (participants : list string) (contract : list (string * any)) : SessionContext :=
  ctx_Set (ctx_Set (NewSessionContext sid <| CohortID := cohort |>) CtxAuctionParticipants (VStrings participants))
    CtxAuctionCryptoContract (VMap contract).

Lemma open_auction_spec sid cohort participants contract :
  sid <> "" ->
  spec_run (auction_phases (Some (h, sharpening))) None (open_auction sid cohort participants contract) =
  {[ sid := mkSession (auction_ctx sid cohort participants contract) (PhaseKeygen (Some h) :: rest_bid) true ]}.
Proof.
  intros Hsid. unfold spec_run, open_auction. cbn [foldl]. unfold spec_step at 4.
  destruct (String.eqb_spec sid ""); [done|]. rewrite lookup_empty.
  change (s_begin (auction_phases (Some (h, sharpening))) None sid cohort) with
    (Some (mkSession (NewSessionContext sid <| CohortID := cohort |>) (auction_phases (Some (h, sharpening))) true, Good tt)).
  cbn iota. unfold spec_step at 3. rewrite alter_insert_eq. unfold spec_step at 2. rewrite alter_insert_eq.
  unfold spec_step. rewrite alter_insert_eq. done.
Qed.

Lemma auction_acyclic helper : acyclic (auction_phases helper).
Proof. intros q [= <-]. cbn. set_solver. Qed.

Lemma keygen_collects : collects (PhaseKeygen (Some h)) "auction.keygen.share" CtxAuctionParticipants bucketKeygenShares.
Proof. by split. Qed.
Lemma bid_collects : collects PhaseScalarBid "auction.bid" CtxAuctionParticipants bucketScalarBids.
Proof. by split. Qed.
Lemma decrypt_collects : collects (PhaseDecrypt (Some h)) "auction.decrypt.partial" CtxAuctionParticipants bucketDecryptPartials.
Proof. by split. Qed.

(** The answers a helper gives over the three rounds. *)
Record answers (participants : list string) (params : ContractParams) (bids partials : gmap string bytes)
    (bundle : EvalKeyBundle) (masks : list bytes) (values : list float64) : Prop := {
  an_keys : h_KeygenChain h params (zlen participants) = inr bundle;
  an_keys_ne : eb_EvalKeys bundle <> [];
  an_masks : exists cts, bid_cts "bid_ct" bids cts /\ h_Argmax h params (eb_EvalKeys bundle) cts sharpening = inr masks;
  an_values : exists raw, Forall2 (fun pl b => decode_partial pl = inr b) (range_of partials).*2 raw /\
    h_FusePartials h params raw 1 = inr values
}.

(** The session over all three rounds: no dispatch panics. *)
Definition serve_auction (s : session) (shares bids partials : list (string * bytes)) : option session :=
  s1 ← serve "auction.keygen.share" s shares; s2 ← serve "auction.bid" s1 bids; serve "auction.decrypt.partial" s2 partials.

Lemma serve_auction_feeds s shares bids partials s' :
  serve_auction s shares bids partials = Some s' ->
  feed "auction.decrypt.partial" (feed "auction.bid" (feed "auction.keygen.share" s shares) bids) partials = s'.
Proof.
  unfold serve_auction. destruct (serve _ s shares) as [s1|] eqn:Hs1; [|done]. cbn.
  destruct (serve _ s1 bids) as [s2|] eqn:Hs2; [|done]. cbn. intros Hs3.
  by rewrite (serve_feed _ _ _ _ Hs1), (serve_feed _ _ _ _ Hs2), (serve_feed _ _ _ _ Hs3).
Qed.

Lemma auction_serves sid cohort participants contract params shares bids partials bundle masks values :
  let c0 := auction_ctx sid cohort participants contract in
  full_round participants shares -> full_round participants bids -> full_round participants partials ->
  readContractParams c0 = inr params ->
  answers participants params (latest bids) (latest partials) bundle masks values ->
  exists c,
    serve_auction (mkSession c0 (PhaseKeygen (Some h) :: rest_bid) true) shares bids partials = Some (mkSession c [] true) /\
    ctx_Get c CtxAuctionCollectivePublicKey = Some (VBytes (eb_PublicKey bundle)) /\
    ctx_Get c CtxAuctionCipherWinnerBid =
      Some (VBytes (encode_envelope (sort_strings (range_of (latest bids)).*1) (hex_encode <$> masks))) /\
    ctx_Get c CtxAuctionSettlement = Some (VMap (sign_off (transcript_of sid "winner" "auctioneer"
      (winner_map "bidder-determined-by-mask" (VFloat64 (default f64_zero (head values))) (zlen participants))))).
Proof.
  intros c0 Hsh Hbid Hpart Hr [Hk Hkne (cts & Hcts & Hm) (raw & Hraw & Hv)].
  assert (Hne : participants <> []) by (destruct Hsh as (? & ? & ? & _ & _ & Hl); by intros ->).
  assert (Hps : TryGet as_strings c0 CtxAuctionParticipants = Some participants)
    by (unfold c0, auction_ctx; autorewrite with hook; done).
  set (c1 := submitted c0 bucketKeygenShares shares). set (c2 := keyed c1 bundle).
  set (c3 := submitted c2 bucketScalarBids bids). set (c4 := scored c3 masks).
  set (c5 := submitted c4 bucketDecryptPartials partials).
  assert (Hread : forall c, ctx_Get c CtxAuctionCryptoContract = ctx_Get c0 CtxAuctionCryptoContract ->
    readContractParams c = inr params).
  { intros c Hc. rewrite <- Hr. unfold readContractParams, read_params, contract_map. by rewrite Hc. }
  assert (Hl1 : leave (PhaseKeygen (Some h)) rest_bid true c1 = (mkSession c2 rest_bid true, Good true)).
  { apply (leave_keygen true c1 participants params bundle);
      [unfold preshared, c1; autorewrite with hook; done..|apply Hread; unfold c1; by autorewrite with hook|done]. }
  assert (Hl2 : leave PhaseScalarBid (PhaseArgmax (Some (h, sharpening)) :: rest_decrypt) true c3 =
    (mkSession c4 rest_decrypt true, Good true)).
  { apply (leave_bidding true c3 params (eb_EvalKeys bundle) cts masks);
      [apply Hread; unfold c3, c2, keyed, c1; by autorewrite with hook
      |unfold c3, c2, keyed; by autorewrite with hook|done| |done].
    unfold c3. rewrite submitted_latest; [done|]. unfold c2, keyed, c1. by autorewrite with hook. }
  assert (Hacc : AccumulatedMessages c5 bucketDecryptPartials = latest partials).
  { unfold c5. rewrite submitted_latest; [done|]. unfold c4, scored, c3, c2, keyed, c1. by autorewrite with hook. }
  pose proof (leave_decrypting true c5 params raw values) as Hl3. rewrite Hacc in Hl3.
  specialize (Hl3 ltac:(apply Hread; unfold c5, c4, scored, c3, c2, keyed, c1; by autorewrite with hook) Hraw Hv).
  unfold serve_auction. rewrite (round_serves _ _ _ _ keygen_collects _ _ _ participants _ true Hps eq_refl Hsh) by (by fold c1; rewrite Hl1).
  fold c1. rewrite Hl1. cbn [mbind option_bind fst]. unfold rest_bid.
  rewrite (round_serves _ _ _ _ bid_collects _ _ _ participants _ true); fold c3; rewrite ?Hl2;
    [|unfold c2, keyed, c1; autorewrite with hook; done..|done|done].
  cbn [mbind option_bind fst]. unfold rest_decrypt.
  rewrite (round_serves _ _ _ _ decrypt_collects _ _ _ participants _ true); fold c5; rewrite ?Hl3;
    [|unfold c4, scored, c3, c2, keyed, c1; autorewrite with hook; done..|done|done].
  eexists. split; [done|]. unfold transcript, won. rewrite Hacc, (full_round_size participants partials Hpart).
  assert (Hacc3 : AccumulatedMessages c3 bucketScalarBids = latest bids).
  { unfold c3. rewrite submitted_latest; [done|]. unfold c2, keyed, c1. by autorewrite with hook. }
  split_and!; autorewrite with hook; unfold c5; autorewrite with hook; unfold c4, scored; autorewrite with hook.
  - unfold c3, c2, keyed. by autorewrite with hook.
  - by rewrite Hacc3.
  - unfold c3, c2, keyed, c1. by autorewrite with hook.
Qed.

(** A sealed-bid auction settles.  On the helper-backed pipeline, once the
    session is opened and each participant's key share, bid and partial has
    arrived, resubmissions included, the session is finished; the scoring ran
    on the bids' ciphertexts in the sorted order of their senders and its
    masks are published beside that order; the settlement carries the first
    fused value as the price and the number of partials, and its signature is
    what an observer recomputes from the transcript. *)
Lemma auction_settles r0 sid cohort participants contract params shares bids partials bundle masks values :
  PipelineWithHelper (St := St) h sharpening = inr r0 -> sid <> "" ->
  full_round participants shares -> full_round participants bids -> full_round participants partials ->
  readContractParams (auction_ctx sid cohort participants contract) = inr params ->
  answers participants params (latest bids) (latest partials) bundle masks values ->
  exists c t,
    sessions (runner_run r0 (auction_ops sid cohort participants contract shares bids partials)) !! sid =
      Some (mkTracker c StateNone None true) /\
    ctx_Get c CtxAuctionCipherWinnerBid =
      Some (VBytes (encode_envelope (sort_strings (range_of (latest bids)).*1) (hex_encode <$> masks))) /\
    ctx_Get c CtxAuctionSettlement = Some (VMap t) /\
    map_get "winner" t = Some (winner_map "bidder-determined-by-mask"
      (VFloat64 (default f64_zero (head values))) (zlen participants)) /\
    map_get "signature" t = Some (VString (signTranscript t)).
Proof.
  intros Hr0 Hsid Hsh Hbid Hpart Hr Ha.
  destruct (auction_serves sid cohort participants contract params shares bids partials bundle masks values Hsh Hbid Hpart Hr Ha)
    as (c & Hf & _ & Henv & Hset).
  apply serve_auction_feeds in Hf.
  destruct (composed_runs _ r0 (auction_ops sid cohort participants contract shares bids partials) Hr0 (auction_acyclic _))
    as (_ & _ & Hs & _).
  unfold auction_ops in Hs at 2. rewrite !app_assoc in Hs.
  rewrite (spec_run_feed _ _ _ _ _ _ _ (spec_run_feed _ _ _ _ _ _ _ (spec_run_feed _ _ _ _ _ _ _
    (open_auction_spec sid cohort participants contract Hsid)))), Hf in Hs.
  eexists c, _. split_and!; [by rewrite Hs, map_fmap_singleton, lookup_singleton_eq|exact Henv|exact Hset|done|].
  by apply signature_recomputes.
Qed.

(** A transcript that JSON cannot express is signed with the digest of nothing. *)
Lemma unencodable_signature (t : list (string * any)) :
  encode_map (filter (fun kv => kv.1 <> "signature") t) = None -> signTranscript t = hex_encode (sha256 []).
Proof. unfold signTranscript. by intros ->. Qed.
End auction.
End phases.

(** ** Witness *)

Section witnesses.
#[local] Instance wit_range : GoRange := sorted_range.
#[local] Instance wit_fmt : GoFmt := {| fmt_float := fun _ => ""; fmt_float32 := fun _ => ""; fmt_opaque := fun _ => "" |}.
#[local] Instance wit_clock : Clock := fun n => Z.of_nat n.
#[local] Instance wit_conv : GoConv := {| oob_uint32 := fun _ => 0; oob_int := fun _ => 0 |}.

(** Payloads are hex fields themselves. *)
#[local] Instance wit_json : FormJSON := {|
  json_fields names raw := Some (fun _ => hex_encode raw);
  encode_envelope bidders masks := bytes_of_string (String.concat "," (bidders ++ masks));
  encode_map m := Some [] |}.

Definition wit_helper : Helper := {|
  h_KeygenChain params n := inr (mkBundle [x01] [x02] [x03] []);
  h_Argmax params keys cts poly := inr cts;
  h_FusePartials params partials n := inr [f64_one] |}.

Definition wit_contract : list (string * any) := [("ring_dim", VInt 2048); ("depth", VInt 10)].
Definition wit_round : list (string * bytes) := [("b", [x05]); ("a", [x06])].

Lemma wit_full : full_round ["a"; "b"] wit_round.
Proof. exists [("b", [x05])], "a", [x06]. split_and!; [done|set_solver|reflexivity]. Qed.

Lemma wit_answers poly params :
  answers wit_helper poly ["a"; "b"] params (latest wit_round) (latest wit_round)
    (mkBundle [x01] [x02] [x03] []) [[x06]; [x05]] [f64_one].
Proof.
  split; [done|done|exists [[x06]; [x05]]; split; [|done]|].
  - unfold bid_cts. vm_compute (sort_strings _). repeat constructor; eexists; split; reflexivity.
  - exists ((range_of (latest wit_round)).*2). split; [|done]. vm_compute ((range_of _).*2). repeat constructor.
Qed.

Abbreviation wit_runner := (composed_or_empty (PipelineWithHelper (St := InMemoryStore) wit_helper SharpenSignDegree3)).

Lemma auction_accepted : is_inr (PipelineWithHelper (St := InMemoryStore) wit_helper SharpenSignDegree3) = true.
Proof. vm_compute. reflexivity. Qed.

Lemma auction_settles_witness :
  exists c t,
    sessions (runner_run wit_runner (auction_ops "s" "c" ["a"; "b"] wit_contract wit_round wit_round wit_round)) !! "s" =
      Some (mkTracker c StateNone None true) /\ map_get "signature" t = Some (VString (signTranscript t)).
Proof.
  destruct (auction_settles wit_helper SharpenSignDegree3 wit_runner "s" "c" ["a"; "b"] wit_contract
    (mkParams "" 2048 f64_zero 0 10) wit_round wit_round wit_round (mkBundle [x01] [x02] [x03] []) [[x06]; [x05]] [f64_one]
    (composes _ auction_accepted)) as (c & t & Hs & _ & _ & _ & Hsig).
  - discriminate.
  - exact wit_full.
  - exact wit_full.
  - exact wit_full.
  - reflexivity.
  - apply wit_answers.
  - exists c, t. split; [exact Hs|exact Hsig].
Defined.

(** Every pipeline composes. *)
Lemma auction_pipelines_compose h sharpening sg (peers : gmap string Signer) :
  peers <> ∅ ->
  is_inr (Pipeline (St := InMemoryStore)) = true /\ is_inr (PipelineWithLineage sg peers) = true /\
  is_inr (PipelineWithLineageAndHelper h sharpening sg peers) = true.
Proof.
  intros Hp. split_and!; [vm_compute; reflexivity|..];
    (apply ComposeWith_composes; [vm_compute; reflexivity|done..]).
Qed.
End witnesses.
End SealedBid.
