(* ===== verification/RideShare.v ===== *)
(** * Ride sharing ([examples/ride_share])

    The application's phases with and without the encryption helper, its
    pipelines, and the two readers of the crypto contract it uses. *)

From S2P Require Import Prelude Sha256 Float64 Lineage LineageStore PhaseTypes Compose ComposeTheorems Runner Defaults PipelineSpec Collecting HelperClient HelperPhases.
Import Sha256 Lineage LineageStore PhaseTypes Compose ComposeTheorems Runner Defaults PipelineSpec Collecting HelperClient HelperPhases.

#[local] Open Scope Z_scope.
#[local] Open Scope go_scope.

Module RideShare.

(** ** States and context keys *)

Definition StateInvite : SessionState := "RIDE_INVITE".
Definition StateKeygen : SessionState := "RIDE_KEYGEN".
Definition StateSubmit : SessionState := "RIDE_SUBMIT".
Definition StateScore : SessionState := "RIDE_SCORE".
Definition StateDecrypt : SessionState := "RIDE_DECRYPT".
Definition StateSettle : SessionState := "RIDE_SETTLE".

Definition CtxRideParticipants : string := "ride.participants".
Definition CtxRoles : string := "ride.roles".
Definition CtxRideContract : string := "ride.crypto_ctx".
Definition CtxCollectivePK : string := "ride.collective_pk".
Definition CtxRideShares : string := "ride.secret_shares".
Definition CtxRideEvalKeys : string := "ride.eval_keys".
Definition CtxBids : string := "ride.bids".
Definition CtxWinner : string := "ride.ct_winner".
Definition CtxResult : string := "ride.result".
Definition CtxSettlement : string := "ride.settlement".
Definition bucketKeygenShares : string := "ride.bucket.keygen_shares".
Definition bucketBids : string := "ride.bucket.bids".
Definition bucketDecryptPartials : string := "ride.bucket.decrypt_partials".

(** ** Reading the contract *)

Section contract.
Context `{GoConv}.

(** Key generation and scoring. *)
Definition readRideContractParams (c : SessionContext) : gerror + ContractParams :=
  read_params (mkWidths true false false) "CtxCryptoContract" CtxRideContract c.

(** Decryption. *)
Definition asFloat (m : list (string * any)) (key : string) : float64 :=
  match map_get key m with
  | None => f64_zero
  | Some v => match v with VFloat64 f => f | VInt n | VInt64 n => f64_of_Z n | _ => f64_zero end
  end.

Definition readContractParams (c : SessionContext) : gerror + ContractParams :=
  match contract_map "CtxCryptoContract" CtxRideContract c with
  | inl e => inl e
  | inr contract =>
      inr (mkParams "" (f64_uint32 (asFloat contract "ring_dim")) f64_zero (f64_int (asFloat contract "scaling_mod_size"))
             (f64_uint32 (asFloat contract "depth")))
  end.
End contract.

(** ** Phases *)

Definition PhaseInvite : Phase := {|
  Name := "ride-invite"; Lifetime := LifetimePerSession; RunsAt := RunsAtInline;
  EntryState := StateInvite; ExitState := StateKeygen; InternalStates := []; ConsumedMessageTypes := [];
  Requires := schema [];
  Provides := schema
    [(CtxRideParticipants, gives "[]string"); (CtxRoles, gives "map[string]string");
     (CtxRideContract, gives_with "OpenFHEContract"
        [("depth", VInt 12); ("ring_dim", VInt 2048); ("scaling_mod_size", VInt 40)])];
  Enter := ok; OnMessage := ignore; CheckComplete := Ret true; Exit := ok |}.

Section phases.
Context `{FormJSON} `{GoRange} `{GoConv}.

Definition PhaseKeygen (helper : option Helper) : Phase := {|
  Name := "ride-keygen"; Lifetime := LifetimePerSession; RunsAt := RunsAtInline;
  EntryState := StateKeygen; ExitState := StateSubmit; InternalStates := [];
  ConsumedMessageTypes := ["ride.keygen.share"];
  Requires := schema
    [(CtxRideParticipants, needs "[]string");
     (CtxRideContract, needs_with "OpenFHEContract" [("depth_min", VInt 4)])];
  Provides := schema
    [(CtxCollectivePK, gives "[]byte"); (CtxRideShares, gives "map[string][]byte"); (CtxRideEvalKeys, gives "OpenFHEEvalKeys")];
  Enter := ok; OnMessage := collect bucketKeygenShares;
  CheckComplete := quorum CtxRideParticipants bucketKeygenShares;
  Exit := keygen_Exit "PhaseKeygen" "PhaseKeygen: CtxParticipants is missing or empty" CtxRideParticipants
    CtxCollectivePK CtxRideShares CtxRideEvalKeys bucketKeygenShares readRideContractParams helper |}.

Definition PhaseSubmit : Phase := {|
  Name := "ride-submit"; Lifetime := LifetimePerSession; RunsAt := RunsAtInline;
  EntryState := StateSubmit; ExitState := StateScore; InternalStates := [];
  ConsumedMessageTypes := ["ride.bid"; "ride.request"];
  Requires := schema
    [(CtxRideParticipants, needs "[]string"); (CtxRoles, needs "map[string]string"); (CtxCollectivePK, needs "[]byte");
     (CtxRideContract, needs "OpenFHEContract")];
  Provides := schema [(CtxBids, gives "RideShareBids")];
  Enter := ok; OnMessage := collect bucketBids; CheckComplete := quorum CtxRideParticipants bucketBids;
  Exit := publish CtxBids bucketBids |}.

Definition PhaseScore (helper : option (Helper * EvalPolyParams)) : Phase := {|
  Name := "ride-score"; Lifetime := LifetimePerSession; RunsAt := RunsAtInline;
  EntryState := StateScore; ExitState := StateDecrypt; InternalStates := []; ConsumedMessageTypes := [];
  Requires := schema
    [(CtxRideParticipants, needs "[]string"); (CtxRideContract, needs "OpenFHEContract");
     (CtxRideEvalKeys, needs "OpenFHEEvalKeys"); (CtxBids, needs "RideShareBids")];
  Provides := schema [(CtxWinner, gives "[]byte")];
  Enter := score_Enter "PhaseScore" "PhaseScore: CtxEvalKeys is missing or empty" "PhaseScore: decode bid from %s: %w"
    bucketBids CtxRideEvalKeys CtxWinner "bid_ct" readRideContractParams helper;
  OnMessage := ignore; CheckComplete := Ret true; Exit := ok |}.

Definition result_map (price : any) (driver : string) : any :=
  VMap [("agreed_price", price); ("driver_id", VString driver); ("rider_id", VString "stub-rider")].

Definition PhaseDecrypt (helper : option Helper) : Phase := {|
  Name := "ride-decrypt"; Lifetime := LifetimePerSession; RunsAt := RunsAtInline;
  EntryState := StateDecrypt; ExitState := StateSettle; InternalStates := [];
  ConsumedMessageTypes := ["ride.decrypt.partial"];
  Requires := schema
    [(CtxRideParticipants, needs "[]string"); (CtxRideShares, needs "map[string][]byte"); (CtxWinner, needs "[]byte")];
  Provides := schema [(CtxResult, gives "RideShareResult")];
  Enter := ok; OnMessage := collect bucketDecryptPartials;
  CheckComplete := quorum CtxRideParticipants bucketDecryptPartials;
  Exit := fuse_Exit "PhaseDecrypt" bucketDecryptPartials CtxResult 3 readContractParams helper
    (fun _ => result_map (VInt 0) "stub-driver")
    (fun agreedPrice _ => result_map (VFloat64 agreedPrice) "winner-determined-by-mask") |}.

Definition PhaseSettle : Phase := {|
  Name := "ride-settle"; Lifetime := LifetimePerSession; RunsAt := RunsAtInline;
  EntryState := StateSettle; ExitState := StateNone; InternalStates := []; ConsumedMessageTypes := [];
  Requires := schema [(CtxResult, needs "RideShareResult")];
  Provides := schema [(CtxSettlement, gives "SignedTranscript")];
  Enter := settle_Enter CtxResult CtxSettlement "result" "rideshare";
  OnMessage := ignore; CheckComplete := Ret true; Exit := ok |}.

(** ** Pipelines *)

Definition ride_phases (helper : option (Helper * EvalPolyParams)) : list Phase :=
  [PhaseInvite; PhaseKeygen (fst <$> helper); PhaseSubmit; PhaseScore helper; PhaseDecrypt (fst <$> helper); PhaseSettle].

Definition Pipeline `{GoFmt} {St} : gerror + SessionRunner St := Compose (ride_phases None).

Definition PipelineWithHelper `{GoFmt} {St} (helper : Helper) (sharpening : EvalPolyParams) : gerror + SessionRunner St :=
  Compose (ride_phases (Some (helper, sharpening))).

Definition PipelineWithLineage `{GoFmt} (sg : Signer) (peers : gmap string Signer)
    : gerror + SessionRunner (InMemoryStore + InMemoryStore) :=
  ComposeWith (ride_phases None) [WithSigner sg; WithPeerVerifiers peers; WithStore NewInMemoryStore].

Definition PipelineWithLineageAndHelper `{GoFmt} (helper : Helper) (sharpening : EvalPolyParams) (sg : Signer)
    (peers : gmap string Signer) : gerror + SessionRunner (InMemoryStore + InMemoryStore) :=
  ComposeWith (ride_phases (Some (helper, sharpening)))
    [WithSigner sg; WithPeerVerifiers peers; WithStore NewInMemoryStore].
End phases.

(** ** The two readers *)

Section readers.
Context `{GoConv}.

(** Entries on which both readers agree: any float, and small integers of type
    [int]. *)
Definition portable (bound : Z) (v : any) : Prop :=
  match v with
  | VFloat64 _ => True
  | VInt n => 0 <= n < bound
  | _ => False
  end.

Lemma f64_uint32_of_Z n : 0 <= n < 2 ^ 32 -> f64_uint32 (f64_of_Z n) = wrap32u n.
Proof.
  intros Hn. unfold f64_uint32. rewrite f64_trunc_of_Z by lia. unfold wrap32u. rewrite (Z.mod_small n) by lia.
  destruct (Z.leb_spec 0 n), (Z.ltb_spec n (2 ^ 32)); cbn; (done || lia).
Qed.

Lemma f64_int_of_Z n : 0 <= n < 2 ^ 53 -> f64_int (f64_of_Z n) = n.
Proof.
  intros Hn. unfold f64_int. rewrite f64_trunc_of_Z by lia.
  destruct (Z.leb_spec (- 2 ^ 63) n), (Z.ltb_spec n (2 ^ 63)); cbn; (done || lia).
Qed.

Lemma asUint_asFloat contract k v :
  map_get k contract = Some v -> portable (2 ^ 32) v ->
  asUint (mkWidths true false false) contract k = inr (f64_uint32 (asFloat contract k)).
Proof.
  intros Hk Hv. unfold asUint, asFloat. rewrite Hk. destruct v; try done. by rewrite f64_uint32_of_Z.
Qed.

Lemma asInt_asFloat contract k v :
  map_get k contract = Some v -> portable (2 ^ 53) v -> asInt (mkWidths true false false) contract k = f64_int (asFloat contract k).
Proof. intros Hk Hv. unfold asInt, asFloat. rewrite Hk. destruct v; try done. by rewrite f64_int_of_Z. Qed.

(** Decryption runs under the parameters of scoring when the contract comes
    from JSON or holds small [int]s: on contracts whose three entries are
    floats or non-negative [int]s in range, the two readers of the contract
    return the same parameters.  On a [uint32] ring dimension, which key
    generation and scoring accept, the decryption reads a ring of size 0. *)
Lemma ride_contract_readers c contract vr vd vs :
  ctx_Get c CtxRideContract = Some (VMap contract) ->
  map_get "ring_dim" contract = Some vr -> map_get "depth" contract = Some vd ->
  map_get "scaling_mod_size" contract = Some vs ->
  (portable (2 ^ 32) vr -> portable (2 ^ 32) vd -> portable (2 ^ 53) vs ->
   readContractParams c = readRideContractParams c) /\
  (forall n, vr = VUint32 n -> portable (2 ^ 32) vd ->
   exists p q, readRideContractParams c = inr p /\ RingDim p = n /\ readContractParams c = inr q /\ RingDim q = 0).
Proof.
  intros Hc Hr Hd Hs. unfold readContractParams, readRideContractParams, read_params, contract_map. rewrite Hc. cbn. split.
  - intros Hpr Hpd Hps.
    rewrite (asUint_asFloat contract "ring_dim" vr), (asUint_asFloat contract "depth" vd), (asInt_asFloat contract _ vs) by done.
    done.
  - intros n -> Hpd. rewrite (asUint_asFloat contract "depth" vd) by done. unfold asUint. rewrite Hr.
    do 2 eexists. split_and!; [done|done|done|]. cbn. unfold asFloat. by rewrite Hr.
Qed.
End readers.

(** ** Witness *)

Section witnesses.
#[local] Instance wit_range : GoRange := sorted_range.
#[local] Instance wit_fmt : GoFmt := {| fmt_float := fun _ => ""; fmt_float32 := fun _ => ""; fmt_opaque := fun _ => "" |}.
#[local] Instance wit_conv : GoConv := {| oob_uint32 := fun _ => 0; oob_int := fun _ => 0 |}.
#[local] Instance wit_json : FormJSON := {|
  json_fields names raw := None; encode_envelope bidders masks := []; encode_map m := None |}.

Definition wit_contract : list (string * any) :=
  [("ring_dim", VInt 2048); ("depth", VInt 12); ("scaling_mod_size", VInt 40)].

Lemma ride_contract_readers_witness :
  let c := ctx_Set (NewSessionContext "s") CtxRideContract (VMap wit_contract) in
  readContractParams c = readRideContractParams c.
Proof.
  apply (ride_contract_readers (ctx_Set (NewSessionContext "s") CtxRideContract (VMap wit_contract)) wit_contract
    (VInt 2048) (VInt 12) (VInt 40)); try reflexivity; cbn; lia.
Defined.

(** Every pipeline composes. *)
Lemma ride_pipelines_compose h sharpening sg (peers : gmap string Signer) :
  peers <> ∅ ->
  is_inr (Pipeline (St := InMemoryStore)) = true /\ is_inr (PipelineWithHelper (St := InMemoryStore) h sharpening) = true /\
  is_inr (PipelineWithLineage sg peers) = true /\ is_inr (PipelineWithLineageAndHelper h sharpening sg peers) = true.
Proof.
  intros Hp. split_and!; [vm_compute; reflexivity|vm_compute; reflexivity|..];
    (apply ComposeWith_composes; [vm_compute; reflexivity|done..]).
Qed.
End witnesses.
End RideShare.
