(* ===== verification/CohortRanking.v ===== *)
(** * Recurring cohort ranking ([examples/recurring_cohort_ranking])

    Cohort formation and the weekly ranking: the phases of both, their
    pipelines, and what composing and running them does. *)

From S2P Require Import Prelude Sha256 Float64 Lineage LineageStore PhaseTypes Compose ComposeTheorems Runner RunnerInvariant RunnerTheorems Defaults PipelineSpec Collecting HelperClient HelperPhases.
Import Sha256 Lineage LineageStore PhaseTypes Compose ComposeTheorems Runner RunnerInvariant RunnerTheorems Defaults PipelineSpec Collecting HelperClient HelperPhases.

#[local] Open Scope Z_scope.
#[local] Open Scope go_scope.

Module CohortRanking.
#[local] Open Scope prog_scope.

(** ** States and context keys *)

Definition StateCohortForming : SessionState := "COHORT_FORMING".
Definition StateCohortKeygen : SessionState := "COHORT_KEYGEN".
Definition StateCohortSealed : SessionState := "COHORT_SEALED".
Definition StateRankingInviting : SessionState := "RANKING_INVITING".
Definition StateRankingLocked : SessionState := "RANKING_LOCKED".
Definition StateRankingBidding : SessionState := "RANKING_BIDDING".
Definition StateRankingScoring : SessionState := "RANKING_SCORING".
Definition StateRankingDecrypt : SessionState := "RANKING_DECRYPT".
Definition StateRankingSettled : SessionState := "RANKING_SETTLED".

Definition CtxRankingParticipants : string := "ranking.participants".
Definition CtxCohortID : string := "ranking.cohort_id".
Definition CtxRankingContract : string := "ranking.crypto_ctx".
Definition CtxRankingPK : string := "ranking.collective_pk".
Definition CtxRankingShares : string := "ranking.secret_shares".
Definition CtxRankingEvalKeys : string := "ranking.eval_keys".
Definition CtxRatings : string := "ranking.ratings".
Definition CtxWinnerRating : string := "ranking.ct_winner".
Definition CtxRankingWinner : string := "ranking.winner".
Definition CtxTranscript : string := "ranking.transcript".
Definition bucketCohortKeygenShares : string := "cohort.bucket.keygen_shares".
Definition bucketRatings : string := "ranking.bucket.ratings".
Definition bucketDecryptPartials : string := "ranking.bucket.decrypt_partials".

(** ** Formation *)

Definition PhaseCohortForm : Phase := {|
  Name := "cohort-form"; Lifetime := LifetimePerCohort; RunsAt := RunsAtInline;
  EntryState := StateCohortForming; ExitState := StateCohortKeygen; InternalStates := []; ConsumedMessageTypes := [];
  Requires := schema [];
  Provides := schema [(CtxRankingParticipants, gives "[]string"); (CtxCohortID, gives "string")];
  Enter := ok; OnMessage := ignore; CheckComplete := Ret true; Exit := ok |}.

Section phases.
Context `{FormJSON} `{GoRange} `{GoConv}.

Definition readCohortContractParams (c : SessionContext) : gerror + ContractParams :=
  read_params (mkWidths false false false) "CtxCryptoContract" CtxRankingContract c.

Definition default_contract : any := VMap [("depth", VInt 10); ("ring_dim", VInt 2048)].

(** [if !ctx.Has(key) { ctx.Set(key, v) }]. *)
Definition set_if_missing (key : string) (v : any) : Prog unit :=
  let* present := hHas key in if negb present then hSet key v else Ret tt.

Definition ck_Exit (helper : option Helper) : Prog (option gerror) :=
  let* c := hContext in
  let shares := VBucket (AccumulatedMessages c bucketCohortKeygenShares) in
  if preshared c CtxRankingPK CtxRankingEvalKeys then
    hSet CtxRankingShares shares ;; set_if_missing CtxRankingContract default_contract ;; Ret None
  else match helper with
  | None =>
      hSet CtxRankingPK stub_pk ;; hSet CtxRankingShares shares ;; hSet CtxRankingEvalKeys stub_keys ;;
      hSet CtxRankingContract default_contract ;; Ret None
  | Some h =>
      match TryGet as_strings c CtxRankingParticipants with
      | None | Some [] => Ret (Some (Errorf "PhaseCohortKeygen: CtxParticipants is missing or empty" [] []))
      | Some participants =>
          let params := match readCohortContractParams c with
                        | inr p => p
                        | inl _ => mkParams "" 2048 f64_zero 50 10
                        end in
          match h_KeygenChain h params (zlen participants) with
          | inl e => Ret (Some (Errorf "PhaseCohortKeygen: helper.KeygenChain: %w" [] [e]))
          | inr bundle =>
              hSet CtxRankingPK (VBytes (eb_PublicKey bundle)) ;; hSet CtxRankingShares shares ;;
              hSet CtxRankingEvalKeys (VBytes (eb_EvalKeys bundle)) ;;
              set_if_missing CtxRankingContract (VMap [("depth", VInt (Depth params)); ("ring_dim", VInt (RingDim params))]) ;;
              Ret None
          end
      end
  end.

Definition PhaseCohortKeygen (helper : option Helper) : Phase := {|
  Name := "cohort-keygen"; Lifetime := LifetimePerCohort; RunsAt := RunsAtInline;
  EntryState := StateCohortKeygen; ExitState := StateCohortSealed; InternalStates := [];
  ConsumedMessageTypes := ["cohort.keygen.share"];
  Requires := schema [(CtxRankingParticipants, needs "[]string")];
  Provides := schema
    [(CtxRankingPK, gives_with "[]byte" [("topology", VString "preshared")]);
     (CtxRankingShares, gives_with "map[string][]byte" [("topology", VString "preshared")]);
     (CtxRankingEvalKeys, gives "OpenFHEEvalKeys");
     (CtxRankingContract, gives_with "OpenFHEContract" [("depth", VInt 10); ("ring_dim", VInt 2048)])];
  Enter := ok; OnMessage := collect bucketCohortKeygenShares;
  CheckComplete := quorum CtxRankingParticipants bucketCohortKeygenShares; Exit := ck_Exit helper |}.

(** ** The weekly session *)

Definition PhaseRankingInvitation : Phase := {|
  Name := "ranking-invitation"; Lifetime := LifetimePerSession; RunsAt := RunsAtInline;
  EntryState := StateRankingInviting; ExitState := StateRankingLocked; InternalStates := []; ConsumedMessageTypes := [];
  Requires := schema [(CtxRankingParticipants, needs "[]string")];
  Provides := schema [(CtxRankingParticipants, gives "[]string")];
  Enter := ok; OnMessage := ignore; CheckComplete := Ret true; Exit := ok |}.

Definition PhasePreSharedKeyLookup : Phase := {|
  Name := "ranking-key-lookup"; Lifetime := LifetimePerCohort; RunsAt := RunsAtInline;
  EntryState := StateRankingLocked; ExitState := StateRankingBidding; InternalStates := []; ConsumedMessageTypes := [];
  Requires := schema
    [(CtxRankingPK, needs "[]byte"); (CtxRankingShares, needs "map[string][]byte");
     (CtxRankingEvalKeys, needs "OpenFHEEvalKeys")];
  Provides := schema [];
  Enter := require_keys "ranking-key-lookup" [CtxRankingPK; CtxRankingShares; CtxRankingEvalKeys];
  OnMessage := ignore; CheckComplete := Ret true; Exit := ok |}.

Definition PhaseSubmitRating : Phase := {|
  Name := "ranking-submit-rating"; Lifetime := LifetimePerSession; RunsAt := RunsAtInline;
  EntryState := StateRankingBidding; ExitState := StateRankingScoring; InternalStates := [];
  ConsumedMessageTypes := ["ranking.rating"];
  Requires := schema [(CtxRankingParticipants, needs "[]string")];
  Provides := schema [(CtxRatings, gives "map[string][]byte")];
  Enter := ok; OnMessage := collect bucketRatings; CheckComplete := quorum CtxRankingParticipants bucketRatings;
  Exit := publish CtxRatings bucketRatings |}.

Definition PhaseArgmaxScoring (helper : option (Helper * EvalPolyParams)) : Phase := {|
  Name := "ranking-argmax-scoring"; Lifetime := LifetimePerSession; RunsAt := RunsAtInline;
  EntryState := StateRankingScoring; ExitState := StateRankingDecrypt; InternalStates := []; ConsumedMessageTypes := [];
  Requires := schema
    [(CtxRankingParticipants, needs "[]string");
     (CtxRankingContract, needs_with "OpenFHEContract" [("depth_min", VInt 8)]);
     (CtxRankingEvalKeys, needs "OpenFHEEvalKeys"); (CtxRatings, needs "map[string][]byte")];
  Provides := schema [(CtxWinnerRating, gives "[]byte")];
  Enter := score_Enter "PhaseArgmaxScoring" "PhaseArgmaxScoring: CtxEvalKeys is missing or empty"
    "PhaseArgmaxScoring: decode rating from %s: %w" bucketRatings CtxRankingEvalKeys CtxWinnerRating "rating_ct"
    readCohortContractParams helper;
  OnMessage := ignore; CheckComplete := Ret true; Exit := ok |}.

Definition winner_of (rating : any) (id : string) : any := VMap [("winner_rating", rating); ("winner_id", VString id)].

Definition PhaseThresholdDecrypt (helper : option Helper) : Phase := {|
  Name := "ranking-threshold-decrypt"; Lifetime := LifetimePerSession; RunsAt := RunsAtInline;
  EntryState := StateRankingDecrypt; ExitState := StateRankingSettled; InternalStates := [];
  ConsumedMessageTypes := ["ranking.decrypt.partial"];
  Requires := schema
    [(CtxRankingParticipants, needs "[]string"); (CtxRankingShares, needs "map[string][]byte");
     (CtxWinnerRating, needs "[]byte")];
  Provides := schema [(CtxRankingWinner, gives "WinnerRating")];
  Enter := ok; OnMessage := collect bucketDecryptPartials;
  CheckComplete := quorum CtxRankingParticipants bucketDecryptPartials;
  Exit := fuse_Exit "PhaseThresholdDecrypt" bucketDecryptPartials CtxRankingWinner 1 readCohortContractParams helper
    (fun _ => winner_of (VInt 0) "stub-cohort-winner")
    (fun rating _ => winner_of (VFloat64 rating) "winner-determined-by-mask") |}.

Definition PhaseSettleRanking : Phase := {|
  Name := "ranking-settle"; Lifetime := LifetimePerSession; RunsAt := RunsAtInline;
  EntryState := StateRankingSettled; ExitState := StateNone; InternalStates := []; ConsumedMessageTypes := [];
  Requires := schema [(CtxRankingWinner, needs "WinnerRating")];
  Provides := schema [(CtxTranscript, gives "SignedTranscript")];
  Enter := settle_Enter CtxRankingWinner CtxTranscript "winner" "cohort";
  OnMessage := ignore; CheckComplete := Ret true; Exit := ok |}.

(** ** Pipelines *)

Definition formation_phases (helper : option Helper) : list Phase := [PhaseCohortForm; PhaseCohortKeygen helper].

Definition weekly_phases (helper : option (Helper * EvalPolyParams)) : list Phase :=
  [PhaseRankingInvitation; PhasePreSharedKeyLookup; PhaseSubmitRating; PhaseArgmaxScoring helper;
   PhaseThresholdDecrypt (fst <$> helper); PhaseSettleRanking].

Section pipelines.
Context `{GoFmt} {St : Type}.

Definition FormationPipeline : gerror + SessionRunner St := Compose (formation_phases None).
Definition FormationPipelineWithHelper (helper : Helper) : gerror + SessionRunner St :=
  Compose (formation_phases (Some helper)).
Definition WeeklyPipeline : gerror + SessionRunner St := Compose (weekly_phases None).
Definition WeeklyPipelineWithHelper (helper : Helper) (sharpening : EvalPolyParams) : gerror + SessionRunner St :=
  Compose (weekly_phases (Some (helper, sharpening))).

Definition lineage (store : St) (sg : Signer) (peers : gmap string Signer) : list (ComposeOption St) :=
  [WithSigner sg; WithPeerVerifiers peers; WithStore store].

Definition FormationPipelineWithLineage store sg peers : gerror + SessionRunner (InMemoryStore + St) :=
  ComposeWith (formation_phases None) (lineage store sg peers).
Definition FormationPipelineWithLineageAndHelper helper store sg peers : gerror + SessionRunner (InMemoryStore + St) :=
  ComposeWith (formation_phases (Some helper)) (lineage store sg peers).
Definition WeeklyPipelineWithLineage store sg peers : gerror + SessionRunner (InMemoryStore + St) :=
  ComposeWith (weekly_phases None) (lineage store sg peers).
Definition WeeklyPipelineWithLineageAndHelper helper sharpening store sg peers
    : gerror + SessionRunner (InMemoryStore + St) :=
  ComposeWith (weekly_phases (Some (helper, sharpening))) (lineage store sg peers).
End pipelines.

(** ** What they do *)

Section theorems.
Context `{GoFmt} {St : Type} `{Store St} `{Clock}.

Lemma weekly_refused {S} helper : exists e, Compose (St := S) (weekly_phases helper) = inl e /\ errors_Is e ErrPermanent = true.
Proof.
  apply (Compose_rejects [] PhaseRankingInvitation
    [PhasePreSharedKeyLookup; PhaseSubmitRating; PhaseArgmaxScoring helper; PhaseThresholdDecrypt (fst <$> helper); PhaseSettleRanking]
    CtxRankingParticipants (needs "[]string")); [done|].
  intros Hs. unfold satisfied in Hs. cbn in Hs. done.
Qed.

(** No weekly session can be run from its constructors: each of the four
    weekly pipelines is refused with a permanent error, whatever helper,
    store, signer and peers it is given, since nothing in the pipeline
    provides the participants its first phase requires. *)
Lemma weekly_never_composes helper sharpening (store : St) sg peers :
  (exists e, WeeklyPipeline (St := St) = inl e /\ errors_Is e ErrPermanent = true) /\
  (exists e, WeeklyPipelineWithHelper (St := St) helper sharpening = inl e /\ errors_Is e ErrPermanent = true) /\
  (exists e, WeeklyPipelineWithLineage store sg peers = inl e /\ errors_Is e ErrPermanent = true) /\
  (exists e, WeeklyPipelineWithLineageAndHelper helper sharpening store sg peers = inl e /\ errors_Is e ErrPermanent = true).
Proof.
  assert (Hw : forall h, exists e, ComposeWith (weekly_phases h) (lineage store sg peers) = inl e /\ errors_Is e ErrPermanent = true).
  { intros h. unfold ComposeWith. cbn [foldl lineage apply_option]. cbn -[Compose weekly_phases msize needsPeers].
    destruct (_ && _); [eauto|]. destruct (weekly_refused (S := InMemoryStore + St) h) as (e & He & Hp). rewrite He.
    eexists. split; [done|]. cbn. by rewrite Hp. }
  split_and!; [apply weekly_refused|apply weekly_refused|apply Hw|apply Hw].
Qed.

(** *** Formation *)

Lemma formation_acyclic helper : acyclic (formation_phases helper).
Proof. intros q [= <-]. cbn. set_solver. Qed.

Lemma formation_open_ended helper : open_ended (inline (formation_phases helper)).
Proof. by intros q [= <-]. Qed.

Lemma cohort_keygen_collects helper :
  collects (PhaseCohortKeygen helper) "cohort.keygen.share" CtxRankingParticipants bucketCohortKeygenShares.
Proof. by split. Qed.

Definition open_formation (sid cohort : string) (participants : list string) : list runner_op :=
  [RBegin sid cohort; RSeed sid CtxRankingParticipants (VStrings participants); RAdvance sid StateCohortKeygen].

Definition formation_ctx (sid cohort : string) (participants : list string) : SessionContext :=
  ctx_Set (NewSessionContext sid <| CohortID := cohort |>) CtxRankingParticipants (VStrings participants).

Lemma open_formation_spec helper sid cohort participants :
  sid <> "" ->
  spec_run (formation_phases helper) None (open_formation sid cohort participants) =
  {[ sid := mkSession (formation_ctx sid cohort participants) [PhaseCohortKeygen helper] true ]}.
Proof.
  intros Hsid. unfold spec_run, open_formation. cbn [foldl]. unfold spec_step at 3.
  destruct (String.eqb_spec sid ""); [done|]. rewrite lookup_empty.
  change (s_begin (formation_phases helper) None sid cohort) with
    (Some (mkSession (NewSessionContext sid <| CohortID := cohort |>) (formation_phases helper) true, Good tt)).
  cbn iota. unfold spec_step at 2. rewrite alter_insert_eq. unfold spec_step. by rewrite alter_insert_eq.
Qed.

(** The keys a formed cohort leaves in its context. *)
Definition sealed (c : SessionContext) (bundle : EvalKeyBundle) : SessionContext :=
  ctx_Set (ctx_Set (ctx_Set (ctx_Set c CtxRankingPK (VBytes (eb_PublicKey bundle)))
    CtxRankingShares (VBucket (AccumulatedMessages c bucketCohortKeygenShares)))
    CtxRankingEvalKeys (VBytes (eb_EvalKeys bundle))) CtxRankingContract default_contract.

Lemma hook_set_missing {A} key v (k : unit -> Prog A) c :
  ctx_Get c key = None -> hook (pbind (set_if_missing key v) k) c = hook (k tt) (ctx_Set c key v).
Proof.
  intros Hg. assert (Hh : ctx_Has c key = false).
  { unfold ctx_Has. apply bool_decide_eq_false. unfold ctx_Get in Hg. rewrite Hg. by intros [? ?]. }
  unfold set_if_missing. cbn. by rewrite Hh, touch_id.
Qed.

Lemma ck_Exit_helper h c participants bundle :
  preshared c CtxRankingPK CtxRankingEvalKeys = false ->
  TryGet as_strings c CtxRankingParticipants = Some participants -> participants <> [] ->
  ctx_Get c CtxRankingContract = None ->
  h_KeygenChain h (mkParams "" 2048 f64_zero 50 10) (zlen participants) = inr bundle ->
  hook (ck_Exit (Some h)) c = (sealed c bundle, Ok None).
Proof.
  intros Hpre Hp Hne Hct Hk. unfold ck_Exit. hooks. rewrite Hpre, Hp. destruct participants as [|x l]; [done|].
  unfold readCohortContractParams, read_params, contract_map. rewrite Hct.
  cbn -[h_KeygenChain zlen pbind set_if_missing hSet]. rewrite Hk. hooks. rewrite hook_set_missing; [done|].
  by autorewrite with hook.
Qed.

(** C39: cohort formation delivers its keys and never ends.  On the helper-backed
    pipeline, once every participant's share is in, the context holds the
    collective key, the evaluation keys, each sender's latest share and the
    contract; but the completing message itself is answered with an error that
    no phase claims COHORT_SEALED, the session stays in the key generation
    phase, and no sequence of operations finishes any session. *)
Theorem formation_never_finishes h (r0 : SessionRunner St) sid cohort participants pre from share bundle :
  FormationPipelineWithHelper h = inr r0 -> sid <> "" ->
  from ∉ pre.*1 -> length participants = S (size (list_to_set pre.*1 : gset string)) ->
  h_KeygenChain h (mkParams "" 2048 f64_zero 50 10) (zlen participants) = inr bundle ->
  (exists r c,
    HandleMessage (runner_run r0 (open_formation sid cohort participants ++ messages sid "cohort.keygen.share" pre))
      sid "cohort.keygen.share" from share = (r, Bad (unclaimed (PhaseCohortKeygen (Some h)))) /\
    sessions r !! sid = Some (mkTracker c StateCohortKeygen (Some (PhaseCohortKeygen (Some h))) true) /\
    ctx_Get c CtxRankingPK = Some (VBytes (eb_PublicKey bundle)) /\
    ctx_Get c CtxRankingEvalKeys = Some (VBytes (eb_EvalKeys bundle)) /\
    ctx_Get c CtxRankingShares = Some (VBucket (latest (pre ++ [(from, share)]))) /\
    ctx_Get c CtxRankingContract = Some default_contract) /\
  (forall ops sid' t, sessions (runner_run r0 ops) !! sid' = Some t -> current t <> None).
Proof.
  intros Hr0 Hsid Hf Hlen Hk.
  split; [|intros ops sid' t; exact (never_finished _ r0 ops sid' t Hr0 (formation_acyclic _) (formation_open_ended _))].
  set (ops := open_formation sid cohort participants ++ _).
  destruct (composed_runs _ r0 ops Hr0 (formation_acyclic _)) as (Hok & Hc & Hr).
  unfold ops in Hr at 2. rewrite (spec_run_feed _ _ _ _ _ _ _ (open_formation_spec (Some h) sid cohort participants Hsid)) in Hr.
  set (c0 := formation_ctx sid cohort participants) in *.
  set (c1 := submitted c0 bucketCohortKeygenShares (pre ++ [(from, share)])).
  assert (Hps : TryGet as_strings c0 CtxRankingParticipants = Some participants)
    by (unfold c0, formation_ctx; by autorewrite with hook).
  assert (Hm : s_message (feed "cohort.keygen.share" (mkSession c0 [PhaseCohortKeygen (Some h)] true) pre)
    "cohort.keygen.share" from share =
    (mkSession (sealed c1 bundle) [PhaseCohortKeygen (Some h)] true, Bad (unclaimed (PhaseCohortKeygen (Some h))))).
  { rewrite (round_message _ _ _ _ (cohort_keygen_collects (Some h)) _ _ _ participants) by done. fold c1. cbn [leave].
    unfold guarded. cbn [Exit PhaseCohortKeygen]. rewrite (ck_Exit_helper h c1 participants bundle); try done.
    - unfold preshared, c1. by autorewrite with hook.
    - unfold c1. by autorewrite with hook.
    - by intros ->.
    - unfold c1. by autorewrite with hook. }
  destruct (HandleMessage_represents _ Hok (formation_acyclic _) _ _ sid "cohort.keygen.share" from share Hc Hr) as [(Hs & _) Hres].
  destruct (HandleMessage _ _ _ _ _) as [r res]. cbn [fst snd] in Hs, Hres.
  rewrite (Hres _ (lookup_singleton_eq _ _)), Hm. exists r, (sealed c1 bundle). rewrite Hs, alter_singleton_eq, Hm, map_fmap_singleton, lookup_singleton_eq.
  split_and!; try done; unfold sealed; autorewrite with hook; try done.
  unfold c1. by rewrite submitted_latest.
Qed.
End theorems.
End phases.

(** ** Witness *)

Section witnesses.
#[local] Instance wit_range : GoRange := sorted_range.
#[local] Instance wit_fmt : GoFmt := {| fmt_float := fun _ => ""; fmt_float32 := fun _ => ""; fmt_opaque := fun _ => "" |}.
#[local] Instance wit_clock : Clock := fun n => Z.of_nat n.
#[local] Instance wit_conv : GoConv := {| oob_uint32 := fun _ => 0; oob_int := fun _ => 0 |}.
#[local] Instance wit_json : FormJSON := {|
  json_fields names raw := None;
  encode_envelope bidders masks := [];
  encode_map m := Some [] |}.

Definition wit_helper : Helper := {|
  h_KeygenChain params n := inr (mkBundle [x01] [x02] [x03] []);
  h_Argmax params keys cts poly := inr cts;
  h_FusePartials params partials n := inr [f64_one] |}.

Abbreviation wit_runner := (composed_or_empty (FormationPipelineWithHelper (St := InMemoryStore) wit_helper)).

Lemma formation_accepted : is_inr (FormationPipelineWithHelper (St := InMemoryStore) wit_helper) = true.
Proof. vm_compute. reflexivity. Qed.

Lemma formation_never_finishes_witness :
  exists r, HandleMessage (runner_run wit_runner (open_formation "s" "c" ["a"; "b"] ++
      messages "s" "cohort.keygen.share" [("b", [x05])])) "s" "cohort.keygen.share" "a" [x06] =
    (r, Bad (unclaimed (PhaseCohortKeygen (Some wit_helper)))).
Proof.
  destruct (formation_never_finishes wit_helper wit_runner "s" "c" ["a"; "b"] [("b", [x05])] "a" [x06]
    (mkBundle [x01] [x02] [x03] []) (composes _ formation_accepted)) as [(r & c & Hh & _) _].
  - discriminate.
  - cbn. set_solver.
  - reflexivity.
  - reflexivity.
  - exists r. exact Hh.
Defined.

(** The other formation pipelines compose too. *)
Lemma formation_pipelines_compose h (st : InMemoryStore) sg (peers : gmap string Signer) :
  peers <> ∅ ->
  is_inr (FormationPipeline (St := InMemoryStore)) = true /\ is_inr (FormationPipelineWithLineage st sg peers) = true /\
  is_inr (FormationPipelineWithLineageAndHelper h st sg peers) = true.
Proof.
  intros Hp. split_and!; [vm_compute; reflexivity|..];
    (apply ComposeWith_composes; [vm_compute; reflexivity|done..]).
Qed.
End witnesses.
End CohortRanking.
