(* ===== verification/AuthClient.v ===== *)
(** * Credentials ([pkg/ares/authclient])

    The issuer of signed credentials, their verification, and the HTTP service
    that turns a credential into the token the WebSocket hub accepts. *)

From S2P Require Import Prelude Sha256 Float64 Base64 Lineage Transport.
Import Sha256 Base64 Transport.

#[local] Open Scope Z_scope.
#[local] Open Scope go_scope.

Module AuthClient.

(** ** Claims *)

Definition CredentialVersion : Z := 1.

Record Claims := mkClaims {
  ClaimVersion : Z;
  ClaimIssuer : string;
  AccountID : string;
  SubjectHash : string;
  ClaimProvider : string;
  TokenHash : string;
  Nonce : string;
  IssuedAt : Z;
  ExpiresAt : Z
}.

Record Envelope := mkEnvelope { env_Claims : Claims; env_Signature : string }.

#[export] Instance Claims_eq_dec : EqDecision Claims.
Proof. solve_decision. Defined.

Inductive cred_error :=
| ErrMissingSigningKey
| ErrCredentialSignature
| ErrCredentialExpired
| ErrDecode
| ErrRandom
| ErrVersion (got : Z)
| ErrIssuer (got want : string).

(** [encoding/json] on envelopes; decoding may fail. *)
Class CredJSON := {
  marshal : Envelope -> bytes;
  unmarshal : bytes -> option Envelope;
  json_Valid : bytes -> bool
}.

Definition ascii_string (s : string) : Prop := Forall (fun b => Z_of_byte b < 128) (bytes_of_string s).

(** Go strings need not be UTF-8, and JSON replaces bytes that are not; ASCII
    strings survive. *)
Definition wire_ok (e : Envelope) : Prop :=
  let c := env_Claims e in
  Forall ascii_string [ClaimIssuer c; AccountID c; SubjectHash c; ClaimProvider c; TokenHash c; Nonce c; env_Signature e] /\
  Forall in_int64 [ClaimVersion c; IssuedAt c; ExpiresAt c].

Class CredJSONLaws `{CredJSON} := {
  unmarshal_marshal : forall e, wire_ok e -> unmarshal (marshal e) = Some e;
  valid_marshal : forall e, json_Valid (marshal e) = true;
  marshal_object : forall e, exists s, marshal e = "{"%byte :: s
}.

(** ** Signing *)

Definition hashString (value : string) : string := hex_encode (sha256 (bytes_of_string value)).

Definition canonical (c : Claims) : list string :=
  sort_strings
    ["account_id=" +:+ AccountID c; "expires_at=" +:+ pretty (ExpiresAt c); "issued_at=" +:+ pretty (IssuedAt c);
     "issuer=" +:+ ClaimIssuer c; "nonce=" +:+ Nonce c; "provider=" +:+ ClaimProvider c;
     "subject_hash=" +:+ SubjectHash c; "token_hash=" +:+ TokenHash c; "version=" +:+ pretty (ClaimVersion c)].

(** What is written to the MAC. *)
Definition mac_input (parts : list string) : bytes := concat ((fun p => bytes_of_string p ++ [x00]) <$> parts).

Definition sign (key : bytes) (c : Claims) : string := hex_encode (hmac_sha256 key (mac_input (canonical c))).

(** ** The issuer *)

(** Times and durations in nanoseconds. *)
Definition unix (t : Z) : Z := wrap64 (t / 1000000000).
Definition day : Z := 24 * 3600 * 1000000000.

Record Issuer := mkIssuer { IssuerName : string; SigningKey : bytes; TTL : Z }.

Definition NewIssuer (issuerName : string) (signingKey : bytes) : Issuer := mkIssuer issuerName signingKey (30 * day).

(** The value of the environment variable is an argument; unset is empty. *)
Definition SigningKeyFromEnv (raw : string) (production : bool) : bytes :=
  if negb (String.eqb raw "") then
    match hex_decode raw with
    | Some decoded => if 32 <=? zlen decoded then decoded else bytes_of_string raw
    | None => bytes_of_string raw
    end
  else if production then []
  else bytes_of_string "ares-dev-credential-signing-key-do-not-use".

Section issuer.
Context `{CredJSON}.

(** [rnd] is what [rand.Read] delivers, [None] its error. *)
Definition IssueWithTokenHash (s : Issuer) (now : Z) (rnd : option bytes) (accountID provider tokenHash : string)
    : cred_error + bytes :=
  if zlen (SigningKey s) =? 0 then inl ErrMissingSigningKey
  else match rnd with
  | None => inl ErrRandom
  | Some buf =>
      let nonce := hex_encode buf in
      let ttl := if TTL s <=? 0 then 30 * day else TTL s in
      let claims := {|
        ClaimVersion := CredentialVersion; ClaimIssuer := IssuerName s; AccountID := accountID;
        SubjectHash := hashString (IssuerName s +:+ "|" +:+ provider +:+ "|" +:+ accountID +:+ "|" +:+ nonce);
        ClaimProvider := provider; TokenHash := tokenHash; Nonce := nonce;
        IssuedAt := unix now; ExpiresAt := unix (now + ttl) |} in
      inr (marshal (mkEnvelope claims (sign (SigningKey s) claims)))
  end.

Definition Issue (s : Issuer) (now : Z) (rnd : option bytes) (accountID provider : string) : cred_error + bytes :=
  IssueWithTokenHash s now rnd accountID provider (hashString (accountID +:+ "|" +:+ provider)).

Definition Verify (s : Issuer) (now : Z) (blob : bytes) : cred_error + Claims :=
  if zlen (SigningKey s) =? 0 then inl ErrMissingSigningKey
  else
    let decoded := match b64_decode (string_of_bytes blob) with
                   | Some maybe => if json_Valid maybe then maybe else blob
                   | None => blob
                   end in
    match unmarshal decoded with
    | None => inl ErrDecode
    | Some env =>
        let c := env_Claims env in
        if negb (String.eqb (sign (SigningKey s) c) (env_Signature env)) then inl ErrCredentialSignature
        else if ExpiresAt c <=? unix now then inl ErrCredentialExpired
        else if negb (ClaimVersion c =? CredentialVersion) then inl (ErrVersion (ClaimVersion c))
        else if negb (String.eqb (ClaimIssuer c) (IssuerName s)) then inl (ErrIssuer (ClaimIssuer c) (IssuerName s))
        else inr c
    end.

(** ** The HTTP service *)

Record Service := mkService { svc_Issuer : Issuer; WSSecret : bytes }.

Definition NewService (issuer : Issuer) (wsSecret : bytes) : Service := mkService issuer wsSecret.

Definition wsTokenFor (secret : bytes) (pseudonym : string) : string :=
  hex_encode (hmac_sha256 secret (bytes_of_string pseudonym)).

Definition DeriveWSToken (wsSecret : bytes) (pseudonym : string) : string := wsTokenFor wsSecret pseudonym.

(** A response: [http.Error]'s, or a JSON body with status 200. *)
Inductive auth_response :=
| BadRequest (msg : string)
| InternalError (e : cred_error)
| Unauthorized (e : cred_error)
| Credential (blob : bytes)
| Verified (c : Claims)
| NotVerified (e : cred_error)
| Token (pseudonym token : string).

(** Request bodies; [None] is a body that JSON cannot decode. *)
Definition handleIssue (s : Service) (now : Z) (rnd : option bytes) (req : option (string * string)) : auth_response :=
  match req with
  | None => BadRequest "invalid json"
  | Some (account_id, provider) =>
      if String.eqb account_id "" then BadRequest "account_id is required"
      else
        let provider := if String.eqb provider "" then "anonymous" else provider in
        match Issue (svc_Issuer s) now rnd account_id provider with
        | inl e => InternalError e
        | inr blob => Credential blob
        end
  end.

Definition handleVerify (s : Service) (now : Z) (req : option bytes) : auth_response :=
  match req with
  | None => BadRequest "invalid json"
  | Some credential =>
      match Verify (svc_Issuer s) now credential with
      | inl e => NotVerified e
      | inr c => Verified c
      end
  end.

Definition handleWSToken (s : Service) (now : Z) (req : option (string * bytes)) : auth_response :=
  match req with
  | None => BadRequest "invalid json"
  | Some (pseudonym, credential) =>
      if String.eqb pseudonym "" then BadRequest "pseudonym is required"
      else match Verify (svc_Issuer s) now credential with
      | inl e => Unauthorized e
      | inr _ => Token pseudonym (wsTokenFor (WSSecret s) pseudonym)
      end
  end.
End issuer.

(** ** The signed text *)

(** The parts come sorted. *)
Lemma canonical_parts c :
  canonical c =
    ["account_id=" +:+ AccountID c; "expires_at=" +:+ pretty (ExpiresAt c); "issued_at=" +:+ pretty (IssuedAt c);
     "issuer=" +:+ ClaimIssuer c; "nonce=" +:+ Nonce c; "provider=" +:+ ClaimProvider c;
     "subject_hash=" +:+ SubjectHash c; "token_hash=" +:+ TokenHash c; "version=" +:+ pretty (ClaimVersion c)].
Proof.
  unfold canonical. generalize (pretty (ExpiresAt c)), (pretty (IssuedAt c)), (pretty (ClaimVersion c)). intros a b d.
  reflexivity.
Qed.

Definition nul_free (s : string) : Prop := x00 ∉ bytes_of_string s.

Lemma nul_free_app a b : nul_free a -> nul_free b -> nul_free (a +:+ b).
Proof. unfold nul_free. rewrite bytes_of_string_app. set_solver. Qed.

Lemma pretty_nul_free (z : Z) : nul_free (pretty z).
Proof. intros Hin. pose proof (pretty_bytes z) as Hp. rewrite Forall_forall in Hp. destruct (Hp _ Hin) as [Hl _]. by vm_compute in Hl. Qed.

(** Texts without NUL bytes can be told apart when each ends in one. *)
Lemma mac_input_inj l1 l2 : Forall nul_free l1 -> Forall nul_free l2 -> mac_input l1 = mac_input l2 -> l1 = l2.
Proof.
  assert (Hsplit : forall a b r1 r2, x00 ∉ a -> x00 ∉ b -> a ++ x00 :: r1 = b ++ x00 :: r2 -> a = b /\ r1 = r2).
  { induction a as [|x a IH]; intros [|y b] r1 r2 Ha Hb He; cbn in He.
    - by injection He.
    - injection He as <- _. destruct Hb. left.
    - injection He as -> _. destruct Ha. left.
    - apply not_elem_of_cons in Ha as [_ Ha], Hb as [_ Hb]. injection He as -> Hr.
      by destruct (IH b r1 r2 Ha Hb Hr) as [-> ->]. }
  revert l2. induction l1 as [|x l1 IH]; intros [|y l2] H1 H2 He; [done|..].
  1: unfold mac_input in He; cbn in He; by destruct (bytes_of_string y).
  1: unfold mac_input in He; cbn in He; by destruct (bytes_of_string x).
  apply Forall_cons in H1 as [Hx H1], H2 as [Hy H2]. unfold mac_input in *. cbn in He. rewrite <- !app_assoc in He.
  destruct (Hsplit _ _ _ _ Hx Hy He) as [Hb Hr]. apply (inj bytes_of_string) in Hb as ->. f_equal. by apply IH.
Qed.

Definition claims_nul_free (c : Claims) : Prop :=
  Forall nul_free [AccountID c; ClaimIssuer c; Nonce c; ClaimProvider c; SubjectHash c; TokenHash c].

Lemma canonical_nul_free c : claims_nul_free c -> Forall nul_free (canonical c).
Proof.
  unfold claims_nul_free. rewrite canonical_parts. rewrite !Forall_cons. intros (? & ? & ? & ? & ? & ? & _).
  split_and!; try (apply nul_free_app; [by vm_compute; set_solver|done || apply pretty_nul_free]). constructor.
Qed.

Lemma canonical_inj c1 c2 : canonical c1 = canonical c2 -> c1 = c2.
Proof.
  rewrite !canonical_parts. intros He. injection He. clear He. intros.
  repeat match goal with
  | H : "" +:+ ?a = "" +:+ ?b |- _ => change (a = b) in H
  | H : pretty _ = pretty _ |- _ => apply (inj pretty) in H
  end.
  destruct c1, c2; cbn in *; by subst.
Qed.

(** A signature binds every claim.  Two credentials signed alike under one
    key carry the same claims, if no claim contains a NUL byte and HMAC does
    not collide on their signed texts. *)
Lemma signature_binds_claims key c1 c2 :
  claims_nul_free c1 -> claims_nul_free c2 -> sign key c1 = sign key c2 ->
  c1 = c2 \/ (mac_input (canonical c1) <> mac_input (canonical c2) /\
             hmac_sha256 key (mac_input (canonical c1)) = hmac_sha256 key (mac_input (canonical c2))).
Proof.
  intros H1 H2 Hs. apply (inj hex_encode) in Hs.
  destruct (decide (mac_input (canonical c1) = mac_input (canonical c2))) as [He|]; [left|by right].
  apply canonical_inj. apply mac_input_inj; [by apply canonical_nul_free..|done].
Qed.

(** ** The life of a credential *)

Section lifecycle.
Context `{CredJSONLaws}.

(** Verification sees through the base64 that clients may add, and through
    none where there is none. *)
Lemma Verify_envelope s now e :
  wire_ok e -> SigningKey s <> [] ->
  forall blob, blob = marshal e \/ blob = bytes_of_string (b64_encode (marshal e)) ->
  Verify s now blob =
    let c := env_Claims e in
    if negb (String.eqb (sign (SigningKey s) c) (env_Signature e)) then inl ErrCredentialSignature
    else if ExpiresAt c <=? unix now then inl ErrCredentialExpired
    else if negb (ClaimVersion c =? CredentialVersion) then inl (ErrVersion (ClaimVersion c))
    else if negb (String.eqb (ClaimIssuer c) (IssuerName s)) then inl (ErrIssuer (ClaimIssuer c) (IssuerName s))
    else inr c.
Proof.
  intros Hw Hk blob Hb. unfold Verify. replace (zlen (SigningKey s) =? 0) with false.
  2:{ symmetry. apply Z.eqb_neq. unfold zlen. by destruct (SigningKey s). }
  destruct Hb as [-> | ->].
  - destruct (marshal_object e) as [t Ht]. rewrite Ht at 1. rewrite b64_decode_bad by (vm_compute; done).
    by rewrite unmarshal_marshal.
  - rewrite string_of_bytes_of_string, b64_roundtrip, valid_marshal, unmarshal_marshal by done. done.
Qed.

Definition ttl_of (s : Issuer) : Z := if TTL s <=? 0 then 30 * day else TTL s.

(** The claims an issue produces. *)
Definition issued (s : Issuer) (now : Z) (buf : bytes) (accountID provider tokenHash : string) : Claims :=
  mkClaims CredentialVersion (IssuerName s) accountID
    (hashString (IssuerName s +:+ "|" +:+ provider +:+ "|" +:+ accountID +:+ "|" +:+ hex_encode buf))
    provider tokenHash (hex_encode buf) (unix now) (unix (now + ttl_of s)).

Lemma hex_ascii b : ascii_string (hex_encode b).
Proof. eapply Forall_impl; [apply hex_encode_ascii|]. cbn. lia. Qed.

Lemma unix_range t : in_int64 (unix t).
Proof. apply wrap64_range. Qed.

Lemma issued_wire_ok s now buf accountID provider tokenHash :
  ascii_string (IssuerName s) -> ascii_string accountID -> ascii_string provider -> ascii_string tokenHash ->
  let c := issued s now buf accountID provider tokenHash in wire_ok (mkEnvelope c (sign (SigningKey s) c)).
Proof.
  intros Hi Ha Hp Ht c. split; cbn; rewrite !Forall_cons; split_and!;
    try (done || apply hex_ascii || apply unix_range || constructor).
Qed.

(** C18: the life of a credential.  What the service issues for an account it
    verifies, sent back as it is or in base64, up to the second it expires, and
    refuses afterwards; until then it exchanges the credential for a token that
    the hub's authentication accepts for the chosen pseudonym, and no longer
    than that. *)
Theorem credential_lifecycle s now rnd account provider pseudonym auth now' :
  SigningKey (svc_Issuer s) <> [] -> ascii_string (IssuerName (svc_Issuer s)) -> ascii_string account ->
  ascii_string provider -> account <> "" -> pseudonym <> "" -> Secret auth = WSSecret s -> WSSecret s <> [] ->
  exists blob c,
    handleIssue s now (Some rnd) (Some (account, provider)) = Credential blob /\
    AccountID c = account /\ ExpiresAt c = unix (now + ttl_of (svc_Issuer s)) /\
    forall sent, sent = blob \/ sent = bytes_of_string (b64_encode blob) ->
      (unix now' < ExpiresAt c ->
         handleVerify s now' (Some sent) = Verified c /\
         exists token, handleWSToken s now' (Some (pseudonym, sent)) = Token pseudonym token /\
           ValidateToken auth pseudonym token = true) /\
      (ExpiresAt c <= unix now' ->
         handleVerify s now' (Some sent) = NotVerified ErrCredentialExpired /\
         handleWSToken s now' (Some (pseudonym, sent)) = Unauthorized ErrCredentialExpired).
Proof.
  intros Hk Hi Ha Hp Hae Hpe Hsec Hne.
  set (p := if String.eqb provider "" then "anonymous" else provider).
  assert (Hpa : ascii_string p) by (unfold p; destruct (String.eqb provider ""); [by repeat constructor|done]).
  set (th := hashString (account +:+ "|" +:+ p)).
  set (c := issued (svc_Issuer s) now rnd account p th).
  set (e := mkEnvelope c (sign (SigningKey (svc_Issuer s)) c)).
  pose proof (issued_wire_ok (svc_Issuer s) now rnd account p th Hi Ha Hpa (hex_ascii _)) as Hw. cbv zeta in Hw. fold c e in Hw.
  exists (marshal e), c. split_and!; [|done..|].
  { unfold handleIssue. rewrite (proj2 (String.eqb_neq account "") Hae). fold p. unfold Issue, IssueWithTokenHash.
    replace (zlen (SigningKey (svc_Issuer s)) =? 0) with false; [done|].
    symmetry. apply Z.eqb_neq. unfold zlen. by destruct (SigningKey (svc_Issuer s)). }
  intros sent Hsent. unfold handleVerify, handleWSToken. rewrite (proj2 (String.eqb_neq pseudonym "") Hpe).
  rewrite (Verify_envelope (svc_Issuer s) now' e Hw Hk sent Hsent). cbv zeta. cbn [env_Claims env_Signature e].
  rewrite String.eqb_refl. cbn [negb]. split; intros Hx.
  - rewrite (proj2 (Z.leb_gt _ _) Hx). cbn [ClaimVersion ClaimIssuer c issued]. rewrite Z.eqb_refl, String.eqb_refl. cbn [negb].
    split; [done|]. eexists. split; [done|]. unfold ValidateToken. rewrite Hsec.
    replace (zlen (WSSecret s) =? 0) with false; [apply String.eqb_refl|].
    symmetry. apply Z.eqb_neq. unfold zlen. by destruct (WSSecret s).
  - by rewrite (proj2 (Z.leb_le _ _) Hx).
Qed.

(** ** Claims with NUL bytes *)

Definition NUL : string := string_of_bytes [x00].

(** An account name that carries the head of another signed text ... *)
Definition bait (victim : string) (expires issuedAt : Z) (issuer : string) : string :=
  victim +:+ NUL +:+ "expires_at=" +:+ pretty expires +:+ NUL +:+ "issued_at=" +:+ pretty issuedAt +:+ NUL +:+
  "issuer=" +:+ issuer +:+ NUL +:+ "nonce=".

(** ... and the claims under which its credential reads as that text. *)
Definition forged (victim : string) (expires issuedAt : Z) (c : Claims) : Claims :=
  mkClaims (ClaimVersion c) (ClaimIssuer c) victim (SubjectHash c) (ClaimProvider c) (TokenHash c)
    (NUL +:+ "expires_at=" +:+ pretty (ExpiresAt c) +:+ NUL +:+ "issued_at=" +:+ pretty (IssuedAt c) +:+ NUL +:+
     "issuer=" +:+ ClaimIssuer c +:+ NUL +:+ "nonce=" +:+ Nonce c)
    issuedAt expires.

Lemma forged_text victim expires issuedAt c :
  AccountID c = bait victim expires issuedAt (ClaimIssuer c) ->
  mac_input (canonical (forged victim expires issuedAt c)) = mac_input (canonical c).
Proof.
  intros Ha. rewrite !canonical_parts. cbn [AccountID ExpiresAt IssuedAt ClaimIssuer Nonce ClaimProvider SubjectHash
    TokenHash ClaimVersion forged]. rewrite Ha. unfold mac_input, bait. cbn [fmap list_fmap concat].
  rewrite !bytes_of_string_app. rewrite <- !app_assoc. reflexivity.
Qed.

Lemma ascii_app a b : ascii_string a -> ascii_string b -> ascii_string (a +:+ b).
Proof. unfold ascii_string. rewrite bytes_of_string_app. intros. by apply Forall_app. Qed.

Lemma pretty_ascii (z : Z) : ascii_string (pretty z).
Proof. eapply Forall_impl; [apply pretty_bytes|]. cbn. lia. Qed.

Lemma bait_ascii victim expires issuer : ascii_string victim -> ascii_string issuer -> ascii_string (bait victim expires 0 issuer).
Proof. intros. unfold bait. repeat apply ascii_app; try done; try apply pretty_ascii; by repeat constructor. Qed.

Lemma forged_wire_ok victim expires c sig :
  wire_ok (mkEnvelope c sig) -> ascii_string victim -> in_int64 expires -> wire_ok (mkEnvelope (forged victim expires 0 c) sig).
Proof.
  intros [Hs Hn] Hv He. cbn in Hs, Hn. rewrite !Forall_cons in Hs. apply Forall_cons in Hn as [Hn _].
  split; cbn; rewrite !Forall_cons.
  - split_and!; try apply Hs; [done|]. repeat apply ascii_app; try (by repeat constructor); try apply pretty_ascii; apply Hs.
  - split_and!; [done..|constructor].
Qed.

(** C19: credentials can be forged through NUL bytes.  For any account and any
    expiry there is an account name such that whoever is issued a credential
    for it can rewrite it, without the key, into one that verifies with that
    account and that expiry, and that the service exchanges for a token. *)
Theorem credential_forgery s now rnd victim expires pseudonym now' :
  SigningKey (svc_Issuer s) <> [] -> ascii_string (IssuerName (svc_Issuer s)) -> ascii_string victim ->
  in_int64 expires -> pseudonym <> "" -> unix now' < expires ->
  let account := bait victim expires 0 (IssuerName (svc_Issuer s)) in
  exists e,
    handleIssue s now (Some rnd) (Some (account, "")) = Credential (marshal e) /\
    let f := forged victim expires 0 (env_Claims e) in
    AccountID f = victim /\ ExpiresAt f = expires /\
    handleVerify s now' (Some (marshal (mkEnvelope f (env_Signature e)))) = Verified f /\
    exists token, handleWSToken s now' (Some (pseudonym, marshal (mkEnvelope f (env_Signature e)))) = Token pseudonym token.
Proof.
  intros Hk Hi Hv He Hp Hx account.
  set (c := issued (svc_Issuer s) now rnd account "anonymous" (hashString (account +:+ "|" +:+ "anonymous"))).
  exists (mkEnvelope c (sign (SigningKey (svc_Issuer s)) c)). split.
  { unfold handleIssue. replace (String.eqb account "") with false.
    2:{ symmetry. apply String.eqb_neq. unfold account, bait. by destruct victim. }
    cbn [String.eqb]. unfold Issue, IssueWithTokenHash. replace (zlen (SigningKey (svc_Issuer s)) =? 0) with false; [done|].
    symmetry. apply Z.eqb_neq. unfold zlen. by destruct (SigningKey (svc_Issuer s)). }
  cbn [env_Claims env_Signature]. set (f := forged victim expires 0 c).
  assert (Hver : Verify (svc_Issuer s) now' (marshal (mkEnvelope f (sign (SigningKey (svc_Issuer s)) c))) = inr f).
  { rewrite (Verify_envelope _ _ (mkEnvelope f (sign (SigningKey (svc_Issuer s)) c))); [|apply forged_wire_ok; [|done..]; apply issued_wire_ok; [done|by apply bait_ascii|by repeat constructor|apply hex_ascii]|done|by left].
    cbv zeta. cbn [env_Claims env_Signature].
    replace (sign (SigningKey (svc_Issuer s)) f) with (sign (SigningKey (svc_Issuer s)) c)
      by (unfold sign, f; by rewrite forged_text).
    rewrite String.eqb_refl. cbn -[unix Z.leb]. by rewrite (proj2 (Z.leb_gt _ _) Hx), String.eqb_refl. }
  split_and!; [done..| |].
  - unfold handleVerify. by rewrite Hver.
  - unfold handleWSToken. rewrite (proj2 (String.eqb_neq pseudonym "") Hp), Hver. by eexists.
Qed.
End lifecycle.

(** ** Witnesses *)

Section witnesses.
(** An encoding of envelopes by their number in binary. *)
Definition tuple_of (e : Envelope) : Z * string * string * string * string * string * string * Z * Z * string :=
  let c := env_Claims e in
  (ClaimVersion c, ClaimIssuer c, AccountID c, SubjectHash c, ClaimProvider c, TokenHash c, Nonce c, IssuedAt c, ExpiresAt c,
   env_Signature e).

Definition of_tuple (t : Z * string * string * string * string * string * string * Z * Z * string) : Envelope :=
  let '(v, i, a, sh, p, th, n, iat, ex, sig) := t in mkEnvelope (mkClaims v i a sh p th n iat ex) sig.

Fixpoint binary (p : positive) : bytes :=
  match p with xH => [] | xO p => "0"%byte :: binary p | xI p => "1"%byte :: binary p end.

Fixpoint of_binary (b : bytes) : positive :=
  match b with [] => xH | d :: b => if Byte.eqb d "0"%byte then xO (of_binary b) else xI (of_binary b) end.

Lemma of_binary_binary p : of_binary (binary p) = p.
Proof. induction p as [p IH|p IH|]; cbn; by rewrite ?IH. Qed.

#[local] Instance wit_json : CredJSON := {|
  marshal e := "{"%byte :: binary (encode (tuple_of e));
  unmarshal b := of_tuple <$> decode (of_binary (tail b));
  json_Valid b := bool_decide (head b = Some "{"%byte) |}.

#[local] Instance wit_laws : CredJSONLaws.
Proof.
  split.
  - intros [[]] _. cbn -[encode decode]. by rewrite of_binary_binary, decode_encode.
  - by intros e.
  - intros e. by eexists.
Qed.

Definition wit_claims : Claims := mkClaims 1 "ares" "alice" "s" "invite" "t" "n" 5 9.
Definition wit_service : Service := NewService (NewIssuer "ares" [x01]) [x02].

Lemma signature_binds_claims_witness :
  wit_claims = wit_claims \/ (mac_input (canonical wit_claims) <> mac_input (canonical wit_claims) /\
    hmac_sha256 [x01] (mac_input (canonical wit_claims)) = hmac_sha256 [x01] (mac_input (canonical wit_claims))).
Proof.
  apply (signature_binds_claims [x01] wit_claims wit_claims).
  - repeat constructor; vm_compute; set_solver.
  - repeat constructor; vm_compute; set_solver.
  - reflexivity.
Defined.

Lemma credential_lifecycle_witness :
  exists blob, handleIssue wit_service 0 (Some [x07]) (Some ("alice", "")) = Credential blob /\
    handleWSToken wit_service (31 * day) (Some ("p", blob)) = Unauthorized ErrCredentialExpired.
Proof.
  destruct (credential_lifecycle wit_service 0 [x07] "alice" "" "p" (mkAuth [x02] false) (31 * day))
    as (blob & c & Hi & _ & Hx & Hs).
  - discriminate.
  - repeat constructor.
  - repeat constructor.
  - constructor.
  - discriminate.
  - discriminate.
  - reflexivity.
  - discriminate.
  - exists blob. split; [exact Hi|]. destruct (Hs blob (or_introl eq_refl)) as [_ Hold].
    apply Hold. rewrite Hx. vm_compute. discriminate.
Defined.

Lemma credential_forgery_witness :
  exists e, handleVerify wit_service 0 (Some (marshal e)) = Verified (env_Claims e) /\
    AccountID (env_Claims e) = "victim" /\ ExpiresAt (env_Claims e) = 4102444800.
Proof.
  destruct (credential_forgery wit_service 0 [x07] "victim" 4102444800 "p" 0) as (e & _ & Ha & Hx & Hv & _).
  - discriminate.
  - repeat constructor.
  - repeat constructor.
  - split; vm_compute; [discriminate|reflexivity].
  - discriminate.
  - reflexivity.
  - exists (mkEnvelope (forged "victim" 4102444800 0 (env_Claims e)) (env_Signature e)). split; [exact Hv|split; [exact Ha|exact Hx]].
Defined.
End witnesses.
End AuthClient.
