(* ===== verification/Pool.v ===== *)
(** * Pool clearing ([pkg/ares/pool])

    The public price grid, the packing of offers into supply and demand curves,
    and the plaintext clearing that the encrypted circuit is measured against. *)

From Stdlib Require Import SpecFloat.
From S2P Require Import Prelude Float64 FloatExact.
Import FloatExact.

#[local] Open Scope Z_scope.
#[local] Open Scope go_scope.

Module Pool.

(** ** The grid ([grid.go]) *)

Definition tickEpsilon : float64 := f64_lit 1 9.

Record GridSpec := mkGrid { TickCt : float64; NumBuckets : Z; NumSlots : Z }.

Inductive pool_error :=
| BadTick (tick : float64)
| BadBuckets (n : Z)
| BadSlots (n : Z)
| OfferSlot (i : nat) (slot : Z)
| OfferQuantity (i : nat) (q : float64)
| OfferPrice (i : nat) (p : float64)
| SupplyLength (got want : Z)
| DemandLength (got want : Z)
| NormBudget (norm c : float64).

Definition Validate (g : GridSpec) : option pool_error :=
  if negb (f64_gt (TickCt g) f64_zero) then Some (BadTick (TickCt g))
  else if NumBuckets g <=? 0 then Some (BadBuckets (NumBuckets g))
  else if NumSlots g <=? 0 then Some (BadSlots (NumSlots g))
  else None.

Definition Price (g : GridSpec) (bucket : Z) : float64 := f64_mul (TickCt g) (f64_of_Z bucket).

Definition Len (g : GridSpec) : Z := wrap64 (NumSlots g * NumBuckets g).

Definition Index (g : GridSpec) (slot bucket : Z) : Z := wrap64 (wrap64 (slot * NumBuckets g) + bucket).

Record Offer := mkOffer { Slot : Z; PriceCt : float64; Quantity : float64 }.

(** The first offending offer. *)
Fixpoint check_offers (g : GridSpec) (i : nat) (offers : list Offer) : option pool_error :=
  match offers with
  | [] => None
  | o :: offers' =>
      if (Slot o <? 0) || (NumSlots g <=? Slot o) then Some (OfferSlot i (Slot o))
      else if f64_lt (Quantity o) f64_zero then Some (OfferQuantity i (Quantity o))
      else if f64_is_nan (PriceCt o) || f64_is_inf (PriceCt o) then Some (OfferPrice i (PriceCt o))
      else check_offers g (S i) offers'
  end.

Definition validateOffers (g : GridSpec) (offers : list Offer) : option pool_error :=
  match Validate g with
  | Some e => Some e
  | None => check_offers g 0 offers
  end.

(** ** Slices

    [None] is the panic of an index out of range or of a negative length. *)

Definition at_ {A} (l : list A) (i : Z) : option A := if 0 <=? i then l !! Z.to_nat i else None.

Definition make (n : Z) : option (list float64) := if 0 <=? n then Some (replicate (Z.to_nat n) f64_zero) else None.

Definition add_at (out : list float64) (i : Z) (q : float64) : option (list float64) :=
  v ← at_ out i; Some (<[Z.to_nat i := f64_add v q]> out).

Fixpoint add_all (g : GridSpec) (o : Offer) (ks : list Z) (out : list float64) : option (list float64) :=
  match ks with
  | [] => Some out
  | k :: ks' => out' ← add_at out (Index g (Slot o) k) (Quantity o); add_all g o ks' out'
  end.

Section encoding.
Context `{GoConv}.

(** The first bucket at or above an offer's price, and the last at or below. *)
Definition first_bucket (g : GridSpec) (o : Offer) : Z :=
  let x := f64_sub (f64_div (PriceCt o) (TickCt g)) tickEpsilon in
  let first := f64_int_of x (f64_ceil x) in
  if first <? 0 then 0 else first.

Definition last_bucket (g : GridSpec) (o : Offer) : Z :=
  let x := f64_add (f64_div (PriceCt o) (TickCt g)) tickEpsilon in
  let last := f64_int_of x (f64_floor x) in
  if NumBuckets g <=? last then NumBuckets g - 1 else last.

Definition supply_buckets (g : GridSpec) (o : Offer) : list Z := seqZ (first_bucket g o) (NumBuckets g - first_bucket g o).
Definition demand_buckets (g : GridSpec) (o : Offer) : list Z := seqZ 0 (last_bucket g o + 1).

Fixpoint lay_out (g : GridSpec) (buckets : Offer -> list Z) (offers : list Offer) (out : list float64)
    : option (list float64) :=
  match offers with
  | [] => Some out
  | o :: offers' => out' ← add_all g o (buckets o) out; lay_out g buckets offers' out'
  end.

Definition encode (g : GridSpec) (buckets : Offer -> list Z) (offers : list Offer) : option (pool_error + list float64) :=
  match validateOffers g offers with
  | Some e => Some (inl e)
  | None => out ← make (Len g); inr <$> lay_out g buckets offers out
  end.

Definition EncodeSupply (g : GridSpec) (offers : list Offer) : option (pool_error + list float64) :=
  encode g (supply_buckets g) offers.

Definition EncodeDemand (g : GridSpec) (offers : list Offer) : option (pool_error + list float64) :=
  encode g (demand_buckets g) offers.
End encoding.

Fixpoint zero_firsts (g : GridSpec) (slots : list Z) (out : list float64) : option (list float64) :=
  match slots with
  | [] => Some out
  | s :: slots' => _ ← at_ out (Index g s 0); zero_firsts g slots' (<[Z.to_nat (Index g s 0) := f64_zero]> out)
  end.

Definition SlotBoundaryMask (g : GridSpec) : option (list float64) :=
  out ← make (Len g); zero_firsts g (seqZ 0 (NumSlots g)) ((fun _ => f64_one) <$> out).

Definition PaddingValue (vec : list float64) (c : float64) : pool_error + float64 :=
  let norm := foldl (fun norm v => f64_add norm (f64_mul v v)) f64_zero vec in
  if f64_gt norm c then inl (NormBudget norm c) else inr (f64_sqrt (f64_sub c norm)).

(** ** Clearing ([clearing.go]) *)

Definition NoClearing : Z := -1.

(** The source computes in [float64].  The clearing and the decoding of the
    encrypted circuit are written over their arithmetic, so that they can also
    be read over exact numbers; [f64_num] is the source's reading. *)
Class Num (F : Type) := {
  n_zero : F;
  n_one : F;
  n_add : F -> F -> F;
  n_sub : F -> F -> F;
  n_mul : F -> F -> F;
  n_div : F -> F -> F;
  n_lt : F -> F -> bool;
  n_le : F -> F -> bool;
  n_of : float64 -> F
}.

#[export] Instance f64_num : Num float64 := {|
  n_zero := f64_zero; n_one := f64_one; n_add := f64_add; n_sub := f64_sub; n_mul := f64_mul; n_div := f64_div;
  n_lt := f64_lt; n_le := f64_le; n_of := fun x => x |}.

Record SlotResult (F : Type) := mkResult {
  Bucket : Z;
  ResultPriceCt : float64;
  Supply : F;
  SupplyPrev : F;
  Demand : F;
  Cleared : F;
  MarginalRatio : F;
  InframarginalRatio : F
}.
Arguments mkResult {F}. Arguments Bucket {F}. Arguments ResultPriceCt {F}. Arguments Supply {F}. Arguments SupplyPrev {F}.
Arguments Demand {F}. Arguments Cleared {F}. Arguments MarginalRatio {F}. Arguments InframarginalRatio {F}.

Section clearing.
Context {F : Type} `{Num F}.

Definition no_result : SlotResult F := mkResult NoClearing f64_zero n_zero n_zero n_zero n_zero n_zero n_zero.

Definition deriveAllocation (res : SlotResult F) : SlotResult F :=
  let cleared := if n_lt (Demand res) (Supply res) then Demand res else Supply res in
  if n_le cleared n_zero then no_result
  else
    let infra := if n_lt cleared (SupplyPrev res) && n_lt n_zero (SupplyPrev res)
                 then n_div cleared (SupplyPrev res) else n_one in
    let tranche := n_sub (Supply res) (SupplyPrev res) in
    let marginal :=
      if n_lt n_zero tranche then
        let ratio := n_div (n_sub cleared (SupplyPrev res)) tranche in
        let ratio := if n_lt ratio n_zero then n_zero else ratio in
        if n_lt n_one ratio then n_one else ratio
      else MarginalRatio res in
    mkResult (Bucket res) (ResultPriceCt res) (Supply res) (SupplyPrev res) (Demand res) cleared marginal infra.

(** The buckets in turn, up to the first crossing. *)
Fixpoint crossing (g : GridSpec) (supply demand : list F) (slot : Z) (ks : list Z) : option (SlotResult F) :=
  match ks with
  | [] => Some no_result
  | k :: ks' =>
      s ← at_ supply (Index g slot k);
      d ← at_ demand (Index g slot k);
      if n_lt (n_sub s d) n_zero then crossing g supply demand slot ks'
      else
        prev ← (if 0 <? k then at_ supply (Index g slot (k - 1)) else Some n_zero);
        Some (mkResult k (Price g k) s prev d n_zero n_zero n_zero)
  end.

Definition clearSlot (g : GridSpec) (supply demand : list F) (slot : Z) : option (SlotResult F) :=
  res ← crossing g supply demand slot (seqZ 1 (NumBuckets g - 1));
  Some (if Bucket res =? NoClearing then res else deriveAllocation res).

Definition ClearPlaintext (g : GridSpec) (supply demand : list F) : option (pool_error + list (SlotResult F)) :=
  match Validate g with
  | Some e => Some (inl e)
  | None =>
      if negb (zlen supply =? Len g) then Some (inl (SupplyLength (zlen supply) (Len g)))
      else if negb (zlen demand =? Len g) then Some (inl (DemandLength (zlen demand) (Len g)))
      else inr <$> mapM (clearSlot g supply demand) (seqZ 0 (NumSlots g))
  end.
End clearing.

(** ** The curves *)

Section curves.
Context (g : GridSpec).
Hypothesis Hvalid : Validate g = None.
Hypothesis Hlen : NumSlots g * NumBuckets g < 2 ^ 63.

Lemma grid_positive : 0 < NumBuckets g /\ 0 < NumSlots g.
Proof. unfold Validate in Hvalid. repeat case_match; try done. split; lia. Qed.

Definition in_grid (slot k : Z) : Prop := 0 <= slot < NumSlots g /\ 0 <= k < NumBuckets g.

Lemma Len_exact : Len g = NumSlots g * NumBuckets g.
Proof. pose proof grid_positive. apply wrap64_small. unfold in_int64. nia. Qed.

Lemma Index_exact slot k : in_grid slot k -> Index g slot k = slot * NumBuckets g + k /\ 0 <= Index g slot k < Len g.
Proof.
  intros [Hs Hk]. pose proof grid_positive as [Hb Hn]. rewrite Len_exact. unfold Index.
  assert (Hlt : slot * NumBuckets g + k < NumSlots g * NumBuckets g) by nia.
  rewrite (wrap64_small (slot * NumBuckets g)) by (unfold in_int64; nia).
  rewrite wrap64_small by (unfold in_int64; nia). nia.
Qed.

Lemma Index_inj s k s' k' : in_grid s k -> in_grid s' k' -> Index g s k = Index g s' k' -> s = s' /\ k = k'.
Proof.
  intros H1 H2 He. rewrite (proj1 (Index_exact s k H1)), (proj1 (Index_exact s' k' H2)) in He. destruct H1 as [_ Hk], H2 as [_ Hk'].
  assert (Hs : s = s') by nia. subst. lia.
Qed.

Definition cell {A} (out : list A) (slot k : Z) : option A := at_ out (Index g slot k).

Definition sized {A} (out : list A) : Prop := Z.of_nat (length out) = Len g.

Lemma cell_sized {A} (out : list A) slot k : sized out -> in_grid slot k -> is_Some (cell out slot k).
Proof.
  intros Hs Hk. destruct (Index_exact slot k Hk) as [_ Hi]. unfold cell, at_.
  replace (0 <=? Index g slot k) with true by lia. apply lookup_lt_is_Some. unfold sized in Hs. lia.
Qed.

(** The first bucket of each listed slot is zeroed. *)
Lemma zero_firsts_cells slots out :
  Forall (fun s => 0 <= s < NumSlots g) slots -> sized out ->
  exists out', zero_firsts g slots out = Some out' /\ sized out' /\
    forall slot k, in_grid slot k -> cell out' slot k = if decide (k = 0 /\ slot ∈ slots) then Some f64_zero else cell out slot k.
Proof.
  pose proof grid_positive as [Hb _]. intros Hslots. revert out. induction Hslots as [|s slots Hs _ IH]; intros out Ho.
  { exists out. split_and!; [done..|]. intros slot k _. rewrite decide_False; [done|]. intros [_ Hin]. by apply not_elem_of_nil in Hin. }
  assert (Hg : in_grid s 0) by (split; lia). destruct (cell_sized out s 0 Ho Hg) as [v Hv]. unfold cell in Hv.
  cbn [zero_firsts]. rewrite Hv. cbn [mbind option_bind].
  destruct (IH (<[Z.to_nat (Index g s 0) := f64_zero]> out)) as (out' & Hz & Hsz & Hc); [by unfold sized; rewrite length_insert|].
  exists out'. split_and!; [done..|]. intros slot k Hk. rewrite Hc by done.
  destruct (Index_exact s 0 Hg) as [_ Hi], (Index_exact slot k Hk) as [_ Hi']. unfold cell, at_.
  replace (0 <=? Index g slot k) with true by lia. destruct (decide (s = slot /\ k = 0)) as [[-> ->]|Hne].
  - rewrite (decide_True (P := 0 = 0 /\ slot ∈ slot :: slots)) by (split; [done|apply elem_of_cons; by left]). case_decide; [done|].
    apply list_lookup_insert_eq. unfold sized in Ho. lia.
  - rewrite list_lookup_insert_ne.
    + apply decide_ext. rewrite elem_of_cons. naive_solver.
    + intros He. apply Hne. destruct (Index_inj s 0 slot k Hg Hk ltac:(lia)). done.
Qed.

(** The mask is one everywhere but at the guard buckets. *)
Lemma mask_cells :
  exists mask, SlotBoundaryMask g = Some mask /\ sized mask /\
    forall slot k, in_grid slot k -> cell mask slot k = Some (if decide (k = 0) then f64_zero else f64_one).
Proof.
  pose proof grid_positive as [Hb Hn]. pose proof Len_exact as Hl. unfold SlotBoundaryMask, make.
  replace (0 <=? Len g) with true by nia. cbn [mbind option_bind]. rewrite fmap_replicate.
  destruct (zero_firsts_cells (seqZ 0 (NumSlots g)) (replicate (Z.to_nat (Len g)) f64_one)) as (mask & Hm & Hs & Hc).
  { apply Forall_forall. intros s Hs%elem_of_seqZ. lia. }
  { unfold sized. rewrite length_replicate. nia. }
  exists mask. split_and!; [done..|]. intros slot k Hk. rewrite Hc by done. destruct (Index_exact slot k Hk) as [_ Hi].
  assert (Hin : slot ∈ seqZ 0 (NumSlots g)) by (apply elem_of_seqZ; destruct Hk; lia).
  unfold cell, at_. replace (0 <=? Index g slot k) with true by lia. rewrite lookup_replicate_2 by lia.
  repeat case_decide; naive_solver.
Qed.

(** One offer raises the cells of its buckets by its quantity, once each. *)
Lemma add_all_cells o ks out :
  0 <= Slot o < NumSlots g -> Forall (fun k => 0 <= k < NumBuckets g) ks -> NoDup ks -> sized out ->
  exists out', add_all g o ks out = Some out' /\ sized out' /\
    forall slot k, in_grid slot k ->
      cell out' slot k = (fun v => if decide (Slot o = slot /\ k ∈ ks) then f64_add v (Quantity o) else v) <$> cell out slot k.
Proof.
  intros Hslot. revert out. induction ks as [|k ks IH]; intros out Hks Hnd Hs.
  { exists out. split_and!; [done..|]. intros slot k _. destruct (cell out slot k) as [v|]; [|done]. cbn.
    rewrite decide_False; [done|]. intros [_ Hk]. by apply not_elem_of_nil in Hk. }
  apply Forall_cons in Hks as [Hk Hks]. apply NoDup_cons in Hnd as [Hni Hnd].
  assert (Hg : in_grid (Slot o) k) by done. destruct (cell_sized out _ _ Hs Hg) as [v Hv].
  cbn [add_all]. unfold add_at. unfold cell in Hv. rewrite Hv. cbn [mbind option_bind].
  set (out1 := <[Z.to_nat (Index g (Slot o) k) := f64_add v (Quantity o)]> out).
  assert (Hs1 : sized out1) by (unfold sized, out1; by rewrite length_insert).
  destruct (IH out1 Hks Hnd Hs1) as (out' & Ho & Hs' & Hc). exists out'. split_and!; [done..|].
  intros slot k' Hg'. rewrite Hc by done.
  destruct (Index_exact _ _ Hg) as [_ Hi], (Index_exact _ _ Hg') as [_ Hi'].
  assert (Hlk : cell out1 slot k' = if decide (slot = Slot o /\ k' = k) then Some (f64_add v (Quantity o)) else cell out slot k').
  { unfold cell, at_, out1. replace (0 <=? Index g slot k') with true by lia. case_decide as Hd.
    - destruct Hd as [-> ->]. apply list_lookup_insert_eq. unfold sized in Hs. lia.
    - apply list_lookup_insert_ne. intros He. apply Hd.
      destruct (Index_inj slot k' (Slot o) k Hg' Hg) as [-> ->]; [lia|done]. }
  rewrite Hlk. case_decide as Hd.
  - destruct Hd as [-> ->]. unfold cell. rewrite Hv. cbn. rewrite decide_False by naive_solver.
    rewrite decide_True; [done|]. split; [done|left].
  - destruct (cell out slot k') as [w|]; [|done]. cbn. f_equal. apply decide_ext. rewrite elem_of_cons. naive_solver.
Qed.

(** The cell of a curve: the quantities of the offers that cover it. *)
Definition covers (buckets : Offer -> list Z) (slot k : Z) (o : Offer) : Prop := Slot o = slot /\ k ∈ buckets o.
#[local] Instance covers_dec buckets slot k o : Decision (covers buckets slot k o).
Proof. unfold covers. apply _. Defined.

Definition height (buckets : Offer -> list Z) (slot k : Z) (offers : list Offer) : float64 :=
  foldl (fun v o => if decide (covers buckets slot k o) then f64_add v (Quantity o) else v) f64_zero offers.

Definition good_buckets (buckets : Offer -> list Z) : Prop :=
  forall o, NoDup (buckets o) /\ Forall (fun k => 0 <= k < NumBuckets g) (buckets o).

Lemma lay_out_cells buckets offers out :
  good_buckets buckets -> Forall (fun o => 0 <= Slot o < NumSlots g) offers -> sized out ->
  exists out', lay_out g buckets offers out = Some out' /\ sized out' /\
    forall slot k, in_grid slot k ->
      cell out' slot k = (fun v => foldl (fun v o => if decide (covers buckets slot k o) then f64_add v (Quantity o) else v) v offers)
        <$> cell out slot k.
Proof.
  intros Hb. revert out. induction offers as [|o offers IH]; intros out Ho Hs.
  { exists out. split_and!; [done..|]. intros. by destruct (cell out slot k). }
  apply Forall_cons in Ho as [Hslot Ho]. destruct (Hb o) as [Hnd Hks]. cbn [lay_out].
  destruct (add_all_cells o (buckets o) out Hslot Hks Hnd Hs) as (out1 & -> & Hs1 & Hc1). cbn [mbind option_bind].
  destruct (IH out1 Ho Hs1) as (out' & Hl & Hs' & Hc). exists out'. split_and!; [done..|].
  intros slot k Hg. rewrite Hc, Hc1 by done. by destruct (cell out slot k).
Qed.

Lemma check_offers_slots i offers : check_offers g i offers = None -> Forall (fun o => 0 <= Slot o < NumSlots g) offers.
Proof.
  revert i. induction offers as [|o offers IH]; intros i Hc; [constructor|]. cbn [check_offers] in Hc.
  destruct ((Slot o <? 0) || (NumSlots g <=? Slot o)) eqn:Hs; [done|]. apply orb_false_iff in Hs as [Hs1 Hs2]. destruct (f64_lt _ _); [done|].
  destruct (_ || _); [done|]. constructor; [lia|]. by eapply IH.
Qed.

Lemma encode_cells buckets offers :
  good_buckets buckets -> validateOffers g offers = None ->
  exists out, encode g buckets offers = Some (inr out) /\ sized out /\
    forall slot k, in_grid slot k -> cell out slot k = Some (height buckets slot k offers).
Proof.
  intros Hb Hv. unfold encode. rewrite Hv. pose proof grid_positive.
  assert (Hpos : 0 <= Len g) by (rewrite Len_exact; nia).
  unfold make. replace (0 <=? Len g) with true by lia. cbn [mbind option_bind].
  assert (Hs : sized (replicate (Z.to_nat (Len g)) f64_zero)) by (unfold sized; rewrite length_replicate; lia).
  unfold validateOffers in Hv. rewrite Hvalid in Hv. apply check_offers_slots in Hv.
  destruct (lay_out_cells buckets offers _ Hb Hv Hs) as (out & -> & Hs' & Hc). exists out. split_and!; [done..|].
  intros slot k Hg. rewrite Hc by done. destruct (Index_exact _ _ Hg) as [_ Hi]. unfold cell, at_ at 1.
  replace (0 <=? Index g slot k) with true by lia. by rewrite lookup_replicate_2 by lia.
Qed.

Context `{GoConv}.

Lemma supply_good : good_buckets (supply_buckets g).
Proof.
  intros o. unfold supply_buckets. split; [apply NoDup_seqZ|]. apply Forall_forall. intros k Hk%elem_of_seqZ.
  assert (0 <= first_bucket g o) by (unfold first_bucket; case_match; lia). lia.
Qed.

Lemma demand_good : good_buckets (demand_buckets g).
Proof.
  intros o. unfold demand_buckets. split; [apply NoDup_seqZ|]. apply Forall_forall. intros k Hk%elem_of_seqZ.
  assert (last_bucket g o < NumBuckets g) by (unfold last_bucket; case_match; lia). lia.
Qed.

(** ** Whole quantities *)

(** Offers of whole units. *)
Record unit_offer := mkUnits { u_slot : Z; u_price : float64; u_quantity : Z }.

Definition offer_of (u : unit_offer) : Offer := mkOffer (u_slot u) (u_price u) (f64_of_Z (u_quantity u)).

Definition volume (buckets : Offer -> list Z) (slot k : Z) (us : list unit_offer) : Z :=
  foldr (fun u n => (if decide (covers buckets slot k (offer_of u)) then u_quantity u else 0) + n) 0 us.

Definition total (us : list unit_offer) : Z := foldr (fun u n => u_quantity u + n) 0 us.

(** Few enough units for exact sums. *)
Definition countable_units (us : list unit_offer) : Prop := Forall (fun u => 0 <= u_quantity u) us /\ total us < 2 ^ 53.

Lemma volume_bounds buckets slot k us : Forall (fun u => 0 <= u_quantity u) us -> 0 <= volume buckets slot k us <= total us.
Proof.
  induction 1 as [|u us Hu Hus IH]; [cbn; lia|]. unfold volume, total in *. cbn [foldr]. case_decide; lia.
Qed.

Lemma height_exact buckets slot k us :
  countable_units us -> height buckets slot k (offer_of <$> us) = f64_of_Z (volume buckets slot k us).
Proof.
  intros [Hus Ht]. unfold height.
  assert (Hgen : forall a, 0 <= a -> a + total us < 2 ^ 53 ->
    foldl (fun v o => if decide (covers buckets slot k o) then f64_add v (Quantity o) else v) (f64_of_Z a) (offer_of <$> us) =
    f64_of_Z (a + volume buckets slot k us)); [|apply (Hgen 0); lia].
  clear Ht. induction us as [|u us IH]; intros a Ha Hlt; [cbn; f_equal; lia|].
  apply Forall_cons in Hus as [Hu Hus]. pose proof (volume_bounds buckets slot k us Hus) as Hv.
  assert (Htot : total (u :: us) = u_quantity u + total us) by done.
  cbn [fmap list_fmap foldl]. unfold volume at 1. cbn [foldr]. fold (volume buckets slot k us). case_decide.
  - cbn [Quantity offer_of]. rewrite f64_add_exact by (unfold small; lia). rewrite IH by (done || lia). f_equal. lia.
  - rewrite IH by (done || lia). f_equal; lia.
Qed.

Lemma demand_antitone slot k k' us :
  Forall (fun u => 0 <= u_quantity u) us -> 0 <= k <= k' ->
  volume (demand_buckets g) slot k' us <= volume (demand_buckets g) slot k us.
Proof.
  intros Hus Hk. induction Hus as [|u us Hu Hus IH]; [done|]. unfold volume in *. cbn [foldr].
  assert (Hc : covers (demand_buckets g) slot k' (offer_of u) -> covers (demand_buckets g) slot k (offer_of u)).
  { unfold covers, demand_buckets. rewrite !elem_of_seqZ. intros []. lia. }
  repeat case_decide; tauto || lia.
Qed.

(** [a] out of [b], as the float nearest to it. *)
Definition share (a b : Z) : float64 := f64_div (f64_of_Z a) (f64_of_Z b).

(** What the marginal sellers get: the part [left] of their [tranche] that
    demand leaves to them, at most 1; nothing when there is none left. *)
Definition marginal_share (left tranche : Z) (ratio : float64) : Prop :=
  (tranche <= 0 -> ratio = f64_zero) /\
  (0 < tranche -> left <= 0 -> f64_eq ratio f64_zero = true) /\
  (0 < tranche -> 0 < left -> ratio = if f64_lt f64_one (share left tranche) then f64_one else share left tranche).

Lemma marginal_spec left tranche : small left -> small tranche ->
  marginal_share left tranche
    (if f64_lt f64_zero (f64_of_Z tranche) then
       let ratio := f64_div (f64_of_Z left) (f64_of_Z tranche) in
       let ratio := if f64_lt ratio f64_zero then f64_zero else ratio in
       if f64_lt f64_one ratio then f64_one else ratio
     else f64_zero).
Proof.
  intros Hl Ht. change f64_zero with (f64_of_Z 0) at 1. rewrite f64_lt_exact by (done || unfold small; lia). fold (share left tranche).
  destruct (0 <? tranche) eqn:Hp; (split; [intros; try lia; done|split]); intros Ht0 Hl0; try lia; cbv zeta.
  - destruct (decide (left = 0)) as [-> |Hne].
    + unfold share. rewrite (of_Z_finite tranche) by done. destruct tranche; try lia. done.
    + destruct (f64_div_sign left tranche Hl Ht Hne Ht0) as [Hn Hs]. fold (share left tranche) in Hn, Hs. replace (left <? 0) with true in Hs by lia.
      pose proof (negative_clamp _ Hn Hs) as Hz. by destruct (if f64_lt (share left tranche) f64_zero then f64_zero else share left tranche) as [[]|[]| |[]].
  - destruct (f64_div_sign left tranche Hl Ht ltac:(lia) Ht0) as [Hn Hs]. fold (share left tranche) in Hn, Hs. replace (left <? 0) with false in Hs by lia.
    by rewrite (positive_clamp _ Hn Hs).
Qed.

(** What a clearing of integer curves is. *)
Definition clears (s d : Z -> Z) (r : SlotResult float64) : Prop :=
  (r = no_result /\ forall k, 1 <= k < NumBuckets g -> ~ (d k <= s k /\ 0 < d k)) \/
  exists k, Bucket r = k /\ 1 <= k < NumBuckets g /\ d k <= s k /\ 0 < d k /\ (forall j, 1 <= j < k -> s j < d j) /\
    ResultPriceCt r = Price g k /\ Supply r = f64_of_Z (s k) /\ SupplyPrev r = f64_of_Z (s (k - 1)) /\
    Demand r = f64_of_Z (d k) /\ Cleared r = f64_of_Z (d k) /\
    InframarginalRatio r = (if d k <? s (k - 1) then share (d k) (s (k - 1)) else f64_one) /\
    marginal_share (d k - s (k - 1)) (s k - s (k - 1)) (MarginalRatio r).

Section slot.
Context (supply demand : list float64) (slot : Z) (s d : Z -> Z).
Hypothesis Hs : forall k, 0 <= k < NumBuckets g -> cell supply slot k = Some (f64_of_Z (s k)) /\ 0 <= s k < 2 ^ 53.
Hypothesis Hd : forall k, 0 <= k < NumBuckets g -> cell demand slot k = Some (f64_of_Z (d k)) /\ 0 <= d k < 2 ^ 53.

Lemma crossing_spec n j :
  1 <= j -> j + Z.of_nat n = NumBuckets g ->
  exists r, crossing g supply demand slot (seqZ j (Z.of_nat n)) = Some r /\
    ((r = no_result /\ forall k, j <= k < NumBuckets g -> s k < d k) \/
     exists k, j <= k < NumBuckets g /\ d k <= s k /\ (forall i, j <= i < k -> s i < d i) /\
       r = mkResult k (Price g k) (f64_of_Z (s k)) (f64_of_Z (s (k - 1))) (f64_of_Z (d k)) f64_zero f64_zero f64_zero).
Proof.
  revert j. induction n as [|n IH]; intros j Hj Hn.
  { exists no_result. split; [done|]. left. split; [done|]. lia. }
  rewrite seqZ_cons by lia. replace (Z.pred (Z.of_nat (S n))) with (Z.of_nat n) by lia. cbn [crossing].
  destruct (Hs j) as [Hsj Bs]; [lia|]. destruct (Hd j) as [Hdj Bd]; [lia|]. unfold cell in Hsj, Hdj.
  rewrite Hsj, Hdj. cbn [mbind option_bind n_lt n_sub n_zero f64_num].
  rewrite f64_sub_exact by (unfold small; lia). change f64_zero with (f64_of_Z 0) at 1.
  rewrite f64_lt_exact by (unfold small; lia). destruct (s j - d j <? 0) eqn:Hlt.
  - destruct (IH (Z.succ j)) as (r & Hr & Hcase); [lia..|]. exists r. split; [done|].
    destruct Hcase as [[-> Hall]|(k & Hk & Hc & Hbefore & ->)].
    + left. split; [done|]. intros k Hk. destruct (decide (k = j)) as [->|]; [lia|]. apply Hall. lia.
    + right. exists k. split_and!; [lia..|done| |done]. intros i Hi. destruct (decide (i = j)) as [->|]; [lia|]. apply Hbefore. lia.
  - replace (0 <? j) with true by lia. destruct (Hs (j - 1)) as [Hp _]; [lia|]. unfold cell in Hp. rewrite Hp. cbn [mbind option_bind].
    eexists. split; [done|]. right. exists j. split_and!; [lia..| |done]. lia.
Qed.

Lemma clearSlot_clears :
  (forall k k', 0 <= k <= k' -> d k' <= d k) -> exists r, clearSlot g supply demand slot = Some r /\ clears s d r.
Proof.
  intros Hanti. pose proof grid_positive as [Hb _]. unfold clearSlot.
  destruct (crossing_spec (Z.to_nat (NumBuckets g - 1)) 1) as (r & Hr & Hcase); [lia..|].
  rewrite Z2Nat.id in Hr by lia. rewrite Hr. cbn [mbind option_bind].
  destruct Hcase as [[-> Hall]|(k & Hk & Hc & Hbefore & ->)].
  { eexists. split; [done|]. left. split; [done|]. intros k Hk. specialize (Hall k Hk). lia. }
  destruct (Hs k) as [_ Bs]; [lia|]. destruct (Hd k) as [_ Bd]; [lia|]. destruct (Hs (k - 1)) as [_ Bp]; [lia|].
  cbn [Bucket]. unfold NoClearing. replace (k =? -1) with false by lia. eexists. split; [done|].
  unfold deriveAllocation. cbn [Demand Supply SupplyPrev MarginalRatio Bucket ResultPriceCt n_lt n_le n_zero n_sub n_div n_one f64_num].
  assert (Hcl : (if f64_lt (f64_of_Z (d k)) (f64_of_Z (s k)) then f64_of_Z (d k) else f64_of_Z (s k)) = f64_of_Z (d k)).
  { rewrite f64_lt_exact by (unfold small; lia). destruct (d k <? s k) eqn:Hl; [done|]. f_equal. lia. }
  rewrite Hcl. change f64_zero with (f64_of_Z 0) at 1. rewrite f64_le_exact by (unfold small; lia).
  destruct (d k <=? 0) eqn:Hz.
  - left. split; [done|]. intros i Hi [Hi1 Hi2]. destruct (Z.lt_ge_cases i k) as [Hlt|Hge].
    + specialize (Hbefore i ltac:(lia)). lia.
    + specialize (Hanti k i ltac:(lia)). lia.
  - right. exists k. split_and!; try done; try lia; cbn [InframarginalRatio MarginalRatio].
    + change f64_zero with (f64_of_Z 0) at 1. rewrite !f64_lt_exact by (unfold small; lia). destruct (d k <? s (k - 1)) eqn:Hlt; [|done].
      by replace (0 <? s (k - 1)) with true by lia.
    + rewrite !f64_sub_exact by (unfold small; lia). apply marginal_spec; unfold small; lia.
Qed.
End slot.
End curves.

Lemma mapM_seqZ {A} (f : Z -> option A) n :
  (forall i, 0 <= i < n -> is_Some (f i)) ->
  exists l, mapM f (seqZ 0 n) = Some l /\ forall i, 0 <= i < n -> exists x, l !! Z.to_nat i = Some x /\ f i = Some x.
Proof.
  intros Hf. assert (Hm : is_Some (mapM f (seqZ 0 n))).
  { apply mapM_is_Some. apply Forall_forall. intros i Hi%elem_of_seqZ. apply Hf. lia. }
  destruct Hm as [l Hl]. exists l. split; [done|]. intros i Hi. apply mapM_Some in Hl.
  destruct (Forall2_lookup_l _ _ _ (Z.to_nat i) i Hl) as (x & Hx & Hfx); [|by exists x].
  apply lookup_seqZ. lia.
Qed.

(** ** Which buckets an offer is in *)

(** A float against an integer, by their values: [x <= k] and [k <= x]. *)
Definition at_most (x : float64) (k : Z) : bool :=
  match x with
  | S754_zero _ => 0 <=? k
  | S754_finite s m e => let n := cond_Zopp s (Zpos m) in if 0 <=? e then n * 2 ^ e <=? k else n <=? k * 2 ^ (- e)
  | S754_infinity s => s
  | S754_nan => false
  end.

Definition at_least (x : float64) (k : Z) : bool :=
  match x with
  | S754_zero _ => k <=? 0
  | S754_finite s m e => let n := cond_Zopp s (Zpos m) in if 0 <=? e then k <=? n * 2 ^ e else k * 2 ^ (- e) <=? n
  | S754_infinity s => negb s
  | S754_nan => false
  end.

(** The price of an offer in ticks, less and more the tolerance. *)
Definition lowest (g : GridSpec) (u : unit_offer) : float64 := f64_sub (f64_div (u_price u) (TickCt g)) tickEpsilon.
Definition highest (g : GridSpec) (u : unit_offer) : float64 := f64_add (f64_div (u_price u) (TickCt g)) tickEpsilon.

(** A price that is, in ticks, an int. *)
Definition int_sized (x : float64) : bool :=
  match f64_floor x, f64_ceil x with Some a, Some b => (- 2 ^ 63 <=? a) && (b <? 2 ^ 63) | _, _ => false end.

Lemma ceil_at_most x z k : f64_ceil x = Some z -> z <= k <-> at_most x k = true.
Proof.
  destruct x as [s|s| |s m e]; try done; cbn; [intros [= <-]; lia|]. intros [= <-]. case_match; [lia|].
  set (n := cond_Zopp s (Zpos m)). assert (Hp : 0 < 2 ^ (- e)) by (apply Z.pow_pos_nonneg; lia).
  pose proof (Z.div_mod (- n) (2 ^ (- e)) ltac:(lia)). pose proof (Z.mod_pos_bound (- n) (2 ^ (- e)) Hp). rewrite Z.leb_le. split; nia.
Qed.

Lemma floor_at_least x z k : f64_floor x = Some z -> k <= z <-> at_least x k = true.
Proof.
  destruct x as [s|s| |s m e]; try done; cbn; [intros [= <-]; lia|]. intros [= <-]. case_match; [lia|].
  set (n := cond_Zopp s (Zpos m)). assert (Hp : 0 < 2 ^ (- e)) by (apply Z.pow_pos_nonneg; lia).
  pose proof (Z.div_mod n (2 ^ (- e)) ltac:(lia)). pose proof (Z.mod_pos_bound n (2 ^ (- e)) Hp). rewrite Z.leb_le. split; nia.
Qed.

Lemma floor_ceil x a b : f64_floor x = Some a -> f64_ceil x = Some b -> a <= b.
Proof.
  destruct x as [s|s| |s m e]; try done; cbn; [intros [= <-] [= <-]; lia|]. intros [= <-] [= <-]. case_match; [lia|].
  set (n := cond_Zopp s (Zpos m)). assert (Hp : 0 < 2 ^ (- e)) by (apply Z.pow_pos_nonneg; lia).
  pose proof (Z.div_mod n (2 ^ (- e)) ltac:(lia)). pose proof (Z.mod_pos_bound n (2 ^ (- e)) Hp).
  pose proof (Z.div_mod (- n) (2 ^ (- e)) ltac:(lia)). pose proof (Z.mod_pos_bound (- n) (2 ^ (- e)) Hp). nia.
Qed.

(** The units on offer at a bucket: of the sellers who ask for at most its
    price, and of the buyers who pay at least its price. *)
Definition supplied (g : GridSpec) (slot k : Z) (us : list unit_offer) : Z :=
  foldr (fun u n => (if (u_slot u =? slot) && at_most (lowest g u) k then u_quantity u else 0) + n) 0 us.
Definition demanded (g : GridSpec) (slot k : Z) (us : list unit_offer) : Z :=
  foldr (fun u n => (if (u_slot u =? slot) && at_least (highest g u) k then u_quantity u else 0) + n) 0 us.

Section buckets.
Context `{GoConv} (g : GridSpec).

Lemma supply_at u k : int_sized (lowest g u) = true -> 0 <= k < NumBuckets g -> k ∈ supply_buckets g (offer_of u) <-> at_most (lowest g u) k = true.
Proof.
  unfold int_sized, supply_buckets, first_bucket. cbn [PriceCt offer_of]. fold (lowest g u). intros Hi Hk. rewrite elem_of_seqZ.
  destruct (f64_floor (lowest g u)) as [a|] eqn:Ha; [|done]. destruct (f64_ceil (lowest g u)) as [b|] eqn:Hb; [|done].
  pose proof (floor_ceil _ _ _ Ha Hb). rewrite <- (ceil_at_most _ _ k Hb). unfold f64_int_of.
  replace ((- 2 ^ 63 <=? b) && (b <? 2 ^ 63)) with true by lia. case_match; lia.
Qed.

Lemma demand_at u k : int_sized (highest g u) = true -> 0 <= k < NumBuckets g -> k ∈ demand_buckets g (offer_of u) <-> at_least (highest g u) k = true.
Proof.
  unfold int_sized, demand_buckets, last_bucket. cbn [PriceCt offer_of]. fold (highest g u). intros Hi Hk. rewrite elem_of_seqZ.
  destruct (f64_floor (highest g u)) as [a|] eqn:Ha; [|done]. destruct (f64_ceil (highest g u)) as [b|] eqn:Hb; [|done].
  pose proof (floor_ceil _ _ _ Ha Hb). rewrite <- (floor_at_least _ _ k Ha). unfold f64_int_of.
  replace ((- 2 ^ 63 <=? a) && (a <? 2 ^ 63)) with true by lia. case_match; lia.
Qed.

Lemma volume_supplied slot k us : Forall (fun u => int_sized (lowest g u) = true) us -> 0 <= k < NumBuckets g ->
  volume (supply_buckets g) slot k us = supplied g slot k us.
Proof.
  intros Hus Hk. induction Hus as [|u us Hu Hus IH]; [done|]. unfold volume, supplied in *. cbn [foldr]. rewrite IH. f_equal.
  pose proof (supply_at u k Hu Hk) as Ha. unfold covers. cbn [Slot offer_of]. destruct (at_most (lowest g u) k); case_decide; case_match; try done; exfalso; lia || naive_solver lia.
Qed.

Lemma volume_demanded slot k us : Forall (fun u => int_sized (highest g u) = true) us -> 0 <= k < NumBuckets g ->
  volume (demand_buckets g) slot k us = demanded g slot k us.
Proof.
  intros Hus Hk. induction Hus as [|u us Hu Hus IH]; [done|]. unfold volume, demanded in *. cbn [foldr]. rewrite IH. f_equal.
  pose proof (demand_at u k Hu Hk) as Ha. unfold covers. cbn [Slot offer_of]. destruct (at_least (highest g u) k); case_decide; case_match; try done; exfalso; lia || naive_solver lia.
Qed.
End buckets.

(** Clearings of curves that agree on the grid are the same. *)
Lemma clears_same g s d s' d' r : (forall k, 0 <= k < NumBuckets g -> s k = s' k /\ d k = d' k) -> clears g s d r -> clears g s' d' r.
Proof.
  intros Hsame [[-> Hn]|(k & Hb & Hk & Hc & Hp & Hbefore & Hrest)].
  - left. split; [done|]. intros k Hk. destruct (Hsame k ltac:(lia)) as [<- <-]. by apply Hn.
  - right. exists k. destruct (Hsame k ltac:(lia)) as [<- <-], (Hsame (k - 1) ltac:(lia)) as [<- _]. split_and!; try done; try lia.
    + intros j Hj. destruct (Hsame j ltac:(lia)) as [<- <-]. by apply Hbefore.
    + apply Hrest.
    + apply Hrest.
    + apply Hrest.
    + apply Hrest.
    + apply Hrest.
    + apply Hrest.
    + apply Hrest.
Qed.


(** ** Witness *)

Section witnesses.
#[local] Instance wit_conv : GoConv := {| oob_uint32 := fun _ => 0; oob_int := fun _ => 0 |}.

(** One slot, eight buckets of one cent. *)
Definition wit_grid : GridSpec := mkGrid f64_one 8 1.
Definition wit_sells : list unit_offer := [mkUnits 0 (f64_of_Z 2) 5; mkUnits 0 (f64_of_Z 4) 5].
Definition wit_buys : list unit_offer := [mkUnits 0 (f64_of_Z 6) 7; mkUnits 0 (f64_of_Z 3) 4].

End witnesses.
End Pool.
