(* ===== verification/Calibration.v ===== *)
(** * Depth calibration ([pkg/ares/crypto/fhecalib])

    The search for the smallest multiplicative depth at which a circuit is
    accurate: the sweep, the modulus budget, and the run of a circuit at one
    depth over the encryption library. *)

From Stdlib Require Import SpecFloat.
From S2P Require Import Prelude Float64 Base64 HelperClient HelperServer.
Import HelperClient HelperServer.

#[local] Open Scope Z_scope.
#[local] Open Scope go_scope.

Module Calibration.

(** ** Parameters and results ([calibrator.go]) *)

Record CalibrationParams := mkCalibration {
  Base : ContractParams;
  StartDepth : Z;
  MaxDepth : Z;
  Tolerance : float64
}.

Record CalibrationResult := mkCalibrated {
  Circuit : string;
  ResultDepth : Z;
  ResultScalingModSize : Z;
  ResultRingDim : Z;
  AchievedAbsError : float64;
  Passed : bool
}.

Definition maxSlotAbsError (got want : list float64) : float64 :=
  foldl (fun worst gw => let d := f64_abs (f64_sub gw.1 gw.2) in if f64_gt d worst then d else worst)
    f64_zero (zip got want).

(** ** The sweep *)

(** [runAtDepth]: an error, or the error bound and whether the modulus cap was
    hit; it may change the state of the library. *)
Definition runner (W : Type) : Type := Z -> W -> W * (string + float64 * bool).

Inductive calib_error :=
| RunFailed (depth : Z) (e : string)
| ErrModulusCap (depth : Z)
| Unavailable (e : string)
| BadStartDepth.

Definition better (e best : float64) : float64 := if f64_lt e best then e else best.

Definition with_best (p : CalibrationParams) (best : float64) : CalibrationResult :=
  mkCalibrated "" 0 (ScalingModSize (Base p)) (RingDim (Base p)) best false.

(** The loop, whose counter is a [uint32]; [None] is out of fuel. *)
Fixpoint sweep_loop {W} (fuel : nat) (p : CalibrationParams) (run : runner W) (depth : Z) (best : float64) (w : W)
    : option (W * (CalibrationResult * option calib_error)) :=
  match fuel with
  | O => None
  | S fuel =>
      if MaxDepth p <? depth then Some (w, (with_best p best, None))
      else match run depth w with
      | (w', inl e) => Some (w', (with_best p best, Some (RunFailed depth e)))
      | (w', inr (absErr, capHit)) =>
          if capHit then Some (w', (with_best p best, Some (ErrModulusCap depth)))
          else
            let best := better absErr best in
            if f64_le absErr (Tolerance p) then
              Some (w', (mkCalibrated "" depth (ScalingModSize (Base p)) (RingDim (Base p)) best true, None))
            else sweep_loop fuel p run (wrap32u (depth + 1)) best w'
      end
  end.

Definition sweep {W} (fuel : nat) (p : CalibrationParams) (run : runner W) (w : W) :=
  sweep_loop fuel p run (StartDepth p) f64_inf w.

(** ** The modulus budget ([calibrate_openfhe.go]) *)

Definition ckksFirstModSize : Z := 60.

Definition maxLog2Q (ringDim : Z) : Z := ringDim * 1761 / 65536.

Definition wrap64u (z : Z) : Z := z mod 2 ^ 64.

Definition exceedsModulusBudget (ringDim depth scalingModSize : Z) : bool :=
  if (ringDim =? 0) || (scalingModSize =? 0) then false
  else
    let totalBits := wrap64u (ckksFirstModSize + wrap64u (depth * wrap64u scalingModSize)) in
    maxLog2Q ringDim <? totalBits.

(** [cgo.DefaultContractParams]: the doubling loop, on a [uint32]. *)
Fixpoint grow (fuel : nat) (ringDim target : Z) : option Z :=
  match fuel with
  | O => None
  | S fuel => if ringDim <? target then grow fuel (wrap32u (ringDim * 2)) target else Some ringDim
  end.

Definition DefaultContractParams (fuel : nat) (profileDim depth : Z) : option openfheParams :=
  ringDim ← (if 0 <? profileDim then
               r ← grow fuel 1 (wrap32u (wrap64 (profileDim * 2))); Some (if r <? 1024 then 1024 else r)
             else Some 1024);
  Some (mkOpenFHE ringDim (ldexp1 50) (if depth =? 0 then 30 else depth)).

(** Lower-casing of ASCII letters; the library's messages have no others. *)
Definition lower (c : Ascii.ascii) : Ascii.ascii :=
  let n := Ascii.N_of_ascii c in if (65 <=? n)%N && (n <=? 90)%N then Ascii.ascii_of_N (n + 32) else c.

Fixpoint ToLower (s : string) : string := match s with EmptyString => "" | String c s => String (lower c) (ToLower s) end.

Definition Contains (s sub : string) : bool := match String.index 0 sub s with Some _ => true | None => false end.

Definition modulusCapMarkers : list string :=
  ["ciphertext modulus is too large"; "not enough to support"; "hestd"].

Definition isModulusCap (err : string) : bool := existsb (Contains (ToLower err)) modulusCapMarkers.

(** ** A circuit at one depth *)

Section calibrate.
Context {W : Type} `{Bridge W}.

(** Operations of the library that only this package uses. *)
Class BridgeEval := {
  SmokeCKKS : B W unit;
  EvalProductSumForContract : openfheParams -> EvalKeyFinal -> bytes -> bytes -> Z -> B W bytes;
  EvalAtIndexCKKSForContract : openfheParams -> bytes -> bytes -> Z -> B W bytes
}.
Context `{BridgeEval}.

Record cgoHandle := mkHandle {
  params : ContractParams;
  cgoParams : openfheParams;
  evalKeys : EvalKeyFinal;
  jointPK : bytes
}.

(** An error with the text of a [%w] wrap in front. *)
Definition wrapped {A} (prefix : string) (m : B W A) : B W A := fun w =>
  match m w with
  | (w', inl e) => (w', inl (prefix +:+ e))
  | r => r
  end.

Definition EvalMult (h : cgoHandle) (ctA ctB : bytes) : B W bytes :=
  EvalMultCKKSForContract (cgoParams h) (EvalMultFinal (evalKeys h)) ctA ctB.

Definition EvalSubConst (h : cgoHandle) (ct : bytes) (vals : list float64) : B W bytes :=
  bbind (wrapped "fhecalib: encrypt center: " (EncryptCKKSForContract (cgoParams h) (jointPK h) vals))
    (fun encCenter => EvalSubCKKSForContract (cgoParams h) ct encCenter).

Definition EvalProductSum (h : cgoHandle) (ctLeft ctRight : bytes) (nSlots : Z) : B W bytes :=
  EvalProductSumForContract (cgoParams h) (evalKeys h) ctLeft ctRight nSlots.

Definition EvalAdd (h : cgoHandle) (ctA ctB : bytes) : B W bytes := EvalAddCKKSForContract (cgoParams h) ctA ctB.
Definition EvalSub (h : cgoHandle) (ctA ctB : bytes) : B W bytes := EvalSubCKKSForContract (cgoParams h) ctA ctB.

Definition EvalPoly (h : cgoHandle) (ct : bytes) (coeffs : list float64) : B W bytes :=
  EvalPolyCKKSForContract (cgoParams h) (EvalMultFinal (evalKeys h)) ct coeffs.

Definition EvalMultConst (h : cgoHandle) (ct : bytes) (scalar : float64) : B W bytes :=
  EvalConstMultCKKSForContract (cgoParams h) ct scalar.

Definition EvalAtIndex (h : cgoHandle) (ct : bytes) (index : Z) : B W bytes :=
  EvalAtIndexCKKSForContract (cgoParams h) (EvalSumFinal (evalKeys h)) ct index.

Definition Encrypt (h : cgoHandle) (vals : list float64) : B W bytes :=
  EncryptCKKSForContract (cgoParams h) (jointPK h) vals.

Definition NewContextHandle (p : ContractParams) (keys : EvalKeyFinal) (pk : bytes) : cgoHandle :=
  mkHandle p (mkOpenFHE (RingDim p) (if f64_eq (ScalingFactor p) f64_zero then ldexp1 50 else ScalingFactor p) (Depth p)) keys pk.

(** [CircuitUnderTest]. *)
Record CircuitUnderTest := mkCUT {
  cut_Name : string;
  cut_Inputs : list (list float64);
  cut_Expected : list (list float64) -> list float64;
  cut_Eval : cgoHandle -> list bytes -> B W bytes
}.

Definition squareCircuit (input : list float64) : CircuitUnderTest := {|
  cut_Name := "elementwise-square";
  cut_Inputs := [input];
  cut_Expected := fun inputs => (fun x => f64_mul x x) <$> default [] (head inputs);
  cut_Eval := fun h enc => EvalMult h (default [] (head enc)) (default [] (head enc)) |}.

Notation "'let$' x ':=' p 'in' k" := (bbind p (fun x => k)) (at level 200, x pattern, p at level 100, k at level 200).

(** The participants' shares after the lead's, from slot [i] on. *)
Fixpoint round1_rest (p : openfheParams) (base : bytes * bytes) (i : nat) (shares : list KeyShare) : B W (list (bytes * bytes)) :=
  match shares with
  | [] => bret []
  | s :: shares' =>
      let$ r1 := wrapped ("evalkey round1 participant " +:+ pretty i +:+ ": ")
                   (b_EvalKeyRound1Participant p (ks_SecretKeyShare s) base.1 base.2 (ks_PublicKey s)) in
      let$ rest := round1_rest p base (S i) shares' in bret (r1 :: rest)
  end.

Fixpoint round2_all (p : openfheParams) (joined finalPK : bytes) (i : nat) (shares : list KeyShare) : B W (list bytes) :=
  match shares with
  | [] => bret []
  | s :: shares' =>
      let$ r2 := wrapped ("evalkey round2 participant " +:+ pretty i +:+ ": ")
                   (b_EvalKeyRound2Participant p (ks_SecretKeyShare s) joined finalPK (ks_Lead s)) in
      let$ rest := round2_all p joined finalPK (S i) shares' in bret (r2 :: rest)
  end.

Definition buildJointEvalMultN2 (p : openfheParams) (first : KeyShare) (others : list KeyShare) : B W EvalKeyFinal :=
  let shares := first :: others in
  let finalPK := from_option ks_PublicKey [] (last shares) in
  let$ lead := wrapped "evalkey round1 lead: " (b_EvalKeyRound1Lead p (ks_SecretKeyShare first)) in
  let$ rest := round1_rest p lead 1 others in
  let r1 := lead :: rest in
  let$ combined := wrapped "combine round1: " (b_CombineEvalKeyRound1 p (ks_PublicKey <$> shares) r1.*1 r1.*2) in
  let$ fs := round2_all p combined.1 finalPK 0 shares in
  wrapped "combine round2: " (b_CombineEvalKeyRound2 p finalPK fs combined.2).

Fixpoint encrypt_all (p : openfheParams) (pk : bytes) (i : nat) (inputs : list (list float64)) : B W (list bytes) :=
  match inputs with
  | [] => bret []
  | vec :: inputs' =>
      let$ ct := wrapped ("encrypt input " +:+ pretty i +:+ ": ") (EncryptCKKSForContract p pk vec) in
      let$ cts := encrypt_all p pk (S i) inputs' in bret (ct :: cts)
  end.

(** Key generation, encryption, the circuit, threshold decryption. *)
Definition measure (cut : CircuitUnderTest) (cp : openfheParams) (depth scalingModSize : Z) : B W float64 :=
  let inputs := cut_Inputs cut in
  let want := cut_Expected cut inputs in
  let$ first := wrapped "keygen first: " (DistributedKeyGenFirst cp) in
  let$ second := wrapped "keygen next: " (DistributedKeyGenNext cp (ks_PublicKey first)) in
  let$ keys := buildJointEvalMultN2 cp first [second] in
  let$ encIn := encrypt_all cp (ks_PublicKey second) 0 inputs in
  let h := mkHandle (mkParams "" (o_RingDim cp) f64_zero scalingModSize depth) cp keys (ks_PublicKey second) in
  let$ encOut := wrapped "circuit eval: " (cut_Eval cut h encIn) in
  let$ p0 := wrapped "partial decrypt lead: " (PartialDecryptCKKSForContract cp encOut (ks_SecretKeyShare first) true) in
  let$ p1 := wrapped "partial decrypt follower: " (PartialDecryptCKKSForContract cp encOut (ks_SecretKeyShare second) false) in
  let$ got := wrapped "fuse partials: " (FuseCKKSPartialsForContract cp [p0; p1] (zlen want)) in
  bret (maxSlotAbsError got want).

Definition effective_mod_size (p : CalibrationParams) : Z :=
  if ScalingModSize (Base p) =? 0 then 50 else ScalingModSize (Base p).

(** The parameters a depth is run with. *)
Definition calib_params (p : CalibrationParams) (defaults : openfheParams) : openfheParams :=
  if negb (RingDim (Base p) =? 0) then mkOpenFHE (RingDim (Base p)) (o_ScalingFactor defaults) (o_Depth defaults) else defaults.

Definition runAtDepth (cut : CircuitUnderTest) (p : CalibrationParams) (cp : openfheParams) : runner W := fun depth w =>
  if exceedsModulusBudget (o_RingDim cp) depth (effective_mod_size p) then (w, inr (f64_zero, true))
  else match measure cut cp depth (effective_mod_size p) w with
  | (w', inl e) => (w', if isModulusCap e then inr (f64_zero, true) else inl e)
  | (w', inr absErr) => (w', inr (absErr, false))
  end.

Definition no_calibration : CalibrationResult := mkCalibrated "" 0 0 0 f64_zero false.

(** [Calibrate]; [fuel] bounds the sweep and [ring_fuel] the doubling of the
    ring dimension, which every depth repeats with the same result. *)
Definition Calibrate (fuel ring_fuel : nat) (cut : CircuitUnderTest) (p : CalibrationParams) (profileDim : Z) (w : W)
    : option (W * (CalibrationResult * option calib_error)) :=
  match SmokeCKKS w with
  | (w, inl e) => Some (w, (no_calibration, Some (Unavailable e)))
  | (w, inr _) =>
      if StartDepth p =? 0 then Some (w, (no_calibration, Some BadStartDepth))
      else if MaxDepth p <? StartDepth p then
        Some (w, (mkCalibrated (cut_Name cut) 0 (ScalingModSize (Base p)) (RingDim (Base p)) f64_inf false, None))
      else
        d0 ← DefaultContractParams ring_fuel profileDim (StartDepth p);
        let at_depth depth := calib_params p (default d0 (DefaultContractParams ring_fuel profileDim depth)) in
        out ← sweep fuel p (fun depth => runAtDepth cut p (at_depth depth) depth) w;
        let '(w', (res, err)) := out in
        Some (w', (mkCalibrated (cut_Name cut) (ResultDepth res) (ResultScalingModSize res) (o_RingDim (at_depth (StartDepth p)))
                     (AchievedAbsError res) (Passed res), err))
  end.
End calibrate.

(** ** The sweep finds the first viable depth *)

Section sweep.
Context {W : Type} (p : CalibrationParams) (run : runner W).

(** The depths from [a] up to [b] ran without error and missed the tolerance. *)
Inductive inconclusive : Z -> Z -> float64 -> float64 -> W -> W -> Prop :=
| IncNone a best w : inconclusive a a best best w w
| IncStep a b best best' w w1 w' e :
    run a w = (w1, inr (e, false)) -> f64_le e (Tolerance p) = false ->
    inconclusive (a + 1) b (better e best) best' w1 w' -> inconclusive a b best best' w w'.

Lemma inconclusive_le a b best best' w w' : inconclusive a b best best' w w' -> a <= b.
Proof. induction 1; lia. Qed.

(** How a sweep that stops at depth [d] ends. *)
Inductive verdict (d : Z) (best : float64) (w : W) : W -> CalibrationResult -> option calib_error -> Prop :=
| Exhausted : d = MaxDepth p + 1 -> verdict d best w w (with_best p best) None
| Failed w' e : d <= MaxDepth p -> run d w = (w', inl e) -> verdict d best w w' (with_best p best) (Some (RunFailed d e))
| Capped w' x : d <= MaxDepth p -> run d w = (w', inr (x, true)) -> verdict d best w w' (with_best p best) (Some (ErrModulusCap d))
| Viable w' e : d <= MaxDepth p -> run d w = (w', inr (e, false)) -> f64_le e (Tolerance p) = true ->
    verdict d best w w' (mkCalibrated "" d (ScalingModSize (Base p)) (RingDim (Base p)) (better e best) true) None.

Lemma sweep_loop_verdict n depth best w :
  0 <= depth -> MaxDepth p < 2 ^ 32 - 1 -> depth + Z.of_nat n = MaxDepth p + 1 ->
  exists d best' w1 w' res err,
    sweep_loop (S n) p run depth best w = Some (w', (res, err)) /\
    inconclusive depth d best best' w w1 /\ verdict d best' w1 w' res err.
Proof.
  revert depth best w. induction n as [|n IH]; intros depth best w H0 Hm Hn.
  { exists depth, best, w, w, (with_best p best), None. cbn [sweep_loop].
    replace (MaxDepth p <? depth) with true by lia. split_and!; [done|constructor|constructor; lia]. }
  cbn [sweep_loop]. replace (MaxDepth p <? depth) with false by lia.
  destruct (run depth w) as [w1 [e|[e []]]] eqn:Hr.
  - exists depth, best, w, w1, (with_best p best), (Some (RunFailed depth e)). split_and!; [done|constructor|by constructor; [lia|]].
  - exists depth, best, w, w1, (with_best p best), (Some (ErrModulusCap depth)). split_and!; [done|constructor|by econstructor; [lia|]].
  - destruct (f64_le e (Tolerance p)) eqn:Ht.
    + exists depth, best, w. do 3 eexists. split_and!; [done|constructor|by constructor; [lia|..]].
    + assert (Hw : wrap32u (depth + 1) = depth + 1) by (unfold wrap32u; apply Z.mod_small; lia). rewrite Hw.
      destruct (IH (depth + 1) (better e best) w1) as (d & best' & w2 & w' & res & err & Hs & Hi & Hv); [lia..|].
      exists d, best', w2, w', res, err. split_and!; [exact Hs| |done]. by econstructor.
Qed.

(** The sweep stops at the latest at a depth that hits the modulus cap. *)
Lemma sweep_loop_capped n depth best w :
  0 <= depth -> MaxDepth p < 2 ^ 32 -> depth + Z.of_nat n <= MaxDepth p ->
  (forall w, exists w' x, run (depth + Z.of_nat n) w = (w', inr (x, true))) ->
  exists d best' w1 w' res err,
    sweep_loop (S n) p run depth best w = Some (w', (res, err)) /\
    inconclusive depth d best best' w w1 /\ verdict d best' w1 w' res err.
Proof.
  revert depth best w. induction n as [|n IH]; intros depth best w H0 Hm Hn Hcap; cbn [sweep_loop]; replace (MaxDepth p <? depth) with false by lia.
  { destruct (Hcap w) as (w' & x & Hr). rewrite Z.add_0_r in Hr. rewrite Hr. exists depth, best, w, w', (with_best p best), (Some (ErrModulusCap depth)).
    split_and!; [done|constructor|by econstructor; [lia|]]. }
  destruct (run depth w) as [w1 [e|[e []]]] eqn:Hr.
  - exists depth, best, w, w1, (with_best p best), (Some (RunFailed depth e)). split_and!; [done|constructor|by constructor; [lia|]].
  - exists depth, best, w, w1, (with_best p best), (Some (ErrModulusCap depth)). split_and!; [done|constructor|by econstructor; [lia|]].
  - destruct (f64_le e (Tolerance p)) eqn:Ht.
    + exists depth, best, w. do 3 eexists. split_and!; [done|constructor|by constructor; [lia|..]].
    + assert (Hw : wrap32u (depth + 1) = depth + 1) by (unfold wrap32u; apply Z.mod_small; lia). rewrite Hw.
      destruct (IH (depth + 1) (better e best) w1) as (d & best' & w2 & w' & res & err & Hs & Hi & Hv); [lia..| |].
      { intros w0. replace (depth + 1 + Z.of_nat n) with (depth + Z.of_nat (S n)) by lia. apply Hcap. }
      exists d, best', w2, w', res, err. split_and!; [exact Hs| |done]. by econstructor.
Qed.

Lemma sweep_loop_forever fuel depth best w :
  MaxDepth p = 2 ^ 32 - 1 -> 0 <= depth < 2 ^ 32 ->
  (forall d w, exists w' e, run d w = (w', inr (e, false)) /\ f64_le e (Tolerance p) = false) ->
  sweep_loop fuel p run depth best w = None.
Proof.
  intros Hm Hd Hr. revert depth best w Hd. induction fuel as [|fuel IH]; intros depth best w Hd; [done|]. cbn [sweep_loop].
  replace (MaxDepth p <? depth) with false by lia. destruct (Hr depth w) as (w' & e & -> & ->). apply IH.
  unfold wrap32u. apply Z.mod_pos_bound. lia.
Qed.
End sweep.

(** *** The modulus budget ends every calibration *)

Lemma default_ring fuel profileDim depth depth' d d' :
  DefaultContractParams fuel profileDim depth = Some d -> DefaultContractParams fuel profileDim depth' = Some d' ->
  o_RingDim d = o_RingDim d' /\ 1024 <= o_RingDim d.
Proof.
  unfold DefaultContractParams. destruct (0 <? profileDim).
  - destruct (grow fuel 1 _) as [r|]; [|done]. cbn. intros [= <-] [= <-]. cbn. split; [done|]. case_match; lia.
  - cbn. intros [= <-] [= <-]. done.
Qed.

Lemma default_total fuel profileDim depth depth' :
  is_Some (DefaultContractParams fuel profileDim depth) -> is_Some (DefaultContractParams fuel profileDim depth').
Proof. unfold DefaultContractParams. destruct (0 <? profileDim); [|done]. by destruct (grow fuel 1 _) as [r|]. Qed.

Lemma grow_below fuel r target d : 0 <= r < 2 ^ 32 -> grow fuel r target = Some d -> 0 <= d < 2 ^ 32.
Proof.
  revert r. induction fuel as [|fuel IH]; intros r Hr; [done|]. cbn [grow]. destruct (r <? target); [|by intros [= <-]].
  apply IH. unfold wrap32u. apply Z.mod_pos_bound. lia.
Qed.

Lemma default_ring_below fuel profileDim depth d : DefaultContractParams fuel profileDim depth = Some d -> o_RingDim d < 2 ^ 32.
Proof.
  unfold DefaultContractParams. destruct (0 <? profileDim); [|by intros [= <-]]. destruct (grow fuel 1 _) as [r|] eqn:Hg; [|done].
  apply grow_below in Hg; [|lia]. cbn. intros [= <-]. cbn. case_match; lia.
Qed.

(** No ring dimension allows 2^27 levels. *)
Lemma budget_exceeded ringDim depth size : 0 < ringDim < 2 ^ 32 -> 2 ^ 27 <= depth < 2 ^ 32 -> 0 < size < 2 ^ 31 ->
  exceedsModulusBudget ringDim depth size = true.
Proof.
  intros Hr Hd Hs. unfold exceedsModulusBudget. replace ((ringDim =? 0) || (size =? 0)) with false by lia. unfold wrap64u.
  rewrite (Z.mod_small size) by lia. rewrite (Z.mod_small (depth * size)) by nia. rewrite Z.mod_small by (unfold ckksFirstModSize; nia).
  unfold maxLog2Q, ckksFirstModSize. assert (ringDim * 1761 / 65536 <= 2 ^ 27) by (apply Z.div_le_upper_bound; lia). nia.
Qed.

Lemma calibration_returns {W} `{Bridge W} `{!BridgeEval (W := W)} ring_fuel cut p profileDim (w : W) :
  0 <= RingDim (Base p) < 2 ^ 32 -> 0 <= ScalingModSize (Base p) < 2 ^ 31 -> 0 <= StartDepth p -> MaxDepth p < 2 ^ 32 ->
  is_Some (DefaultContractParams ring_fuel profileDim (StartDepth p)) ->
  exists fuel out, Calibrate fuel ring_fuel cut p profileDim w = Some out.
Proof.
  intros Hring Hms Hst Hmax [d0 Hd0]. unfold Calibrate. destruct (SmokeCKKS w) as [w0 [e|u]]; [by eexists O, _|].
  destruct (StartDepth p =? 0) eqn:Hst0; [by eexists O, _|]. destruct (MaxDepth p <? StartDepth p) eqn:Hle; [by eexists O, _|]. rewrite Hd0. cbn [mbind option_bind].
  set (at_depth := fun depth => calib_params p (default d0 (DefaultContractParams ring_fuel profileDim depth))).
  set (run := fun depth => runAtDepth cut p (at_depth depth) depth).
  assert (Hret : exists fuel out, sweep fuel p run w0 = Some out).
  { destruct (Z.lt_ge_cases (MaxDepth p) (2 ^ 32 - 1)) as [Hlt|Hge].
    { destruct (sweep_loop_verdict p run (Z.to_nat (MaxDepth p + 1 - StartDepth p)) (StartDepth p) f64_inf w0) as (d & best & w1 & w' & res & err & Hs & _); [lia..|].
      by exists (S (Z.to_nat (MaxDepth p + 1 - StartDepth p))), (w', (res, err)). }
    set (top := Z.max (StartDepth p) (2 ^ 27)). destruct (sweep_loop_capped p run (Z.to_nat (top - StartDepth p)) (StartDepth p) f64_inf w0) as (d & best & w1 & w' & res & err & Hs & _); [lia..| |].
    - intros w1. rewrite Z2Nat.id by lia. replace (StartDepth p + (top - StartDepth p)) with top by lia. unfold run, runAtDepth.
      assert (Hrd : 0 < o_RingDim (at_depth top) < 2 ^ 32).
      { unfold at_depth, calib_params. destruct (default_total ring_fuel profileDim (StartDepth p) top) as [dt Hdt]; [by exists d0|]. rewrite Hdt. cbn [default].
        destruct (default_ring _ _ _ _ _ _ Hd0 Hdt) as [He Hb]. pose proof (default_ring_below _ _ _ _ Hdt).
        destruct (Z.eqb_spec (RingDim (Base p)) 0); cbn [negb o_RingDim id]; lia. }
      rewrite budget_exceeded; [by eexists _, _|done|lia|]. unfold effective_mod_size. case_match; lia.
    - by exists (S (Z.to_nat (top - StartDepth p))), (w', (res, err)). }
  destruct Hret as (fuel & [w' [res err]] & Hs). eexists fuel, _. change (sweep fuel p _ w0) with (sweep fuel p run w0). rewrite Hs. reflexivity.
Qed.

(** C27: the depth sweep ends with the first viable depth.  When [MaxDepth] is
    below the largest [uint32], the sweep returns after at most one run per
    depth: it stops at the first depth that fails, hits the modulus cap or
    meets the tolerance, and reports exactly that, or that none did with the
    best error seen.  When it is the largest [uint32] the sweep itself may not
    return: if every run is inconclusive, without an error and without the cap,
    the counter wraps.  Calibration, its only caller, returns all the same
    wherever the defaults for the profile's dimension do: the modulus budget
    caps every ring dimension before depth 2^27. *)
Theorem sweep_outcome {W} p (run : runner W) w :
  0 <= StartDepth p <= MaxDepth p + 1 ->
  (MaxDepth p < 2 ^ 32 - 1 ->
     exists d best w1 w' res err,
       sweep (S (Z.to_nat (MaxDepth p + 1 - StartDepth p))) p run w = Some (w', (res, err)) /\
       inconclusive p run (StartDepth p) d f64_inf best w w1 /\ verdict p run d best w1 w' res err) /\
  (MaxDepth p = 2 ^ 32 - 1 -> StartDepth p < 2 ^ 32 ->
     (forall d w, exists w' e, run d w = (w', inr (e, false)) /\ f64_le e (Tolerance p) = false) ->
     forall fuel, sweep fuel p run w = None) /\
  (forall (HB : Bridge W) (HE : BridgeEval (W := W)) ring_fuel cut profileDim,
     0 <= RingDim (Base p) < 2 ^ 32 -> 0 <= ScalingModSize (Base p) < 2 ^ 31 -> MaxDepth p < 2 ^ 32 ->
     is_Some (DefaultContractParams ring_fuel profileDim (StartDepth p)) ->
     exists fuel out, Calibrate fuel ring_fuel cut p profileDim w = Some out).
Proof.
  intros Hs. split_and!.
  - intros Hm. apply sweep_loop_verdict; lia.
  - intros Hm Hlt Hr fuel. apply sweep_loop_forever; [done|lia|done].
  - intros HB HE ring_fuel cut profileDim Hr Hms Hmax Hd. apply calibration_returns; done || lia.
Qed.

(** ** Accepted parameters *)

Lemma sweep_loop_passed {W} fuel p (run : runner W) depth best w w' res err :
  0 <= depth -> sweep_loop fuel p run depth best w = Some (w', (res, err)) -> Passed res = true ->
  exists w1 w2 e, run (ResultDepth res) w1 = (w2, inr (e, false)) /\ 0 <= ResultDepth res <= MaxDepth p.
Proof.
  revert depth best w. induction fuel as [|fuel IH]; intros depth best w Hd; [done|]. cbn [sweep_loop].
  destruct (MaxDepth p <? depth) eqn:Hm; [by intros [= <- <- <-]|].
  destruct (run depth w) as [w1 [e|[e []]]] eqn:Hr; [by intros [= <- <- <-]..|].
  destruct (f64_le e (Tolerance p)) eqn:Ht.
  - intros [= <- <- <-] _. exists w, w1, e. split; [done|]. cbn. lia.
  - apply IH. apply Z.mod_pos_bound. lia.
Qed.

(** Calibration accepts only parameters within the security budget.  If
    calibration reports a passing depth, the modulus bits it counts for that
    depth at the reported ring dimension are at most what 128-bit security
    allows there. *)
Lemma calibration_within_budget {W} `{Bridge W} `{!BridgeEval (W := W)} fuel ring_fuel cut p profileDim (w w' : W) res err :
  0 <= RingDim (Base p) -> 0 <= ScalingModSize (Base p) < 2 ^ 31 -> 0 <= StartDepth p -> MaxDepth p < 2 ^ 32 ->
  Calibrate fuel ring_fuel cut p profileDim w = Some (w', (res, err)) -> Passed res = true ->
  ckksFirstModSize + ResultDepth res * effective_mod_size p <= maxLog2Q (ResultRingDim res).
Proof.
  intros Hring Hms Hst Hmax. unfold Calibrate. destruct (SmokeCKKS w) as [w0 [e|u]]; [by intros [= <- <- <-]|].
  destruct (StartDepth p =? 0); [by intros [= <- <- <-]|]. destruct (MaxDepth p <? StartDepth p); [by intros [= <- <- <-]|].
  destruct (DefaultContractParams ring_fuel profileDim (StartDepth p)) as [d0|] eqn:Hd0; [|done]. cbn [mbind option_bind].
  set (at_depth := fun depth => calib_params p (default d0 (DefaultContractParams ring_fuel profileDim depth))).
  destruct (sweep fuel p _ w0) as [[w1 [res1 err1]]|] eqn:Hs; [|done]. cbn [mbind option_bind]. intros [= <- <- <-] Hp.
  cbn [ResultDepth ResultRingDim Passed] in *.
  destruct (sweep_loop_passed _ _ _ _ _ _ _ _ _ Hst Hs Hp) as (wa & wb & e & Hrun & Hd).
  assert (Hsame : forall depth, o_RingDim (at_depth depth) = o_RingDim (at_depth (StartDepth p)) /\ 0 < o_RingDim (at_depth depth)).
  { intros depth. unfold at_depth, calib_params. rewrite Hd0.
    destruct (default_total ring_fuel profileDim (StartDepth p) depth) as [d Hdd]; [by exists d0|]. rewrite Hdd. cbn [default].
    destruct (default_ring _ _ _ _ _ _ Hd0 Hdd) as [He Hb]. destruct (Z.eqb_spec (RingDim (Base p)) 0); cbn [negb o_RingDim id]; lia. }
  replace (calib_params p d0) with (at_depth (StartDepth p)) by (unfold at_depth; by rewrite Hd0).
  unfold runAtDepth in Hrun. fold (at_depth (ResultDepth res1)) in Hrun.
  destruct (Hsame (ResultDepth res1)) as [<- Hpos].
  destruct (exceedsModulusBudget _ _ _) eqn:Hex; [done|].
  unfold exceedsModulusBudget in Hex. assert (Hem : 0 < effective_mod_size p < 2 ^ 31).
  { unfold effective_mod_size. destruct (ScalingModSize (Base p) =? 0) eqn:Hz; lia. }
  replace (o_RingDim (at_depth (ResultDepth res1)) =? 0) with false in Hex by lia.
  replace (effective_mod_size p =? 0) with false in Hex by lia. cbn [orb] in Hex. unfold wrap64u in Hex.
  rewrite (Z.mod_small (effective_mod_size p)) in Hex by lia.
  rewrite (Z.mod_small (ResultDepth res1 * effective_mod_size p)) in Hex by nia.
  rewrite Z.mod_small in Hex by (unfold ckksFirstModSize; nia). unfold ckksFirstModSize in *. lia.
Qed.

(** The scaling of the context that is measured is always 2^50, whatever modulus
    size the budget was computed with. *)
Lemma scaling_ignored p fuel profileDim depth d :
  DefaultContractParams fuel profileDim depth = Some d -> o_ScalingFactor (calib_params p d) = ldexp1 50.
Proof.
  unfold DefaultContractParams, calib_params. destruct (if 0 <? profileDim then _ else _) as [r|]; [|done]. cbn.
  intros [= <-]. by case_match.
Qed.

(** A slot that decrypts to NaN counts as exact. *)
Lemma nan_error_ignored x : maxSlotAbsError [S754_nan] [x] = f64_zero.
Proof. by destruct x as [[]|[]| |[]]. Qed.

(** Ring dimensions above 2^31 are never reached: the doubling wraps to zero. *)
Lemma default_params_diverge fuel : DefaultContractParams fuel (2 ^ 30 + 1) 1 = None.
Proof.
  unfold DefaultContractParams. replace (0 <? 2 ^ 30 + 1) with true by reflexivity.
  replace (wrap32u (wrap64 ((2 ^ 30 + 1) * 2))) with (2 ^ 31 + 2) by reflexivity.
  assert (Hz : forall fuel, grow fuel 0 (2 ^ 31 + 2) = None) by (induction fuel0 as [|f IH]; [done|exact IH]).
  assert (Hg : grow fuel 1 (2 ^ 31 + 2) = None).
  { do 32 (destruct fuel as [|fuel]; [reflexivity|]). transitivity (grow fuel 0 (2 ^ 31 + 2)); [reflexivity|apply Hz]. }
  by rewrite Hg.
Qed.

(** ** Witnesses *)

Section witnesses.
(** A library that computes nothing and decrypts to the expected squares. *)
#[local] Instance wit_bridge : Bridge unit := {|
  OpenFHEVersion := "";
  DistributedKeyGenFirst _ := bret (mkKeyShare [x01] [x02] true);
  DistributedKeyGenNext _ _ := bret (mkKeyShare [x03] [x04] false);
  BFVDistributedKeyGenFirst _ := bfail "";
  BFVDistributedKeyGenNext _ _ := bfail "";
  EncryptCKKSForContract _ _ _ := bret [x05];
  EncryptBFVForContract _ _ _ := bfail "";
  b_EvalKeyRound1Lead _ _ := bret ([x06], [x07]);
  b_BFVEvalKeyRound1Lead _ _ := bfail "";
  b_EvalKeyRound1Participant _ _ _ _ _ := bret ([x06], [x07]);
  b_BFVEvalKeyRound1Participant _ _ _ _ _ := bfail "";
  b_EvalKeyRound2Participant _ _ _ _ _ := bret [x08];
  b_BFVEvalKeyRound2Participant _ _ _ _ _ := bfail "";
  PartialDecryptCKKSForContract _ _ _ _ := bret [x09];
  PartialDecryptBFVForContract _ _ _ _ := bfail "";
  b_CombineEvalKeyRound1 _ _ _ _ := bret ([x0a], [x0b]);
  b_BFVCombineEvalKeyRound1 _ _ _ _ := bfail "";
  b_CombineEvalKeyRound2 _ _ _ _ := bret (mkFinal [x0c] [x0d]);
  b_BFVCombineEvalKeyRound2 _ _ _ _ := bfail "";
  SplitRotShareAB _ _ := bfail "";
  ReconstructRotShareAB _ _ _ := bfail "";
  FuseCKKSPartialsForContract _ _ _ := bret [f64_of_Z 4];
  FuseBFVPartialsForContract _ _ _ := bfail "";
  EvalProductSumBFVForContract _ _ _ _ _ := bfail "";
  EvalPolyCKKSForContract _ _ _ _ := bfail "";
  EvalAddCKKSForContract _ _ _ := bfail "";
  EvalSubCKKSForContract _ _ _ := bfail "";
  EvalMultCKKSForContract _ _ _ _ := bret [x0e];
  EvalConstMultCKKSForContract _ _ _ := bfail "";
  EvalArgmaxCKKSForContract _ _ _ _ := bfail "" |}.

#[local] Instance wit_eval : BridgeEval (W := unit) := {|
  SmokeCKKS := bret tt;
  EvalProductSumForContract _ _ _ _ _ := bfail "";
  EvalAtIndexCKKSForContract _ _ _ _ := bfail "" |}.

Definition wit_calibration : CalibrationParams := mkCalibration (mkParams "" 16384 f64_zero 50 0) 1 4 (f64_lit 1 3).
Definition wit_run : runner unit := fun depth w => (w, inr (if depth =? 3 then f64_zero else f64_one, false)).

Lemma sweep_outcome_witness :
  exists d best w1 w' res err,
    sweep 5 wit_calibration wit_run tt = Some (w', (res, err)) /\
    inconclusive wit_calibration wit_run 1 d f64_inf best tt w1 /\ verdict wit_calibration wit_run d best w1 w' res err.
Proof.
  destruct (sweep_outcome wit_calibration wit_run tt) as [Hok _]; [cbn; lia|].
  apply Hok. reflexivity.
Defined.

Lemma calibration_within_budget_witness :
  exists res, Calibrate 5 32 (squareCircuit [f64_of_Z 2]) wit_calibration 1 tt = Some (tt, (res, None)) /\
    ckksFirstModSize + ResultDepth res * 50 <= maxLog2Q (ResultRingDim res).
Proof.
  eexists. split; [vm_compute; reflexivity|].
  apply (calibration_within_budget 5 32 (squareCircuit [f64_of_Z 2]) wit_calibration 1 tt tt _ None).
  - discriminate.
  - split; [discriminate|reflexivity].
  - discriminate.
  - reflexivity.
  - vm_compute. reflexivity.
  - reflexivity.
Defined.
End witnesses.
End Calibration.
