(* ===== verification/PoolCircuit.v ===== *)
(** * The encrypted clearing circuit ([pkg/ares/pool/circuit_openfhe.go])

    Clearing on two encrypted curves: the comparator's coefficients, the circuit
    on a context handle, the decoding of its decrypted outputs, and the circuit
    as the calibration sees it.  Read over rationals, on a handle whose
    operations err by a bounded amount in every slot, circuit and decoding give
    the plaintext clearing's bucket and its volumes up to a bounded error. *)

From Stdlib Require Import SpecFloat QArith Lqa.
From S2P Require Import Prelude Float64 FloatExact HelperClient HelperServer Pool Calibration.
Import FloatExact HelperClient HelperServer Calibration Pool.

#[local] Open Scope string_scope.
#[local] Open Scope list_scope.
#[local] Open Scope Z_scope.
#[local] Open Scope go_scope.

Module PoolCircuit.

(** ** The comparator *)

(** A constant quotient, rounded once. *)
Definition const_ratio (n d : Z) : float64 := f64_div (f64_of_Z n) (f64_of_Z d).

Definition tanhSeries : list float64 :=
  [f64_one; const_ratio (-1) 3; const_ratio 2 15; const_ratio (-17) 315; const_ratio 62 2835;
   const_ratio (-1382) 155925; const_ratio 21844 6081075].

Section comparator.
(** [math.Pow]. *)
Context (Pow : float64 -> float64 -> float64).

Fixpoint place_terms (degree : Z) (half : float64) (i : Z) (series coeffs : list float64) : list float64 :=
  match series with
  | [] => coeffs
  | tc :: series' =>
      let d := 2 * i + 1 in
      if degree <? d then coeffs
      else place_terms degree half (i + 1) series'
             (<[Z.to_nat d := f64_mul (f64_mul (f64_lit 5 1) tc) (Pow half (f64_of_Z d))]> coeffs)
  end.

Definition LogisticCoeffs (degree : Z) (gain : float64) : option (list float64) :=
  let degree := if degree <? 1 then 1 else degree in
  coeffs ← make (wrap64 (degree + 1));
  Some (place_terms degree (f64_div gain (f64_of_Z 2)) 0 tanhSeries (<[0%nat := f64_lit 5 1]> coeffs)).
End comparator.

(** Horner's rule, from the last coefficient. *)
Definition evalPolyAt {F} `{Num F} (coeffs : list F) (x : F) : F :=
  foldr (fun c acc => n_add (n_mul acc x) c) n_zero coeffs.

(** ** The circuit *)

Record ClearingInputs := mkInputs { in_Supply : bytes; in_Demand : bytes }.

Record ClearingOutputs := mkOutputs {
  Step : bytes;
  OneHot : bytes;
  SupplyAt : bytes;
  SupplyPrevAt : bytes;
  DemandAt : bytes
}.

Section circuit.
Context {W : Type} `{Bridge W} `{!BridgeEval (W := W)}.
(** The [%v] of a float. *)
Context (fmt_v : float64 -> string).

Definition grid_text (e : pool_error) : string :=
  match e with
  | BadTick t => "pool: TickCt must be > 0, got " +:+ fmt_v t
  | BadBuckets n => "pool: NumBuckets must be > 0, got " +:+ pretty n
  | BadSlots n => "pool: NumSlots must be > 0, got " +:+ pretty n
  | _ => ""
  end.

(** A library call may panic before it is reached ([None]). *)
Definition C (A : Type) : Type := W -> option (W * (string + A)).

Definition cret {A} (a : A) : C A := fun w => Some (w, inr a).
Definition cfail {A} (e : string) : C A := fun w => Some (w, inl e).
Definition ccall {A} (prefix : string) (m : B W A) : C A := fun w => Some (wrapped prefix m w).
Definition cbind {A A'} (m : C A) (f : A -> C A') : C A' := fun w =>
  match m w with
  | None => None
  | Some (w', inl e) => Some (w', inl e)
  | Some (w', inr a) => f a w'
  end.
Definition cpanic {A A'} (o : option A) (f : A -> C A') : C A' := match o with None => fun _ => None | Some a => f a end.

Notation "'let+' x ':=' p 'in' k" := (cbind p (fun x => k)) (at level 200, x pattern, p at level 100, k at level 200).

(** On an error the source also returns the outputs made so far, which no
    caller reads. *)
Definition EvalClearing (h : cgoHandle) (g : GridSpec) (inp : ClearingInputs) (coeffs : list float64) (scale : float64)
    : C ClearingOutputs :=
  match Validate g with
  | Some e => cfail (grid_text e)
  | None =>
  if (zlen (in_Supply inp) =? 0) || (zlen (in_Demand inp) =? 0) then cfail "pool: both aggregate curves are required"
  else if zlen coeffs =? 0 then cfail "pool: comparator coefficients are required"
  else if negb (f64_gt scale f64_zero) then cfail ("pool: scale must be > 0, got " +:+ fmt_v scale)
  else
    let+ excess := ccall "pool: excess supply: " (EvalSub h (in_Supply inp) (in_Demand inp)) in
    let+ normalized := ccall "pool: range control: " (EvalMultConst h excess (f64_div f64_one scale)) in
    let+ step := ccall "pool: comparator: " (EvalPoly h normalized coeffs) in
    let+ prev := ccall "pool: price-axis shift: " (EvalAtIndex h step (-1)) in
    let+ diff := ccall "pool: one-hot: " (EvalSub h step prev) in
    cpanic (SlotBoundaryMask g) (fun mask =>
    let+ ctMask := ccall "pool: encrypt boundary mask: " (Encrypt h mask) in
    let+ oneHot := ccall "pool: apply boundary mask: " (EvalMult h diff ctMask) in
    let+ supplyPrev := ccall "pool: shift supply: " (EvalAtIndex h (in_Supply inp) (-1)) in
    let+ supplyAt := ccall "pool: mask supply: " (EvalMult h oneHot (in_Supply inp)) in
    let+ supplyPrevAt := ccall "pool: mask supply-prev: " (EvalMult h oneHot supplyPrev) in
    let+ demandAt := ccall "pool: mask demand: " (EvalMult h oneHot (in_Demand inp)) in
    cret (mkOutputs step oneHot supplyAt supplyPrevAt demandAt))
  end.

(** ** The circuit under calibration *)

Record ClearingCircuit := mkCircuit {
  Grid : GridSpec;
  cc_Supply : list float64;
  cc_Demand : list float64;
  Coeffs : list float64;
  Scale : float64
}.

Definition Name (c : ClearingCircuit) : string := "pool-uniform-price-clearing".

Definition Inputs (c : ClearingCircuit) : list (list float64) := [cc_Supply c; cc_Demand c].

Definition Eval_ (c : ClearingCircuit) (h : cgoHandle) (encInputs : list bytes) : C bytes :=
  match encInputs with
  | [supply; demand] =>
      let+ out := EvalClearing h (Grid c) (mkInputs supply demand) (Coeffs c) (Scale c) in cret (SupplyAt out)
  | _ => cfail ("pool: want 2 encrypted inputs, got " +:+ pretty (zlen encInputs))
  end.
End circuit.

(** ** Decoding *)

Section decoding.
Context {F : Type} `{Num F}.

Definition oneHotThreshold : F := n_of (f64_lit 1 2).

(** The constant [0.5-crossingTolerance]. *)
Definition crossingThreshold : F := n_of (f64_lit 499 3).

Fixpoint first_at_half (g : GridSpec) (step : list F) (slot : Z) (ks : list Z) : option Z :=
  match ks with
  | [] => Some NoClearing
  | k :: ks' =>
      v ← at_ step (Index g slot k);
      if n_le crossingThreshold v then Some k else first_at_half g step slot ks'
  end.

Definition DecodeCrossing (g : GridSpec) (step : list F) : option (list Z) :=
  if NumSlots g <? 0 then None
  else mapM (fun slot => first_at_half g step slot (seqZ 1 (NumBuckets g - 1))) (seqZ 0 (NumSlots g)).

Fixpoint largest_bump (g : GridSpec) (oneHot : list F) (slot best : Z) (bestVal : F) (ks : list Z) : option Z :=
  match ks with
  | [] => Some best
  | k :: ks' =>
      v ← at_ oneHot (Index g slot k);
      if n_lt bestVal v then largest_bump g oneHot slot k v ks' else largest_bump g oneHot slot best bestVal ks'
  end.

Definition DecodeOneHot (g : GridSpec) (oneHot : list F) : option (list Z) :=
  if NumSlots g <? 0 then None
  else mapM (fun slot => largest_bump g oneHot slot NoClearing oneHotThreshold (seqZ 1 (NumBuckets g - 1))) (seqZ 0 (NumSlots g)).

Definition decode_slot (g : GridSpec) (oneHot supplyAt supplyPrevAt demandAt : list F) (slot k : Z) : option (SlotResult F) :=
  if k =? NoClearing then Some no_result
  else
    let idx := Index g slot k in
    m ← at_ oneHot idx;
    if n_lt m oneHotThreshold then Some (mkResult k (Price g k) n_zero n_zero n_zero n_zero n_zero n_zero)
    else
      s ← at_ supplyAt idx; p ← at_ supplyPrevAt idx; d ← at_ demandAt idx;
      let res := deriveAllocation (mkResult k (Price g k) (n_div s m) (n_div p m) (n_div d m) n_zero n_zero n_zero) in
      Some (if Bucket res =? NoClearing then res
            else mkResult k (Price g k) (Supply res) (SupplyPrev res) (Demand res) (Cleared res) (MarginalRatio res)
                   (InframarginalRatio res)).

Definition DecodeClearing (g : GridSpec) (step oneHot supplyAt supplyPrevAt demandAt : list F) : option (list (SlotResult F)) :=
  buckets ← DecodeCrossing g step;
  mapM (fun '(slot, k) => decode_slot g oneHot supplyAt supplyPrevAt demandAt slot k) (zip (seqZ 0 (NumSlots g)) buckets).

(** ** The ground truth of the calibration *)

Definition step_at (coeffs : list F) (scale : F) (supply demand : list F) (i : Z) : option F :=
  s ← at_ supply i; d ← at_ demand i; Some (evalPolyAt coeffs (n_div (n_sub s d) scale)).

Definition expected_cell (g : GridSpec) (step mask supply : list F) (slot k : Z) : option F :=
  let idx := Index g slot k in
  v ← at_ step idx;
  prev ← (if 0 <? k then at_ step (idx - 1) else Some n_zero);
  m ← at_ mask idx; s ← at_ supply idx;
  Some (n_mul (n_mul (n_sub v prev) m) s).

(** The cells in the order of the loops; on a grid without overflow that is
    the order of their indices. *)
Definition expected (g : GridSpec) (coeffs : list F) (scale : F) (supply demand : list F) : option (list F) :=
  if Len g <? 0 then None
  else
    step ← mapM (step_at coeffs scale supply demand) (seqZ 0 (Len g));
    mask ← SlotBoundaryMask g;
    rows ← mapM (fun slot => mapM (expected_cell g step (n_of <$> mask) supply slot) (seqZ 0 (NumBuckets g))) (seqZ 0 (NumSlots g));
    Some (concat rows).
End decoding.

Definition Expected (c : ClearingCircuit) (inputs : list (list float64)) : option (list float64) :=
  supply ← inputs !! 0%nat; demand ← inputs !! 1%nat; expected (Grid c) (Coeffs c) (Scale c) supply demand.

(** ** Arithmetic without rounding *)

(** The rational a finite float stands for. *)
Definition val (x : float64) : Q :=
  match x with
  | S754_finite s m e =>
      let n := if s then Zneg m else Zpos m in if 0 <=? e then inject_Z (n * 2 ^ e) else Qmake n (Z.to_pos (2 ^ (- e)))
  | _ => 0%Q
  end.

#[export] Instance rational_num : Num Q := {|
  n_zero := 0%Q; n_one := 1%Q; n_add := Qplus; n_sub := Qminus; n_mul := Qmult; n_div := Qdiv;
  n_lt := fun x y => negb (Qle_bool y x); n_le := Qle_bool; n_of := val |}.

#[local] Open Scope Q_scope.

(** [y] is [x] up to an error of [e]. *)
Definition near (e x y : Q) : Prop := x - e <= y /\ y <= x + e.

Definition bounded (b x : Q) : Prop := - b <= x /\ x <= b.

Lemma bounded_mult a b x y : bounded a x -> bounded b y -> bounded (a * b) (x * y).
Proof. unfold bounded. intros [] []. split; nra. Qed.

Lemma near_bounded e b c x y : near e x y -> bounded b x -> b + e <= c -> bounded c y.
Proof. unfold near, bounded. intros [] [] ?. split; lra. Qed.

Lemma n_lt_true (x y : Q) : n_lt x y = true <-> x < y.
Proof. cbn. rewrite negb_true_iff. split; intros Hx; [|apply not_true_iff_false; rewrite Qle_bool_iff; lra]. apply Qnot_le_lt. rewrite <- Qle_bool_iff. by rewrite Hx. Qed.

Lemma n_lt_false (x y : Q) : n_lt x y = false <-> y <= x.
Proof. cbn. rewrite negb_false_iff. apply Qle_bool_iff. Qed.

Lemma n_le_true (x y : Q) : n_le x y = true <-> x <= y.
Proof. apply Qle_bool_iff. Qed.

Lemma n_le_false (x y : Q) : n_le x y = false <-> y < x.
Proof. rewrite <- n_lt_true. cbn. by rewrite negb_true_iff. Qed.

(** Dividing out a factor that is not small. *)
Lemma near_quotient e t a m s : 0 <= e -> 0 < t -> t <= m -> near e (m * s) a -> near (e / t) s (a / m).
Proof.
  intros He Ht Hm [H1 H2]. assert (Hk : 0 <= e / t) by (apply Qle_shift_div_l; lra). assert (Hke : e / t * t == e) by (field; lra).
  unfold near. split; [apply Qle_shift_div_l|apply Qle_shift_div_r]; try lra; nra.
Qed.

Section approximate.
Context {W : Type} `{Bridge W} `{!BridgeEval (W := W)} (h : cgoHandle) (N : Z) (dec : bytes -> Z -> Q) (eps bound : Q).

(** The call succeeds, and every packed slot of its result is as [R] says. *)
Definition computes (m : B W bytes) (R : Z -> Q -> Prop) : Prop :=
  forall w, exists w' ct, m w = (w', inr ct) /\ ct <> [] /\ forall i, (0 <= i < N)%Z -> R i (dec ct i).

(** A ciphertext with slots of the size the scheme is set up for. *)
Definition fitting (ct : bytes) : Prop := ct <> [] /\ forall i, (0 <= i < N)%Z -> bounded bound (dec ct i).

(** A handle whose operations, on such ciphertexts, do what their documentation
    says in each of the [N] slots that [dec] reads, up to an error of [eps]. *)
Class CKKSHandle : Prop := {
  ck_sub : forall a b, fitting a -> fitting b -> computes (EvalSub h a b) (fun i v => near eps (dec a i - dec b i) v);
  ck_mult : forall a b, fitting a -> fitting b -> computes (EvalMult h a b) (fun i v => near eps (dec a i * dec b i) v);
  ck_const : forall ct c, fitting ct -> finite c = true -> computes (EvalMultConst h ct c) (fun i v => near eps (dec ct i * val c) v);
  ck_poly : forall ct coeffs, fitting ct -> coeffs <> [] -> forallb finite coeffs = true ->
    computes (EvalPoly h ct coeffs) (fun i v => near eps (evalPolyAt (val <$> coeffs) (dec ct i)) v);
  ck_shift : forall ct, fitting ct -> computes (EvalAtIndex h ct (-1)) (fun i v => near eps (dec ct ((i - 1) mod N)%Z) v);
  ck_encrypt : forall vals, vals <> [] -> (zlen vals <= N)%Z -> forallb finite vals = true -> Forall (fun x => bounded bound (val x)) vals ->
    computes (Encrypt h vals) (fun i v => near eps (from_option val 0 (at_ vals i)) v)
}.
End approximate.

(** ** The circuit on such a handle *)

Lemma computes_call {W} (N : Z) dec (m : B W bytes) R prefix {A} (k : bytes -> C (W := W) A) w P :
  computes N dec m R ->
  (forall w' ct, ct <> [] -> (forall i, (0 <= i < N)%Z -> R i (dec ct i)) -> exists w'' x, k ct w' = Some (w'', inr x) /\ P x) ->
  exists w'' x, cbind (ccall prefix m) k w = Some (w'', inr x) /\ P x.
Proof.
  intros Hm Hk. destruct (Hm w) as (w' & ct & Hmw & Hne & Hct). unfold cbind, ccall, wrapped. rewrite Hmw. by apply Hk.
Qed.

Ltac stage law ct Hne Hct :=
  eapply (computes_call (W := _)); [apply law; (done || assumption)|]; intros ? ct Hne Hct.

(** Sizes of the curves, [M], of the comparator's input, [X], and of its
    output, [P], for which every ciphertext of the circuit is of the size the
    scheme is set up for. *)
Record sized_for (eps bound M X P inv : Q) (poly : Q -> Q) : Prop := mkSized {
  sz_eps : 0 <= eps /\ eps < 1;
  sz_excess : 2 * M + eps <= bound;
  sz_input : (2 * M + eps) * inv + eps <= X /\ X <= bound;
  sz_inverse : 0 <= inv;
  sz_poly : forall x, bounded X x -> bounded P (poly x);
  sz_mask : 1 + eps <= bound;
  sz_bump : 2 * P + 4 * eps <= bound /\ (2 * P + 4 * eps) * (1 + eps) + eps <= bound
}.

Section circuit_run.
Context {W : Type} `{Bridge W} `{!BridgeEval (W := W)} (fmt_v : float64 -> string).
Context (h : cgoHandle) (N : Z) (dec : bytes -> Z -> Q) (eps bound : Q) `{!CKKSHandle h N dec eps bound}.
Context (g : GridSpec) (inp : ClearingInputs) (coeffs : list float64) (scale : float64) (M X P : Q).

Definition S_ (i : Z) : Q := dec (in_Supply inp) i.
Definition D_ (i : Z) : Q := dec (in_Demand inp) i.
Definition excess (i : Z) : Q := S_ i - D_ i.
Definition inverse : Q := val (f64_div f64_one scale).
Definition poly (x : Q) : Q := evalPolyAt (val <$> coeffs) x.

(** What the comparator may be given at index [i]: the excess over the scale, up
    to the errors of two operations. *)
Definition argument (i : Z) (x : Q) : Prop := near (eps + eps * inverse) (excess i * inverse) x.

Hypothesis Hvalid : Validate g = None.
Hypothesis Hlen : (NumSlots g * NumBuckets g < 2 ^ 63)%Z.
Hypothesis Hpack : (Len g <= N)%Z.
Hypothesis Hs : in_Supply inp <> [].
Hypothesis Hd : in_Demand inp <> [].
Hypothesis Hcurves : forall i, (0 <= i < N)%Z -> bounded M (S_ i) /\ bounded M (D_ i).
Hypothesis Hcoeffs : coeffs <> [].
Hypothesis Hfinite : forallb finite coeffs = true.
Hypothesis Hscale : f64_gt scale f64_zero = true.
Hypothesis Hinverse : finite (f64_div f64_one scale) = true.
Hypothesis Hsized : sized_for eps bound M X P inverse poly.

(** What the outputs hold at index [i]. *)
Record masked (mask : list float64) (out : ClearingOutputs) (i : Z) : Prop := mkMasked {
  mk_step : exists x, argument i x /\ near eps (poly x) (dec (Step out) i);
  mk_onehot : (0 < i)%Z -> exists diff m, near (2 * eps) (dec (Step out) i - dec (Step out) (i - 1)%Z) diff /\
    near eps (from_option val 0 (at_ mask i)) m /\ near eps (diff * m) (dec (OneHot out) i);
  mk_supply : near eps (dec (OneHot out) i * S_ i) (dec (SupplyAt out) i);
  mk_prev : (0 < i)%Z -> exists prev, near eps (S_ (i - 1)) prev /\ near eps (dec (OneHot out) i * prev) (dec (SupplyPrevAt out) i);
  mk_demand : near eps (dec (OneHot out) i * D_ i) (dec (DemandAt out) i)
}.

Lemma cell_of_index i : (0 <= i < Len g)%Z -> exists slot k, in_grid g slot k /\ Index g slot k = i.
Proof.
  intros Hi. pose proof (grid_positive g Hvalid) as [Hb Hn]. rewrite (Len_exact g Hvalid Hlen) in Hi.
  exists (i / NumBuckets g)%Z, (i mod NumBuckets g)%Z.
  assert (Hg : in_grid g (i / NumBuckets g) (i mod NumBuckets g)).
  { split; [|by apply Z.mod_pos_bound]. split; [apply Z.div_pos; lia|apply Z.div_lt_upper_bound; lia]. }
  split; [done|]. rewrite (proj1 (Index_exact g Hvalid Hlen _ _ Hg)). pose proof (Z.div_mod i (NumBuckets g)). lia.
Qed.

Lemma mask_ok : exists mask, SlotBoundaryMask g = Some mask /\ mask <> [] /\ (zlen mask <= N)%Z /\ forallb finite mask = true /\
  Forall (fun x => x = f64_zero \/ x = f64_one) mask /\
  forall slot k, in_grid g slot k -> cell g mask slot k = Some (if decide (k = 0)%Z then f64_zero else f64_one).
Proof.
  destruct (mask_cells g Hvalid Hlen) as (mask & Hm & Hsz & Hc). exists mask. unfold sized in Hsz.
  pose proof (grid_positive g Hvalid) as [Hb Hn]. pose proof (Len_exact g Hvalid Hlen) as Hl.
  assert (Hall : Forall (fun x => x = f64_zero \/ x = f64_one) mask).
  { apply Forall_forall. intros x Hx. apply list_elem_of_lookup in Hx as [j Hx]. pose proof (lookup_lt_Some _ _ _ Hx) as Hj.
    destruct (cell_of_index (Z.of_nat j)) as (slot & k & Hg & Hi); [lia|]. specialize (Hc slot k Hg). unfold cell, at_ in Hc.
    rewrite Hi in Hc. replace (0 <=? Z.of_nat j)%Z with true in Hc by lia. rewrite Nat2Z.id, Hx in Hc. injection Hc as ->. case_decide; auto. }
  split_and!; [done| | | |done|done].
  - intros ->. cbn in Hsz. nia.
  - unfold zlen. lia.
  - apply forallb_forall. intros x Hx. apply list_elem_of_In in Hx. rewrite Forall_forall in Hall. by destruct (Hall x Hx) as [-> | ->].
Qed.

Lemma fitting_near ct b (f : Z -> Q) : ct <> [] -> (forall i, (0 <= i < N)%Z -> near eps (f i) (dec ct i)) ->
  (forall i, (0 <= i < N)%Z -> bounded b (f i)) -> b + eps <= bound -> fitting N dec bound ct /\ forall i, (0 <= i < N)%Z -> bounded (b + eps) (dec ct i).
Proof.
  intros Hn Hct Hb Hle. assert (Hall : forall i, (0 <= i < N)%Z -> bounded (b + eps) (dec ct i)).
  { intros i Hi. eapply near_bounded; [by apply Hct|by apply Hb|lra]. }
  split; [|done]. split; [done|]. intros i Hi. destruct (Hall i Hi). split; lra.
Qed.

Lemma bounded_sub a x b y : bounded a x -> bounded b y -> bounded (a + b) (x - y).
Proof. unfold bounded. intros [] []. split; lra. Qed.

Lemma bounded_more a b x : bounded a x -> a <= b -> bounded b x.
Proof. unfold bounded. intros [] ?. split; lra. Qed.

Lemma val_one : val f64_one == 1.
Proof. vm_compute. reflexivity. Qed.

Lemma EvalClearing_runs w : exists w' out, EvalClearing fmt_v h g inp coeffs scale w = Some (w', inr out) /\
  exists mask, SlotBoundaryMask g = Some mask /\
    (forall slot k, in_grid g slot k -> cell g mask slot k = Some (if decide (k = 0)%Z then f64_zero else f64_one)) /\
    forall i, (0 <= i < Len g)%Z -> masked mask out i.
Proof.
  destruct Hsized as [[He0 He1] Hexc [Hin HX] Hi0 HP Hmb [Hb1 Hb2]].
  destruct mask_ok as (mask & Hm & Hm0 & HmN & Hmf & Hm01 & Hmc). unfold EvalClearing. rewrite Hvalid.
  replace ((zlen (in_Supply inp) =? 0) || (zlen (in_Demand inp) =? 0))%Z with false
    by (destruct (in_Supply inp), (in_Demand inp); done).
  replace (zlen coeffs =? 0)%Z with false by (by destruct coeffs). rewrite Hscale. cbn [negb].
  pose proof (grid_positive g Hvalid) as [Hb Hn]. pose proof (Len_exact g Hvalid Hlen) as Hl.
  assert (HN : (0 < N)%Z) by nia. assert (HM : 0 <= M) by (destruct (Hcurves 0 ltac:(lia)) as [[] _]; lra).
  assert (HP0 : 0 <= P).
  { assert (0 <= X) by nra. destruct (HP 0); [split; lra|lra]. }
  assert (Fs : fitting N dec bound (in_Supply inp)) by (split; [done|]; intros i Hi; eapply bounded_more; [apply Hcurves, Hi|lra]).
  assert (Fd : fitting N dec bound (in_Demand inp)) by (split; [done|]; intros i Hi; eapply bounded_more; [apply Hcurves, Hi|lra]).
  stage (ck_sub h N dec eps bound) ct1 Hn1 H1.
  destruct (fitting_near ct1 (2 * M) _ Hn1 H1) as [F1 B1].
  { intros i Hi. destruct (Hcurves i Hi). eapply bounded_more; [by apply bounded_sub|lra]. } { lra. }
  stage (ck_const h N dec eps bound) ct2 Hn2 H2. fold inverse in H2.
  destruct (fitting_near ct2 ((2 * M + eps) * inverse) _ Hn2 H2) as [F2 B2].
  { intros i Hi. apply bounded_mult; [by apply B1|split; lra]. } { lra. }
  stage (ck_poly h N dec eps bound) ct3 Hn3 H3. fold poly in H3.
  destruct (fitting_near ct3 P _ Hn3 H3) as [F3 B3].
  { intros i Hi. apply HP. eapply bounded_more; [by apply B2|lra]. } { lra. }
  stage (ck_shift h N dec eps bound) ct4 Hn4 H4.
  destruct (fitting_near ct4 (P + eps) _ Hn4 H4) as [F4 B4].
  { intros i Hi. apply B3. apply Z.mod_pos_bound. lia. } { lra. }
  stage (ck_sub h N dec eps bound) ct5 Hn5 H5.
  destruct (fitting_near ct5 (2 * P + 3 * eps) _ Hn5 H5) as [F5 B5].
  { intros i Hi. eapply bounded_more; [apply bounded_sub; [by apply B3|by apply B4]|lra]. } { lra. }
  rewrite Hm. cbn [cpanic].
  assert (Hm1 : forall b, 1 <= b -> Forall (fun x => bounded b (val x)) mask).
  { intros b Hb'. eapply Forall_impl; [exact Hm01|]. pose proof val_one as Hv1. intros x [-> | ->]; [change (val f64_zero) with 0|]; split; lra. }
  eapply (computes_call (W := W)); [apply (ck_encrypt h N dec eps bound); [done..|apply Hm1; lra]|]. intros ? ct6 Hn6 H6.
  destruct (fitting_near ct6 1 _ Hn6 H6) as [F6 B6].
  { intros i Hi. destruct (at_ mask i) as [x|] eqn:Hx; cbn; [|split; lra]. specialize (Hm1 1 ltac:(lra)). rewrite Forall_forall in Hm1. apply Hm1.
    unfold at_ in Hx. case_match; [|done]. by eapply list_elem_of_lookup_2. } { lra. }
  stage (ck_mult h N dec eps bound) ct7 Hn7 H7.
  destruct (fitting_near ct7 ((2 * P + 4 * eps) * (1 + eps)) _ Hn7 H7) as [F7 B7].
  { intros i Hi. apply bounded_mult; [eapply bounded_more; [by apply B5|lra]|by apply B6]. } { lra. }
  stage (ck_shift h N dec eps bound) ct8 Hn8 H8.
  destruct (fitting_near ct8 M _ Hn8 H8) as [F8 B8].
  { intros i Hi. apply Hcurves, Z.mod_pos_bound. lia. } { lra. }
  stage (ck_mult h N dec eps bound) ct9 Hn9 H9. stage (ck_mult h N dec eps bound) ct10 Hn10 H10. stage (ck_mult h N dec eps bound) ct11 Hn11 H11.
  eexists _, _. split; [done|]. exists mask. split_and!; [done..|]. intros i Hi.
  assert (Hprev : (0 < i)%Z -> ((i - 1) mod N)%Z = (i - 1)%Z) by (intros; apply Z.mod_small; lia).
  split; cbn [Step OneHot SupplyAt SupplyPrevAt DemandAt].
  - exists (dec ct2 i). split; [|apply H3; lia]. specialize (H1 i ltac:(lia)). specialize (H2 i ltac:(lia)). cbv beta in H1, H2.
    unfold argument, near, excess, S_, D_ in *. split; nra.
  - intros Hp. exists (dec ct5 i), (dec ct6 i). split_and!; [|by apply H6; lia|by apply H7; lia].
    specialize (H5 i ltac:(lia)). specialize (H4 i ltac:(lia)). cbv beta in H4, H5. rewrite Hprev in H4 by done. unfold near in *. split; lra.
  - apply H9. lia.
  - intros Hp. exists (dec ct8 i). specialize (H8 i ltac:(lia)). cbv beta in H8. rewrite Hprev in H8 by done. split; [exact H8|]. apply H10. lia.
  - apply H11. lia.
Qed.
End circuit_run.

(** ** Decoding the outputs *)

Lemma mapM_zip {A K R} (f : A -> option K) (dec : A * K -> option R) (c : A -> option R) (Q : R -> R -> Prop) l :
  (forall x, x ∈ l -> exists k r r', f x = Some k /\ dec (x, k) = Some r /\ c x = Some r' /\ Q r r') ->
  exists ks rs rs', mapM f l = Some ks /\ mapM dec (zip l ks) = Some rs /\ mapM c l = Some rs' /\ Forall2 Q rs rs'.
Proof.
  induction l as [|x l IH]; intros Hl; [exists [], [], []; split_and!; try done; constructor|].
  destruct (Hl x) as (k & r & r' & Hf & Hd & Hc & Hq); [apply elem_of_cons; by left|].
  destruct IH as (ks & rs & rs' & Hks & Hrs & Hcs & Hqs); [intros y Hy; apply Hl, elem_of_cons; by right|].
  exists (k :: ks), (r :: rs), (r' :: rs'). cbn [mapM]. rewrite Hf, Hc, Hks, Hcs. cbn [mbind option_bind zip]. unfold zip in Hrs |- *.
  cbn [zip_with mapM]. rewrite Hd, Hrs. cbn. split_and!; [done..|]. by constructor.
Qed.

(** Results whose volumes agree up to an error of [tau]: the allocations derived
    from the same bucket and price and from volumes that are near. *)
Inductive agrees (tau : Q) : SlotResult Q -> SlotResult Q -> Prop :=
| agree_none : agrees tau no_result no_result
| agree_at raw raw' : Bucket raw = Bucket raw' -> ResultPriceCt raw = ResultPriceCt raw' ->
    near tau (Supply raw') (Supply raw) -> near tau (SupplyPrev raw') (SupplyPrev raw) -> near tau (Demand raw') (Demand raw) ->
    agrees tau (deriveAllocation raw) (deriveAllocation raw').

(** Where more than the error is cleared, bucket and price are the same, and
    the volumes are near. *)
Definition cleared_alike (tau : Q) (r r' : SlotResult Q) : Prop := tau < Cleared r' ->
  Bucket r = Bucket r' /\ ResultPriceCt r = ResultPriceCt r' /\
  near tau (Cleared r') (Cleared r) /\ near tau (Supply r') (Supply r) /\ near tau (SupplyPrev r') (SupplyPrev r) /\ near tau (Demand r') (Demand r).

Lemma agrees_cleared tau r r' : 0 <= tau -> agrees tau r r' -> cleared_alike tau r r'.
Proof.
  intros Ht Hr. destruct Hr as [|raw raw' Hb Hp Hs Hv Hd]; intros Hc; [cbn in Hc; lra|].
  assert (Hmin : forall x : SlotResult Q, exists c, deriveAllocation x = (if n_le c n_zero then no_result else deriveAllocation x) /\
    (n_le c n_zero = false -> Cleared (deriveAllocation x) = c /\ Bucket (deriveAllocation x) = Bucket x /\ ResultPriceCt (deriveAllocation x) = ResultPriceCt x /\
      Supply (deriveAllocation x) = Supply x /\ SupplyPrev (deriveAllocation x) = SupplyPrev x /\ Demand (deriveAllocation x) = Demand x) /\
    c <= Demand x /\ c <= Supply x /\ (c = Demand x \/ c = Supply x)).
  { intros x. exists (if n_lt (Demand x) (Supply x) then Demand x else Supply x). unfold deriveAllocation.
    split; [by case_match|]. split; [by intros ->|]. destruct (n_lt (Demand x) (Supply x)) eqn:Hl.
    - apply n_lt_true in Hl. split_and!; [lra..|by left].
    - apply n_lt_false in Hl. split_and!; [lra..|by right]. }
  destruct (Hmin raw) as (c & Hz & Hok & H1 & H2 & H3), (Hmin raw') as (c' & Hz' & Hok' & H1' & H2' & H3').
  destruct (n_le c' n_zero) eqn:Hc'; [rewrite Hz' in Hc; cbn in Hc; lra|].
  destruct (Hok' eq_refl) as (Ec' & -> & -> & -> & -> & ->). rewrite Ec' in Hc |- *.
  assert (Hn : near tau c' c) by (unfold near in *; destruct H3 as [-> | ->], H3' as [-> | ->]; split; lra).
  assert (Hpos : n_le c n_zero = false) by (apply n_le_false; cbn; unfold near in Hn; lra).
  destruct (Hok Hpos) as (-> & -> & -> & -> & -> & ->). done.
Qed.

Section decode.
Context {W : Type} `{Bridge W} `{!BridgeEval (W := W)} (dec : bytes -> Z -> Q) (eps : Q).
Context (g : GridSpec) (inp : ClearingInputs) (coeffs : list float64) (scale : float64).
Hypothesis Hvalid : Validate g = None.
Hypothesis Hlen : (NumSlots g * NumBuckets g < 2 ^ 63)%Z.
Hypothesis Heps : 0 <= eps /\ eps < 1.

Abbreviation E_ := (excess dec inp).
Abbreviation arg := (argument dec eps inp scale).
Abbreviation p_ := (poly coeffs).

(** The packed slots of a ciphertext, decrypted. *)
Definition decrypted (ct : bytes) : list Q := dec ct <$> seqZ 0 (Len g).

Lemma decrypted_at ct slot k : in_grid g slot k -> at_ (decrypted ct) (Index g slot k) = Some (dec ct (Index g slot k)).
Proof.
  intros Hg. destruct (Index_exact g Hvalid Hlen slot k Hg) as [_ Hi]. unfold at_, decrypted.
  replace (0 <=? Index g slot k)%Z with true by lia. rewrite list_lookup_fmap, (proj2 (lookup_seqZ _ _ _ (Index g slot k))) by lia. done.
Qed.

Lemma Index_prev slot k : in_grid g slot k -> (0 < k)%Z -> in_grid g slot (k - 1) /\ Index g slot (k - 1) = (Index g slot k - 1)%Z.
Proof.
  intros Hg Hk. assert (Hg' : in_grid g slot (k - 1)) by (destruct Hg; split; lia). split; [done|].
  rewrite (proj1 (Index_exact g Hvalid Hlen _ _ Hg)), (proj1 (Index_exact g Hvalid Hlen _ _ Hg')). lia.
Qed.

(** The comparator tells the sign of every excess by more than the errors: on
    whatever it may be given, it is above the threshold when the excess is not
    negative and below when it is. *)
Definition separates : Prop := forall slot k x, in_grid g slot k -> (0 < k)%Z -> arg (Index g slot k) x ->
  (0 <= E_ (Index g slot k) -> crossingThreshold + eps <= p_ x) /\ (E_ (Index g slot k) < 0 -> p_ x + eps < crossingThreshold).

(** At the crossing it rises by more than the threshold and the errors. *)
Definition rises : Prop := forall slot k x y, in_grid g slot k -> (0 < k)%Z ->
  0 <= E_ (Index g slot k) -> (forall j, (0 < j < k)%Z -> E_ (Index g slot j) < 0) ->
  arg (Index g slot k) x -> arg (Index g slot k - 1) y -> oneHotThreshold + eps <= (p_ x - p_ y - 4 * eps) * (1 - eps).

Hypothesis Hsep : separates.
Hypothesis Hrise : rises.

Context (mask : list float64) (out : ClearingOutputs).
Hypothesis Hmask : forall s k, in_grid g s k -> cell g mask s k = Some (if decide (k = 0)%Z then f64_zero else f64_one).
Hypothesis Hout : forall i, (0 <= i < Len g)%Z -> masked dec eps inp coeffs scale mask out i.

Lemma step_sign slot k : in_grid g slot k -> (0 < k)%Z -> n_le crossingThreshold (dec (Step out) (Index g slot k)) = Qle_bool 0 (E_ (Index g slot k)).
Proof.
  intros Hg Hk. destruct (Index_exact g Hvalid Hlen _ _ Hg) as [_ Hi]. destruct (mk_step _ _ _ _ _ _ _ _ (Hout _ Hi)) as (x & Hx & [H1 H2]).
  destruct (Hsep slot k x Hg Hk Hx) as [Hp Hn]. destruct (Qle_bool 0 (E_ (Index g slot k))) eqn:He.
  - apply Qle_bool_iff in He. apply n_le_true. specialize (Hp He). lra.
  - apply n_le_false. assert (Hlt : E_ (Index g slot k) < 0) by (apply n_le_false in He; exact He). specialize (Hn Hlt). lra.
Qed.

(** The bump at the crossing is above the decoder's threshold. *)
Lemma bump_size slot k : in_grid g slot k -> (0 < k)%Z ->
  0 <= E_ (Index g slot k) -> (forall j, (0 < j < k)%Z -> E_ (Index g slot j) < 0) -> oneHotThreshold <= dec (OneHot out) (Index g slot k).
Proof.
  intros Hg Hk He Hb. destruct (Index_exact g Hvalid Hlen _ _ Hg) as [Hix Hi]. assert (Hi0 : (0 < Index g slot k)%Z) by (destruct Hg; nia).
  destruct (mk_step _ _ _ _ _ _ _ _ (Hout _ Hi)) as (x & Hx & Hsx).
  destruct (mk_step _ _ _ _ _ _ _ _ (Hout (Index g slot k - 1)%Z ltac:(lia))) as (y & Hy & Hsy).
  destruct (mk_onehot _ _ _ _ _ _ _ _ (Hout _ Hi) Hi0) as (diff & m & Hd & Hm & Hone).
  specialize (Hmask slot k Hg). unfold cell in Hmask. rewrite Hmask, decide_False in Hm by lia. cbn [from_option] in Hm.
  specialize (Hrise slot k x y Hg Hk He Hb Hx Hy). pose proof val_one as Hv1.
  set (r := p_ x - p_ y - 4 * eps) in *. assert (Hr : r <= diff) by (unfold near, r in *; lra).
  assert (Hm1 : 1 - eps <= m) by (unfold near in Hm; lra). assert (Ht : 0 < oneHotThreshold (F := Q)) by (vm_compute; reflexivity).
  assert (Hr0 : 0 < r) by nra. assert (Hprod : r * (1 - eps) <= diff * m) by nra. unfold near in Hone. lra.
Qed.

Lemma crossing_agrees slot n j :
  (0 <= slot < NumSlots g)%Z -> (0 < j)%Z -> (j + Z.of_nat n = NumBuckets g)%Z -> (forall i, (0 < i < j)%Z -> E_ (Index g slot i) < 0) ->
  exists k, first_at_half g (decrypted (Step out)) slot (seqZ j (Z.of_nat n)) = Some k /\
    ((k = NoClearing /\ crossing g (decrypted (in_Supply inp)) (decrypted (in_Demand inp)) slot (seqZ j (Z.of_nat n)) = Some no_result) \/
     (in_grid g slot k /\ (0 < k)%Z /\ oneHotThreshold <= dec (OneHot out) (Index g slot k) /\
      crossing g (decrypted (in_Supply inp)) (decrypted (in_Demand inp)) slot (seqZ j (Z.of_nat n)) =
        Some (mkResult k (Price g k) (S_ dec inp (Index g slot k)) (S_ dec inp (Index g slot k - 1)) (D_ dec inp (Index g slot k))
                n_zero n_zero n_zero))).
Proof.
  intros Hslot. revert j. induction n as [|n IH]; intros j Hj Hn Hbefore; [by exists NoClearing; split; [|left]|].
  rewrite seqZ_cons by lia. replace (Z.pred (Z.of_nat (S n))) with (Z.of_nat n) by lia. cbn [first_at_half crossing].
  assert (Hg : in_grid g slot j) by (split; lia). rewrite !(decrypted_at _ slot j Hg). cbn [mbind option_bind].
  rewrite (step_sign slot j Hg Hj). cbn [n_lt n_sub n_zero rational_num].
  change (dec (in_Supply inp) (Index g slot j) - dec (in_Demand inp) (Index g slot j)) with (E_ (Index g slot j)).
  destruct (Qle_bool 0 (E_ (Index g slot j))) eqn:He; cbn [negb].
  - exists j. split; [done|]. right. apply Qle_bool_iff in He. split_and!; [done..|by apply bump_size|].
    destruct (Index_prev slot j Hg Hj) as [Hg' Hp]. replace (0 <? j)%Z with true by lia. by rewrite decrypted_at, Hp.
  - apply IH; [lia..|]. intros i Hi'. destruct (decide (i = j)) as [->|]; [by apply n_le_false in He|]. apply Hbefore. lia.
Qed.

Definition tolerance : Q := eps / oneHotThreshold + eps.

Lemma slot_agrees slot : (0 <= slot < NumSlots g)%Z ->
  exists k r r', first_at_half g (decrypted (Step out)) slot (seqZ 1 (NumBuckets g - 1)) = Some k /\
    decode_slot g (decrypted (OneHot out)) (decrypted (SupplyAt out)) (decrypted (SupplyPrevAt out)) (decrypted (DemandAt out)) slot k = Some r /\
    clearSlot g (decrypted (in_Supply inp)) (decrypted (in_Demand inp)) slot = Some r' /\ agrees tolerance r r'.
Proof.
  intros Hslot. pose proof (grid_positive g Hvalid) as [Hb _].
  destruct (crossing_agrees slot (Z.to_nat (NumBuckets g - 1)) 1) as (k & Hk & Hcase); try (done || lia).
  rewrite Z2Nat.id in Hk, Hcase by lia. exists k. unfold clearSlot. destruct Hcase as [[-> Hc]|(Hg & Hpos & Hbump & Hc)]; rewrite Hc.
  { exists no_result, no_result. split_and!; [done..|constructor]. }
  cbn [mbind option_bind Bucket]. assert (Hno : (k =? NoClearing)%Z = false) by (unfold NoClearing; lia). rewrite Hno.
  destruct (Index_exact g Hvalid Hlen _ _ Hg) as [Hix Hi]. pose proof (Hout _ Hi) as Hm. assert (Hi0 : (0 < Index g slot k)%Z) by (destruct Hg; nia).
  unfold decode_slot. rewrite Hno, !decrypted_at by done. cbn [mbind option_bind]. rewrite (proj2 (n_lt_false _ _) Hbump).
  eexists _, _. split_and!; [done|done|done|]. cbn [n_div rational_num].
  set (raw := mkResult k (Price g k) _ _ _ _ _ _).
  assert (Hfix : (if (Bucket (deriveAllocation raw) =? NoClearing)%Z then deriveAllocation raw
     else mkResult k (Price g k) (Supply (deriveAllocation raw)) (SupplyPrev (deriveAllocation raw)) (Demand (deriveAllocation raw))
       (Cleared (deriveAllocation raw)) (MarginalRatio (deriveAllocation raw)) (InframarginalRatio (deriveAllocation raw))) = deriveAllocation raw).
  { unfold deriveAllocation. match goal with |- context [n_le ?c n_zero] => destruct (n_le c n_zero) end; [done|].
    cbn [Bucket]. change (Bucket raw) with k. by rewrite Hno. }
  rewrite Hfix. assert (Ht : 0 < oneHotThreshold (F := Q)) by (vm_compute; reflexivity).
  assert (Hq : 0 <= eps / oneHotThreshold) by (apply Qle_shift_div_l; lra).
  assert (Hwide : forall s a, near (eps / oneHotThreshold) s a -> near tolerance s a) by (unfold near, tolerance; intros s a []; split; lra).
  constructor; cbn [raw Bucket ResultPriceCt Supply SupplyPrev Demand]; [done|done| | |].
  - apply Hwide, near_quotient; [lra|done|done|]. apply (mk_supply _ _ _ _ _ _ _ _ Hm).
  - destruct (mk_prev _ _ _ _ _ _ _ _ Hm Hi0) as (prev & Hp & Hsp). apply (near_quotient _ (oneHotThreshold (F := Q))) in Hsp; [|lra|done|done].
    unfold near, tolerance in *. split; lra.
  - apply Hwide, near_quotient; [lra|done|done|]. apply (mk_demand _ _ _ _ _ _ _ _ Hm).
Qed.
End decode.


(** ** The comparator is odd *)

Lemma place_terms_even Pow degree half series i coeffs j :
  (0 <= i)%Z -> Nat.even j = true -> place_terms Pow degree half i series coeffs !! j = coeffs !! j.
Proof.
  revert i coeffs. induction series as [|tc series IH]; intros i coeffs Hi Hj; cbn [place_terms]; [done|].
  case_match; [done|]. rewrite IH by (done || lia). apply list_lookup_insert_ne. intros <-.
  replace (Z.to_nat (2 * i + 1)%Z) with (1 + 2 * Z.to_nat i)%nat in Hj by lia. rewrite Nat.even_add_mul_2 in Hj. done.
Qed.

Lemma LogisticCoeffs_odd Pow degree gain coeffs :
  in_int64 degree -> LogisticCoeffs Pow degree gain = Some coeffs ->
  coeffs !! 0%nat = Some (f64_lit 5 1) /\ forall j c, Nat.even j = true -> (0 < j)%nat -> coeffs !! j = Some c -> c = f64_zero.
Proof.
  intros Hin. unfold LogisticCoeffs. set (d := if (degree <? 1)%Z then 1%Z else degree). unfold make. case_match eqn:Hd; [|done].
  assert (Hlen : (0 < Z.to_nat (wrap64 (d + 1)%Z))%nat).
  { assert (Hd1 : (1 <= d < 2 ^ 63)%Z) by (unfold d, in_int64 in *; case_match; lia). unfold wrap64 in *.
    assert (d + 1 < 2 ^ 63 \/ d + 1 = 2 ^ 63)%Z as [Hl|He] by lia; [rewrite Z.mod_small in * by lia; lia|].
    rewrite He in Hd. by vm_compute in Hd. }
  cbn [mbind option_bind]. intros Hc%(inj Some). subst coeffs. split.
  - rewrite place_terms_even by done. apply list_lookup_insert_eq. by rewrite length_replicate.
  - intros j c Hj Hpos. rewrite place_terms_even, list_lookup_insert_ne by (done || lia). by intros [-> _]%lookup_replicate.
Qed.

Lemma evalPolyAt_cons (c : Q) l x : evalPolyAt (c :: l) x = evalPolyAt l x * x + c.
Proof. reflexivity. Qed.

(** Terms of one parity: [even] says whether those at even places may differ
    from zero. *)
Lemma parity_poly (even : bool) (l : list Q) x :
  (forall j c, Nat.even j = negb even -> l !! j = Some c -> c == 0) ->
  evalPolyAt l (- x) == if even then evalPolyAt l x else - evalPolyAt l x.
Proof.
  revert even. induction l as [|c l IH]; intros even Hl; [by destruct even|].
  rewrite !evalPolyAt_cons, (IH (negb even)).
  - destruct even; cbn [negb]; [ring|]. rewrite (Hl 0%nat c) by done. ring.
  - intros j c' Hj Hc'. apply (Hl (S j) c'); [|done]. rewrite Nat.even_succ, <- Nat.negb_even, Hj. by destruct even.
Qed.

(** The comparator is one half at zero excess and symmetric about it, for every
    degree and gain. *)
Lemma comparator_symmetric Pow degree gain coeffs x :
  in_int64 degree -> LogisticCoeffs Pow degree gain = Some coeffs ->
  poly coeffs 0 == 1 # 2 /\ poly coeffs (- x) == 1 - poly coeffs x.
Proof.
  intros Hin Hc. destruct (LogisticCoeffs_odd _ _ _ _ Hin Hc) as [H0 Hev]. destruct coeffs as [|c0 rest]; [done|].
  cbn in H0. injection H0 as ->. unfold poly. rewrite fmap_cons, !evalPolyAt_cons.
  assert (Hhalf : val (f64_lit 5 1) == 1 # 2) by (vm_compute; reflexivity). rewrite Hhalf. split; [ring|].
  rewrite (parity_poly true); [lra|]. intros j c Hj Hl. apply list_lookup_fmap_Some in Hl as (v & -> & Hv).
  rewrite (Hev (S j) v); [reflexivity| |lia|done]. by rewrite Nat.even_succ, <- Nat.negb_even, Hj.
Qed.

(** ** Witness *)

(** Ciphertexts that spell out their four slots. *)
Fixpoint bits (p : positive) : bytes :=
  match p with xH => [x01] | xO p => x00 :: bits p | xI p => x01 :: x01 :: bits p end.

Fixpoint of_bits (b : bytes) : option positive :=
  match b with
  | [x01] => Some xH
  | x00 :: b => xO <$> of_bits b
  | x01 :: x01 :: b => xI <$> of_bits b
  | _ => None
  end.

Lemma of_bits_bits p : of_bits (bits p) = Some p.
Proof.
  induction p as [p IH|p IH|]; [| |done]; cbn.
  - rewrite IH. by destruct (bits p) eqn:Hb; [destruct p|].
  - by rewrite IH.
Qed.

Lemma bits_nonempty p : bits p <> [].
Proof. by destruct p. Qed.

Definition packed (f : Z -> Q) : bytes := bits (countable.encode ((fun i => (Qnum (f i), Qden (f i))) <$> seqZ 0 4)).

Definition slots_of (ct : bytes) : list (Z * positive) := default [] (of_bits ct ≫= countable.decode).

Definition slot_value (ct : bytes) (i : Z) : Q := from_option (fun p => Qmake p.1 p.2) 0 (at_ (slots_of ct) i).

Lemma slot_value_packed f i : (0 <= i < 4)%Z -> slot_value (packed f) i = f i.
Proof.
  intros Hi. unfold slot_value, slots_of, packed. rewrite of_bits_bits. cbn [mbind option_bind]. rewrite decode_encode. cbn [default from_option id].
  unfold at_. replace (0 <=? i)%Z with true by lia. rewrite list_lookup_fmap, (proj2 (lookup_seqZ 0 4 (Z.to_nat i) i)) by lia. cbn. by destruct (f i).
Qed.

(** Every operation errs by a millionth. *)
Definition noise : Q := 1 # 1000000.

Section witness.
#[local] Instance wit_bridge : Bridge unit := {|
  OpenFHEVersion := "";
  DistributedKeyGenFirst _ w := (w, inl "");
  DistributedKeyGenNext _ _ w := (w, inl "");
  BFVDistributedKeyGenFirst _ w := (w, inl "");
  BFVDistributedKeyGenNext _ _ w := (w, inl "");
  EncryptCKKSForContract _ _ vals w := (w, inr (packed (fun i => from_option val 0 (at_ vals i) + noise)));
  EncryptBFVForContract _ _ _ w := (w, inl "");
  b_EvalKeyRound1Lead _ _ w := (w, inl "");
  b_BFVEvalKeyRound1Lead _ _ w := (w, inl "");
  b_EvalKeyRound1Participant _ _ _ _ _ w := (w, inl "");
  b_BFVEvalKeyRound1Participant _ _ _ _ _ w := (w, inl "");
  b_EvalKeyRound2Participant _ _ _ _ _ w := (w, inl "");
  b_BFVEvalKeyRound2Participant _ _ _ _ _ w := (w, inl "");
  PartialDecryptCKKSForContract _ _ _ _ w := (w, inl "");
  PartialDecryptBFVForContract _ _ _ _ w := (w, inl "");
  b_CombineEvalKeyRound1 _ _ _ _ w := (w, inl "");
  b_BFVCombineEvalKeyRound1 _ _ _ _ w := (w, inl "");
  b_CombineEvalKeyRound2 _ _ _ _ w := (w, inl "");
  b_BFVCombineEvalKeyRound2 _ _ _ _ w := (w, inl "");
  SplitRotShareAB _ _ w := (w, inl "");
  ReconstructRotShareAB _ _ _ w := (w, inl "");
  FuseCKKSPartialsForContract _ _ _ w := (w, inl "");
  FuseBFVPartialsForContract _ _ _ w := (w, inl "");
  EvalProductSumBFVForContract _ _ _ _ _ w := (w, inl "");
  EvalPolyCKKSForContract _ _ ct coeffs w := (w, inr (packed (fun i => evalPolyAt (val <$> coeffs) (slot_value ct i) - noise)));
  EvalAddCKKSForContract _ a b w := (w, inr (packed (fun i => slot_value a i + slot_value b i + noise)));
  EvalSubCKKSForContract _ a b w := (w, inr (packed (fun i => slot_value a i - slot_value b i + noise)));
  EvalMultCKKSForContract _ _ a b w := (w, inr (packed (fun i => slot_value a i * slot_value b i + noise)));
  EvalConstMultCKKSForContract _ ct c w := (w, inr (packed (fun i => slot_value ct i * val c - noise)));
  EvalArgmaxCKKSForContract _ _ _ _ w := (w, inl "") |}.

#[local] Instance wit_eval : BridgeEval (W := unit) := {|
  SmokeCKKS w := (w, inr tt);
  EvalProductSumForContract _ _ _ _ _ w := (w, inl "");
  EvalAtIndexCKKSForContract _ _ ct k w := (w, inr (packed (fun i => slot_value ct ((i + k) mod 4)%Z + noise))) |}.

Definition wit_handle : cgoHandle := mkHandle (mkParams "" 0 f64_zero 0 0) (mkOpenFHE 0 f64_zero 0) (mkFinal [] []) [].

#[local] Instance wit_ckks : CKKSHandle wit_handle 4 slot_value noise 100.
Proof.
  split; intros; intros []; eexists _, _; (split_and!; [reflexivity|apply bits_nonempty|]); intros i Hi;
    rewrite slot_value_packed by done; unfold near, noise; try (change (i + -1)%Z with (i - 1)%Z); split; lra.
Qed.

Definition wit_grid : GridSpec := mkGrid f64_one 4 1.
Definition wit_inputs : ClearingInputs := mkInputs (packed (fun i => inject_Z (2 * i))) (packed (fun i => inject_Z (7 - 2 * i))).
Definition wit_coeffs : list float64 := [f64_lit 5 1; f64_lit 5 1].

Lemma wit_poly x : poly wit_coeffs x == (1 # 2) * x + (1 # 2).
Proof.
  unfold poly, wit_coeffs. rewrite !fmap_cons, !evalPolyAt_cons. change (evalPolyAt (val <$> []) x) with 0.
  assert (Hhalf : val (f64_lit 5 1) == 1 # 2) by (vm_compute; reflexivity). rewrite Hhalf. ring.
Qed.

Lemma wit_inverse : inverse (f64_of_Z 8) == 1 # 8.
Proof. vm_compute. reflexivity. Qed.

Lemma wit_excess i : (0 <= i < 4)%Z -> excess slot_value wit_inputs i == inject_Z (4 * i - 7).
Proof.
  intros Hi. unfold excess, S_, D_. cbn [wit_inputs in_Supply in_Demand]. rewrite !slot_value_packed by done.
  unfold Qminus. rewrite <- inject_Z_opp, <- inject_Z_plus. apply inject_Z_injective. lia.
Qed.

Lemma wit_sized : sized_for noise 100 7 2 2 (inverse (f64_of_Z 8)) (poly wit_coeffs).
Proof.
  pose proof wit_inverse. split; unfold noise; try lra. intros x [Hx1 Hx2]. pose proof (wit_poly x). split; lra.
Qed.

Lemma wit_curves i : (0 <= i < 4)%Z -> bounded 7 (S_ slot_value wit_inputs i) /\ bounded 7 (D_ slot_value wit_inputs i).
Proof.
  intros Hi. unfold S_, D_. cbn [wit_inputs in_Supply in_Demand]. rewrite !slot_value_packed by done. unfold bounded.
  rewrite <- !inject_Z_opp || idtac. unfold inject_Z, Qle. cbn. lia.
Qed.

Lemma wit_buckets slot k : in_grid wit_grid slot k -> (0 < k)%Z -> slot = 0%Z /\ Index wit_grid slot k = k /\ (k = 1 \/ k = 2 \/ k = 3)%Z.
Proof. intros [Hs Hk] Hpos. cbn in Hs, Hk. assert (slot = 0)%Z as -> by lia. assert (k = 1 \/ k = 2 \/ k = 3)%Z as [-> |[-> | ->]] by lia; split_and!; auto. Qed.

Lemma wit_argument i x : (0 <= i < 4)%Z -> argument slot_value noise wit_inputs (f64_of_Z 8) i x ->
  near (2 # 1000000) (inject_Z (4 * i - 7) * (1 # 8)) x.
Proof.
  intros Hi Hx. pose proof (wit_excess i Hi) as He. pose proof wit_inverse as Hv. unfold argument, near, noise in *.
  set (e := excess slot_value wit_inputs i) in *. set (v := inverse (f64_of_Z 8)) in *. set (z := inject_Z (4 * i - 7)) in *. rewrite He, Hv in Hx. split; lra.
Qed.

Lemma wit_separates : separates slot_value noise wit_grid wit_inputs wit_coeffs (f64_of_Z 8).
Proof.
  intros slot k x Hg Hpos. destruct (wit_buckets slot k Hg Hpos) as (_ & -> & Hk). intros Hx. apply wit_argument in Hx; [|lia].
  pose proof (wit_excess k ltac:(lia)) as He. pose proof (wit_poly x) as Hp.
  assert (Ht : crossingThreshold (F := Q) < 0.4991 /\ 0.4989 < crossingThreshold (F := Q)) by (split; vm_compute; reflexivity).
  unfold near, noise in *. generalize dependent (excess slot_value wit_inputs k). generalize dependent (poly wit_coeffs x). intros p Hp e He.
  generalize dependent (crossingThreshold (F := Q)). intros t Ht. destruct Hk as [-> |[-> | ->]];
    [assert (Hz : inject_Z (4 * 1 - 7) == -3) by reflexivity|assert (Hz : inject_Z (4 * 2 - 7) == 1) by reflexivity|assert (Hz : inject_Z (4 * 3 - 7) == 5) by reflexivity];
    split; intros; lra.
Qed.

Lemma wit_rises : rises slot_value noise wit_grid wit_inputs wit_coeffs (f64_of_Z 8).
Proof.
  intros slot k x y Hg Hpos _ _. destruct (wit_buckets slot k Hg Hpos) as (_ & -> & Hk). intros Hx Hy. apply wit_argument in Hx, Hy; [|lia..].
  pose proof (wit_poly x) as Hpx. pose proof (wit_poly y) as Hpy.
  assert (Ht : oneHotThreshold (F := Q) < 0.011) by (vm_compute; reflexivity).
  unfold near, noise in *. generalize dependent (poly wit_coeffs x). generalize dependent (poly wit_coeffs y). intros py Hpy px Hpx.
  generalize dependent (oneHotThreshold (F := Q)). intros t Ht. destruct Hk as [-> |[-> | ->]];
    [assert (Hz : inject_Z (4 * 1 - 7) == -3 /\ inject_Z (4 * (1 - 1) - 7) == -7) by (by split)|assert (Hz : inject_Z (4 * 2 - 7) == 1 /\ inject_Z (4 * (2 - 1) - 7) == -3) by (by split)|
     assert (Hz : inject_Z (4 * 3 - 7) == 5 /\ inject_Z (4 * (3 - 1) - 7) == 1) by (by split)]; lra.
Qed.

End witness.
End PoolCircuit.
