(* ===== verification/BoundedAdmission.v ===== *)
(** * Bounded admission ([examples/bounded_admission])

    The application around the bound-check phase: pre-shared keys, encrypted
    inputs, the recording of violations, and how an admission ends. *)

From S2P Require Import Prelude Sha256 Float64 Lineage LineageStore PhaseTypes Compose ComposeTheorems Runner RunnerInvariant RunnerTheorems Defaults PipelineSpec Collecting HelperPhases BoundCheck.
Import Sha256 Lineage LineageStore PhaseTypes Compose ComposeTheorems Runner RunnerInvariant RunnerTheorems Defaults PipelineSpec Collecting HelperPhases.

#[local] Open Scope Z_scope.
#[local] Open Scope go_scope.

Module BoundedAdmission.
#[local] Open Scope prog_scope.

(** ** States, keys and messages *)

Definition StateAdmissionInviting : SessionState := "ADMISSION_INVITING".
Definition StateAdmissionLocked : SessionState := "ADMISSION_LOCKED".
Definition StateAdmissionSubmitting : SessionState := "ADMISSION_SUBMITTING".
Definition StateAdmissionChecking : SessionState := "ADMISSION_CHECKING".
Definition StateAdmissionSettled : SessionState := "ADMISSION_SETTLED".
Definition CtxAdmissionResults : string := "admission.results".
Definition MsgInput : string := "admission.input".
Definition bucketInputs : string := "admission.bucket.inputs".

(** [map[string]string] in a context. *)
Definition project_results (v : any) : option (gmap string string) :=
  match v with
  | VStruct ty fs =>
      if String.eqb ty "map[string]string"
      then list_to_map <$> mapM (fun kv => match kv.2 with VString s => Some (kv.1, s) | _ => None end) fs else None
  | _ => None
  end.

Definition inject_results (m : gmap string string) : any :=
  VStruct "map[string]string" ((fun kv => (kv.1, VString kv.2)) <$> map_to_list m).

#[export] Instance results_type : GoType (gmap string string).
Proof.
  refine {| inject := inject_results; project := project_results |}.
  intros m. cbn. replace (mapM _ _) with (Some (map_to_list m)); [cbn; by rewrite list_to_map_to_list|].
  symmetry. apply mapM_Some, Forall2_fmap_l, Forall_Forall2_diag, Forall_forall. by intros [k v] _.
Defined.

(** ** Phases *)

Definition severity_code (sev : BoundCheck.Severity) : Z :=
  match sev with BoundCheck.SeverityOK => 0 | BoundCheck.SeveritySoft => 1 | BoundCheck.SeverityHard => 2 end.

Definition results_of (c : SessionContext) : gmap string string := default ∅ (TryGet project c CtxAdmissionResults).

(** [recordingHandler.OnViolation]. *)
Definition recordingHandler : BoundCheck.ViolationHandler := fun party nu sev =>
  let* results := hTryGet (project : any -> option (gmap string string)) CtxAdmissionResults in
  hSet CtxAdmissionResults (inject (<[party := "violation:" +:+ pretty (severity_code sev)]> (default ∅ results))) ;;
  Ret None.

Definition PhaseInvitation : Phase := {|
  Name := "admission-invitation"; Lifetime := LifetimePerSession; RunsAt := RunsAtInline;
  EntryState := StateAdmissionInviting; ExitState := StateAdmissionLocked; InternalStates := []; ConsumedMessageTypes := [];
  Requires := schema []; Provides := schema [(CtxParticipants, gives "[]string")];
  Enter := ok; OnMessage := ignore; CheckComplete := Ret true; Exit := ok |}.

Definition pk_Exit : Prog (option gerror) :=
  let* pk := hTryGet as_bytes BoundCheck.CtxJointPublicKey in
  match pk with
  | Some _ => Ret None
  | None =>
      hSet BoundCheck.CtxInputDim (VInt 8) ;;
      hSet BoundCheck.CtxEvalKeyBundle (VBytes (bytes_of_string "stub-eval-key-bundle")) ;;
      hSet BoundCheck.CtxJointPublicKey (VBytes (bytes_of_string "stub-joint-public-key")) ;; Ret None
  end.

Definition PhaseKeygen : Phase := {|
  Name := "admission-keygen"; Lifetime := LifetimePerSession; RunsAt := RunsAtInline;
  EntryState := StateAdmissionLocked; ExitState := StateAdmissionSubmitting; InternalStates := []; ConsumedMessageTypes := [];
  Requires := schema [];
  Provides := schema
    [(BoundCheck.CtxInputDim, gives "int"); (BoundCheck.CtxEvalKeyBundle, gives "[]byte");
     (BoundCheck.CtxJointPublicKey, gives "[]byte")];
  Enter := ok; OnMessage := ignore; CheckComplete := Ret true; Exit := pk_Exit |}.

Section phases.
Context `{FormJSON} `{GoRange} `{BoundCheck.ContextHandles} (decode : bytes -> option (gmap string bytes)).

Definition si_OnMessage (_ from : string) (payload : bytes) : Prog (option gerror) :=
  match json_fields ["enc_x"] payload with
  | None => Ret (Some (Errorf "decode %s admission.input: %w" [from] []))
  | Some get =>
      match hex_decode (get "enc_x") with
      | None => Ret (Some (Errorf "decode enc_x hex from %s: %w" [from] []))
      | Some encX => AccumulateMessage bucketInputs from encX ;; Ret None
      end
  end.

Definition PhaseSubmitInput : Phase := {|
  Name := "admission-submit-input"; Lifetime := LifetimePerSession; RunsAt := RunsAtInline;
  EntryState := StateAdmissionSubmitting; ExitState := StateAdmissionChecking; InternalStates := [];
  ConsumedMessageTypes := [MsgInput];
  Requires := schema [(CtxParticipants, needs "[]string")];
  Provides := schema [(BoundCheck.CtxEncryptedInputs, gives "map[string][]byte")];
  Enter := ok; OnMessage := si_OnMessage; CheckComplete := quorum CtxParticipants bucketInputs;
  Exit := publish BoundCheck.CtxEncryptedInputs bucketInputs |}.

Definition ps_Enter : Prog (option gerror) :=
  let* results := hTryGet (project : any -> option (gmap string string)) CtxAdmissionResults in
  hSet CtxAdmissionResults (inject (default ∅ results : gmap string string)) ;; Ret None.

Definition PhaseSettle : Phase := {|
  Name := "admission-settle"; Lifetime := LifetimePerSession; RunsAt := RunsAtInline;
  EntryState := StateAdmissionSettled; ExitState := StateNone; InternalStates := []; ConsumedMessageTypes := [];
  Requires := schema []; Provides := schema [(CtxAdmissionResults, gives "map[string]string")];
  Enter := ps_Enter; OnMessage := ignore; CheckComplete := Ret true; Exit := ok |}.

(** ** The pipeline *)

Definition admission_check : BoundCheck.BoundPhase :=
  BoundCheck.NewPhase (BoundCheck.NormCircuit (f64_lit 5 2) 8) (Some recordingHandler) BoundCheck.DefaultParams
    StateAdmissionChecking StateAdmissionSettled.

Definition checking : Phase := BoundCheck.bound_phase decode admission_check.

Definition admission_phases : list Phase := [PhaseInvitation; PhaseKeygen; PhaseSubmitInput; checking; PhaseSettle].

Definition PipelineWithCrypto `{GoFmt} {St} : gerror + SessionRunner St := Compose admission_phases.

(** ** How an admission ends *)

Lemma admission_acyclic : acyclic admission_phases.
Proof. intros q [= <-]. cbn. set_solver. Qed.

Lemma checking_collects : collects checking BoundCheck.MsgBoundPartial CtxParticipants BoundCheck.bucketPartials.
Proof. by split. Qed.

(** The violations are recorded in order, the last of a party standing. *)
Definition record (m : gmap string string) (v : BoundCheck.violation) : gmap string string :=
  <[BoundCheck.v_party v := "violation:" +:+ pretty (severity_code (BoundCheck.v_sev v))]> m.

Lemma notify_records vs c :
  exists c', hook (BoundCheck.notify (Some recordingHandler) vs) c = (c', Ok tt) /\
    results_of c' = foldl record (results_of c) vs /\
    forall key, key <> CtxAdmissionResults -> ctx_Get c' key = ctx_Get c key.
Proof.
  revert c. induction vs as [|v vs IH]; intros c; [by exists c|]. cbn [BoundCheck.notify]. unfold recordingHandler.
  set (c1 := ctx_Set c CtxAdmissionResults (inject (record (results_of c) v))).
  destruct (IH c1) as (c' & Hh & Hr & Hk). exists c'. split_and!.
  - rewrite <- Hh. hooks. done.
  - rewrite Hr. cbn [foldl]. f_equal. unfold results_of, c1. by rewrite TryGet_set, project_inject.
  - intros key Hkey. rewrite Hk by done. unfold c1. by rewrite get_set_ne.
Qed.

Definition checked : list Phase := [checking; PhaseSettle].

(** The session that a completing partial leaves behind, and what is returned. *)
Definition admitted (c : SessionContext) (s : session) (res : result bool) : Prop :=
  exists c', s = mkSession c' [] true /\ res = Good true /\ ctx_Get c' CtxAdmissionResults = Some (inject (results_of c)).

Definition stopped (c : SessionContext) (err : gerror) (vs : list BoundCheck.violation) (s : session) (res : result bool) : Prop :=
  exists c', s = mkSession c' checked true /\ res = Bad (Errorf "phase %q: Exit: %w" ["bound-check"] [err]) /\
    results_of c' = foldl record (results_of c) vs.

Definition admission_result (participants : list string) (c : SessionContext) (s : session) (res : result bool) : Prop :=
  match TryGet BoundCheck.as_fuse c BoundCheck.CtxBoundCheckFuse with
  | None => admitted c s res
  | Some f =>
      match BoundCheck.assess decode admission_check f participants (AccumulatedMessages c BoundCheck.bucketPartials) with
      | inl err => stopped c err [] s res
      | inr [] => admitted c s res
      | inr vs => stopped c BoundCheck.boundViolation vs s res
      end
  end.

Lemma checking_leaves participants c :
  TryGet as_strings c CtxParticipants = Some participants ->
  admission_result participants c (leave checking [PhaseSettle] true c).1 (leave checking [PhaseSettle] true c).2.
Proof.
  intros Hp. unfold admission_result.
  assert (Hin : hook (BoundCheck.bc_Exit decode admission_check) c = (c, Ok None) ->
    admitted c (leave checking [PhaseSettle] true c).1 (leave checking [PhaseSettle] true c).2).
  { intros Hx. assert (Hl : leave checking [PhaseSettle] true c =
      (mkSession (ctx_Set c CtxAdmissionResults (inject (results_of c))) [] true, Good true)).
    { cbn [leave]. unfold guarded at 1. cbn [Exit checking BoundCheck.bound_phase]. by rewrite Hx. }
    rewrite Hl. eexists. split_and!; [done..|]. apply get_set. }
  assert (Hout : forall c' err vs, hook (BoundCheck.bc_Exit decode admission_check) c = (c', Ok (Some err)) ->
    results_of c' = foldl record (results_of c) vs ->
    stopped c err vs (leave checking [PhaseSettle] true c).1 (leave checking [PhaseSettle] true c).2).
  { intros c' err vs Hx Hr. assert (Hl : leave checking [PhaseSettle] true c =
      (mkSession c' checked true, Bad (Errorf "phase %q: Exit: %w" ["bound-check"] [err]))).
    { cbn [leave]. unfold guarded at 1. cbn [Exit checking BoundCheck.bound_phase]. by rewrite Hx. }
    rewrite Hl. by exists c'. }
  unfold BoundCheck.bc_Exit in Hin, Hout. rewrite hook_context in Hin, Hout. cbn [BoundCheck.fuse admission_check BoundCheck.NewPhase] in Hin, Hout.
  rewrite Hp in Hin, Hout. cbn [BoundCheck.or_else default id] in Hin, Hout.
  destruct (TryGet BoundCheck.as_fuse c BoundCheck.CtxBoundCheckFuse) as [f|]; [|by apply Hin].
  destruct (BoundCheck.assess decode admission_check f participants _) as [err|[|v vs]].
  - by eapply Hout.
  - by apply Hin.
  - destruct (notify_records (v :: vs) c) as (c' & Hh & Hr & _). eapply Hout; [|exact Hr].
    cbn [BoundCheck.handler admission_check BoundCheck.NewPhase].
    assert (Hb : forall A (m : Prog unit) (k : unit -> Prog A) c0 c1, hook m c0 = (c1, Ok tt) -> hook (pbind m k) c0 = hook (k tt) c1).
    { intros A m k. induction m as [a|msg|g k' IH|ph ro pl ps k' IH|k' IH]; intros c0 c1 Hm; cbn in *; simplify_eq/=; eauto. }
    by rewrite (Hb _ _ _ _ _ Hh).
Qed.

Lemma suffix_of_phase (l pre : list Phase) i q rest :
  NoDup (EntryState <$> l) -> l = pre ++ q :: rest -> l !! i = Some q -> rest = drop (S i) l.
Proof.
  intros Hnd -> Hi.
  assert (Hp : (EntryState <$> (pre ++ q :: rest)) !! length pre = Some (EntryState q))
    by (rewrite list_lookup_fmap, list_lookup_middle; done).
  assert (Hq : (EntryState <$> (pre ++ q :: rest)) !! i = Some (EntryState q)) by (by rewrite list_lookup_fmap, Hi).
  rewrite (NoDup_lookup _ _ _ _ Hnd Hq Hp). by rewrite drop_app_ge, Nat.sub_succ_l, Nat.sub_diag by lia.
Qed.

Section on_runner.
Context `{GoFmt} {St : Type} `{Store St} `{Clock}.

(** A session in the checking phase has that phase and the settlement ahead. *)
Lemma at_checking r0 ops sid c :
  PipelineWithCrypto (St := St) = inr r0 ->
  sessions (runner_run r0 ops) !! sid = Some (mkTracker c StateAdmissionChecking (Some checking) true) ->
  spec_run admission_phases None ops !! sid = Some (mkSession c checked true).
Proof.
  intros Hr0 Hsid. destruct (composed_runs _ r0 ops Hr0 admission_acyclic) as (Hok & _ & Hs & _ & Ha).
  rewrite Hs, lookup_fmap in Hsid. destruct (spec_run admission_phases None ops !! sid) as [s|] eqn:Hsp; [|done].
  destruct (map_Forall_lookup_1 _ _ _ _ Ha Hsp) as [pre Hpre]. injection Hsid as Hc _ Hh He. f_equal.
  destruct s as [cs rest en]. cbn [s_ctx s_rest s_entered] in *. subst. f_equal. destruct rest as [|q rest]; [done|].
  injection Hh as ->. unfold checked. f_equal. apply (suffix_of_phase (inline admission_phases) pre 3 checking rest); [apply ch_nodup, pipeline_chained, Hok|done..].
Qed.

(** C28: how an admission ends.  From any session in the checking phase, when
    the last participant's partial completes the quorum: without a fuse the
    session settles whatever the partials are; with one, it settles exactly
    when the round's assessment finds no violator, and the recorded results are
    then unchanged; otherwise the message is answered with the violation (or
    the assessment's error), the session stays in the checking phase, and every
    violator's severity is recorded. *)
Theorem admission_outcome (r0 : SessionRunner St) ops sid c participants pre from pl :
  PipelineWithCrypto = inr r0 ->
  sessions (runner_run r0 ops) !! sid = Some (mkTracker c StateAdmissionChecking (Some checking) true) ->
  TryGet as_strings c CtxParticipants = Some participants -> ctx_Get c BoundCheck.bucketPartials = None ->
  from ∉ pre.*1 -> length participants = S (size (list_to_set pre.*1 : gset string)) ->
  let out := HandleMessage (runner_run r0 (ops ++ messages sid BoundCheck.MsgBoundPartial pre))
               sid BoundCheck.MsgBoundPartial from pl in
  exists s, sessions out.1 !! sid = Some (tracker_of s) /\
    admission_result participants (submitted c BoundCheck.bucketPartials (pre ++ [(from, pl)])) s out.2.
Proof.
  intros Hr0 Hsid Hp Hb Hf Hlen out.
  pose proof (at_checking r0 ops sid c Hr0 Hsid) as Hspec.
  destruct (composed_runs _ r0 (ops ++ messages sid BoundCheck.MsgBoundPartial pre) Hr0 admission_acyclic) as (Hok & Hc & Hr).
  assert (Hfed : spec_run admission_phases None (ops ++ messages sid BoundCheck.MsgBoundPartial pre) !! sid =
    Some (feed BoundCheck.MsgBoundPartial (mkSession c checked true) pre)).
  { rewrite (spec_run_feed_lookup _ _ _ _ _ _ _ Hspec). done. }
  destruct (HandleMessage_represents _ Hok admission_acyclic _ _ sid BoundCheck.MsgBoundPartial from pl Hc Hr) as [(Hs & _) Hres].
  pose proof (round_message _ _ _ _ checking_collects [PhaseSettle] c true participants pre from pl Hp Hb Hf Hlen) as Hm.
  exists (s_message (feed BoundCheck.MsgBoundPartial (mkSession c checked true) pre) BoundCheck.MsgBoundPartial from pl).1.
  unfold out. rewrite (Hres _ Hfed), Hs, lookup_fmap, lookup_alter_eq, Hfed. split; [done|].
  unfold checked. rewrite Hm. apply checking_leaves. by rewrite submitted_other.
Qed.
End on_runner.
End phases.

(** ** Witness: one participant, in real mode *)

Section witnesses.
#[local] Instance wit_range : GoRange := sorted_range.
#[local] Instance wit_fmt : GoFmt := {| fmt_float := fun _ => ""; fmt_float32 := fun _ => ""; fmt_opaque := fun _ => "" |}.
#[local] Instance wit_clock : Clock := fun n => Z.of_nat n.
#[local] Instance wit_handles : BoundCheck.ContextHandles := {|
  BoundCheck.EvalSubConst := fun _ b _ => inr b; BoundCheck.EvalProductSum := fun _ b _ _ => inr b |}.
#[local] Instance wit_json : FormJSON := {|
  json_fields names raw := Some (fun _ => hex_encode raw); encode_envelope bidders masks := []; encode_map m := Some [] |}.

Definition wit_decode (b : bytes) : option (gmap string bytes) := Some {[ "a" := b ]}.

(** Fuses to three, out of [0.95, 1.05]. *)
Definition wit_fuse : BoundCheck.Fuse := fun _ _ => inr [f64_of_Z 3].

Definition wit_ops : list runner_op :=
  [RBegin "s" "c"; RSeed "s" CtxParticipants (VStrings ["a"]); RSeed "s" BoundCheck.CtxBoundCheckFuse (VFuse wit_fuse);
   RAdvance "s" StateAdmissionChecking].

Definition wit_seeded : SessionContext :=
  ctx_Set (ctx_Set (NewSessionContext "s" <| CohortID := "c" |>) CtxParticipants (VStrings ["a"]))
    BoundCheck.CtxBoundCheckFuse (VFuse wit_fuse).

Definition wit_ctx : SessionContext :=
  ctx_Set (ctx_Set (ctx_Set (ctx_Set wit_seeded BoundCheck.CtxInputDim (VInt 8))
    BoundCheck.CtxEvalKeyBundle (VBytes (bytes_of_string "stub-eval-key-bundle")))
    BoundCheck.CtxJointPublicKey (VBytes (bytes_of_string "stub-joint-public-key")))
    BoundCheck.CtxEncryptedInputs (VBucket ∅).

Abbreviation wit_runner := (composed_or_empty (PipelineWithCrypto (St := InMemoryStore) wit_decode)).

Lemma admission_accepted : is_inr (PipelineWithCrypto (St := InMemoryStore) wit_decode) = true.
Proof. vm_compute. reflexivity. Qed.

Lemma wit_advance :
  s_advance "s" StateAdmissionChecking (mkSession wit_seeded (admission_phases wit_decode) true) =
  (mkSession wit_ctx (checked wit_decode) true, Good tt).
Proof.
  unfold s_advance, admission_phases. cbn [s_rest]. rewrite bool_decide_false by (cbn; set_solver).
  set (c1 := ctx_Set (ctx_Set (ctx_Set wit_seeded BoundCheck.CtxInputDim (VInt 8))
    BoundCheck.CtxEvalKeyBundle (VBytes (bytes_of_string "stub-eval-key-bundle")))
    BoundCheck.CtxJointPublicKey (VBytes (bytes_of_string "stub-joint-public-key"))).
  assert (Hk : hook pk_Exit wit_seeded = (c1, Ok None)).
  { unfold pk_Exit. rewrite hook_tryget. unfold wit_seeded at 1. autorewrite with hook. done. }
  assert (Hp : hook (publish BoundCheck.CtxEncryptedInputs bucketInputs) c1 = (wit_ctx, Ok None)) by done.
  assert (He : hook (BoundCheck.bc_Enter (admission_check)) wit_ctx = (wit_ctx, Ok None)) by done.
  cbn [walk s_entered s_ctx].
  change (String.eqb (EntryState PhaseInvitation) StateAdmissionChecking) with false.
  change (String.eqb (EntryState PhaseKeygen) StateAdmissionChecking) with false.
  change (String.eqb (EntryState PhaseSubmitInput) StateAdmissionChecking) with false.
  change (String.eqb (EntryState (checking wit_decode)) StateAdmissionChecking) with true. cbn iota.
  unfold guarded at 1. cbn [Exit PhaseInvitation hook ok]. unfold guarded at 1. cbn [Enter PhaseKeygen hook ok].
  unfold guarded at 1. cbn [Exit PhaseKeygen]. rewrite Hk. unfold guarded at 1. cbn [Enter PhaseSubmitInput hook ok].
  unfold guarded at 1. cbn [Exit PhaseSubmitInput]. rewrite Hp. unfold guarded at 1.
  cbn [Enter checking BoundCheck.bound_phase]. by rewrite He.
Qed.

Lemma wit_checking :
  sessions (runner_run wit_runner wit_ops) !! "s" = Some (mkTracker wit_ctx StateAdmissionChecking (Some (checking wit_decode)) true).
Proof.
  destruct (composed_runs _ wit_runner wit_ops (composes _ admission_accepted) (admission_acyclic wit_decode)) as (_ & _ & Hs & _).
  rewrite Hs, lookup_fmap. unfold spec_run, wit_ops. cbn [foldl]. unfold spec_step at 4. cbn [String.eqb]. rewrite lookup_empty.
  change (s_begin (admission_phases wit_decode) None "s" "c") with
    (Some (mkSession (NewSessionContext "s" <| CohortID := "c" |>) (admission_phases wit_decode) true, Good tt)).
  cbn iota. unfold spec_step at 3. rewrite alter_insert_eq. unfold spec_step at 2. rewrite alter_insert_eq.
  unfold spec_step. rewrite alter_insert_eq, lookup_insert_eq. cbn [s_ctx s_rest s_entered].
  fold wit_seeded. by rewrite wit_advance.
Qed.

Lemma admission_outcome_witness :
  exists s res, admission_result wit_decode ["a"] (submitted wit_ctx BoundCheck.bucketPartials [("a", [x05])]) s res.
Proof.
  destruct (admission_outcome wit_decode wit_runner wit_ops "s" wit_ctx ["a"] [] "a" [x05]
    (composes _ admission_accepted) wit_checking) as (s & _ & Ha).
  - reflexivity.
  - reflexivity.
  - set_solver.
  - reflexivity.
  - exists s. eexists. exact Ha.
Defined.
End witnesses.
End BoundedAdmission.
