(* ===== verification/Bfv.v ===== *)
(** * BFV encodings ([pkg/ares/crypto/bfv])

    Quantized vectors and payload bytes as packed integers. *)

From Stdlib Require Import SpecFloat.
From S2P Require Import Prelude Float64.

#[local] Open Scope Z_scope.
#[local] Open Scope go_scope.

Module Bfv.

(** [math.Round]: to the nearest integer, halves away from zero. *)
Definition f64_round (f : float64) : option Z :=
  match f with
  | S754_zero _ => Some 0
  | S754_finite s m e =>
      Some (cond_Zopp s (if 0 <=? e then Zpos m * 2 ^ e else (2 * Zpos m + 2 ^ (- e)) / 2 ^ (1 - e)))
  | _ => None
  end.

Section quantize.
Context `{GoConv}.

Definition quantize (scale : Z) (v : float64) : Z :=
  let x := f64_mul v (f64_of_Z scale) in
  let q := f64_int_of x (f64_round x) in
  let q := if q <? - scale then - scale else q in
  if scale <? q then scale else q.

Definition QuantizeSigned (values : list float64) (scale : Z) : list Z :=
  if scale <=? 0 then replicate (length values) 0 else quantize scale <$> values.

(** Every quantized coordinate is within the scale, for any input. *)
Lemma QuantizeSigned_bounds values scale :
  0 <= scale -> length (QuantizeSigned values scale) = length values /\
  Forall (fun q => - scale <= q <= scale) (QuantizeSigned values scale).
Proof.
  intros Hs. unfold QuantizeSigned. destruct (scale <=? 0) eqn:Hz.
  - split; [apply length_replicate|]. apply Forall_replicate. lia.
  - split; [apply length_fmap|]. apply Forall_fmap, Forall_forall. intros v _. unfold compose, quantize.
    repeat case_match; lia.
Qed.
End quantize.

(** [None] is the panic of a negative length. *)
Definition PayloadBytesToSlots (payload : bytes) (slotCount : Z) : option (list Z) :=
  if slotCount <? 0 then None
  else
    let bs := Z_of_byte <$> take (Z.to_nat slotCount) payload in
    Some (bs ++ replicate (Z.to_nat slotCount - length bs) 0).

Inductive slot_error := NegativeLength | TooLong (payloadLen slots : Z) | OutOfByteRange (i : nat) (v : Z).

Fixpoint slot_bytes (i : nat) (slots : list Z) : slot_error + bytes :=
  match slots with
  | [] => inr []
  | v :: slots' =>
      if (v <? 0) || (255 <? v) then inl (OutOfByteRange i v)
      else match slot_bytes (S i) slots' with inl e => inl e | inr out => inr (byte_of_Z v :: out) end
  end.

Definition SlotsToPayloadBytes (slots : list Z) (payloadLen : Z) : slot_error + bytes :=
  if payloadLen <? 0 then inl NegativeLength
  else if zlen slots <? payloadLen then inl (TooLong payloadLen (zlen slots))
  else slot_bytes 0 (take (Z.to_nat payloadLen) slots).

Lemma slot_bytes_of_bytes i payload : slot_bytes i (Z_of_byte <$> payload) = inr payload.
Proof.
  revert i. induction payload as [|b payload IH]; intros i; [done|]. cbn [fmap list_fmap slot_bytes].
  pose proof (Z_of_byte_range b). replace ((Z_of_byte b <? 0) || (255 <? Z_of_byte b)) with false.
  - by rewrite IH, byte_of_Z_of_byte.
  - symmetry. apply orb_false_iff. split; lia.
Qed.

(** A payload that fits its slots comes back. *)
Lemma payload_slots_roundtrip payload slotCount :
  zlen payload <= slotCount ->
  exists slots, PayloadBytesToSlots payload slotCount = Some slots /\ zlen slots = slotCount /\
    SlotsToPayloadBytes slots (zlen payload) = inr payload.
Proof.
  unfold zlen. intros Hl. unfold PayloadBytesToSlots. replace (slotCount <? 0) with false by lia.
  rewrite take_ge by lia. eexists. split; [done|].
  assert (Hlen : Z.of_nat (length ((Z_of_byte <$> payload) ++
    replicate (Z.to_nat slotCount - length (Z_of_byte <$> payload)) 0)) = slotCount)
    by (rewrite length_app, length_replicate, length_fmap; lia).
  split; [done|]. unfold SlotsToPayloadBytes, zlen. rewrite Hlen.
  replace (Z.of_nat (length payload) <? 0) with false by lia.
  replace (slotCount <? Z.of_nat (length payload)) with false by lia.
  rewrite Nat2Z.id, take_app_le, take_ge by (rewrite length_fmap; lia). apply slot_bytes_of_bytes.
Qed.
End Bfv.
