(* ===== verification/Profiles.v ===== *)
(** * Parameter profiles ([pkg/ares/crypto/profiles]) and the BFV examples
    ([examples/blind_bfv_payload_fuse], [examples/light_bfv_payload_fuse])

    Named parameter sets, and the encoding of profile vectors and payloads
    under them.  What is shown is that the two BFV profiles are consistent with
    the encoders: a vector and a package fill at most one batch, and every slot
    is a plaintext of the scheme. *)

From S2P Require Import Prelude Float64 Sha256 Lineage Bfv.
Import Lineage Bfv.

#[local] Open Scope Z_scope.
#[local] Open Scope go_scope.

Module Profiles.

(** ** The profiles *)

Inductive Scheme := SchemeCKKS | SchemeBFV.
Inductive ProcessParallelism := ParallelismDisabled | ParallelismBounded.

Record CKKSComparator := mkCKKSComparator {
  cc_ID : string;
  cc_Comparator : string;
  cc_SharpenSelector : bool;
  cc_SelectorSchedule : string;
  cc_Gain : float64;
  cc_Bound : float64;
  cc_Degree : Z;
  cc_InputScale : float64
}.

Record CKKSParallel := mkParallel { ComparatorWorkers : Z; OMPThreadsPerWorker : Z }.

Record CKKSUnionProfile := mkUnionProfile {
  up_Name : string;
  up_Scheme : Scheme;
  up_RingDim : Z;
  up_Depth : Z;
  up_ScalingModSize : Z;
  up_ProfileDim : Z;
  up_PayloadSlotCount : Z;
  up_Comparators : list CKKSComparator;
  up_Parallel : CKKSParallel
}.

Record BFVBlindProfile := mkBlindProfile {
  bp_Name : string;
  bp_Scheme : Scheme;
  bp_RingDim : Z;
  bp_MultiplicativeDepth : Z;
  bp_PlaintextModulus : Z;
  bp_BatchSize : Z;
  bp_ProfileDim : Z;
  bp_PackageBytes : Z;
  bp_QuantizationScale : Z;
  bp_StepPolyBits : Z;
  bp_ProcessParallelism : ProcessParallelism
}.

Definition CKKSRing32KUnionV1 : CKKSUnionProfile :=
  mkUnionProfile "ckks_ring32k_union_v1" SchemeCKKS 32768 16 35 128 640
    [mkCKKSComparator "tanh_g5_d13" "tanh_chebyshev" false "none" (f64_of_Z 5) (f64_of_Z 6) 13 f64_zero;
     mkCKKSComparator "logi_g4_b5_d13" "logistic" false "none" (f64_of_Z 4) (f64_of_Z 5) 13 f64_zero;
     mkCKKSComparator "logi_g3_b6_d13" "logistic" false "none" (f64_of_Z 3) (f64_of_Z 6) 13 f64_zero]
    (mkParallel 3 3).

Definition BFVRing32KBlindV1 : BFVBlindProfile :=
  mkBlindProfile "bfv_ring32k_blind_v1" SchemeBFV 32768 20 65537 128 128 80 63 13 ParallelismDisabled.

Definition BFVLightBlindV1 : BFVBlindProfile :=
  mkBlindProfile "bfv_light_blind_v1" SchemeBFV 8192 10 65537 32 8 16 15 6 ParallelismDisabled.

(** ** The examples: one set of functions per profile *)

Section blind.
Context `{GoConv}.

Definition blind_Profile : BFVBlindProfile := BFVRing32KBlindV1.
Definition blind_QuantizeProfile (values : list float64) : list Z := QuantizeSigned values (bp_QuantizationScale blind_Profile).
Definition blind_PayloadBytesToSlots (payload : bytes) : option (list Z) :=
  PayloadBytesToSlots payload (bp_PackageBytes blind_Profile).
Definition blind_CommitArtifact (now : Z) (sessionID role : string) (payload : bytes) (parents : list DAGNode)
    (signer : option Signer) : CommitError + DAGNode :=
  Commit now sessionID "bfv.payload_fuse.ring32k" role payload parents signer.
End blind.

Section light.
Context `{GoConv}.

Definition light_Profile : BFVBlindProfile := BFVLightBlindV1.
Definition light_QuantizeProfile (values : list float64) : list Z := QuantizeSigned values (bp_QuantizationScale light_Profile).
Definition light_PayloadBytesToSlots (payload : bytes) : option (list Z) :=
  PayloadBytesToSlots payload (bp_PackageBytes light_Profile).
Definition light_CommitArtifact (now : Z) (sessionID role : string) (payload : bytes) (parents : list DAGNode)
    (signer : option Signer) : CommitError + DAGNode :=
  Commit now sessionID "bfv.payload_fuse.light" role payload parents signer.
End light.

(** ** The profiles fit the encoders *)

(** What packing asks of the parameters: [2 n] divides [t - 1]; a vector and a
    package fit a batch; a signed coordinate and a byte are plaintexts. *)
Record fits (p : BFVBlindProfile) : Prop := {
  fits_packing : (bp_PlaintextModulus p) mod (2 * bp_RingDim p) = 1;
  fits_batch : 0 <= bp_ProfileDim p <= bp_BatchSize p /\ 0 <= bp_PackageBytes p <= bp_BatchSize p /\ bp_BatchSize p <= bp_RingDim p;
  fits_plain : 0 < bp_QuantizationScale p /\ 2 * bp_QuantizationScale p < bp_PlaintextModulus p /\ 255 < bp_PlaintextModulus p
}.

Lemma ring32k_fits : fits BFVRing32KBlindV1.
Proof. by split. Qed.

Lemma light_fits : fits BFVLightBlindV1.
Proof. by split. Qed.

(** A signed plaintext of modulus [t]. *)
Definition plain (t v : Z) : Prop := - t < 2 * v < t.

Section encoding.
Context `{GoConv} (p : BFVBlindProfile).
Hypothesis Hp : fits p.

(** Any vector of the profile's dimension, not-a-numbers and infinities
    included, packs into one batch of plaintexts. *)
Lemma profile_packs values :
  zlen values = bp_ProfileDim p ->
  zlen (QuantizeSigned values (bp_QuantizationScale p)) <= bp_BatchSize p /\
  Forall (plain (bp_PlaintextModulus p)) (QuantizeSigned values (bp_QuantizationScale p)).
Proof.
  intros Hl. destruct Hp as [_ (Hd & _) (Hs & Ht & _)].
  destruct (QuantizeSigned_bounds values (bp_QuantizationScale p)) as [Hlen Hb]; [lia|]. unfold zlen in *. rewrite Hlen.
  split; [lia|]. eapply Forall_impl; [exact Hb|]. intros q Hq. cbn beta in Hq. unfold plain. lia.
Qed.

(** A package packs into one batch and comes back from its slots. *)
Lemma package_packs payload :
  zlen payload <= bp_PackageBytes p ->
  exists slots, PayloadBytesToSlots payload (bp_PackageBytes p) = Some slots /\ zlen slots <= bp_BatchSize p /\
    SlotsToPayloadBytes slots (zlen payload) = inr payload.
Proof.
  intros Hl. destruct Hp as [_ (_ & Hb & _) _]. destruct (payload_slots_roundtrip payload _ Hl) as (slots & H1 & H2 & H3).
  exists slots. split_and!; [done|lia|done].
Qed.
End encoding.

(** With the light profile the score of two quantized vectors is a plaintext
    too: the inner product never wraps. *)
Definition inner (a b : list Z) : Z := foldr (fun xy acc => xy.1 * xy.2 + acc) 0 (zip a b).

Lemma inner_bound s a b :
  0 <= s -> Forall (fun q => - s <= q <= s) a -> Forall (fun q => - s <= q <= s) b -> Z.abs (inner a b) <= zlen a * (s * s).
Proof.
  intros Hs Ha. revert b. induction Ha as [|x a Hx _ IH]; intros b Hb; [unfold zlen; cbn; lia|].
  destruct Hb as [|y b Hy Hb]; [unfold inner, zlen; cbn; nia|]. specialize (IH b Hb). unfold inner, zlen in *.
  cbn [zip zip_with foldr fst snd length] in *. rewrite Nat2Z.inj_succ. nia.
Qed.

Lemma light_scores_fit `{GoConv} u v :
  zlen u = bp_ProfileDim light_Profile -> plain (bp_PlaintextModulus light_Profile) (inner (light_QuantizeProfile u) (light_QuantizeProfile v)).
Proof.
  intros Hu. destruct (QuantizeSigned_bounds u 15 ltac:(lia)) as [Hl Ha]. destruct (QuantizeSigned_bounds v 15 ltac:(lia)) as [_ Hb].
  pose proof (inner_bound 15 _ _ ltac:(lia) Ha Hb) as Hi. unfold zlen in *. rewrite Hl, Hu in Hi.
  change (QuantizeSigned u 15) with (light_QuantizeProfile u) in Hi. change (QuantizeSigned v 15) with (light_QuantizeProfile v) in Hi.
  unfold plain. cbn [light_Profile BFVLightBlindV1 bp_PlaintextModulus bp_ProfileDim] in *. lia.
Qed.

(** With the ring-32k profile it may: it relies on vectors of norm one. *)
Definition flat : list Z := replicate 128 63.

Lemma ring32k_scores_wrap :
  zlen flat = bp_ProfileDim blind_Profile /\ Forall (fun q => - bp_QuantizationScale blind_Profile <= q <= bp_QuantizationScale blind_Profile) flat /\
  ~ plain (bp_PlaintextModulus blind_Profile) (inner flat flat).
Proof.
  split; [reflexivity|]. split; [|by intros [_ Hlt]]. apply Forall_replicate. cbn. lia.
Qed.
End Profiles.
