(* ===== verification/CgoCore.v ===== *)
(** * Calls into the encryption library: handles, ownership and panics

    The bindings of [pkg/ares/crypto/cgo] call C functions that allocate objects
    and return pointers to them, and free them again.  This file models such
    code: a state with the live objects, calls that fault on a freed object,
    deferred frees, and a logic of ownership in which a call of the bindings is
    specified by the objects it uses, consumes and hands out. *)

From Stdlib Require Import ZifyBool.
From S2P Require Import Prelude Float64 HelperClient HelperServer.
Import HelperServer.

#[local] Open Scope string_scope.
#[local] Open Scope list_scope.
#[local] Open Scope Z_scope.
#[local] Open Scope go_scope.

Module CgoCore.

(** ** Objects and faults *)

(** The handle types of [openfhe_wrapper.h], and memory for [C.free]. *)
Inductive kind := KCtx | KPK | KSK | KMult | KRot | KCt | KAVec | KMem.

#[export] Instance kind_eq_dec : EqDecision kind.
Proof. solve_decision. Defined.

(** A non-nil pointer to an object of a kind. *)
Record handle (k : kind) := H { hid : positive }.
Arguments H {k}. Arguments hid {k}.

Inductive fault := UseAfterFree | DoubleFree | IndexPanic | NegativeLength | Diverges.

Record cstate (L : Type) := mkC {
  live : gmap positive kind;
  next : positive;
  faults : list fault;
  lib : L
}.
Arguments mkC {L}. Arguments live {L}. Arguments next {L}. Arguments faults {L}. Arguments lib {L}.

(** ** The library *)

Inductive cval :=
| VInt (z : Z)
| VReal (f : float64)
| VData (b : bytes)
| VReals (l : list float64)
| VInts (l : list Z)
| VStr (s : string)
| VNull.

(** What a C function leaves behind: its return code, which of its output
    pointers it has set, the memory behind an output pointer, numbers written
    to buffers, and the text of an error buffer. *)
Record reply := mkReply {
  rc : Z;
  is_set : list bool;
  mem : bytes;
  ints : list Z;
  reals : list float64;
  text : string
}.

(** The C functions by name, on the objects they are given, the data they are
    given and the addresses of the objects they may create; [L] is everything
    the library remembers.  A function that returns a pointer has one output. *)
Class CLib (L : Type) := {
  c_call : string -> list positive -> list cval -> list positive -> L -> L * reply;
  c_free : kind -> positive -> L -> L
}.

Section monad.
Context {L : Type} `{CLib L}.

Definition G (A : Type) : Type := B (cstate L) A.

Definition gret {A} (a : A) : G A := fun s => (s, inr a).
Definition gfail {A} (e : string) : G A := fun s => (s, inl e).
Definition gbind {A C} (m : G A) (f : A -> G C) : G C := fun s =>
  match m s with
  | (s', inl e) => (s', inl e)
  | (s', inr a) => f a s'
  end.

(** [if err != nil { ... }]: both outcomes of a call. *)
Definition gtry {A C} (m : G A) (k : string -> G C) (f : A -> G C) : G C := fun s =>
  match m s with
  | (s', inl e) => k e s'
  | (s', inr a) => f a s'
  end.

(** [fmt.Errorf("prefix%w", err)]. *)
Definition gwrap {A} (prefix : string) (m : G A) : G A := fun s =>
  match m s with
  | (s', inl e) => (s', inl (prefix +:+ e))
  | r => r
  end.

(** [defer f()]: [f] runs when the rest of the function has returned. *)
Definition gdefer {A} (f : G unit) (m : G A) : G A := fun s => let '(s', r) := m s in ((f s').1, r).

(** A fault ends the call; in Go it is a panic or worse. *)
Definition gfault {A} (f : fault) : G A := fun s => (mkC (live s) (next s) (f :: faults s) (lib s), inl "fault").

(** [&xs[0]]. *)
Definition addr0 {A} (xs : list A) : G unit := match xs with [] => gfault IndexPanic | _ => gret tt end.

Definition cell {k} (h : handle k) : positive * kind := (hid h, k).
Definition cells {k} (hs : list (handle k)) : list (positive * kind) := cell <$> hs.

Definition alive (s : cstate L) (c : positive * kind) : bool := bool_decide (live s !! c.1 = Some c.2).

(** Addresses for [n] objects. *)
Fixpoint addresses (p : positive) (n : nat) : list positive :=
  match n with O => [] | S n => p :: addresses (Pos.succ p) n end.

(** The objects that were created: an output pointer that was set. *)
Fixpoint created (ps : list positive) (ks : list kind) (set : list bool) : list (option (positive * kind)) :=
  match ps, ks with
  | p :: ps, k :: ks => (if default false (head set) then Some (p, k) else None) :: created ps ks (tail set)
  | _, _ => []
  end.

Definition add_cells (cs : list (option (positive * kind))) (m : gmap positive kind) : gmap positive kind :=
  foldr (fun o m => match o with Some (p, k) => <[p := k]> m | None => m end) m cs.

(** A C function with outputs of the kinds [ks]. *)
Definition ccall (name : string) (hs : list (positive * kind)) (ds : list cval) (ks : list kind)
    : G (list (option (positive * kind)) * reply) := fun s =>
  if forallb (alive s) hs then
    let ps := addresses (next s) (length ks) in
    let '(l, r) := c_call name hs.*1 ds ps (lib s) in
    let cs := created ps ks (is_set r) in
    (mkC (add_cells cs (live s)) (Nat.iter (length ks) Pos.succ (next s)) (faults s) l, inr (cs, r))
  else gfault UseAfterFree s.

Definition to_handle {k} (o : option (positive * kind)) : option (handle k) := (fun c => H c.1) <$> o.

(** The shapes of the calls: no object, one, two, or a list of them. *)
Definition call (name : string) (hs : list (positive * kind)) (ds : list cval) : G reply :=
  gbind (ccall name hs ds []) (fun '(_, r) => gret r).

Definition call1 (k : kind) (name : string) (hs : list (positive * kind)) (ds : list cval) : G (option (handle k) * reply) :=
  gbind (ccall name hs ds [k]) (fun '(cs, r) => gret (to_handle (mjoin (cs !! 0%nat)), r)).

Definition call2 (k1 k2 : kind) (name : string) (hs : list (positive * kind)) (ds : list cval)
    : G (option (handle k1) * option (handle k2) * reply) :=
  gbind (ccall name hs ds [k1; k2]) (fun '(cs, r) => gret (to_handle (mjoin (cs !! 0%nat)), to_handle (mjoin (cs !! 1%nat)), r)).

Definition calln (k : kind) (n : nat) (name : string) (hs : list (positive * kind)) (ds : list cval)
    : G (list (option (handle k)) * reply) :=
  gbind (ccall name hs ds (replicate n k)) (fun '(cs, r) => gret (to_handle <$> cs, r)).

(** [C.FreeX(h)] and [C.free(p)]. *)
Definition cfree {k} (h : handle k) : G unit := fun s =>
  if alive s (cell h) then (mkC (delete (hid h) (live s)) (next s) (faults s) (c_free k (hid h) (lib s)), inr tt)
  else gfault DoubleFree s.

(** A nil pointer is freed without effect. *)
Definition cfree_opt {k} (o : option (handle k)) : G unit := match o with Some h => cfree h | None => gret tt end.

Fixpoint cfree_all {k} (hs : list (handle k)) : G unit :=
  match hs with [] => gret tt | h :: hs => gbind (cfree h) (fun _ => cfree_all hs) end.
End monad.

Arguments G L A : clear implicits.

(** ** Ownership *)

Section logic.
Context {L : Type} `{CLib L}.
Implicit Types (s : cstate L) (F : gmap positive kind) (cs hs : list (positive * kind)).

(** The state holds the objects of [F], owned by callers, and [cs] besides. *)
Record holds F cs s : Prop := mkHolds {
  ho_live : live s = list_to_map cs ∪ F;
  ho_nodup : NoDup cs.*1;
  ho_apart : Forall (fun c => F !! c.1 = None) cs;
  ho_fresh : forall p, (next s <= p)%positive -> live s !! p = None
}.

Definition has F hs : Prop := Forall (fun c => F !! c.1 = Some c.2) hs.

(** [m] uses the objects [hs] and consumes [cs]; when it fails they are gone
    and nothing else is left behind, and when it succeeds with [x] the objects
    [own x] are handed out and [Q x] holds.  It never faults. *)
Definition spec {A} hs cs (m : G L A) (own : A -> list (positive * kind)) (Q : A -> Prop) : Prop := forall F s,
  has F hs -> holds F cs s -> let '(s', r) := m s in
  faults s' = faults s /\ match r with inl _ => holds F [] s' | inr x => Q x /\ holds F (own x) s' end.

(** The same for code that cannot fail. *)
Definition spec_total {A} hs cs (m : G L A) (own : A -> list (positive * kind)) (Q : A -> Prop) : Prop := forall F s,
  has F hs -> holds F cs s -> exists s' x, m s = (s', inr x) /\ faults s' = faults s /\ Q x /\ holds F (own x) s'.

Definition nothing {A} (_ : A) : list (positive * kind) := [].
Definition anything {A} (_ : A) : Prop := True.

(** *** The state *)

Lemma holds_perm F cs cs' s : cs ≡ₚ cs' -> holds F cs s -> holds F cs' s.
Proof.
  intros Hp [Hl Hn Ha Hf]. split; [|by rewrite <- Hp|by rewrite <- Hp|done].
  rewrite Hl. by rewrite (list_to_map_proper _ _ Hn Hp).
Qed.

Lemma list_to_map_none cs p : p ∉ cs.*1 -> (list_to_map cs : gmap positive kind) !! p = None.
Proof. apply not_elem_of_list_to_map_1. Qed.

(** What is owned can be lent to a part of the code. *)
Lemma holds_lend F cs c s : holds F (cs ++ c) s -> holds (list_to_map c ∪ F) cs s /\ NoDup c.*1 /\ Forall (fun x => F !! x.1 = None) c.
Proof.
  intros [Hl Hn Ha Hf]. rewrite fmap_app in Hn. apply NoDup_app in Hn as (Hn1 & Hd & Hn2). apply Forall_app in Ha as [Ha1 Ha2].
  split_and!; [split|done|done]; [|done| |done].
  - rewrite Hl, list_to_map_app, map_union_assoc. done.
  - rewrite Forall_forall in Ha1 |- *. intros x Hx. apply lookup_union_None. split; [|by apply Ha1].
    apply list_to_map_none, Hd, list_elem_of_fmap. by exists x.
Qed.

Lemma holds_return F cs c s :
  NoDup c.*1 -> Forall (fun x => F !! x.1 = None) c -> holds (list_to_map c ∪ F) cs s -> holds F (cs ++ c) s.
Proof.
  intros Hn2 Ha2 [Hl Hn1 Ha1 Hf]. split; [| | |done].
  - by rewrite Hl, list_to_map_app, map_union_assoc.
  - rewrite fmap_app. apply NoDup_app. split_and!; [done| |done]. intros p Hp1 Hp2.
    apply list_elem_of_fmap in Hp1 as (x & -> & Hx). rewrite Forall_forall in Ha1. specialize (Ha1 x Hx).
    apply lookup_union_None in Ha1 as [Hc _]. by apply not_elem_of_list_to_map_2 in Hc.
  - apply Forall_app. split; [|done]. eapply Forall_impl; [exact Ha1|]. intros x Hx. by apply lookup_union_None in Hx as [_ ?].
Qed.

Lemma has_lent F c hs : NoDup c.*1 -> Forall (fun x => F !! x.1 = None) c -> has F hs -> has (list_to_map c ∪ F) (c ++ hs).
Proof.
  intros Hn Ha Hh. apply Forall_app. split.
  - apply Forall_forall. intros [p k] Hx. apply lookup_union_Some_l. by apply elem_of_list_to_map_1.
  - eapply Forall_impl; [exact Hh|]. intros [p k] Hp. cbn in *. rewrite lookup_union_r; [done|]. apply list_to_map_none.
    intros Hin. apply list_elem_of_fmap in Hin as ([p' k'] & -> & Hx). rewrite Forall_forall in Ha. specialize (Ha _ Hx). cbn in *. congruence.
Qed.

Lemma has_live F hs cs s : has F hs -> holds F cs s -> Forall (fun c => live s !! c.1 = Some c.2) hs.
Proof.
  intros Hh [Hl Hn Ha _]. eapply Forall_impl; [exact Hh|]. intros [p k] Hp. cbn in *. rewrite Hl, lookup_union_r; [done|].
  apply list_to_map_none. intros Hin. apply list_elem_of_fmap in Hin as ([p' k'] & -> & Hx). rewrite Forall_forall in Ha.
  specialize (Ha _ Hx). cbn in *. congruence.
Qed.

Lemma has_sub F hs hs' : hs ⊆ hs' -> has F hs' -> has F hs.
Proof. intros Hs Hh. apply Forall_forall. intros x Hx. unfold has in Hh. rewrite Forall_forall in Hh. by apply Hh, Hs. Qed.

(** *** Rules *)

Lemma spec_weaken {A} hs hs' cs (m : G L A) own (Q Q' : A -> Prop) :
  spec hs' cs m own Q -> hs' ⊆ hs -> (forall x, Q x -> Q' x) -> spec hs cs m own Q'.
Proof.
  intros Hm Hs HQ F s Hh Ho. specialize (Hm F s (has_sub _ _ _ Hs Hh) Ho). destruct (m s) as [s' [e|x]]; [done|].
  destruct Hm as (Hf & Hq & Hr). auto.
Qed.

Lemma spec_ret {A} hs (a : A) (own : A -> list (positive * kind)) (Q : A -> Prop) : Q a -> spec hs (own a) (gret a) own Q.
Proof. intros HQ F s _ Ho. by split_and!. Qed.

Lemma spec_ret_eq {A} hs cs (a : A) (own : A -> list (positive * kind)) (Q : A -> Prop) : cs = own a -> Q a -> spec hs cs (gret a) own Q.
Proof. intros ->. apply spec_ret. Qed.

Lemma spec_fail {A} hs e (own : A -> list (positive * kind)) Q : spec hs [] (gfail e) own Q.
Proof. intros F s _ Ho. by split. Qed.

(** [m] may consume the part [c1] of what is owned. *)
Lemma spec_try_own {A C} hs c1 cs (m : G L A) own1 Q1 (k : string -> G L C) f own Q :
  spec (cs ++ hs) c1 m own1 Q1 -> (forall e, spec hs cs (k e) own Q) ->
  (forall x, Q1 x -> spec hs (own1 x ++ cs) (f x) own Q) -> spec hs (c1 ++ cs) (gtry m k f) own Q.
Proof.
  intros Hm Hk Hf F s Hh Ho. pose proof (holds_lend F c1 cs s Ho) as (Hl & Hn & Ha). unfold gtry.
  specialize (Hm _ s (has_lent _ _ _ Hn Ha Hh) Hl). destruct (m s) as [s1 [e|x]]; destruct Hm as [Hf1 Hr].
  - specialize (Hk e F s1 Hh (holds_return F [] cs s1 Hn Ha Hr)). destruct (k e s1) as [s2 r]. by rewrite <- Hf1.
  - destruct Hr as [HQ Hr]. specialize (Hf x HQ F s1 Hh (holds_return F _ cs s1 Hn Ha Hr)). destruct (f x s1) as [s2 r]. by rewrite <- Hf1.
Qed.

Lemma spec_try {A C} hs cs (m : G L A) own1 Q1 (k : string -> G L C) f own Q :
  spec (cs ++ hs) [] m own1 Q1 -> (forall e, spec hs cs (k e) own Q) ->
  (forall x, Q1 x -> spec hs (own1 x ++ cs) (f x) own Q) -> spec hs cs (gtry m k f) own Q.
Proof. apply (spec_try_own hs []). Qed.

(** Code that consumes what is owned. *)
Lemma spec_bind_own {A C} hs cs (m : G L A) own1 Q1 (f : A -> G L C) own Q :
  spec hs cs m own1 Q1 -> (forall x, Q1 x -> spec hs (own1 x) (f x) own Q) -> spec hs cs (gbind m f) own Q.
Proof.
  intros Hm Hf F s Hh Ho. unfold gbind. specialize (Hm F s Hh Ho). destruct (m s) as [s1 [e|x]]; destruct Hm as [Hf1 Hr]; [by split|].
  destruct Hr as [HQ Hr]. specialize (Hf x HQ F s1 Hh Hr). destruct (f x s1) as [s2 r]. by rewrite <- Hf1.
Qed.

Lemma spec_bind {A C} hs (m : G L A) own1 Q1 (f : A -> G L C) own Q :
  spec hs [] m own1 Q1 -> (forall x, Q1 x -> spec hs (own1 x) (f x) own Q) -> spec hs [] (gbind m f) own Q.
Proof. apply spec_bind_own. Qed.

(** Code that cannot fail may run while objects are owned. *)
Lemma spec_bind_total {A C} hs cs (m : G L A) own1 Q1 (f : A -> G L C) own Q :
  spec_total (cs ++ hs) [] m own1 Q1 -> (forall x, Q1 x -> spec hs (own1 x ++ cs) (f x) own Q) -> spec hs cs (gbind m f) own Q.
Proof.
  intros Hm Hf F s Hh Ho. pose proof (holds_lend F [] cs s Ho) as (Hl & Hn & Ha). unfold gbind.
  destruct (Hm _ s (has_lent _ _ _ Hn Ha Hh) Hl) as (s1 & x & -> & Hf1 & HQ & Hr).
  specialize (Hf x HQ F s1 Hh (holds_return F _ cs s1 Hn Ha Hr)). destruct (f x s1) as [s2 r]. by rewrite <- Hf1.
Qed.

Lemma spec_wrap {A} hs cs (m : G L A) own Q prefix : spec hs cs m own Q -> spec hs cs (gwrap prefix m) own Q.
Proof. intros Hm F s Hh Ho. unfold gwrap. specialize (Hm F s Hh Ho). by destruct (m s) as [s1 [e|x]]. Qed.

Lemma spec_perm {A} hs cs cs' (m : G L A) own Q : cs ≡ₚ cs' -> spec hs cs m own Q -> spec hs cs' m own Q.
Proof. intros Hp Hm F s Hh Ho. apply Hm; [done|]. by eapply holds_perm; [symmetry|]. Qed.

Lemma total_spec {A} hs cs (m : G L A) own Q : spec_total hs cs m own Q -> spec hs cs m own Q.
Proof. intros Hm F s Hh Ho. destruct (Hm F s Hh Ho) as (s' & x & -> & Hf & HQ & Hr). done. Qed.

Lemma total_weaken {A} hs hs' cs (m : G L A) own (Q Q' : A -> Prop) :
  spec_total hs' cs m own Q -> hs' ⊆ hs -> (forall x, Q x -> Q' x) -> spec_total hs cs m own Q'.
Proof.
  intros Hm Hs HQ F s Hh Ho. destruct (Hm F s (has_sub _ _ _ Hs Hh) Ho) as (s' & x & He & Hf & Hq & Hr). exists s', x. auto.
Qed.

Lemma total_ret {A} hs (a : A) (own : A -> list (positive * kind)) (Q : A -> Prop) : Q a -> spec_total hs (own a) (gret a) own Q.
Proof. intros HQ F s _ Ho. by exists s, a. Qed.

Lemma total_ret_eq {A} hs cs (a : A) (own : A -> list (positive * kind)) (Q : A -> Prop) : cs = own a -> Q a -> spec_total hs cs (gret a) own Q.
Proof. intros ->. apply total_ret. Qed.

Lemma total_bind {A C} hs cs (m : G L A) own1 Q1 (f : A -> G L C) own Q :
  spec_total (cs ++ hs) [] m own1 Q1 -> (forall x, Q1 x -> spec_total hs (own1 x ++ cs) (f x) own Q) -> spec_total hs cs (gbind m f) own Q.
Proof.
  intros Hm Hf F s Hh Ho. pose proof (holds_lend F [] cs s Ho) as (Hl & Hn & Ha). unfold gbind.
  destruct (Hm _ s (has_lent _ _ _ Hn Ha Hh) Hl) as (s1 & x & -> & Hf1 & HQ & Hr).
  destruct (Hf x HQ F s1 Hh (holds_return F _ cs s1 Hn Ha Hr)) as (s2 & y & He & Hf2 & HQ2 & Hr2). exists s2, y. split_and!; [done|congruence|done..].
Qed.

(** *** Freeing *)

Lemma free_cell {k} (h : handle k) hs cs : spec_total hs (cell h :: cs) (cfree h) (fun _ => cs) anything.
Proof.
  intros F s _ [Hl Hn Ha Hf]. cbn in Hn. apply NoDup_cons in Hn as [Hni Hn]. apply Forall_cons in Ha as [Ha0 Ha].
  unfold cfree, alive. rewrite bool_decide_true.
  2: { rewrite Hl. apply lookup_union_Some_l. cbn. by rewrite lookup_insert_eq. }
  eexists _, tt. split_and!; [done..|]. split; cbn [live next].
  - rewrite Hl. cbn [list_to_map foldr cell fst snd]. rewrite <- insert_union_l, delete_insert_id; [done|].
    apply lookup_union_None. split; [by apply list_to_map_none|done].
  - done.
  - done.
  - intros p Hp. rewrite lookup_delete_None. right. by apply Hf.
Qed.

Lemma free_cells {k} (l : list (handle k)) hs cs : spec_total hs (cells l ++ cs) (cfree_all l) (fun _ => cs) anything.
Proof.
  induction l as [|h l IH]; [apply (total_ret hs tt (fun _ => cs)); done|]. cbn [cfree_all].
  intros F s Hh Ho. destruct (free_cell h hs (cells l ++ cs) F s Hh Ho) as (s1 & [] & He & Hf1 & _ & Ho1).
  destruct (IH F s1 Hh Ho1) as (s2 & [] & He2 & Hf2 & _ & Ho2). exists s2, tt. unfold gbind. rewrite He, He2. split_and!; [done|congruence|done..].
Qed.

(** A deferred free of [c]: the rest of the function may use [c]. *)
Lemma spec_defer {A} hs c cs (free : G L unit) (m : G L A) own Q :
  (forall hs cs, spec_total hs (c ++ cs) free (fun _ => cs) anything) -> spec (c ++ hs) cs m own Q ->
  spec hs (cs ++ c) (gdefer free m) own Q.
Proof.
  intros Hfree Hm F s Hh Ho. pose proof (holds_lend F cs c s Ho) as (Hl & Hn & Ha). unfold gdefer.
  specialize (Hm _ s (has_lent _ _ _ Hn Ha Hh) Hl). destruct (m s) as [s1 r]. destruct Hm as [Hf1 Hr].
  assert (Hgo : forall o, holds (list_to_map c ∪ F) o s1 -> faults (free s1).1 = faults s /\ holds F o (free s1).1).
  { intros o Hoo. assert (Hco : holds F (c ++ o) s1) by (eapply holds_perm; [apply Permutation_app_comm|by apply holds_return]).
    destruct (Hfree hs o F s1 Hh Hco) as (s2 & [] & -> & Hf2 & _ & Hr2). split; [cbn; congruence|done]. }
  destruct r as [e|x]; [by destruct (Hgo [] Hr)|]. destruct Hr as [HQ Hr]. by destruct (Hgo _ Hr).
Qed.

(** Acquire, defer the free, go on. *)
Lemma spec_scope {A C k} hs (m : G L A) (get : A -> handle k) Q1 (f : A -> G L C) own Q :
  spec hs [] m (fun x => [cell (get x)]) Q1 -> (forall x, Q1 x -> spec (cell (get x) :: hs) [] (f x) own Q) ->
  spec hs [] (gbind m (fun x => gdefer (cfree (get x)) (f x))) own Q.
Proof.
  intros Hm Hf. eapply spec_bind; [exact Hm|]. intros x HQ. apply (spec_defer hs [cell (get x)] []); [|by apply Hf].
  intros hs' cs'. apply free_cell.
Qed.

Lemma spec_scope_all {A C k} hs (m : G L A) (get : A -> list (handle k)) Q1 (f : A -> G L C) own Q :
  spec hs [] m (fun x => cells (get x)) Q1 -> (forall x, Q1 x -> spec (cells (get x) ++ hs) [] (f x) own Q) ->
  spec hs [] (gbind m (fun x => gdefer (cfree_all (get x)) (f x))) own Q.
Proof.
  intros Hm Hf. eapply spec_bind; [exact Hm|]. intros x HQ. apply (spec_defer hs (cells (get x)) []); [|by apply Hf].
  intros hs' cs'. apply free_cells.
Qed.
End logic.

(** A call that leaves no object behind, whatever happens. *)
Notation balanced hs m := (spec hs [] m nothing anything).

(** ** The calls of the bindings *)

Declare Scope cgo_scope.
Notation "'let^' x ':=' p 'in' k" := (gbind p (fun x => k)) (at level 200, x pattern, p at level 100, k at level 200) : cgo_scope.
Notation "'defer^' f 'in' k" := (gdefer f k) (at level 200, f at level 100, k at level 200) : cgo_scope.
#[local] Open Scope cgo_scope.

Section calls.
Context {L : Type} `{CLib L}.

(** [C.GoBytes(p, C.int(n))] on memory of any size: the length is a 32-bit
    integer. *)
Definition cint (z : Z) : Z := (z + 2 ^ 31) mod 2 ^ 32 - 2 ^ 31.

Definition GoBytes (b : bytes) : G L bytes :=
  if cint (zlen b) <? 0 then gfault NegativeLength else gret (take (Z.to_nat (cint (zlen b))) b).

Definition copyCBytes {k} (data : option (handle k)) (b : bytes) : G L bytes :=
  match data with
  | None => gret []
  | Some _ => if zlen b =? 0 then gret [] else GoBytes b
  end.

(** [x := C.F(...); if x == nil { return err }]. *)
Definition new_or {k} (err name : string) (hs : list (positive * kind)) (ds : list cval) : G L (handle k) :=
  let^ (o, _) := call1 k name hs ds in match o with None => gfail err | Some h => gret h end.

(** [if rc := C.F(..., &x); rc != 0 { return err }]; the error may quote the
    code and the error buffer. *)
Definition make_with {k} (err : reply -> string) (name : string) (hs : list (positive * kind)) (ds : list cval) : G L (handle k) :=
  let^ (o, r) := call1 k name hs ds in
  if negb (rc r =? 0) then gfail (err r) else match o with None => gfault UseAfterFree | Some h => gret h end.

Definition make2_with {k1 k2} (err : reply -> string) (name : string) (hs : list (positive * kind)) (ds : list cval) : G L (handle k1 * handle k2) :=
  let^ (o1, o2, r) := call2 k1 k2 name hs ds in
  if negb (rc r =? 0) then gfail (err r)
  else match o1, o2 with Some h1, Some h2 => gret (h1, h2) | _, _ => gfault UseAfterFree end.

Definition make_n {k} (n : nat) (err : reply -> string) (name : string) (hs : list (positive * kind)) (ds : list cval) : G L (list (handle k)) :=
  let^ (os, r) := calln k n name hs ds in
  if negb (rc r =? 0) then gfail (err r) else match mapM id os with None => gfault UseAfterFree | Some l => gret l end.

Definition make_or {k} (err : string) := make_with (k := k) (fun _ => err).
Definition make2_or {k1 k2} (err : string) := make2_with (k1 := k1) (k2 := k2) (fun _ => err).

Definition check_or (err name : string) (hs : list (positive * kind)) (ds : list cval) : G L unit :=
  let^ r := call name hs ds in if negb (rc r =? 0) then gfail err else gret tt.

(** [if rc := C.F(..., &data, &n); rc != 0 { return err }; defer C.free(data);
    return copyCBytes(data, n)]. *)
Definition bytes_with (err : reply -> string) (name : string) (hs : list (positive * kind)) (ds : list cval) : G L bytes :=
  let^ (o, r) := call1 KMem name hs ds in
  if negb (rc r =? 0) then gfail (err r) else gdefer (cfree_opt o) (copyCBytes o (mem r)).
Definition bytes_or (err : string) := bytes_with (fun _ => err).

(** The same with the output checked and freed on an error; the error may quote
    the error buffer. *)
Definition bytes_guarded (err : reply -> string) (name : string) (hs : list (positive * kind)) (ds : list cval) : G L bytes :=
  let^ (o, r) := call1 KMem name hs ds in
  if negb (rc r =? 0) || match o with None => true | Some _ => false end || (zlen (mem r) =? 0) then
    let^ _ := cfree_opt o in gfail (err r)
  else gdefer (cfree_opt o) (copyCBytes o (mem r)).

(** ** Specifications of the calls *)

(** Functions whose callers inspect the output also after an error. *)
Definition may_leave_output : list string :=
  ["EncryptSerializedRepeatedScalarCKKS"; "EncryptSerializedRepeatedScalarBFV"; "ComputeSerializedSquaredDistanceCKKS";
   "ComputeSerializedSquaredDistanceBFV"; "ARESBlindFusePayloadBFV"].

(** Functions that fill a buffer: the last number they are given is its
    capacity, and the first one they leave is how much they have written. *)
Definition counted : list string := ["MultiDecFusion"; "MultiDecFusionPackedInt"; "DecryptSingle"].

Definition written (r : reply) : Z := default 0 (head (ints r)).

(** What [openfhe_wrapper.cpp] does, as far as its callers rely on it:
    - a function sets its outputs in the statements before its [return 0] and
      not on the way to an error ([MultiDecMain], lines 1452 to 1469, is
      typical);
    - the memory it hands out on success is a serialized object, hence not empty;
    - the functions of [counted] write at most as many values as the positive
      capacity they are given (the [std::min] of lines 1437, 1489 and 1522; a
      capacity that is not positive is replaced by the batch size there);
    - [GetMinimalRotationIndices] (lines 3526 to 3541) always leaves the size of
      the context's index set, whatever the capacity, so that it leaves the same
      number when it is asked again. *)
Class CLibLaws : Prop := {
  law_set : forall name hs ds ps l, name ∉ may_leave_output ->
    is_set (c_call name hs ds ps l).2 = replicate (length ps) (bool_decide (rc (c_call name hs ds ps l).2 = 0));
  law_mem : forall name hs ds ps l, rc (c_call name hs ds ps l).2 = 0 -> mem (c_call name hs ds ps l).2 <> [];
  law_count : forall name hs ds ps l n, name ∈ counted -> last ds = Some (VInt n) -> 0 < n ->
    rc (c_call name hs ds ps l).2 = 0 -> 0 <= written (c_call name hs ds ps l).2 <= n;
  law_indices : forall hs ds ds' ps ps' l, let '(l', r) := c_call "GetMinimalRotationIndices" hs ds ps l in
    written (c_call "GetMinimalRotationIndices" hs ds' ps' l').2 = written r
}.

(** No object serializes to two gigabytes.  This is not a law of the wrapper: it
    is a condition on the parameters and the number of keys, without which
    [C.GoBytes] is given a wrapped length. *)
Class SmallObjects : Prop :=
  small_object : forall name hs ds ps l, zlen (mem (c_call name hs ds ps l).2) < 2 ^ 31.

Lemma iter_succ_le m x : (x <= Nat.iter m Pos.succ x)%positive.
Proof. induction m as [|m IH]; [cbn; lia|rewrite Nat.iter_succ; lia]. Qed.

Lemma iter_succ_swap m x : Nat.iter m Pos.succ (Pos.succ x) = Pos.succ (Nat.iter m Pos.succ x).
Proof. induction m as [|m IH]; [done|]. by rewrite !Nat.iter_succ, IH. Qed.

Lemma addresses_le p n q : q ∈ addresses p n -> (p <= q)%positive /\ (q < Nat.iter n Pos.succ p)%positive.
Proof.
  revert p. induction n as [|n IH]; intros p Hq; cbn [addresses] in Hq; [by apply not_elem_of_nil in Hq|].
  pose proof (iter_succ_le n p) as Hle. rewrite Nat.iter_succ.
  apply elem_of_cons in Hq as [-> |Hq]; [lia|]. apply IH in Hq as [Hq1 Hq2]. rewrite iter_succ_swap in Hq2. lia.
Qed.

Lemma addresses_NoDup p n : NoDup (addresses p n).
Proof.
  revert p. induction n as [|n IH]; intros p; cbn [addresses]; constructor; [|apply IH].
  intros Hin. apply addresses_le in Hin. lia.
Qed.

Lemma created_sub ps ks set c : Some c ∈ created ps ks set -> c.1 ∈ ps.
Proof.
  revert ks set. induction ps as [|p ps IH]; intros [|k ks] set Hin; cbn [created] in Hin; try by apply not_elem_of_nil in Hin.
  apply elem_of_cons. apply elem_of_cons in Hin as [Hin|Hin]; [|right; by eapply IH]. left. case_match; by simplify_eq.
Qed.

Lemma created_NoDup ps ks set : NoDup ps -> NoDup (omap id (created ps ks set)).*1.
Proof.
  intros Hn. revert ks set. induction Hn as [|p ps Hni Hn IH]; intros [|k ks] set; cbn [created]; try constructor.
  assert (Hp : p ∉ (omap id (created ps ks (tail set))).*1).
  { intros Hin. apply list_elem_of_fmap in Hin as (c & -> & Hc). apply list_elem_of_omap in Hc as (o & Ho & Hid). cbn in Hid. subst o.
    by apply created_sub in Ho. }
  case_match; cbn; [constructor; [done|apply IH]|apply IH].
Qed.

Lemma add_cells_map cs m : NoDup (omap id cs).*1 -> add_cells cs m = list_to_map (omap id cs) ∪ m.
Proof.
  induction cs as [|[[p k]|] cs IH]; intros Hn; cbn; [by rewrite map_empty_union| |by apply IH].
  cbn in Hn. apply NoDup_cons in Hn as [_ Hn]. fold (add_cells cs m). rewrite IH by done. by rewrite insert_union_l.
Qed.

Lemma ccall_spec name hc ds ks hs :
  hc ⊆ hs -> spec_total hs [] (ccall name hc ds ks) (fun x => omap id x.1)
    (fun x => exists ps l, length ps = length ks /\ x.2 = (c_call name hc.*1 ds ps l).2 /\ x.1 = created ps ks (is_set x.2)).
Proof.
  intros Hsub F s Hh Ho. unfold ccall.
  replace (forallb (alive s) hc) with true.
  2: { symmetry. apply forallb_forall. intros c Hc. apply list_elem_of_In in Hc. apply bool_decide_true.
       pose proof (has_live F hs [] s Hh Ho) as Hl. rewrite Forall_forall in Hl. by apply Hl, Hsub. }
  destruct (c_call name hc.*1 ds (addresses (next s) (length ks)) (lib s)) as [l r] eqn:Hc.
  eexists _, _. split_and!; [done|done| |].
  - exists (addresses (next s) (length ks)), (lib s). rewrite Hc. split_and!; [|done..]. clear. generalize (next s).
    induction (length ks) as [|n IH]; intros p; cbn; [done|]. by rewrite IH.
  - destruct Ho as [Hlive _ _ Hfresh]. cbn [list_to_map foldr] in Hlive. rewrite map_empty_union in Hlive.
    pose proof (created_NoDup (addresses (next s) (length ks)) ks (is_set r) (addresses_NoDup _ _)) as Hn.
    assert (Hnew : forall c, c ∈ omap id (created (addresses (next s) (length ks)) ks (is_set r)) -> c.1 ∈ addresses (next s) (length ks)).
    { intros c Hin. apply list_elem_of_omap in Hin as (o & Ho & Hid). cbn in Hid. subst o. by apply created_sub in Ho. }
    split; cbn [live next fst snd]; [by rewrite add_cells_map, Hlive|done| |].
    + apply Forall_forall. intros c Hin. rewrite <- Hlive. apply Hfresh. apply Hnew, addresses_le in Hin. lia.
    + intros p Hp. rewrite add_cells_map by done. apply lookup_union_None. split.
      * apply list_to_map_none. intros Hin. apply list_elem_of_fmap in Hin as (c & -> & Hin). apply Hnew, addresses_le in Hin. lia.
      * apply Hfresh. pose proof (iter_succ_le (length ks) (next s)). lia.
Qed.
End calls.

Section specs.
Context {L : Type} `{CLib L} {HL : CLibLaws} {HS : SmallObjects}.
Implicit Types (hs hc : list (positive * kind)).

Definition some {A} (o : option A) : bool := match o with Some _ => true | None => false end.

Definition sound_reply (name : string) (made : list bool) (r : reply) : Prop :=
  zlen (mem r) < 2 ^ 31 /\ (rc r = 0 -> mem r <> []) /\ (name ∉ may_leave_output -> made = replicate (length made) (bool_decide (rc r = 0)))
  /\ exists addrs ds ps (l : L), r = (c_call name addrs ds ps l).2.

Lemma call_spec name hc ds hs : hc ⊆ hs ->
  spec_total hs [] (call name hc ds) nothing (fun r => exists ps l, r = (c_call name hc.*1 ds ps l).2).
Proof.
  intros Hsub F s Hh Ho. destruct (ccall_spec name hc ds [] hs Hsub F s Hh Ho) as (s' & [cs r] & He & Hf & (ps & l & Hp & Hr & Hcs) & Hho).
  unfold call, gbind. rewrite He. exists s', r. cbn in *. split_and!; [done..|by exists ps, l|].
  destruct ps; [|done]. cbn in Hcs. by subst cs.
Qed.

(** A call that creates nothing only changes what the library remembers. *)
Lemma plain_call_run name hc ds (s : cstate L) : forallb (alive s) hc = true ->
  call name hc ds s = let '(l, r) := c_call name hc.*1 ds [] (lib s) in (mkC (live s) (next s) (faults s) l, inr r).
Proof. intros Ha. unfold call, ccall, gbind. rewrite Ha. cbn. by destruct (c_call name hc.*1 ds [] (lib s)). Qed.

Lemma call1_spec k name hc ds hs : hc ⊆ hs ->
  spec_total hs [] (call1 k name hc ds) (fun x => option_list (cell <$> x.1)) (fun x => sound_reply name [some x.1] x.2).
Proof.
  intros Hsub F s Hh Ho. destruct (ccall_spec name hc ds [k] hs Hsub F s Hh Ho) as (s' & [cs r] & He & Hf & (ps & l & Hp & Hr & Hcs) & Hho).
  unfold call1, gbind. rewrite He. destruct ps as [|p []]; try done. cbn in Hr, Hcs, Hho. eexists _, _. split_and!; [done|done| |].
  - split_and!; [rewrite Hr; apply small_object|rewrite Hr; apply law_mem| |by eauto]. intros Hn. pose proof (law_set name hc.*1 ds [p] l Hn) as Hs. rewrite <- Hr in Hs. cbn in Hs |- *.
    subst cs. rewrite Hs. cbn. by case_bool_decide.
  - subst cs. cbn in Hho |- *. by destruct (default false (head (is_set r))).
Qed.

Lemma call2_spec k1 k2 name hc ds hs : hc ⊆ hs ->
  spec_total hs [] (call2 k1 k2 name hc ds) (fun x => option_list (cell <$> x.1.1) ++ option_list (cell <$> x.1.2))
    (fun x => sound_reply name [some x.1.1; some x.1.2] x.2).
Proof.
  intros Hsub F s Hh Ho. destruct (ccall_spec name hc ds [k1; k2] hs Hsub F s Hh Ho) as (s' & [cs r] & He & Hf & (ps & l & Hp & Hr & Hcs) & Hho).
  unfold call2, gbind. rewrite He. destruct ps as [|p [|p' []]]; try done. cbn in Hr, Hcs, Hho. eexists _, _. split_and!; [done|done| |].
  - split_and!; [rewrite Hr; apply small_object|rewrite Hr; apply law_mem| |by eauto]. intros Hn. pose proof (law_set name hc.*1 ds [p; p'] l Hn) as Hs. rewrite <- Hr in Hs. cbn in Hs |- *.
    subst cs. rewrite Hs. cbn. by case_bool_decide.
  - subst cs. cbn in Hho |- *. by destruct (default false (head (is_set r))), (default false (head (tail (is_set r)))).
Qed.

Lemma to_handle_created k ps set :
  cells (omap id (to_handle (k := k) <$> created ps (replicate (length ps) k) set)) = omap id (created ps (replicate (length ps) k) set).
Proof. revert set. induction ps as [|p ps IH]; intros set; cbn; [done|]. destruct (default false (head set)); cbn; [f_equal|]; apply IH. Qed.

Lemma created_set k ps n (b : bool) : n = length ps ->
  some (A := handle k) <$> (to_handle <$> created ps (replicate n k) (replicate n b)) = replicate n b.
Proof. intros ->. induction ps as [|p ps IH]; cbn; [done|]. rewrite IH. f_equal. by destruct b. Qed.

Lemma calln_spec k n name hc ds hs : hc ⊆ hs ->
  spec_total hs [] (calln k n name hc ds) (fun x => cells (omap id x.1))
    (fun x => length x.1 = n /\ sound_reply name (some <$> x.1) x.2).
Proof.
  intros Hsub F s Hh Ho.
  destruct (ccall_spec name hc ds (replicate n k) hs Hsub F s Hh Ho) as (s' & [cs r] & He & Hf & (ps & l & Hp & Hr & Hcs) & Hho).
  unfold calln, gbind. rewrite He. cbn [fst snd] in *. rewrite length_replicate in Hp. eexists _, _. split_and!; [done|done| | |].
  - cbn [fst]. rewrite length_fmap, Hcs. clear -Hp. rewrite <- Hp. generalize (is_set r). clear Hp. induction ps as [|p ps IH]; intros set; cbn; [done|]. by rewrite IH.
  - cbn [fst snd]. split_and!; [rewrite Hr; apply small_object|rewrite Hr; apply law_mem| |by eauto]. intros Hn. pose proof (law_set name hc.*1 ds ps l Hn) as Hs. rewrite <- Hr in Hs.
    rewrite Hcs, Hs, Hp, created_set by done. by rewrite length_replicate.
  - cbn [fst]. rewrite Hcs in Hho |- *. subst n. by rewrite to_handle_created.
Qed.

(** *** The shapes of the bindings *)

Lemma made_one name (o : bool) r : sound_reply name [o] r -> name ∉ may_leave_output -> o = bool_decide (rc r = 0).
Proof. intros (_ & _ & Hs & _) Hn. specialize (Hs Hn). cbn in Hs. congruence. Qed.

Lemma new_or_spec k err name hc ds hs : hc ⊆ hs ->
  spec hs [] (new_or (k := k) err name hc ds) (fun h => [cell h]) anything.
Proof.
  intros Hsub. eapply spec_bind; [apply total_spec, call1_spec, Hsub|]. intros [[h|] r] _; [|apply spec_fail].
  by apply (spec_ret hs h (fun h => [cell h])).
Qed.

Lemma make_with_spec k err name hc ds hs : hc ⊆ hs -> name ∉ may_leave_output ->
  spec hs [] (make_with (k := k) err name hc ds) (fun h => [cell h]) anything.
Proof.
  intros Hsub Hn. eapply spec_bind; [apply total_spec, call1_spec, Hsub|]. intros [o r] Hs. cbn [fst snd] in *.
  pose proof (made_one _ _ _ Hs Hn) as Hm. destruct (rc r =? 0) eqn:Hrc; cbn [negb].
  - rewrite (bool_decide_true (rc r = 0)) in Hm by lia. destruct o as [h|]; [|done]. by apply (spec_ret hs h (fun h => [cell h])).
  - rewrite (bool_decide_false (rc r = 0)) in Hm by lia. destruct o as [h|]; [done|]. apply spec_fail.
Qed.

Lemma make2_with_spec k1 k2 err name hc ds hs : hc ⊆ hs -> name ∉ may_leave_output ->
  spec hs [] (make2_with (k1 := k1) (k2 := k2) err name hc ds) (fun h => [cell h.1; cell h.2]) anything.
Proof.
  intros Hsub Hn. eapply spec_bind; [apply total_spec, call2_spec, Hsub|]. intros [[o1 o2] r] (_ & _ & Hs & _). specialize (Hs Hn). cbn [fst snd length replicate] in *.
  injection Hs as Hm1 Hm2. destruct (rc r =? 0) eqn:Hrc; cbn [negb].
  - rewrite (bool_decide_true (rc r = 0)) in Hm1, Hm2 by lia. destruct o1 as [h1|], o2 as [h2|]; try discriminate.
    by apply (spec_ret hs (h1, h2) (fun h => [cell h.1; cell h.2])).
  - rewrite (bool_decide_false (rc r = 0)) in Hm1, Hm2 by lia. destruct o1, o2; try discriminate. apply spec_fail.
Qed.

Lemma make_or_spec k err name hc ds hs : hc ⊆ hs -> name ∉ may_leave_output ->
  spec hs [] (make_or (k := k) err name hc ds) (fun h => [cell h]) anything.
Proof. apply make_with_spec. Qed.

Lemma make2_or_spec k1 k2 err name hc ds hs : hc ⊆ hs -> name ∉ may_leave_output ->
  spec hs [] (make2_or (k1 := k1) (k2 := k2) err name hc ds) (fun h => [cell h.1; cell h.2]) anything.
Proof. apply make2_with_spec. Qed.

Lemma mapM_some {k} (os : list (option (handle k))) n : some <$> os = replicate n true -> exists l, mapM id os = Some l /\ omap id os = l /\ length l = n.
Proof.
  revert n. induction os as [|[h|] os IH]; intros [|n] Hs; try discriminate; [by exists []|]. cbn in Hs. injection Hs as Hs.
  destruct (IH n Hs) as (l & Hl & Ho & Hn). exists (h :: l). cbn. rewrite Hl. cbn. by rewrite Ho, Hn.
Qed.

Lemma omap_none {k} (os : list (option (handle k))) n : some <$> os = replicate n false -> omap id os = [].
Proof. revert n. induction os as [|[h|] os IH]; intros [|n] Hs; try discriminate; [done|]. cbn in Hs. injection Hs as Hs. by apply (IH n). Qed.

Lemma make_n_spec k n err name hc ds hs : hc ⊆ hs -> name ∉ may_leave_output ->
  spec hs [] (make_n (k := k) n err name hc ds) cells (fun l => length l = n).
Proof.
  intros Hsub Hn. eapply spec_bind; [apply total_spec, calln_spec, Hsub|]. intros [os r] (Hlen & _ & _ & Hs & _). specialize (Hs Hn). cbn [fst snd] in *.
  rewrite length_fmap, Hlen in Hs. destruct (rc r =? 0) eqn:Hrc; cbn [negb].
  - rewrite (bool_decide_true (rc r = 0)) in Hs by lia. destruct (mapM_some os n Hs) as (l & -> & -> & Hl). by apply spec_ret_eq.
  - rewrite (bool_decide_false (rc r = 0)) in Hs by lia. rewrite (omap_none os n Hs). apply spec_fail.
Qed.

Lemma check_or_spec err name hc ds hs : hc ⊆ hs -> balanced hs (check_or err name hc ds).
Proof.
  intros Hsub. eapply spec_bind; [apply total_spec, call_spec, Hsub|]. intros r _. case_match; [apply spec_fail|].
  by apply (spec_ret hs tt nothing).
Qed.

Lemma cint_small z : 0 <= z < 2 ^ 31 -> cint z = z.
Proof. intros Hz. unfold cint. rewrite Z.mod_small; lia. Qed.

Lemma copy_spec {k} (o : option (handle k)) b hs : zlen b < 2 ^ 31 ->
  spec (L := L) hs [] (copyCBytes o b) nothing (fun x => x = match o with Some _ => b | None => [] end).
Proof.
  intros Hb. unfold copyCBytes. destruct o; [|by apply (spec_ret hs [] nothing)]. destruct (zlen b =? 0) eqn:Hz.
  - destruct b; [|done]. by apply (spec_ret hs [] nothing).
  - assert (0 <= zlen b) by (unfold zlen; lia). unfold GoBytes. rewrite cint_small by lia. replace (zlen b <? 0) with false by lia.
    apply (spec_ret hs _ nothing). unfold zlen. rewrite Nat2Z.id. by rewrite take_ge.
Qed.

Lemma free_opt_cells {k} (o : option (handle k)) hs cs : spec_total (L := L) hs (option_list (cell <$> o) ++ cs) (cfree_opt o) (fun _ => cs) anything.
Proof. destruct o as [h|]; [apply free_cell|]. by apply (total_ret hs tt (fun _ => cs)). Qed.

Definition filled (b : bytes) : Prop := b <> [].

Lemma bytes_with_spec err name hc ds hs : hc ⊆ hs -> name ∉ may_leave_output -> spec hs [] (bytes_with err name hc ds) nothing filled.
Proof.
  intros Hsub Hn. eapply spec_bind; [apply total_spec, call1_spec, Hsub|]. intros [o r] Hs. cbn [fst snd] in *.
  pose proof (made_one _ _ _ Hs Hn) as Hm. destruct Hs as (Hsz & Hmem & _). destruct (rc r =? 0) eqn:Hrc; cbn [negb].
  - rewrite (bool_decide_true (rc r = 0)) in Hm by lia. destruct o as [h|]; [|done].
    apply (spec_defer hs (option_list (cell <$> Some h)) []); [intros; apply free_opt_cells|].
    eapply spec_weaken; [by apply (copy_spec (Some h) (mem r) [])|apply list_subseteq_nil|]. intros x ->. apply Hmem. lia.
  - rewrite (bool_decide_false (rc r = 0)) in Hm by lia. destruct o; [done|]. apply spec_fail.
Qed.

Lemma bytes_or_spec err name hc ds hs : hc ⊆ hs -> name ∉ may_leave_output -> spec hs [] (bytes_or err name hc ds) nothing filled.
Proof. apply bytes_with_spec. Qed.

Lemma bytes_guarded_spec err name hc ds hs : hc ⊆ hs -> spec hs [] (bytes_guarded err name hc ds) nothing filled.
Proof.
  intros Hsub. eapply spec_bind; [apply total_spec, call1_spec, Hsub|]. intros [o r] (Hsz & Hmem & _). cbn [fst snd] in *. destruct (negb _ || _ || _) eqn:Hb.
  - intros F s Hh Ho. destruct (free_opt_cells o hs [] F s Hh) as (s' & [] & He & Hf & _ & Hr); [by rewrite app_nil_r|].
    unfold gbind. rewrite He. by split.
  - apply (spec_defer hs (option_list (cell <$> o)) []); [intros; apply free_opt_cells|].
    eapply spec_weaken; [by apply (copy_spec o (mem r) [])|apply list_subseteq_nil|]. intros x ->.
    apply orb_false_iff in Hb as [Hb Hz]. apply orb_false_iff in Hb as [Hrc Ho]. destruct o; [|done]. apply Hmem. lia.
Qed.
End specs.

(** ** Further shapes *)

Section shapes.
Context {L : Type} `{CLib L}.

(** [for i, x := range xs { y, err := f(i, x); ... ; out = append(out, y) }]. *)
Fixpoint each {A C} (f : nat -> A -> G L C) (i : nat) (xs : list A) : G L (list C) :=
  match xs with
  | [] => gret []
  | x :: xs => let^ y := f i x in let^ ys := each f (S i) xs in gret (y :: ys)
  end.

(** The same where [f] hands out objects: the ones there are, [acc], are freed
    when a later one fails. *)
Fixpoint collect {A k} (f : nat -> A -> G L (handle k)) (i : nat) (xs : list A) (acc : list (handle k)) : G L (list (handle k)) :=
  match xs with
  | [] => gret acc
  | x :: xs => gtry (f i x) (fun e => let^ _ := cfree_all acc in gfail e) (fun h => collect f (S i) xs (acc ++ [h]))
  end.

(** [C.CString(s)]. *)
Definition CString (s : string) : G L (handle KMem) := new_or "CString" "CString" [] [VStr s].

(** [buf := make([]T, capacity); ...; out := make([]T, n); for i := range out {
    out[i] = buf[i] }], with [l] written to the buffer. *)
Definition filled_part {A} (n capacity : Z) (l : list A) (zero : A) : G L (list A) :=
  if n <? 0 then gfault NegativeLength
  else if capacity <? n then gfault IndexPanic
  else gret (take (Z.to_nat n) (l ++ replicate (Z.to_nat capacity) zero)).

Definition require (ok : bool) (err : string) : G L unit := if ok then gret tt else gfail err.
End shapes.

Section shape_specs.
Context {L : Type} `{CLib L} {HL : CLibLaws} {HS : SmallObjects}.
Implicit Types (hs hc : list (positive * kind)).

Lemma cells_app {k} (a b : list (handle k)) : cells (a ++ b) = cells a ++ cells b.
Proof. apply fmap_app. Qed.

Lemma each_spec {A C} (f : nat -> A -> G L C) (Q : C -> Prop) hs i xs :
  (forall i x, x ∈ xs -> spec hs [] (f i x) nothing Q) -> spec hs [] (each f i xs) nothing (fun ys => length ys = length xs /\ Forall Q ys).
Proof.
  revert i. induction xs as [|x xs IH]; intros i Hf; cbn [each]; [by apply (spec_ret hs [] nothing)|].
  eapply spec_bind; [apply Hf; left|]. intros y Hy. eapply spec_bind; [apply IH; intros; apply Hf; by right|].
  intros ys [Hlen Hys]. apply spec_ret_eq; [done|]. split; [cbn; by rewrite Hlen|by constructor].
Qed.

(** Free what is owned, then fail. *)
Lemma spec_free_fail {A k} hs (l : list (handle k)) e own Q : spec hs (cells l) (gbind (cfree_all l) (fun _ => gfail (A := A) e)) own Q.
Proof.
  intros F s Hh Ho. destruct (free_cells l hs [] F s Hh) as (s' & [] & He & Hf & _ & Hr); [by rewrite app_nil_r|].
  unfold gbind. rewrite He. by split.
Qed.

Lemma spec_free_then {A k} hs (h : handle k) cs (m : G L A) own Q :
  spec hs cs m own Q -> spec hs (cell h :: cs) (gbind (cfree h) (fun _ => m)) own Q.
Proof.
  intros Hm F s Hh Ho. destruct (free_cell h hs cs F s Hh Ho) as (s' & [] & He & Hf & _ & Hr).
  unfold gbind. rewrite He. specialize (Hm F s' Hh Hr). destruct (m s') as [s2 r]. by rewrite <- Hf.
Qed.

Lemma spec_free_opt {A k} hs (o : option (handle k)) (m : G L A) own Q :
  spec hs [] m own Q -> spec hs (option_list (cell <$> o)) (gbind (cfree_opt o) (fun _ => m)) own Q.
Proof. destruct o as [h|]; [apply spec_free_then|]. intros Hm F s Hh Ho. by apply Hm. Qed.

Lemma collect_owns {A k} (f : nat -> A -> G L (handle k)) (Q : handle k -> Prop) hs i xs acc :
  (forall hs' i x, hs ⊆ hs' -> spec hs' [] (f i x) (fun h => [cell h]) anything) ->
  spec hs (cells acc) (collect f i xs acc) cells (fun l => length l = (length acc + length xs)%nat).
Proof.
  intros Hf. revert i acc. induction xs as [|x xs IH]; intros i acc; cbn [collect].
  - apply (spec_ret hs acc cells). cbn. lia.
  - eapply spec_try.
    + apply Hf. intros c Hc. apply elem_of_app. by right.
    + intros e. apply spec_free_fail.
    + intros h _. eapply spec_perm; [|eapply spec_weaken; [apply (IH (S i) (acc ++ [h]))|done|]].
      * rewrite cells_app. apply Permutation_app_comm.
      * intros l Hl. rewrite length_app in Hl. cbn in *. lia.
Qed.

Lemma addr0_spec {A} (xs : list A) hs : xs <> [] -> balanced hs (addr0 (L := L) xs).
Proof. intros Hx. destruct xs; [done|]. by apply (spec_ret hs tt nothing). Qed.

Lemma require_spec ok err hs : spec hs [] (require (L := L) ok err) nothing (fun _ => ok = true).
Proof. destruct ok; [by apply (spec_ret hs tt nothing)|apply spec_fail]. Qed.

Lemma spec_any {A} hs cs (m : G L A) own Q : spec hs cs m own Q -> spec hs cs m own anything.
Proof. intros Hm. by eapply spec_weaken; [exact Hm|reflexivity|]. Qed.

Lemma filled_part_spec {A} n capacity (l : list A) zero hs :
  0 <= n <= capacity -> spec (L := L) hs [] (filled_part n capacity l zero) nothing (fun out => zlen out = n).
Proof.
  intros Hn. unfold filled_part. replace (n <? 0) with false by lia. replace (capacity <? n) with false by lia.
  apply (spec_ret hs _ nothing). unfold zlen. rewrite length_take, length_app, length_replicate. lia.
Qed.

Lemma CString_spec s hs : spec (L := L) hs [] (CString s) (fun h => [cell h]) anything.
Proof. apply new_or_spec, list_subseteq_nil. Qed.

Lemma spec_defer1 {A k} hs (h : handle k) cs (m : G L A) own Q :
  spec (cell h :: hs) cs m own Q -> spec hs (cell h :: cs) (gdefer (cfree h) m) own Q.
Proof.
  intros Hm. eapply spec_perm; [|apply (spec_defer hs [cell h] cs); [intros; apply free_cell|exact Hm]].
  by rewrite Permutation_app_comm.
Qed.

Lemma spec_defer_list {A k} hs (l : list (handle k)) cs (m : G L A) own Q :
  spec (cells l ++ hs) cs m own Q -> spec hs (cells l ++ cs) (gdefer (cfree_all l) m) own Q.
Proof.
  intros Hm. eapply spec_perm; [|apply (spec_defer hs (cells l) cs); [intros; apply free_cells|exact Hm]].
  apply Permutation_app_comm.
Qed.
End shape_specs.

(** ** Automation *)

Lemma sub_cons (c : positive * kind) a b : c ∈ b -> a ⊆ b -> c :: a ⊆ b.
Proof. set_solver. Qed.
Lemma sub_app (a b c : list (positive * kind)) : a ⊆ c -> b ⊆ c -> a ++ b ⊆ c.
Proof. set_solver. Qed.
Lemma sub_skip (c : positive * kind) a b : a ⊆ b -> a ⊆ c :: b.
Proof. set_solver. Qed.
Lemma sub_left (a b c : list (positive * kind)) : a ⊆ b -> a ⊆ b ++ c.
Proof. set_solver. Qed.
Lemma sub_right (a b c : list (positive * kind)) : a ⊆ c -> a ⊆ b ++ c.
Proof. set_solver. Qed.

Ltac mem_in :=
  first [ assumption | apply list_elem_of_here | apply list_elem_of_further; mem_in
        | apply elem_of_app; first [left; mem_in | right; mem_in] ].

(** Inclusions of the objects a call uses in those at hand. *)
Ltac subs :=
  lazymatch goal with
  | |- [] ⊆ _ => apply list_subseteq_nil
  | |- ?a ⊆ ?a => reflexivity
  | |- _ :: _ ⊆ _ => apply sub_cons; [mem_in|subs]
  | |- _ ++ _ ⊆ _ => apply sub_app; subs
  | |- cells (?h :: ?l) ⊆ ?b => change (cell h :: cells l ⊆ b); subs
  | |- cells [] ⊆ _ => apply list_subseteq_nil
  | |- _ => first [ assumption | apply sub_skip; subs | apply sub_left; subs | apply sub_right; subs
                  | etransitivity; [|eassumption]; subs ]
  end.

(** Goals about the lengths of lists. *)
Ltac lengths := unfold zlen, filled in *; cbn [length] in *; first [ lia | congruence | done ].

Ltac nonempty := let E := fresh in intros E; subst; cbn [length] in *; lengths.

(** A function that leaves no output behind on an error. *)
Ltac not_left := apply (bool_decide_unpack _); vm_compute; exact I.

Create HintDb cgo.
#[export] Hint Resolve new_or_spec make_with_spec make2_with_spec make_n_spec make_or_spec make2_or_spec check_or_spec bytes_with_spec bytes_or_spec bytes_guarded_spec addr0_spec
  require_spec filled_part_spec CString_spec spec_fail spec_wrap : cgo.
#[export] Hint Extern 1 (_ ⊆ _) => subs : cgo.
#[export] Hint Extern 1 (_ ∈ _) => mem_in : cgo.
#[export] Hint Extern 1 (_ ∉ may_leave_output) => not_left : cgo.
#[export] Hint Extern 2 (_ <> []) => nonempty : cgo.

Ltac cgo_simpl := unfold nothing in *; cbn [fst snd app cells fmap list_fmap] in *.

Ltac open_pair x :=
  lazymatch type of x with
  | (_ * _)%type => let a := fresh "a" in let b := fresh "b" in destruct x as [a b]; open_pair a; open_pair b; cgo_simpl
  | unit => destruct x
  | _ => idtac
  end.

(** One step of a call. *)
Ltac cgo_step :=
  lazymatch goal with
  | |- spec _ [] (gfail _) _ _ => apply spec_fail
  | |- spec _ _ (gret _) _ _ => apply spec_ret_eq; [reflexivity|]
  | |- spec _ _ (gwrap _ _) _ _ => apply spec_wrap
  | |- spec _ (cell ?h :: _) (gdefer (cfree ?h) _) _ _ => apply spec_defer1
  | |- spec _ (cells ?l) (gdefer (cfree_all ?l) _) _ _ => rewrite <- (app_nil_r (cells l)); apply spec_defer_list
  | |- spec _ (cells ?l ++ _) (gdefer (cfree_all ?l) _) _ _ => apply spec_defer_list
  | |- spec _ (cell ?h :: _) (gbind (cfree ?h) _) _ _ => apply spec_free_then
  | |- spec _ _ (gbind (call _ _ _) _) _ _ =>
      eapply spec_bind_total; [apply call_spec; subs|let r := fresh "r" in let Hr := fresh "Hr" in intros r Hr; cbn beta in *]
  | |- spec _ _ (gbind _ _) _ _ => eapply spec_bind_own; [solve [eauto with cgo]|let x := fresh "x" in let Hx := fresh "Hx" in intros x Hx; cgo_simpl; open_pair x]
  | |- spec _ _ (if ?b then _ else _) _ _ => let E := fresh "E" in destruct b eqn:E
  | |- spec _ [] _ _ _ => first [solve [eauto with cgo] | eapply spec_any; solve [eauto with cgo]]
  end.

Ltac cgo_steps := cgo_simpl; repeat (cgo_step; cgo_simpl); try done.
End CgoCore.
