(* ===== verification/CgoKeys.v ===== *)
(** * The encryption bindings: keys ([pkg/ares/crypto/cgo])

    Contexts, serialization, the distributed key generation and the rounds of
    the evaluation keys, for one call with a context of its own and for calls
    that share a context.  Every operation is shown to free what it allocates
    and to use no object after it is freed. *)

From Stdlib Require Import ZifyBool.
From S2P Require Import Prelude Float64 HelperClient HelperServer CgoCore.
Import HelperClient HelperServer CgoCore.

#[local] Open Scope string_scope.
#[local] Open Scope list_scope.
#[local] Open Scope Z_scope.
#[local] Open Scope go_scope.
#[local] Open Scope cgo_scope.

Module CgoKeys.

Record ContractParams := mkContract {
  RingDim : Z;
  ScalingFactor : float64;
  Depth : Z;
  MinimalRotationKeys : bool;
  ProfileDim : Z;
  PayloadSlotCount : Z;
  EvalSumOnlyRotationKeys : bool
}.

(** [float64(uint64(1) << 50)]. *)
Definition scale50 : float64 := ldexp1 50.

(** [for bs < need { bs <<= 1 }] on [uint32]. *)
Fixpoint grow32 (fuel : nat) (bs need : Z) : option Z :=
  match fuel with
  | O => None
  | S fuel => if bs <? need then grow32 fuel (wrap32u (bs * 2)) need else Some bs
  end.

(** After 33 rounds the shifted value is 0 and stays 0. *)
Definition next_pow2 (need : Z) : option Z := grow32 34 1 (wrap32u need).

Definition DefaultContractParams (profileDim depth : Z) : option ContractParams :=
  let ringDim :=
    if 0 <? profileDim then (fun d => if d <? 1024 then 1024 else d) <$> next_pow2 (wrap64 (profileDim * 2)) else Some 1024 in
  (fun d => mkContract d scale50 (if depth =? 0 then 30 else depth) false 0 0 false) <$> ringDim.

Definition batch_size (p : ContractParams) : option Z :=
  if MinimalRotationKeys p && (0 <? ProfileDim p) && (0 <? PayloadSlotCount p) then
    next_pow2 (if ProfileDim p <? PayloadSlotCount p then PayloadSlotCount p else ProfileDim p)
  else if EvalSumOnlyRotationKeys p && (0 <? ProfileDim p) then next_pow2 (ProfileDim p)
  else Some 0.

Record IndexedEvalSumKey := mkIndexed { ix_Index : Z; ix_Key : bytes }.

Section keys.
Context {L : Type} `{CLib L}.

Definition requireNonEmptyBytes (name : string) (b : bytes) : G L unit :=
  require (negb (zlen b =? 0)) (name +:+ " is required (empty slice)").

(** ** Contexts *)

Definition createContractContext (params : ContractParams) : G L (handle KCtx) :=
  let ringDim := if RingDim params =? 0 then 1024 else RingDim params in
  let scalingFactor := if f64_eq (ScalingFactor params) f64_zero then scale50 else ScalingFactor params in
  let depth := if Depth params =? 0 then 30 else Depth params in
  match batch_size params with
  | None => gfault Diverges
  | Some bs =>
    let^ ctx := new_or "failed to create OpenFHE contract context" "CreateCKKSContext" []
      [VInt ringDim; VReal scalingFactor; VInt depth; VInt bs] in
    if MinimalRotationKeys params then
      let^ _ := call "SetMinimalRotationKeys" [cell ctx] [VInt (cint (ProfileDim params)); VInt (cint (PayloadSlotCount params))] in
      gret ctx
    else if EvalSumOnlyRotationKeys params then
      let^ _ := call "SetEvalSumOnlyRotationKeys" [cell ctx] [VInt (cint (ProfileDim params))] in gret ctx
    else gret ctx
  end.

Definition createBFVContractContext (params : BFVContractParams) : G L (handle KCtx) :=
  let ringDim := if BFVRingDim params =? 0 then 32768 else BFVRingDim params in
  let depth := if MultiplicativeDepth params =? 0 then 20 else MultiplicativeDepth params in
  let modulus := if PlaintextModulus params =? 0 then 65537 else PlaintextModulus params in
  let batch := if BatchSize params <=? 0 then ringDim / 2 else BatchSize params in
  new_or "failed to create OpenFHE BFV contract context" "CreateBFVContext" [] [VInt ringDim; VInt depth; VInt modulus; VInt (wrap32u batch)].

(** [ctx, err := create(params); if err != nil { return err }; defer
    C.FreeCryptoContext(ctx)]. *)
Definition with_context {A} (create : G L (handle KCtx)) (k : handle KCtx -> G L A) : G L A :=
  let^ ctx := create in defer^ cfree ctx in k ctx.

(** ** Serialization *)

Definition serializePublicKey (pk : handle KPK) : G L bytes :=
  bytes_or "public-key serialization failed" "SerializePublicKey" [cell pk] [].
Definition serializeSecretKeyShare (sk : handle KSK) : G L bytes :=
  bytes_or "secret-key share serialization failed" "SerializeSecretKeyShare" [cell sk] [].
Definition serializeEvalMultKey (key : handle KMult) : G L bytes :=
  bytes_or "eval-mult key serialization failed" "SerializeEvalMultKey" [cell key] [].
Definition serializeRotKey (key : handle KRot) : G L bytes :=
  bytes_or "eval-sum key serialization failed" "SerializeRotKey" [cell key] [].
Definition serializeCiphertext (ct : handle KCt) : G L bytes :=
  bytes_or "ciphertext serialization failed" "SerializeCiphertext" [cell ct] [].

Definition deserializePublicKey (ctx : handle KCtx) (raw : bytes) : G L (handle KPK) :=
  if zlen raw =? 0 then gfail "public key bytes are required" else
  let^ _ := addr0 raw in new_or "public-key deserialization failed" "DeserializePublicKey" [cell ctx] [VData raw].

Definition deserializeCiphertext (ctx : handle KCtx) (raw : bytes) : G L (handle KCt) :=
  if zlen raw =? 0 then gfail "ciphertext bytes are required" else
  let^ _ := addr0 raw in new_or "ciphertext deserialization failed" "DeserializeCiphertext" [cell ctx] [VData raw].

Definition deserializeSecretKeyShare (ctx : handle KCtx) (raw : bytes) (lead : bool) : G L (handle KSK) :=
  if zlen raw =? 0 then gfail "secret key share bytes are required" else
  let leadInt := if lead then 1 else 0 in
  let^ _ := addr0 raw in
  new_or "secret-key share deserialization failed" "DeserializeSecretKeyShare" [cell ctx] [VData raw; VInt leadInt].

Definition deserializeEvalMultKey (ctx : handle KCtx) (raw : bytes) : G L (handle KMult) :=
  if zlen raw =? 0 then gfail "eval-mult key bytes are required" else
  let^ _ := addr0 raw in new_or "eval-mult key deserialization failed" "DeserializeEvalMultKey" [cell ctx] [VData raw].

Definition deserializeRotKey (ctx : handle KCtx) (raw : bytes) : G L (handle KRot) :=
  if zlen raw =? 0 then gfail "eval-sum key bytes are required" else
  let^ _ := addr0 raw in new_or "eval-sum key deserialization failed" "DeserializeRotKey" [cell ctx] [VData raw].

Definition numbered (what : string) (i : nat) : string := what +:+ pretty (Z.of_nat i) +:+ ": ".

Definition deserializePublicKeys (ctx : handle KCtx) (raws : list bytes) : G L (list (handle KPK)) :=
  collect (fun i raw => gwrap (numbered "deserialize public key " i) (deserializePublicKey ctx raw)) 0 raws [].
Definition deserializeEvalMultKeys (ctx : handle KCtx) (raws : list bytes) : G L (list (handle KMult)) :=
  collect (fun i raw => gwrap (numbered "deserialize eval-mult key " i) (deserializeEvalMultKey ctx raw)) 0 raws [].
Definition deserializeRotKeys (ctx : handle KCtx) (raws : list bytes) : G L (list (handle KRot)) :=
  collect (fun i raw => gwrap (numbered "deserialize eval-sum key " i) (deserializeRotKey ctx raw)) 0 raws [].

(** ** Distributed key generation *)

(** Both schemes run the same code on their context; the texts of the errors
    differ by [tag]. *)
Definition keys_out (keys : handle KPK * handle KSK) (lead : bool) : G L KeyShare :=
  let '(pk, sk) := keys in
  defer^ cfree pk in
  defer^ cfree sk in
  let^ pkBytes := serializePublicKey pk in
  let^ skBytes := serializeSecretKeyShare sk in
  gret (mkKeyShare pkBytes skBytes lead).

Definition keygen_first (tag : string) (ctx : handle KCtx) : G L KeyShare :=
  let^ keys := make2_or (tag +:+ "distributed keygen first failed") "KeyGenFirst" [cell ctx] [] in keys_out keys true.

Definition keygen_next (tag : string) (prevPublicKey : bytes) (ctx : handle KCtx) : G L KeyShare :=
  let^ prev := deserializePublicKey ctx prevPublicKey in
  defer^ cfree prev in
  let^ keys := make2_or (tag +:+ "distributed keygen next failed") "KeyGenNext" [cell ctx; cell prev] [] in keys_out keys false.

Definition DistributedKeyGenFirst (params : ContractParams) : G L KeyShare :=
  with_context (createContractContext params) (keygen_first "").
Definition BFVDistributedKeyGenFirst (params : BFVContractParams) : G L KeyShare :=
  with_context (createBFVContractContext params) (keygen_first "BFV ").
Definition BFVDistributedKeyGenNext (params : BFVContractParams) (prevPublicKey : bytes) : G L KeyShare :=
  if zlen prevPublicKey =? 0 then gfail "previous public key is required" else
  with_context (createBFVContractContext params) (keygen_next "BFV " prevPublicKey).
Definition DistributedKeyGenNext (params : ContractParams) (prevPublicKey : bytes) : G L KeyShare :=
  if zlen prevPublicKey =? 0 then gfail "previous public key is required" else
  with_context (createContractContext params) (keygen_next "" prevPublicKey).

(** ** Folding the eval-sum shares *)

(** [accum := C.EvalSumCombineStart(seed); C.FreeRotKey(seed); if accum == nil]. *)
Definition start_fold (err : string) (seed : handle KRot) : G L (handle KRot) :=
  let^ (accum, _) := call1 KRot "EvalSumCombineStart" [cell seed] [] in
  let^ _ := cfree seed in
  match accum with None => gfail err | Some accum => gret accum end.

(** One share: deserialize the public key, load the share, fold, free both. *)
Definition fold_share (err : string) (ctx : handle KCtx) (accum : handle KRot) (pk : G L (handle KPK)) (share : G L (handle KRot)) : G L unit :=
  let^ pk := pk in
  gtry share (fun e => let^ _ := cfree pk in gfail e) (fun share =>
    let^ r := call "EvalSumCombineFold" [cell ctx; cell accum; cell pk; cell share] [] in
    let^ _ := cfree share in
    let^ _ := cfree pk in
    if negb (rc r =? 0) then gfail err else gret tt).

(** [xs[i]]. *)
Definition at_index {A} (xs : list A) (i : nat) : G L A := match xs !! i with Some x => gret x | None => gfault IndexPanic end.

Definition fold_failed (i : nat) : string := "eval-sum combine fold " +:+ pretty (Z.of_nat i) +:+ " failed".

(** [for i := 1; i < len(shares); i++]; [load] is how a share is obtained. *)
Fixpoint fold_shares {A} (load : nat -> A -> G L (handle KRot)) (ctx : handle KCtx) (accum : handle KRot) (pkBytes : list bytes)
    (i : nat) (shares : list A) : G L unit :=
  match shares with
  | [] => gret tt
  | share :: shares =>
    let^ raw := at_index pkBytes i in
    let^ _ := fold_share (fold_failed i) ctx accum (deserializePublicKey ctx raw) (load i share) in
    fold_shares load ctx accum pkBytes (S i) shares
  end.

Definition combineEvalSumIncremental (ctx : handle KCtx) (pkBytes shareBytes : list bytes) : G L bytes :=
  match shareBytes with
  | [] => gfault IndexPanic
  | lead :: shares =>
    let^ seed := deserializeRotKey ctx lead in
    let^ accum := start_fold "eval-sum combine start failed" seed in
    defer^ cfree accum in
    let^ _ := fold_shares (fun _ share => deserializeRotKey ctx share) ctx accum pkBytes 1 shares in
    serializeRotKey accum
  end.

(** A resolver may be nil and may fail. *)
Definition Resolver : Type := string -> string + bytes.

Definition resolved (what : string) (resolve : Resolver) (ref : string) : G L bytes :=
  match resolve ref with inl e => gfail (what +:+ e) | inr b => gret b end.

Definition combineEvalSumIncrementalLazy (ctx : handle KCtx) (pkBytes : list bytes) (shareRefs : list string) (resolve : option Resolver) : G L bytes :=
  if negb (zlen pkBytes =? zlen shareRefs) || (zlen shareRefs =? 0) then
    gfail "public-key and eval-sum share counts must match and be non-empty" else
  match resolve, shareRefs with
  | None, _ => gfail "eval-sum key resolver is required"
  | _, [] => gfault IndexPanic
  | Some resolve, lead :: refs =>
    let^ seedBytes := resolved (numbered "resolve eval-sum share " 0) resolve lead in
    let^ seed := deserializeRotKey ctx seedBytes in
    let^ accum := start_fold "eval-sum combine start failed" seed in
    defer^ cfree accum in
    let^ _ := fold_shares (fun i ref =>
      let^ shareBytes := resolved (numbered "resolve eval-sum share " i) resolve ref in deserializeRotKey ctx shareBytes) ctx accum pkBytes 1 refs in
    serializeRotKey accum
  end.

Definition CombineEvalSumSharesIncremental (params : ContractParams) (publicKeys evalSumShares : list bytes) : G L bytes :=
  if negb (zlen publicKeys =? zlen evalSumShares) || (zlen evalSumShares =? 0) then
    gfail "public-key and eval-sum share counts must match and be non-empty" else
  with_context (createContractContext params) (fun ctx => combineEvalSumIncremental ctx publicKeys evalSumShares).

(** The resident reference: every share deserialized at once.  The handles of
    a failing round are freed with the others. *)
Fixpoint deserialize_pairs (ctx : handle KCtx) (pkBytes shareBytes : list bytes) (pks : list (handle KPK)) (shares : list (handle KRot))
    : G L (list (handle KPK) * list (handle KRot)) :=
  let undo e := let^ _ := cfree_all pks in let^ _ := cfree_all shares in gfail e in
  match shareBytes, pkBytes with
  | [], _ => gret (pks, shares)
  | _ :: _, [] => gfault IndexPanic
  | raw :: shareBytes, pkRaw :: pkBytes =>
    gtry (deserializePublicKey ctx pkRaw) undo (fun pk =>
    gtry (deserializeRotKey ctx raw)
      (fun e => let^ _ := cfree_all (pks ++ [pk]) in let^ _ := cfree_all shares in gfail e)
      (fun share => deserialize_pairs ctx pkBytes shareBytes (pks ++ [pk]) (shares ++ [share])))
  end.

Definition combineEvalSumAllAtOnce (ctx : handle KCtx) (pkBytes shareBytes : list bytes) : G L bytes :=
  let^ (pks, shares) := deserialize_pairs ctx pkBytes shareBytes [] [] in
  defer^ (let^ _ := cfree_all pks in cfree_all shares) in
  let^ _ := addr0 pks in
  let^ _ := addr0 shares in
  let^ out := make_or "combine eval-sum all-at-once failed" "CombineEvalSumKeys" (cell ctx :: cells pks ++ cells shares)
    [VInt (cint (zlen shareBytes))] in
  defer^ cfree out in
  serializeRotKey out.

(** ** The rounds of the evaluation keys *)

Definition lead_mult (tag : string) (ctx : handle KCtx) (sk : handle KSK) : G L bytes :=
  let^ mult := make_or (tag +:+ "eval-mult lead key generation failed") "EvalMultKeyGenLead" [cell ctx; cell sk] [] in
  defer^ cfree mult in
  serializeEvalMultKey mult.

(** The eval-mult key stays allocated until the end of the call. *)
Definition round1_lead (tag : string) (secretKeyShare : bytes) (ctx : handle KCtx) : G L (bytes * bytes) :=
  let^ sk := deserializeSecretKeyShare ctx secretKeyShare true in
  defer^ cfree sk in
  let^ mult := make_or (tag +:+ "eval-mult lead key generation failed") "EvalMultKeyGenLead" [cell ctx; cell sk] [] in
  defer^ cfree mult in
  let^ multBytes := serializeEvalMultKey mult in
  let^ sum := make_or (tag +:+ "eval-sum lead key generation failed") "EvalSumKeyGenLead" [cell ctx; cell sk] [] in
  defer^ cfree sum in
  let^ sumBytes := serializeRotKey sum in
  gret (multBytes, sumBytes).

Definition round1_participant (tag : string) (secretKeyShare evalMultBase evalSumBase ownPublicKey : bytes) (ctx : handle KCtx) : G L (bytes * bytes) :=
  let^ sk := deserializeSecretKeyShare ctx secretKeyShare false in
  defer^ cfree sk in
  let^ multBase := deserializeEvalMultKey ctx evalMultBase in
  defer^ cfree multBase in
  let^ sumBase := deserializeRotKey ctx evalSumBase in
  defer^ cfree sumBase in
  let^ ownPK := deserializePublicKey ctx ownPublicKey in
  defer^ cfree ownPK in
  let^ multShare := make_or (tag +:+ "eval-mult switch-share generation failed") "EvalMultKeySwitchShare" [cell ctx; cell sk; cell multBase] [] in
  defer^ cfree multShare in
  let^ multBytes := serializeEvalMultKey multShare in
  let^ sumShare := make_or (tag +:+ "eval-sum share generation failed") "EvalSumKeyShare" [cell ctx; cell sk; cell sumBase; cell ownPK] [] in
  defer^ cfree sumShare in
  let^ sumBytes := serializeRotKey sumShare in
  gret (multBytes, sumBytes).

(** The joint eval-mult key, and what follows while the shares are allocated. *)
Definition joining {A} (tag : string) (ctx : handle KCtx) (publicKeys evalMultShares : list bytes) (k : bytes -> G L A) : G L A :=
  let^ pks := deserializePublicKeys ctx publicKeys in
  defer^ cfree_all pks in
  let^ multShares := deserializeEvalMultKeys ctx evalMultShares in
  defer^ cfree_all multShares in
  let^ _ := addr0 pks in
  let^ _ := addr0 multShares in
  let^ joined := make_or (tag +:+ "eval-mult switch-share combination failed") "CombineEvalMultSwitchShares"
    (cell ctx :: cells pks ++ cells multShares) [VInt (cint (zlen multShares))] in
  defer^ cfree joined in
  let^ joinedBytes := serializeEvalMultKey joined in
  k joinedBytes.

Definition round2_participant (tag : string) (secretKeyShare evalMultJoined finalPublicKey : bytes) (lead : bool) (ctx : handle KCtx) : G L bytes :=
  let^ sk := deserializeSecretKeyShare ctx secretKeyShare lead in
  defer^ cfree sk in
  let^ joined := deserializeEvalMultKey ctx evalMultJoined in
  defer^ cfree joined in
  let^ finalPK := deserializePublicKey ctx finalPublicKey in
  defer^ cfree finalPK in
  let^ finalShare := make_or (tag +:+ "eval-mult final-share generation failed") "EvalMultKeyFinalShare" [cell ctx; cell sk; cell joined; cell finalPK] [] in
  defer^ cfree finalShare in
  serializeEvalMultKey finalShare.

Definition round2_combine (tag : string) (finalPublicKey : bytes) (evalMultFinalShares : list bytes) (evalSumFinal : bytes) (ctx : handle KCtx) : G L EvalKeyFinal :=
  let^ finalPK := deserializePublicKey ctx finalPublicKey in
  defer^ cfree finalPK in
  let^ finalShares := deserializeEvalMultKeys ctx evalMultFinalShares in
  defer^ cfree_all finalShares in
  let^ _ := addr0 finalShares in
  let^ final := make_or (tag +:+ "eval-mult final-share combination failed") "CombineEvalMultFinalShares"
    (cell ctx :: cell finalPK :: cells finalShares) [VInt (cint (zlen finalShares))] in
  defer^ cfree final in
  let^ finalBytes := serializeEvalMultKey final in
  gret (mkFinal finalBytes evalSumFinal).

(** *** One call with its own context *)

Definition EvalKeyRound1Lead (params : ContractParams) (secretKeyShare : bytes) : G L (bytes * bytes) :=
  with_context (createContractContext params) (round1_lead "" secretKeyShare).
Definition BFVEvalKeyRound1Lead (params : BFVContractParams) (secretKeyShare : bytes) : G L (bytes * bytes) :=
  with_context (createBFVContractContext params) (round1_lead "BFV " secretKeyShare).

Definition EvalKeyRound1Participant (params : ContractParams) (secretKeyShare evalMultBase evalSumBase ownPublicKey : bytes) : G L (bytes * bytes) :=
  with_context (createContractContext params) (round1_participant "" secretKeyShare evalMultBase evalSumBase ownPublicKey).
Definition BFVEvalKeyRound1Participant (params : BFVContractParams) (secretKeyShare evalMultBase evalSumBase ownPublicKey : bytes) : G L (bytes * bytes) :=
  with_context (createBFVContractContext params) (round1_participant "BFV " secretKeyShare evalMultBase evalSumBase ownPublicKey).

(** [len(a) == 0 || len(a) != len(b) || len(a) != len(c)]. *)
Definition counts_differ {A B C} (a : list A) (b : list B) (c : list C) : bool :=
  (zlen a =? 0) || negb (zlen a =? zlen b) || negb (zlen a =? zlen c).

Definition CombineEvalKeyRound1 (params : ContractParams) (publicKeys evalMultShares evalSumShares : list bytes) : G L (bytes * bytes) :=
  if counts_differ publicKeys evalMultShares evalSumShares then gfail "public/eval-key share counts must match and be non-empty" else
  with_context (createContractContext params) (fun ctx =>
    joining "" ctx publicKeys evalMultShares (fun joinedBytes =>
      let^ sumFinalBytes := combineEvalSumIncremental ctx publicKeys evalSumShares in gret (joinedBytes, sumFinalBytes))).

Definition BFVCombineEvalKeyRound1 (params : BFVContractParams) (publicKeys evalMultShares evalSumShares : list bytes) : G L (bytes * bytes) :=
  if counts_differ publicKeys evalMultShares evalSumShares then gfail "public/eval-key share counts must match and be non-empty" else
  with_context (createBFVContractContext params) (fun ctx =>
    joining "BFV " ctx publicKeys evalMultShares (fun joinedBytes =>
      let^ sumFinalBytes := combineEvalSumIncremental ctx publicKeys evalSumShares in gret (joinedBytes, sumFinalBytes))).

Definition BFVCombineEvalKeyRound1Lazy (params : BFVContractParams) (publicKeys evalMultShares : list bytes) (evalSumShareRefs : list string)
    (resolve : option Resolver) : G L (bytes * bytes) :=
  if counts_differ publicKeys evalMultShares evalSumShareRefs then gfail "public/eval-key share counts must match and be non-empty" else
  match resolve with
  | None => gfail "eval-sum key resolver is required"
  | Some _ =>
    with_context (createBFVContractContext params) (fun ctx =>
      joining "BFV " ctx publicKeys evalMultShares (fun joinedBytes =>
        let^ sumFinalBytes := combineEvalSumIncrementalLazy ctx publicKeys evalSumShareRefs resolve in gret (joinedBytes, sumFinalBytes)))
  end.

Definition CombineEvalMultSwitchShares (params : ContractParams) (publicKeys evalMultShares : list bytes) : G L bytes :=
  if (zlen publicKeys =? 0) || negb (zlen publicKeys =? zlen evalMultShares) then
    gfail "public/eval-mult share counts must match and be non-empty" else
  with_context (createContractContext params) (fun ctx => joining "" ctx publicKeys evalMultShares gret).

Definition EvalKeyRound2Participant (params : ContractParams) (secretKeyShare evalMultJoined finalPublicKey : bytes) (lead : bool) : G L bytes :=
  with_context (createContractContext params) (round2_participant "" secretKeyShare evalMultJoined finalPublicKey lead).
Definition BFVEvalKeyRound2Participant (params : BFVContractParams) (secretKeyShare evalMultJoined finalPublicKey : bytes) (lead : bool) : G L bytes :=
  with_context (createBFVContractContext params) (round2_participant "BFV " secretKeyShare evalMultJoined finalPublicKey lead).

Definition CombineEvalKeyRound2 (params : ContractParams) (finalPublicKey : bytes) (evalMultFinalShares : list bytes) (evalSumFinal : bytes) : G L EvalKeyFinal :=
  if zlen evalMultFinalShares =? 0 then gfail "at least one eval-mult final share is required" else
  with_context (createContractContext params) (round2_combine "" finalPublicKey evalMultFinalShares evalSumFinal).
Definition BFVCombineEvalKeyRound2 (params : BFVContractParams) (finalPublicKey : bytes) (evalMultFinalShares : list bytes) (evalSumFinal : bytes) : G L EvalKeyFinal :=
  if zlen evalMultFinalShares =? 0 then gfail "at least one eval-mult final share is required" else
  with_context (createBFVContractContext params) (round2_combine "BFV " finalPublicKey evalMultFinalShares evalSumFinal).

(** *** Calls that share a context *)

(** [CryptoContext]: [Close] forgets the handle, so a second one does nothing. *)
Definition CryptoContext : Type := option (handle KCtx).

Definition NewCryptoContext (params : ContractParams) : G L CryptoContext :=
  let^ ctx := createContractContext params in gret (Some ctx).

Definition Close (c : CryptoContext) : G L CryptoContext :=
  match c with Some ctx => let^ _ := cfree ctx in gret None | None => gret None end.

Definition evalKeyRound1LeadWithContext (ctx : handle KCtx) (secretKeyShare : bytes) : G L (bytes * bytes) := round1_lead "" secretKeyShare ctx.
Definition EvalKeyRound1LeadWithContext (ctx : handle KCtx) (secretKeyShare : bytes) : G L (bytes * bytes) :=
  evalKeyRound1LeadWithContext ctx secretKeyShare.

Definition EvalMultKeyGenLeadWithContext (ctx : handle KCtx) (secretKeyShare : bytes) : G L bytes :=
  let^ sk := deserializeSecretKeyShare ctx secretKeyShare true in
  defer^ cfree sk in
  lead_mult "" ctx sk.

Definition EvalMultKeySwitchShareWithContext (ctx : handle KCtx) (secretKeyShare evalMultBase : bytes) : G L bytes :=
  let^ sk := deserializeSecretKeyShare ctx secretKeyShare false in
  defer^ cfree sk in
  let^ multBase := deserializeEvalMultKey ctx evalMultBase in
  defer^ cfree multBase in
  let^ multShare := make_or "eval-mult switch-share generation failed" "EvalMultKeySwitchShare" [cell ctx; cell sk; cell multBase] [] in
  defer^ cfree multShare in
  serializeEvalMultKey multShare.

Definition EvalKeyRound1ParticipantWithContext (ctx : handle KCtx) (secretKeyShare evalMultBase evalSumBase ownPublicKey : bytes) : G L (bytes * bytes) :=
  round1_participant "" secretKeyShare evalMultBase evalSumBase ownPublicKey ctx.

(** No check of the counts. *)
Definition CombineEvalMultSwitchSharesWithContext (ctx : handle KCtx) (publicKeys evalMultShares : list bytes) : G L bytes :=
  joining "" ctx publicKeys evalMultShares gret.

Definition EvalKeyRound2ParticipantWithContext (ctx : handle KCtx) (secretKeyShare evalMultJoined finalPublicKey : bytes) (lead : bool) : G L bytes :=
  round2_participant "" secretKeyShare evalMultJoined finalPublicKey lead ctx.

(** No check that there is a share; the final eval-sum key is deserialized as
    well, and the joint key is freed as soon as it is serialized. *)
Definition CombineEvalKeyRound2WithContext (ctx : handle KCtx) (finalPublicKey : bytes) (evalMultFinalShares : list bytes) (evalSumFinal : bytes) : G L EvalKeyFinal :=
  let^ finalPK := deserializePublicKey ctx finalPublicKey in
  defer^ cfree finalPK in
  let^ finalShares := collect (fun _ b => deserializeEvalMultKey ctx b) 0 evalMultFinalShares [] in
  defer^ cfree_all finalShares in
  let^ sumFinal := deserializeRotKey ctx evalSumFinal in
  defer^ cfree sumFinal in
  let^ _ := addr0 finalShares in
  let^ final := make_or "combine eval-mult final shares failed" "CombineEvalMultFinalShares"
    (cell ctx :: cell finalPK :: cells finalShares) [VInt (cint (zlen finalShares))] in
  gtry (serializeEvalMultKey final) (fun e => let^ _ := cfree final in gfail e) (fun finalBytes =>
    let^ _ := cfree final in gret (mkFinal finalBytes evalSumFinal)).

(** *** Generation by index *)

Definition StreamedEvalSumKeyGenLeadWithContext (ctx : handle KCtx) (secretKeyShare : bytes) : G L bytes :=
  let^ sk := deserializeSecretKeyShare ctx secretKeyShare true in
  defer^ cfree sk in
  let^ sum := make_or "streamed eval-sum lead key generation failed" "StreamedEvalSumKeyGenLead" [cell ctx; cell sk] [] in
  defer^ cfree sum in
  serializeRotKey sum.

Definition StreamedEvalSumKeyShareWithContext (ctx : handle KCtx) (secretKeyShare evalSumBase ownPublicKey : bytes) : G L bytes :=
  let^ sk := deserializeSecretKeyShare ctx secretKeyShare false in
  defer^ cfree sk in
  let^ sumBase := deserializeRotKey ctx evalSumBase in
  defer^ cfree sumBase in
  let^ ownPK := deserializePublicKey ctx ownPublicKey in
  defer^ cfree ownPK in
  let^ sumShare := make_or "streamed eval-sum share generation failed" "StreamedEvalSumKeyShare" [cell ctx; cell sk; cell sumBase; cell ownPK] [] in
  defer^ cfree sumShare in
  serializeRotKey sumShare.

(** The function is asked for the count, then for the indices, and may change
    the count. *)
Definition MinimalRotationIndicesWithContext (ctx : handle KCtx) : G L (list Z) :=
  let^ r := call "GetMinimalRotationIndices" [cell ctx] [VNull] in
  if negb (rc r =? 0) then gfail "get minimal rotation index count failed" else
  let count := written r in
  if count <=? 0 then gret [] else
  let^ r := call "GetMinimalRotationIndices" [cell ctx] [VInt count] in
  if negb (rc r =? 0) then gfail "get minimal rotation indices failed" else
  filled_part (written r) count (tail (ints r)) 0.

Definition for_index (what : string) (index : Z) : string := what +:+ " generation failed for index " +:+ pretty index.

Definition GeneratePerIndexEvalSumKeyWithContext (ctx : handle KCtx) (secretKeyShare : bytes) (index : Z) : G L bytes :=
  let^ sk := deserializeSecretKeyShare ctx secretKeyShare true in
  defer^ cfree sk in
  let^ key := make_or (for_index "per-index eval-sum lead key" index) "GeneratePerIndexEvalSumKey" [cell ctx; cell sk] [VInt index] in
  defer^ cfree key in
  serializeRotKey key.

Definition GeneratePerIndexEvalSumKeysWithContext (ctx : handle KCtx) (secretKeyShare : bytes) : G L (list IndexedEvalSumKey) :=
  let^ indices := MinimalRotationIndicesWithContext ctx in
  each (fun _ index => let^ key := GeneratePerIndexEvalSumKeyWithContext ctx secretKeyShare index in gret (mkIndexed index key)) 0 indices.

Definition GeneratePerIndexEvalSumShareWithContext (ctx : handle KCtx) (secretKeyShare singleIndexBase ownPublicKey : bytes) (index : Z) : G L bytes :=
  let^ sk := deserializeSecretKeyShare ctx secretKeyShare false in
  defer^ cfree sk in
  let^ base := deserializeRotKey ctx singleIndexBase in
  defer^ cfree base in
  let^ ownPK := deserializePublicKey ctx ownPublicKey in
  defer^ cfree ownPK in
  let^ share := make_or (for_index "per-index eval-sum share" index) "GeneratePerIndexEvalSumShare" [cell ctx; cell sk; cell base; cell ownPK] [VInt index] in
  defer^ cfree share in
  serializeRotKey share.

Definition GeneratePerIndexEvalSumSharesWithContext (ctx : handle KCtx) (secretKeyShare : bytes) (baseKeys : list IndexedEvalSumKey) (ownPublicKey : bytes)
    : G L (list IndexedEvalSumKey) :=
  if zlen baseKeys =? 0 then gfail "per-index eval-sum base keys are required" else
  each (fun _ base =>
    let^ key := GeneratePerIndexEvalSumShareWithContext ctx secretKeyShare (ix_Key base) ownPublicKey (cint (ix_Index base)) in
    gret (mkIndexed (ix_Index base) key)) 0 baseKeys.
End keys.

(** ** Growing to a power of two *)

Lemma grow32_reaches n bs need :
  1 <= bs -> bs * 2 ^ Z.of_nat n < 2 ^ 32 -> need <= bs * 2 ^ Z.of_nat n -> exists b, grow32 (S n) bs need = Some b /\ need <= b < 2 ^ 32.
Proof.
  revert bs. induction n as [|n IH]; intros bs H1 Hlt Hle; cbn [grow32].
  - rewrite Z.mul_1_r in Hlt, Hle. replace (bs <? need) with false by lia. exists bs. split; [done|lia].
  - rewrite Nat2Z.inj_succ, (Z.pow_succ_r 2) in Hlt by lia. rewrite Nat2Z.inj_succ, (Z.pow_succ_r 2) in Hle by lia.
    assert (Hp : 0 < 2 ^ Z.of_nat n) by (apply Z.pow_pos_nonneg; lia).
    destruct (bs <? need) eqn:Hc; [|exists bs; split; [done|nia]].
    unfold wrap32u. rewrite Z.mod_small by nia. apply (IH (bs * 2)); nia.
Qed.

(** The loop ends for dimensions up to 2^31. *)
Lemma next_pow2_some need : 0 <= need <= 2 ^ 31 -> exists b, next_pow2 need = Some b /\ need <= b < 2 ^ 32.
Proof.
  intros Hn. unfold next_pow2, wrap32u. rewrite Z.mod_small by lia.
  destruct (grow32_reaches 31 1 need) as (b & Hb & Hr); [lia..|]. exists b. split; [|done]. clear -Hb.
  assert (Hmono : forall f g bs n c, grow32 f bs n = Some c -> grow32 (f + g) bs n = Some c).
  { intros f. induction f as [|f IH]; intros g bs n c; cbn; [done|]. destruct (bs <? n); [apply IH|done]. }
  apply (Hmono _ 2%nat) in Hb. exact Hb.
Qed.

(** Beyond, it never ends. *)
Lemma next_pow2_diverges need : 2 ^ 31 < need < 2 ^ 32 -> forall fuel, grow32 fuel 1 need = None.
Proof.
  intros Hn fuel.
  assert (Hz : forall f, grow32 f 0 need = None).
  { intros f. induction f as [|f IH]; cbn [grow32]; [done|]. replace (0 <? need) with true by lia. exact IH. }
  assert (Hp : forall k f, (k <= 31)%nat -> grow32 f (2 ^ (31 - Z.of_nat k)) need = None).
  { intros k. induction k as [|k IH]; intros [|f] Hk; try done; cbn [grow32].
    - replace (2 ^ (31 - Z.of_nat 0) <? need) with true by (cbn; lia). apply Hz.
    - assert (Hs : 2 ^ (31 - Z.of_nat k) = 2 ^ (31 - Z.of_nat (S k)) * 2) by (rewrite Z.mul_comm, <- Z.pow_succ_r by lia; f_equal; lia).
      assert (Hm : 2 ^ (31 - Z.of_nat k) <= 2 ^ 31) by (apply Z.pow_le_mono_r; lia).
      assert (Hpos : 0 < 2 ^ (31 - Z.of_nat (S k))) by (apply Z.pow_pos_nonneg; lia).
      replace (2 ^ (31 - Z.of_nat (S k)) <? need) with true by nia. unfold wrap32u. rewrite <- Hs, Z.mod_small by lia. apply IH. lia. }
  exact (Hp 31%nat fuel ltac:(lia)).
Qed.

(** Parameters whose loop ends. *)
Definition dims_ok (p : ContractParams) : Prop := ProfileDim p <= 2 ^ 31 /\ PayloadSlotCount p <= 2 ^ 31.

Lemma batch_size_some p : dims_ok p -> exists bs, batch_size p = Some bs.
Proof.
  intros [Hd Hs]. unfold batch_size. repeat case_match; try (by eexists); edestruct next_pow2_some as (b & -> & _); eauto; lia.
Qed.

(** ** Every operation frees what it allocates *)

Section balance.
Context {L : Type} `{CLib L} {HL : CLibLaws} {HS : SmallObjects}.
Implicit Types (hs : list (positive * kind)) (ctx : handle KCtx).

Notation one := (fun h => [cell h]).

Lemma create_spec params hs : dims_ok params -> spec (L := L) hs [] (createContractContext params) one anything.
Proof. intros Hd. unfold createContractContext. destruct (batch_size_some _ Hd) as [bs ->]. cgo_steps. Qed.

Lemma createBFV_spec params hs : spec (L := L) hs [] (createBFVContractContext params) one anything.
Proof. unfold createBFVContractContext. cgo_steps. Qed.

Lemma with_context_spec {A} create (k : handle KCtx -> G L A) own Q hs :
  (forall hs, spec hs [] create one anything) -> (forall ctx, spec (cell ctx :: hs) [] (k ctx) own Q) -> spec hs [] (with_context create k) own Q.
Proof. intros Hc Hk. apply (spec_scope hs create id anything); [apply Hc|]. intros ctx _. apply Hk. Qed.

Tactic Notation "unfolds" reference(f) := unfold f; cgo_steps.

Lemma serializePublicKey_spec pk hs : cell pk ∈ hs -> spec (L := L) hs [] (serializePublicKey pk) nothing filled.
Proof. intros Hp. unfolds serializePublicKey. Qed.
Lemma serializeSecretKeyShare_spec sk hs : cell sk ∈ hs -> spec (L := L) hs [] (serializeSecretKeyShare sk) nothing filled.
Proof. intros Hp. unfolds serializeSecretKeyShare. Qed.
Lemma serializeEvalMultKey_spec key hs : cell key ∈ hs -> spec (L := L) hs [] (serializeEvalMultKey key) nothing filled.
Proof. intros Hp. unfolds serializeEvalMultKey. Qed.
Lemma serializeRotKey_spec key hs : cell key ∈ hs -> spec (L := L) hs [] (serializeRotKey key) nothing filled.
Proof. intros Hp. unfolds serializeRotKey. Qed.
Lemma serializeCiphertext_spec ct hs : cell ct ∈ hs -> spec (L := L) hs [] (serializeCiphertext ct) nothing filled.
Proof. intros Hp. unfolds serializeCiphertext. Qed.

Lemma deserializePublicKey_spec ctx raw hs : cell ctx ∈ hs -> spec (L := L) hs [] (deserializePublicKey ctx raw) one anything.
Proof. intros Hp. unfolds deserializePublicKey. Qed.
Lemma deserializeCiphertext_spec ctx raw hs : cell ctx ∈ hs -> spec (L := L) hs [] (deserializeCiphertext ctx raw) one anything.
Proof. intros Hp. unfolds deserializeCiphertext. Qed.
Lemma deserializeSecretKeyShare_spec ctx raw lead hs : cell ctx ∈ hs -> spec (L := L) hs [] (deserializeSecretKeyShare ctx raw lead) one anything.
Proof. intros Hp. unfolds deserializeSecretKeyShare. Qed.
Lemma deserializeEvalMultKey_spec ctx raw hs : cell ctx ∈ hs -> spec (L := L) hs [] (deserializeEvalMultKey ctx raw) one anything.
Proof. intros Hp. unfolds deserializeEvalMultKey. Qed.
Lemma deserializeRotKey_spec ctx raw hs : cell ctx ∈ hs -> spec (L := L) hs [] (deserializeRotKey ctx raw) one anything.
Proof. intros Hp. unfolds deserializeRotKey. Qed.
End balance.

#[export] Hint Resolve create_spec createBFV_spec with_context_spec serializePublicKey_spec serializeSecretKeyShare_spec serializeEvalMultKey_spec
  serializeRotKey_spec serializeCiphertext_spec deserializePublicKey_spec deserializeCiphertext_spec deserializeSecretKeyShare_spec
  deserializeEvalMultKey_spec deserializeRotKey_spec : cgo.

Tactic Notation "unfolds" reference(f) := unfold f; cgo_steps.

Section balance_keys.
Context {L : Type} `{CLib L} {HL : CLibLaws} {HS : SmallObjects}.
Implicit Types (hs : list (positive * kind)) (ctx : handle KCtx).

Notation one := (fun h => [cell h]).
Notation counts xs := (fun l => length l = length xs).

Definition both_filled (x : bytes * bytes) : Prop := filled x.1 /\ filled x.2.
Definition share_filled (k : KeyShare) : Prop := filled (ks_PublicKey k) /\ filled (ks_SecretKeyShare k).

Lemma deserializePublicKeys_spec ctx raws hs : cell ctx ∈ hs -> spec (L := L) hs [] (deserializePublicKeys ctx raws) cells (counts raws).
Proof. intros Hc. apply (collect_owns _ anything hs 0 raws []). intros hs' i x Hs. apply Hs in Hc. cgo_steps. Qed.
Lemma deserializeEvalMultKeys_spec ctx raws hs : cell ctx ∈ hs -> spec (L := L) hs [] (deserializeEvalMultKeys ctx raws) cells (counts raws).
Proof. intros Hc. apply (collect_owns _ anything hs 0 raws []). intros hs' i x Hs. apply Hs in Hc. cgo_steps. Qed.
Lemma deserializeRotKeys_spec ctx raws hs : cell ctx ∈ hs -> spec (L := L) hs [] (deserializeRotKeys ctx raws) cells (counts raws).
Proof. intros Hc. apply (collect_owns _ anything hs 0 raws []). intros hs' i x Hs. apply Hs in Hc. cgo_steps. Qed.

#[local] Hint Resolve deserializePublicKeys_spec deserializeEvalMultKeys_spec deserializeRotKeys_spec : cgo.

Lemma keygen_first_spec tag ctx hs : cell ctx ∈ hs -> spec (L := L) hs [] (keygen_first tag ctx) nothing share_filled.
Proof. intros Hc. unfold keygen_first, keys_out. cgo_steps. Qed.

Lemma keygen_next_spec tag raw ctx hs : cell ctx ∈ hs -> spec (L := L) hs [] (keygen_next tag raw ctx) nothing share_filled.
Proof. intros Hc. unfold keygen_next, keys_out. cgo_steps. Qed.

Lemma start_fold_spec err seed hs : spec (L := L) hs [cell seed] (start_fold err seed) one anything.
Proof.
  unfold start_fold. eapply spec_bind_total; [apply call1_spec; subs|]. intros [o r] _. cbn [fst snd].
  eapply spec_perm; [apply Permutation_app_comm|]. apply spec_free_then. destruct o; cgo_steps.
Qed.

#[local] Hint Resolve start_fold_spec : cgo.

Lemma fold_share_spec err ctx accum (pk : G L (handle KPK)) share hs :
  cell ctx ∈ hs -> cell accum ∈ hs -> (forall hs', hs ⊆ hs' -> spec hs' [] pk one anything) ->
  (forall hs', hs ⊆ hs' -> spec hs' [] share one anything) -> balanced hs (fold_share err ctx accum pk share).
Proof.
  intros Hc Ha Hp Hs. unfold fold_share. eapply spec_bind; [by apply Hp|]. intros p _. eapply spec_try.
  - apply Hs. subs.
  - intros e. cgo_steps.
  - intros s _. cgo_steps.
Qed.

Lemma at_index_spec {A} (xs : list A) i hs : (i < length xs)%nat -> spec (L := L) hs [] (at_index xs i) nothing (fun x => xs !! i = Some x).
Proof. intros Hi. unfold at_index. destruct (lookup_lt_is_Some_2 xs i Hi) as [x Hx]. rewrite Hx. by apply (spec_ret hs x nothing). Qed.

Lemma fold_shares_spec {A} (load : nat -> A -> G L (handle KRot)) ctx accum pkBytes i shares hs :
  cell ctx ∈ hs -> cell accum ∈ hs -> (forall hs' i x, hs ⊆ hs' -> spec hs' [] (load i x) one anything) ->
  (i + length shares <= length pkBytes)%nat -> balanced hs (fold_shares load ctx accum pkBytes i shares).
Proof.
  intros Hc Ha Hl. revert i. induction shares as [|x shares IH]; intros i Hi; cbn [fold_shares]; [cgo_steps|].
  cbn in Hi. eapply spec_bind; [apply at_index_spec; lia|]. intros raw _. eapply spec_bind.
  { apply fold_share_spec; [done..| |]; intros hs' Hs; [apply deserializePublicKey_spec|apply Hl]; auto. }
  intros [] _. apply IH. lia.
Qed.

Lemma combineIncremental_spec ctx pkBytes shareBytes hs : cell ctx ∈ hs -> length pkBytes = length shareBytes -> shareBytes <> [] ->
  spec (L := L) hs [] (combineEvalSumIncremental ctx pkBytes shareBytes) nothing filled.
Proof.
  intros Hc Hl Hn. destruct shareBytes as [|lead shares]; [done|]. unfold combineEvalSumIncremental. cgo_steps.
  eapply spec_bind.
  { apply fold_shares_spec; [mem_in..| |cbn in Hl; lia]. intros hs' i y Hs. apply deserializeRotKey_spec, Hs. mem_in. }
  intros [] _. cgo_steps.
Qed.

Lemma resolved_spec what resolve ref hs : balanced hs (resolved (L := L) what resolve ref).
Proof. unfold resolved. destruct (resolve ref); cgo_steps. Qed.

#[local] Hint Resolve combineIncremental_spec resolved_spec : cgo.

Lemma combineLazy_spec ctx pkBytes shareRefs resolve hs : cell ctx ∈ hs ->
  spec (L := L) hs [] (combineEvalSumIncrementalLazy ctx pkBytes shareRefs resolve) nothing filled.
Proof.
  intros Hc. unfold combineEvalSumIncrementalLazy. destruct (negb _ || _) eqn:Hb; [cgo_steps|]. destruct resolve as [resolve|]; [|cgo_steps].
  destruct shareRefs as [|lead refs]; [lengths|]. cgo_steps. eapply spec_bind.
  { apply fold_shares_spec; [mem_in..| |lengths]. intros hs' i y Hs. assert (cell ctx ∈ hs') by (apply Hs; mem_in). cgo_steps. }
  intros [] _. cgo_steps.
Qed.

Lemma free_two_fail {A k1 k2} hs (l1 : list (handle k1)) (l2 : list (handle k2)) e own Q :
  spec hs (cells l1 ++ cells l2) (gbind (cfree_all l1) (fun _ => gbind (cfree_all l2) (fun _ => gfail (A := A) e))) own Q.
Proof.
  intros F s Hh Ho. destruct (free_cells l1 hs (cells l2) F s Hh Ho) as (s' & [] & He & Hf & _ & Hr).
  pose proof (spec_free_fail (A := A) hs l2 e own Q F s' Hh Hr) as Hg. unfold gbind at 1. rewrite He, <- Hf. exact Hg.
Qed.

Lemma deserialize_pairs_spec ctx pkBytes shareBytes pks shares hs : cell ctx ∈ hs -> (length shareBytes <= length pkBytes)%nat ->
  spec (L := L) hs (cells pks ++ cells shares) (deserialize_pairs ctx pkBytes shareBytes pks shares) (fun x => cells x.1 ++ cells x.2)
    (fun x => length x.1 = (length pks + length shareBytes)%nat /\ length x.2 = (length shares + length shareBytes)%nat).
Proof.
  intros Hc. revert pkBytes pks shares. induction shareBytes as [|raw shareBytes IH]; intros [|pkRaw pkBytes] pks shares Hl; cbn in Hl; try lia.
  1, 2: apply spec_ret_eq; [done|cbn; lia].
  cbn [deserialize_pairs]. eapply spec_try; [apply deserializePublicKey_spec; mem_in|intros e; apply free_two_fail|]. intros pk _.
  assert (Hp1 : cells (pks ++ [pk]) ++ cells shares ≡ₚ [cell pk] ++ cells pks ++ cells shares).
  { rewrite cells_app, <- app_assoc. apply Permutation_app_swap_app. }
  eapply spec_perm; [exact Hp1|]. eapply spec_try; [apply deserializeRotKey_spec; mem_in|intros e; apply free_two_fail|]. intros share _.
  eapply spec_perm; [|eapply spec_weaken; [apply (IH pkBytes (pks ++ [pk]) (shares ++ [share])); lia|done|]].
  - rewrite (cells_app shares), (Permutation_app_comm (cells shares)). apply Permutation_app_swap_app.
  - intros [a b]. rewrite !length_app. cbn. lia.
Qed.

Lemma combineAllAtOnce_spec ctx pkBytes shareBytes hs : cell ctx ∈ hs -> length pkBytes = length shareBytes -> shareBytes <> [] ->
  spec (L := L) hs [] (combineEvalSumAllAtOnce ctx pkBytes shareBytes) nothing filled.
Proof.
  intros Hc Hl Hn. unfold combineEvalSumAllAtOnce. eapply spec_bind.
  { apply (deserialize_pairs_spec ctx pkBytes shareBytes [] []); [done|lia]. }
  intros [pks shares] [Hp Hs]. cbn [fst snd] in *.
  apply (spec_defer hs (cells pks ++ cells shares) []).
  { intros hs' cs' F s Hh Ho. rewrite <- app_assoc in Ho. destruct (free_cells pks hs' _ F s Hh Ho) as (s1 & [] & He1 & Hf1 & _ & Hr1).
    destruct (free_cells shares hs' cs' F s1 Hh Hr1) as (s2 & [] & He2 & Hf2 & _ & Hr2). exists s2, tt. unfold gbind. rewrite He1, He2.
    split_and!; [done|congruence|done..]. }
  destruct shareBytes as [|x y]; [done|]. destruct pks; [done|]. destruct shares; [done|]. cgo_steps.
Qed.

(** *** The rounds *)

Lemma round1_lead_spec tag sk ctx hs : cell ctx ∈ hs -> spec (L := L) hs [] (round1_lead tag sk ctx) nothing both_filled.
Proof. intros Hc. unfolds round1_lead. Qed.

Lemma round1_participant_spec tag sk m s pk ctx hs : cell ctx ∈ hs -> spec (L := L) hs [] (round1_participant tag sk m s pk ctx) nothing both_filled.
Proof. intros Hc. unfolds round1_participant. Qed.

Lemma joining_spec {A} tag ctx pks ms (k : bytes -> G L A) own Q hs : cell ctx ∈ hs -> pks <> [] -> length pks = length ms ->
  (forall hs' b, hs ⊆ hs' -> filled b -> spec hs' [] (k b) own Q) -> spec hs [] (joining tag ctx pks ms k) own Q.
Proof.
  intros Hc Hp Hl Hk. destruct pks; [done|]. destruct ms; [done|]. unfolds joining.
Qed.

Lemma round2_participant_spec tag sk j pk lead ctx hs : cell ctx ∈ hs -> spec (L := L) hs [] (round2_participant tag sk j pk lead ctx) nothing filled.
Proof. intros Hc. unfolds round2_participant. Qed.

Lemma round2_combine_spec tag pk shares sum ctx hs : cell ctx ∈ hs -> shares <> [] -> balanced hs (round2_combine (L := L) tag pk shares sum ctx).
Proof. intros Hc Hs. destruct shares; [done|]. unfolds round2_combine. Qed.
End balance_keys.

#[export] Hint Resolve deserializePublicKeys_spec deserializeEvalMultKeys_spec deserializeRotKeys_spec keygen_first_spec keygen_next_spec
  start_fold_spec combineIncremental_spec resolved_spec combineLazy_spec combineAllAtOnce_spec round1_lead_spec round1_participant_spec
  round2_participant_spec round2_combine_spec : cgo.
End CgoKeys.
