(* ===== verification/CgoCombine.v ===== *)
(** * The encryption bindings: combining shares by index ([incremental_combine.go], [bonly_keygen.go])

    The eval-sum shares of the parties are folded one rotation index at a time,
    loaded through a resolver, with the shared halves of split shares cached.
    The objects a combination holds on to while it runs, the merged key and the
    cached halves, are state that outlives an error, so its steps return their
    errors as values. *)

From Stdlib Require Import ZifyBool.
From S2P Require Import Prelude Float64 HelperClient HelperServer CgoCore CgoKeys.
Import HelperClient HelperServer CgoCore CgoKeys.

#[local] Open Scope string_scope.
#[local] Open Scope list_scope.
#[local] Open Scope Z_scope.
#[local] Open Scope go_scope.
#[local] Open Scope cgo_scope.

Module CgoCombine.

Record IndexedEvalSumKeyRef := mkRef { rf_Index : Z; rf_Ref : string; rf_ARef : string; rf_BRef : string }.

(** ** Validation of the shares *)

(** The order of [range] over a map with integer keys. *)
Class IntRange := {
  range_ints : gset Z -> list Z;
  range_ints_perm : forall m, range_ints m ≡ₚ elements m
}.

Section validate.
Context `{IntRange} {V : Type} (valid : V -> bool) (invalid none : string).

Definition party_text (party : nat) : string := "eval-sum party " +:+ pretty (Z.of_nat party).

(** The shares of one party, keyed by their index. *)
Fixpoint key_shares (party : nat) (shares : list (Z * V)) (keyed : gmap Z V) : string + gmap Z V :=
  match shares with
  | [] => inr keyed
  | (index, v) :: shares =>
    if negb (valid v) then inl (party_text party +:+ " index " +:+ pretty index +:+ invalid)
    else match keyed !! index with
    | Some _ => inl (party_text party +:+ " duplicated index " +:+ pretty index)
    | None => key_shares party shares (<[index := v]> keyed)
    end
  end.

(** The index sets of a party and of the lead must agree. *)
Definition same_indices (party : nat) (keyed : gmap Z V) (required : gset Z) : option string :=
  if negb (msize keyed =? Z.of_nat (size required)) then
    Some (party_text party +:+ " submitted " +:+ pretty (msize keyed) +:+ " indices, want " +:+ pretty (Z.of_nat (size required)))
  else match List.find (fun i => bool_decide (keyed !! i = None)) (range_ints required) with
  | Some i => Some (party_text party +:+ " missing index " +:+ pretty i)
  | None => match List.find (fun i => bool_decide (i ∉ required)) (range_ints (dom keyed)) with
    | Some i => Some (party_text party +:+ " submitted unexpected index " +:+ pretty i)
    | None => None
    end
  end.

Fixpoint validate_parties (party : nat) (required : gset Z) (byParty : list (list (Z * V))) : string + list (gmap Z V) :=
  match byParty with
  | [] => inr []
  | shares :: byParty =>
    if zlen shares =? 0 then inl (party_text party +:+ none) else
    match key_shares party shares ∅ with
    | inl e => inl e
    | inr keyed =>
      let required := if (party =? 0)%nat then dom keyed else required in
      match (if (party =? 0)%nat then None else same_indices party keyed required) with
      | Some e => inl e
      | None => match validate_parties (S party) required byParty with inl e => inl e | inr rest => inr (keyed :: rest) end
      end
    end
  end.

Definition validate (byParty : list (list (Z * V))) : string + (list Z * list (gmap Z V)) :=
  match byParty with
  | [] => inl "at least one eval-sum party is required"
  | lead :: _ => match validate_parties 0 ∅ byParty with inl e => inl e | inr keyed => inr (lead.*1, keyed) end
  end.
End validate.

Definition validIndexedEvalSumKeyRef (ref : IndexedEvalSumKeyRef) : bool :=
  (negb (String.eqb (rf_Ref ref) "") && String.eqb (rf_ARef ref) "" && String.eqb (rf_BRef ref) "")
  || (String.eqb (rf_Ref ref) "" && negb (String.eqb (rf_ARef ref) "") && negb (String.eqb (rf_BRef ref) "")).

Definition validateIndexedEvalSumShares `{IntRange} (byParty : list (list IndexedEvalSumKey)) : string + (list Z * list (gmap Z bytes)) :=
  validate (fun key => negb (zlen key =? 0)) " has empty key" " submitted no per-index keys"
    (List.map (List.map (fun s => (ix_Index s, ix_Key s))) byParty).

Definition validateIndexedEvalSumShareRefs `{IntRange} (byParty : list (list IndexedEvalSumKeyRef)) : string + (list Z * list (gmap Z IndexedEvalSumKeyRef)) :=
  validate validIndexedEvalSumKeyRef " must contain either full ref or a/b refs" " submitted no per-index key refs"
    (List.map (List.map (fun s => (rf_Index s, s))) byParty).

(** The rotations a scorer needs. *)
Fixpoint doublings (fuel : nat) (s bound : Z) : option (list Z) :=
  match fuel with
  | O => None
  | S fuel => if s <? bound then cons s <$> doublings fuel (wrap64 (s * 2)) bound else Some []
  end.

(** After 64 rounds the counter is 0 and stays below the bound: the loop does
    not end. *)
Definition minimalRotationIndices (profileDim payloadSlots : Z) : option (list Z) :=
  up ← doublings 65 1 profileDim; down ← doublings 65 1 payloadSlots; Some (up ++ (Z.opp <$> down)).

(** ** Steps that return their errors *)

Section steps.
Context {L : Type} `{CLib L}.

(** The merged key and the cached halves. *)
Definition held : Type := option (handle KRot) * gmap string (handle KAVec).

Definition T (A : Type) : Type := held -> G L (held * (string + A)).

Definition tret {A} (a : A) : T A := fun c => gret (c, inr a).
Definition tfail {A} (e : string) : T A := fun c => gret (c, inl e).
Definition tlift {A} (m : G L A) : T A := fun c => gtry m (fun e => gret (c, inl e)) (fun a => gret (c, inr a)).
Definition ttry {A C} (m : T A) (k : string -> T C) (f : A -> T C) : T C := fun c =>
  gbind (m c) (fun x => match x.2 with inl e => k e x.1 | inr a => f a x.1 end).
Definition tbind {A C} (m : T A) (f : A -> T C) : T C := ttry m tfail f.
Definition twrap {A} (prefix : string) (m : T A) : T A := ttry m (fun e => tfail (prefix +:+ e)) tret.
Definition tfree {k} (h : handle k) : T unit := fun c => let^ _ := cfree h in gret (c, inr tt).
Definition tcall (name : string) (hs : list (positive * kind)) : T reply := fun c => let^ r := call name hs [] in gret (c, inr r).

Notation "'let!' x ':=' p 'in' k" := (tbind p (fun x => k)) (at level 200, x pattern, p at level 100, k at level 200).

(** ** Split shares *)

Definition serializeRotKeyBVectors (key : handle KRot) : G L bytes :=
  bytes_or "b-vector rotation-key serialization failed" "SerializeRotKeyBVectors" [cell key] [].
Definition serializeRotKeyAVectors (key : handle KRot) : G L bytes :=
  bytes_or "a-vector rotation-key serialization failed" "SerializeRotKeyAVectors" [cell key] [].

Definition reconstructRotKeyFromAB (ctx : handle KCtx) (a b : bytes) : G L (handle KRot) :=
  if (zlen a =? 0) || (zlen b =? 0) then gfail "both a-vectors and b-vectors are required" else
  let^ _ := addr0 a in
  let^ _ := addr0 b in
  new_or "b-only rotation-key reconstruction failed" "ReconstructRotKeyFromAB" [cell ctx] [VData a; VData b].

Definition deserializeAVectors (a : bytes) : G L (handle KAVec) :=
  if zlen a =? 0 then gfail "a-vectors are required" else
  let^ _ := addr0 a in new_or "a-vector deserialization failed" "DeserializeAVectors" [] [VData a].

Definition reconstructRotKeyFromAVectors (ctx : handle KCtx) (a : handle KAVec) (b : bytes) : G L (handle KRot) :=
  if zlen b =? 0 then gfail "b-vectors are required" else
  let^ _ := addr0 b in
  new_or "b-only rotation-key reconstruction from cached a failed" "ReconstructRotKeyFromAVectors" [cell ctx; cell a] [VData b].

Definition SplitRotShareAB (params : ContractParams) (fullShare : bytes) : G L (bytes * bytes) :=
  with_context (createContractContext params) (fun ctx =>
    let^ share := deserializeRotKey ctx fullShare in
    defer^ cfree share in
    let^ a := serializeRotKeyAVectors share in
    let^ b := serializeRotKeyBVectors share in
    gret (a, b)).

Definition ReconstructRotShareAB (params : ContractParams) (a b : bytes) : G L bytes :=
  with_context (createContractContext params) (fun ctx =>
    let^ share := reconstructRotKeyFromAB ctx a b in
    defer^ cfree share in
    serializeRotKey share).

(** ** Loading a share *)

Definition full_ref (ref : IndexedEvalSumKeyRef) : bool :=
  negb (String.eqb (rf_Ref ref) "") && String.eqb (rf_ARef ref) "" && String.eqb (rf_BRef ref) "".
Definition split_ref (ref : IndexedEvalSumKeyRef) : bool :=
  String.eqb (rf_Ref ref) "" && negb (String.eqb (rf_ARef ref) "") && negb (String.eqb (rf_BRef ref) "").

Definition load_full (ctx : handle KCtx) (resolve : Resolver) (ref : string) : G L (handle KRot) :=
  let^ raw := resolved "resolve full key ref: " resolve ref in
  gwrap "deserialize full key ref: " (deserializeRotKey ctx raw).

Definition resolveIndexedEvalSumKeyRef (ctx : handle KCtx) (ref : IndexedEvalSumKeyRef) (resolve : Resolver) : G L (handle KRot) :=
  if full_ref ref then load_full ctx resolve (rf_Ref ref)
  else if split_ref ref then
    let^ a := resolved "resolve a-vector ref: " resolve (rf_ARef ref) in
    let^ b := resolved "resolve b-vector ref: " resolve (rf_BRef ref) in
    reconstructRotKeyFromAB ctx a b
  else gfail "eval-sum ref must contain either full ref or a/b refs".

(** The shared half of [aref], from the cache or loaded into it, for [k]. *)
Definition cached (aref : string) (load : G L (handle KAVec)) (k : handle KAVec -> G L (handle KRot)) : T (handle KRot) := fun '(final, aCache) =>
  match aCache !! aref with
  | Some h => tlift (k h) (final, aCache)
  | None => gtry load (fun e => gret ((final, aCache), inl e)) (fun h => tlift (k h) (final, <[aref := h]> aCache))
  end.

Definition resolveKeyRefCached (ctx : handle KCtx) (resolve : Resolver) (ref : IndexedEvalSumKeyRef) : T (handle KRot) :=
  if full_ref ref then tlift (load_full ctx resolve (rf_Ref ref))
  else if split_ref ref then
    cached (rf_ARef ref)
      (let^ a := resolved "resolve a-vector ref: " resolve (rf_ARef ref) in gwrap "deserialize a-vectors: " (deserializeAVectors a))
      (fun h => let^ b := resolved "resolve b-vector ref: " resolve (rf_BRef ref) in reconstructRotKeyFromAVectors ctx h b)
  else tfail "eval-sum ref must contain either full ref or a/b refs".

(** ** Combining one index *)

Definition party_index (party : nat) (index : Z) : string := "party " +:+ pretty (Z.of_nat party) +:+ " index " +:+ pretty index.

Section one_index.
Context {V : Type} (verb : string) (load : V -> T (handle KRot)) (ctx : handle KCtx) (publicKeys : list bytes) (index : Z).

Definition fold_party (accum : handle KRot) (party : nat) (v : V) : T unit :=
  let! pk := twrap (numbered "deserialize public key party " party) (tlift (let^ raw := at_index publicKeys party in deserializePublicKey ctx raw)) in
  ttry (twrap (verb +:+ " eval-sum " +:+ party_index party index +:+ ": ") (load v))
    (fun e => let! _ := tfree pk in tfail e)
    (fun share =>
      let! r := tcall "EvalSumCombineFold" [cell ctx; cell accum; cell pk; cell share] in
      let! _ := tfree share in
      let! _ := tfree pk in
      if negb (rc r =? 0) then tfail ("eval-sum combine fold " +:+ party_index party index +:+ " failed") else tret tt).

Fixpoint fold_parties (accum : handle KRot) (party : nat) (vs : list V) : T unit :=
  match vs with
  | [] => tret tt
  | v :: vs => let! _ := fold_party accum party v in fold_parties accum (S party) vs
  end.

(** The accumulator of one index; an error of a party frees it. *)
Definition combine_index (vs : list V) : T (handle KRot) :=
  match vs with
  | [] => tlift (gfault IndexPanic)
  | lead :: vs =>
    let! seed := twrap (verb +:+ " lead eval-sum index " +:+ pretty index +:+ ": ") (load lead) in
    let! accum := tlift (start_fold ("eval-sum combine start index " +:+ pretty index +:+ " failed") seed) in
    ttry (fold_parties accum 1 vs) (fun e => let! _ := tfree accum in tfail e) (fun _ => tret accum)
  end.
End one_index.

(** [if final == nil { final = accum } else { merge; free accum }]. *)
Definition merge_final (index : Z) (accum : handle KRot) : T unit := fun '(final, aCache) =>
  match final with
  | None => gret ((Some accum, aCache), inr tt)
  | Some f =>
    let^ r := call "MergeEvalSumKeyMaps" [cell f; cell accum] [] in
    let^ _ := cfree accum in
    if negb (rc r =? 0) then gret ((final, aCache), inl ("merge eval-sum index " +:+ pretty index +:+ " failed"))
    else gret ((final, aCache), inr tt)
  end.

Definition insert_append (ctx : handle KCtx) (index : Z) (accum : handle KRot) : T unit :=
  let! r := tcall "InsertEvalSumKeyAppend" [cell ctx; cell accum] in
  let! _ := tfree accum in
  if negb (rc r =? 0) then tfail ("insert eval-sum index " +:+ pretty index +:+ " failed") else tret tt.

(** [for _, index := range indices]; [keyed party index] reads the maps. *)
Fixpoint over_indices {V} (verb : string) (load : V -> T (handle KRot)) (ctx : handle KCtx) (publicKeys : list bytes)
    (shares : Z -> list V) (store : Z -> handle KRot -> T unit) (indices : list Z) : T unit :=
  match indices with
  | [] => tret tt
  | index :: indices =>
    let! accum := combine_index verb load ctx publicKeys index (shares index) in
    let! _ := store index accum in
    over_indices verb load ctx publicKeys shares store indices
  end.

Definition serialize_final : T bytes := fun '(final, aCache) =>
  match final with
  | None => gret ((final, aCache), inl "no per-index eval-sum keys to combine")
  | Some f => tlift (serializeRotKey f) (final, aCache)
  end.

(** The deferred functions: the cached halves, then the merged key. *)
Definition release `{GoRange} {A} (m : T A) : G L A :=
  let^ (c, r) := m (None, ∅) in
  let^ _ := cfree_all (range_of c.2).*2 in
  let^ _ := cfree_opt c.1 in
  match r with inl e => gfail e | inr a => gret a end.

(** [keyedByParty[party][index]], the zero value when it is not there. *)
Definition shares_at {V} (zero : V) (keyedByParty : list (gmap Z V)) (index : Z) : list V := (fun m => default zero (m !! index)) <$> keyedByParty.

Definition no_ref : IndexedEvalSumKeyRef := mkRef 0 "" "" "".

Definition combineEvalSumPerIndex `{IntRange} `{GoRange} (ctx : handle KCtx) (publicKeys : list bytes) (byParty : list (list IndexedEvalSumKey)) : G L bytes :=
  match validateIndexedEvalSumShares byParty with
  | inl e => gfail e
  | inr (indices, keyedByParty) =>
    release (let! _ := over_indices "deserialize" (fun raw => tlift (deserializeRotKey ctx raw)) ctx publicKeys
               (shares_at [] keyedByParty) merge_final indices in serialize_final)
  end.

Definition combineEvalSumPerIndexLazy `{IntRange} `{GoRange} (ctx : handle KCtx) (publicKeys : list bytes) (byParty : list (list IndexedEvalSumKeyRef))
    (resolve : Resolver) : G L bytes :=
  match validateIndexedEvalSumShareRefs byParty with
  | inl e => gfail e
  | inr (indices, keyedByParty) =>
    release (let! _ := over_indices "load" (resolveKeyRefCached ctx resolve) ctx publicKeys
               (shares_at no_ref keyedByParty) merge_final indices in serialize_final)
  end.

Definition insertEvalSumPerIndexLazy `{IntRange} `{GoRange} (ctx : handle KCtx) (publicKeys : list bytes) (byParty : list (list IndexedEvalSumKeyRef))
    (resolve : option Resolver) : G L unit :=
  match validateIndexedEvalSumShareRefs byParty with
  | inl e => gfail e
  | inr (indices, keyedByParty) =>
    if negb (zlen publicKeys =? zlen keyedByParty) then gfail "public key count must match eval-sum party count" else
    match resolve with
    | None => gfail "eval-sum key resolver is required"
    | Some resolve =>
      let^ _ := check_or "clear eval-sum key cache failed" "ClearEvalSumKeysForContext" [cell ctx] [] in
      release (over_indices "load" (resolveKeyRefCached ctx resolve) ctx publicKeys (shares_at no_ref keyedByParty) (insert_append ctx) indices)
    end
  end.

Definition InsertEvalSumKeysPerIndexLazyWithContext `{IntRange} `{GoRange} (ctx : CryptoContext) (publicKeys : list bytes)
    (byParty : list (list IndexedEvalSumKeyRef)) (resolve : option Resolver) : G L unit :=
  match ctx with
  | None => gfail "crypto context is required"
  | Some ctx => insertEvalSumPerIndexLazy ctx publicKeys byParty resolve
  end.
End steps.

(** ** The calls *)

Section calls.
Context {L : Type} `{CLib L} `{IntRange} `{GoRange}.

Definition counts_text : string := "public/eval-mult/eval-sum party counts must match and be non-empty".

Definition combineEvalKeyRound1PerIndex (ctx : handle KCtx) (publicKeys evalMultShares : list bytes) (evalSumSharesByParty : list (list IndexedEvalSumKey))
    : G L (bytes * bytes) :=
  if counts_differ publicKeys evalMultShares evalSumSharesByParty then gfail counts_text else
  joining "" ctx publicKeys evalMultShares (fun joinedBytes =>
    let^ sumFinalBytes := combineEvalSumPerIndex ctx publicKeys evalSumSharesByParty in gret (joinedBytes, sumFinalBytes)).

Definition combineEvalKeyRound1PerIndexLazy (ctx : handle KCtx) (publicKeys evalMultShares : list bytes)
    (evalSumShareRefsByParty : list (list IndexedEvalSumKeyRef)) (resolve : Resolver) : G L (bytes * bytes) :=
  if counts_differ publicKeys evalMultShares evalSumShareRefsByParty then gfail counts_text else
  joining "" ctx publicKeys evalMultShares (fun joinedBytes =>
    let^ sumFinalBytes := combineEvalSumPerIndexLazy ctx publicKeys evalSumShareRefsByParty resolve in gret (joinedBytes, sumFinalBytes)).

Definition CombineEvalKeyRound1PerIndexWithContext (ctx : handle KCtx) (publicKeys evalMultShares : list bytes)
    (evalSumSharesByParty : list (list IndexedEvalSumKey)) : G L (bytes * bytes) :=
  combineEvalKeyRound1PerIndex ctx publicKeys evalMultShares evalSumSharesByParty.

Definition CombineEvalKeyRound1PerIndexLazy (params : ContractParams) (publicKeys evalMultShares : list bytes)
    (evalSumShareRefsByParty : list (list IndexedEvalSumKeyRef)) (resolve : option Resolver) : G L (bytes * bytes) :=
  if counts_differ publicKeys evalMultShares evalSumShareRefsByParty then gfail counts_text else
  match resolve with
  | None => gfail "eval-sum key resolver is required"
  | Some resolve => with_context (createContractContext params) (fun ctx =>
      combineEvalKeyRound1PerIndexLazy ctx publicKeys evalMultShares evalSumShareRefsByParty resolve)
  end.

Definition BFVCombineEvalKeyRound1PerIndexLazy (params : BFVContractParams) (publicKeys evalMultShares : list bytes)
    (evalSumShareRefsByParty : list (list IndexedEvalSumKeyRef)) (resolve : option Resolver) : G L (bytes * bytes) :=
  if counts_differ publicKeys evalMultShares evalSumShareRefsByParty then gfail counts_text else
  match resolve with
  | None => gfail "eval-sum key resolver is required"
  | Some resolve => with_context (createBFVContractContext params) (fun ctx =>
      combineEvalKeyRound1PerIndexLazy ctx publicKeys evalMultShares evalSumShareRefsByParty resolve)
  end.

(** *** A fold that outlives its calls *)

Record EvalSumIncrementalFold := mkFold { f_ctx : handle KCtx; f_accum : handle KRot; ownsCtx : bool }.

Definition NewEvalSumIncrementalFold (params : ContractParams) (leadBase : bytes) : G L EvalSumIncrementalFold :=
  let^ ctx := createContractContext params in
  gtry (deserializeRotKey ctx leadBase) (fun e => let^ _ := cfree ctx in gfail e) (fun seed =>
  gtry (start_fold "eval-sum combine start failed" seed) (fun e => let^ _ := cfree ctx in gfail e) (fun accum =>
  gret (mkFold ctx accum true))).

Definition NewEvalSumIncrementalFoldWithContext (ctx : handle KCtx) (leadBase : bytes) : G L EvalSumIncrementalFold :=
  let^ seed := deserializeRotKey ctx leadBase in
  let^ accum := start_fold "eval-sum combine start failed" seed in
  gret (mkFold ctx accum false).

Definition Fold (f : EvalSumIncrementalFold) (publicKey evalSumShare : bytes) : G L unit :=
  fold_share "eval-sum combine fold failed" (f_ctx f) (f_accum f) (deserializePublicKey (f_ctx f) publicKey) (deserializeRotKey (f_ctx f) evalSumShare).

Definition Finalize (f : EvalSumIncrementalFold) : G L bytes :=
  if ownsCtx f then defer^ cfree (f_ctx f) in defer^ cfree (f_accum f) in serializeRotKey (f_accum f)
  else defer^ cfree (f_accum f) in serializeRotKey (f_accum f).

(** ** Checks and measurements *)

(** Keys of one party, with what follows while they are allocated. *)
Definition with_keys {A} (keys : G L (handle KPK * handle KSK)) (k : handle KPK -> handle KSK -> G L A) : G L A :=
  let^ (pk, sk) := keys in
  defer^ cfree pk in
  defer^ cfree sk in
  k pk sk.

Definition first_keys (ctx : handle KCtx) : G L (handle KPK * handle KSK) := make2_or "keygen first failed" "KeyGenFirst" [cell ctx] [].
Definition next_keys (err : string) (ctx : handle KCtx) (prev : handle KPK) : G L (handle KPK * handle KSK) :=
  make2_or err "KeyGenNext" [cell ctx; cell prev] [].

Definition lead_sum (ctx : handle KCtx) (sk : handle KSK) : G L (handle KRot) := make_or "eval-sum lead failed" "EvalSumKeyGenLead" [cell ctx; cell sk] [].
Definition share_sum (err : string) (ctx : handle KCtx) (sk : handle KSK) (base : handle KRot) (pk : handle KPK) : G L (handle KRot) :=
  make_or err "EvalSumKeyShare" [cell ctx; cell sk; cell base; cell pk] [].

(** The two joint keys: all at once, and incrementally. *)
Definition runIncrementalCombineCheck (params : ContractParams) : G L (bytes * bytes) :=
  with_context (createContractContext params) (fun ctx =>
    with_keys (first_keys ctx) (fun pk0 sk0 =>
    with_keys (next_keys "keygen next 1 failed" ctx pk0) (fun pk1 sk1 =>
    with_keys (next_keys "keygen next 2 failed" ctx pk1) (fun pk2 sk2 =>
    let^ base := lead_sum ctx sk0 in
    defer^ cfree base in
    let^ s1 := share_sum "eval-sum share 1 failed" ctx sk1 base pk1 in
    defer^ cfree s1 in
    let^ s2 := share_sum "eval-sum share 2 failed" ctx sk2 base pk2 in
    defer^ cfree s2 in
    let^ baseBytes := serializeRotKey base in
    let^ s1Bytes := serializeRotKey s1 in
    let^ s2Bytes := serializeRotKey s2 in
    let^ pk0Bytes := serializePublicKey pk0 in
    let^ pk1Bytes := serializePublicKey pk1 in
    let^ pk2Bytes := serializePublicKey pk2 in
    let pkB := [pk0Bytes; pk1Bytes; pk2Bytes] in
    let shB := [baseBytes; s1Bytes; s2Bytes] in
    let^ allAtOnce := combineEvalSumAllAtOnce ctx pkB shB in
    let^ incremental := combineEvalSumIncremental ctx pkB shB in
    gret (allAtOnce, incremental))))).

(** Two parties, the second against the first. *)
Definition with_two_parties {A} (params : ContractParams) (k : handle KCtx -> handle KSK -> handle KPK -> handle KSK -> G L A) : G L A :=
  with_context (createContractContext params) (fun ctx =>
    with_keys (first_keys ctx) (fun pk0 sk0 =>
    with_keys (next_keys "keygen next failed" ctx pk0) (fun pk1 sk1 => k ctx sk0 pk1 sk1))).

Record bOnlyRotResult := mkBOnly { bo_full : bytes; aBase : bytes; aShare : bytes; bShare : bytes; reconA : bytes; reconB : bytes }.

Definition runBOnlyRotReconstruction (params : ContractParams) : G L bOnlyRotResult :=
  with_two_parties params (fun ctx sk0 pk1 sk1 =>
    let^ base := lead_sum ctx sk0 in
    defer^ cfree base in
    let^ share := share_sum "eval-sum share failed" ctx sk1 base pk1 in
    defer^ cfree share in
    let^ full := serializeRotKey share in
    let^ aBase := serializeRotKeyAVectors base in
    let^ aShare := serializeRotKeyAVectors share in
    let^ bShare := serializeRotKeyBVectors share in
    let^ recon := reconstructRotKeyFromAB ctx aBase bShare in
    defer^ cfree recon in
    let^ reconA := serializeRotKeyAVectors recon in
    let^ reconB := serializeRotKeyBVectors recon in
    gret (mkBOnly full aBase aShare bShare reconA reconB)).

Definition benchRotShareGen (params : ContractParams) (streamed : bool) : G L Z :=
  with_two_parties params (fun ctx sk0 pk1 sk1 =>
    let^ base := lead_sum ctx sk0 in
    defer^ cfree base in
    if streamed then
      let^ r := call "StreamedRotShareBytes" [cell ctx; cell sk1; cell base; cell pk1] [] in
      if negb (rc r =? 0) then gfail "streamed rot share failed" else gret (written r)
    else
      let^ share := share_sum "eval-sum share failed" ctx sk1 base pk1 in
      defer^ cfree share in
      let^ (data, r) := call1 KMem "SerializeRotKey" [cell share] [] in
      if negb (rc r =? 0) then gfail "serialize rot share failed" else
      let^ _ := cfree_opt data in gret (zlen (mem r))).

Definition benchStreamedFullRot (params : ContractParams) : G L Z :=
  with_two_parties params (fun ctx sk0 pk1 sk1 =>
    let^ r := call "StreamedTwoPartyRotKeygenBytes" [cell ctx; cell sk0; cell sk1; cell pk1] [] in
    if negb (rc r =? 0) then gfail "streamed two-party rot keygen failed" else gret (written r)).

Definition benchBOnlyRotShare (params : ContractParams) : G L (Z * Z * bool) :=
  with_two_parties params (fun ctx sk0 pk1 sk1 =>
    let^ r := call "MeasureBOnlyRotShare" [cell ctx; cell sk0; cell sk1; cell pk1] [] in
    if negb (rc r =? 0) then gfail ("measure b-only failed rc=" +:+ pretty (rc r))
    else gret (default 0 (ints r !! 0%nat), default 0 (ints r !! 1%nat), default 0 (ints r !! 2%nat) =? 1)).

(** The time it takes is not modelled. *)
Definition benchResidentCombineRound1 (params : ContractParams) (pubKeys multShares sumShares : list bytes) : G L unit :=
  with_context (createContractContext params) (fun ctx =>
    let^ pks := deserializePublicKeys ctx pubKeys in
    defer^ cfree_all pks in
    let^ multH := deserializeEvalMultKeys ctx multShares in
    defer^ cfree_all multH in
    let^ sumH := deserializeRotKeys ctx sumShares in
    defer^ cfree_all sumH in
    let^ _ := addr0 pks in
    let^ _ := addr0 multH in
    let^ joined := make_or (k := KMult) "resident eval-mult combine failed" "CombineEvalMultSwitchShares" (cell ctx :: cells pks ++ cells multH) [VInt (cint (zlen multH))] in
    defer^ cfree joined in
    let^ _ := addr0 sumH in
    let^ sumFinal := make_or (k := KRot) "resident eval-sum combine failed" "CombineEvalSumKeys" (cell ctx :: cells pks ++ cells sumH) [VInt (cint (zlen sumH))] in
    defer^ cfree sumFinal in
    gret tt).
End calls.

(** ** Ownership of the steps *)

Section step_logic.
Context {L : Type} `{CLib L} {HL : CLibLaws} {HS : SmallObjects}.
Implicit Types (hs cs : list (positive * kind)) (c : held).

Notation one := (fun h => [cell h]).

Definition held_cells c : list (positive * kind) := option_list (cell <$> c.1) ++ cells (map_to_list c.2).*2.

Definition kept {A} (own : A -> list (positive * kind)) (x : held * (string + A)) : list (positive * kind) :=
  match x.2 with inl _ => [] | inr a => own a end ++ held_cells x.1.
Definition ok {A} (Q : A -> Prop) (x : held * (string + A)) : Prop := match x.2 with inl _ => True | inr a => Q a end.

(** A step uses [hs] and consumes [cs]; what is held stays held, more may be
    held afterwards, and it never faults. *)
Definition tspec {A} hs cs (m : T (L := L) A) (own : A -> list (positive * kind)) (Q : A -> Prop) : Prop := forall c,
  spec_total hs (cs ++ held_cells c) (m c) (kept own) (ok Q).

Lemma total_perm {A} hs cs cs' (m : G L A) own Q : cs ≡ₚ cs' -> spec_total hs cs m own Q -> spec_total hs cs' m own Q.
Proof. intros Hp Hm F s Hh Ho. apply Hm; [done|]. by eapply holds_perm; [symmetry|]. Qed.

Lemma total_seq {A C} hs cs (m : G L A) own1 Q1 (f : A -> G L C) own Q :
  spec_total hs cs m own1 Q1 -> (forall x, Q1 x -> spec_total hs (own1 x) (f x) own Q) -> spec_total hs cs (gbind m f) own Q.
Proof.
  intros Hm Hf F s Hh Ho. destruct (Hm F s Hh Ho) as (s1 & x & He & Hf1 & HQ & Hr). unfold gbind. rewrite He.
  destruct (Hf x HQ F s1 Hh Hr) as (s2 & y & He2 & Hf2 & HQ2 & Hr2). exists s2, y. split_and!; [done|congruence|done..].
Qed.

(** Objects that a step neither uses up nor hands out. *)
Lemma total_frame {A} hs cs fr (m : G L A) own Q :
  spec_total (fr ++ hs) cs m own Q -> spec_total hs (cs ++ fr) m (fun x => own x ++ fr) Q.
Proof.
  intros Hm F s Hh Ho. pose proof (holds_lend F cs fr s Ho) as (Hl & Hn & Ha).
  destruct (Hm _ s (has_lent _ _ _ Hn Ha Hh) Hl) as (s1 & x & He & Hf1 & HQ & Hr). exists s1, x. split_and!; [done..|].
  by apply holds_return.
Qed.

Lemma tspec_perm {A} hs cs cs' (m : T A) own Q : cs ≡ₚ cs' -> tspec hs cs m own Q -> tspec hs cs' m own Q.
Proof. intros Hp Hm c. eapply total_perm; [|apply Hm]. by rewrite Hp. Qed.

Lemma tspec_sub {A} hs hs' cs (m : T A) own Q : hs' ⊆ hs -> tspec hs' cs m own Q -> tspec hs cs m own Q.
Proof. intros Hs Hm c. by eapply total_weaken; [apply Hm|..]. Qed.

Lemma tspec_ret {A} hs cs (a : A) own (Q : A -> Prop) : cs = own a -> Q a -> tspec hs cs (tret a) own Q.
Proof. intros -> HQ c. by apply (total_ret hs (c, inr a) (kept own) (ok Q)). Qed.

Lemma tspec_fail {A} hs e (own : A -> list (positive * kind)) Q : tspec hs [] (tfail e) own Q.
Proof. intros c. by apply (total_ret hs (c, inl e) (kept own) (ok Q)). Qed.

Lemma total_try {A C} hs cs (m : G L A) own1 Q1 (k : string -> G L C) f own Q :
  spec (cs ++ hs) [] m own1 Q1 -> (forall e, spec_total hs cs (k e) own Q) -> (forall x, Q1 x -> spec_total hs (own1 x ++ cs) (f x) own Q) ->
  spec_total hs cs (gtry m k f) own Q.
Proof.
  intros Hm Hk Hf F s Hh Ho. pose proof (holds_lend F [] cs s Ho) as (Hl & Hn & Ha). unfold gtry.
  specialize (Hm _ s (has_lent _ _ _ Hn Ha Hh) Hl). destruct (m s) as [s1 [e|x]]; destruct Hm as [Hf1 Hr].
  - destruct (Hk e F s1 Hh (holds_return F [] cs s1 Hn Ha Hr)) as (s2 & y & He & Hf2 & HQ & Hr2). exists s2, y. split_and!; [done|congruence|done..].
  - destruct Hr as [HQ1 Hr]. destruct (Hf x HQ1 F s1 Hh (holds_return F _ cs s1 Hn Ha Hr)) as (s2 & y & He & Hf2 & HQ & Hr2).
    exists s2, y. split_and!; [done|congruence|done..].
Qed.

(** A lifted call may use what is held. *)
Lemma lift_held {A} hs cs (m : G L A) own Q c : spec (held_cells c ++ hs) cs m own Q -> spec_total hs (cs ++ held_cells c) (tlift m c) (kept own) (ok Q).
Proof.
  intros Hm F s Hh Ho. pose proof (holds_lend F cs (held_cells c) s Ho) as (Hl & Hn & Ha). unfold tlift, gtry.
  specialize (Hm _ s (has_lent _ _ _ Hn Ha Hh) Hl).
  destruct (m s) as [s1 [e|x]]; destruct Hm as [Hf1 Hr]; eexists s1, _; split_and!; try done; [|by apply Hr|];
    apply holds_return; done || apply Hr.
Qed.

Lemma tspec_lift {A} hs cs (m : G L A) own Q : spec hs cs m own Q -> tspec hs cs (tlift m) own Q.
Proof. intros Hm c. apply lift_held. eapply spec_weaken; [exact Hm|apply sub_right, reflexivity|done]. Qed.

Lemma tspec_try {A C} hs cs (m : T A) own1 Q1 (k : string -> T C) f own Q :
  tspec (cs ++ hs) [] m own1 Q1 -> (forall e, tspec hs cs (k e) own Q) -> (forall x, Q1 x -> tspec hs (own1 x ++ cs) (f x) own Q) ->
  tspec hs cs (ttry m k f) own Q.
Proof.
  intros Hm Hk Hf c. eapply total_seq; [eapply total_perm; [apply Permutation_app_comm|apply (total_frame hs (held_cells c) cs), Hm]|].
  intros [c' [e|x]] Hq; unfold kept; cbn [fst snd] in *; (eapply total_perm; [|first [apply Hk|by apply Hf]]).
  - by rewrite Permutation_app_comm.
  - rewrite <- !app_assoc. f_equiv. apply Permutation_app_comm.
Qed.

Lemma tspec_bind {A C} hs cs (m : T A) own1 Q1 (f : A -> T C) own Q :
  tspec hs cs m own1 Q1 -> (forall x, Q1 x -> tspec hs (own1 x) (f x) own Q) -> tspec hs cs (tbind m f) own Q.
Proof.
  intros Hm Hf c. eapply total_seq; [apply Hm|]. intros [c' [e|x]] Hq; cbn [fst snd]; [apply (tspec_fail hs e own Q)|by apply Hf].
Qed.

Lemma tspec_wrap {A} hs cs (m : T A) own Q prefix : tspec hs cs m own Q -> tspec hs cs (twrap prefix m) own Q.
Proof.
  intros Hm c. eapply total_seq; [apply Hm|]. intros [c' [e|x]] Hq; cbn [fst snd]; [apply (tspec_fail hs _ own Q)|by apply (tspec_ret hs (own x))].
Qed.

Lemma tspec_free {A k} hs (h : handle k) cs (m : T A) own Q :
  tspec hs cs m own Q -> tspec hs (cell h :: cs) (tbind (tfree h) (fun _ => m)) own Q.
Proof.
  intros Hm c F s Hh Ho. destruct (free_cell h hs (cs ++ held_cells c) F s Hh Ho) as (s1 & [] & He & Hf1 & _ & Hr).
  destruct (Hm c F s1 Hh Hr) as (s2 & y & He2 & Hf2 & HQ2 & Hr2). exists s2, y.
  unfold tbind, ttry, tfree, gbind, gret. rewrite He. cbn [fst snd]. split_and!; [done|congruence|done..].
Qed.

Lemma tspec_call {A} hs cs name hc (f : reply -> T A) own Q :
  hc ⊆ cs ++ hs -> (forall r, tspec hs cs (f r) own Q) -> tspec hs cs (tbind (tcall name hc) f) own Q.
Proof.
  intros Hs Hf c F s Hh Ho.
  destruct (total_frame hs [] (cs ++ held_cells c) (call name hc []) nothing (fun _ => True)) with (F := F) (s := s) as (s1 & r & He & Hf1 & _ & Hr);
    [|done..|].
  { eapply total_weaken; [apply (call_spec name hc [] (cs ++ hs)), Hs| |done]. set_solver. }
  destruct (Hf r c F s1 Hh Hr) as (s2 & y & He2 & Hf2 & HQ2 & Hr2). exists s2, y.
  unfold tbind, ttry, tcall, gbind, gret. rewrite He. cbn [fst snd]. split_and!; [done|congruence|done..].
Qed.
End step_logic.

(** ** Every combination frees what it allocates *)

Section balance.
Context {L : Type} `{CLib L} {HL : CLibLaws} {HS : SmallObjects}.
Implicit Types (hs : list (positive * kind)) (ctx : handle KCtx).

Notation one := (fun h => [cell h]).

Lemma serializeB_spec key hs : cell key ∈ hs -> spec (L := L) hs [] (serializeRotKeyBVectors key) nothing filled.
Proof. intros Hp. unfolds serializeRotKeyBVectors. Qed.
Lemma serializeA_spec key hs : cell key ∈ hs -> spec (L := L) hs [] (serializeRotKeyAVectors key) nothing filled.
Proof. intros Hp. unfolds serializeRotKeyAVectors. Qed.
Lemma reconstructAB_spec ctx a b hs : cell ctx ∈ hs -> spec (L := L) hs [] (reconstructRotKeyFromAB ctx a b) one anything.
Proof. intros Hp. unfolds reconstructRotKeyFromAB. Qed.
Lemma deserializeA_spec a hs : spec (L := L) hs [] (deserializeAVectors a) one anything.
Proof. unfolds deserializeAVectors. Qed.
Lemma reconstructA_spec ctx a b hs : cell ctx ∈ hs -> cell a ∈ hs -> spec (L := L) hs [] (reconstructRotKeyFromAVectors ctx a b) one anything.
Proof. intros Hp Ha. unfolds reconstructRotKeyFromAVectors. Qed.
Lemma load_full_spec ctx resolve ref hs : cell ctx ∈ hs -> spec (L := L) hs [] (load_full ctx resolve ref) one anything.
Proof. intros Hp. unfolds load_full. Qed.

Lemma held_insert final (aCache : gmap string (handle KAVec)) aref h : aCache !! aref = None ->
  [cell h] ++ held_cells (final, aCache) ≡ₚ held_cells (final, <[aref := h]> aCache).
Proof.
  intros Hn. unfold held_cells, cells. cbn [fst snd]. rewrite (map_to_list_insert aCache aref h Hn). cbn.
  apply Permutation_middle.
Qed.

Lemma held_cached final (aCache : gmap string (handle KAVec)) aref h : aCache !! aref = Some h -> cell h ∈ held_cells (final, aCache).
Proof.
  intros Hs. apply elem_of_app. right. apply list_elem_of_fmap. exists h. split; [done|]. apply list_elem_of_fmap. exists (aref, h).
  split; [done|]. by apply elem_of_map_to_list.
Qed.

Lemma cached_spec aref (load : G L (handle KAVec)) k hs :
  (forall hs', hs ⊆ hs' -> spec hs' [] load one anything) -> (forall hs' h, hs ⊆ hs' -> cell h ∈ hs' -> spec hs' [] (k h) one anything) ->
  tspec hs [] (cached aref load k) one anything.
Proof.
  intros Hl Hk [final aCache]. unfold cached. cbn [app]. destruct (aCache !! aref) as [h|] eqn:Hc.
  - apply (lift_held hs []), Hk; [subs|]. apply elem_of_app. left. by eapply held_cached.
  - eapply total_try; [apply Hl; subs| |].
    + intros e. by apply (total_ret hs ((final, aCache), inl e) (kept one) (ok anything)).
    + intros h _. eapply total_perm; [symmetry; by apply held_insert|]. apply (lift_held hs []), Hk; [subs|].
      apply elem_of_app. left. eapply held_cached. apply lookup_insert_eq.
Qed.

Lemma resolveCached_spec ctx resolve ref hs : cell ctx ∈ hs -> tspec (L := L) hs [] (resolveKeyRefCached ctx resolve ref) one anything.
Proof.
  intros Hc. unfold resolveKeyRefCached. destruct (full_ref ref); [by apply tspec_lift, load_full_spec|]. destruct (split_ref ref); [|apply tspec_fail].
  apply cached_spec.
  - intros hs' Hs. cgo_steps. apply deserializeA_spec.
  - intros hs' h Hs Hh. cgo_steps. apply reconstructA_spec; [by apply Hs|done].
Qed.

Section one_index.
Context {V : Type} (verb : string) (load : V -> T (L := L) (handle KRot)) (ctx : handle KCtx) (publicKeys : list bytes) (index : Z).
Context (hs : list (positive * kind)) (Hctx : cell ctx ∈ hs) (Hload : forall hs' v, hs ⊆ hs' -> tspec hs' [] (load v) one anything).

Lemma fold_party_spec accum party v hs' : hs ⊆ hs' -> cell accum ∈ hs' -> (party < length publicKeys)%nat ->
  tspec hs' [] (fold_party verb load ctx publicKeys index accum party v) nothing anything.
Proof.
  intros Hs Ha Hp. assert (Hc : cell ctx ∈ hs') by auto. unfold fold_party. eapply tspec_bind.
  { apply tspec_wrap, tspec_lift. eapply spec_bind; [by apply at_index_spec|]. intros raw _. unfold nothing. by apply deserializePublicKey_spec. }
  intros pk _. eapply tspec_try; [apply tspec_wrap, Hload; subs|intros e; apply tspec_free, tspec_fail|].
  intros share _. cbn [app]. apply tspec_call; [subs|]. intros r. apply tspec_free, tspec_free. case_match; [apply tspec_fail|by apply tspec_ret].
Qed.

Lemma fold_parties_spec accum party vs hs' : hs ⊆ hs' -> cell accum ∈ hs' -> (party + length vs <= length publicKeys)%nat ->
  tspec hs' [] (fold_parties verb load ctx publicKeys index accum party vs) nothing anything.
Proof.
  intros Hs Ha. revert party. induction vs as [|v vs IH]; intros party Hp; cbn [fold_parties]; [by apply tspec_ret|]. cbn in Hp.
  eapply tspec_bind; [apply fold_party_spec; [done..|lia]|]. intros [] _. apply IH. lia.
Qed.

Lemma combine_index_spec vs : vs <> [] -> (length vs <= length publicKeys)%nat ->
  tspec hs [] (combine_index verb load ctx publicKeys index vs) one anything.
Proof.
  intros Hn Hl. destruct vs as [|lead vs]; [done|]. cbn [combine_index]. eapply tspec_bind; [by apply tspec_wrap, Hload|]. intros seed _.
  eapply tspec_bind; [apply tspec_lift, start_fold_spec|]. intros accum _.
  eapply tspec_try; [apply fold_parties_spec; [subs|mem_in|done]|intros e; apply tspec_free, tspec_fail|]. intros [] _. by apply tspec_ret.
Qed.
End one_index.

Lemma merge_final_spec index accum hs : tspec (L := L) hs [cell accum] (merge_final index accum) nothing anything.
Proof.
  intros [[f|] aCache]; unfold merge_final.
  - eapply total_bind; [apply call_spec; subs|]. intros r _. cbn [app nothing].
    eapply total_seq; [apply free_cell|]. intros [] _. case_match; by apply total_ret_eq.
  - by apply total_ret_eq.
Qed.

Lemma insert_append_spec ctx index accum hs : cell ctx ∈ hs -> tspec (L := L) hs [cell accum] (insert_append ctx index accum) nothing anything.
Proof. intros Hc. apply tspec_call; [subs|]. intros r. apply tspec_free. case_match; [apply tspec_fail|by apply tspec_ret]. Qed.

Lemma over_indices_spec {V} verb (load : V -> T (L := L) (handle KRot)) ctx publicKeys shares store indices hs :
  cell ctx ∈ hs -> (forall hs' v, hs ⊆ hs' -> tspec hs' [] (load v) one anything) ->
  (forall index, shares index <> [] /\ (length (shares index) <= length publicKeys)%nat) ->
  (forall index accum, tspec hs [cell accum] (store index accum) nothing anything) ->
  tspec hs [] (over_indices verb load ctx publicKeys shares store indices) nothing anything.
Proof.
  intros Hc Hl Hn Hs. induction indices as [|index indices IH]; cbn [over_indices]; [by apply tspec_ret|].
  eapply tspec_bind; [apply (combine_index_spec verb load ctx publicKeys index hs Hc Hl); apply Hn|]. intros accum _.
  eapply tspec_bind; [apply Hs|]. intros [] _. exact IH.
Qed.

Lemma serialize_final_spec hs : tspec (L := L) hs [] serialize_final nothing filled.
Proof.
  intros [[f|] aCache]; unfold serialize_final.
  - apply (lift_held hs []), serializeRotKey_spec. mem_in.
  - by apply total_ret_eq.
Qed.

Lemma release_spec `{GoRange} {A} (m : T (L := L) A) Q hs : tspec hs [] m nothing Q -> spec hs [] (release m) nothing Q.
Proof.
  intros Hm. unfold release. assert (He : held_cells (None, ∅) = []) by (unfold held_cells; cbn; by rewrite map_to_list_empty).
  eapply spec_bind; [apply total_spec; pose proof (Hm (None, ∅)) as Hi; rewrite He in Hi; exact Hi|]. intros [[final aCache] r] Hq. unfold kept, held_cells. cbn [fst snd].
  assert (Hp : cells (range_of aCache).*2 ++ option_list (cell <$> final) ≡ₚ
    match r with inl _ => [] | inr a => nothing a end ++ option_list (cell <$> final) ++ cells (map_to_list aCache).*2).
  { destruct r; cbn; rewrite Permutation_app_comm; f_equiv; unfold cells; by rewrite range_of_perm. }
  eapply spec_perm; [exact Hp|]. eapply spec_bind_own; [apply total_spec, free_cells|]. intros [] _.
  apply spec_free_opt. destruct r; cgo_steps.
Qed.
End balance.

(** ** What validation accepts *)

Section validation.
Context `{IntRange} {V : Type} (valid : V -> bool) (invalid none : string).

Definition indices_of (shares : list (Z * V)) : gset Z := list_to_set shares.*1.

(** A party with valid shares, one per index, for the indices [required]. *)
Definition party_ok (required : gset Z) (shares : list (Z * V)) : Prop :=
  shares <> [] /\ Forall (fun s => valid s.2 = true) shares /\ NoDup shares.*1 /\ indices_of shares = required.

Lemma key_shares_ok party shares keyed :
  Forall (fun s => valid s.2 = true) shares -> NoDup shares.*1 -> (forall i, i ∈ shares.*1 -> keyed !! i = None) ->
  key_shares valid invalid party shares keyed = inr (list_to_map shares ∪ keyed).
Proof.
  revert keyed. induction shares as [|[i v] shares IH]; intros keyed Hv Hn Hk; cbn [key_shares list_to_map foldr fst snd]; [by rewrite map_empty_union|].
  apply Forall_cons in Hv as [Hv0 Hv]. cbn in Hn. apply NoDup_cons in Hn as [Hi Hn]. cbn in Hv0. rewrite Hv0. cbn [negb].
  rewrite (Hk i) by (cbn; left). rewrite IH; [|done..|].
  - f_equal. rewrite <- insert_union_r; [by rewrite insert_union_l|]. by apply not_elem_of_list_to_map_1.
  - intros j Hj. rewrite lookup_insert_ne by (intros ->; done). apply Hk. cbn. by right.
Qed.

Lemma key_shares_inv party shares keyed m :
  key_shares valid invalid party shares keyed = inr m ->
  Forall (fun s => valid s.2 = true) shares /\ NoDup shares.*1 /\ (forall i, i ∈ shares.*1 -> keyed !! i = None).
Proof.
  revert keyed. induction shares as [|[i v] shares IH]; intros keyed Hm; cbn [key_shares] in Hm.
  { split_and!; [by constructor|by constructor|]. intros i Hi. by apply not_elem_of_nil in Hi. }
  destruct (valid v) eqn:Hv; [|done]. cbn [negb] in Hm. destruct (keyed !! i) eqn:Hk; [done|].
  apply IH in Hm as (Hf & Hn & Hd). split_and!; [by constructor| |].
  - cbn. constructor; [|done]. intros Hi. specialize (Hd i Hi). by rewrite lookup_insert_eq in Hd.
  - intros j Hj. cbn in Hj. apply elem_of_cons in Hj as [-> |Hj]; [done|]. specialize (Hd j Hj).
    destruct (decide (j = i)) as [-> |Hne]; [done|]. by rewrite lookup_insert_ne in Hd.
Qed.

Lemma find_none {A} (f : A -> bool) l : List.find f l = None <-> (forall x, x ∈ l -> f x = false).
Proof.
  split.
  - intros Hf x Hx. eapply List.find_none; [exact Hf|]. by apply list_elem_of_In.
  - induction l as [|x l IH]; intros Hf; [done|]. cbn. rewrite (Hf x) by left. apply IH. intros y Hy. apply Hf. by right.
Qed.

Lemma same_indices_iff party (keyed : gmap Z V) required : same_indices party keyed required = None <-> dom keyed = required.
Proof.
  unfold same_indices, msize. rewrite <- (size_dom (D := gset Z) keyed). split.
  - destruct (Z.of_nat (size (dom keyed)) =? Z.of_nat (size required)) eqn:Hs; [|done]. cbn [negb].
    destruct (List.find _ (range_ints required)) eqn:H1; [done|]. destruct (List.find _ (range_ints (dom keyed))) eqn:H2; [done|]. intros _.
    rewrite find_none in H1, H2. apply set_eq. intros i. split; intros Hi.
    + specialize (H2 i). rewrite range_ints_perm, elem_of_elements in H2. specialize (H2 Hi). apply bool_decide_eq_false in H2. by apply dec_stable.
    + specialize (H1 i). rewrite range_ints_perm, elem_of_elements in H1. specialize (H1 Hi). apply bool_decide_eq_false in H1.
      apply elem_of_dom. by apply not_eq_None_Some.
  - intros <-. rewrite Z.eqb_refl. cbn [negb]. destruct (List.find _ (range_ints (dom keyed))) as [i|] eqn:H1.
    + exfalso. apply List.find_some in H1 as [Hin Hb]. apply list_elem_of_In in Hin. rewrite range_ints_perm, elem_of_elements in Hin.
      apply bool_decide_eq_true in Hb. apply elem_of_dom in Hin as [v Hv]. congruence.
    + clear H1. destruct (List.find _ (range_ints (dom keyed))) as [i|] eqn:H2; [|done]. exfalso. apply List.find_some in H2 as [Hin Hb].
      apply list_elem_of_In in Hin. rewrite range_ints_perm, elem_of_elements in Hin. by apply bool_decide_eq_true in Hb.
Qed.

Lemma keyed_dom (shares : list (Z * V)) : dom (list_to_map shares ∪ (∅ : gmap Z V)) = indices_of shares.
Proof. rewrite map_union_empty. apply dom_list_to_map_L. Qed.

Lemma nonempty_len {A} (l : list A) : (zlen l =? 0) = false <-> l <> [].
Proof. destruct l; unfold zlen; cbn; split; intros; try done; lia. Qed.

(** The parties after the lead. *)
Lemma validate_rest party required byParty :
  (forall keyed, validate_parties valid invalid none (S party) required byParty = inr keyed ->
     Forall (party_ok required) byParty /\ keyed = (list_to_map <$> byParty)) /\
  (Forall (party_ok required) byParty -> validate_parties valid invalid none (S party) required byParty = inr (list_to_map <$> byParty)).
Proof.
  revert party. induction byParty as [|shares byParty IH]; intros party; cbn [validate_parties]; [split; [intros ? [= <-]; by split; [constructor|]|done]|].
  destruct (IH (S party)) as [IH1 IH2]. clear IH. replace (S party =? 0)%nat with false by done. split.
  - intros keyed. destruct (zlen shares =? 0) eqn:Hz; [done|]. destruct (key_shares valid invalid (S party) shares ∅) as [e|m] eqn:Hk; [done|].
    destruct (same_indices (S party) m required) eqn:Hs; [done|]. destruct (validate_parties _ _ _ (S (S party)) required byParty) as [e|rest] eqn:Hr; [done|].
    intros Hi. apply (inj inr) in Hi as <-. destruct (IH1 rest eq_refl) as [Hf ->]. pose proof (key_shares_inv _ _ _ _ Hk) as (Hv & Hn & _).
    rewrite key_shares_ok in Hk by done. apply (inj inr) in Hk as <-. apply same_indices_iff in Hs. rewrite keyed_dom in Hs.
    rewrite map_union_empty. split; [|done]. constructor; [|done]. split_and!; [by apply nonempty_len|done..].
  - intros Hf. apply Forall_cons in Hf as [(Hne & Hv & Hn & Hd) Hf]. rewrite (proj2 (nonempty_len shares) Hne), key_shares_ok by done.
    replace (same_indices _ _ required) with (None (A := string)) by (symmetry; apply same_indices_iff; by rewrite keyed_dom).
    rewrite (IH2 Hf), map_union_empty. done.
Qed.

(** Shares by index are accepted exactly when there is a party, every party has
    valid shares without a repeated index, and all have the lead's indices;
    they are then combined in the lead's order, each under its own index. *)
Lemma validate_iff byParty indices keyed :
  validate valid invalid none byParty = inr (indices, keyed) <->
  exists lead, head byParty = Some lead /\ Forall (party_ok (indices_of lead)) byParty /\ indices = lead.*1 /\ keyed = (list_to_map <$> byParty).
Proof.
  unfold validate. destruct byParty as [|lead rest]; [split; [done|by intros (? & ? & _)]|]. cbn [validate_parties Nat.eqb head].
  pose proof (fun req => validate_rest 0 req rest) as Hr. split.
  - destruct (zlen lead =? 0) eqn:Hz; [done|]. destruct (key_shares valid invalid 0 lead ∅) as [e|m] eqn:Hk; [done|].
    pose proof (key_shares_inv _ _ _ _ Hk) as (Hv & Hn & _). rewrite key_shares_ok in Hk by done. apply (inj inr) in Hk as <-.
    destruct (validate_parties _ _ _ 1 _ rest) as [e|k] eqn:Hp; [done|]. intros Hi. apply (inj inr) in Hi. simplify_eq.
    apply (proj1 (Hr _)) in Hp as [Hf ->]. rewrite keyed_dom in Hf. exists lead. rewrite map_union_empty. split_and!; [done| |done..].
    constructor; [|done]. split_and!; [by apply nonempty_len|done..].
  - intros (lead' & [= <-] & Hf & -> & ->). apply Forall_cons in Hf as [(Hne & Hv & Hn & _) Hf].
    rewrite (proj2 (nonempty_len lead) Hne), key_shares_ok by done. rewrite keyed_dom, (proj2 (Hr _) Hf), map_union_empty. done.
Qed.
End validation.
End CgoCombine.
