(* ===== verification/CgoEval.v ===== *)
(** * The encryption bindings: computing on ciphertexts ([bridge.go])

    Encryption, homomorphic evaluation, threshold decryption and the operations
    for one key.  Every operation is shown to free what it allocates, except
    [SingleKeySoftArgmin], which is shown to leak. *)

From Stdlib Require Import ZifyBool SpecFloat.
From S2P Require Import Prelude Float64 HelperClient HelperServer CgoCore CgoKeys CgoCombine.
Import HelperClient HelperServer CgoCore CgoKeys CgoCombine.

#[local] Open Scope string_scope.
#[local] Open Scope list_scope.
#[local] Open Scope Z_scope.
#[local] Open Scope go_scope.
#[local] Open Scope cgo_scope.

Module CgoEval.

(** [%q] of a name without special characters. *)
Definition quoted (s : string) : string := String (Ascii.ascii_of_nat 34) (s +:+ String (Ascii.ascii_of_nat 34) EmptyString).

Definition hasNonConstantTerm (coeffs : list float64) : bool := existsb (fun c => negb (f64_eq c f64_zero)) (tail coeffs).

Definition indexed (what : string) (i : nat) (rest : string) : string := what +:+ "[" +:+ pretty (Z.of_nat i) +:+ "]" +:+ rest.

(** [best, bestVal := -1, 0.0; for ... { if best < 0 || v > bestVal { best, bestVal = i, v } }]. *)
Fixpoint best_from (i best : Z) (bestVal : float64) (vs : list float64) : Z :=
  match vs with
  | [] => best
  | v :: vs => if (best <? 0) || f64_gt v bestVal then best_from (i + 1) i v vs else best_from (i + 1) best bestVal vs
  end.
Definition best_index (vs : list float64) : Z := best_from 0 (-1) f64_zero vs.

Definition sharp_coeffs (degree : Z) : list float64 :=
  if degree =? 1 then [f64_lit 5 1; f64_lit 5 1] else [f64_lit 5 1; f64_lit 75 2; f64_zero; f64_lit (-25) 2].

Definition f64_neg (x : float64) : float64 := SFopp x.

(** A four-slot vector with a value in its first slot. *)
Definition first_of_four (v : float64) : list float64 := [v; f64_zero; f64_zero; f64_zero].

Section eval.
Context {L : Type} `{CLib L}.

(** ** Installing evaluation keys *)

Definition with_mult {A} (err : string) (ctx : handle KCtx) (evalMultKey : bytes) (k : G L A) : G L A :=
  let^ multKey := deserializeEvalMultKey ctx evalMultKey in
  defer^ cfree multKey in
  let^ _ := check_or err "InsertEvalMultKey" [cell ctx; cell multKey] [] in
  k.

Definition with_sum {A} (err : string) (ctx : handle KCtx) (evalSumKey : bytes) (k : G L A) : G L A :=
  let^ sumKey := deserializeRotKey ctx evalSumKey in
  defer^ cfree sumKey in
  let^ _ := check_or err "InsertEvalSumKey" [cell ctx; cell sumKey] [] in
  k.

Definition with_ct {A} (ctx : handle KCtx) (raw : bytes) (k : handle KCt -> G L A) : G L A :=
  let^ ct := deserializeCiphertext ctx raw in
  defer^ cfree ct in
  k ct.

(** [out := C.F(...); if out == nil { return err }; defer C.FreeCiphertext(out)]. *)
Definition computing {A} (err name : string) (hs : list (positive * kind)) (ds : list cval) (k : handle KCt -> G L A) : G L A :=
  let^ out := new_or err name hs ds in
  defer^ cfree out in
  k out.

(** ** Products and sums *)

Definition product_sum (tag : string) (ctx : handle KCtx) (leftCiphertext rightCiphertext : bytes) (nSlots : Z) : G L bytes :=
  with_ct ctx leftCiphertext (fun left =>
  with_ct ctx rightCiphertext (fun right =>
  computing (tag +:+ "eval-mult failed") "EvalMult" [cell ctx; cell left; cell right] [] (fun product =>
  computing (tag +:+ "eval-sum failed") "EvalSum" [cell ctx; cell product] [VInt (cint nSlots)] (fun sum =>
  serializeCiphertext sum)))).

Definition evalProductSumInContext (ctx : handle KCtx) (leftCiphertext rightCiphertext : bytes) (nSlots : Z) : G L bytes :=
  product_sum "" ctx leftCiphertext rightCiphertext nSlots.

Definition EvalProductSumForContract (params : ContractParams) (evalKeys : EvalKeyFinal) (leftCiphertext rightCiphertext : bytes) (nSlots : Z) : G L bytes :=
  if (zlen (EvalMultFinal evalKeys) =? 0) || (zlen (EvalSumFinal evalKeys) =? 0) then gfail "eval-mult and eval-sum keys are required" else
  if nSlots <=? 0 then gfail "nSlots must be positive" else
  with_context (createContractContext params) (fun ctx =>
    with_mult "insert eval-mult key failed" ctx (EvalMultFinal evalKeys) (
    with_sum "insert eval-sum key failed" ctx (EvalSumFinal evalKeys) (
    evalProductSumInContext ctx leftCiphertext rightCiphertext nSlots))).

Definition EvalProductSumForContractWithEvalSumRefs `{IntRange} `{GoRange} (params : ContractParams) (evalKeys : EvalKeyFinal)
    (leftCiphertext rightCiphertext : bytes) (nSlots : Z) (publicKeys : list bytes) (evalSumRefsByParty : list (list IndexedEvalSumKeyRef))
    (resolve : option Resolver) : G L bytes :=
  if zlen (EvalMultFinal evalKeys) =? 0 then gfail "eval-mult key is required" else
  if nSlots <=? 0 then gfail "nSlots must be positive" else
  match resolve with
  | None => gfail "eval-sum key resolver is required"
  | Some _ => with_context (createContractContext params) (fun ctx =>
      with_mult "insert eval-mult key failed" ctx (EvalMultFinal evalKeys) (
      let^ _ := gwrap "insert per-index eval-sum keys: " (insertEvalSumPerIndexLazy ctx publicKeys evalSumRefsByParty resolve) in
      evalProductSumInContext ctx leftCiphertext rightCiphertext nSlots))
  end.

Definition EvalProductSumBFVForContract (params : BFVContractParams) (evalKeys : EvalKeyFinal) (leftCiphertext rightCiphertext : bytes) (nSlots : Z) : G L bytes :=
  if (zlen (EvalMultFinal evalKeys) =? 0) || (zlen (EvalSumFinal evalKeys) =? 0) then gfail "eval-mult and eval-sum keys are required" else
  if nSlots <=? 0 then gfail "nSlots must be positive" else
  with_context (createBFVContractContext params) (fun ctx =>
    with_mult "insert BFV eval-mult key failed" ctx (EvalMultFinal evalKeys) (
    with_sum "insert BFV eval-sum key failed" ctx (EvalSumFinal evalKeys) (
    product_sum "BFV " ctx leftCiphertext rightCiphertext nSlots))).

(** ** One ciphertext or two *)

(** The key is installed when there is one. *)
Definition maybe_mult {A} (err : string) (ctx : handle KCtx) (evalMultKey : bytes) (k : G L A) : G L A :=
  if 0 <? zlen evalMultKey then with_mult err ctx evalMultKey k else k.

Definition evalBinaryCKKS (params : ContractParams) (evalMultKey ctA ctB : bytes) (op : string) : G L bytes :=
  if (zlen ctA =? 0) || (zlen ctB =? 0) then gfail (op +:+ ": both ciphertexts are required") else
  with_context (createContractContext params) (fun cctx =>
    maybe_mult (op +:+ ": insert eval-mult key failed") cctx evalMultKey (
    with_ct cctx ctA (fun a =>
    with_ct cctx ctB (fun b =>
    if bool_decide (op ∈ ["EvalAdd"; "EvalSub"; "EvalMult"]) then
      computing (op +:+ " failed") op [cell cctx; cell a; cell b] [] serializeCiphertext
    else gfail ("evalBinaryCKKS: unknown op " +:+ quoted op))))).

Definition EvalAddCKKSForContract (params : ContractParams) (ctA ctB : bytes) : G L bytes := evalBinaryCKKS params [] ctA ctB "EvalAdd".
Definition EvalSubCKKSForContract (params : ContractParams) (ctA ctB : bytes) : G L bytes := evalBinaryCKKS params [] ctA ctB "EvalSub".
Definition EvalMultCKKSForContract (params : ContractParams) (evalMultKey ctA ctB : bytes) : G L bytes :=
  if zlen evalMultKey =? 0 then gfail "eval-mult key is required" else evalBinaryCKKS params evalMultKey ctA ctB "EvalMult".

Definition EvalAtIndexCKKSForContract (params : ContractParams) (evalSumKey ct : bytes) (index : Z) : G L bytes :=
  if zlen ct =? 0 then gfail "EvalAtIndex: ciphertext is required" else
  if zlen evalSumKey =? 0 then gfail "EvalAtIndex: rotation key is required" else
  if index =? 0 then gfail "EvalAtIndex: index must be non-zero" else
  with_context (createContractContext params) (fun cctx =>
    with_sum "EvalAtIndex: insert rotation key failed" cctx evalSumKey (
    with_ct cctx ct (fun input =>
    computing ("EvalAtIndex: rotation at index " +:+ pretty index +:+ " failed") "EvalAtIndex" [cell cctx; cell input] [VInt (cint index)] serializeCiphertext))).

Definition EvalConstMultCKKSForContract (params : ContractParams) (ct : bytes) (scalar : float64) : G L bytes :=
  if zlen ct =? 0 then gfail "ciphertext is required" else
  with_context (createContractContext params) (fun cctx =>
    with_ct cctx ct (fun ctH =>
    computing "eval-mult-const failed" "EvalMultConst" [cell cctx; cell ctH] [VReal scalar] serializeCiphertext)).

Definition EvalArgmaxCKKSForContract (params : ContractParams) (evalMultKey : bytes) (ciphertexts : list bytes) (sharpCoeffs : list float64) : G L (list bytes) :=
  if zlen ciphertexts <? 2 then gfail ("argmax needs at least 2 candidates, got " +:+ pretty (zlen ciphertexts)) else
  if zlen evalMultKey =? 0 then gfail "eval-mult key is required" else
  if zlen sharpCoeffs <? 2 then gfail "sharpening polynomial must have at least 2 coefficients" else
  with_context (createContractContext params) (fun cctx =>
    with_mult "insert eval-mult key failed" cctx evalMultKey (
    let^ handles := collect (fun i raw => gwrap (indexed "ciphertext" i ": ") (deserializeCiphertext cctx raw)) 0 ciphertexts [] in
    defer^ cfree_all handles in
    let^ _ := addr0 handles in
    let^ _ := addr0 sharpCoeffs in
    let^ outHandles := make_n (length ciphertexts) (fun r => "eval argmax failed (rc=" +:+ pretty (rc r) +:+ ")") "EvalArgmax"
      (cell cctx :: cells handles) [VInt (cint (zlen handles)); VReals sharpCoeffs; VInt (cint (zlen sharpCoeffs))] in
    defer^ cfree_all outHandles in
    each (fun i h => gwrap (indexed "serialize mask" i ": ") (serializeCiphertext h)) 0 outHandles)).

Definition EvalPolyCKKSForContract (params : ContractParams) (evalMultKey ciphertext : bytes) (coefficients : list float64) : G L bytes :=
  if zlen ciphertext =? 0 then gfail "ciphertext is required" else
  if zlen coefficients =? 0 then gfail "coefficients are required" else
  if (zlen evalMultKey =? 0) && hasNonConstantTerm coefficients then gfail "eval-mult key is required for non-constant polynomials" else
  with_context (createContractContext params) (fun ctx =>
    maybe_mult "insert eval-mult key failed" ctx evalMultKey (
    with_ct ctx ciphertext (fun ct =>
    let^ _ := addr0 coefficients in
    computing "eval poly failed" "EvalPolynomial" [cell ctx; cell ct] [VReals coefficients; VInt (cint (zlen coefficients))] serializeCiphertext))).

Definition RoundTripCiphertext (params : ContractParams) (ct : bytes) : G L bytes :=
  if zlen ct =? 0 then gfail "ciphertext is required" else
  with_context (createContractContext params) (fun cctx => with_ct cctx ct serializeCiphertext).

(** ** Encryption *)

Definition with_pk {A} (ctx : handle KCtx) (raw : bytes) (k : handle KPK -> G L A) : G L A :=
  let^ pk := deserializePublicKey ctx raw in
  defer^ cfree pk in
  k pk.

Definition EncryptCKKSForContract (params : ContractParams) (jointPublicKey : bytes) (values : list float64) : G L bytes :=
  if zlen jointPublicKey =? 0 then gfail "joint public key is required" else
  if zlen values =? 0 then gfail "values are required" else
  with_context (createContractContext params) (fun ctx =>
    with_pk ctx jointPublicKey (fun pk =>
    let^ _ := addr0 values in
    computing "contract encryption failed" "Encrypt" [cell ctx; cell pk] [VReals values; VInt (cint (zlen values))] serializeCiphertext)).

Definition EncryptBFVForContract (params : BFVContractParams) (jointPublicKey : bytes) (values : list Z) : G L bytes :=
  if zlen jointPublicKey =? 0 then gfail "joint public key is required" else
  if zlen values =? 0 then gfail "values are required" else
  with_context (createBFVContractContext params) (fun ctx =>
    with_pk ctx jointPublicKey (fun pk =>
    let^ _ := addr0 values in
    computing "BFV contract encryption failed" "EncryptPackedInt" [cell ctx; cell pk] [VInts values; VInt (cint (zlen values))] serializeCiphertext)).

Definition EncryptRepeatedScalarCKKSForContract (params : ContractParams) (jointPublicKey : bytes) (value : float64) : G L bytes :=
  let^ _ := requireNonEmptyBytes "joint public key" jointPublicKey in
  with_context (createContractContext params) (fun ctx =>
    with_pk ctx jointPublicKey (fun pk =>
    bytes_guarded (fun _ => "repeated scalar encryption failed") "EncryptSerializedRepeatedScalarCKKS" [cell ctx; cell pk] [VReal value])).

Definition EncryptRepeatedScalarBFVForContract (params : BFVContractParams) (jointPublicKey : bytes) (value : Z) : G L bytes :=
  let^ _ := requireNonEmptyBytes "joint public key" jointPublicKey in
  with_context (createBFVContractContext params) (fun ctx =>
    with_pk ctx jointPublicKey (fun pk =>
    bytes_guarded (fun _ => "repeated BFV scalar encryption failed") "EncryptSerializedRepeatedScalarBFV" [cell ctx; cell pk] [VInt value])).

(** The three inputs of a squared distance. *)
Definition require_origins (evalMultKey originFirst originSecond : bytes) : G L unit :=
  let^ _ := requireNonEmptyBytes "eval-mult key" evalMultKey in
  let^ _ := requireNonEmptyBytes "origin first ciphertext" originFirst in
  requireNonEmptyBytes "origin second ciphertext" originSecond.

Definition EncryptedSquaredDistanceCKKSForContract (params : ContractParams) (evalMultKey originFirst originSecond : bytes) (localFirst localSecond : float64) : G L bytes :=
  let^ _ := require_origins evalMultKey originFirst originSecond in
  with_context (createContractContext params) (fun ctx =>
    with_mult "insert eval-mult key failed" ctx evalMultKey (
    let^ _ := addr0 originFirst in
    let^ _ := addr0 originSecond in
    bytes_guarded (fun _ => "encrypted squared distance failed") "ComputeSerializedSquaredDistanceCKKS" [cell ctx]
      [VData originFirst; VData originSecond; VReal localFirst; VReal localSecond])).

Definition EncryptedSquaredDistanceBFVForContract (params : BFVContractParams) (evalMultKey originFirst originSecond : bytes) (localFirst localSecond : Z) : G L bytes :=
  let^ _ := require_origins evalMultKey originFirst originSecond in
  with_context (createBFVContractContext params) (fun ctx =>
    with_mult "insert BFV eval-mult key failed" ctx evalMultKey (
    let^ _ := addr0 originFirst in
    let^ _ := addr0 originSecond in
    bytes_guarded (fun _ => "encrypted BFV squared distance failed") "ComputeSerializedSquaredDistanceBFV" [cell ctx]
      [VData originFirst; VData originSecond; VInt localFirst; VInt localSecond])).

(** ** Threshold decryption *)

Definition partial_decrypt (tag : string) (ciphertext secretKeyShare : bytes) (lead : bool) (ctx : handle KCtx) : G L bytes :=
  with_ct ctx ciphertext (fun ct =>
  let^ sk := deserializeSecretKeyShare ctx secretKeyShare lead in
  defer^ cfree sk in
  let^ partial := make_or (tag +:+ "contract partial decrypt failed") "MultiDecMain" [cell ctx; cell ct; cell sk] [] in
  defer^ cfree partial in
  serializeCiphertext partial).

Definition PartialDecryptCKKSForContract (params : ContractParams) (ciphertext secretKeyShare : bytes) (lead : bool) : G L bytes :=
  if zlen ciphertext =? 0 then gfail "ciphertext is required" else
  if zlen secretKeyShare =? 0 then gfail "secret key share is required" else
  with_context (createContractContext params) (partial_decrypt "" ciphertext secretKeyShare lead).

Definition PartialDecryptBFVForContract (params : BFVContractParams) (ciphertext secretKeyShare : bytes) (lead : bool) : G L bytes :=
  if zlen ciphertext =? 0 then gfail "ciphertext is required" else
  if zlen secretKeyShare =? 0 then gfail "secret key share is required" else
  with_context (createBFVContractContext params) (partial_decrypt "BFV " ciphertext secretKeyShare lead).

(** Deserialize the shares, fuse them into a buffer of [nSlots], and return the
    part of the buffer the library says it has filled. *)
Definition fuse_partials {A} (tag name : string) (written_to : reply -> list A) (zero : A) (partials : list bytes) (nSlots : Z) (ctx : handle KCtx) : G L (list A) :=
  let^ handles := collect (fun i raw => gwrap (numbered ("deserialize " +:+ tag +:+ "partial ") i) (deserializeCiphertext ctx raw)) 0 partials [] in
  defer^ cfree_all handles in
  let^ _ := addr0 handles in
  let^ r := call name (cell ctx :: cells handles) [VInt (cint (zlen handles)); VInt (cint nSlots)] in
  if negb (rc r =? 0) then gfail (tag +:+ "contract partial fusion failed") else
  filled_part (written r) nSlots (written_to r) zero.

Definition FuseCKKSPartialsForContract (params : ContractParams) (partials : list bytes) (nSlots : Z) : G L (list float64) :=
  if zlen partials =? 0 then gfail "at least one partial decrypt share is required" else
  if nSlots <=? 0 then gfail "nSlots must be positive" else
  with_context (createContractContext params) (fuse_partials "" "MultiDecFusion" reals f64_zero partials nSlots).

Definition FuseBFVPartialsForContract (params : BFVContractParams) (partials : list bytes) (nSlots : Z) : G L (list Z) :=
  if zlen partials =? 0 then gfail "at least one partial decrypt share is required" else
  if nSlots <=? 0 then gfail "nSlots must be positive" else
  with_context (createBFVContractContext params) (fuse_partials "BFV " "MultiDecFusionPackedInt" (fun r => tail (ints r)) 0 partials nSlots).

(** ** Diagnostics *)

Definition SmokeCKKS : G L unit :=
  let^ r := call "ARESOpenFHESmoke" [] [VInt 512] in
  if negb (rc r =? 0) then gfail ("openfhe smoke failed: " +:+ text r) else gret tt.

Definition OpenFHEVersion : G L string :=
  let^ r := call "GetOpenFHEVersion" [] [VInt 32] in
  gret (if rc r <=? 0 then "unknown" else String.substring 0 (Z.to_nat (rc r)) (text r)).

Definition OpenFHEContextCount : G L Z := let^ r := call "OpenFHEContextCount" [] [] in gret (rc r).

Definition ReleaseOpenFHEGlobalContexts : G L unit := let^ _ := call "ReleaseAllOpenFHEContexts" [] [] in gret tt.
End eval.

(** ** One key *)

Record AuctionWeights := mkWeights { w_K : float64; WStar : float64; WDist : float64 }.

Record ScoreRequest := mkScore {
  sr_InitiatorProfile : list float64;
  sr_InitiatorLatQ : Z;
  sr_InitiatorLonQ : Z;
  sr_CandidateProfiles : list (list float64);
  sr_CandidateLatQ : list Z;
  sr_CandidateLonQ : list Z;
  sr_CandidateBrownies : list Z;
  sr_CandidatePackages : list (list Z);
  sr_Alpha : float64;
  sr_Beta : float64;
  sr_Gamma : float64;
  sr_DistanceFunction : string;
  sr_Comparator : string;
  sr_ComparatorDegree : Z;
  sr_ComparatorGain : float64;
  sr_ComparatorScale : float64;
  sr_ComparatorBound : float64;
  sr_MaskMode : string;
  sr_SelectorSchedule : string;
  sr_ScalingModSize : Z;
  sr_FirstModSize : Z;
  sr_PayloadSlotCount : Z
}.

Record ScoreResult := mkScored { Scores : list float64; MaskValues : list float64; PayloadValues : list float64; WinnerIndex : Z; WinnerScore : float64 }.

Definition intsToCInts (values : list Z) : list Z := cint <$> values.
Definition intsToC (values : list Z) : list Z := cint <$> values.

(** The first candidate whose profile has another dimension. *)
Fixpoint flat_profiles (i : nat) (dim : Z) (profiles : list (list float64)) : string + list float64 :=
  match profiles with
  | [] => inr []
  | p :: profiles =>
    if negb (zlen p =? dim) then
      inl ("candidate " +:+ pretty (Z.of_nat i) +:+ " profile dim=" +:+ pretty (zlen p) +:+ " want " +:+ pretty dim)
    else match flat_profiles (S i) dim profiles with inl e => inl e | inr l => inr (p ++ l) end
  end.

Fixpoint package_bytes (i j : nat) (pkg : list Z) : option string :=
  match pkg with
  | [] => None
  | v :: pkg =>
    if (v <? 0) || (255 <? v) then
      Some ("candidate " +:+ pretty (Z.of_nat i) +:+ " package byte " +:+ pretty (Z.of_nat j) +:+ " out of range: " +:+ pretty v)
    else package_bytes i (S j) pkg
  end.

Fixpoint flat_packages (i : nat) (packageBytes : Z) (packages : list (list Z)) : string + list Z :=
  match packages with
  | [] => inr []
  | p :: packages =>
    if negb (zlen p =? packageBytes) then
      inl ("candidate " +:+ pretty (Z.of_nat i) +:+ " package length=" +:+ pretty (zlen p) +:+ " want " +:+ pretty packageBytes)
    else match package_bytes i 0 p with
    | Some e => inl e
    | None => match flat_packages (S i) packageBytes packages with inl e => inl e | inr l => inr (p ++ l) end
    end
  end.

(** The checks of a scoring request: the flat profiles and packages, the bytes
    per package and the slots of the payload. *)
Definition score_inputs (req : ScoreRequest) : string + (list float64 * list Z * Z * Z) :=
  let nCandidates := zlen (sr_CandidateProfiles req) in
  if zlen (sr_InitiatorProfile req) =? 0 then inl "initiator profile is required" else
  if nCandidates =? 0 then inl "at least one candidate is required" else
  match flat_profiles 0 (zlen (sr_InitiatorProfile req)) (sr_CandidateProfiles req) with
  | inl e => inl e
  | inr flatProfiles =>
    if negb (zlen (sr_CandidateLatQ req) =? nCandidates) || negb (zlen (sr_CandidateLonQ req) =? nCandidates)
       || negb (zlen (sr_CandidateBrownies req) =? nCandidates) then inl "candidate coordinate/brownie arrays must match candidate count" else
    if negb (zlen (sr_CandidatePackages req) =? nCandidates) then inl "candidate package array must match candidate count" else
    let packageBytes := zlen (default [] (head (sr_CandidatePackages req))) in
    if packageBytes =? 0 then inl "candidate packages are required for native payload fusion" else
    let slots := if sr_PayloadSlotCount req =? 0 then packageBytes * 8 else sr_PayloadSlotCount req in
    if slots <? packageBytes * 8 then
      inl ("payload slot count " +:+ pretty slots +:+ " cannot hold " +:+ pretty (packageBytes * 8) +:+ " package bits") else
    match flat_packages 0 packageBytes (sr_CandidatePackages req) with
    | inl e => inl e
    | inr flatPackages => inr (flatProfiles, flatPackages, packageBytes, slots)
    end
  end.

(** A buffer of [n] numbers after [l] has been written to it. *)
Definition buffer (n : Z) (l : list float64) : list float64 := take (Z.to_nat n) (l ++ replicate (Z.to_nat n) f64_zero).

(** The coefficients of the ranking key. *)
Record key_scale := mkScale { span : float64; key_floor : float64; scale : float64 }.

Definition auction_scale (w : AuctionWeights) (floorCents capCents : Z) (distSqs : list float64) : key_scale :=
  let span := f64_of_Z (wrap64 (capCents - floorCents)) in
  let span := if f64_le span f64_zero then f64_one else span in
  let widest := foldl (fun m d => if f64_gt (f64_mul (WDist w) d) m then f64_mul (WDist w) d else m)
    (f64_add (w_K w) (f64_mul (WStar w) (f64_of_Z 5))) distSqs in
  mkScale span (f64_of_Z floorCents) (f64_div (f64_lit 9 1) widest).

(** [-scale * (wsc*(5.0-star) + wdc*dist - Kc*floor/span)]. *)
Definition full_offset (w : AuctionWeights) (s : key_scale) (star dist : float64) : float64 :=
  f64_mul (f64_neg (scale s))
    (f64_sub (f64_add (f64_mul (WStar w) (f64_sub (f64_of_Z 5) star)) (f64_mul (WDist w) dist))
             (f64_div (f64_mul (w_K w) (key_floor s)) (span s))).

(** [-scale*Kc/span]. *)
Definition price_factor (w : AuctionWeights) (s : key_scale) : float64 := f64_div (f64_mul (f64_neg (scale s)) (w_K w)) (span s).

Section single.
Context {L : Type} `{CLib L}.

Definition SchemeSwitchingArgmin (ctx : handle KCtx) (pk : handle KPK) (sk : handle KSK) (packedCt : handle KCt) (numValues : Z) (scaleSign : float64)
    : G L (handle KCt * handle KCt) :=
  make2_with (fun r => "scheme-switching argmin: " +:+ text r) "SchemeSwitchingArgmin" [cell ctx; cell pk; cell sk; cell packedCt]
    [VInt numValues; VReal scaleSign].

(** The encryptions of the loop; when one fails, the earlier ones are not freed. *)
Fixpoint encrypt_scores (ctx : handle KCtx) (pk : handle KPK) (i : nat) (scores : list float64) (cts : list (handle KCt)) : G L (list (handle KCt)) :=
  match scores with
  | [] => gret cts
  | score :: scores =>
    let^ ct := new_or (indexed "encrypt" i " failed") "Encrypt" [cell ctx; cell pk] [VReals (first_of_four score); VInt 4] in
    encrypt_scores ctx pk (S i) scores (cts ++ [ct])
  end.

Definition argmax_failed (depth n : Z) : string := "argmax failed (depth " +:+ pretty depth +:+ " insufficient for n=" +:+ pretty n +:+ ")".

Definition decrypt_one (err : string) (ctx : handle KCtx) (ct : handle KCt) (sk : handle KSK) : G L float64 :=
  let^ r := call "DecryptSingle" [cell ctx; cell ct; cell sk] [VInt 1] in
  if negb (rc r =? 0) then gfail err else gret (default f64_zero (head (reals r))).

Definition SingleKeySoftArgmin (scores : list float64) (degree : Z) : G L (list float64 * Z) :=
  if zlen scores <? 2 then gfail "need >=2 scores" else
  with_context (createContractContext (mkContract (2 ^ 14) scale50 4 false 0 0 false)) (fun ctx =>
    with_keys (make2_or "keygen failed" "KeyGenFirst" [cell ctx] []) (fun pk sk =>
    let^ _ := check_or "eval-mult keygen failed" "SingleKeyEvalMultKeyGen" [cell ctx; cell sk] [] in
    let^ cts := encrypt_scores ctx pk 0 scores [] in
    defer^ cfree_all cts in
    let sharp := sharp_coeffs degree in
    let^ _ := addr0 cts in
    let^ masks := make_n (length scores) (fun _ => argmax_failed 4 (zlen scores)) "EvalArgmax" (cell ctx :: cells cts)
      [VInt (cint (zlen scores)); VReals sharp; VInt (cint (zlen sharp))] in
    defer^ cfree_all masks in
    let^ result := each (fun i m => decrypt_one (indexed "decrypt mask" i " failed") ctx m sk) 0 masks in
    gret (result, best_index result))).

Definition SingleKeyGen (params : ContractParams) : G L (bytes * bytes) :=
  with_context (createContractContext params) (fun ctx =>
    with_keys (make2_or "keygen failed" "KeyGenFirst" [cell ctx] []) (fun cPk cSk =>
    let^ pkBytes := gwrap "serialize pk: " (serializePublicKey cPk) in
    let^ skBytes := gwrap "serialize sk: " (serializeSecretKeyShare cSk) in
    gret (pkBytes, skBytes))).

Definition SingleKeyGenWithEvalKey (params : ContractParams) : G L (bytes * bytes * bytes) :=
  with_context (createContractContext params) (fun ctx =>
    with_keys (make2_or "keygen failed" "KeyGenFirst" [cell ctx] []) (fun cPk cSk =>
    let^ cEvalMultKey := make_or "eval-mult keygen failed" "SingleKeyEvalMultKeyGenWithOutput" [cell ctx; cell cSk] [] in
    defer^ cfree cEvalMultKey in
    let^ pkBytes := gwrap "serialize pk: " (serializePublicKey cPk) in
    let^ skBytes := gwrap "serialize sk: " (serializeSecretKeyShare cSk) in
    let^ evalMultKeyBytes := gwrap "serialize eval-mult key: " (serializeEvalMultKey cEvalMultKey) in
    gret (pkBytes, skBytes, evalMultKeyBytes))).

(** [make([]C.double, nSlots)] and [&out[0]]. *)
Definition make_buffer (nSlots : Z) : G L unit :=
  if nSlots <? 0 then gfault NegativeLength else if nSlots =? 0 then gfault IndexPanic else gret tt.

Definition SingleKeyDecrypt (params : ContractParams) (sk ct : bytes) (nSlots : Z) : G L (list float64) :=
  with_context (createContractContext params) (fun ctx =>
    let^ cSk := gwrap "deserialize sk: " (deserializeSecretKeyShare ctx sk true) in
    defer^ cfree cSk in
    let^ cCt := gwrap "deserialize ct: " (deserializeCiphertext ctx ct) in
    defer^ cfree cCt in
    let^ _ := make_buffer nSlots in
    let^ r := call "DecryptSingle" [cell ctx; cell cCt; cell cSk] [VInt (cint nSlots)] in
    if negb (rc r =? 0) then gfail "decrypt failed" else
    filled_part (written r) nSlots (reals r) f64_zero).

Definition SingleKeyEncrypt (params : ContractParams) (pk : bytes) (value : float64) : G L bytes :=
  if zlen pk =? 0 then gfail "pk required" else
  with_context (createContractContext params) (fun ctx =>
    let^ cPk := gwrap "deserialize pk: " (deserializePublicKey ctx pk) in
    defer^ cfree cPk in
    computing "encrypt failed" "Encrypt" [cell ctx; cell cPk] [VReals (first_of_four value); VInt 4] serializeCiphertext).

(** *** The auction *)

(** [score := C.EvalAdd(ctx, scaledPrice, offCt); C.FreeCiphertext(scaledPrice)]. *)
Definition assemble (err : string) (ctx : handle KCtx) (scaledPrice offCt : handle KCt) : G L (handle KCt) :=
  let^ (score, _) := call1 KCt "EvalAdd" [cell ctx; cell scaledPrice; cell offCt] [] in
  let^ _ := cfree scaledPrice in
  match score with None => gfail err | Some score => gret score end.

(** The scores of the bids; the ciphertexts of every round stay allocated until
    the end of the call.  [price i x] is the encrypted price of bid [i]. *)
Fixpoint auction_scores {A X} (w : AuctionWeights) (s : key_scale) (ctx : handle KCtx) (pk : handle KPK) (price : nat -> X -> G L (handle KCt))
    (i : nat) (bids : list (X * (float64 * float64))) (scores : list (handle KCt)) (k : list (handle KCt) -> G L A) : G L A :=
  match bids with
  | [] => k scores
  | (x, (star, dist)) :: bids =>
    computing (indexed "encrypt offset" i " failed") "Encrypt" [cell ctx; cell pk] [VReals (first_of_four (full_offset w s star dist)); VInt 4] (fun offCt =>
    let^ pCt := price i x in
    defer^ cfree pCt in
    let^ scaledPrice := new_or (indexed "scale price" i " failed") "EvalMultConst" [cell ctx; cell pCt] [VReal (price_factor w s)] in
    let^ score := assemble (indexed "assemble score" i " failed") ctx scaledPrice offCt in
    defer^ cfree score in
    auction_scores w s ctx pk price (S i) bids (scores ++ [score]) k)
  end.

Definition auction_server {X} (useInstead : string) (params : ContractParams) (pk evalMultKey : bytes) (prices : list X) (starNorms distSqs : list float64)
    (nonces : list bytes) (floorCents capCents : Z) (w : AuctionWeights) (degree : Z)
    (price : handle KCtx -> handle KPK -> nat -> X -> G L (handle KCt)) : G L (list bytes) :=
  let n := zlen prices in
  if zlen evalMultKey =? 0 then gfail ("evaluation key required: use " +:+ useInstead) else
  if n <? 2 then gfail ("need >= 2 bids, got " +:+ pretty n) else
  if negb (zlen starNorms =? n) || negb (zlen distSqs =? n) || negb (zlen nonces =? n) then gfail "mismatched input lengths" else
  if zlen pk =? 0 then gfail "pk required" else
  with_context (createContractContext params) (fun ctx =>
    let^ cPk := gwrap "deserialize pk: " (deserializePublicKey ctx pk) in
    defer^ cfree cPk in
    let^ cEvalMultKey := gwrap "deserialize eval-mult key: " (deserializeEvalMultKey ctx evalMultKey) in
    defer^ cfree cEvalMultKey in
    let^ _ := check_or "insert eval-mult key failed" "InsertEvalMultKey" [cell ctx; cell cEvalMultKey] [] in
    let s := auction_scale w floorCents capCents distSqs in
    auction_scores w s ctx cPk (price ctx cPk) 0 (zip prices (zip starNorms distSqs)) [] (fun scores =>
    let sharp := sharp_coeffs degree in
    let^ _ := addr0 scores in
    let^ cMasks := make_n (length prices) (fun _ => argmax_failed (Depth params) n) "EvalArgmax" (cell ctx :: cells scores)
      [VInt (cint n); VReals sharp; VInt (cint (zlen sharp))] in
    defer^ cfree_all cMasks in
    each (fun i m => gwrap (indexed "serialize mask" i ": ") (serializeCiphertext m)) 0 cMasks)).

Definition singleKeyAuctionServer (params : ContractParams) (pk evalMultKey : bytes) (priceCents : list Z) (starNorms distSqs : list float64)
    (nonces : list bytes) (floorCents capCents : Z) (w : AuctionWeights) (degree : Z) : G L (list bytes) :=
  auction_server "SingleKeyAuctionServerWithEvalKey" params pk evalMultKey priceCents starNorms distSqs nonces floorCents capCents w degree
    (fun ctx cPk i p => new_or (indexed "encrypt price" i " failed") "Encrypt" [cell ctx; cell cPk] [VReals (first_of_four (f64_of_Z p)); VInt 4]).

Definition SingleKeyAuctionServer (params : ContractParams) (pk : bytes) (priceCents : list Z) (starNorms distSqs : list float64)
    (nonces : list bytes) (floorCents capCents : Z) (w : AuctionWeights) (degree : Z) : G L (list bytes) :=
  singleKeyAuctionServer params pk [] priceCents starNorms distSqs nonces floorCents capCents w degree.

Definition SingleKeyAuctionServerWithEvalKey (params : ContractParams) (pk evalMultKey : bytes) (priceCents : list Z) (starNorms distSqs : list float64)
    (nonces : list bytes) (floorCents capCents : Z) (w : AuctionWeights) (degree : Z) : G L (list bytes) :=
  singleKeyAuctionServer params pk evalMultKey priceCents starNorms distSqs nonces floorCents capCents w degree.

(** The price comes encrypted from the bidder. *)
Definition singleKeyAuctionServerEnc (params : ContractParams) (pk evalMultKey : bytes) (encBids : list bytes) (starNorms distSqs : list float64)
    (nonces : list bytes) (floorCents capCents : Z) (w : AuctionWeights) (degree : Z) : G L (list bytes) :=
  auction_server "SingleKeyAuctionServerEncWithEvalKey" params pk evalMultKey encBids starNorms distSqs nonces floorCents capCents w degree
    (fun ctx _ i bid => gwrap (indexed "deserialize encBid" i ": ") (deserializeCiphertext ctx bid)).

Definition SingleKeyAuctionServerEnc (params : ContractParams) (pk : bytes) (encBids : list bytes) (starNorms distSqs : list float64)
    (nonces : list bytes) (floorCents capCents : Z) (w : AuctionWeights) (degree : Z) : G L (list bytes) :=
  singleKeyAuctionServerEnc params pk [] encBids starNorms distSqs nonces floorCents capCents w degree.

Definition SingleKeyAuctionServerEncWithEvalKey (params : ContractParams) (pk evalMultKey : bytes) (encBids : list bytes) (starNorms distSqs : list float64)
    (nonces : list bytes) (floorCents capCents : Z) (w : AuctionWeights) (degree : Z) : G L (list bytes) :=
  singleKeyAuctionServerEnc params pk evalMultKey encBids starNorms distSqs nonces floorCents capCents w degree.

(** Each mask is freed before the next is decrypted. *)
Definition decrypt_mask (ctx : handle KCtx) (cSk : handle KSK) (i : nat) (mask : bytes) : G L float64 :=
  let^ cCt := gwrap (indexed "deserialize mask" i ": ") (deserializeCiphertext ctx mask) in
  let^ r := call "DecryptSingle" [cell ctx; cell cCt; cell cSk] [VInt 1] in
  let^ _ := cfree cCt in
  if negb (rc r =? 0) then gfail (indexed "decrypt mask" i " failed") else gret (default f64_zero (head (reals r))).

Definition SingleKeyAuctionDecrypt (params : ContractParams) (sk : bytes) (encryptedMasks : list bytes) : G L (list float64 * Z) :=
  if zlen encryptedMasks <? 2 then gfail "need >= 2 masks" else
  if zlen sk =? 0 then gfail "sk required" else
  with_context (createContractContext params) (fun ctx =>
    let^ cSk := gwrap "deserialize sk: " (deserializeSecretKeyShare ctx sk true) in
    defer^ cfree cSk in
    let^ masks := each (decrypt_mask ctx cSk) 0 encryptedMasks in
    gret (masks, best_index masks)).

(** *** Scoring in the clear *)

Definition with_string {A} (s : string) (k : G L A) : G L A :=
  let^ p := CString s in
  defer^ cfree p in
  k.

Definition ScoreCandidatesCKKS (req : ScoreRequest) : G L ScoreResult :=
  match score_inputs req with
  | inl e => gfail e
  | inr (flatProfiles, flatPackages, packageBytes, slots) =>
    let n := zlen (sr_CandidateProfiles req) in
    with_string (sr_DistanceFunction req) (
    with_string (sr_Comparator req) (
    with_string (sr_MaskMode req) (
    with_string (sr_SelectorSchedule req) (
    let^ _ := addr0 (sr_InitiatorProfile req) in
    let^ _ := addr0 flatProfiles in
    let^ _ := addr0 (intsToC (sr_CandidateLatQ req)) in
    let^ _ := addr0 (intsToC (sr_CandidateLonQ req)) in
    let^ _ := addr0 (intsToC (sr_CandidateBrownies req)) in
    let^ _ := addr0 (intsToC flatPackages) in
    let^ _ := make_buffer n in
    let^ _ := make_buffer slots in
    let^ r := call "ARESScoreCandidatesCKKS" []
      [VReals (sr_InitiatorProfile req); VInt (cint (zlen (sr_InitiatorProfile req))); VInt (cint (sr_InitiatorLatQ req)); VInt (cint (sr_InitiatorLonQ req));
       VReals flatProfiles; VInts (intsToC (sr_CandidateLatQ req)); VInts (intsToC (sr_CandidateLonQ req)); VInts (intsToC (sr_CandidateBrownies req));
       VInt (cint n); VReal (sr_Alpha req); VReal (sr_Beta req); VReal (sr_Gamma req); VStr (sr_DistanceFunction req); VStr (sr_Comparator req);
       VInt (cint (sr_ComparatorDegree req)); VReal (sr_ComparatorGain req); VReal (sr_ComparatorScale req); VReal (sr_ComparatorBound req);
       VStr (sr_MaskMode req); VStr (sr_SelectorSchedule req); VInt (cint (sr_ScalingModSize req)); VInt (cint (sr_FirstModSize req));
       VInts (intsToC flatPackages); VInt (cint packageBytes); VInt (cint slots); VInt 1024] in
    if negb (rc r =? 0) then gfail ("openfhe scoring failed: " +:+ text r) else
    let out := reals r in
    let scores := buffer n out in
    let maskValues := buffer n (drop (Z.to_nat n) out) in
    let payload := drop (Z.to_nat (2 * n)) out in
    gret (mkScored scores maskValues (buffer slots payload) (written r) (default f64_zero (head (drop (Z.to_nat slots) payload))))))))
  end.

(** *** The threshold smoke test *)

Definition party_failed (what : string) (i : nat) : string := "threshold " +:+ what +:+ " party " +:+ pretty (Z.of_nat i) +:+ " failed".

Fixpoint smoke_keys {A} (ctx : handle KCtx) (n i : nat) (pk : handle KPK) (sks : list (handle KSK)) (k : handle KPK -> list (handle KSK) -> G L A) : G L A :=
  match n with
  | O => k pk sks
  | S n => with_keys (make2_or (party_failed "keygen" i) "KeyGenNext" [cell ctx; cell pk] []) (fun pk sk => smoke_keys ctx n (S i) pk (sks ++ [sk]) k)
  end.

Fixpoint smoke_shares {A} (ctx : handle KCtx) (i : nat) (sks : list (handle KSK)) (k : G L A) : G L A :=
  match sks with
  | [] => k
  | sk :: sks =>
    let^ multShare := make_or (k := KMult) (party_failed "eval-mult share" i) "GenEvalMultKeyShare" [cell ctx; cell sk] [] in
    defer^ cfree multShare in
    let^ rotShare := make_or (k := KRot) (party_failed "rotation/eval-sum share" i) "GenRotKeyShare" [cell ctx; cell sk] [] in
    defer^ cfree rotShare in
    smoke_shares ctx (S i) sks k
  end.

Fixpoint smoke_partials {A} (ctx : handle KCtx) (ct : handle KCt) (i : nat) (sks : list (handle KSK)) (partials : list (handle KCt))
    (k : list (handle KCt) -> G L A) : G L A :=
  match sks with
  | [] => k partials
  | sk :: sks =>
    let^ partial := make_or (party_failed "partial decrypt" i) "MultiDecMain" [cell ctx; cell ct; cell sk] [] in
    defer^ cfree partial in
    smoke_partials ctx ct (S i) sks (partials ++ [partial]) k
  end.

(** A serialized object, kept as C memory. *)
Definition with_bytes {A} (err name : string) (hs : list (positive * kind)) (k : bytes -> G L A) : G L A :=
  let^ (data, r) := call1 KMem name hs [] in
  if negb (rc r =? 0) then gfail err else defer^ cfree_opt data in k (mem r).

Definition smoke_values : list float64 := [f64_lit 125 2; f64_lit (-25) 1; f64_of_Z 3; f64_lit 5 1].

Definition ThresholdSmokeCKKS (fmt6 : float64 -> string) (parties : Z) : G L unit :=
  if parties <? 2 then gfail "threshold smoke requires at least two parties" else
  with_context (new_or "failed to create OpenFHE threshold context" "CreateCKKSContext" [] [VInt 1024; VReal scale50; VInt 4; VInt 0]) (fun ctx =>
    with_keys (make2_or "threshold first keygen failed" "KeyGenFirst" [cell ctx] []) (fun pk0 sk0 =>
    smoke_keys ctx (Z.to_nat parties - 1) 1 pk0 [sk0] (fun pk sks =>
    smoke_shares ctx 0 sks (
    with_bytes "joint public-key serialization failed" "SerializePublicKey" [cell pk] (fun pkData =>
    let^ pkRoundTrip := new_or (k := KPK) "joint public-key deserialization failed" "DeserializePublicKey" [cell ctx] [VData pkData] in
    defer^ cfree pkRoundTrip in
    computing "threshold encrypt failed" "Encrypt" [cell ctx; cell pkRoundTrip] [VReals smoke_values; VInt 4] (fun ct =>
    with_bytes "ciphertext serialization failed" "SerializeCiphertext" [cell ct] (fun ctData =>
    computing "ciphertext deserialization failed" "DeserializeCiphertext" [cell ctx] [VData ctData] (fun ctRoundTrip =>
    computing "threshold eval-add failed" "EvalAdd" [cell ctx; cell ctRoundTrip; cell ctRoundTrip] [] (fun doubled =>
    computing "threshold eval-mult-const failed" "EvalMultConst" [cell ctx; cell doubled] [VReal (f64_lit 5 1)] (fun restored =>
    computing "threshold eval-mult failed" "EvalMult" [cell ctx; cell restored; cell restored] [] (fun squared =>
    computing "threshold eval-sum failed" "EvalSum" [cell ctx; cell squared] [VInt 4] (fun summed =>
    smoke_partials ctx summed 0 sks [] (fun partials =>
    let^ _ := addr0 partials in
    let^ r := call "MultiDecFusion" (cell ctx :: cells partials) [VInt (cint parties); VInt 8] in
    if negb (rc r =? 0) then gfail "threshold decrypt fusion failed" else
    if written r =? 0 then gfail "threshold decrypt fusion returned no slots" else
    let want := f64_lit 170625 4 in
    let got := default f64_zero (head (reals r)) in
    if f64_gt (f64_abs (f64_sub got want)) (f64_lit 5 2) then
      gfail ("threshold fused value mismatch: got " +:+ fmt6 got +:+ " want " +:+ fmt6 want)
    else gret tt))))))))))))).
End single.

(** ** Every operation frees what it allocates *)

Section balance.
Context {L : Type} `{CLib L} {HL : CLibLaws} {HS : SmallObjects}.
Implicit Types (hs : list (positive * kind)) (ctx : handle KCtx).

Notation one := (fun h => [cell h]).

Lemma requireNonEmpty_spec name b hs : spec (L := L) hs [] (requireNonEmptyBytes name b) nothing (fun _ => b <> []).
Proof.
  unfold requireNonEmptyBytes. eapply spec_weaken; [apply require_spec|reflexivity|]. intros [] Hb. cbn beta in Hb. by destruct b.
Qed.

Lemma require_origins_spec a b c hs : spec (L := L) hs [] (require_origins a b c) nothing (fun _ => b <> [] /\ c <> []).
Proof.
  unfold require_origins. eapply spec_bind; [apply requireNonEmpty_spec|]. intros [] _. eapply spec_bind; [apply requireNonEmpty_spec|].
  intros [] Hb. unfold nothing. eapply spec_weaken; [apply requireNonEmpty_spec|reflexivity|]. done.
Qed.

Lemma collect_cts_spec ctx (name : nat -> string) raws hs : cell ctx ∈ hs ->
  spec (L := L) hs [] (collect (fun i raw => gwrap (name i) (deserializeCiphertext ctx raw)) 0 raws []) cells (fun l => length l = length raws).
Proof. intros Hc. apply (collect_owns _ anything hs 0 raws []). intros hs' i x Hs. apply Hs in Hc. cgo_steps. Qed.

Lemma cells_in {k} (h : handle k) l : h ∈ l -> cell h ∈ cells l.
Proof. intros Hh. by apply list_elem_of_fmap_2. Qed.

Lemma serialize_each_spec (name : nat -> string) (l : list (handle KCt)) hs : cells l ⊆ hs ->
  balanced hs (each (fun i h => gwrap (name i) (serializeCiphertext (L := L) h)) 0 l).
Proof.
  intros Hl. eapply spec_weaken; [apply (each_spec _ filled)|reflexivity|done]. intros i x Hx. apply spec_wrap, serializeCiphertext_spec, Hl.
  by apply cells_in.
Qed.

Lemma decrypt_one_spec err ctx ct sk hs : cell ctx ∈ hs -> cell ct ∈ hs -> cell sk ∈ hs -> balanced hs (decrypt_one (L := L) err ctx ct sk).
Proof. intros H1 H2 H3. unfolds decrypt_one. Qed.

Lemma decrypt_mask_spec ctx sk i mask hs : cell ctx ∈ hs -> cell sk ∈ hs -> balanced hs (decrypt_mask (L := L) ctx sk i mask).
Proof. intros H1 H2. unfolds decrypt_mask. Qed.

Lemma make_buffer_spec n hs : 0 < n -> balanced hs (make_buffer (L := L) n).
Proof. intros Hn. unfold make_buffer. replace (n <? 0) with false by lia. replace (n =? 0) with false by lia. cgo_steps. Qed.

Lemma counted_written name hc ds (r : reply) n : (exists ps (l : L), r = (c_call name hc ds ps l).2) -> name ∈ counted -> last ds = Some (VInt n) ->
  0 < n -> negb (rc r =? 0) = false -> 0 <= written r <= n.
Proof. intros (ps & l & ->) Hc Hl Hn Hr. eapply law_count; [exact Hc|exact Hl|done|lia]. Qed.

Lemma fuse_partials_spec {A} tag name (wr : reply -> list A) zero partials nSlots ctx hs :
  cell ctx ∈ hs -> name ∈ counted -> partials <> [] -> 0 < nSlots < 2 ^ 31 -> balanced hs (fuse_partials (L := L) tag name wr zero partials nSlots ctx).
Proof.
  intros Hc Hn Hp Hs. unfold fuse_partials. eapply spec_bind; [by apply collect_cts_spec|]. intros handles Hl.
  destruct partials; [done|]. cgo_steps. eapply spec_weaken; [apply filled_part_spec|reflexivity|done].
  rewrite <- (cint_small nSlots) by lia. eapply counted_written; [done..| |done]. rewrite cint_small; lia.
Qed.

Lemma assemble_frees err ctx scaled off hs : cell ctx ∈ hs -> cell off ∈ hs -> spec (L := L) hs [cell scaled] (assemble err ctx scaled off) one anything.
Proof.
  intros H1 H2. unfold assemble. eapply spec_bind_total; [apply call1_spec; subs|]. intros [o r] _. cbn [fst snd].
  eapply spec_perm; [apply Permutation_app_comm|]. apply spec_free_then. destruct o; cgo_steps.
Qed.

#[local] Hint Resolve assemble_frees : cgo.

Lemma auction_scores_spec {A X} w s ctx pk (price : nat -> X -> G L (handle KCt)) i bids scores (k : list (handle KCt) -> G L A) own Q hs :
  cell ctx ∈ hs -> cell pk ∈ hs -> cells scores ⊆ hs -> (forall hs' i x, hs ⊆ hs' -> spec hs' [] (price i x) one anything) ->
  (forall hs' l, hs ⊆ hs' -> cells l ⊆ hs' -> length l = (length scores + length bids)%nat -> spec hs' [] (k l) own Q) ->
  spec hs [] (auction_scores w s ctx pk price i bids scores k) own Q.
Proof.
  intros Hc Hpk. revert i scores hs Hc Hpk. induction bids as [|[x [star dist]] bids IH]; intros i scores hs Hc Hpk Hs Hp Hk; cbn [auction_scores].
  { apply Hk; [reflexivity|done|cbn; lia]. }
  unfold computing. cgo_step. cgo_step. eapply spec_bind; [apply Hp; subs|]. intros pCt _. cgo_steps. apply IH; [mem_in..| | |].
  - rewrite cells_app. subs.
  - intros hs' j y Hsub. apply Hp. etransitivity; [|exact Hsub]. subs.
  - intros hs' l Hsub Hl Hn. apply Hk; [etransitivity; [|exact Hsub]; subs|done|]. rewrite length_app in Hn. cbn in *. lia.
Qed.

Lemma smoke_keys_spec {A} ctx n i pk sks (k : handle KPK -> list (handle KSK) -> G L A) own Q hs :
  cell ctx ∈ hs -> cell pk ∈ hs -> cells sks ⊆ hs ->
  (forall hs' pk l, hs ⊆ hs' -> cell pk ∈ hs' -> cells l ⊆ hs' -> length l = (length sks + n)%nat -> spec hs' [] (k pk l) own Q) ->
  spec hs [] (smoke_keys ctx n i pk sks k) own Q.
Proof.
  revert i pk sks hs. induction n as [|n IH]; intros i pk sks hs Hc Hp Hs Hk; cbn [smoke_keys]; [apply Hk; [reflexivity|done..|lia]|].
  unfold with_keys. cgo_steps. apply IH; [mem_in..| |].
  - rewrite cells_app. subs.
  - intros hs' pk' l Hsub Hp' Hl Hn. apply Hk; [etransitivity; [|exact Hsub]; subs|done..|]. rewrite length_app in Hn. cbn in *. lia.
Qed.

Lemma smoke_shares_spec {A} ctx i sks (k : G L A) own Q hs :
  cell ctx ∈ hs -> cells sks ⊆ hs -> (forall hs', hs ⊆ hs' -> spec hs' [] k own Q) -> spec hs [] (smoke_shares ctx i sks k) own Q.
Proof.
  revert i hs. induction sks as [|sk sks IH]; intros i hs Hc Hs Hk; cbn [smoke_shares]; [by apply Hk|].
  assert (Hsk : cell sk ∈ hs) by (apply Hs; left). assert (Hsks : cells sks ⊆ hs) by (intros c Hin; apply Hs; by right).
  cgo_steps.
Qed.

Lemma smoke_partials_spec {A} ctx ct i sks ps (k : list (handle KCt) -> G L A) own Q hs :
  cell ctx ∈ hs -> cell ct ∈ hs -> cells sks ⊆ hs -> cells ps ⊆ hs ->
  (forall hs' l, hs ⊆ hs' -> cells l ⊆ hs' -> length l = (length ps + length sks)%nat -> spec hs' [] (k l) own Q) ->
  spec hs [] (smoke_partials ctx ct i sks ps k) own Q.
Proof.
  revert i ps hs. induction sks as [|sk sks IH]; intros i ps hs Hc Ht Hs Hp Hk; cbn [smoke_partials].
  { apply Hk; [reflexivity|done|cbn; lia]. }
  assert (Hsk : cell sk ∈ hs) by (apply Hs; left). assert (Hsks : cells sks ⊆ hs) by (intros c Hin; apply Hs; by right).
  cgo_steps. apply IH; [mem_in..|subs| |].
  - rewrite cells_app. subs.
  - intros hs' l Hsub Hl Hn. apply Hk; [etransitivity; [|exact Hsub]; subs|done|]. rewrite length_app in Hn. cbn in *. lia.
Qed.

Lemma with_bytes_spec {A} err name hc (k : bytes -> G L A) own Q hs : hc ⊆ hs -> name ∉ may_leave_output ->
  (forall hs' b, hs ⊆ hs' -> spec hs' [] (k b) own Q) -> spec hs [] (with_bytes err name hc k) own Q.
Proof.
  intros Hsub Hn Hk. unfold with_bytes. eapply spec_bind; [apply total_spec, call1_spec, Hsub|]. intros [o r] Hs. cbn [fst snd] in *.
  pose proof (made_one _ _ _ Hs Hn) as Hm. destruct (rc r =? 0) eqn:Hrc; cbn [negb].
  - apply (spec_defer hs (option_list (cell <$> o)) []); [intros; apply free_opt_cells|]. apply Hk. subs.
  - rewrite (bool_decide_false (rc r = 0)) in Hm by lia. destruct o; [done|]. apply spec_fail.
Qed.
End balance.
End CgoEval.
