(* ===== verification/CgoFuse.v ===== *)
(** * The encryption bindings: fusing and scoring ([bridge.go])

    The requests of the fused scorers, how their ciphertexts are flattened for
    the library and its answer is cut into chunks again, and the union of
    comparators, one after the other or on several workers. *)

From Stdlib Require Import ZifyBool SpecFloat.
From S2P Require Import Prelude Float64 HelperClient HelperServer CgoCore CgoKeys CgoCombine CgoEval.
Import HelperClient HelperServer CgoCore CgoKeys CgoCombine CgoEval.

#[local] Open Scope string_scope.
#[local] Open Scope list_scope.
#[local] Open Scope Z_scope.
#[local] Open Scope go_scope.
#[local] Open Scope cgo_scope.

Module CgoFuse.

(** ** Requests *)

Record FullFuseRequest := mkFuse {
  InitiatorCiphertext : bytes;
  InitiatorLatQ : Z;
  InitiatorLonQ : Z;
  CandidateCiphertexts : list bytes;
  CandidateLatQ : list Z;
  CandidateLonQ : list Z;
  CandidateDistanceCiphertexts : list bytes;
  CandidateBrownies : list Z;
  CandidatePackages : list (list Z);
  CandidatePayloadCiphertexts : list (list bytes);
  FuseProfileDim : Z;
  Alpha : float64;
  Beta : float64;
  Gamma : float64;
  Comparator : string;
  ComparatorDegree : Z;
  ComparatorGain : float64;
  ComparatorScale : float64;
  ComparatorBound : float64;
  SelectorSchedule : string;
  FuseEvalKeys : EvalKeyFinal;
  PackageBytes : Z;
  FusePayloadSlotCount : Z;
  FuseMinimalRotationKeys : bool
}.

#[export] Instance FullFuseRequest_eta : Eta FullFuseRequest := fun r =>
  mkFuse (InitiatorCiphertext r) (InitiatorLatQ r) (InitiatorLonQ r) (CandidateCiphertexts r) (CandidateLatQ r) (CandidateLonQ r)
    (CandidateDistanceCiphertexts r) (CandidateBrownies r) (CandidatePackages r) (CandidatePayloadCiphertexts r) (FuseProfileDim r) (Alpha r)
    (Beta r) (Gamma r) (Comparator r) (ComparatorDegree r) (ComparatorGain r) (ComparatorScale r) (ComparatorBound r) (SelectorSchedule r)
    (FuseEvalKeys r) (PackageBytes r) (FusePayloadSlotCount r) (FuseMinimalRotationKeys r).

(** Without raw packages and coordinates. *)
Record EncryptedInputFuseRequest := mkEncryptedInput {
  ei_InitiatorCiphertext : bytes;
  ei_CandidateCiphertexts : list bytes;
  ei_CandidateDistanceCiphertexts : list bytes;
  ei_CandidateBrownies : list Z;
  ei_CandidatePayloadCiphertexts : list (list bytes);
  ei_ProfileDim : Z;
  ei_Alpha : float64;
  ei_Beta : float64;
  ei_Gamma : float64;
  ei_Comparator : string;
  ei_ComparatorDegree : Z;
  ei_ComparatorGain : float64;
  ei_ComparatorScale : float64;
  ei_ComparatorBound : float64;
  ei_SelectorSchedule : string;
  ei_EvalKeys : EvalKeyFinal;
  ei_PayloadSlotCount : Z
}.

Record BFVBlindFuseRequest := mkBlind {
  bf_InitiatorCiphertext : bytes;
  bf_CandidateProfileCiphertexts : list bytes;
  bf_CandidatePayloadCiphertexts : list bytes;
  bf_CandidateDistanceCiphertexts : list bytes;
  bf_CandidateBrownies : list Z;
  bf_ProfileDim : Z;
  bf_ProfileWeight : Z;
  bf_DistanceWeight : Z;
  bf_BrownieWeight : Z;
  bf_PackageBytes : Z;
  bf_EvalKeys : EvalKeyFinal;
  bf_StepCoefficients : list Z
}.

Definition fullFuseRequest (req : EncryptedInputFuseRequest) : FullFuseRequest :=
  mkFuse (ei_InitiatorCiphertext req) 0 0 (ei_CandidateCiphertexts req) [] [] (ei_CandidateDistanceCiphertexts req) (ei_CandidateBrownies req) []
    (ei_CandidatePayloadCiphertexts req) (ei_ProfileDim req) (ei_Alpha req) (ei_Beta req) (ei_Gamma req) (ei_Comparator req) (ei_ComparatorDegree req)
    (ei_ComparatorGain req) (ei_ComparatorScale req) (ei_ComparatorBound req) (ei_SelectorSchedule req) (ei_EvalKeys req) 0 (ei_PayloadSlotCount req) false.

Definition encryptedInputFuseRequestFromFull (req : FullFuseRequest) : EncryptedInputFuseRequest :=
  mkEncryptedInput (InitiatorCiphertext req) (CandidateCiphertexts req) (CandidateDistanceCiphertexts req) (CandidateBrownies req)
    (CandidatePayloadCiphertexts req) (FuseProfileDim req) (Alpha req) (Beta req) (Gamma req) (Comparator req) (ComparatorDegree req)
    (ComparatorGain req) (ComparatorScale req) (ComparatorBound req) (SelectorSchedule req) (FuseEvalKeys req) (FusePayloadSlotCount req).

(** [for chunkSize < dim { chunkSize <<= 1 }] on [int]. *)
Fixpoint grow64 (fuel : nat) (size dim : Z) : option Z :=
  match fuel with
  | O => None
  | S fuel => if size <? dim then grow64 fuel (wrap64 (size * 2)) dim else Some size
  end.

(** After 65 rounds the shifted value is 0 and stays 0. *)
Definition chunk_size (dim : Z) : option Z := grow64 66 1 dim.

(** ** Flattening *)

Definition concatCandidateCiphertexts (cts : list bytes) : bytes * list Z := (concat cts, zlen <$> cts).

Definition defaultStringGo (value fallback : string) : string := if String.eqb value "" then fallback else value.

(** The index of the first empty ciphertext. *)
Fixpoint first_empty (i : nat) (cts : list bytes) : option nat :=
  match cts with [] => None | ct :: cts => if zlen ct =? 0 then Some i else first_empty (S i) cts end.

Definition chunk_text (candidate : nat) : string := "encrypted payload candidate " +:+ pretty (Z.of_nat candidate).

(** The chunks of the candidates, each of which must have [nChunks] non-empty
    ones. *)
Fixpoint flatten_chunks (candidate : nat) (nChunks : Z) (payloads : list (list bytes)) : string + list bytes :=
  match payloads with
  | [] => inr []
  | chunks :: payloads =>
    if negb (zlen chunks =? nChunks) then
      inl (chunk_text candidate +:+ " chunk count = " +:+ pretty (zlen chunks) +:+ ", want " +:+ pretty nChunks)
    else match first_empty 0 chunks with
    | Some chunk => inl (chunk_text candidate +:+ " chunk " +:+ pretty (Z.of_nat chunk) +:+ " is empty")
    | None => match flatten_chunks (S candidate) nChunks payloads with inl e => inl e | inr l => inr (chunks ++ l) end
    end
  end.

Definition keys_missing (keys : EvalKeyFinal) : bool := (zlen (EvalMultFinal keys) =? 0) || (zlen (EvalSumFinal keys) =? 0).

(** The checks before the loop. *)
Definition payload_checks (req : FullFuseRequest) (requireEvalKeys : bool) : option string :=
  let n := zlen (CandidateCiphertexts req) in
  let keys := FuseEvalKeys req in
  if zlen (InitiatorCiphertext req) =? 0 then Some "initiator ciphertext is required" else
  if n =? 0 then Some "at least one candidate ciphertext is required" else
  if negb (zlen (CandidateBrownies req) =? n) then Some "candidate metadata counts must match ciphertext count" else
  if (zlen (CandidateDistanceCiphertexts req) =? 0) && (negb (zlen (CandidateLatQ req) =? n) || negb (zlen (CandidateLonQ req) =? n)) then
    Some "candidate coordinate counts must match ciphertext count" else
  if negb (zlen (CandidateDistanceCiphertexts req) =? 0) && (negb (zlen (CandidateLatQ req) =? 0) || negb (zlen (CandidateLonQ req) =? 0)) then
    Some "encrypted distance mode cannot include candidate coordinates" else
  if negb (zlen (CandidatePackages req) =? 0) then Some "encrypted payload fusion cannot include plaintext candidate packages" else
  if (FuseProfileDim req <=? 0) || (FusePayloadSlotCount req <=? 0) then Some "profileDim and payloadSlotCount must be positive" else
  if requireEvalKeys then
    if keys_missing keys then Some "final eval-mult and eval-sum keys are required" else None
  else if negb (Bool.eqb (zlen (EvalMultFinal keys) =? 0) (zlen (EvalSumFinal keys) =? 0)) then
    Some "eval-mult and eval-sum keys must be supplied together"
  else None.

Section flatten.
Context {L : Type} `{CLib L}.

Definition lifted {A} (r : string + A) : G L A := match r with inl e => gfail e | inr a => gret a end.

Definition requirePlainPayloadMode (req : FullFuseRequest) : G L unit :=
  require (zlen (CandidatePayloadCiphertexts req) =? 0) "plaintext package fusion cannot also include encrypted payload chunks".

Definition flattenEncryptedPayloadCiphertexts (req : FullFuseRequest) (requireEvalKeys : bool) : G L (Z * Z * bytes * list Z) :=
  match payload_checks req requireEvalKeys with
  | Some e => gfail e
  | None =>
    let n := zlen (CandidateCiphertexts req) in
    match chunk_size (FuseProfileDim req) with
    | None => gfault Diverges
    | Some chunkSize =>
      let nChunks := Z.quot (wrap64 (FusePayloadSlotCount req + chunkSize - 1)) chunkSize in
      if 256 <? nChunks then gfail ("encrypted payload has " +:+ pretty nChunks +:+ " chunks; maximum is 256") else
      if negb (zlen (CandidatePayloadCiphertexts req) =? n) then
        gfail ("encrypted payload candidate count = " +:+ pretty (zlen (CandidatePayloadCiphertexts req)) +:+ ", want " +:+ pretty n) else
      if nChunks <? 0 then gfault NegativeLength else
      let^ chunks := lifted (flatten_chunks 0 nChunks (CandidatePayloadCiphertexts req)) in
      let '(blob, lens) := concatCandidateCiphertexts chunks in
      gret (n, nChunks, blob, lens)
    end
  end.

Definition flattenEncryptedDistanceCiphertexts (req : FullFuseRequest) (n : Z) : G L (bytes * list Z) :=
  if negb (zlen (CandidateDistanceCiphertexts req) =? n) then
    gfail ("encrypted distance candidate count = " +:+ pretty (zlen (CandidateDistanceCiphertexts req)) +:+ ", want " +:+ pretty n) else
  if negb (zlen (CandidateLatQ req) =? 0) || negb (zlen (CandidateLonQ req) =? 0) then
    gfail "encrypted distance mode cannot include candidate coordinates" else
  match first_empty 0 (CandidateDistanceCiphertexts req) with
  | Some i => gfail ("encrypted distance ciphertext " +:+ pretty (Z.of_nat i) +:+ " is empty")
  | None => gret (concatCandidateCiphertexts (CandidateDistanceCiphertexts req))
  end.

Fixpoint packages_from (i : nat) (packageBytes : Z) (packages : list (list Z)) : string + list Z :=
  match packages with
  | [] => inr []
  | pkg :: packages =>
    if negb (zlen pkg =? packageBytes) then
      inl ("candidate package " +:+ pretty (Z.of_nat i) +:+ " length = " +:+ pretty (zlen pkg) +:+ ", want " +:+ pretty packageBytes)
    else if existsb (fun v => (v <? 0) || (255 <? v)) pkg then inl ("candidate package " +:+ pretty (Z.of_nat i) +:+ " contains byte out of range")
    else match packages_from (S i) packageBytes packages with inl e => inl e | inr l => inr (intsToCInts pkg ++ l) end
  end.

(** The slice is made for [len(packages)*packageBytes] values before anything
    is checked. *)
Definition flattenCandidatePackages (packages : list (list Z)) (packageBytes : Z) : G L (list Z) :=
  if wrap64 (zlen packages * packageBytes) <? 0 then gfault NegativeLength else lifted (packages_from 0 packageBytes packages).
End flatten.

(** ** Cutting the answer *)

(** [chunks[c] = blob[off : off+l]]; a length beyond the blob panics. *)
Fixpoint split_chunks (lens : list Z) (blob : bytes) : option (list bytes) :=
  match lens with
  | [] => Some []
  | l :: lens => if (l <? 0) || (zlen blob <? l) then None
    else cons (take (Z.to_nat l) blob) <$> split_chunks lens (drop (Z.to_nat l) blob)
  end.

(** The same with the lengths checked, and nothing left over. *)
Fixpoint split_checked (what : string) (chunk : nat) (lens : list Z) (blob : bytes) : string + list bytes :=
  match lens with
  | [] => if zlen blob =? 0 then inr [] else inl ("encrypted " +:+ what +:+ " output length does not match chunk lengths")
  | l :: lens =>
    if (l <=? 0) || (zlen blob <? l) then inl ("invalid serialized encrypted " +:+ what +:+ " chunk " +:+ pretty (Z.of_nat chunk) +:+ " length")
    else match split_checked what (S chunk) lens (drop (Z.to_nat l) blob) with inl e => inl e | inr cs => inr (take (Z.to_nat l) blob :: cs) end
  end.

Definition max_chunks : Z := 256.

(** The lengths of [n] chunks in a table of 256. *)
Definition chunk_lens (n : Z) (r : reply) : list Z := take (Z.to_nat n) (tail (ints r) ++ replicate 256 0).

Section fuse.
Context {L : Type} `{CLib L}.

(** ** Plaintext packages *)

Definition counts_match (req : FullFuseRequest) : bool :=
  let n := zlen (CandidateCiphertexts req) in
  (zlen (CandidateLatQ req) =? n) && (zlen (CandidateLonQ req) =? n) && (zlen (CandidateBrownies req) =? n) && (zlen (CandidatePackages req) =? n).

(** The checks of [FullFusePayloadCKKS] and [ChunkedFusePayloadCKKS]. *)
Definition plain_checks (req : FullFuseRequest) : G L unit :=
  let^ _ := requirePlainPayloadMode req in
  let^ _ := require (negb (zlen (InitiatorCiphertext req) =? 0)) "initiator ciphertext is required" in
  let^ _ := require (negb (zlen (CandidateCiphertexts req) =? 0)) "at least one candidate ciphertext is required" in
  let^ _ := require (counts_match req) "candidate metadata counts must match ciphertext count" in
  let^ _ := require (negb (keys_missing (FuseEvalKeys req))) "final eval-mult and eval-sum keys are required" in
  let^ _ := require (0 <? PackageBytes req) "packageBytes must be positive" in
  require (0 <? FusePayloadSlotCount req) "payloadSlotCount must be positive".

(** The checks of their variants with a context. *)
Definition context_checks (ctx : CryptoContext) (req : FullFuseRequest) : G L (handle KCtx) :=
  let^ _ := requirePlainPayloadMode req in
  match ctx with
  | None => gfail "crypto context is required"
  | Some handle =>
    let keys := FuseEvalKeys req in
    let^ _ := require (negb ((zlen (CandidateCiphertexts req) =? 0) || (zlen (InitiatorCiphertext req) =? 0)))
      "initiator and at least one candidate ciphertext required" in
    let^ _ := require (counts_match req) "candidate metadata counts must match ciphertext count" in
    let preinserted := (zlen (EvalMultFinal keys) =? 0) && (zlen (EvalSumFinal keys) =? 0) in
    let^ _ := require (negb ((zlen (EvalMultFinal keys) =? 0) && negb preinserted)) "final eval-mult key is required" in
    let^ _ := require (0 <? PackageBytes req) "packageBytes must be positive" in
    let^ _ := require (0 <? FusePayloadSlotCount req) "payloadSlotCount must be positive" in
    gret handle
  end.

(** [if len(key) > 0 { ptr, n = &key[0], len(key) }], a nil pointer otherwise. *)
Definition key_arg (key : bytes) : cval := if 0 <? zlen key then VData key else VNull.

Definition comparator_args (req : FullFuseRequest) : list cval :=
  [VReal (Alpha req); VReal (Beta req); VReal (Gamma req); VStr (defaultStringGo (Comparator req) "tanh_chebyshev"); VInt (cint (ComparatorDegree req));
   VReal (ComparatorGain req); VReal (ComparatorScale req); VReal (ComparatorBound req); VStr (defaultStringGo (SelectorSchedule req) "none")].

(** What every fusion hands to the library: the context's parameters [env],
    the ciphertexts, the candidates' data, the comparator and the keys. *)
Definition plain_args (env : list cval) (req : FullFuseRequest) (blob : bytes) (lens packages : list Z) (keys : list cval) : list cval :=
  env ++ [VData (InitiatorCiphertext req); VData blob; VInts lens; VInts (intsToCInts (CandidateLatQ req)); VInts (intsToCInts (CandidateLonQ req));
    VInts (intsToCInts (CandidateBrownies req)); VInt (cint (zlen (CandidateCiphertexts req))); VInt (cint (FuseProfileDim req));
    VInt (cint (InitiatorLatQ req)); VInt (cint (InitiatorLonQ req))] ++ comparator_args req ++ keys
  ++ [VInts packages; VInt (cint (PackageBytes req)); VInt (cint (FusePayloadSlotCount req))].

(** The packages and the two strings, and the addresses the call takes. *)
Definition plain_call {A} (env : list cval) (req : FullFuseRequest) (keys : list cval) (k : list cval -> G L A) : G L A :=
  let '(blob, lens) := concatCandidateCiphertexts (CandidateCiphertexts req) in
  let^ packages := flattenCandidatePackages (CandidatePackages req) (PackageBytes req) in
  with_string (defaultStringGo (Comparator req) "tanh_chebyshev") (
  with_string (defaultStringGo (SelectorSchedule req) "none") (
  let^ _ := addr0 (InitiatorCiphertext req) in
  let^ _ := addr0 blob in
  let^ _ := addr0 lens in
  let^ _ := addr0 (intsToCInts (CandidateLatQ req)) in
  let^ _ := addr0 (intsToCInts (CandidateLonQ req)) in
  let^ _ := addr0 (intsToCInts (CandidateBrownies req)) in
  let^ _ := addr0 packages in
  k (plain_args env req blob lens packages keys))).

Definition own_context (params : ContractParams) : list cval := [VNull; VInt (RingDim params); VReal (ScalingFactor params); VInt (Depth params)].
Definition given_context : list cval := [VInt 0; VReal f64_zero; VInt 0].

Definition minimal_flag (req : FullFuseRequest) : list cval := [VInt (if FuseMinimalRotationKeys req then 1 else 0)].

Definition final_keys (req : FullFuseRequest) : list cval := [VData (EvalMultFinal (FuseEvalKeys req)); VData (EvalSumFinal (FuseEvalKeys req))].
Definition given_keys (req : FullFuseRequest) : list cval := [key_arg (EvalMultFinal (FuseEvalKeys req)); key_arg (EvalSumFinal (FuseEvalKeys req))].

Definition FullFusePayloadCKKS (params : ContractParams) (req : FullFuseRequest) : G L bytes :=
  let^ _ := plain_checks req in
  match first_empty 0 (CandidateCiphertexts req) with
  | Some i => gfail ("candidate ciphertext " +:+ pretty (Z.of_nat i) +:+ " is empty")
  | None =>
    plain_call (own_context params) req (final_keys req) (fun args =>
    let^ _ := addr0 (EvalMultFinal (FuseEvalKeys req)) in
    let^ _ := addr0 (EvalSumFinal (FuseEvalKeys req)) in
    bytes_with (fun r => "openfhe full payload fusion failed: " +:+ text r) "ARESFullFusePayloadCKKS" [] (args ++ minimal_flag req))
  end.

(** [result := C.GoBytes(out, n); C.free(out)]. *)
Definition take_bytes {k} (out : option (handle k)) (b : bytes) : G L bytes :=
  let^ result := GoBytes b in
  let^ _ := cfree_opt out in
  gret result.

Definition FullFusePayloadCKKSWithContext (ctx : CryptoContext) (req : FullFuseRequest) : G L bytes :=
  let^ handle := context_checks ctx req in
  plain_call given_context req (given_keys req) (fun args =>
  let^ (out, r) := call1 KMem "ARESFullFusePayloadCKKS" [cell handle] (args ++ minimal_flag req) in
  if negb (rc r =? 0) then gfail ("full fuse payload: " +:+ text r) else take_bytes out (mem r)).

(** The library's chunks, cut by the lengths it reports. *)
Definition fuse_chunks (hs : list (positive * kind)) (args : list cval) : G L (list bytes) :=
  let^ (out, r) := call1 KMem "ARESChunkedFusePayloadCKKS" hs args in
  if negb (rc r =? 0) then gfail ("chunked fuse payload: " +:+ text r) else
  let nChunks := written r in
  if max_chunks <? nChunks then
    let^ _ := cfree_opt out in
    gfail ("chunked fuse produced " +:+ pretty nChunks +:+ " chunks > cap " +:+ pretty max_chunks)
  else
    let^ blob := take_bytes out (mem r) in
    if nChunks <? 0 then gfault NegativeLength else
    match split_chunks (chunk_lens nChunks r) blob with
    | None => gfault IndexPanic
    | Some chunks => gret chunks
    end.

Definition ChunkedFusePayloadCKKS (params : ContractParams) (req : FullFuseRequest) : G L (list bytes) :=
  let^ _ := plain_checks req in
  plain_call (own_context params) req (final_keys req) (fun args =>
  let^ _ := addr0 (EvalMultFinal (FuseEvalKeys req)) in
  let^ _ := addr0 (EvalSumFinal (FuseEvalKeys req)) in
  fuse_chunks [] args).

Definition ChunkedFusePayloadCKKSWithContext (ctx : CryptoContext) (req : FullFuseRequest) : G L (list bytes) :=
  let^ handle := context_checks ctx req in
  plain_call given_context req (given_keys req) (fun args => fuse_chunks [cell handle] args).

(** ** Encrypted payloads *)

(** Call the library, and check and cut its answer. *)
Definition fuse_encrypted (what name : string) (ctx : CryptoContext) (args : list cval) (expectedChunks : Z) : G L (list bytes) :=
  let^ (out, r) := call1 KMem name (option_list (cell <$> ctx)) args in
  if negb (rc r =? 0) then gfail ("chunked encrypted " +:+ what +:+ " fusion: " +:+ text r) else
  match out with
  | None => gfail ("chunked encrypted " +:+ what +:+ " fusion returned no ciphertexts")
  | Some out =>
    defer^ cfree out in
    if negb (written r =? expectedChunks) then
      gfail ("chunked encrypted " +:+ what +:+ " fusion produced " +:+ pretty (written r) +:+ " chunks, want " +:+ pretty expectedChunks)
    else
      let^ blob := GoBytes (mem r) in
      lifted (split_checked what 0 (chunk_lens (written r) r) blob)
  end.

Definition context_args (ctx : CryptoContext) (params : ContractParams) : list cval :=
  match ctx with Some _ => given_context | None => own_context params end.

Definition candidates_filled (req : FullFuseRequest) : G L unit :=
  match first_empty 0 (CandidateCiphertexts req) with
  | Some i => gfail ("candidate ciphertext " +:+ pretty (Z.of_nat i) +:+ " is empty")
  | None => gret tt
  end.

Definition chunkedFuseEncryptedPayloadCKKS (ctx : CryptoContext) (params : ContractParams) (req : FullFuseRequest) : G L (list bytes) :=
  if negb (zlen (CandidateDistanceCiphertexts req) =? 0) then
    gfail "encrypted payload fusion with raw coordinates cannot include encrypted distances" else
  let^ (n, expectedChunks, payloadBlob, payloadLens) :=
    flattenEncryptedPayloadCiphertexts req (match ctx with None => true | Some _ => false end) in
  let^ _ := candidates_filled req in
  let '(candidateBlob, candidateLens) := concatCandidateCiphertexts (CandidateCiphertexts req) in
  with_string (defaultStringGo (Comparator req) "tanh_chebyshev") (
  with_string (defaultStringGo (SelectorSchedule req) "none") (
  let^ _ := addr0 (InitiatorCiphertext req) in
  let^ _ := addr0 candidateBlob in
  let^ _ := addr0 candidateLens in
  let^ _ := addr0 (intsToCInts (CandidateLatQ req)) in
  let^ _ := addr0 (intsToCInts (CandidateLonQ req)) in
  let^ _ := addr0 (intsToCInts (CandidateBrownies req)) in
  let^ _ := addr0 payloadBlob in
  let^ _ := addr0 payloadLens in
  fuse_encrypted "payload" "ARESChunkedFuseEncryptedPayloadCKKS" ctx
    (context_args ctx params ++ [VData (InitiatorCiphertext req); VData candidateBlob; VInts candidateLens; VInts (intsToCInts (CandidateLatQ req));
       VInts (intsToCInts (CandidateLonQ req)); VInts (intsToCInts (CandidateBrownies req)); VInt (cint n); VInt (cint (FuseProfileDim req));
       VInt (cint (InitiatorLatQ req)); VInt (cint (InitiatorLonQ req))] ++ comparator_args req ++ given_keys req
     ++ [VData payloadBlob; VInts payloadLens; VInt (cint (zlen payloadLens)); VInt (cint (FusePayloadSlotCount req))]) expectedChunks)).

Definition ChunkedFuseEncryptedPayloadCKKS (params : ContractParams) (req : FullFuseRequest) : G L (list bytes) :=
  chunkedFuseEncryptedPayloadCKKS None params req.

Definition no_contract : ContractParams := mkContract 0 f64_zero 0 false 0 0 false.

Definition ChunkedFuseEncryptedPayloadCKKSWithContext (ctx : CryptoContext) (req : FullFuseRequest) : G L (list bytes) :=
  match ctx with None => gfail "crypto context is required" | Some _ => chunkedFuseEncryptedPayloadCKKS ctx no_contract req end.

Definition chunkedFuseEncryptedInputsCKKS (ctx : CryptoContext) (params : ContractParams) (req : FullFuseRequest) : G L (list bytes) :=
  let^ (n, expectedChunks, payloadBlob, payloadLens) :=
    flattenEncryptedPayloadCiphertexts req (match ctx with None => true | Some _ => false end) in
  let^ (distanceBlob, distanceLens) := flattenEncryptedDistanceCiphertexts req n in
  let^ _ := candidates_filled req in
  let '(candidateBlob, candidateLens) := concatCandidateCiphertexts (CandidateCiphertexts req) in
  with_string (defaultStringGo (Comparator req) "tanh_chebyshev") (
  with_string (defaultStringGo (SelectorSchedule req) "none") (
  let^ _ := addr0 (InitiatorCiphertext req) in
  let^ _ := addr0 candidateBlob in
  let^ _ := addr0 candidateLens in
  let^ _ := addr0 (intsToCInts (CandidateBrownies req)) in
  let^ _ := addr0 distanceBlob in
  let^ _ := addr0 distanceLens in
  let^ _ := addr0 payloadBlob in
  let^ _ := addr0 payloadLens in
  fuse_encrypted "input" "ARESChunkedFuseEncryptedInputsCKKS" ctx
    (context_args ctx params ++ [VData (InitiatorCiphertext req); VData candidateBlob; VInts candidateLens;
       VInts (intsToCInts (CandidateBrownies req)); VInt (cint n); VInt (cint (FuseProfileDim req))] ++ comparator_args req ++ given_keys req
     ++ [VData distanceBlob; VInts distanceLens; VInt (cint (zlen distanceLens)); VData payloadBlob; VInts payloadLens;
         VInt (cint (zlen payloadLens)); VInt (cint (FusePayloadSlotCount req))]) expectedChunks)).

Definition ChunkedFuseEncryptedInputsCKKS (params : ContractParams) (req : EncryptedInputFuseRequest) : G L (list bytes) :=
  chunkedFuseEncryptedInputsCKKS None params (fullFuseRequest req).

Definition ChunkedFuseEncryptedInputsCKKSWithContext (ctx : CryptoContext) (req : EncryptedInputFuseRequest) : G L (list bytes) :=
  match ctx with None => gfail "crypto context is required" | Some _ => chunkedFuseEncryptedInputsCKKS ctx no_contract (fullFuseRequest req) end.

(** ** Exact fallback *)

(** [pinCiphertexts]: the first empty ciphertext is an error. *)
Definition pin (label : string) (cts : list bytes) : G L unit :=
  match first_empty 0 cts with
  | Some i => gfail ("candidate " +:+ pretty (Z.of_nat i) +:+ " " +:+ label +:+ " ciphertext is empty")
  | None => gret tt
  end.

Definition with_table {A} (n : Z) (k : G L A) : G L A :=
  let^ memory := new_or (k := KMem) "allocate BFV ciphertext pointer table" "malloc" [] [VInt (n * 8)] in
  defer^ cfree memory in
  k.

Definition BlindFusePayloadBFVForContract (params : BFVContractParams) (req : BFVBlindFuseRequest) : G L bytes :=
  let n := zlen (bf_CandidateProfileCiphertexts req) in
  let^ _ := requireNonEmptyBytes "initiator ciphertext" (bf_InitiatorCiphertext req) in
  let^ _ := require (negb (n <? 2)) "at least two BFV candidates are required" in
  let^ _ := require ((zlen (bf_CandidateDistanceCiphertexts req) =? n) && (zlen (bf_CandidatePayloadCiphertexts req) =? n)
      && (zlen (bf_CandidateBrownies req) =? n)) "BFV candidate ciphertext and brownie counts must match" in
  let^ _ := require (negb (keys_missing (bf_EvalKeys req))) "final BFV eval-mult and eval-sum keys are required" in
  let^ _ := require (negb ((bf_ProfileDim req <=? 0) || (bf_PackageBytes req <=? 0) || (zlen (bf_StepCoefficients req) =? 0)))
      "BFV profile dimension, package size, and step coefficients are required" in
  with_table n (
  with_table n (
  with_table n (
  let^ _ := pin "profile" (bf_CandidateProfileCiphertexts req) in
  let^ _ := pin "distance" (bf_CandidateDistanceCiphertexts req) in
  let^ _ := pin "payload" (bf_CandidatePayloadCiphertexts req) in
  let^ _ := addr0 (EvalMultFinal (bf_EvalKeys req)) in
  let^ _ := addr0 (EvalSumFinal (bf_EvalKeys req)) in
  let^ _ := addr0 (bf_InitiatorCiphertext req) in
  let^ _ := addr0 (intsToCInts (bf_CandidateBrownies req)) in
  let^ _ := addr0 (bf_StepCoefficients req) in
  bytes_guarded (fun r => "openfhe BFV blind payload fusion failed: " +:+ text r) "ARESBlindFusePayloadBFV" []
    ([VInt (BFVRingDim params); VInt (MultiplicativeDepth params); VInt (PlaintextModulus params); VInt (wrap32u (BatchSize params));
      VData (EvalMultFinal (bf_EvalKeys req)); VData (EvalSumFinal (bf_EvalKeys req)); VData (bf_InitiatorCiphertext req)]
     ++ (VData <$> bf_CandidateProfileCiphertexts req) ++ (VData <$> bf_CandidateDistanceCiphertexts req) ++ (VData <$> bf_CandidatePayloadCiphertexts req)
     ++ [VInts (intsToCInts (bf_CandidateBrownies req)); VInt (cint n); VInt (cint (bf_ProfileDim req)); VInt (bf_ProfileWeight req);
         VInt (bf_DistanceWeight req); VInt (bf_BrownieWeight req); VInt (cint (bf_PackageBytes req)); VInts (bf_StepCoefficients req);
         VInt (cint (zlen (bf_StepCoefficients req)))])))).
End fuse.

(** ** The union of comparators *)

Record UnionComparator := mkComparator {
  uc_ID : string;
  uc_Comparator : string;
  uc_Schedule : string;
  uc_Gain : float64;
  uc_Bound : float64;
  uc_InputScale : float64;
  uc_RangeMargin : float64;
  uc_Degree : Z
}.

#[export] Instance UnionComparator_eta : Eta UnionComparator := fun c =>
  mkComparator (uc_ID c) (uc_Comparator c) (uc_Schedule c) (uc_Gain c) (uc_Bound c) (uc_InputScale c) (uc_RangeMargin c) (uc_Degree c).

Record DistributionMetadata := mkMetadata { MinMargin : float64; MedianMargin : float64; MaxMargin : float64; MaxPairwiseDiff : float64 }.

(** *** Tuning *)

Definition dot (a b : list float64) : float64 := foldl (fun d p => f64_add d (f64_mul p.1 p.2)) f64_zero (zip a b).

(** One candidate's score [d] against the best, the second and the worst. *)
Definition rank (s : float64 * float64 * float64) (d : float64) : float64 * float64 * float64 :=
  let '(best, second, worst) := s in
  let '(best', second') := if f64_gt d best then (d, best) else if f64_gt d second then (best, d) else (best, second) in
  (best', second', if f64_lt d worst then d else worst).

(** The margin of a cohort between the two best, and between best and worst. *)
Definition cohort_margins (ch : list (list float64)) : option (float64 * float64) :=
  if zlen ch <? 3 then None else
  let init := default [] (head ch) in
  let '(best, second, worst) := foldl (fun s cand => rank s (dot init cand)) (f64_neg f64_inf, f64_neg f64_inf, f64_inf) (tail ch) in
  Some (f64_sub best second, f64_sub best worst).

(** The order of [sort.Float64s]: not-a-number first. *)
Definition float_le (x y : float64) : Prop := f64_is_nan x || f64_le x y = true.

#[export] Instance float_le_dec : RelDecision float_le.
Proof. intros x y. unfold float_le. apply _. Defined.

Definition MarginStatsFromCohorts (cohorts : list (list (list float64))) : DistributionMetadata :=
  let ms := omap cohort_margins cohorts in
  let maxPairwise := foldl (fun m p => if f64_gt p.2 m then p.2 else m) f64_zero ms in
  match ms with
  | [] => mkMetadata (f64_lit 5 3) (f64_lit 126 4) (f64_lit 5 2) (f64_lit 5 2)
  | _ =>
    let margins := merge_sort float_le ms.*1 in
    let at_ i := default f64_zero (margins !! i) in
    let top := at_ (length margins - 1)%nat in
    mkMetadata (at_ 0%nat) (at_ (Nat.div2 (length margins))) top (if f64_le maxPairwise f64_zero then top else maxPairwise)
  end.

Definition tune_one (scoreScale rangeMargin target : float64) (c : UnionComparator) : UnionComparator :=
  let compRangeMargin := if f64_gt (uc_RangeMargin c) f64_zero then uc_RangeMargin c else rangeMargin in
  let compMaxDiff := f64_mul (f64_div scoreScale (f64_of_Z 2)) compRangeMargin in
  let compMaxDiff := if f64_le compMaxDiff f64_zero then target else compMaxDiff in
  let s := if f64_gt (uc_Bound c) f64_zero then f64_div (uc_Bound c) (f64_mul compMaxDiff (f64_lit 115 2))
           else f64_div (f64_lit 67 1) (f64_mul compMaxDiff (f64_lit 105 2)) in
  c <| uc_InputScale := if f64_gt s f64_one then f64_one else s |>.

Definition TuneUnion (meta : DistributionMetadata) (base : list UnionComparator) (target : float64) : float64 * list UnionComparator :=
  let target := if f64_le target f64_zero then f64_of_Z 4 else target in
  let med := if f64_le (MedianMargin meta) f64_zero then f64_lit 126 4 else MedianMargin meta in
  let scoreScale := f64_div (f64_mul (f64_of_Z 2) target) med in
  let rangeMargin := if f64_gt (MaxPairwiseDiff meta) (MaxMargin meta) then MaxPairwiseDiff meta else MaxMargin meta in
  (scoreScale, tune_one scoreScale rangeMargin target <$> base).

Definition clampUnionConcurrency (concurrency : Z) (comparators : list UnionComparator) : Z :=
  let concurrency := if concurrency <=? 0 then 1 else concurrency in
  if zlen comparators <? concurrency then zlen comparators else concurrency.

Definition unionComparatorRequest (req : FullFuseRequest) (comp : UnionComparator) (usePreinsertedEvalKeys : bool) : FullFuseRequest :=
  let r := req <| Comparator := uc_Comparator comp |> <| SelectorSchedule := uc_Schedule comp |> <| ComparatorGain := uc_Gain comp |>
    <| ComparatorBound := uc_Bound comp |> <| ComparatorScale := uc_InputScale comp |> <| ComparatorDegree := uc_Degree comp |> in
  if usePreinsertedEvalKeys then r <| FuseEvalKeys := mkFinal [] [] |> else r.

(** *** Scoring *)

(** The order in which [n] jobs finish on several workers. *)
Class Workers := {
  finish : nat -> list nat;
  finish_perm : forall n, finish n ≡ₚ seq 0 n
}.

Section union.
Context {L : Type} `{CLib L}.

Definition Fuser : Type := CryptoContext -> FullFuseRequest -> UnionComparator -> bool -> G L (list bytes).

Definition chunkedUnionComparatorWithContext : Fuser := fun ctx req comp pre =>
  ChunkedFusePayloadCKKSWithContext ctx (unionComparatorRequest req comp pre).
Definition chunkedEncryptedUnionComparatorWithContext : Fuser := fun ctx req comp pre =>
  ChunkedFuseEncryptedPayloadCKKSWithContext ctx (unionComparatorRequest req comp pre).
Definition chunkedEncryptedInputUnionComparatorWithContext : Fuser := fun ctx req comp pre =>
  ChunkedFuseEncryptedInputsCKKSWithContext ctx (encryptedInputFuseRequestFromFull (unionComparatorRequest req comp pre)).

Definition lane_error (comp : UnionComparator) (e : string) : string := "union comparator " +:+ uc_ID comp +:+ ": " +:+ e.

(** The lanes run in the order they finish, each as a whole; each leaves its
    result or error. *)
Fixpoint run_lanes (fuse : UnionComparator -> G L (list bytes)) (comparators : list UnionComparator) (order : list nat)
    : G L (list (nat * UnionComparator * (string + list bytes))) :=
  match order with
  | [] => gret []
  | i :: order =>
    let^ comp := at_index comparators i in
    let^ r := gtry (fuse comp) (fun e => gret (inl e)) (fun chunks => gret (inr chunks)) in
    let^ rest := run_lanes fuse comparators order in
    gret ((i, comp, r) :: rest)
  end.

(** [for res := range results]: the first error is kept, every other result is
    stored, an error's as nil. *)
Fixpoint gather (results : list (nat * UnionComparator * (string + list bytes))) (firstErr : option string) (out : list (list bytes))
    : option string * list (list bytes) :=
  match results with
  | [] => (firstErr, out)
  | (i, comp, inl e) :: results =>
    match firstErr with
    | None => gather results (Some (lane_error comp e)) out
    | Some _ => gather results firstErr (<[i := []]> out)
    end
  | (i, comp, inr chunks) :: results => gather results firstErr (<[i := chunks]> out)
  end.

(** Without a worker nobody takes the first job, and the results are never
    closed: the call blocks. *)
Definition runUnionComparatorsWith `{Workers} (ctx : CryptoContext) (req : FullFuseRequest) (comparators : list UnionComparator) (concurrency : Z)
    (usePreinsertedEvalKeys : bool) (fuse : Fuser) : G L (list (list bytes)) :=
  let lane comp := fuse ctx req comp usePreinsertedEvalKeys in
  if concurrency =? 1 then each (fun _ comp => gwrap ("union comparator " +:+ uc_ID comp +:+ ": ") (lane comp)) 0 comparators
  else if (concurrency <=? 0) && negb (zlen comparators =? 0) then gfault Diverges
  else
    let^ results := run_lanes lane comparators (finish (length comparators)) in
    match gather results None (replicate (length comparators) []) with
    | (Some e, _) => gfail e
    | (None, out) => gret out
    end.

Definition runUnionComparators `{Workers} (ctx : CryptoContext) (req : FullFuseRequest) (comparators : list UnionComparator) (concurrency : Z)
    (usePreinsertedEvalKeys : bool) : G L (list (list bytes)) :=
  runUnionComparatorsWith ctx req comparators concurrency usePreinsertedEvalKeys chunkedUnionComparatorWithContext.

Definition insertUnionEvalKeys (ctx : handle KCtx) (evalKeys : EvalKeyFinal) : G L unit :=
  if keys_missing evalKeys then gfail "final eval-mult and eval-sum keys are required" else
  let^ multKey := gwrap "deserialize eval-mult key: " (deserializeEvalMultKey ctx (EvalMultFinal evalKeys)) in
  defer^ cfree multKey in
  let^ _ := check_or "insert eval-mult key failed" "InsertEvalMultKey" [cell ctx; cell multKey] [] in
  let^ sumKey := gwrap "deserialize eval-sum key: " (deserializeRotKey ctx (EvalSumFinal evalKeys)) in
  defer^ cfree sumKey in
  check_or "insert eval-sum key failed" "InsertEvalSumKey" [cell ctx; cell sumKey] [].

(** One context for every comparator; with several workers the keys are
    installed once. *)
Definition union_score `{Workers} (params : ContractParams) (req : FullFuseRequest) (comparators : list UnionComparator) (concurrency : Z) (fuse : Fuser)
    : G L (list (list bytes)) :=
  if zlen comparators =? 0 then gfail "at least one union comparator is required" else
  let concurrency := clampUnionConcurrency concurrency comparators in
  with_context (createContractContext params) (fun ctx =>
    let usePreinsertedEvalKeys := 1 <? concurrency in
    let^ _ := (if usePreinsertedEvalKeys then insertUnionEvalKeys ctx (FuseEvalKeys req) else gret tt) in
    runUnionComparatorsWith (Some ctx) req comparators concurrency usePreinsertedEvalKeys fuse).

Definition ChunkedUnionScoreCKKSWithConcurrency `{Workers} (params : ContractParams) (req : FullFuseRequest) (comparators : list UnionComparator)
    (concurrency : Z) : G L (list (list bytes)) :=
  union_score params req comparators concurrency chunkedUnionComparatorWithContext.
Definition ChunkedUnionScoreCKKS `{Workers} (params : ContractParams) (req : FullFuseRequest) (comparators : list UnionComparator) : G L (list (list bytes)) :=
  ChunkedUnionScoreCKKSWithConcurrency params req comparators 1.

Definition ChunkedUnionScoreEncryptedPayloadCKKSWithConcurrency `{Workers} (params : ContractParams) (req : FullFuseRequest)
    (comparators : list UnionComparator) (concurrency : Z) : G L (list (list bytes)) :=
  union_score params req comparators concurrency chunkedEncryptedUnionComparatorWithContext.
Definition ChunkedUnionScoreEncryptedPayloadCKKS `{Workers} (params : ContractParams) (req : FullFuseRequest) (comparators : list UnionComparator)
    : G L (list (list bytes)) :=
  ChunkedUnionScoreEncryptedPayloadCKKSWithConcurrency params req comparators 1.

Definition ChunkedUnionScoreEncryptedInputsCKKSWithConcurrency `{Workers} (params : ContractParams) (req : EncryptedInputFuseRequest)
    (comparators : list UnionComparator) (concurrency : Z) : G L (list (list bytes)) :=
  union_score params (fullFuseRequest req) comparators concurrency chunkedEncryptedInputUnionComparatorWithContext.
Definition ChunkedUnionScoreEncryptedInputsCKKS `{Workers} (params : ContractParams) (req : EncryptedInputFuseRequest) (comparators : list UnionComparator)
    : G L (list (list bytes)) :=
  ChunkedUnionScoreEncryptedInputsCKKSWithConcurrency params req comparators 1.

(** The eval-sum keys by index: the keys are installed before the lanes run. *)
Definition union_score_refs `{Workers} `{IntRange} `{GoRange} (params : ContractParams) (req : FullFuseRequest) (comparators : list UnionComparator)
    (concurrency : Z) (publicKeys : list bytes) (evalSumRefsByParty : list (list IndexedEvalSumKeyRef)) (resolve : option Resolver) (fuse : Fuser)
    : G L (list (list bytes)) :=
  if zlen comparators =? 0 then gfail "at least one union comparator is required" else
  if zlen (EvalMultFinal (FuseEvalKeys req)) =? 0 then gfail "final eval-mult key is required" else
  let concurrency := clampUnionConcurrency concurrency comparators in
  with_context (createContractContext params) (fun ctx =>
    let^ multKey := gwrap "deserialize eval-mult key: " (deserializeEvalMultKey ctx (EvalMultFinal (FuseEvalKeys req))) in
    defer^ cfree multKey in
    let^ _ := check_or "insert eval-mult key failed" "InsertEvalMultKey" [cell ctx; cell multKey] [] in
    let^ _ := insertEvalSumPerIndexLazy ctx publicKeys evalSumRefsByParty resolve in
    runUnionComparatorsWith (Some ctx) req comparators concurrency true fuse).

Definition ChunkedUnionScoreCKKSWithEvalSumRefs `{Workers} `{IntRange} `{GoRange} (params : ContractParams) (req : FullFuseRequest)
    (comparators : list UnionComparator) (concurrency : Z) (publicKeys : list bytes) (evalSumRefsByParty : list (list IndexedEvalSumKeyRef))
    (resolve : option Resolver) : G L (list (list bytes)) :=
  union_score_refs params req comparators concurrency publicKeys evalSumRefsByParty resolve chunkedUnionComparatorWithContext.
Definition ChunkedUnionScoreEncryptedPayloadCKKSWithEvalSumRefs `{Workers} `{IntRange} `{GoRange} (params : ContractParams) (req : FullFuseRequest)
    (comparators : list UnionComparator) (concurrency : Z) (publicKeys : list bytes) (evalSumRefsByParty : list (list IndexedEvalSumKeyRef))
    (resolve : option Resolver) : G L (list (list bytes)) :=
  union_score_refs params req comparators concurrency publicKeys evalSumRefsByParty resolve chunkedEncryptedUnionComparatorWithContext.
Definition ChunkedUnionScoreEncryptedInputsCKKSWithEvalSumRefs `{Workers} `{IntRange} `{GoRange} (params : ContractParams) (req : EncryptedInputFuseRequest)
    (comparators : list UnionComparator) (concurrency : Z) (publicKeys : list bytes) (evalSumRefsByParty : list (list IndexedEvalSumKeyRef))
    (resolve : option Resolver) : G L (list (list bytes)) :=
  union_score_refs params (fullFuseRequest req) comparators concurrency publicKeys evalSumRefsByParty resolve chunkedEncryptedInputUnionComparatorWithContext.

Definition FullFusePayloadCKKSWithEvalSumRefs `{IntRange} `{GoRange} (params : ContractParams) (req : FullFuseRequest) (publicKeys : list bytes)
    (evalSumRefsByParty : list (list IndexedEvalSumKeyRef)) (resolve : option Resolver) : G L bytes :=
  if zlen (EvalMultFinal (FuseEvalKeys req)) =? 0 then gfail "final eval-mult key is required" else
  with_context (createContractContext params) (fun ctx =>
    let^ _ := insertEvalSumPerIndexLazy ctx publicKeys evalSumRefsByParty resolve in
    FullFusePayloadCKKSWithContext (Some ctx) (req <| FuseEvalKeys := mkFinal (EvalMultFinal (FuseEvalKeys req)) [] |>)).
End union.

(** ** Cutting and joining *)

Lemma split_checked_concat what chunk cts : Forall (fun ct => ct <> []) cts -> split_checked what chunk (zlen <$> cts) (concat cts) = inr cts.
Proof.
  intros Hf. revert chunk. induction Hf as [|ct cts Hne Hf IH]; intros chunk; [done|]. cbn [fmap list_fmap concat split_checked].
  assert (Hl : 0 < zlen ct) by (destruct ct; [done|unfold zlen; cbn; lia]).
  replace ((zlen ct <=? 0) || (zlen (ct ++ concat cts) <? zlen ct)) with false by (unfold zlen in *; rewrite length_app; lia).
  assert (Hn : Z.to_nat (zlen ct) = length ct) by (unfold zlen; lia). rewrite Hn, drop_app_length, take_app_length, IH. done.
Qed.

(** What is cut is what was there, chunk by chunk. *)
Lemma split_checked_inv what chunk lens blob chunks :
  split_checked what chunk lens blob = inr chunks -> concat chunks = blob /\ zlen <$> chunks = lens /\ Forall (fun c => c <> []) chunks.
Proof.
  revert chunk blob chunks. induction lens as [|l lens IH]; intros chunk blob chunks; cbn [split_checked].
  - destruct (zlen blob =? 0) eqn:Hz; [|done]. intros [= <-]. destruct blob; [done|]. unfold zlen in Hz. cbn in Hz. lia.
  - destruct ((l <=? 0) || (zlen blob <? l)) eqn:Hb; [done|]. destruct (split_checked _ _ _ _) as [e|cs] eqn:Hs; [done|]. intros [= <-].
    apply IH in Hs as (Hc & Hl & Hf). cbn. rewrite Hc, Hl, take_drop. unfold zlen in *. rewrite length_take. split_and!; [done|f_equal; lia|].
    constructor; [|done]. intros Hn. apply (f_equal length) in Hn. rewrite length_take in Hn. cbn in Hn. lia.
Qed.

Lemma first_empty_none i cts : first_empty i cts = None -> Forall (fun ct => ct <> []) cts.
Proof.
  revert i. induction cts as [|ct cts IH]; intros i; cbn [first_empty]; [constructor|]. destruct (zlen ct =? 0) eqn:Hz; [done|].
  intros Hf. constructor; [by destruct ct|by eapply IH].
Qed.

Lemma concat_filled (cts : list bytes) : cts <> [] -> Forall (fun ct => ct <> []) cts -> concat cts <> [].
Proof. intros Hn Hf. destruct Hf as [|ct cts Hc _]; [done|]. cbn. by destruct ct. Qed.

Lemma flatten_chunks_filled c n payloads chunks : flatten_chunks c n payloads = inr chunks -> payloads <> [] -> 0 < n ->
  chunks <> [] /\ Forall (fun ct => ct <> []) chunks.
Proof.
  revert c chunks. induction payloads as [|p payloads IH]; intros c chunks Hf Hn Hpos; [done|]. cbn [flatten_chunks] in Hf.
  destruct (zlen p =? n) eqn:Hl; [|done]. cbn [negb] in Hf. destruct (first_empty 0 p) eqn:He; [done|]. apply first_empty_none in He.
  destruct (flatten_chunks (S c) n payloads) as [e|l] eqn:Hr; [done|]. simplify_eq/=.
  assert (Hp : p <> []) by (intros ->; unfold zlen in *; cbn in *; lia). split; [by destruct p|]. apply Forall_app. split; [done|].
  destruct payloads as [|q payloads]; [cbn in Hr; simplify_eq; constructor|]. by eapply (IH (S c)).
Qed.

Lemma packages_filled i n packages l : packages_from i n packages = inr l -> packages <> [] -> 0 < n -> l <> [].
Proof.
  intros Hf Hn Hpos. destruct packages as [|p packages]; [done|]. cbn [packages_from] in Hf. destruct (zlen p =? n) eqn:Hl; [|done]. cbn [negb] in Hf.
  destruct (existsb _ p); [done|]. destruct (packages_from (S i) n packages); [done|]. simplify_eq/=. destruct p; [unfold zlen in *; cbn in *; lia|done].
Qed.

Lemma grow64_reaches n size dim :
  1 <= size -> size * 2 ^ Z.of_nat n < 2 ^ 63 -> dim <= size * 2 ^ Z.of_nat n ->
  exists b, grow64 (S n) size dim = Some b /\ dim <= b < 2 ^ 63 /\ size <= b /\ b <= Z.max size (2 * dim).
Proof.
  revert size. induction n as [|n IH]; intros size H1 Hlt Hle; cbn [grow64].
  - rewrite Z.mul_1_r in Hlt, Hle. replace (size <? dim) with false by lia. exists size. split; [done|lia].
  - rewrite Nat2Z.inj_succ, (Z.pow_succ_r 2) in Hlt by lia. rewrite Nat2Z.inj_succ, (Z.pow_succ_r 2) in Hle by lia.
    assert (Hp : 0 < 2 ^ Z.of_nat n) by (apply Z.pow_pos_nonneg; lia).
    destruct (size <? dim) eqn:Hc; [|exists size; split; [done|nia]].
    unfold wrap64. rewrite Z.mod_small by nia. replace (size * 2 + 2 ^ 63 - 2 ^ 63) with (size * 2) by lia.
    destruct (IH (size * 2)) as (b & Hb & Hr1 & Hr2 & Hr3); [nia..|]. exists b. split; [done|lia].
Qed.

(** A chunk is the least power of two that holds the profile. *)
Lemma chunk_size_some dim : 0 < dim <= 2 ^ 61 -> exists b, chunk_size dim = Some b /\ dim <= b <= 2 ^ 62.
Proof.
  intros Hd. destruct (grow64_reaches 61 1 dim) as (b & Hb & Hr1 & Hr2 & Hr3); [lia..|]. exists b. split; [|lia].
  assert (Hmono : forall f g bs n c, grow64 f bs n = Some c -> grow64 (f + g) bs n = Some c).
  { intros f. induction f as [|f IH]; intros g bs n c; cbn; [done|]. destruct (bs <? n); [apply IH|done]. }
  by apply (Hmono _ 4%nat) in Hb.
Qed.

(** ** Every fusion frees what it allocates *)

(** What the library reports about its chunks is true of its answer. *)
Class ChunkLaws {L : Type} `{CLib L} : Prop :=
  law_chunks : forall hs ds ps l, let r := (c_call "ARESChunkedFusePayloadCKKS" hs ds ps l).2 in
    rc r = 0 -> written r <= max_chunks -> 0 <= written r /\ exists chunks, split_chunks (chunk_lens (written r) r) (mem r) = Some chunks.

(** Requests whose sizes fit: the packages' buffer, the chunks of the payload. *)
Record fuse_ok (req : FullFuseRequest) : Prop := mkFuseOk {
  fo_packages : zlen (CandidatePackages req) * PackageBytes req < 2 ^ 63;
  fo_dim : FuseProfileDim req <= 2 ^ 61;
  fo_slots : FusePayloadSlotCount req <= 2 ^ 61
}.

(** Some candidate has a ciphertext. *)
Definition some_ciphertext (req : FullFuseRequest) : Prop := concat (CandidateCiphertexts req) <> [].

Section balance.
Context {L : Type} `{CLib L} {HL : CLibLaws} {HS : SmallObjects} {HC : ChunkLaws}.
Implicit Types (hs : list (positive * kind)).

Notation one := (fun h => [cell h]).

Lemma lifted_spec {A} (r : string + A) hs : spec (L := L) hs [] (lifted r) nothing (fun a => r = inr a).
Proof. unfold lifted. destruct r; [apply spec_fail|]. by apply spec_ret_eq. Qed.

Lemma flattenPackages_spec packages n hs : packages <> [] -> 0 < n -> zlen packages * n < 2 ^ 63 ->
  spec (L := L) hs [] (flattenCandidatePackages packages n) nothing (fun l => l <> []).
Proof.
  intros Hn Hpos Hb. unfold flattenCandidatePackages. assert (0 <= zlen packages) by (unfold zlen; lia).
  unfold wrap64. rewrite Z.mod_small by nia. replace (_ <? 0) with false by nia.
  eapply spec_weaken; [apply lifted_spec|reflexivity|]. intros l Hl. exact (packages_filled _ _ _ _ Hl Hn Hpos).
Qed.

Definition plain_ok (req : FullFuseRequest) : Prop :=
  InitiatorCiphertext req <> [] /\ CandidateCiphertexts req <> [] /\ counts_match req = true /\ 0 < PackageBytes req.

Lemma plain_checks_spec req hs :
  spec (L := L) hs [] (plain_checks req) nothing (fun _ => plain_ok req /\ EvalMultFinal (FuseEvalKeys req) <> [] /\ EvalSumFinal (FuseEvalKeys req) <> []).
Proof.
  unfold plain_checks, requirePlainPayloadMode. do 6 (eapply spec_bind; [apply require_spec|intros [] ?]). unfold nothing.
  eapply spec_weaken; [apply require_spec|reflexivity|]. intros [] ?. unfold plain_ok, keys_missing in *.
  split_and!; try done; try lia; intros Hn; rewrite ?Hn in *; unfold zlen in *; cbn in *; lia.
Qed.

Lemma context_checks_spec ctx req hs :
  spec (L := L) hs [] (context_checks ctx req) nothing (fun h => ctx = Some h /\ plain_ok req).
Proof.
  unfold context_checks, requirePlainPayloadMode. eapply spec_bind; [apply require_spec|intros [] ?]. destruct ctx as [h|]; [|cgo_steps].
  do 5 (eapply spec_bind; [apply require_spec|intros [] ?]). apply spec_ret_eq; [done|]. split; [done|]. unfold plain_ok.
  split_and!; try done; try lia; intros Hn; rewrite ?Hn in *; unfold zlen in *; cbn in *; lia.
Qed.

Lemma ints_filled l n : zlen l = n -> 0 < n -> intsToCInts l <> [].
Proof. intros Hl Hn. destruct l; [unfold zlen in *; cbn in *; lia|done]. Qed.

Lemma plain_call_spec {A} env req keys (k : list cval -> G L A) own Q hs :
  plain_ok req -> some_ciphertext req -> fuse_ok req -> (forall hs' args, hs ⊆ hs' -> spec hs' [] (k args) own Q) ->
  spec hs [] (plain_call env req keys k) own Q.
Proof.
  intros (Hi & Hc & Hm & Hp) Hs [Hb _ _] Hk. unfold counts_match in Hm. assert (Hpos : 0 < zlen (CandidateCiphertexts req)).
  { destruct (CandidateCiphertexts req); [done|unfold zlen; cbn; lia]. }
  apply andb_true_iff in Hm as [Hm Hm4]. apply andb_true_iff in Hm as [Hm Hm3]. apply andb_true_iff in Hm as [Hm1 Hm2].
  apply Z.eqb_eq in Hm1, Hm2, Hm3, Hm4.
  assert (Hlens : zlen <$> CandidateCiphertexts req <> []) by (by destruct (CandidateCiphertexts req)).
  assert (Hpk : CandidatePackages req <> []) by (intros Hn; rewrite Hn in *; unfold zlen in *; cbn in *; lia).
  unfold plain_call, concatCandidateCiphertexts, with_string. eapply spec_bind; [by apply flattenPackages_spec|]. intros packages Hpn.
  pose proof (ints_filled _ _ Hm1 Hpos). pose proof (ints_filled _ _ Hm2 Hpos). pose proof (ints_filled _ _ Hm3 Hpos).
  unfold some_ciphertext in Hs. cgo_steps.
Qed.
End balance.

Section balance_calls.
Context {L : Type} `{CLib L} {HL : CLibLaws} {HS : SmallObjects} {HC : ChunkLaws}.
Implicit Types (hs : list (positive * kind)).

Lemma GoBytes_total b hs : zlen b < 2 ^ 31 -> spec_total (L := L) hs [] (GoBytes b) nothing (fun x => x = b).
Proof.
  intros Hb. assert (0 <= zlen b) by (unfold zlen; lia). unfold GoBytes. rewrite cint_small by lia. replace (zlen b <? 0) with false by lia.
  apply total_ret_eq; [done|]. unfold zlen. by rewrite Nat2Z.id, take_ge.
Qed.

Lemma take_bytes_spec {k} (out : option (handle k)) b hs : zlen b < 2 ^ 31 ->
  spec (L := L) hs (option_list (cell <$> out)) (take_bytes out b) nothing (fun x => x = b).
Proof.
  intros Hb. unfold take_bytes. eapply spec_bind_total; [by apply GoBytes_total|]. intros x ->. unfold nothing. cbn [app].
  by apply spec_free_opt, spec_ret_eq.
Qed.

Lemma fuse_chunks_spec hc args hs : hc ⊆ hs -> balanced hs (fuse_chunks (L := L) hc args).
Proof.
  intros Hsub. unfold fuse_chunks. eapply spec_bind; [apply total_spec, call1_spec, Hsub|]. intros [o r] Hs. cbn [fst snd] in *.
  pose proof (made_one _ _ _ Hs ltac:(not_left)) as Hm. destruct Hs as (Hsz & _ & _ & addrs & ds & ps & l & Hr).
  destruct (rc r =? 0) eqn:Hrc; cbn [negb].
  2: { rewrite (bool_decide_false (rc r = 0)) in Hm by lia. destruct o; [done|]. apply spec_fail. }
  destruct (max_chunks <? written r) eqn:Hmax.
  { apply spec_free_opt, spec_fail. }
  eapply spec_bind_own; [by apply take_bytes_spec|]. intros blob ->.
  destruct (law_chunks addrs ds ps l) as [Hpos [chunks Hc]]; rewrite <- Hr in *; [lia..|]. replace (written r <? 0) with false by lia.
  rewrite Hc. by apply spec_ret_eq.
Qed.

Lemma fuse_encrypted_spec what name ctx args n hs : option_list (cell <$> ctx) ⊆ hs -> name ∉ may_leave_output ->
  balanced hs (fuse_encrypted (L := L) what name ctx args n).
Proof.
  intros Hsub Hn. unfold fuse_encrypted. eapply spec_bind; [apply total_spec, call1_spec, Hsub|]. intros [o r] Hs. cbn [fst snd] in *.
  pose proof (made_one _ _ _ Hs Hn) as Hm. destruct Hs as (Hsz & _). destruct (rc r =? 0) eqn:Hrc; cbn [negb].
  2: { rewrite (bool_decide_false (rc r = 0)) in Hm by lia. destruct o; [done|]. apply spec_fail. }
  destruct o as [h|]; [|apply spec_fail]. cbn. apply spec_defer1. case_match; [apply spec_fail|].
  eapply spec_bind; [by apply total_spec, GoBytes_total|]. intros blob _. eapply spec_weaken; [apply lifted_spec|reflexivity|done].
Qed.

Lemma payload_checks_none req b : payload_checks req b = None ->
  InitiatorCiphertext req <> [] /\ CandidateCiphertexts req <> [] /\ zlen (CandidateBrownies req) = zlen (CandidateCiphertexts req) /\
  (zlen (CandidateDistanceCiphertexts req) = 0 -> zlen (CandidateLatQ req) = zlen (CandidateCiphertexts req) /\
                                                 zlen (CandidateLonQ req) = zlen (CandidateCiphertexts req)) /\
  0 < FuseProfileDim req /\ 0 < FusePayloadSlotCount req.
Proof.
  unfold payload_checks. intros Hp. repeat (case_match; [done|]).
  split_and!; try lia; intros Hn; rewrite ?Hn in *; unfold zlen in *; cbn in *; lia.
Qed.

Lemma flattenPayload_spec req b hs : fuse_ok req ->
  spec (L := L) hs [] (flattenEncryptedPayloadCiphertexts req b) nothing
    (fun x => payload_checks req b = None /\ x.1.1.1 = zlen (CandidateCiphertexts req) /\ x.1.2 <> [] /\ x.2 <> []).
Proof.
  intros [_ Hd Hs]. unfold flattenEncryptedPayloadCiphertexts. destruct (payload_checks req b) eqn:Hc; [apply spec_fail|].
  pose proof (payload_checks_none _ _ Hc) as (_ & Hne & _ & _ & Hd0 & Hs0). destruct (chunk_size_some (FuseProfileDim req)) as (cs & -> & Hcs); [lia|].
  unfold wrap64. rewrite Z.mod_small by lia. replace (_ + 2 ^ 63 - 2 ^ 63) with (FusePayloadSlotCount req + cs - 1) by lia.
  assert (Hq : 0 < Z.quot (FusePayloadSlotCount req + cs - 1) cs) by (apply Z.quot_str_pos; lia).
  case_match; [apply spec_fail|]. case_match eqn:Hcount; [apply spec_fail|]. replace (_ <? 0) with false by lia.
  eapply spec_bind; [apply lifted_spec|]. intros chunks Hl. apply spec_ret_eq; [done|].
  assert (Hpn : CandidatePayloadCiphertexts req <> []).
  { intros Hn. rewrite Hn in Hcount. destruct (CandidateCiphertexts req); [done|]. unfold zlen in Hcount. cbn in Hcount. lia. }
  apply flatten_chunks_filled in Hl as [Hn1 Hn2]; [|done..]. cbn. split_and!; [done|done|by apply concat_filled|by destruct chunks].
Qed.

Lemma candidates_filled_spec req hs : spec (L := L) hs [] (candidates_filled req) nothing (fun _ => Forall (fun ct => ct <> []) (CandidateCiphertexts req)).
Proof. unfold candidates_filled. destruct (first_empty 0 _) eqn:He; [apply spec_fail|]. apply spec_ret_eq; [done|]. by eapply first_empty_none. Qed.

Lemma flattenDistance_spec req n hs :
  spec (L := L) hs [] (flattenEncryptedDistanceCiphertexts req n) nothing (fun x => n <> 0 -> x.1 <> [] /\ x.2 <> []).
Proof.
  unfold flattenEncryptedDistanceCiphertexts. destruct (negb (zlen _ =? n)) eqn:Hn; [apply spec_fail|]. case_match; [apply spec_fail|].
  destruct (first_empty 0 _) eqn:He; [apply spec_fail|]. apply spec_ret_eq; [done|]. intros Hnz. apply first_empty_none in He. cbn.
  assert (CandidateDistanceCiphertexts req <> []) by (intros Hd; rewrite Hd in *; unfold zlen in *; cbn in *; lia).
  split; [by apply concat_filled|by destruct (CandidateDistanceCiphertexts req)].
Qed.

#[local] Hint Resolve fuse_chunks_spec fuse_encrypted_spec : cgo.

Ltac filled_lists Hne :=
  match type of Hne with CandidateCiphertexts ?req <> [] =>
    assert (zlen <$> CandidateCiphertexts req <> []) by (by destruct (CandidateCiphertexts req));
    assert (0 < zlen (CandidateCiphertexts req)) by (destruct (CandidateCiphertexts req); [done|unfold zlen; cbn; lia])
  end.

Lemma fuse_payload_spec ctx params req hs : option_list (cell <$> ctx) ⊆ hs -> fuse_ok req -> balanced hs (chunkedFuseEncryptedPayloadCKKS (L := L) ctx params req).
Proof.
  intros Hsub Hok. unfold chunkedFuseEncryptedPayloadCKKS, with_string. destruct (negb _) eqn:Hz; [apply spec_fail|].
  eapply spec_bind; [by apply flattenPayload_spec|]. intros [[[n nChunks] blob] lens] (Hc & Hn & Hb & Hl). cbn [fst snd] in *.
  pose proof (payload_checks_none _ _ Hc) as (Hi & Hne & Hbr & Hll & _). destruct Hll as [Hla Hlo]; [lia|]. filled_lists Hne.
  eapply spec_bind; [apply candidates_filled_spec|]. intros [] Hf. unfold concatCandidateCiphertexts. pose proof (concat_filled _ Hne Hf).
  pose proof (ints_filled _ _ Hla ltac:(done)). pose proof (ints_filled _ _ Hlo ltac:(done)). pose proof (ints_filled _ _ Hbr ltac:(done)).
  cgo_steps.
Qed.

Lemma fuse_inputs_spec ctx params req hs : option_list (cell <$> ctx) ⊆ hs -> fuse_ok req -> balanced hs (chunkedFuseEncryptedInputsCKKS (L := L) ctx params req).
Proof.
  intros Hsub Hok. unfold chunkedFuseEncryptedInputsCKKS, with_string.
  eapply spec_bind; [by apply flattenPayload_spec|]. intros [[[n nChunks] blob] lens] (Hc & Hn & Hb & Hl). cbn [fst snd] in *.
  pose proof (payload_checks_none _ _ Hc) as (Hi & Hne & Hbr & _). filled_lists Hne.
  eapply spec_bind; [apply flattenDistance_spec|]. intros [dblob dlens] Hd. destruct Hd as [Hd1 Hd2]; [lia|]. cbn [fst snd] in *.
  eapply spec_bind; [apply candidates_filled_spec|]. intros [] Hf. unfold concatCandidateCiphertexts. pose proof (concat_filled _ Hne Hf).
  pose proof (ints_filled _ _ Hbr ltac:(done)).
  cgo_steps.
Qed.
End balance_calls.
End CgoFuse.
