(* ===== verification/CgoTheorems.v ===== *)
(** * The encryption bindings: what callers may rely on

    The calls of the bindings with what the code leaves to its callers
    ([exported], [on_context]): each frees what it allocates and faults nowhere,
    alone and in any sequence, as long as no object serializes to 2 GiB. *)

From Stdlib Require Import ZifyBool SpecFloat.
From S2P Require Import Prelude Float64 HelperClient HelperServer CgoCore CgoKeys CgoCombine CgoEval CgoFuse.
Import HelperClient HelperServer CgoCore CgoKeys CgoCombine CgoEval CgoFuse.

#[local] Open Scope string_scope.
#[local] Open Scope list_scope.
#[local] Open Scope Z_scope.
#[local] Open Scope go_scope.
#[local] Open Scope cgo_scope.

Module CgoTheorems.

(** ** The calls *)

Section calls.
Context {L : Type} `{CLib L} `{IntRange} `{GoRange} `{Workers} (fmt6 : float64 -> string).

(** A call with its result forgotten. *)
Definition quiet {A} (m : G L A) : G L unit := let^ _ := m in gret tt.

(** The calls that use a context of the caller, and what the caller must
    respect: the counts and addresses the code does not check. *)
Inductive on_context (ctx : handle KCtx) : G L unit -> Prop :=
| on_EvalKeyRound1Lead sk : on_context ctx (quiet (EvalKeyRound1LeadWithContext ctx sk))
| on_EvalMultKeyGenLead sk : on_context ctx (quiet (EvalMultKeyGenLeadWithContext ctx sk))
| on_EvalMultKeySwitchShare sk m : on_context ctx (quiet (EvalMultKeySwitchShareWithContext ctx sk m))
| on_EvalKeyRound1Participant sk m s pk : on_context ctx (quiet (EvalKeyRound1ParticipantWithContext ctx sk m s pk))
| on_CombineEvalMultSwitchShares pks ms : pks <> [] -> length pks = length ms -> on_context ctx (quiet (CombineEvalMultSwitchSharesWithContext ctx pks ms))
| on_EvalKeyRound2Participant sk j pk lead : on_context ctx (quiet (EvalKeyRound2ParticipantWithContext ctx sk j pk lead))
| on_CombineEvalKeyRound2 pk shares sum : shares <> [] -> on_context ctx (quiet (CombineEvalKeyRound2WithContext ctx pk shares sum))
| on_StreamedEvalSumKeyGenLead sk : on_context ctx (quiet (StreamedEvalSumKeyGenLeadWithContext ctx sk))
| on_StreamedEvalSumKeyShare sk s pk : on_context ctx (quiet (StreamedEvalSumKeyShareWithContext ctx sk s pk))
| on_MinimalRotationIndices : on_context ctx (quiet (MinimalRotationIndicesWithContext ctx))
| on_GeneratePerIndexEvalSumKeys sk : on_context ctx (quiet (GeneratePerIndexEvalSumKeysWithContext ctx sk))
| on_GeneratePerIndexEvalSumShares sk bases pk : on_context ctx (quiet (GeneratePerIndexEvalSumSharesWithContext ctx sk bases pk))
| on_CombineEvalKeyRound1PerIndex pks ms shares : on_context ctx (quiet (CombineEvalKeyRound1PerIndexWithContext ctx pks ms shares))
| on_InsertEvalSumKeysPerIndexLazy pks refs resolve :
    on_context ctx (quiet (InsertEvalSumKeysPerIndexLazyWithContext (Some ctx) pks refs resolve))
| on_FullFusePayload req : some_ciphertext req -> fuse_ok req -> on_context ctx (quiet (FullFusePayloadCKKSWithContext (Some ctx) req))
| on_ChunkedFusePayload req : some_ciphertext req -> fuse_ok req -> on_context ctx (quiet (ChunkedFusePayloadCKKSWithContext (Some ctx) req))
| on_ChunkedFuseEncryptedPayload req : fuse_ok req -> on_context ctx (quiet (ChunkedFuseEncryptedPayloadCKKSWithContext (Some ctx) req))
| on_ChunkedFuseEncryptedInputs req : fuse_ok (fullFuseRequest req) -> on_context ctx (quiet (ChunkedFuseEncryptedInputsCKKSWithContext (Some ctx) req))
| on_Fold lead shares : on_context ctx (
    let^ f := NewEvalSumIncrementalFoldWithContext ctx lead in
    gtry (each (fun _ s => Fold f s.1 s.2) 0 shares) (fun _ => quiet (Finalize f)) (fun _ => quiet (Finalize f))).

(** Calls one after the other, whatever they return. *)
Fixpoint run_all (ms : list (G L unit)) : G L unit :=
  match ms with
  | [] => gret tt
  | m :: ms => gtry m (fun _ => run_all ms) (fun _ => run_all ms)
  end.

(** [ctx := NewCryptoContext(params); defer ctx.Close()], with calls on it. *)
Definition session (params : ContractParams) (ms : handle KCtx -> list (G L unit)) : G L unit :=
  let^ c := NewCryptoContext params in
  match c with
  | None => gret tt
  | Some ctx => defer^ quiet (Close c) in run_all (ms ctx)
  end.

(** The other calls; those on CKKS parameters need dimensions the context's
    loop can reach, and a decryption a buffer a C int can count. *)
Inductive exported : G L unit -> Prop :=
| x_session p ms : dims_ok p -> (forall ctx, Forall (on_context ctx) (ms ctx)) -> exported (session p ms)
| x_DistributedKeyGenFirst p : dims_ok p -> exported (quiet (DistributedKeyGenFirst p))
| x_DistributedKeyGenNext p pk : dims_ok p -> exported (quiet (DistributedKeyGenNext p pk))
| x_BFVDistributedKeyGenFirst p : exported (quiet (BFVDistributedKeyGenFirst p))
| x_BFVDistributedKeyGenNext p pk : exported (quiet (BFVDistributedKeyGenNext p pk))
| x_EvalKeyRound1Lead p sk : dims_ok p -> exported (quiet (EvalKeyRound1Lead p sk))
| x_BFVEvalKeyRound1Lead p sk : exported (quiet (BFVEvalKeyRound1Lead p sk))
| x_EvalKeyRound1Participant p sk m s pk : dims_ok p -> exported (quiet (EvalKeyRound1Participant p sk m s pk))
| x_BFVEvalKeyRound1Participant p sk m s pk : exported (quiet (BFVEvalKeyRound1Participant p sk m s pk))
| x_CombineEvalKeyRound1 p pks ms ss : dims_ok p -> exported (quiet (CombineEvalKeyRound1 p pks ms ss))
| x_BFVCombineEvalKeyRound1 p pks ms ss : exported (quiet (BFVCombineEvalKeyRound1 p pks ms ss))
| x_BFVCombineEvalKeyRound1Lazy p pks ms refs resolve : exported (quiet (BFVCombineEvalKeyRound1Lazy p pks ms refs resolve))
| x_CombineEvalMultSwitchShares p pks ms : dims_ok p -> exported (quiet (CombineEvalMultSwitchShares p pks ms))
| x_EvalKeyRound2Participant p sk j pk lead : dims_ok p -> exported (quiet (EvalKeyRound2Participant p sk j pk lead))
| x_BFVEvalKeyRound2Participant p sk j pk lead : exported (quiet (BFVEvalKeyRound2Participant p sk j pk lead))
| x_CombineEvalKeyRound2 p pk shares sum : dims_ok p -> exported (quiet (CombineEvalKeyRound2 p pk shares sum))
| x_BFVCombineEvalKeyRound2 p pk shares sum : exported (quiet (BFVCombineEvalKeyRound2 p pk shares sum))
| x_CombineEvalSumSharesIncremental p pks ss : dims_ok p -> exported (quiet (CombineEvalSumSharesIncremental p pks ss))
| x_CombineEvalKeyRound1PerIndexLazy p pks ms refs resolve : dims_ok p -> exported (quiet (CombineEvalKeyRound1PerIndexLazy p pks ms refs resolve))
| x_BFVCombineEvalKeyRound1PerIndexLazy p pks ms refs resolve : exported (quiet (BFVCombineEvalKeyRound1PerIndexLazy p pks ms refs resolve))
| x_Fold p lead shares : dims_ok p -> exported (
    let^ f := NewEvalSumIncrementalFold p lead in
    gtry (each (fun _ s => Fold f s.1 s.2) 0 shares) (fun _ => quiet (Finalize f)) (fun _ => quiet (Finalize f)))
| x_SplitRotShareAB p share : dims_ok p -> exported (quiet (SplitRotShareAB p share))
| x_ReconstructRotShareAB p a b : dims_ok p -> exported (quiet (ReconstructRotShareAB p a b))
| x_EvalProductSum p keys l r n : dims_ok p -> exported (quiet (EvalProductSumForContract p keys l r n))
| x_EvalProductSumWithEvalSumRefs p keys l r n pks refs resolve : dims_ok p ->
    exported (quiet (EvalProductSumForContractWithEvalSumRefs p keys l r n pks refs resolve))
| x_EvalProductSumBFV p keys l r n : exported (quiet (EvalProductSumBFVForContract p keys l r n))
| x_EvalAdd p a b : dims_ok p -> exported (quiet (EvalAddCKKSForContract p a b))
| x_EvalSub p a b : dims_ok p -> exported (quiet (EvalSubCKKSForContract p a b))
| x_EvalMult p k a b : dims_ok p -> exported (quiet (EvalMultCKKSForContract p k a b))
| x_EvalAtIndex p k ct i : dims_ok p -> exported (quiet (EvalAtIndexCKKSForContract p k ct i))
| x_EvalConstMult p ct c : dims_ok p -> exported (quiet (EvalConstMultCKKSForContract p ct c))
| x_EvalArgmax p k cts cs : dims_ok p -> exported (quiet (EvalArgmaxCKKSForContract p k cts cs))
| x_EvalPoly p k ct cs : dims_ok p -> exported (quiet (EvalPolyCKKSForContract p k ct cs))
| x_RoundTripCiphertext p ct : dims_ok p -> exported (quiet (RoundTripCiphertext p ct))
| x_EncryptCKKS p pk vs : dims_ok p -> exported (quiet (EncryptCKKSForContract p pk vs))
| x_EncryptBFV p pk vs : exported (quiet (EncryptBFVForContract p pk vs))
| x_EncryptRepeatedScalarCKKS p pk v : dims_ok p -> exported (quiet (EncryptRepeatedScalarCKKSForContract p pk v))
| x_EncryptRepeatedScalarBFV p pk v : exported (quiet (EncryptRepeatedScalarBFVForContract p pk v))
| x_SquaredDistanceCKKS p k a b x y : dims_ok p -> exported (quiet (EncryptedSquaredDistanceCKKSForContract p k a b x y))
| x_SquaredDistanceBFV p k a b x y : exported (quiet (EncryptedSquaredDistanceBFVForContract p k a b x y))
| x_PartialDecryptCKKS p ct sk lead : dims_ok p -> exported (quiet (PartialDecryptCKKSForContract p ct sk lead))
| x_PartialDecryptBFV p ct sk lead : exported (quiet (PartialDecryptBFVForContract p ct sk lead))
| x_FuseCKKS p partials n : dims_ok p -> n < 2 ^ 31 -> exported (quiet (FuseCKKSPartialsForContract p partials n))
| x_FuseBFV p partials n : n < 2 ^ 31 -> exported (quiet (FuseBFVPartialsForContract p partials n))
| x_SmokeCKKS : exported SmokeCKKS
| x_OpenFHEVersion : exported (quiet OpenFHEVersion)
| x_OpenFHEContextCount : exported (quiet OpenFHEContextCount)
| x_ReleaseOpenFHEGlobalContexts : exported ReleaseOpenFHEGlobalContexts
| x_SingleKeyGen p : dims_ok p -> exported (quiet (SingleKeyGen p))
| x_SingleKeyGenWithEvalKey p : dims_ok p -> exported (quiet (SingleKeyGenWithEvalKey p))
| x_SingleKeyDecrypt p sk ct n : dims_ok p -> 0 < n < 2 ^ 31 -> exported (quiet (SingleKeyDecrypt p sk ct n))
| x_SingleKeyEncrypt p pk v : dims_ok p -> exported (quiet (SingleKeyEncrypt p pk v))
| x_SingleKeyAuctionServer p pk cents stars dists nonces lo hi w d : dims_ok p ->
    exported (quiet (SingleKeyAuctionServer p pk cents stars dists nonces lo hi w d))
| x_SingleKeyAuctionServerWithEvalKey p pk key cents stars dists nonces lo hi w d : dims_ok p ->
    exported (quiet (SingleKeyAuctionServerWithEvalKey p pk key cents stars dists nonces lo hi w d))
| x_SingleKeyAuctionServerEnc p pk bids stars dists nonces lo hi w d : dims_ok p ->
    exported (quiet (SingleKeyAuctionServerEnc p pk bids stars dists nonces lo hi w d))
| x_SingleKeyAuctionServerEncWithEvalKey p pk key bids stars dists nonces lo hi w d : dims_ok p ->
    exported (quiet (SingleKeyAuctionServerEncWithEvalKey p pk key bids stars dists nonces lo hi w d))
| x_SingleKeyAuctionDecrypt p sk masks : dims_ok p -> exported (quiet (SingleKeyAuctionDecrypt p sk masks))
| x_ScoreCandidates req : exported (quiet (ScoreCandidatesCKKS req))
| x_ThresholdSmoke n : exported (ThresholdSmokeCKKS fmt6 n)
| x_FullFusePayload p req : fuse_ok req -> exported (quiet (FullFusePayloadCKKS p req))
| x_ChunkedFusePayload p req : some_ciphertext req -> fuse_ok req -> exported (quiet (ChunkedFusePayloadCKKS p req))
| x_ChunkedFuseEncryptedPayload p req : fuse_ok req -> exported (quiet (ChunkedFuseEncryptedPayloadCKKS p req))
| x_ChunkedFuseEncryptedInputs p req : fuse_ok (fullFuseRequest req) -> exported (quiet (ChunkedFuseEncryptedInputsCKKS p req))
| x_BlindFusePayloadBFV p req : exported (quiet (BlindFusePayloadBFVForContract p req))
| x_UnionScore p req cs n : dims_ok p -> some_ciphertext req -> fuse_ok req -> exported (quiet (ChunkedUnionScoreCKKSWithConcurrency p req cs n))
| x_UnionScoreEncryptedPayload p req cs n : dims_ok p -> fuse_ok req ->
    exported (quiet (ChunkedUnionScoreEncryptedPayloadCKKSWithConcurrency p req cs n))
| x_UnionScoreEncryptedInputs p req cs n : dims_ok p -> fuse_ok (fullFuseRequest req) ->
    exported (quiet (ChunkedUnionScoreEncryptedInputsCKKSWithConcurrency p req cs n))
| x_UnionScoreRefs p req cs n pks refs resolve : dims_ok p -> some_ciphertext req -> fuse_ok req ->
    exported (quiet (ChunkedUnionScoreCKKSWithEvalSumRefs p req cs n pks refs resolve))
| x_UnionScoreEncryptedPayloadRefs p req cs n pks refs resolve : dims_ok p -> fuse_ok req ->
    exported (quiet (ChunkedUnionScoreEncryptedPayloadCKKSWithEvalSumRefs p req cs n pks refs resolve))
| x_UnionScoreEncryptedInputsRefs p req cs n pks refs resolve : dims_ok p -> fuse_ok (fullFuseRequest req) ->
    exported (quiet (ChunkedUnionScoreEncryptedInputsCKKSWithEvalSumRefs p req cs n pks refs resolve))
| x_FullFusePayloadRefs p req pks refs resolve : dims_ok p -> some_ciphertext req -> fuse_ok req ->
    exported (quiet (FullFusePayloadCKKSWithEvalSumRefs p req pks refs resolve))
| x_runIncrementalCombineCheck p : dims_ok p -> exported (quiet (runIncrementalCombineCheck p))
| x_runBOnlyRotReconstruction p : dims_ok p -> exported (quiet (runBOnlyRotReconstruction p))
| x_benchRotShareGen p streamed : dims_ok p -> exported (quiet (benchRotShareGen p streamed))
| x_benchStreamedFullRot p : dims_ok p -> exported (quiet (benchStreamedFullRot p))
| x_benchBOnlyRotShare p : dims_ok p -> exported (quiet (benchBOnlyRotShare p))
| x_benchResidentCombineRound1 p pks ms ss : dims_ok p -> pks <> [] -> length pks = length ms -> length pks = length ss ->
    exported (quiet (benchResidentCombineRound1 p pks ms ss)).
End calls.

(** ** Combining by index *)

Section combine.
Context {L : Type} `{CLib L} {HL : CLibLaws} {HS : SmallObjects} `{IntRange} `{GoRange}.
Implicit Types (hs : list (positive * kind)).

Lemma shares_at_ok {V} (zero : V) keyed (publicKeys : list bytes) index : keyed <> [] -> length keyed = length publicKeys ->
  shares_at zero keyed index <> [] /\ (length (shares_at zero keyed index) <= length publicKeys)%nat.
Proof. intros Hn Hl. unfold shares_at. rewrite length_fmap. split; [by destruct keyed|lia]. Qed.

Lemma validate_counts {V} (valid : V -> bool) a b byParty indices keyed :
  validate valid a b byParty = inr (indices, keyed) -> keyed <> [] /\ length keyed = length byParty.
Proof.
  intros Hv. apply validate_iff in Hv as (lead & Hh & _ & _ & ->). rewrite length_fmap. split; [|done]. by destruct byParty.
Qed.

Lemma release_final_spec (m : T (L := L) unit) hs : tspec (L := L) hs [] m nothing anything -> spec hs [] (release (tbind m (fun _ => serialize_final))) nothing filled.
Proof. intros Hm. apply release_spec. eapply tspec_bind; [exact Hm|]. intros u _. apply serialize_final_spec. Qed.

Lemma combinePerIndex_spec ctx pks byParty hs : cell ctx ∈ hs -> length pks = length byParty ->
  spec (L := L) hs [] (combineEvalSumPerIndex ctx pks byParty) nothing filled.
Proof.
  intros Hc Hl. unfold combineEvalSumPerIndex. destruct (validateIndexedEvalSumShares byParty) as [e|[indices keyed]] eqn:Hv; [apply spec_fail|].
  apply validate_counts in Hv as [Hn Hk]. rewrite List.length_map in Hk. apply release_final_spec, over_indices_spec; [done| | |].
  - intros hs' v Hs. apply tspec_lift, deserializeRotKey_spec. auto.
  - intros index. apply shares_at_ok; [done|congruence].
  - intros index accum. apply merge_final_spec.
Qed.

Lemma combinePerIndexLazy_spec ctx pks byParty resolve hs : cell ctx ∈ hs -> length pks = length byParty ->
  spec (L := L) hs [] (combineEvalSumPerIndexLazy ctx pks byParty resolve) nothing filled.
Proof.
  intros Hc Hl. unfold combineEvalSumPerIndexLazy. destruct (validateIndexedEvalSumShareRefs byParty) as [e|[indices keyed]] eqn:Hv; [apply spec_fail|].
  apply validate_counts in Hv as [Hn Hk]. rewrite List.length_map in Hk. apply release_final_spec, over_indices_spec; [done| | |].
  - intros hs' v Hs. apply resolveCached_spec. auto.
  - intros index. apply shares_at_ok; [done|congruence].
  - intros index accum. apply merge_final_spec.
Qed.

Lemma insertPerIndexLazy_spec ctx pks byParty resolve hs : cell ctx ∈ hs -> balanced hs (insertEvalSumPerIndexLazy (L := L) ctx pks byParty resolve).
Proof.
  intros Hc. unfold insertEvalSumPerIndexLazy. destruct (validateIndexedEvalSumShareRefs byParty) as [e|[indices keyed]] eqn:Hv; [apply spec_fail|].
  apply validate_counts in Hv as [Hn Hk]. destruct (negb _) eqn:Hl; [apply spec_fail|]. destruct resolve as [resolve|]; [|apply spec_fail].
  cgo_step. apply release_spec, over_indices_spec; [done| | |].
  - intros hs' v Hs. apply resolveCached_spec. auto.
  - intros index. apply shares_at_ok; [done|]. unfold zlen in Hl. lia.
  - intros index accum. by apply insert_append_spec.
Qed.
End combine.

#[export] Hint Resolve combinePerIndex_spec combinePerIndexLazy_spec insertPerIndexLazy_spec serializeB_spec serializeA_spec reconstructAB_spec
  deserializeA_spec reconstructA_spec fold_share_spec requireNonEmpty_spec require_origins_spec collect_cts_spec serialize_each_spec
  decrypt_one_spec make_buffer_spec assemble_frees fuse_chunks_spec fuse_encrypted_spec fuse_payload_spec fuse_inputs_spec lifted_spec
  plain_checks_spec context_checks_spec candidates_filled_spec : cgo.

Section quiet.
Context {L : Type} `{CLib L} {HL : CLibLaws} {HS : SmallObjects}.

Lemma quiet_spec {A} (m : G L A) Q hs : spec hs [] m nothing Q -> balanced hs (quiet m).
Proof. intros Hm. eapply spec_bind; [exact Hm|]. intros x _. by apply spec_ret_eq. Qed.

Lemma run_all_spec ms hs : Forall (fun m => balanced hs m) ms -> spec_total (L := L) hs [] (run_all ms) nothing anything.
Proof.
  intros Hms. induction Hms as [|m ms Hm _ IH]; cbn [run_all]; [by apply total_ret_eq|].
  eapply total_try; [exact Hm|intros e; exact IH|intros x _; exact IH].
Qed.

Lemma close_spec ctx hs cs : spec_total (L := L) hs (cell ctx :: cs) (quiet (Close (Some ctx))) (fun _ => cs) anything.
Proof.
  intros F s Hh Ho. destruct (free_cell ctx hs cs F s Hh Ho) as (s1 & [] & He & Hf & _ & Hr). exists s1, tt.
  unfold quiet, Close, gbind. rewrite He. done.
Qed.

Lemma session_spec params ms : dims_ok params -> (forall ctx, Forall (fun m => balanced [cell ctx] m) (ms ctx)) -> balanced [] (session (L := L) params ms).
Proof.
  intros Hd Hms. unfold session, NewCryptoContext. eapply spec_bind with (own1 := fun c => option_list (cell <$> c)) (Q1 := anything).
  { eapply spec_bind; [by apply create_spec|]. intros ctx _. by apply spec_ret_eq. }
  intros [ctx|] _; [|by apply spec_ret_eq]. cbn. apply (spec_defer [] [cell ctx] []); [intros; apply close_spec|].
  apply total_spec, run_all_spec, Hms.
Qed.
End quiet.

(** ** Every call is balanced *)

Section balance.
Context {L : Type} `{CLib L} {HL : CLibLaws} {HS : SmallObjects} {HC : ChunkLaws} `{IntRange} `{GoRange}.
Implicit Types (hs : list (positive * kind)).

Ltac api := apply (quiet_spec _ anything); unfold with_context, with_mult, with_sum, with_ct, with_pk, with_keys, computing, with_string; cgo_steps.

Lemma minimal_indices_spec ctx hs : cell ctx ∈ hs -> balanced hs (MinimalRotationIndicesWithContext (L := L) ctx).
Proof.
  intros Hc F s Hh Ho. unfold MinimalRotationIndicesWithContext, gbind.
  assert (Ha : forall s' : cstate L, live s' = live s -> forallb (alive s') [cell ctx] = true).
  { intros s' Hl. cbn. rewrite andb_true_r. apply bool_decide_true. rewrite Hl. pose proof (has_live F hs [] s Hh Ho) as Hv.
    rewrite Forall_forall in Hv. by apply Hv. }
  assert (Hk : forall l' : L, holds F [] (mkC (live s) (next s) (faults s) l')) by (intros l'; by destruct Ho).
  rewrite plain_call_run by by apply Ha. pose proof (law_indices [cell ctx].*1 [VNull]) as Hlaw.
  destruct (c_call _ _ _ _ (lib s)) as [l r] eqn:Hr. destruct (negb _); [by split|]. destruct (written r <=? 0) eqn:Hw; [by split_and!|].
  rewrite plain_call_run by by apply Ha. cbn [lib]. specialize (Hlaw [VInt (written r)] [] [] (lib s)). rewrite Hr in Hlaw.
  destruct (c_call _ _ _ _ l) as [l' r']. cbn [snd] in Hlaw. destruct (negb _); [by split|].
  unfold filled_part. rewrite Hlaw. replace (written r <? 0) with false by lia. rewrite Z.ltb_irrefl. by split_and!.
Qed.

Lemma per_index_key_spec ctx sk i hs : cell ctx ∈ hs -> spec (L := L) hs [] (GeneratePerIndexEvalSumKeyWithContext ctx sk i) nothing filled.
Proof. intros Hc. unfolds GeneratePerIndexEvalSumKeyWithContext. Qed.

Lemma per_index_share_spec ctx sk b pk i hs : cell ctx ∈ hs -> spec (L := L) hs [] (GeneratePerIndexEvalSumShareWithContext ctx sk b pk i) nothing filled.
Proof. intros Hc. unfolds GeneratePerIndexEvalSumShareWithContext. Qed.

#[local] Hint Resolve minimal_indices_spec per_index_key_spec per_index_share_spec : cgo.

Lemma each_any {A C} (f : nat -> A -> G L C) hs i xs : (forall i x, balanced hs (f i x)) -> balanced hs (each f i xs).
Proof. intros Hf. eapply spec_any, (each_spec f anything). intros. apply Hf. Qed.

Lemma combine2_context_spec ctx pk shares sum hs : cell ctx ∈ hs -> shares <> [] -> balanced hs (CombineEvalKeyRound2WithContext (L := L) ctx pk shares sum).
Proof.
  intros Hc Hs. unfold CombineEvalKeyRound2WithContext. cgo_step. cgo_simpl. cgo_step. eapply spec_bind.
  { apply (collect_owns _ anything _ 0 shares []). intros hs' i b Hsub. apply deserializeEvalMultKey_spec, Hsub. mem_in. }
  intros l Hl. cbn in Hl. destruct shares; [done|]. cgo_steps.
  eapply spec_try; [apply serializeEvalMultKey_spec; mem_in|intros e; cgo_steps|]. intros b _. cgo_steps.
Qed.

Lemma fold_calls_spec f shares hs cs : (if ownsCtx f then cs = [cell (f_accum f); cell (f_ctx f)] else cs = [cell (f_accum f)] /\ cell (f_ctx f) ∈ hs) ->
  spec (L := L) hs cs (gtry (each (fun _ s => Fold f s.1 s.2) 0 shares) (fun _ => quiet (Finalize f)) (fun _ => quiet (Finalize f))) nothing anything.
Proof.
  intros Hf. assert (Hfin : spec (L := L) hs cs (quiet (Finalize f)) nothing anything).
  { eapply spec_bind_own with (own1 := nothing) (Q1 := anything); [|intros x _; by apply spec_ret_eq].
    unfold Finalize. destruct (ownsCtx f); [rewrite Hf|destruct Hf as [-> Hc]].
    - eapply (spec_perm hs [cell (f_ctx f); cell (f_accum f)]); [constructor|]. cgo_steps.
    - cgo_steps. }
  assert (Hacc : cell (f_accum f) ∈ cs ++ hs /\ cell (f_ctx f) ∈ cs ++ hs) 
    by (destruct (ownsCtx f); [subst cs|destruct Hf as [-> Hc]]; split; mem_in).
  eapply spec_try; [apply each_any|intros e; exact Hfin|intros x _; exact Hfin]. intros i s. apply fold_share_spec; [apply Hacc..| |]; intros hs' Hs.
  - apply deserializePublicKey_spec, Hs, Hacc.
  - apply deserializeRotKey_spec, Hs, Hacc.
Qed.

Lemma full_fuse_context_spec ctx req hs : cell ctx ∈ hs -> some_ciphertext req -> fuse_ok req ->
  balanced hs (FullFusePayloadCKKSWithContext (L := L) (Some ctx) req).
Proof.
  intros Hc Hs Hf. unfold FullFusePayloadCKKSWithContext. eapply spec_bind; [apply context_checks_spec|]. intros h [[= <-] Hp].
  apply plain_call_spec; [done..|]. intros hs' args Hsub. eapply spec_bind; [apply total_spec, call1_spec; intros c Hin; set_solver|].
  intros [o r] Hr. cbn [fst snd] in *. pose proof (made_one _ _ _ Hr ltac:(not_left)) as Hm. destruct Hr as (Hsz & _).
  destruct (rc r =? 0) eqn:Hrc; cbn [negb].
  - eapply spec_any. by apply take_bytes_spec.
  - rewrite (bool_decide_false (rc r = 0)) in Hm by lia. destruct o; [done|]. apply spec_fail.
Qed.

Lemma chunked_fuse_context_spec ctx req hs : cell ctx ∈ hs -> some_ciphertext req -> fuse_ok req ->
  balanced hs (ChunkedFusePayloadCKKSWithContext (L := L) (Some ctx) req).
Proof.
  intros Hc Hs Hf. unfold ChunkedFusePayloadCKKSWithContext. eapply spec_bind; [apply context_checks_spec|]. intros h [[= <-] Hp].
  apply plain_call_spec; [done..|]. intros hs' args Hsub. apply fuse_chunks_spec. set_solver.
Qed.

Lemma encrypted_payload_context_spec ctx req hs : cell ctx ∈ hs -> fuse_ok req ->
  balanced hs (ChunkedFuseEncryptedPayloadCKKSWithContext (L := L) (Some ctx) req).
Proof. intros Hc Hf. apply fuse_payload_spec; [cbn; set_solver|done]. Qed.

Lemma encrypted_inputs_context_spec ctx req hs : cell ctx ∈ hs -> fuse_ok (fullFuseRequest req) ->
  balanced hs (ChunkedFuseEncryptedInputsCKKSWithContext (L := L) (Some ctx) req).
Proof. intros Hc Hf. apply fuse_inputs_spec; [cbn; set_solver|done]. Qed.

Lemma context_calls_balanced ctx m hs : cell ctx ∈ hs -> on_context ctx m -> balanced hs m.
Proof.
  intros Hc Hm. destruct Hm.
  - apply (quiet_spec _ both_filled). by apply round1_lead_spec.
  - unfold EvalMultKeyGenLeadWithContext, lead_mult. api.
  - unfold EvalMultKeySwitchShareWithContext. api.
  - apply (quiet_spec _ both_filled). by apply round1_participant_spec.
  - apply (quiet_spec _ filled). apply joining_spec; [done..|]. intros hs' b _ Hb. by apply spec_ret_eq.
  - apply (quiet_spec _ filled). by apply round2_participant_spec.
  - apply (quiet_spec _ anything). by apply combine2_context_spec.
  - unfold StreamedEvalSumKeyGenLeadWithContext. api.
  - unfold StreamedEvalSumKeyShareWithContext. api.
  - api.
  - unfold GeneratePerIndexEvalSumKeysWithContext. api. apply each_any. intros j y. cgo_steps.
  - unfold GeneratePerIndexEvalSumSharesWithContext. api. apply each_any. intros j y. cgo_steps.
  - unfold CombineEvalKeyRound1PerIndexWithContext, combineEvalKeyRound1PerIndex, counts_differ. api.
    apply joining_spec; [done|nonempty|lengths|]. intros hs' b Hs Hb. assert (cell ctx ∈ hs') by auto.
    assert (length pks = length shares) by lengths. cgo_steps.
  - api.
  - apply (quiet_spec _ anything). by apply full_fuse_context_spec.
  - apply (quiet_spec _ anything). by apply chunked_fuse_context_spec.
  - apply (quiet_spec _ anything). by apply encrypted_payload_context_spec.
  - apply (quiet_spec _ anything). by apply encrypted_inputs_context_spec.
  - eapply spec_bind_own with (own1 := fun f => [cell (f_accum f)]) (Q1 := fun f => f_ctx f = ctx /\ ownsCtx f = false).
    + unfold NewEvalSumIncrementalFoldWithContext. cgo_steps.
    + intros f [Hx Ho]. apply fold_calls_spec. rewrite Ho, Hx. done.
Qed.
End balance.

Section balance_combine.
Context {L : Type} `{CLib L} {HL : CLibLaws} {HS : SmallObjects} `{IntRange} `{GoRange}.
Implicit Types (hs : list (positive * kind)).

(** A context of its own, whatever the scheme. *)
Lemma in_context_spec {A} create (k : handle KCtx -> G L A) hs : (forall hs', spec hs' [] create (fun h => [cell h]) anything) ->
  (forall ctx hs', cell ctx ∈ hs' -> balanced hs' (k ctx)) -> balanced hs (with_context create k).
Proof. intros Hc Hk. unfold with_context. eapply spec_bind; [apply Hc|]. intros ctx _. cgo_simpl. apply spec_defer1, Hk. mem_in. Qed.

(** The joint eval-mult key together with the eval-sum key that [sum] gives. *)
Lemma joined_pair_spec {B} tag ctx pks ms (sum : G L B) hs : cell ctx ∈ hs -> pks <> [] -> length pks = length ms ->
  (forall hs', cell ctx ∈ hs' -> balanced hs' sum) -> balanced hs (joining tag ctx pks ms (fun j => let^ s := sum in gret (j, s))).
Proof.
  intros Hc Hn Hl Hs. apply joining_spec; [done..|]. intros hs' b Hsub _. eapply spec_bind; [apply Hs; auto|]. intros s _. by apply spec_ret_eq.
Qed.

Lemma counts_same {A B C} (a : list A) (b : list B) (c : list C) : counts_differ a b c = false -> a <> [] /\ length a = length b /\ length a = length c.
Proof. unfold counts_differ. intros Hd. split_and!; [nonempty|lengths|lengths]. Qed.

Lemma lazy_round1_spec ctx pks ms refs resolve hs : cell ctx ∈ hs -> balanced hs (combineEvalKeyRound1PerIndexLazy (L := L) ctx pks ms refs resolve).
Proof.
  intros Hc. unfold combineEvalKeyRound1PerIndexLazy. destruct (counts_differ _ _ _) eqn:Hd; [apply spec_fail|].
  apply counts_same in Hd as (Hn & Hl & Hr). apply joined_pair_spec; [done..|]. intros hs' Hc'. eapply spec_any. by apply combinePerIndexLazy_spec.
Qed.

Lemma fold_owned_spec params lead hs : dims_ok params ->
  spec (L := L) hs [] (NewEvalSumIncrementalFold params lead) (fun f => [cell (f_accum f); cell (f_ctx f)]) (fun f => ownsCtx f = true).
Proof.
  intros Hd. unfold NewEvalSumIncrementalFold. eapply spec_bind; [by apply create_spec|]. intros ctx _. cgo_simpl.
  eapply spec_try; [apply deserializeRotKey_spec; mem_in|intros e; cgo_steps|]. intros seed _. cgo_simpl.
  eapply (spec_try_own hs [cell seed] [cell ctx]); [apply start_fold_spec|intros e; cgo_steps|]. intros accum _. by apply spec_ret_eq.
Qed.

Lemma resident_spec params pks ms ss hs : dims_ok params -> pks <> [] -> length pks = length ms -> length pks = length ss ->
  balanced hs (benchResidentCombineRound1 (L := L) params pks ms ss).
Proof.
  intros Hd Hn Hm Hs. destruct pks; [done|]. unfold benchResidentCombineRound1. apply in_context_spec; [by intros; apply create_spec|]. intros ctx hs' Hc. cgo_steps.
Qed.
End balance_combine.

Section balance_eval.
Context {L : Type} `{CLib L} {HL : CLibLaws} {HS : SmallObjects} {HC : ChunkLaws} `{IntRange} `{GoRange} `{Workers}.
Implicit Types (hs : list (positive * kind)).

Lemma distance_spec (tag err name : string) create key a b args hs :
  (forall hs', spec hs' [] create (fun h => [cell h]) anything) ->
  balanced hs (let^ _ := require_origins key a b in
    with_context create (fun ctx => with_mult tag ctx key (let^ _ := addr0 a in let^ _ := addr0 b in bytes_guarded (L := L) (fun _ => err) name [cell ctx] args))).
Proof.
  intros Hc. eapply spec_bind; [apply require_origins_spec|]. intros [] [Ha Hb]. cgo_simpl. apply in_context_spec; [done|].
  intros ctx hs' Hx. unfold with_mult. cgo_steps.
Qed.

Lemma decrypt_spec params sk ct n hs : dims_ok params -> 0 < n < 2 ^ 31 -> balanced hs (SingleKeyDecrypt (L := L) params sk ct n).
Proof.
  intros Hd Hn. unfold SingleKeyDecrypt. apply in_context_spec; [by intros; apply create_spec|]. intros ctx hs' Hc. cgo_steps.
  eapply spec_bind; [apply make_buffer_spec; lia|]. intros [] _. cgo_steps.
  eapply spec_any, filled_part_spec. rewrite <- (cint_small n) by lia. eapply counted_written; [done| |done| |done]; [by apply (bool_decide_unpack _)|].
  rewrite cint_small; lia.
Qed.

Lemma auction_server_spec {X} use params pk key (prices : list X) stars dists nonces lo hi w d price hs : dims_ok params ->
  (forall ctx cPk i x hs', cell ctx ∈ hs' -> cell cPk ∈ hs' -> spec hs' [] (price ctx cPk i x) (fun h => [cell h]) anything) ->
  balanced hs (auction_server (L := L) use params pk key prices stars dists nonces lo hi w d price).
Proof.
  intros Hd Hp. unfold auction_server. repeat (case_match; [apply spec_fail|]). apply in_context_spec; [by intros; apply create_spec|].
  intros ctx hs' Hc. cgo_steps. apply auction_scores_spec; [mem_in..|subs| |].
  - intros hs'' i y Hs. apply Hp; apply Hs; mem_in.
  - intros hs'' l Hs Hl Hn. rewrite !length_zip in Hn. cbn in Hn. assert (cell ctx ∈ hs'') by (apply Hs; mem_in). cgo_steps.
Qed.

Lemma flat_profiles_filled i dim profiles l : flat_profiles i dim profiles = inr l -> profiles <> [] -> 0 < dim -> l <> [].
Proof.
  intros Hf Hn Hd. destruct profiles as [|p profiles]; [done|]. cbn [flat_profiles] in Hf. case_match eqn:Hl; [done|].
  destruct (flat_profiles _ _ _); [done|]. simplify_eq/=. destruct p; [unfold zlen in *; cbn in *; lia|done].
Qed.

Lemma flat_packages_filled i n packages l : flat_packages i n packages = inr l -> packages <> [] -> 0 < n -> l <> [].
Proof.
  intros Hf Hn Hd. destruct packages as [|p packages]; [done|]. cbn [flat_packages] in Hf. case_match eqn:Hl; [done|].
  destruct (package_bytes _ _ _); [done|]. destruct (flat_packages _ _ _); [done|]. simplify_eq/=. destruct p; [unfold zlen in *; cbn in *; lia|done].
Qed.

(** What the checks of a scoring request give. *)
Lemma score_inputs_filled req profiles packages n slots : score_inputs req = inr (profiles, packages, n, slots) ->
  sr_InitiatorProfile req <> [] /\ profiles <> [] /\ sr_CandidateLatQ req <> [] /\ sr_CandidateLonQ req <> [] /\ sr_CandidateBrownies req <> [] /\
  packages <> [] /\ 0 < zlen (sr_CandidateProfiles req) /\ 0 < slots.
Proof.
  unfold score_inputs. intros Hs. cbv zeta in Hs. destruct (zlen (sr_InitiatorProfile req) =? 0) eqn:E1; [done|]. destruct (zlen (sr_CandidateProfiles req) =? 0) eqn:E2; [done|].
  destruct (flat_profiles _ _ _) as [e|fp] eqn:Hp; [done|]. destruct (_ || _ || _) eqn:E3; [done|]. destruct (negb (zlen (sr_CandidatePackages req) =? _)) eqn:E4; [done|].
  destruct (zlen (default [] _) =? 0) eqn:E5; [done|]. destruct (_ <? _) eqn:E6; [done|]. destruct (flat_packages _ _ _) as [e|fk] eqn:Hk; [done|].
  simplify_eq. assert (forall A (l : list A), zlen l <> 0 -> l <> []) as Hz by (intros A l Hl ->; by unfold zlen in Hl).
  assert (0 < zlen (default [] (head (sr_CandidatePackages req)))) by (unfold zlen in *; lia).
  apply flat_profiles_filled in Hp; [|apply Hz; lia|unfold zlen in *; lia]. apply flat_packages_filled in Hk; [|apply Hz; lia|done].
  split_and!; try done; try (apply Hz; lia); unfold zlen in *; lia.
Qed.

Lemma score_spec req hs : balanced hs (ScoreCandidatesCKKS (L := L) req).
Proof.
  unfold ScoreCandidatesCKKS, with_string. destruct (score_inputs req) as [e|[[[profiles packages] n] slots]] eqn:Hs; [apply spec_fail|].
  apply score_inputs_filled in Hs as (? & ? & ? & ? & ? & ? & ? & ?).
  assert (forall l, l <> [] -> intsToC l <> []) as Hi by (by intros []).
  pose proof (Hi (sr_CandidateLatQ req)). pose proof (Hi (sr_CandidateLonQ req)). pose proof (Hi (sr_CandidateBrownies req)). pose proof (Hi packages).
  cgo_steps.
Qed.
End balance_eval.

Section balance_fuse.
Context {L : Type} `{CLib L} {HL : CLibLaws} {HS : SmallObjects} {HC : ChunkLaws} `{IntRange} `{GoRange} `{Workers}.
Implicit Types (hs : list (positive * kind)).

Lemma threshold_smoke_spec fmt6 n hs : balanced hs (ThresholdSmokeCKKS (L := L) fmt6 n).
Proof.
  unfold ThresholdSmokeCKKS. case_match eqn:Hn; [apply spec_fail|]. apply in_context_spec; [intros; cgo_steps|].
  intros ctx hs1 Hc. unfold with_keys, computing. cgo_steps. apply smoke_keys_spec; [mem_in..|subs|]. intros hs2 pk l Hs2 Hpk Hl Hln.
  assert (cell ctx ∈ hs2) by (apply Hs2; mem_in). apply smoke_shares_spec; [done..|]. intros hs3 Hs3.
  apply with_bytes_spec; [apply Hs3 in Hpk; subs|not_left|]. intros hs4 pkData Hs4. assert (cell ctx ∈ hs4) by auto.
  cgo_steps. apply with_bytes_spec; [subs|not_left|]. intros hs5 ctData Hs5. assert (cell ctx ∈ hs5) by (apply Hs5; mem_in).
  cgo_steps. apply smoke_partials_spec; [mem_in..| |subs|].
  { repeat apply sub_skip. etransitivity; [|exact Hs5]. repeat apply sub_skip. etransitivity; [|exact Hs4]. by etransitivity. }
  intros hs6 partials Hs6 Hp Hlp. assert (cell ctx ∈ hs6) by (apply Hs6; mem_in). cgo_steps.
Qed.

Lemma full_fuse_spec params req hs : fuse_ok req -> balanced hs (FullFusePayloadCKKS (L := L) params req).
Proof.
  intros Hf. unfold FullFusePayloadCKKS. eapply spec_bind; [apply plain_checks_spec|]. intros [] (Hp & Hm & Hs). cgo_simpl.
  destruct (first_empty _ _) eqn:He; [apply spec_fail|]. apply first_empty_none in He. pose proof Hp as (_ & Hne & _).
  apply plain_call_spec; [done|by apply concat_filled|done|]. intros hs' args Hsub. cgo_steps.
Qed.

Lemma chunked_fuse_spec params req hs : some_ciphertext req -> fuse_ok req -> balanced hs (ChunkedFusePayloadCKKS (L := L) params req).
Proof.
  intros Hc Hf. unfold ChunkedFusePayloadCKKS. eapply spec_bind; [apply plain_checks_spec|]. intros [] (Hp & Hm & Hs). cgo_simpl.
  apply plain_call_spec; [done..|]. intros hs' args Hsub. cgo_steps.
Qed.

Lemma pin_spec label cts hs : balanced hs (pin (L := L) label cts).
Proof. unfold pin. destruct (first_empty 0 cts); cgo_steps. Qed.

#[local] Hint Resolve pin_spec : cgo.

Lemma blind_fuse_spec params req hs : balanced hs (BlindFusePayloadBFVForContract (L := L) params req).
Proof.
  assert (Hz : forall A (l : list A), zlen l <> 0 -> l <> []) by (intros A l Hl ->; by unfold zlen in Hl).
  unfold BlindFusePayloadBFVForContract, with_table, keys_missing. cgo_steps.
  pose proof (Hz _ (EvalMultFinal (bf_EvalKeys req)) ltac:(lia)). pose proof (Hz _ (EvalSumFinal (bf_EvalKeys req)) ltac:(lia)).
  pose proof (Hz _ (bf_StepCoefficients req) ltac:(lia)).
  assert (intsToCInts (bf_CandidateBrownies req) <> []) by (apply (ints_filled _ (zlen (bf_CandidateProfileCiphertexts req))); lia).
  cgo_steps.
Qed.

(** *** Unions *)

Lemma run_lanes_spec fuse comparators order hs : (forall c, balanced hs (fuse c)) -> Forall (fun i => (i < length comparators)%nat) order ->
  balanced hs (run_lanes (L := L) fuse comparators order).
Proof.
  intros Hf Ho. induction Ho as [|i order Hi _ IH]; cbn [run_lanes]; [by apply spec_ret_eq|].
  eapply spec_bind; [by apply at_index_spec|]. intros c _. cgo_simpl. eapply spec_bind with (own1 := nothing) (Q1 := anything).
  { eapply spec_try; [apply Hf|intros e; by apply spec_ret_eq|intros l _; by apply spec_ret_eq]. }
  intros r _. eapply spec_bind; [exact IH|]. intros rest _. by apply spec_ret_eq.
Qed.

Lemma finish_below n : Forall (fun i => (i < n)%nat) (finish n).
Proof. apply Forall_forall. intros i Hi. rewrite finish_perm in Hi. apply elem_of_seq in Hi. lia. Qed.

Lemma clamp_positive n cs : zlen cs <> 0 -> 1 <= clampUnionConcurrency n cs.
Proof. unfold clampUnionConcurrency. intros Hc. assert (0 <= zlen cs) by (unfold zlen; lia). repeat case_match; lia. Qed.

Lemma run_union_spec ctx req cs n pre fuse hs : 1 <= n -> (forall c, balanced hs (fuse ctx req c pre)) ->
  balanced hs (runUnionComparatorsWith (L := L) ctx req cs n pre fuse).
Proof.
  intros Hn Hf. unfold runUnionComparatorsWith. replace (n <=? 0) with false by lia. cbn [andb]. case_match.
  - apply each_any. intros j c. apply spec_wrap, Hf.
  - eapply spec_bind; [apply run_lanes_spec; [done|apply finish_below]|]. intros results _. destruct (gather _ _ _) as [[e|] out]; [apply spec_fail|].
    by apply spec_ret_eq.
Qed.

Lemma insert_union_spec ctx keys hs : cell ctx ∈ hs -> balanced hs (insertUnionEvalKeys (L := L) ctx keys).
Proof. intros Hc. unfold insertUnionEvalKeys. cgo_steps. Qed.

(** The fuser of every lane is balanced on the context of the call. *)
Definition lanes_ok (fuse : Fuser (L := L)) (req : FullFuseRequest) : Prop :=
  forall ctx c pre hs, cell ctx ∈ hs -> balanced hs (fuse (Some ctx) req c pre).

Lemma union_score_spec params req cs n fuse hs : dims_ok params -> lanes_ok fuse req -> balanced hs (union_score (L := L) params req cs n fuse).
Proof.
  intros Hd Hf. unfold union_score. case_match eqn:Hz; [apply spec_fail|]. apply in_context_spec; [by intros; apply create_spec|]. intros ctx hs' Hc.
  eapply spec_bind with (own1 := nothing) (Q1 := anything).
  { case_match; [by apply insert_union_spec|by apply spec_ret_eq]. }
  intros [] _. apply run_union_spec; [apply clamp_positive; lia|]. intros c. by apply Hf.
Qed.

Lemma union_score_refs_spec params req cs n pks refs resolve fuse hs : dims_ok params -> lanes_ok fuse req ->
  balanced hs (union_score_refs (L := L) params req cs n pks refs resolve fuse).
Proof.
  intros Hd Hf. unfold union_score_refs. case_match eqn:Hz; [apply spec_fail|]. case_match; [apply spec_fail|].
  apply in_context_spec; [by intros; apply create_spec|]. intros ctx hs' Hc. cgo_steps.
  apply run_union_spec; [apply clamp_positive; lia|]. intros c. apply Hf. mem_in.
Qed.

Lemma lane_request_ok req c pre : fuse_ok req -> fuse_ok (unionComparatorRequest req c pre).
Proof. intros [Hb Hd Hs]. unfold unionComparatorRequest. destruct pre; constructor; done. Qed.

Lemma plain_lanes req : some_ciphertext req -> fuse_ok req -> lanes_ok chunkedUnionComparatorWithContext req.
Proof.
  intros Hc Hf ctx c pre hs Hx. apply chunked_fuse_context_spec; [done| |by apply lane_request_ok].
  unfold some_ciphertext, unionComparatorRequest in *. by destruct pre.
Qed.

Lemma encrypted_lanes req : fuse_ok req -> lanes_ok chunkedEncryptedUnionComparatorWithContext req.
Proof. intros Hf ctx c pre hs Hx. by apply encrypted_payload_context_spec, lane_request_ok. Qed.

Lemma input_lanes req : fuse_ok (fullFuseRequest req) -> lanes_ok chunkedEncryptedInputUnionComparatorWithContext (fullFuseRequest req).
Proof.
  intros Hf ctx c pre hs Hx. apply encrypted_inputs_context_spec; [done|].
  apply (lane_request_ok _ c pre) in Hf as [Hb Hd Hs]. constructor; [cbn; lia|done..].
Qed.

Lemma full_fuse_refs_spec params req pks refs resolve hs : dims_ok params -> some_ciphertext req -> fuse_ok req ->
  balanced hs (FullFusePayloadCKKSWithEvalSumRefs (L := L) params req pks refs resolve).
Proof.
  intros Hd Hs [Hb Hp Hc]. unfold FullFusePayloadCKKSWithEvalSumRefs. case_match; [apply spec_fail|].
  apply in_context_spec; [by intros; apply create_spec|]. intros ctx hs' Hx. cgo_steps. by apply full_fuse_context_spec.
Qed.
End balance_fuse.

Section balance_exported.
Context {L : Type} `{CLib L} {HL : CLibLaws} {HS : SmallObjects} {HC : ChunkLaws} `{IntRange} `{GoRange} `{Workers} (fmt6 : float64 -> string).

#[local] Hint Resolve lazy_round1_spec decrypt_mask_spec : cgo.

Ltac head_of t := match t with ?f _ => head_of f | _ => t end.

(** A call that uses one context of its own and known steps. *)
Ltac api :=
  match goal with |- spec _ _ (quiet ?m) _ _ => let f := head_of m in apply (quiet_spec _ anything); unfold f end;
  unfold evalProductSumInContext, product_sum, evalBinaryCKKS, maybe_mult, partial_decrypt, with_two_parties, first_keys, next_keys, lead_sum, share_sum,
    with_context, with_mult, with_sum, with_ct, with_pk, with_keys, computing, with_string;
  try match goal with |- context [match ?r with Some _ => _ | None => _ end] => destruct r end; cgo_steps.

Ltac quietly lem := apply (quiet_spec _ anything); apply lem.

Lemma combine_round1_spec tag create pks ms ss hs : (forall hs', spec (L := L) hs' [] create (fun h => [cell h]) anything) ->
  balanced hs (if counts_differ pks ms ss then gfail "public/eval-key share counts must match and be non-empty" else
    with_context create (fun ctx => joining tag ctx pks ms (fun j => let^ s := combineEvalSumIncremental ctx pks ss in gret (j, s)))).
Proof.
  intros Hc. destruct (counts_differ _ _ _) eqn:Hd; [apply spec_fail|]. apply counts_same in Hd as (Hn & Hl & Hr). apply in_context_spec; [done|].
  intros ctx hs' Hx. apply joined_pair_spec; [done..|]. intros hs'' Hy. eapply spec_any. apply combineIncremental_spec; [done..|]. by destruct pks, ss.
Qed.

Lemma combine_lazy_spec params pks ms refs resolve hs : balanced hs (BFVCombineEvalKeyRound1Lazy (L := L) params pks ms refs resolve).
Proof.
  unfold BFVCombineEvalKeyRound1Lazy. destruct (counts_differ _ _ _) eqn:Hd; [apply spec_fail|]. apply counts_same in Hd as (Hn & Hl & Hr).
  destruct resolve as [resolve|]; [|apply spec_fail]. apply in_context_spec; [intros; apply createBFV_spec|]. intros ctx hs' Hx.
  apply joined_pair_spec; [done..|]. intros hs'' Hy. eapply spec_any. by apply combineLazy_spec.
Qed.

Lemma fold_session_spec params lead shares hs : dims_ok params -> balanced hs (
  let^ f := NewEvalSumIncrementalFold (L := L) params lead in
  gtry (each (fun _ s => Fold f s.1 s.2) 0 shares) (fun _ => quiet (Finalize f)) (fun _ => quiet (Finalize f))).
Proof.
  intros Hd. eapply spec_bind_own; [by apply fold_owned_spec|]. intros f Ho. apply fold_calls_spec. by rewrite Ho.
Qed.

Lemma rot_share_spec params streamed hs : dims_ok params -> balanced hs (benchRotShareGen (L := L) params streamed).
Proof.
  intros Hd. unfold benchRotShareGen, with_two_parties, first_keys, next_keys, lead_sum, share_sum, with_keys. apply in_context_spec; [by intros; apply create_spec|].
  intros ctx hs' Hc. cgo_steps. eapply spec_bind; [apply total_spec, call1_spec; subs|]. intros [o r] Hr. cbn [fst snd] in *.
  pose proof (made_one _ _ _ Hr ltac:(not_left)) as Hm. destruct (rc r =? 0) eqn:Hrc; cbn [negb]; [by apply spec_free_opt, spec_ret_eq|].
  rewrite (bool_decide_false (rc r = 0)) in Hm by lia. destruct o; [done|]. apply spec_fail.
Qed.

Lemma exported_balanced m : exported (L := L) fmt6 m -> balanced [] m.
Proof.
  intros Hm. destruct Hm.
  all: try solve [api].
  all: try solve [quietly in_context_spec].
  all: try solve [quietly union_score_spec; first [done|by apply plain_lanes|by apply encrypted_lanes|by apply input_lanes]].
  all: try solve [quietly union_score_refs_spec; first [done|by apply plain_lanes|by apply encrypted_lanes|by apply input_lanes]].
  all: try solve [apply (quiet_spec _ anything); first [by apply full_fuse_refs_spec|by apply full_fuse_spec|by apply chunked_fuse_spec|apply blind_fuse_spec
    |by apply decrypt_spec|apply score_spec|by apply resident_spec]].
  all: try solve [apply threshold_smoke_spec].
  - apply session_spec; [done|]. intros ctx. eapply Forall_impl; [done|]. intros m Hm. by apply (context_calls_balanced ctx); [left|].
  - quietly combine_round1_spec. by intros; apply create_spec.
  - quietly combine_round1_spec. intros; apply createBFV_spec.
  - quietly combine_lazy_spec.
  - unfold CombineEvalMultSwitchShares. apply (quiet_spec _ anything). case_match eqn:Hd; [apply spec_fail|].
    apply in_context_spec; [by intros; apply create_spec|]. intros ctx hs Hc. apply joining_spec; [done|nonempty|lengths|]. intros; by apply spec_ret_eq.
  - unfold CombineEvalSumSharesIncremental. apply (quiet_spec _ anything). case_match eqn:Hd; [apply spec_fail|].
    apply in_context_spec; [by intros; apply create_spec|]. intros ctx hs Hc. eapply spec_any. apply combineIncremental_spec; [done|lengths|nonempty].
  - by apply fold_session_spec.
  - quietly distance_spec. by intros; apply create_spec.
  - quietly distance_spec. intros; apply createBFV_spec.
  - unfold FuseCKKSPartialsForContract. apply (quiet_spec _ anything). do 2 (case_match; [apply spec_fail|]).
    apply in_context_spec; [by intros; apply create_spec|]. intros ctx hs Hc. apply fuse_partials_spec; [done|by apply (bool_decide_unpack _)|nonempty|lia].
  - unfold FuseBFVPartialsForContract. apply (quiet_spec _ anything). do 2 (case_match; [apply spec_fail|]).
    apply in_context_spec; [intros; apply createBFV_spec|]. intros ctx hs Hc. apply fuse_partials_spec; [done|by apply (bool_decide_unpack _)|nonempty|lia].
  - unfold SmokeCKKS. cgo_steps.
  - unfold ReleaseOpenFHEGlobalContexts. cgo_steps.
  - apply (quiet_spec _ anything), auction_server_spec; [done|]. intros ctx cPk i v hs Hc Hp. cgo_steps.
  - apply (quiet_spec _ anything), auction_server_spec; [done|]. intros ctx cPk i v hs Hc Hp. cgo_steps.
  - unfold SingleKeyAuctionDecrypt. apply (quiet_spec _ anything). do 2 (case_match; [apply spec_fail|]).
    apply in_context_spec; [by intros; apply create_spec|]. intros ctx hs Hc. cgo_steps.
    eapply spec_bind; [apply each_any; intros; apply decrypt_mask_spec; mem_in|]. intros l _. by apply spec_ret_eq.
  - quietly rot_share_spec. done.
Qed.
End balance_exported.

(** ** A library to run the bindings on *)

(** Every function succeeds, sets its outputs and leaves one byte. *)
Definition ready_reply (n : nat) : reply := mkReply 0 (replicate n true) [x00] [0] [] "".

Definition ready_lib : CLib unit := {| c_call := fun _ _ _ ps _ => (tt, ready_reply (length ps)); c_free := fun _ _ _ => tt |}.

Lemma ready_laws : CLibLaws (H0 := ready_lib).
Proof. split; cbn; [done|done| |done]. intros. unfold written. cbn. lia. Qed.

Lemma ready_small : SmallObjects (H0 := ready_lib).
Proof. intros name hs ds ps l. unfold zlen. cbn. lia. Qed.

Lemma ready_chunks : ChunkLaws (H0 := ready_lib).
Proof. intros hs ds ps l. cbn. intros _ _. split; [by unfold written|]. by exists []. Qed.

Definition ascending : IntRange := {| range_ints := elements; range_ints_perm := fun m => Permutation_refl _ |}.

(** Workers that finish in the opposite order of their jobs. *)
Definition last_first : Workers.
Proof. refine {| finish := fun n => rev (seq 0 n) |}. intros n. symmetry. apply Permutation_rev. Defined.

Definition fresh_state {L} (l : L) : cstate L := mkC ∅ 1 [] l.

(** ** Balance *)

Section claims.
Context {L : Type} `{CLib L} {HL : CLibLaws} {HC : ChunkLaws} `{IntRange} `{GoRange} `{Workers} (fmt6 : float64 -> string).

(** No object lies at an address that has not been handed out. *)
Definition fresh_above (s : cstate L) : Prop := forall p, (next s <= p)%positive -> live s !! p = None.

(** A balanced call leaves the objects and the faults as they were. *)
Lemma balanced_keeps {A} (m : G L A) s : balanced [] m -> fresh_above s ->
  live (m s).1 = live s /\ faults (m s).1 = faults s /\ fresh_above (m s).1.
Proof.
  intros Hm Hs. specialize (Hm (live s) s). destruct (m s) as [s' r]. cbn. destruct Hm as [Hf Hr].
  - constructor.
  - split; [by rewrite list_to_map_nil, map_empty_union|constructor|constructor|done].
  - assert (Hh : holds (live s) [] s') by (destruct r as [e|x]; [done|apply Hr]).
    destruct Hh as [Hl _ _ Hn]. rewrite list_to_map_nil, map_empty_union in Hl. done.
Qed.

End claims.

End CgoTheorems.
