(* ===== verification/CgoBridge.v ===== *)
(** * The helper on the encryption bindings

    The helper process ([cmd/ares-openfhe-helper]) answers its requests with
    the bindings of [pkg/ares/crypto/cgo].  Here the bindings of [CgoKeys],
    [CgoCombine] and [CgoEval] become the library of [HelperServer]: what the
    helper's transparency assumes of its library is proved of the bindings, and
    the daemon is shown to leak no object however it is used. *)

From Stdlib Require Import ZifyBool SpecFloat.
From S2P Require Import Prelude Float64 HelperClient HelperServer CgoCore CgoKeys CgoCombine CgoEval CgoFuse CgoTheorems.
Import HelperClient HelperServer CgoCore.

#[local] Open Scope string_scope.
#[local] Open Scope list_scope.
#[local] Open Scope Z_scope.
#[local] Open Scope go_scope.
#[local] Open Scope cgo_scope.

Module CgoBridge.

(** ** The bindings as the helper's library *)

(** [cgo.ContractParams{RingDim: ..., ScalingFactor: ..., Depth: ...}]: the
    other fields keep their zero values. *)
Definition contract (p : openfheParams) : CgoKeys.ContractParams :=
  CgoKeys.mkContract (o_RingDim p) (o_ScalingFactor p) (o_Depth p) false 0 0 false.

Definition cgo_bridge {L : Type} `{CLib L} (version : string) : Bridge (cstate L) := {|
  OpenFHEVersion := version;
  DistributedKeyGenFirst p := CgoKeys.DistributedKeyGenFirst (contract p);
  DistributedKeyGenNext p := CgoKeys.DistributedKeyGenNext (contract p);
  BFVDistributedKeyGenFirst := CgoKeys.BFVDistributedKeyGenFirst;
  BFVDistributedKeyGenNext := CgoKeys.BFVDistributedKeyGenNext;
  EncryptCKKSForContract p := CgoEval.EncryptCKKSForContract (contract p);
  EncryptBFVForContract := CgoEval.EncryptBFVForContract;
  b_EvalKeyRound1Lead p := CgoKeys.EvalKeyRound1Lead (contract p);
  b_BFVEvalKeyRound1Lead := CgoKeys.BFVEvalKeyRound1Lead;
  b_EvalKeyRound1Participant p := CgoKeys.EvalKeyRound1Participant (contract p);
  b_BFVEvalKeyRound1Participant := CgoKeys.BFVEvalKeyRound1Participant;
  b_EvalKeyRound2Participant p := CgoKeys.EvalKeyRound2Participant (contract p);
  b_BFVEvalKeyRound2Participant := CgoKeys.BFVEvalKeyRound2Participant;
  PartialDecryptCKKSForContract p := CgoEval.PartialDecryptCKKSForContract (contract p);
  PartialDecryptBFVForContract := CgoEval.PartialDecryptBFVForContract;
  b_CombineEvalKeyRound1 p := CgoKeys.CombineEvalKeyRound1 (contract p);
  b_BFVCombineEvalKeyRound1 := CgoKeys.BFVCombineEvalKeyRound1;
  b_CombineEvalKeyRound2 p := CgoKeys.CombineEvalKeyRound2 (contract p);
  b_BFVCombineEvalKeyRound2 := CgoKeys.BFVCombineEvalKeyRound2;
  SplitRotShareAB p := CgoCombine.SplitRotShareAB (contract p);
  ReconstructRotShareAB p := CgoCombine.ReconstructRotShareAB (contract p);
  FuseCKKSPartialsForContract p := CgoEval.FuseCKKSPartialsForContract (contract p);
  FuseBFVPartialsForContract := CgoEval.FuseBFVPartialsForContract;
  EvalProductSumBFVForContract := CgoEval.EvalProductSumBFVForContract;
  EvalPolyCKKSForContract p := CgoEval.EvalPolyCKKSForContract (contract p);
  EvalAddCKKSForContract p := CgoEval.EvalAddCKKSForContract (contract p);
  EvalSubCKKSForContract p := CgoEval.EvalSubCKKSForContract (contract p);
  EvalMultCKKSForContract p := CgoEval.EvalMultCKKSForContract (contract p);
  EvalConstMultCKKSForContract p := CgoEval.EvalConstMultCKKSForContract (contract p);
  EvalArgmaxCKKSForContract p := CgoEval.EvalArgmaxCKKSForContract (contract p)
|}.

(** ** What the helper assumes of its library *)

Section yields.
Context {L : Type} `{CLib L} {HL : CLibLaws} {HS : SmallObjects}.

Lemma yields_ret {A} (P : A -> Prop) a : P a -> yields P (gret (L := L) a).
Proof. by intros Ha s. Qed.

Lemma yields_fail {A} (P : A -> Prop) e : yields P (gfail (L := L) e).
Proof. by intros s. Qed.

Lemma yields_bind {A C} (P : A -> Prop) (Q : C -> Prop) (m : G L A) f : yields P m -> (forall a, P a -> yields Q (f a)) -> yields Q (gbind m f).
Proof. intros Hm Hf s. specialize (Hm s). unfold gbind. destruct (m s) as [s' [e|a]]; [done|]. by apply Hf. Qed.

Lemma yields_then {A C} (Q : C -> Prop) (m : G L A) f : (forall a, yields Q (f a)) -> yields Q (gbind m f).
Proof. intros Hf. eapply yields_bind; [apply yields_any|done]. Qed.

Lemma yields_defer {A} (P : A -> Prop) d (m : G L A) : yields P m -> yields P (gdefer d m).
Proof. intros Hm s. specialize (Hm s). unfold gdefer. by destruct (m s). Qed.

Lemma yields_if {A} (P : A -> Prop) (b : bool) (m m' : G L A) : yields P m -> yields P m' -> yields P (if b then m else m').
Proof. by destruct b. Qed.

(** What every function with one output leaves behind. *)
Lemma yields_call1 k name hc ds : name ∉ may_leave_output ->
  yields (fun x => rc x.2 = 0 -> is_Some x.1 /\ mem x.2 <> [] /\ zlen (mem x.2) < 2 ^ 31) (call1 (L := L) k name hc ds).
Proof.
  intros Hn s. unfold call1, gbind, ccall. destruct (forallb _ _); [|done]. cbn [length addresses].
  pose proof (law_set name hc.*1 ds [next s] (lib s) Hn) as Hset. pose proof (law_mem name hc.*1 ds [next s] (lib s)) as Hmem.
  pose proof (small_object name hc.*1 ds [next s] (lib s)) as Hsize. destruct (c_call _ _ _ _ _) as [l r]. cbn in *. intros Hr.
  rewrite bool_decide_true in Hset by done. rewrite Hset. cbn. eauto.
Qed.

(** Serialized objects are not empty. *)
Lemma yields_bytes err name hc ds : name ∉ may_leave_output -> yields bytes_ok (bytes_or (L := L) err name hc ds).
Proof.
  intros Hn. unfold bytes_or, bytes_with. eapply yields_bind; [by apply yields_call1|]. intros [o r] Hr. cbn in Hr.
  destruct (rc r =? 0) eqn:Hrc; cbn [negb]; [|apply yields_fail]. destruct Hr as ([h ->] & Hm & Hs); [lia|].
  apply yields_defer. unfold copyCBytes. destruct (zlen (mem r) =? 0) eqn:Hz; [unfold zlen in Hz; destruct (mem r); [done|cbn in Hz; lia]|].
  assert (0 <= zlen (mem r)) by (unfold zlen; lia). unfold GoBytes. rewrite cint_small by lia. replace (zlen (mem r) <? 0) with false by lia. apply yields_ret. unfold zlen. by rewrite Nat2Z.id, take_ge.
Qed.
End yields.

Create HintDb yields.
#[export] Hint Resolve yields_bytes yields_fail : yields.
#[export] Hint Extern 1 (_ ∉ may_leave_output) => not_left : yields.

(** Steps with a known postcondition are asked for it, others are run. *)
Ltac yielding :=
  repeat first
    [ solve [eauto with yields]
    | apply yields_defer
    | apply yields_if
    | eapply yields_bind; [solve [eauto with yields]|intros ? ?]
    | apply yields_then; intros ?
    | case_match
    | apply yields_ret ].

Section laws.
Context {L : Type} `{CLib L} {HL : CLibLaws} {HS : SmallObjects} (version : string).
Import CgoKeys.

#[local] Existing Instance cgo_bridge.

Lemma keys_out_yields keys lead : yields share_ok (keys_out (L := L) keys lead).
Proof. destruct keys. unfold keys_out, serializePublicKey, serializeSecretKeyShare. yielding. done. Qed.

Lemma round1_lead_yields tag sk ctx : yields pair_ok (round1_lead (L := L) tag sk ctx).
Proof. unfold round1_lead, serializeEvalMultKey, serializeRotKey. yielding. done. Qed.

Lemma round1_participant_yields tag sk m s pk ctx : yields pair_ok (round1_participant (L := L) tag sk m s pk ctx).
Proof. unfold round1_participant, serializeEvalMultKey, serializeRotKey. yielding. done. Qed.

Lemma incremental_yields ctx pks shares : yields bytes_ok (combineEvalSumIncremental (L := L) ctx pks shares).
Proof. unfold combineEvalSumIncremental, serializeRotKey. destruct shares; [by intros s|]. yielding. Qed.

#[local] Hint Resolve incremental_yields : yields.

Lemma joined_yields tag ctx pks ms ss :
  yields pair_ok (joining (L := L) tag ctx pks ms (fun j => let^ s := combineEvalSumIncremental ctx pks ss in gret (j, s))).
Proof.
  unfold joining, serializeEvalMultKey. yielding. done.
Qed.

Lemma round2_yields tag sk j pk lead ctx : yields bytes_ok (round2_participant (L := L) tag sk j pk lead ctx).
Proof. unfold round2_participant, serializeEvalMultKey. yielding. Qed.

#[local] Hint Resolve keys_out_yields round1_lead_yields round1_participant_yields joined_yields round2_yields : yields.

Ltac of_bridge :=
  cbn [DistributedKeyGenFirst DistributedKeyGenNext BFVDistributedKeyGenFirst BFVDistributedKeyGenNext b_EvalKeyRound1Lead b_BFVEvalKeyRound1Lead
    b_EvalKeyRound1Participant b_BFVEvalKeyRound1Participant b_EvalKeyRound2Participant b_BFVEvalKeyRound2Participant b_CombineEvalKeyRound1
    b_BFVCombineEvalKeyRound1 cgo_bridge];
  unfold CgoKeys.DistributedKeyGenFirst, CgoKeys.DistributedKeyGenNext, CgoKeys.BFVDistributedKeyGenFirst, CgoKeys.BFVDistributedKeyGenNext,
    keygen_first, keygen_next, EvalKeyRound1Lead, BFVEvalKeyRound1Lead, EvalKeyRound1Participant, BFVEvalKeyRound1Participant, EvalKeyRound2Participant,
    BFVEvalKeyRound2Participant, CombineEvalKeyRound1, BFVCombineEvalKeyRound1, with_context.

#[export] Instance cgo_bridge_laws : BridgeLaws (H0 := cgo_bridge version).
Proof. split; intros; of_bridge; yielding. Qed.
End laws.

(** ** The daemon leaks nothing *)

Section daemon.
Context {L : Type} `{CLib L} {HL : CLibLaws} {HS : SmallObjects} {HC : CgoFuse.ChunkLaws} (version : string).
Import CgoTheorems.

#[local] Existing Instances cgo_bridge ascending sorted_range last_first.

Notation run := (HelperServer.run (H0 := cgo_bridge version)).
Notation run_ciphertexts := (HelperServer.run_ciphertexts (H0 := cgo_bridge version)).

Lemma contract_dims p : CgoKeys.dims_ok (contract p).
Proof. split; cbn; lia. Qed.

Lemma unquiet {A} (m : G L A) : balanced [] (quiet m) -> balanced [] m.
Proof.
  intros Hm F s Hh Ho. specialize (Hm F s Hh Ho). unfold quiet, gbind in Hm. destruct (m s) as [s' [e|x]]; [done|].
  destruct Hm as [Hf [_ Hr]]. done.
Qed.

Lemma bbind_balanced {A C} (m : B (cstate L) A) (f : A -> B (cstate L) C) : spec (L := L) [] [] m nothing anything -> (forall a, balanced [] (f a)) -> balanced [] (bbind m f).
Proof. intros Hm Hf. change (balanced [] (gbind m f)). eapply spec_bind; [exact Hm|]. intros a _. apply Hf. Qed.

Lemma bof_balanced {A C} (x : string + A) (f : A -> B (cstate L) C) : (forall a, spec (L := L) [] [] (f a) nothing anything) -> balanced [] (bbind (bof x) f).
Proof. intros Hf F s Hh Ho. destruct x as [e|a]; [done|]. by apply Hf. Qed.

(** Every operation of the library is one of the bindings' calls. *)
Lemma library_balanced {A} (m : G L A) : exported (fun _ => "") (quiet m) -> balanced [] m.
Proof. intros Hm. by apply unquiet, (exported_balanced (fun _ => "")). Qed.

Ltac serving :=
  repeat first
    [ apply bof_balanced; intros ?
    | apply spec_ret_eq; [reflexivity|exact I]
    | apply spec_fail
    | apply bbind_balanced; [apply library_balanced; constructor; first [apply contract_dims|done]|intros ?]
    | case_match ].

Lemma run_ciphertexts_balanced req : NSlots (q req) < 2 ^ 31 -> balanced [] (run_ciphertexts req).
Proof.
  intros Hn. unfold HelperServer.run_ciphertexts, runEvalBinary. serving.
Qed.

Lemma run_balanced req : NSlots (q req) < 2 ^ 31 -> balanced [] (run req).
Proof.
  intros Hn. unfold HelperServer.run, participant_args, round2_args, partial_args, combine1_args, combine2_args.
  do 21 once (case_match; [solve [serving]|]). by apply run_ciphertexts_balanced.
Qed.
End daemon.

Section helper.
Context {L : Type} `{CLib L} {HL : CLibLaws} {HC : CgoFuse.ChunkLaws} (version : string).
Import CgoTheorems.

#[local] Existing Instance cgo_bridge.

(** Requests answered one after the other, until an answer cannot be encoded
    and the process ends. *)
Fixpoint serve (reqs : list request) (p : option (cstate L)) : option (cstate L) :=
  match reqs, p with
  | req :: reqs, Some s => serve reqs (daemon_turn (H0 := cgo_bridge version) req s).1
  | _, _ => p
  end.

Lemma turn_keeps {HS : SmallObjects} req s : NSlots (q req) < 2 ^ 31 -> fresh_above s ->
  match (daemon_turn (H0 := cgo_bridge version) req s).1 with
  | Some s' => live s' = live s /\ faults s' = faults s /\ fresh_above s'
  | None => True
  end.
Proof.
  intros Hn Hs. pose proof (balanced_keeps _ s (run_balanced version req Hn) Hs) as Hk. unfold daemon_turn.
  destruct (run req s) as [s' [e|res]]; [done|]. by destruct (forallb _ _).
Qed.

End helper.

(** ** Key generation through the whole stack *)

Section preserve.
Context {W : Type} (I : Client W -> Prop).

Definition preserves {A} (m : HelperClient.H W A) : Prop := forall c, I c -> I (m c).1.

Lemma preserves_ret {A} (a : A) : preserves (hret a).
Proof. by intros c. Qed.

Lemma preserves_bind {A C} (m : HelperClient.H W A) (f : A -> HelperClient.H W C) : preserves m -> (forall a, preserves (f a)) -> preserves (hbind m f).
Proof. intros Hm Hf c Hc. specialize (Hm c Hc). unfold hbind. destruct (m c) as [c' [e|a]]; [done|]. by apply Hf. Qed.

Lemma preserves_wrap {A} text (m : HelperClient.H W A) : preserves m -> preserves (hwrap text m).
Proof. intros Hm c Hc. specialize (Hm c Hc). unfold hwrap. by destruct (m c) as [c' []]. Qed.

(** A chain whose every operation keeps the invariant keeps it. *)
Record chain_preserves (o : chain_ops W) : Prop := {
  cp_first : preserves (ch_first o);
  cp_next : forall pk, preserves (ch_next o pk);
  cp_lead : forall sk, preserves (ch_lead o sk);
  cp_participant : forall sk m s pk, preserves (ch_participant o sk m s pk);
  cp_combine1 : forall a b c, preserves (ch_combine1 o a b c);
  cp_round2 : forall sk j pk l, preserves (ch_round2 o sk j pk l);
  cp_combine2 : forall pk l s, preserves (ch_combine2 o pk l s)
}.

Ltac keeping := repeat first [apply preserves_bind; [|intros ?] | apply preserves_wrap | apply preserves_ret].

Lemma chain_keeps o n : chain_preserves o -> preserves (chain o n).
Proof.
  intros [Hfirst Hnext Hlead Hpart Hc1 Hr2 Hc2].
  assert (Hkeys : forall k slot prev, preserves (next_keys o slot k prev)) by (intros k; induction k as [|k IH]; intros; cbn; keeping; auto).
  assert (Hround1 : forall shares slot base, preserves (round1_shares o slot base shares))
    by (intros shares; induction shares as [|s shares IH]; intros; cbn; keeping; auto).
  assert (Hround2 : forall shares slot j pk, preserves (round2_shares o slot j pk shares))
    by (intros shares; induction shares as [|s shares IH]; intros; cbn; keeping; auto).
  unfold chain. destruct (n <? 2); [by intros c|]. keeping; auto.
Qed.
End preserve.

(** Over any library that keeps its promises the chains agree. *)
Lemma chains_agree {W} `{Bridge W} {HB : BridgeLaws} params bfv n (c : Client (option W)) : HelperServer.live c -> finite (ScalingFactor params) = true ->
  KeygenChain params n c = chain (direct_ckks params) n c /\ BFVKeygenChain bfv n c = chain (direct_bfv bfv) n c.
Proof.
  intros Hc Hf. split.
  - exact (proj1 (chain_agrees _ _ (ckks_chain_same params Hf) n c Hc)).
  - exact (proj1 (chain_agrees _ _ (bfv_chain_same bfv) n c Hc)).
Qed.

Section chain.
Context {L : Type} `{CLib L} {HL : CLibLaws} {HC : CgoFuse.ChunkLaws} (version : string).
Import CgoTheorems.

#[local] Existing Instances ascending sorted_range last_first.

#[local] Instance bindings : Bridge (cstate L) := cgo_bridge version.

(** The daemon runs, with the objects and faults of [s]. *)
Definition holding (s : cstate L) (c : Client (option (cstate L))) : Prop :=
  exists s', proc c = Some s' /\ live s' = live s /\ faults s' = faults s /\ fresh_above s'.

Lemma direct_keeps {A} s op (m : G L A) : balanced [] m -> preserves (holding s) (direct op m).
Proof.
  intros Hm c (s1 & Hp & Hl & Hf & Hs). unfold direct. rewrite Hp.
  destruct (balanced_keeps m s1 Hm Hs) as (Hl1 & Hf1 & Hs1). destruct (m s1) as [s2 [e|a]]; cbn in *;
    exists s2; cbn; (split_and!; [done|congruence|congruence|done]).
Qed.

Lemma bmap_balanced {A C} (g : A -> C) (m : G L A) : balanced [] m -> balanced [] (bmap g m).
Proof. intros Hm. unfold bmap. apply bbind_balanced; [done|]. intros a. by apply spec_ret_eq. Qed.

Ltac chain_op := apply direct_keeps; try apply bmap_balanced; apply library_balanced; constructor; try apply contract_dims.

Lemma ckks_keeps {HS : SmallObjects} params s : chain_preserves (holding s) (direct_ckks params).
Proof. split; intros; cbn; chain_op. Qed.

Lemma bfv_keeps {HS : SmallObjects} params s : chain_preserves (holding s) (direct_bfv params).
Proof. split; intros; cbn; chain_op. Qed.

End chain.

(** ** Witnesses *)

Section witnesses.
Import CgoTheorems.

#[local] Existing Instances ready_lib ready_laws ready_chunks.


End witnesses.
End CgoBridge.
