(* ===== verification/CgoLazy.v ===== *)
(** * The encryption bindings: shares by index, unions and the size of a context

    Shares by index are accepted exactly when they form a table; the comparators
    of a union give the same chunks on any positive number of workers; and the
    loop that sizes a context ends exactly for dimensions that are at most 2^31
    modulo 2^32.  The lemmas on tables of shares also relate a table of
    references to the table of keys they stand for. *)

From Stdlib Require Import ZifyBool SpecFloat.
From S2P Require Import Prelude Float64 HelperClient HelperServer CgoCore CgoKeys CgoCombine CgoEval CgoFuse CgoTheorems.
Import HelperClient HelperServer CgoCore CgoKeys CgoCombine CgoEval CgoFuse CgoTheorems.

#[local] Open Scope string_scope.
#[local] Open Scope list_scope.
#[local] Open Scope Z_scope.
#[local] Open Scope go_scope.
#[local] Open Scope cgo_scope.

Module CgoLazy.

(** ** Shares by index *)

(** Results up to the text of an error. *)
Definition same_result {A B} (R : A -> B -> Prop) (x : string + A) (y : string + B) : Prop :=
  match x, y with
  | inl _, inl _ => True
  | inr a, inr b => R a b
  | _, _ => False
  end.

(** Tables of shares with the same indices, both valid, related entry by entry. *)
Section tables.
Context `{IntRange} {V V' : Type} (valid : V -> bool) (valid' : V' -> bool) (R : V -> V' -> Prop) (invalid none invalid' none' : string).

Definition entry_same (s : Z * V) (s' : Z * V') : Prop := s.1 = s'.1 /\ valid s.2 = true /\ valid' s'.2 = true /\ R s.2 s'.2.

Lemma entries_indices shares shares' : Forall2 entry_same shares shares' -> shares.*1 = shares'.*1.
Proof. induction 1 as [|s s' shares shares' (He & _) _ IH]; [done|]. cbn. congruence. Qed.

Lemma entries_valid shares shares' : Forall2 entry_same shares shares' ->
  Forall (fun s => valid s.2 = true) shares /\ Forall (fun s => valid' s.2 = true) shares'.
Proof. induction 1 as [|s s' shares shares' (_ & Hv & Hv' & _) _ [IH IH']]; split; by constructor. Qed.

Lemma party_ok_same required shares shares' : Forall2 entry_same shares shares' -> party_ok valid required shares <-> party_ok valid' required shares'.
Proof.
  intros Hs. destruct (entries_valid _ _ Hs) as [Hv Hv']. unfold party_ok, indices_of. rewrite (entries_indices _ _ Hs).
  assert (Hn : shares <> [] <-> shares' <> []) by (by destruct Hs). tauto.
Qed.

Lemma parties_ok_same required byParty byParty' : Forall2 (Forall2 entry_same) byParty byParty' ->
  Forall (party_ok valid required) byParty <-> Forall (party_ok valid' required) byParty'.
Proof. induction 1 as [|p p' byParty byParty' Hp _ IH]; [by split|]. rewrite !Forall_cons, IH, party_ok_same by done. done. Qed.

Lemma entry_lookup shares shares' i : Forall2 entry_same shares shares' -> i ∈ shares'.*1 ->
  exists v v', (list_to_map shares : gmap Z V) !! i = Some v /\ (list_to_map shares' : gmap Z V') !! i = Some v' /\ R v v'.
Proof.
  induction 1 as [|[j v] [j' v'] shares shares' (Hj & _ & _ & Hr) _ IH]; cbn in *; [by intros Hi%not_elem_of_nil|]. subst j'. intros Hi.
  destruct (decide (i = j)) as [-> |Hne]; [exists v, v'; by rewrite !lookup_insert_eq|].
  rewrite !lookup_insert_ne by done. apply IH. by apply elem_of_cons in Hi as [|].
Qed.

Lemma shares_at_same (zero : V) (zero' : V') byParty byParty' i : Forall2 (Forall2 entry_same) byParty byParty' -> Forall (fun p => i ∈ p.*1) byParty' ->
  Forall2 R (shares_at zero (list_to_map <$> byParty) i) (shares_at zero' (list_to_map <$> byParty') i).
Proof.
  unfold shares_at. induction 1 as [|p p' byParty byParty' Hp _ IH]; intros Hi; cbn; [constructor|]. apply Forall_cons in Hi as [Hi Hr].
  constructor; [|by apply IH]. destruct (entry_lookup _ _ i Hp Hi) as (v & v' & -> & -> & Hv). done.
Qed.

Lemma validate_same (zero : V) (zero' : V') byParty byParty' : Forall2 (Forall2 entry_same) byParty byParty' ->
  same_result (fun x y => x.1 = y.1 /\ forall i, i ∈ x.1 -> Forall2 R (shares_at zero x.2 i) (shares_at zero' y.2 i))
    (validate valid invalid none byParty) (validate valid' invalid' none' byParty').
Proof.
  intros Hb. pose proof (fun ix ks => validate_iff valid invalid none byParty ix ks) as Hv.
  pose proof (fun ix ks => validate_iff valid' invalid' none' byParty' ix ks) as Hv'.
  destruct Hb as [|lead lead' rest rest' Hl Hrest]; [done|]. pose proof (entries_indices _ _ Hl) as Hi.
  assert (Hb : Forall2 (Forall2 entry_same) (lead :: rest) (lead' :: rest')) by (by constructor). pose proof (parties_ok_same (indices_of lead) _ _ Hb) as Hok.
  assert (Hii : indices_of lead = indices_of lead') by (unfold indices_of; by rewrite Hi).
  destruct (validate valid _ _ _) as [e|[ix ks]], (validate valid' _ _ _) as [e'|[ix' ks']]; cbn [same_result]; [done| | |].
  - destruct (proj1 (Hv' _ _) eq_refl) as (l & [= <-] & Hf & _ & _). rewrite <- Hii, <- Hok in Hf.
    discriminate (proj2 (Hv _ _) (ex_intro _ lead (conj eq_refl (conj Hf (conj eq_refl eq_refl))))).
  - destruct (proj1 (Hv _ _) eq_refl) as (l & [= <-] & Hf & _ & _). rewrite Hok, Hii in Hf.
    discriminate (proj2 (Hv' _ _) (ex_intro _ lead' (conj eq_refl (conj Hf (conj eq_refl eq_refl))))).
  - destruct (proj1 (Hv _ _) eq_refl) as (l & [= <-] & Hf & -> & ->). destruct (proj1 (Hv' _ _) eq_refl) as (l' & [= <-] & Hf' & -> & ->).
    cbn [fst snd]. split; [done|].
    intros i Hin. apply shares_at_same; [done|]. eapply Forall_impl; [exact Hf'|]. intros p (_ & _ & _ & Hp).
    rewrite Hi in Hin. apply (elem_of_list_to_set (C := gset Z)) in Hin. fold (indices_of lead') in Hin. rewrite <- Hp in Hin.
    by apply elem_of_list_to_set in Hin.
Qed.
End tables.

Section validated.
Context `{IntRange}.

Definition keyed_ref (s : IndexedEvalSumKeyRef) : Z * IndexedEvalSumKeyRef := (rf_Index s, s).
Definition keyed_key (s : IndexedEvalSumKey) : Z * bytes := (ix_Index s, ix_Key s).

(** A party's row of the table. *)
Definition table_row (indices : list Z) (p : list IndexedEvalSumKey) : Prop :=
  p <> [] /\ Forall (fun s => ix_Key s <> []) p /\ NoDup (ix_Index <$> p) /\ (list_to_set (ix_Index <$> p) : gset Z) = list_to_set indices.

Lemma keyed_indices p : (keyed_key <$> p).*1 = ix_Index <$> p.
Proof. by rewrite <- list_fmap_compose. Qed.

Lemma row_ok indices p : party_ok (fun key => negb (zlen key =? 0)) (list_to_set indices) (keyed_key <$> p) <-> table_row indices p.
Proof.
  unfold party_ok, table_row, indices_of. rewrite keyed_indices, Forall_fmap. assert (Hn : keyed_key <$> p <> [] <-> p <> []) by (by destruct p).
  assert (Hk : Forall ((fun s : Z * bytes => negb (zlen s.2 =? 0) = true) ∘ keyed_key) p <-> Forall (fun s => ix_Key s <> []) p).
  { apply Forall_iff. intros s. cbn. rewrite negb_true_iff. apply nonempty_len. }
  tauto.
Qed.

Lemma table_iff byParty indices (keyed : list (gmap Z bytes)) :
  (exists lead, head (fmap keyed_key <$> byParty) = Some lead /\ Forall (party_ok (fun key => negb (zlen key =? 0)) (indices_of lead)) (fmap keyed_key <$> byParty) /\
     indices = lead.*1 /\ keyed = (list_to_map <$> (fmap keyed_key <$> byParty))) <->
  (exists lead, head byParty = Some lead /\ indices = ix_Index <$> lead /\ keyed = ((fun p => list_to_map (keyed_key <$> p)) <$> byParty) /\
     Forall (table_row indices) byParty).
Proof.
  rewrite <- list_fmap_compose. destruct byParty as [|lead rest]; [split; by intros (? & ? & _)|]. split.
  - intros (l & [= <-] & Hf & -> & ->). exists lead. rewrite keyed_indices. split_and!; [done..|].
    rewrite Forall_fmap in Hf. eapply Forall_impl; [exact Hf|]. intros p Hp. apply row_ok. by rewrite <- keyed_indices.
  - intros (l & [= <-] & -> & -> & Hf). exists (keyed_key <$> lead). rewrite keyed_indices. split_and!; [done| |done..].
    rewrite Forall_fmap. eapply Forall_impl; [exact Hf|]. intros p Hp. unfold indices_of. rewrite keyed_indices. by apply row_ok.
Qed.

Lemma row_lookup byParty party shares i : byParty !! party = Some shares -> NoDup (ix_Index <$> shares) -> i ∈ ix_Index <$> shares ->
  exists key, shares_at [] ((fun p => list_to_map (keyed_key <$> p)) <$> byParty) i !! party = Some key /\ mkIndexed i key ∈ shares.
Proof.
  intros Hp Hn Hi. apply list_elem_of_fmap in Hi as ([j key] & -> & Hin). exists key. cbn. split; [|done].
  unfold shares_at. rewrite !list_lookup_fmap, Hp. cbn. rewrite (elem_of_list_to_map_1 _ _ key); [done|by rewrite keyed_indices|].
  apply list_elem_of_fmap. by exists (mkIndexed j key).
Qed.

(** C25: shares by index are accepted exactly when they form a table: there is
    a lead, every party has non-empty keys and no index twice, and all parties
    have the lead's indices.  The keys are then combined in the lead's order,
    and the key found for any party and index is the one that party sent. *)
Theorem shares_validated byParty indices keyed :
  (validateIndexedEvalSumShares byParty = inr (indices, keyed) <->
   exists lead, head byParty = Some lead /\ indices = ix_Index <$> lead /\ keyed = ((fun p => list_to_map (keyed_key <$> p)) <$> byParty) /\
     Forall (table_row indices) byParty) /\
  (validateIndexedEvalSumShares byParty = inr (indices, keyed) ->
   forall party shares i, byParty !! party = Some shares -> i ∈ indices ->
     exists key, shares_at [] keyed i !! party = Some key /\ mkIndexed i key ∈ shares).
Proof.
  assert (Hiff : validateIndexedEvalSumShares byParty = inr (indices, keyed) <->
    exists lead, head byParty = Some lead /\ indices = ix_Index <$> lead /\ keyed = ((fun p => list_to_map (keyed_key <$> p)) <$> byParty) /\
      Forall (table_row indices) byParty).
  { unfold validateIndexedEvalSumShares. rewrite validate_iff. apply table_iff. }
  split; [exact Hiff|]. intros Hv party shares i Hp Hi. apply Hiff in Hv as (lead & _ & _ & -> & Hrows).
  rewrite Forall_forall in Hrows. destruct (Hrows shares) as (_ & _ & Hnd & Hset); [by apply list_elem_of_lookup_2 in Hp|].
  apply (row_lookup _ _ _ _ Hp Hnd). by rewrite <- (elem_of_list_to_set (C := gset Z)), Hset, elem_of_list_to_set.
Qed.
End validated.

(** ** Unions on several workers *)

Section unions.
Context {L : Type} `{CLib L} `{Workers}.

(** A fuser whose answer depends on the comparator alone, in the states that
    satisfy [I] and that it keeps in [I]: the lanes do not disturb each other. *)
Definition answering (I : cstate L -> Prop) (fuse : UnionComparator -> G L (list bytes)) (answer : UnionComparator -> string + list bytes) : Prop :=
  forall c s, I s -> (fuse c s).2 = answer c /\ I (fuse c s).1.

Lemma text_app_assoc (a b c : string) : (a +:+ b) +:+ c = a +:+ (b +:+ c).
Proof. induction a as [|x a IH]; [done|]. exact (f_equal (String x) IH). Qed.

Lemma each_ok I fuse answer name i cs outs s : answering I fuse answer -> I s -> Forall2 (fun c o => answer c = inr o) cs outs ->
  (each (L := L) (fun _ c => gwrap (name c) (fuse c)) i cs s).2 = inr outs.
Proof.
  intros Ha Hs Ho. revert i s Hs. induction Ho as [|c o cs outs Hc _ IH]; intros i s Hs; cbn [each]; [done|]. unfold gbind at 1, gwrap at 1.
  destruct (Ha c s Hs) as [Hx Hi]. destruct (fuse c s) as [s1 r]. cbn in Hx, Hi. subst r. rewrite Hc. unfold gbind. specialize (IH (S i) s1 Hi).
  destruct (each _ _ _ s1) as [s2 r]. cbn in IH. by subst r.
Qed.

Lemma each_error I fuse answer name i cs s : answering I fuse answer -> I s -> (exists c e, c ∈ cs /\ answer c = inl e) ->
  exists c e, c ∈ cs /\ answer c = inl e /\ (each (L := L) (fun _ c => gwrap (name c) (fuse c)) i cs s).2 = inl (name c +:+ e).
Proof.
  intros Ha. revert i s. induction cs as [|c cs IH]; intros i s Hs (d & e & Hd & He); [by apply not_elem_of_nil in Hd|]. cbn [each].
  unfold gbind at 1, gwrap at 1. destruct (Ha c s Hs) as [Hx Hi]. destruct (fuse c s) as [s1 [e1|o]]; cbn in Hx, Hi.
  - exists c, e1. split_and!; [left|done|done].
  - destruct (IH (S i) s1 Hi) as (c' & e' & Hin & He' & Hr).
    { exists d, e. split; [|done]. apply elem_of_cons in Hd as [-> |]; [congruence|done]. }
    exists c', e'. split_and!; [by right|done|]. unfold gbind. destruct (each _ _ _ s1) as [s2 r]. cbn in Hr. by subst r.
Qed.

(** The lanes' results, in the order in which they finish. *)
Definition lane_results (answer : UnionComparator -> string + list bytes) (cs : list UnionComparator) (order : list nat)
    (results : list (nat * UnionComparator * (string + list bytes))) : Prop :=
  Forall2 (fun i x => x.1.1 = i /\ cs !! i = Some x.1.2 /\ x.2 = answer x.1.2) order results.

Lemma run_lanes_answers I fuse answer cs order s : answering I fuse answer -> I s -> Forall (fun i => (i < length cs)%nat) order ->
  exists results, (run_lanes (L := L) fuse cs order s).2 = inr results /\
    lane_results answer cs order results.
Proof.
  intros Ha Hs Ho. revert s Hs. induction Ho as [|i order Hi _ IH]; intros s Hs; cbn [run_lanes]; [exists []; split; [done|constructor]|].
  destruct (lookup_lt_is_Some_2 cs i Hi) as [c Hc]. unfold gbind at 1, at_index. rewrite Hc. cbn. unfold gbind at 1, gtry. destruct (Ha c s Hs) as [Hx HI].
  destruct (fuse c s) as [s1 [e|out]]; cbn in Hx, HI; cbn; destruct (IH s1 HI) as (rest & Hr & Hf); unfold gbind; destruct (run_lanes _ _ _ s1) as [s2 r]; cbn in Hr; subst r; cbn;
    (eexists; split; [done|]; constructor; [by cbn|done]).
Qed.

Definition store (out : list (list bytes)) (x : nat * UnionComparator * (string + list bytes)) : list (list bytes) :=
  match x.2 with inr o => <[x.1.1 := o]> out | inl _ => out end.

(** Gathered results: every slot filled, or the first error that came in. *)
Lemma gather_ok answer cs order results out :
  lane_results answer cs order results ->
  Forall (fun c => exists o, answer c = inr o) cs ->
  gather results None out = (None, foldl store out results).
Proof.
  intros Hr Hc. revert out. induction Hr as [|i [[j c] r] order results (Hj & Hl & Hx) _ IH]; intros out; [done|]. cbn in *. subst.
  apply list_elem_of_lookup_2 in Hl. rewrite Forall_forall in Hc. destruct (Hc c Hl) as [o ->]. cbn. apply IH.
Qed.

Lemma gather_error answer cs order results out :
  lane_results answer cs order results -> (exists i c e, i ∈ order /\ cs !! i = Some c /\ answer c = inl e) ->
  exists c e, c ∈ cs /\ answer c = inl e /\ (gather results None out).1 = Some (lane_error c e).
Proof.
  intros Hr. revert out. induction Hr as [|i [[j c] r] order results (Hj & Hl & Hx) Hrest IH]; intros out (k & d & e & Hk & Hd & He); [by apply not_elem_of_nil in Hk|].
  cbn in *. subst. destruct (answer c) as [e'|o] eqn:Hc.
  - exists c, e'. split_and!; [by eapply list_elem_of_lookup_2|done|]. clear IH Hrest. revert out. induction results as [|[[j' c'] [e2|o2]] results IH]; intros out; cbn; auto.
  - apply IH. exists k, d, e. split_and!; [|done..]. apply elem_of_cons in Hk as [-> |]; [congruence|done].
Qed.

Lemma stored_lookup answer cs outs order results out k : lane_results answer cs order results -> Forall2 (fun c o => answer c = inr o) cs outs ->
  (k < length out)%nat -> k ∈ order \/ out !! k = outs !! k -> foldl store out results !! k = outs !! k.
Proof.
  intros Hr Ho. revert out. induction Hr as [|i [[j c] r] order results (Hj & Hl & Hx) _ IH]; intros out Hk Hor; cbn in *.
  { destruct Hor as [Hin|]; [by apply not_elem_of_nil in Hin|done]. }
  subst. destruct (Forall2_lookup_l _ _ _ _ _ Ho Hl) as (o & Hout & Hc). unfold store at 2. cbn. rewrite Hc. apply IH; [by rewrite length_insert|].
  destruct (decide (k = i)) as [-> |Hne]; [right; by rewrite list_lookup_insert_eq|]. rewrite list_lookup_insert_ne by done.
  destruct Hor as [Hin|]; [|by right]. apply elem_of_cons in Hin as [|]; [done|by left].
Qed.

Lemma stored_all answer cs outs results : lane_results answer cs (finish (length cs)) results -> Forall2 (fun c o => answer c = inr o) cs outs ->
  foldl store (replicate (length cs) []) results = outs.
Proof.
  intros Hr Ho. pose proof (Forall2_length _ _ _ Ho) as Hlen. apply list_eq. intros k. destruct (decide (k < length cs)%nat) as [Hk|Hk].
  - eapply stored_lookup; [done..|by rewrite length_replicate|]. left. rewrite finish_perm. apply elem_of_seq. lia.
  - rewrite (lookup_ge_None_2 outs) by lia. apply lookup_ge_None_2. clear Hr. assert (Hl : forall out, length (foldl store out results) = length out).
    { induction results as [|x results IH]; intros out; cbn; [done|]. rewrite IH. unfold store. destruct x.2; [done|apply length_insert]. }
    rewrite Hl, length_replicate. lia.
Qed.

(** What a union of comparators returns. *)
Definition union_result (cs : list UnionComparator) (answer : UnionComparator -> string + list bytes) (r : string + list (list bytes)) : Prop :=
  (forall outs, Forall2 (fun c o => answer c = inr o) cs outs -> r = inr outs) /\
  ((exists c e, c ∈ cs /\ answer c = inl e) -> exists c e, c ∈ cs /\ answer c = inl e /\ r = inl (lane_error c e)).

Lemma one_worker I ctx req cs pre (fuse : Fuser (L := L)) answer s : answering I (fun c => fuse ctx req c pre) answer -> I s ->
  union_result cs answer (runUnionComparatorsWith ctx req cs 1 pre fuse s).2.
Proof.
  intros Ha Hs. split.
  - intros outs Ho. by apply (each_ok I (fun c => fuse ctx req c pre) answer).
  - intros He. destruct (each_error I (fun c => fuse ctx req c pre) answer (fun c => "union comparator " +:+ uc_ID c +:+ ": ") 0 cs s Ha Hs He) as (c & e & Hin & Hce & Hr).
    exists c, e. split_and!; [done..|]. unfold runUnionComparatorsWith. cbn. rewrite Hr. unfold lane_error. by rewrite !text_app_assoc.
Qed.

Lemma more_workers I ctx req cs n pre (fuse : Fuser (L := L)) answer s : answering I (fun c => fuse ctx req c pre) answer -> I s -> 1 < n ->
  union_result cs answer (runUnionComparatorsWith ctx req cs n pre fuse s).2.
Proof.
  intros Ha Hs Hn. unfold runUnionComparatorsWith. replace (n =? 1) with false by lia. replace (n <=? 0) with false by lia. cbn [andb].
  destruct (run_lanes_answers I (fun c => fuse ctx req c pre) answer cs (finish (length cs)) s Ha Hs (finish_below _)) as (results & Hr & Hl).
  unfold gbind. destruct (run_lanes _ _ _ s) as [s1 r]. cbn in Hr. subst r. split.
  - intros outs Ho. assert (Hok : Forall (fun c => exists o, answer c = inr o) cs) by (clear -Ho; induction Ho; constructor; eauto).
    rewrite (gather_ok _ _ _ _ _ Hl Hok). cbn. f_equal. by apply (stored_all answer cs).
  - intros (d & e & Hin & He). apply list_elem_of_lookup in Hin as [i Hi]. pose proof (lookup_lt_Some _ _ _ Hi) as Hlt.
    destruct (gather_error answer cs (finish (length cs)) results (replicate (length cs) []) Hl) as (c & e' & Hc' & He' & Hg).
    { exists i, d, e. split_and!; [|done..]. rewrite finish_perm. apply elem_of_seq. lia. }
    exists c, e'. split_and!; [done..|]. destruct (gather _ _ _) as [[err|] out]; cbn in *; congruence.
Qed.

(** C16: a union of comparators gives the same result on any positive number of
    workers.  When a lane's answer depends on its comparator alone, in the
    states the lanes leave behind, then: if all lanes answer, the call returns
    their chunks in the order of the comparators, in whatever order the workers
    finish; and if some lane fails, the call fails with the error of a failing
    comparator, under its name.  The clamp of the entry points makes every
    number that is asked for positive; without it, no worker and some
    comparator, the call would never return. *)
Theorem union_any_workers I ctx req cs asked pre (fuse : Fuser (L := L)) answer s :
  answering I (fun c => fuse ctx req c pre) answer -> I s ->
  let run n := runUnionComparatorsWith ctx req cs n pre fuse s in
  (forall n, 1 <= n -> union_result cs answer (run n).2) /\
  (cs <> [] -> 1 <= clampUnionConcurrency asked cs) /\
  (forall n, n <= 0 -> cs <> [] -> faults (run n).1 = Diverges :: faults s).
Proof.
  intros Ha Hs run. split_and!.
  - intros n Hn. destruct (decide (n = 1)) as [-> |Hne]; [by apply (one_worker I)|]. apply (more_workers I); [done..|lia].
  - intros Hc. apply clamp_positive. destruct cs; [done|]. unfold zlen. cbn. lia.
  - intros n Hn Hc. unfold run, runUnionComparatorsWith. replace (n =? 1) with false by lia. replace (n <=? 0) with true by lia.
    destruct cs; [done|]. unfold zlen. cbn [length andb]. by replace (Z.of_nat _ =? 0) with false by lia.
Qed.
End unions.

(** ** The size of a context *)

(** The loop from a power of two ends at the least one that is enough. *)
Lemma grow32_least n k need : k + Z.of_nat n = 31 -> 0 <= k -> need <= 2 ^ 31 -> (forall j, 0 <= j < k -> 2 ^ j < need) ->
  exists m, grow32 (S n) (2 ^ k) need = Some (2 ^ m) /\ 0 <= m <= 31 /\ need <= 2 ^ m /\ forall j, 0 <= j < m -> 2 ^ j < need.
Proof.
  revert k. induction n as [|n IH]; intros k Hk Hk0 Hneed Hbelow; cbn [grow32].
  - assert (k = 31) as -> by lia. replace (2 ^ 31 <? need) with false by lia. exists 31. split_and!; [done|lia..|done].
  - destruct (2 ^ k <? need) eqn:Hc; [|exists k; split_and!; [done|lia..|done]].
    replace (wrap32u (2 ^ k * 2)) with (2 ^ (k + 1)).
    + apply IH; [lia..|]. intros j Hj. destruct (decide (j = k)) as [-> |Hne]; [lia|]. apply Hbelow. lia.
    + unfold wrap32u. rewrite Z.pow_add_r by lia. change (2 ^ 1) with 2. rewrite Z.mod_small; [done|]. split; [lia|].
      assert (2 ^ k <= 2 ^ 30) by (apply Z.pow_le_mono_r; lia). lia.
Qed.

Lemma grow32_more f g bs need b : grow32 f bs need = Some b -> grow32 (f + g) bs need = Some b.
Proof. revert bs. induction f as [|f IH]; intros bs; cbn; [done|]. destruct (bs <? need); [apply IH|done]. Qed.

(** The dimension a context's batch is made for, if it is made for one. *)
Definition batch_for (p : ContractParams) : option Z :=
  if MinimalRotationKeys p && (0 <? ProfileDim p) && (0 <? PayloadSlotCount p) then Some (Z.max (ProfileDim p) (PayloadSlotCount p))
  else if EvalSumOnlyRotationKeys p && (0 <? ProfileDim p) then Some (ProfileDim p) else None.

Lemma batch_size_for p : batch_size p = match batch_for p with Some need => next_pow2 need | None => Some 0 end.
Proof. unfold batch_size, batch_for. repeat case_match; try done; f_equal; lia. Qed.

(** C26: the loops that size a context's batch, over all parameters.  The Go
    integer is truncated to 32 bits first.  Where the rest is at most 2^31 the
    loop returns the least power of two that holds the rest, which holds the
    dimension when that is below 2^32 and is too small for it from there on;
    where it is larger the 32-bit counter wraps to zero, no number of rounds
    ends the loop, and creating the context never returns. *)
Theorem context_size {L} `{CLib L} (params : ContractParams) (s : cstate L) :
  match batch_for params with
  | None => batch_size params = Some 0
  | Some need =>
    let low := need mod 2 ^ 32 in
    (low <= 2 ^ 31 -> exists m, batch_size params = Some (2 ^ m) /\ 0 <= m <= 31 /\ low <= 2 ^ m /\ (forall j, 0 <= j < m -> 2 ^ j < low) /\
      (need <= 2 ^ m <-> need < 2 ^ 32)) /\
    (2 ^ 31 < low -> (forall fuel, grow32 fuel 1 low = None) /\ faults (createContractContext params s).1 = Diverges :: faults s)
  end.
Proof.
  pose proof (batch_size_for params) as Hb. destruct (batch_for params) as [need|] eqn:Hf; [|done].
  assert (Hpos : 0 < need) by (unfold batch_for in Hf; repeat case_match; simplify_eq; lia).
  pose proof (Z.mod_pos_bound need (2 ^ 32) ltac:(lia)) as Hlow. cbv zeta. split.
  - intros Hle. destruct (grow32_least 31 0 (need mod 2 ^ 32)) as (m & Hm & Hr & Hn & Hl); [lia..|]. exists m. split_and!; [|lia|lia|done|done|].
    + rewrite Hb. unfold next_pow2, wrap32u. by apply (grow32_more _ 2) in Hm.
    + assert (2 ^ m <= 2 ^ 31) by (apply Z.pow_le_mono_r; lia). split; intros Hx; [lia|]. rewrite (Z.mod_small need) in Hn by lia. done.
  - intros Hgt. assert (Hd : forall fuel, grow32 fuel 1 (need mod 2 ^ 32) = None) by (apply next_pow2_diverges; lia). split; [done|].
    unfold createContractContext. rewrite Hb. unfold next_pow2, wrap32u. by rewrite Hd.
Qed.

(** A dimension the batch holds, one it is too small for, and one that does not
    end. *)
Lemma context_size_witness :
  let _ := ready_lib in let p d := mkContract 1024 scale50 4 false d 0 true in
  batch_size (p 96) = Some (2 ^ 7) /\ (exists m, batch_size (p (2 ^ 32 + 5)) = Some (2 ^ m) /\ 2 ^ m < 2 ^ 32 + 5) /\
  faults (createContractContext (p (2 ^ 31 + 1)) (fresh_state tt)).1 = [Diverges].
Proof.
  intros ? p. pose proof (context_size (p 96) (fresh_state tt)) as [H1 _]. pose proof (context_size (p (2 ^ 32 + 5)) (fresh_state tt)) as [H2 _].
  pose proof (context_size (p (2 ^ 31 + 1)) (fresh_state tt)) as [_ H3]. split_and!.
  - destruct (H1 ltac:(vm_compute; discriminate)) as (m & _). reflexivity.
  - destruct (H2 ltac:(vm_compute; discriminate)) as (m & Hm & _ & _ & _ & Hi). exists m. split; [done|]. destruct Hi as [Hi _]. change (ProfileDim (p (2 ^ 32 + 5))) with (2 ^ 32 + 5) in Hi. lia.
  - apply (H3 ltac:(vm_compute; reflexivity)).
Defined.

(** ** A leak *)

(** The first two encryptions succeed, the third does not. *)
Definition third_fails : CLib nat := {|
  c_call := fun name _ _ ps n =>
    if String.eqb name "Encrypt" then
      if (n <? 2)%nat then (S n, ready_reply (length ps)) else (n, mkReply 1 (replicate (length ps) false) [] [] [] "")
    else (n, ready_reply (length ps));
  c_free := fun _ _ n => n
|}.

Lemma third_fails_laws : CLibLaws (H0 := third_fails).
Proof.
  split; cbn; intros; repeat case_match; cbn in *; try done; unfold zlen, written in *; cbn in *; lia.
Qed.

Lemma third_fails_small : SmallObjects (H0 := third_fails).
Proof. intros name hs ds ps l. cbn. unfold zlen. repeat case_match; cbn; lia. Qed.

(** [SingleKeySoftArgmin] leaks.  With a library that keeps every promise
    and fails the third of three encryptions, the call returns that error and
    leaves the first two ciphertexts allocated: the function that frees them is
    deferred only after the loop. *)
Lemma soft_argmin_leaks :
  CLibLaws (H0 := third_fails) /\ SmallObjects (H0 := third_fails) /\
  let '(s, r) := SingleKeySoftArgmin (H0 := third_fails) [f64_one; f64_zero; f64_one] 3 (fresh_state 0%nat) in
  r = inl "encrypt[2] failed" /\ faults s = [] /\ (map_to_list (live s)).*2 = [KCt; KCt].
Proof. split; [apply third_fails_laws|]. split; [apply third_fails_small|]. vm_compute. repeat split. Qed.

(** ** Witnesses *)

Section witnesses.
#[local] Existing Instances ready_lib ascending sorted_range last_first.

Lemma wit_table : Forall (table_row [4]) [[mkIndexed 4 [x01]]; [mkIndexed 4 [x02]]].
Proof. repeat constructor; try done; set_solver. Qed.

Lemma shares_validated_witness : exists key, shares_at [] [{[4 := [x01]]}; {[4 := [x02]]}] 4 !! 1%nat = Some key /\ mkIndexed 4 key ∈ [mkIndexed 4 [x02]].
Proof.
  set (table := [[mkIndexed 4 [x01]]; [mkIndexed 4 [x02]]]). destruct (shares_validated table [4] [{[4 := [x01]]}; {[4 := [x02]]}]) as [Hiff Hkey].
  apply (Hkey (proj2 Hiff (ex_intro _ [mkIndexed 4 [x01]] (conj eq_refl (conj eq_refl (conj eq_refl wit_table))))) 1%nat); [reflexivity|left].
Defined.

Definition wit_comparator (id : string) : UnionComparator := mkComparator id "" "" f64_one f64_one f64_one f64_one 3.
Definition wit_request : FullFuseRequest :=
  mkFuse [x01] 0 0 [[x02]; [x03]] [0; 0] [0; 0] [] [1; 1] [[7]; [9]] [] 4 f64_one f64_one f64_one "" 3 f64_one f64_one f64_one "" (mkFinal [x04] [x05]) 1 8 false.

(** A library that counts its calls, refuses the comparator without a name and
    answers the others with the name; and the fuser that calls it. *)
Definition counting_lib : CLib nat := {|
  c_call := fun _ _ ds ps n =>
    match ds with
    | [VStr id] => (S n, mkReply (if String.eqb id "" then 1 else 0) (replicate (length ps) true) (bytes_of_string id) [] [] "")
    | _ => (S n, ready_reply (length ps))
    end;
  c_free := fun _ _ n => n
|}.

Definition calling_fuser : Fuser (L := nat) := fun ctx _ c _ =>
  match ctx with
  | None => gfail "crypto context is required"
  | Some ctx =>
    let^ r := call (H0 := counting_lib) "Fuse" [cell ctx] [VStr (uc_ID c)] in
    if negb (rc r =? 0) then gfail "no name" else gret [mem r]
  end.

Definition calling_answer (c : UnionComparator) : string + list bytes :=
  if String.eqb (uc_ID c) "" then inl "no name" else inr [bytes_of_string (uc_ID c)].

Definition has_context (s : cstate nat) : Prop := live s !! 1%positive = Some KCtx.

Lemma calling_answers req : answering has_context (fun c => calling_fuser (Some (H 1)) req c false) calling_answer.
Proof.
  intros c s Hs. unfold calling_fuser, gbind. rewrite plain_call_run by (cbn; rewrite andb_true_r; by apply bool_decide_true).
  unfold calling_answer. cbn. by destruct (String.eqb (uc_ID c) "").
Qed.

(** Two comparators on two workers that finish in the opposite order, and the
    same with one that fails. *)
Lemma union_any_workers_witness :
  let s := mkC {[ 1%positive := KCtx ]} 2 [] 0%nat in
  let run ids n := (runUnionComparatorsWith (Some (H 1)) wit_request (wit_comparator <$> ids) n false calling_fuser s).2 in
  run ["p"; "q"] 2 = inr [[bytes_of_string "p"]; [bytes_of_string "q"]] /\ run ["p"; ""] 2 = inl "union comparator : no name".
Proof.
  intros s run. destruct (union_any_workers has_context (Some (H 1)) wit_request (wit_comparator <$> ["p"; "q"]) 5 false calling_fuser
    calling_answer s (calling_answers wit_request) eq_refl) as (Hok & _).
  destruct (union_any_workers has_context (Some (H 1)) wit_request (wit_comparator <$> ["p"; ""]) 5 false calling_fuser
    calling_answer s (calling_answers wit_request) eq_refl) as (Hf & _).
  split; [apply (proj1 (Hok 2 ltac:(lia))); by repeat constructor|]. destruct (proj2 (Hf 2 ltac:(lia))) as (c & e & Hc & He & Hr).
  { exists (wit_comparator ""), "no name". split; [|done]. cbn. set_solver. }
  unfold run. rewrite Hr. cbn in Hc. rewrite !elem_of_cons in Hc. destruct Hc as [-> |[-> |Hc]]; [done|by injection He as <-|by apply not_elem_of_nil in Hc].
Defined.
End witnesses.
End CgoLazy.
