(* ===== verification/CgoValues.v ===== *)
(** * The joint eval-sum key, by value

    The combinations of the eval-sum shares against what they are to compute.
    The objects of the library get values: what a rotation key, a public key or
    a set of a-vectors stands for, with the functions of the wrapper as partial
    functions on values.  The joint key of a table of shares is then a
    definition over values alone, and each combination of [bridge.go] and
    [incremental_combine.go] is shown to return its serialization: shares at
    hand or loaded lazily, whole or split in a- and b-vectors with the a-vectors
    cached. *)

From Stdlib Require Import ZifyBool.
From S2P Require Import Prelude Float64 HelperClient HelperServer CgoCore CgoKeys CgoCombine CgoTheorems CgoLazy.
Import HelperServer CgoCore CgoKeys CgoCombine CgoTheorems CgoLazy.

#[local] Open Scope string_scope.
#[local] Open Scope list_scope.
#[local] Open Scope Z_scope.
#[local] Open Scope go_scope.
#[local] Open Scope cgo_scope.

Module CgoValues.

(** ** Values *)

(** The content of the library's objects, and its functions on contents; a
    function that may refuse its arguments is partial. *)
Class KeyValues (L Val : Type) := {
  value : L -> positive -> option Val;
  read_pk : Val -> bytes -> option Val;
  read_rot : Val -> bytes -> option Val;
  read_a : bytes -> option Val;
  rebuild : Val -> Val -> bytes -> option Val;
  add_share : Val -> Val -> Val -> Val -> option Val;
  merge_maps : Val -> Val -> option Val;
  write_rot : Val -> option bytes
}.

Section values.
Context {L Val : Type} `{CLib L} `{!KeyValues L Val}.
Implicit Types (l : L) (v : Val) (M F : gmap positive (kind * Val)).

(** A function that creates an object from its arguments and changes no other. *)
Definition creates (name : string) (vs : list Val) (ds : list cval) (o : option Val) : Prop :=
  forall l hs p, Forall2 (fun h v => value l h = Some v) hs vs -> p ∉ hs ->
  let '(l', r) := c_call name hs ds [p] l in
  (rc r = 0 <-> is_Some o) /\ (forall v, o = Some v -> value l' p = Some v) /\ (forall q, q <> p -> value l' q = value l q).

(** A function that changes the first of its objects, among [hs], and no other. *)
Definition changes (name : string) (hs : list positive) (target : positive) (l : L) (o : option Val) : Prop :=
  let '(l', r) := c_call name hs [] [] l in
  (rc r = 0 <-> is_Some o) /\ (forall v, o = Some v -> value l' target = Some v) /\ (forall q, q <> target -> value l' q = value l q).

(** The functions of [openfhe_wrapper.cpp] on values, memory exhaustion aside:
    - the deserializers (lines 1248, 1939 and 2005) and the reconstruction from
      cached a-vectors (line 1265) build an object of their own;
    - [EvalSumCombineStart] (line 1318) builds a second handle on the map of its
      argument, whose own content nobody may rely on from then on;
    - [EvalSumCombineFold] (line 1328) gives the accumulator a fresh map, and
      [MergeEvalSumKeyMaps] (line 1342) adds to the map of its first argument;
    - [SerializeRotKey] (line 1998) only reads;
    - a freed object takes no other with it. *)
Class KeyLaws : Prop := {
  law_read_pk : forall C raw, creates "DeserializePublicKey" [C] [VData raw] (read_pk C raw);
  law_read_rot : forall C raw, creates "DeserializeRotKey" [C] [VData raw] (read_rot C raw);
  law_read_a : forall raw, creates "DeserializeAVectors" [] [VData raw] (read_a raw);
  law_rebuild : forall C a raw, creates "ReconstructRotKeyFromAVectors" [C; a] [VData raw] (rebuild C a raw);
  law_start : forall l h p v, value l h = Some v -> p <> h ->
    let '(l', r) := c_call "EvalSumCombineStart" [h] [] [p] l in
    rc r = 0 /\ value l' p = Some v /\ (forall q, q <> p -> q <> h -> value l' q = value l q);
  law_add : forall l c acc pk share C a k v, acc ∉ [c; pk; share] ->
    value l c = Some C -> value l acc = Some a -> value l pk = Some k -> value l share = Some v ->
    changes "EvalSumCombineFold" [c; acc; pk; share] acc l (add_share C a k v);
  law_merge : forall l f acc v a, f <> acc -> value l f = Some v -> value l acc = Some a ->
    changes "MergeEvalSumKeyMaps" [f; acc] f l (merge_maps v a);
  law_write : forall l h p v, value l h = Some v -> p <> h ->
    let '(l', r) := c_call "SerializeRotKey" [h] [] [p] l in
    (rc r = 0 <-> is_Some (write_rot v)) /\ (forall b, write_rot v = Some b -> mem r = b) /\ (forall q, q <> p -> value l' q = value l q);
  law_free : forall k p q l, q <> p -> value (c_free k p l) q = value l q
}.

(** ** Programs and the values they compute *)

(** The objects of [M] are there, with their kinds and values. *)
Record models M (s : cstate L) : Prop := {
  mo_live : forall p k v, M !! p = Some (k, v) -> live s !! p = Some k /\ value (lib s) p = Some v;
  mo_fresh : forall p, (next s <= p)%positive -> live s !! p = None
}.

Lemma models_sub M M' s : M ⊆ M' -> models M' s -> models M s.
Proof. intros Hs [Hl Hf]. split; [|done]. intros p k v Hp. by eapply Hl, lookup_weaken. Qed.

Lemma models_none M s p : models M s -> (next s <= p)%positive -> M !! p = None.
Proof.
  intros [Hl Hf] Hp. destruct (M !! p) as [[k v]|] eqn:He; [|done]. destruct (Hl p k v He) as [Hk _]. by rewrite Hf in Hk.
Qed.

(** [m] on a state with the objects [M], and any others: it succeeds exactly
    when [o] is some [b], with a result [a] and objects [M'] as [Q] says. *)
Definition computes {A C} (m : G L A) M (o : option C) (Q : C -> A -> gmap positive (kind * Val) -> Prop) : Prop :=
  forall F s, M ##ₘ F -> models (M ∪ F) s ->
  let '(s', r) := m s in
  match r with
  | inl _ => o = None
  | inr a => exists b M', o = Some b /\ M' ##ₘ F /\ models (M' ∪ F) s' /\ Q b a M'
  end.

Lemma computes_bind {A A' C C'} (m : G L A) M (o : option C) Q (f : A -> G L A') (g : C -> option C') Q' :
  computes m M o Q -> (forall b a M', Q b a M' -> computes (f a) M' (g b) Q') -> computes (gbind m f) M (o ≫= g) Q'.
Proof.
  intros Hm Hf F s Hd Hs. specialize (Hm F s Hd Hs). unfold gbind. destruct (m s) as [s1 [e|a]]; [by subst|].
  destruct Hm as (b & M' & -> & Hd' & Hs' & HQ). exact (Hf b a M' HQ F s1 Hd' Hs').
Qed.

(** After a step that always succeeds. *)
Lemma computes_then {A A' C C'} (m : G L A) M (b : C) Q (f : A -> G L A') (o : option C') Q' :
  computes m M (Some b) Q -> (forall a M', Q b a M' -> computes (f a) M' o Q') -> computes (gbind m f) M o Q'.
Proof.
  intros Hm Hf F s Hd Hs. specialize (Hm F s Hd Hs). unfold gbind. destruct (m s) as [s1 [e|a]]; [done|].
  destruct Hm as (b' & M' & [= <-] & Hd' & Hs' & HQ). exact (Hf a M' HQ F s1 Hd' Hs').
Qed.

Lemma computes_mono {A C} (m : G L A) M (o : option C) Q Q' :
  computes m M o Q -> (forall b a M', Q b a M' -> Q' b a M') -> computes m M o Q'.
Proof.
  intros Hm HQ F s Hd Hs. specialize (Hm F s Hd Hs). destruct (m s) as [s1 [e|a]]; [done|].
  destruct Hm as (b & M' & -> & Hd' & Hs' & Hq). exists b, M'. auto.
Qed.

Lemma computes_ret {A C} (a : A) M (b : C) Q : Q b a M -> computes (gret a) M (Some b) Q.
Proof. intros HQ F s Hd Hs. by exists b, M. Qed.

Lemma computes_fail {A C} e M Q : computes (gfail (A := A) e) M (None : option C) Q.
Proof. by intros F s Hd Hs. Qed.

Lemma computes_fault {A C} e M Q : computes (gfault (A := A) e) M (None : option C) Q.
Proof. by intros F s Hd Hs. Qed.

Lemma computes_wrap {A C} text (m : G L A) M (o : option C) Q : computes m M o Q -> computes (gwrap text m) M o Q.
Proof. intros Hm F s Hd Hs. specialize (Hm F s Hd Hs). unfold gwrap. by destruct (m s) as [s1 [e|a]]. Qed.

(** Code that ends with an error. *)
Definition fails {A} (m : G L A) : Prop := forall s, exists e, (m s).2 = inl e.

Lemma fails_then {A C} (m : G L A) (f : A -> G L C) : (forall a, fails (f a)) -> fails (gbind m f).
Proof. intros Hf s. unfold gbind. destruct (m s) as [s1 [e|a]]; [by exists e|apply Hf]. Qed.

Lemma computes_try {A A' C C'} (m : G L A) M (o : option C) Q (k : string -> G L A') (f : A -> G L A') (g : C -> option C') Q' :
  (forall e, fails (k e)) -> computes m M o Q -> (forall b a M', Q b a M' -> computes (f a) M' (g b) Q') ->
  computes (gtry m k f) M (o ≫= g) Q'.
Proof.
  intros Hk Hm Hf F s Hd Hs. specialize (Hm F s Hd Hs). unfold gtry. destruct (m s) as [s1 [e|a]].
  - subst o. destruct (Hk e s1) as [e' He]. destruct (k e s1) as [s2 r]. cbn in He. by subst r.
  - destruct Hm as (b & M' & -> & Hd' & Hs' & HQ). exact (Hf b a M' HQ F s1 Hd' Hs').
Qed.

(** ** The calls *)

Context `{!CLibLaws} `{HSmall : !SmallObjects} `{!KeyLaws}.

(** The objects a call is given, with their values. *)
Definition given M (hs : list (positive * kind)) (vs : list Val) : Prop := Forall2 (fun c v => M !! c.1 = Some (c.2, v)) hs vs.

Lemma given_alive M hs vs s : given M hs vs -> models M s -> forallb (alive s) hs = true.
Proof.
  intros Hg Hs. induction Hg as [|[p k] v hs vs Hc _ IH]; [done|]. cbn. rewrite IH, andb_true_r. apply bool_decide_true.
  by destruct (mo_live _ _ Hs _ _ _ Hc).
Qed.

Lemma given_values M hs vs s : given M hs vs -> models M s -> Forall2 (fun h v => value (lib s) h = Some v) hs.*1 vs.
Proof.
  intros Hg Hs. induction Hg as [|[p k] v hs vs Hc _ IH]; constructor; [|exact IH]. by destruct (mo_live _ _ Hs _ _ _ Hc).
Qed.

Lemma given_old M hs vs s : given M hs vs -> models M s -> next s ∉ hs.*1.
Proof.
  intros Hg Hs Hin. apply list_elem_of_fmap in Hin as ([p k] & He & Hc). cbn in He.
  apply list_elem_of_lookup_1 in Hc as [i Hi]. destruct (Forall2_lookup_l _ _ _ _ _ Hg Hi) as (v & _ & Hv). cbn in Hv.
  rewrite <- He, (models_none M s) in Hv by (done || lia). done.
Qed.

Lemma given_union M F hs vs : given M hs vs -> given (M ∪ F) hs vs.
Proof. intros Hg. eapply Forall2_impl; [exact Hg|]. intros [p k] v Hp. cbn in *. by apply lookup_union_Some_l. Qed.

(** One object more. *)
Lemma models_new M s l' k v : models M s -> value l' (next s) = Some v -> (forall q, q <> next s -> value l' q = value (lib s) q) ->
  models (<[next s := (k, v)]> M) (mkC (<[next s := k]> (live s)) (Pos.succ (next s)) (faults s) l').
Proof.
  intros Hs Hv Hq. split; cbn [live next lib].
  - intros p k' v'. destruct (decide (p = next s)) as [-> |Hne]; [rewrite !lookup_insert_eq; by intros [= <- <-]|].
    rewrite !lookup_insert_ne, Hq by done. apply (mo_live _ _ Hs).
  - intros p Hp. rewrite lookup_insert_ne by lia. apply (mo_fresh _ _ Hs). lia.
Qed.

(** The same objects with their values, the library moved on. *)
Lemma models_moved M s l' n : models M s -> (next s <= n)%positive -> (forall p x, M !! p = Some x -> value l' p = value (lib s) p) ->
  models M (mkC (live s) n (faults s) l').
Proof.
  intros Hs Hn Hq. split; cbn [live next lib].
  - intros p k v Hp. rewrite (Hq _ _ Hp). by apply (mo_live _ _ Hs).
  - intros p Hp. apply (mo_fresh _ _ Hs). lia.
Qed.

Lemma call1_run k name hs ds (s : cstate L) : name ∉ may_leave_output -> forallb (alive s) hs = true ->
  call1 k name hs ds s = let '(l, r) := c_call name hs.*1 ds [next s] (lib s) in
  if bool_decide (rc r = 0)
  then (mkC (<[next s := k]> (live s)) (Pos.succ (next s)) (faults s) l, inr (Some (CgoCore.H (next s)), r))
  else (mkC (live s) (Pos.succ (next s)) (faults s) l, inr (None, r)).
Proof.
  intros Hn Ha. unfold call1, ccall, gbind. rewrite Ha. cbn [length addresses].
  pose proof (law_set name hs.*1 ds [next s] (lib s) Hn) as Hset.
  destruct (c_call name hs.*1 ds [next s] (lib s)) as [l r]. cbn in Hset |- *. rewrite Hset. cbn. by case_bool_decide.
Qed.

(** [M] with the new object [h] of value [v]. *)
Definition with_new {k} M v (h : handle k) M' : Prop := M !! hid h = None /\ M' = <[hid h := (k, v)]> M.

Lemma new_computes {k} err name hs vs ds M o : name ∉ may_leave_output -> given M hs vs -> creates name vs ds o ->
  computes (new_or (k := k) err name hs ds) M o (fun v h M' => with_new M v h M').
Proof.
  intros Hn Hg Hc F s Hd Hs. pose proof (given_union M F hs vs Hg) as HgF. unfold new_or, gbind.
  rewrite (call1_run k name hs ds s Hn (given_alive _ _ _ _ HgF Hs)).
  specialize (Hc (lib s) hs.*1 (next s) (given_values _ _ _ _ HgF Hs) (given_old _ _ _ _ HgF Hs)).
  destruct (c_call name hs.*1 ds [next s] (lib s)) as [l r]. destruct Hc as (Hrc & Hv & Hq).
  pose proof (models_none _ _ (next s) Hs (Pos.le_refl _)) as Hnone. apply lookup_union_None in Hnone as [HnM HnF].
  case_bool_decide as Hr; cbn.
  - apply Hrc in Hr as [v ->]. exists v, (<[next s := (k, v)]> M). split_and!; [done| |rewrite <- insert_union_l; apply models_new; auto|done].
    by apply map_disjoint_insert_l.
  - destruct o as [v|]; [|done]. exfalso. apply Hr, Hrc. eauto.
Qed.

(** Freeing an object the model does not rely on. *)
Lemma free_untracked {k} (h : handle k) M (s : cstate L) : live s !! hid h = Some k -> M !! hid h = None -> models M s ->
  exists s', cfree h s = (s', inr tt) /\ models M s'.
Proof.
  intros Hl Hn Hs. unfold cfree, alive. rewrite bool_decide_true by done. eexists. split; [done|]. split; cbn [live next lib].
  - intros p k' v' Hp. assert (Hne : p <> hid h) by congruence. rewrite lookup_delete_ne, law_free by done. by apply (mo_live _ _ Hs).
  - intros p Hp. rewrite lookup_delete_None. right. by apply (mo_fresh _ _ Hs).
Qed.

Lemma free_computes {k} (h : handle k) M v : M !! hid h = Some (k, v) ->
  computes (cfree h) M (Some tt) (fun _ _ M' => M' = delete (hid h) M).
Proof.
  intros Hh F s Hd Hs. assert (HF : F !! hid h = None) by (by eapply map_disjoint_Some_l).
  destruct (free_untracked h (delete (hid h) M ∪ F) s) as (s' & -> & Hs').
  - by destruct (mo_live _ _ Hs (hid h) k v (lookup_union_Some_l _ _ _ _ Hh)).
  - apply lookup_union_None. by rewrite lookup_delete_eq.
  - eapply models_sub; [|exact Hs]. apply map_union_mono_r; [exact Hd|apply delete_subseteq].
  - exists tt, (delete (hid h) M). split_and!; [done|by apply map_disjoint_delete_l|done|done].
Qed.

(** A function that changes the object [target]. *)
Lemma change_computes {k} name hs vs (target : handle k) v0 (o : option Val) M :
  given M hs vs -> M !! hid target = Some (k, v0) ->
  (forall s, models M s -> changes name hs.*1 (hid target) (lib s) o) ->
  computes (call name hs []) M (Some tt) (fun _ r M' =>
    match o with Some v => rc r = 0 /\ M' = <[hid target := (k, v)]> M | None => rc r <> 0 /\ M' = delete (hid target) M end).
Proof.
  intros Hg Ht Hc F s Hd Hs. rewrite (plain_call_run name hs [] s (given_alive _ _ _ _ (given_union M F hs vs Hg) Hs)).
  assert (HsM : models M s) by (eapply models_sub; [|exact Hs]; apply map_union_subseteq_l).
  specialize (Hc s HsM). unfold changes in Hc. destruct (c_call name hs.*1 [] [] (lib s)) as [l r]. destruct Hc as (Hrc & Hv & Hq).
  assert (HF : F !! hid target = None) by (by eapply map_disjoint_Some_l).
  destruct o as [v|].
  - exists tt, (<[hid target := (k, v)]> M). split_and!; [done|by apply map_disjoint_insert_l| |apply Hrc; eauto|done].
    rewrite <- insert_union_l. split; cbn [live next lib]; [|apply (mo_fresh _ _ Hs)]. intros p k' v'.
    destruct (decide (p = hid target)) as [-> |Hne].
    + rewrite lookup_insert_eq. intros [= <- <-]. split; [|by apply Hv]. apply (mo_live _ _ HsM _ _ _ Ht).
    + rewrite lookup_insert_ne, Hq by done. apply (mo_live _ _ Hs).
  - exists tt, (delete (hid target) M). split_and!; [done|by apply map_disjoint_delete_l| |intros Hz; apply Hrc in Hz as [? [=]]|done].
    apply models_moved; [eapply models_sub; [|exact Hs]; apply map_union_mono_r; [exact Hd|apply delete_subseteq]|done|].
    intros p x Hp. apply Hq. intros ->. apply lookup_union_Some_raw in Hp as [Hp|[_ Hp]]; [by rewrite lookup_delete_eq in Hp|congruence].
Qed.

Lemma start_computes err (seed : handle KRot) M v : M !! hid seed = Some (KRot, v) ->
  computes (start_fold err seed) M (Some v) (with_new (delete (hid seed) M)).
Proof.
  intros Hh F s Hd Hs. assert (HF : F !! hid seed = None) by (by eapply map_disjoint_Some_l).
  assert (Hg : given (M ∪ F) [cell seed] [v]) by (apply given_union; by repeat constructor).
  unfold start_fold, gbind. rewrite (call1_run KRot "EvalSumCombineStart" _ _ s ltac:(not_left) (given_alive _ _ _ _ Hg Hs)).
  pose proof (given_old _ _ _ _ Hg Hs) as Hold. cbn in Hold. apply not_elem_of_cons in Hold as [Hne _].
  destruct (mo_live _ _ Hs _ _ _ (lookup_union_Some_l _ F _ _ Hh)) as [Hlive Hval].
  pose proof (law_start (lib s) (hid seed) (next s) v Hval Hne) as Hlaw. cbn [cell fmap list_fmap fst].
  destruct (c_call "EvalSumCombineStart" [hid seed] [] [next s] (lib s)) as [l r]. destruct Hlaw as (Hrc & Hv & Hq).
  rewrite bool_decide_true by done. pose proof (models_none _ _ (next s) Hs (Pos.le_refl _)) as Hnone.
  apply lookup_union_None in Hnone as [HnM HnF].
  assert (Hs1 : models (<[next s := (KRot, v)]> (delete (hid seed) M ∪ F))
                  (mkC (<[next s := KRot]> (live s)) (Pos.succ (next s)) (faults s) l)).
  { split; cbn [live next lib].
    - intros p k' v'. destruct (decide (p = next s)) as [-> |Hp]; [rewrite !lookup_insert_eq; by intros [= <- <-]|].
      rewrite !lookup_insert_ne by done. intros Hp'. assert (p <> hid seed).
      { intros ->. apply lookup_union_Some_raw in Hp' as [Hp'|[_ Hp']]; [by rewrite lookup_delete_eq in Hp'|congruence]. }
      rewrite Hq by done. apply (mo_live _ _ Hs). eapply lookup_weaken; [exact Hp'|].
      apply map_union_mono_r; [exact Hd|apply delete_subseteq].
    - intros p Hp. rewrite lookup_insert_ne by lia. apply (mo_fresh _ _ Hs). lia. }
  edestruct (fun a b => free_untracked seed _ _ a b Hs1) as (s2 & -> & Hs2).
  - cbn. by rewrite lookup_insert_ne.
  - rewrite lookup_insert_ne by done. apply lookup_union_None. by rewrite lookup_delete_eq.
  - exists v, (<[next s := (KRot, v)]> (delete (hid seed) M)). split_and!; [done| |by rewrite <- insert_union_l|split; [|done]].
    + apply map_disjoint_insert_l. split; [done|by apply map_disjoint_delete_l].
    + cbn. apply lookup_delete_None. by right.
Qed.

Lemma write_computes (h : handle KRot) M v : M !! hid h = Some (KRot, v) ->
  computes (serializeRotKey h) M (write_rot v) (fun b b' M' => b' = b /\ M' = M).
Proof.
  intros Hh F s Hd Hs. assert (Hg : given (M ∪ F) [cell h] [v]) by (apply given_union; by repeat constructor).
  unfold serializeRotKey, bytes_or, bytes_with, gbind. rewrite (call1_run KMem "SerializeRotKey" _ _ s ltac:(not_left) (given_alive _ _ _ _ Hg Hs)).
  pose proof (given_old _ _ _ _ Hg Hs) as Hold. cbn in Hold. apply not_elem_of_cons in Hold as [Hne _].
  destruct (mo_live _ _ Hs _ _ _ (lookup_union_Some_l _ F _ _ Hh)) as [Hlive Hval].
  pose proof (law_write (lib s) (hid h) (next s) v Hval Hne) as Hlaw.
  pose proof (law_mem "SerializeRotKey" [hid h] [] [next s] (lib s)) as Hmem.
  pose proof (HSmall "SerializeRotKey" [hid h] [] [next s] (lib s)) as Hsmall. cbn [cell fmap list_fmap fst].
  destruct (c_call "SerializeRotKey" [hid h] [] [next s] (lib s)) as [l r]. destruct Hlaw as (Hrc & Hb & Hq). cbn in Hmem, Hsmall.
  case_bool_decide as Hr.
  2: { cbn. destruct (Z.eqb_spec (rc r) 0); [done|]. cbn. destruct (write_rot v) as [b|]; [|done]. exfalso. apply Hr, Hrc. eauto. }
  destruct (Z.eqb_spec (rc r) 0); [|done]. cbn. apply Hrc in Hr as [b Hb']. rewrite (Hb b Hb') in *. specialize (Hmem ltac:(done)).
  unfold gdefer, GoBytes. destruct (Z.eqb_spec (zlen b) 0) as [Hz|Hz]; [by destruct b|].
  assert (0 <= zlen b) by (unfold zlen; lia). rewrite cint_small by lia. replace (zlen b <? 0) with false by lia.
  assert (Hs1 : models (M ∪ F) (mkC (<[next s := KMem]> (live s)) (Pos.succ (next s)) (faults s) l)).
  { split; cbn [live next lib].
    - intros p k' v' Hp. assert (p <> next s) by (intros ->; by rewrite (models_none _ _ (next s) Hs (Pos.le_refl _)) in Hp).
      rewrite lookup_insert_ne, Hq by done. by apply (mo_live _ _ Hs).
    - intros p Hp. rewrite lookup_insert_ne by lia. apply (mo_fresh _ _ Hs). lia. }
  edestruct (fun a b => free_untracked (CgoCore.H (k := KMem) (next s)) (M ∪ F) _ a b Hs1) as (s2 & Hf & Hs2).
  - cbn. by rewrite lookup_insert_eq.
  - by apply (models_none _ _ _ Hs).
  - cbn. rewrite Hf. exists b, M. split_and!; [done..| |done].
    unfold zlen. rewrite Nat2Z.id. by rewrite take_ge.
Qed.

(** A deferred free. *)
Lemma defer_computes {A C k} (h : handle k) (m : G L A) M (o : option C) Q : computes m M o (fun b a M' => Q b a (delete (hid h) M') /\ exists v, M' !! hid h = Some (k, v)) ->
  computes (gdefer (cfree h) m) M o Q.
Proof.
  intros Hm F s Hd Hs. specialize (Hm F s Hd Hs). unfold gdefer. destruct (m s) as [s1 [e|a]]; [done|].
  destruct Hm as (b & M' & -> & Hd' & Hs' & HQ & v & Hv).
  pose proof (free_computes h M' v Hv F s1 Hd' Hs') as Hf. destruct (cfree h s1) as [s2 [e|u]]; [done|].
  destruct Hf as (_ & M'' & _ & Hd'' & Hs'' & ->). exists b, (delete (hid h) M'). by split_and!.
Qed.

(** ** What the combinations are to compute *)

(** No bytes are no key. *)
Definition key_of (C : Val) (raw : bytes) : option Val := match raw with [] => None | _ => read_rot C raw end.
Definition public_of (C : Val) (raw : bytes) : option Val := match raw with [] => None | _ => read_pk C raw end.

(** The shares of the parties after the lead, each under its own public key. *)
Fixpoint folded (C acc : Val) (pks : list bytes) (shares : list (option Val)) {struct shares} : option Val :=
  match shares, pks with
  | [], _ => Some acc
  | share :: shares, pk :: pks => k ← public_of C pk; v ← share; acc ← add_share C acc k v; folded C acc pks shares
  | _ :: _, [] => None
  end.

(** The lead's share, with all others added to it in the order of the parties. *)
Definition joint (C : Val) (pks : list bytes) (shares : list (option Val)) : option Val :=
  match shares with
  | [] => None
  | lead :: shares => acc ← lead; folded C acc (tail pks) shares
  end.

(** The maps of the indices in one map, in the order of the indices. *)
Fixpoint merged (C : Val) (pks : list bytes) (final : option Val) (rows : list (list (option Val))) : option (option Val) :=
  match rows with
  | [] => Some final
  | row :: rows =>
    k ← joint C pks row;
    f ← match final with None => Some k | Some f => merge_maps f k end;
    merged C pks (Some f) rows
  end.

Definition joint_key (C : Val) (pks : list bytes) (rows : list (list (option Val))) : option bytes :=
  final ← merged C pks None rows; f ← final; write_rot f.

(** ** Shares that are folded as they come *)

Lemma nonempty_zlen (raw : bytes) : (zlen raw =? 0) = bool_decide (raw = []).
Proof. by destruct raw. Qed.

Lemma rot_computes ctx raw M C : M !! hid (k := KCtx) ctx = Some (KCtx, C) ->
  computes (deserializeRotKey ctx raw) M (key_of C raw) (with_new M).
Proof.
  intros Hc. unfold deserializeRotKey. rewrite nonempty_zlen. destruct raw as [|x raw]; [apply computes_fail|].
  rewrite bool_decide_false by done. eapply (computes_then _ _ tt (fun _ _ M' => M' = M)); [by apply computes_ret|]. intros _ M' ->.
  eapply new_computes; [not_left| |apply law_read_rot]. by repeat constructor.
Qed.

Lemma pk_computes ctx raw M C : M !! hid (k := KCtx) ctx = Some (KCtx, C) ->
  computes (deserializePublicKey ctx raw) M (public_of C raw) (with_new M).
Proof.
  intros Hc. unfold deserializePublicKey. rewrite nonempty_zlen. destruct raw as [|x raw]; [apply computes_fail|].
  rewrite bool_decide_false by done. eapply (computes_then _ _ tt (fun _ _ M' => M' = M)); [by apply computes_ret|]. intros _ M' ->.
  eapply new_computes; [not_left| |apply law_read_pk]. by repeat constructor.
Qed.

Lemma fails_fail {A} e : fails (gfail (L := L) (A := A) e).
Proof. intros s. by exists e. Qed.

(** The objects of one fold are gone again. *)
Lemma folded_away M a p q (x y z : kind * Val) : M !! p = None -> M !! q = None -> is_Some (M !! a) ->
  delete p (delete q (<[a := x]> (<[q := y]> (<[p := z]> M)))) = <[a := x]> M.
Proof.
  intros Hp Hq [w Ha]. apply map_eq. intros i.
  destruct (decide (i = p)) as [-> |Hip]; [rewrite lookup_delete_eq, lookup_insert_ne by congruence; done|].
  destruct (decide (i = q)) as [-> |Hiq]; [rewrite lookup_delete_ne, lookup_delete_eq, lookup_insert_ne by congruence; done|].
  rewrite !lookup_delete_ne by done. destruct (decide (i = a)) as [-> |Hia]; [by rewrite !lookup_insert_eq|].
  by rewrite !lookup_insert_ne by done.
Qed.

Section fold.
Context (ctx : handle KCtx) (C : Val).

(** A public key and a share at hand: folded, and both freed. *)
Lemma fold_call_computes {A D} (k : reply -> G L A) (accum : handle KRot) (pk : handle KPK) (share : handle KRot) M M1 M2 a kv v (o : option D) Q :
  M !! hid ctx = Some (KCtx, C) -> M !! hid accum = Some (KRot, a) -> with_new M kv pk M1 -> with_new M1 v share M2 ->
  (forall r M', match add_share C a kv v with Some w => rc r = 0 /\ M' = <[hid accum := (KRot, w)]> M | None => rc r <> 0 end -> computes (k r) M' o Q) ->
  computes (let^ r := call "EvalSumCombineFold" [cell ctx; cell accum; cell pk; cell share] [] in
            let^ _ := cfree share in let^ _ := cfree pk in k r) M2 o Q.
Proof.
  intros Hctx Hacc [Hpk ->] [Hsh ->] Hk. rewrite lookup_insert_None in Hsh. destruct Hsh as [Hsh Hne].
  assert (Hg : given (<[hid share:=(KRot, v)]> (<[hid pk:=(KPK, kv)]> M)) [cell ctx; cell accum; cell pk; cell share] [C; a; kv; v]).
  { unfold given. repeat (apply Forall2_cons; split); [..|done]; cbn;
      repeat first [rewrite lookup_insert_eq | rewrite lookup_insert_ne by congruence]; done. }
  eapply computes_then.
  - eapply (change_computes (k := KRot) _ _ _ accum a (add_share C a kv v) _ Hg).
    + by rewrite !lookup_insert_ne by congruence.
    + intros s Hs. pose proof (given_values _ _ _ _ Hg Hs) as Hv. cbn in Hv.
      repeat match goal with H : Forall2 _ (_ :: _) _ |- _ => apply Forall2_cons in H as [? H] end.
      apply law_add; [|done..]. rewrite !elem_of_cons, elem_of_nil. intros [He|[He|[He|[]]]]; cbn in He; congruence.
  - intros r M3 H3. eapply computes_then; [eapply (free_computes share _ v)|].
    { destruct (add_share C a kv v); destruct H3 as [_ ->]; rewrite ?lookup_insert_ne, ?lookup_delete_ne, lookup_insert_eq by congruence; done. }
    intros _ M4 ->. eapply computes_then; [eapply (free_computes pk _ kv)|].
    { destruct (add_share C a kv v); destruct H3 as [_ ->]; rewrite ?lookup_delete_ne, ?lookup_insert_ne, ?lookup_delete_ne, ?lookup_insert_ne, lookup_insert_eq by congruence; done. }
    intros _ M5 ->. apply Hk. destruct (add_share C a kv v); destruct H3 as [Hrc ->]; [|done]. split; [done|].
    by apply folded_away.
Qed.

Lemma fold_share_computes err accum (pkm : G L (handle KPK)) (sharem : G L (handle KRot)) M a (op os : option Val) :
  M !! hid ctx = Some (KCtx, C) -> M !! hid accum = Some (KRot, a) -> computes pkm M op (with_new M) ->
  (forall M1, M ⊆ M1 -> computes sharem M1 os (with_new M1)) ->
  computes (fold_share err ctx accum pkm sharem) M (k ← op; v ← os; add_share C a k v) (fun w _ M' => M' = <[hid accum := (KRot, w)]> M).
Proof.
  intros Hctx Hacc Hpk Hsh. unfold fold_share. eapply computes_bind; [exact Hpk|]. intros kv pk M1 Hn1.
  eapply computes_try; [intros e; apply fails_then; intros _; apply fails_fail|apply Hsh|].
  { destruct Hn1 as [Hn ->]. by apply insert_subseteq. }
  intros v share M2 Hn2. eapply fold_call_computes; [exact Hctx|exact Hacc|exact Hn1|exact Hn2|]. intros r M' Hr.
  destruct (add_share C a kv v) as [w|].
  - destruct Hr as [Hrc ->]. rewrite Hrc. by apply computes_ret.
  - destruct (Z.eqb_spec (rc r) 0); [done|]. apply computes_fail.
Qed.

Lemma fold_shares_computes {X} (load : nat -> X -> G L (handle KRot)) (sv : X -> option Val) accum pks xs :
  (forall i x M, M !! hid ctx = Some (KCtx, C) -> x ∈ xs -> computes (load i x) M (sv x) (with_new M)) ->
  forall i M a, M !! hid ctx = Some (KCtx, C) -> M !! hid accum = Some (KRot, a) ->
  computes (fold_shares load ctx accum pks i xs) M (folded C a (drop i pks) (sv <$> xs)) (fun w _ M' => M' = <[hid accum := (KRot, w)]> M).
Proof.
  intros Hload. induction xs as [|x xs IH]; intros i M a Hctx Hacc; cbn [fold_shares folded fmap list_fmap].
  - apply computes_ret. by rewrite insert_id.
  - unfold at_index. destruct (pks !! i) as [pk|] eqn:Hpk.
    2: { rewrite drop_ge by by apply lookup_ge_None. apply (computes_fault (A := unit)). }
    rewrite (drop_S _ _ _ Hpk). eapply (computes_then _ _ tt (fun _ raw M' => raw = pk /\ M' = M)); [by apply computes_ret|]. intros raw M' [-> ->].
    replace (k ← public_of C pk; v ← sv x; acc ← add_share C a k v; folded C acc (drop (S i) pks) (sv <$> xs))
      with ((k ← public_of C pk; v ← sv x; add_share C a k v) ≫= (fun acc => folded C acc (drop (S i) pks) (sv <$> xs))).
    2: { destruct (public_of C pk); [cbn|done]. by destruct (sv x). }
    eapply computes_bind.
    + apply fold_share_computes; [exact Hctx|exact Hacc|by apply pk_computes|]. intros M1 Hsub. apply Hload; [by eapply lookup_weaken|left].
    + intros w _ M' ->. eapply computes_mono; [apply IH|].
      * intros j y M' Hc Hy. apply Hload; [done|by right].
      * rewrite lookup_insert_ne by congruence. done.
      * by rewrite lookup_insert_eq.
      * cbn. intros w' _ M' ->. by rewrite insert_insert_eq.
Qed.

(** Any way of obtaining the shares: the lead's, folded with the others. *)
Lemma folding_computes {X} err (seedm : G L (handle KRot)) (load : nat -> X -> G L (handle KRot)) (sv : X -> option Val) (lead : option Val) pks xs M :
  M !! hid ctx = Some (KCtx, C) -> computes seedm M lead (with_new M) ->
  (forall i x M, M !! hid ctx = Some (KCtx, C) -> x ∈ xs -> computes (load i x) M (sv x) (with_new M)) ->
  computes (let^ seed := seedm in let^ accum := start_fold err seed in defer^ cfree accum in
            let^ _ := fold_shares load ctx accum pks 1 xs in serializeRotKey accum) M
    (joint C pks (lead :: (sv <$> xs)) ≫= write_rot) (fun b b' _ => b' = b).
Proof.
  intros Hctx Hlead Hload. cbn [joint]. rewrite option_bind_assoc. eapply computes_bind; [exact Hlead|]. intros v seed M1 [Hn ->].
  eapply computes_then; [apply (start_computes _ seed _ v); by rewrite lookup_insert_eq|].
  intros accum M2 [Hn2 ->]. rewrite delete_insert_id in Hn2 by done. rewrite delete_insert_id by done.
  apply defer_computes. unfold compose. change (tail pks) with (drop 1 pks). eapply computes_bind.
  - eapply fold_shares_computes; [exact Hload| |by rewrite lookup_insert_eq]. rewrite lookup_insert_ne by congruence. done.
  - intros w _ M3 ->. eapply computes_mono; [apply write_computes; by rewrite lookup_insert_eq|].
    cbn. intros b b' M' [-> ->]. split; [done|]. exists w. by rewrite lookup_insert_eq.
Qed.

Lemma incremental_computes pks shares M : M !! hid ctx = Some (KCtx, C) ->
  computes (combineEvalSumIncremental ctx pks shares) M (joint C pks (key_of C <$> shares) ≫= write_rot) (fun b b' _ => b' = b).
Proof.
  intros Hctx. destruct shares as [|lead shares]; [apply (computes_fault (A := bytes))|]. cbn [fmap list_fmap].
  apply folding_computes; [done|by apply rot_computes|]. intros i x M' Hc _. by apply rot_computes.
Qed.

(** What a reference stands for when it is resolved. *)
Definition fetched (resolve : Resolver) (ref : string) : option bytes := match resolve ref with inl _ => None | inr raw => Some raw end.

Definition resolved_key (resolve : Resolver) (ref : string) : option Val := raw ← fetched resolve ref; key_of C raw.

Lemma resolved_computes {A D} what resolve ref (f : bytes -> G L A) M (o : bytes -> option D) Q :
  (forall raw, resolve ref = inr raw -> computes (f raw) M (o raw) Q) ->
  computes (gbind (resolved what resolve ref) f) M (fetched resolve ref ≫= o) Q.
Proof.
  intros Hf. unfold resolved, fetched. destruct (resolve ref) as [e|raw]; [apply (computes_fail (A := A))|]. exact (Hf raw eq_refl).
Qed.

Lemma incremental_lazy_computes pks refs resolve M : M !! hid ctx = Some (KCtx, C) -> length pks = length refs -> refs <> [] ->
  computes (combineEvalSumIncrementalLazy ctx pks refs (Some resolve)) M (joint C pks (resolved_key resolve <$> refs) ≫= write_rot) (fun b b' _ => b' = b).
Proof.
  intros Hctx Hl Hn. unfold combineEvalSumIncrementalLazy.
  replace (negb (zlen pks =? zlen refs) || (zlen refs =? 0)) with false by (destruct refs; [done|unfold zlen; cbn in *; lia]).
  destruct refs as [|lead refs]; [done|]. cbn [fmap list_fmap].
  pose proof (folding_computes "eval-sum combine start failed" (let^ seedBytes := resolved (numbered "resolve eval-sum share " 0) resolve lead in deserializeRotKey ctx seedBytes)
    (fun i ref => let^ shareBytes := resolved (numbered "resolve eval-sum share " i) resolve ref in deserializeRotKey ctx shareBytes)
    (resolved_key resolve) (resolved_key resolve lead) pks refs M Hctx) as Hf.
  intros F s Hd Hs. refine (_ (Hf _ _ F s Hd Hs)).
  - unfold gbind, resolved. by destruct (resolve lead).
  - apply resolved_computes. intros raw _. by apply rot_computes.
  - intros i x M' Hc _. apply resolved_computes. intros raw _. by apply rot_computes.
Qed.

(** ** Steps with a cache *)

Section steps.
Context (resolve : Resolver).

Definition vectors_of (raw : bytes) : option Val := match raw with [] => None | _ => read_a raw end.
Definition rebuilt (a : Val) (raw : bytes) : option Val := match raw with [] => None | _ => rebuild C a raw end.

(** A key by reference: whole, or its a- and b-vectors. *)
Definition ref_key (ref : IndexedEvalSumKeyRef) : option Val :=
  if full_ref ref then resolved_key resolve (rf_Ref ref)
  else if split_ref ref then
    a ← (raw ← fetched resolve (rf_ARef ref); vectors_of raw);
    b ← fetched resolve (rf_BRef ref);
    rebuilt a b
  else None.

(** The cached objects [Mc]: each is what its reference resolves to. *)
Record cache_is (aCache : gmap string (handle KAVec)) (Mc : gmap positive (kind * Val)) : Prop := {
  ca_in : forall aref h, aCache !! aref = Some h ->
    exists av, (raw ← fetched resolve aref; vectors_of raw) = Some av /\ Mc !! hid h = Some (KAVec, av);
  ca_inj : forall a1 a2 h1 h2, aCache !! a1 = Some h1 -> aCache !! a2 = Some h2 -> hid h1 = hid h2 -> a1 = a2
}.

(** A step that starts with the merged key [fin] and the objects [M], beside
    those of the cache. *)
Definition tcomputes {A D} (t : T (L := L) A) (fin : option (handle KRot)) M (o : option D)
    (Q : D -> A -> option (handle KRot) -> gmap positive (kind * Val) -> Prop) : Prop :=
  forall aCache Mc s, cache_is aCache Mc -> M ##ₘ Mc -> models (M ∪ Mc) s ->
  let '(s', r) := t (fin, aCache) s in
  match r with
  | inr ((fin', aCache'), inr a) =>
      exists b M' Mc', o = Some b /\ cache_is aCache' Mc' /\ M' ##ₘ Mc' /\ models (M' ∪ Mc') s' /\ Q b a fin' M'
  | _ => o = None
  end.

Lemma tcomputes_try {A A' D D'} (t : T A) fin M (o : option D) Q (k : string -> T A') (f : A -> T A') (g : D -> option D') Q' :
  (forall e c s, match (k e c s).2 with inr (_, inr _) => False | _ => True end) -> tcomputes t fin M o Q ->
  (forall b a fin' M', Q b a fin' M' -> tcomputes (f a) fin' M' (g b) Q') -> tcomputes (ttry t k f) fin M (o ≫= g) Q'.
Proof.
  intros Hk Ht Hf aCache Mc s Hc Hd Hs. specialize (Ht aCache Mc s Hc Hd Hs). unfold ttry, gbind.
  destruct (t (fin, aCache) s) as [s1 [e|[[fin' aCache'] [e|a]]]]; [by subst| |].
  - cbn. subst o. specialize (Hk e (fin', aCache') s1). destruct (k e (fin', aCache') s1) as [s2 [e'|[[fin2 ac2] [e'|a]]]]; by cbn in *.
  - destruct Ht as (b & M' & Mc' & -> & Hc' & Hd' & Hs' & HQ). exact (Hf b a fin' M' HQ aCache' Mc' s1 Hc' Hd' Hs').
Qed.

Lemma tcomputes_bind {A A' D D'} (t : T A) fin M (o : option D) Q (f : A -> T A') (g : D -> option D') Q' :
  tcomputes t fin M o Q -> (forall b a fin' M', Q b a fin' M' -> tcomputes (f a) fin' M' (g b) Q') -> tcomputes (tbind t f) fin M (o ≫= g) Q'.
Proof. apply tcomputes_try. by intros e c s. Qed.

Lemma tcomputes_none {A A' D D'} (t : T A) fin M Q (f : A -> T A') Q' :
  tcomputes t fin M (None : option D) Q -> tcomputes (tbind t f) fin M (None : option D') Q'.
Proof.
  intros Ht aCache Mc s Hc Hd Hs. specialize (Ht aCache Mc s Hc Hd Hs). unfold tbind, ttry, gbind.
  destruct (t (fin, aCache) s) as [s1 [e|[[fin' aCache'] [e|a]]]]; [done..|]. by destruct Ht as (? & ? & ? & [=] & _).
Qed.

Lemma tcomputes_mono {A D} (t : T A) fin M (o : option D) Q Q' :
  tcomputes t fin M o Q -> (forall b a fin' M', Q b a fin' M' -> Q' b a fin' M') -> tcomputes t fin M o Q'.
Proof.
  intros Ht HQ aCache Mc s Hc Hd Hs. specialize (Ht aCache Mc s Hc Hd Hs).
  destruct (t (fin, aCache) s) as [s1 [e|[[fin' aCache'] [e|a]]]]; [done..|].
  destruct Ht as (b & M' & Mc' & Ho & Hc' & Hd' & Hs' & Hq). exists b, M', Mc'. split_and!; auto.
Qed.

(** After a step that always succeeds. *)
Lemma tcomputes_then {A A' D D'} (t : T A) fin M (b : D) Q (f : A -> T A') (o : option D') Q' :
  tcomputes t fin M (Some b) Q -> (forall a fin' M', Q b a fin' M' -> tcomputes (f a) fin' M' o Q') -> tcomputes (tbind t f) fin M o Q'.
Proof.
  intros Ht Hf aCache Mc s Hc Hd Hs. specialize (Ht aCache Mc s Hc Hd Hs). unfold tbind, ttry, gbind.
  destruct (t (fin, aCache) s) as [s1 [e|[[fin' aCache'] [e|a]]]]; [done..|].
  destruct Ht as (b' & M' & Mc' & [= <-] & Hc' & Hd' & Hs' & HQ). exact (Hf a fin' M' HQ aCache' Mc' s1 Hc' Hd' Hs').
Qed.

Lemma tcomputes_ret {A D} (a : A) fin M (b : D) Q : Q b a fin M -> tcomputes (tret a) fin M (Some b) Q.
Proof. intros HQ aCache Mc s Hc Hd Hs. by exists b, M, Mc. Qed.

Lemma tcomputes_fail {A D} e fin M Q : tcomputes (tfail (A := A) e) fin M (None : option D) Q.
Proof. by intros aCache Mc s Hc Hd Hs. Qed.

Lemma tcomputes_wrap {A D} text (t : T A) fin M (o : option D) Q : tcomputes t fin M o Q -> tcomputes (twrap text t) fin M o Q.
Proof.
  intros Ht. replace o with (o ≫= Some) by by destruct o. unfold twrap. eapply tcomputes_try; [by intros e c s|exact Ht|].
  intros b a fin' M' HQ. by apply tcomputes_ret.
Qed.

Lemma tcomputes_lift {A D} (m : G L A) fin M (o : option D) Q : computes m M o Q -> tcomputes (tlift m) fin M o (fun b a fin' M' => fin' = fin /\ Q b a M').
Proof.
  intros Hm aCache Mc s Hc Hd Hs. specialize (Hm Mc s Hd Hs). unfold tlift, gtry. destruct (m s) as [s1 [e|a]]; [done|].
  destruct Hm as (b & M' & -> & Hd' & Hs' & HQ). cbn. exists b, M', Mc. by split_and!.
Qed.

(** *** Loading a share *)

Definition loads_as {V} (load : V -> T (L := L) (handle KRot)) (x : V) (o : option Val) : Prop :=
  forall fin M, M !! hid ctx = Some (KCtx, C) -> tcomputes (load x) fin M o (fun v h fin' M' => fin' = fin /\ with_new M v h M').

Lemma eager_loads raw : loads_as (fun raw => tlift (deserializeRotKey ctx raw)) raw (key_of C raw).
Proof. intros fin M Hctx. by apply tcomputes_lift, rot_computes. Qed.

Lemma avec_computes M raw : computes (deserializeAVectors raw) M (vectors_of raw) (with_new M).
Proof.
  unfold deserializeAVectors. rewrite nonempty_zlen. destruct raw as [|x raw]; [apply computes_fail|].
  rewrite bool_decide_false by done. eapply (computes_then _ _ tt (fun _ _ M' => M' = M)); [by apply computes_ret|]. intros _ M' ->.
  eapply new_computes; [not_left| |apply law_read_a]. by constructor.
Qed.

Lemma rebuild_computes M (h : handle KAVec) a raw : M !! hid ctx = Some (KCtx, C) -> M !! hid h = Some (KAVec, a) ->
  computes (reconstructRotKeyFromAVectors ctx h raw) M (rebuilt a raw) (with_new M).
Proof.
  intros Hctx Hh. unfold reconstructRotKeyFromAVectors. rewrite nonempty_zlen. destruct raw as [|x raw]; [apply computes_fail|].
  rewrite bool_decide_false by done. eapply (computes_then _ _ tt (fun _ _ M' => M' = M)); [by apply computes_ret|]. intros _ M' ->.
  eapply new_computes; [not_left| |apply law_rebuild]. by repeat constructor.
Qed.

(** A key from cached a-vectors. *)
Lemma cached_computes aref bref (h : handle KAVec) fin M aCache Mc s :
  M !! hid ctx = Some (KCtx, C) -> cache_is aCache Mc -> aCache !! aref = Some h -> M ##ₘ Mc -> models (M ∪ Mc) s ->
  let '(s', r) := tlift (let^ b := resolved "resolve b-vector ref: " resolve bref in reconstructRotKeyFromAVectors ctx h b) (fin, aCache) s in
  let o := a ← (raw ← fetched resolve aref; vectors_of raw); b ← fetched resolve bref; rebuilt a b in
  match r with
  | inr ((fin', aCache'), inr h') => exists v M' Mc', o = Some v /\ cache_is aCache' Mc' /\ M' ##ₘ Mc' /\ models (M' ∪ Mc') s' /\ fin' = fin /\ with_new M v h' M'
  | _ => o = None
  end.
Proof.
  intros Hctx Hc Ha Hd Hs. destruct (ca_in _ _ Hc aref h Ha) as (av & Hav & Hh). cbv zeta. rewrite Hav. cbn [mbind option_bind].
  assert (Hm : computes (let^ b := resolved "resolve b-vector ref: " resolve bref in reconstructRotKeyFromAVectors ctx h b) (M ∪ Mc)
                 (b ← fetched resolve bref; rebuilt av b) (with_new (M ∪ Mc))).
  { apply resolved_computes. intros raw _. apply rebuild_computes; [by apply lookup_union_Some_l|by apply lookup_union_Some_r]. }
  specialize (Hm ∅ s (map_disjoint_empty_r _)). rewrite map_union_empty in Hm. specialize (Hm Hs). unfold tlift, gtry.
  destruct (gbind _ _ s) as [s1 [e|h']]; [done|]. destruct Hm as (v & M' & -> & _ & Hs' & [Hn ->]). cbn.
  apply lookup_union_None in Hn as [HnM HnC]. rewrite map_union_empty, insert_union_l in Hs'.
  exists v, (<[hid h' := (KRot, v)]> M), Mc. split_and!; [done..|by apply map_disjoint_insert_l|done|done|done].
Qed.

Lemma cache_is_insert aCache Mc aref (h : handle KAVec) av : cache_is aCache Mc -> Mc !! hid h = None ->
  (raw ← fetched resolve aref; vectors_of raw) = Some av -> cache_is (<[aref := h]> aCache) (<[hid h := (KAVec, av)]> Mc).
Proof.
  intros [Hin Hinj] Hn Hav. assert (Hold : forall r h', aCache !! r = Some h' -> hid h' <> hid h).
  { intros r h' Hr He. destruct (Hin r h' Hr) as (av' & _ & Hm). congruence. }
  split.
  - intros r h' Hr. destruct (decide (r = aref)) as [-> |Hne].
    + rewrite lookup_insert_eq in Hr. injection Hr as <-. exists av. by rewrite lookup_insert_eq.
    + rewrite lookup_insert_ne in Hr by done. destruct (Hin r h' Hr) as (av' & Hv & Hm). exists av'. split; [done|].
      rewrite lookup_insert_ne; [done|]. intros He. by apply (Hold r h' Hr).
  - intros a1 a2 h1 h2. destruct (decide (a1 = aref)) as [-> |H1n], (decide (a2 = aref)) as [-> |H2n];
      rewrite ?lookup_insert_eq, ?lookup_insert_ne by done; [done| | |by apply Hinj].
    + intros [= <-] Ha2 He. by destruct (Hold a2 h2 Ha2).
    + intros Ha1 [= <-] He. by destruct (Hold a1 h1 Ha1).
Qed.

Lemma lazy_loads ref : loads_as (resolveKeyRefCached ctx resolve) ref (ref_key ref).
Proof.
  intros fin M Hctx. unfold resolveKeyRefCached, ref_key. destruct (full_ref ref).
  { apply tcomputes_lift. unfold load_full. apply resolved_computes. intros raw _. by apply computes_wrap, rot_computes. }
  destruct (split_ref ref); [|apply tcomputes_fail]. intros aCache Mc s Hc Hd Hs. unfold cached.
  destruct (aCache !! rf_ARef ref) as [h|] eqn:Ha; [by apply (cached_computes (rf_ARef ref) (rf_BRef ref) h fin M aCache Mc s)|]. unfold gtry at 1.
  assert (Hm : computes (let^ a := resolved "resolve a-vector ref: " resolve (rf_ARef ref) in gwrap "deserialize a-vectors: " (deserializeAVectors a)) (M ∪ Mc)
                 (raw ← fetched resolve (rf_ARef ref); vectors_of raw) (with_new (M ∪ Mc))).
  { apply resolved_computes. intros raw _. apply computes_wrap, avec_computes. }
  specialize (Hm ∅ s (map_disjoint_empty_r _)). rewrite map_union_empty in Hm. specialize (Hm Hs).
  destruct (gbind _ _ s) as [s1 [e|h]]; [by rewrite Hm|]. destruct Hm as (av & M' & Hav & _ & Hs' & [Hn ->]).
  apply lookup_union_None in Hn as [HnM HnC]. rewrite map_union_empty, insert_union_r in Hs' by done.
  apply (cached_computes (rf_ARef ref) (rf_BRef ref) h fin M (<[rf_ARef ref := h]> aCache) (<[hid h := (KAVec, av)]> Mc) s1);
    [done|by apply cache_is_insert|by rewrite lookup_insert_eq|by apply map_disjoint_insert_r|done].
Qed.

(** *** One index *)

Section one_index.
Context {V : Type} (verb : string) (load : V -> T (L := L) (handle KRot)) (sv : V -> option Val) (pks : list bytes) (index : Z).

Lemma fold_party_computes (accum : handle KRot) party x fin M a : loads_as load x (sv x) ->
  M !! hid ctx = Some (KCtx, C) -> M !! hid accum = Some (KRot, a) ->
  tcomputes (fold_party verb load ctx pks index accum party x) fin M
    (k ← (raw ← pks !! party; public_of C raw); v ← sv x; add_share C a k v)
    (fun w _ fin' M' => fin' = fin /\ M' = <[hid accum := (KRot, w)]> M).
Proof.
  intros Hx Hctx Hacc. unfold fold_party. eapply tcomputes_bind.
  { apply tcomputes_wrap, tcomputes_lift. instantiate (1 := with_new M). unfold at_index.
    destruct (pks !! party) as [raw|]; [|apply (computes_fault (A := handle KPK))]. exact (pk_computes ctx raw M C Hctx). }
  intros kv pk fin1 M1 [-> Hpk]. eapply tcomputes_try; [|apply tcomputes_wrap, Hx|].
  { intros e c s. unfold tbind, ttry, tfree, gbind. destruct (cfree pk s) as [s1 [e1|[]]]; done. }
  { destruct Hpk as [Hn ->]. rewrite lookup_insert_ne by congruence. done. }
  intros v share fin2 M2 [-> Hsh] aCache Mc s Hc Hd Hs.
  pose proof (fold_call_computes (fun r => if negb (rc r =? 0) then gret (L := L) ((fin, aCache), inl ("eval-sum combine fold " +:+ party_index party index +:+ " failed"))
    else gret ((fin, aCache), inr tt)) accum pk share M M1 M2 a kv v (Some tt)
    (fun _ x M' => x.1 = (fin, aCache) /\ match add_share C a kv v with Some w => x.2 = inr tt /\ M' = <[hid accum := (KRot, w)]> M | None => exists e, x.2 = inl e end)
    Hctx Hacc Hpk Hsh) as Hcall.
  refine (_ (Hcall _ Mc s Hd Hs)).
  - unfold tbind, ttry, tcall, tfree, gbind, gret. destruct (call _ _ _ s) as [s1 [e1|r]]; [done|]. cbn.
    destruct (cfree share s1) as [s2 [e2|[]]]; [done|]. cbn. destruct (cfree pk s2) as [s3 [e3|[]]]; [done|]. cbn.
    destruct (negb (rc r =? 0)); cbn; intros (_ & M' & _ & Hd' & Hs' & _ & HQ); destruct (add_share C a kv v) as [w|]; try (by destruct HQ); try done.
    destruct HQ as [_ ->]. exists w, (<[hid accum := (KRot, w)]> M), Mc. by split_and!.
  - intros r M' Hr. destruct (add_share C a kv v) as [w|].
    + destruct Hr as [-> ->]. by apply computes_ret.
    + destruct (Z.eqb_spec (rc r) 0); [done|]. apply computes_ret. split; [done|]. by eexists.
Qed.

Lemma fold_parties_computes (accum : handle KRot) xs : Forall (fun x => loads_as load x (sv x)) xs ->
  forall party fin M a, M !! hid ctx = Some (KCtx, C) -> M !! hid accum = Some (KRot, a) ->
  tcomputes (fold_parties verb load ctx pks index accum party xs) fin M (folded C a (drop party pks) (sv <$> xs))
    (fun w _ fin' M' => fin' = fin /\ M' = <[hid accum := (KRot, w)]> M).
Proof.
  induction 1 as [|x xs Hx _ IH]; intros party fin M a Hctx Hacc; cbn [fold_parties folded fmap list_fmap].
  - apply tcomputes_ret. split; [done|]. by rewrite insert_id.
  - pose proof (fold_party_computes accum party x fin M a Hx Hctx Hacc) as Hparty. destruct (pks !! party) as [pk|] eqn:Hpk.
    + rewrite (drop_S _ _ _ Hpk). cbn [mbind option_bind] in Hparty.
      replace (k ← public_of C pk; v ← sv x; acc ← add_share C a k v; folded C acc (drop (S party) pks) (sv <$> xs))
        with ((k ← public_of C pk; v ← sv x; add_share C a k v) ≫= (fun acc => folded C acc (drop (S party) pks) (sv <$> xs))).
      2: { destruct (public_of C pk); [cbn|done]. by destruct (sv x). }
      eapply tcomputes_bind; [exact Hparty|]. intros w _ fin' M' [-> ->].
      eapply tcomputes_mono; [apply IH|].
      * rewrite lookup_insert_ne by congruence. done.
      * by rewrite lookup_insert_eq.
      * cbn. intros w' _ fin' M' [-> ->]. by rewrite insert_insert_eq.
    + rewrite drop_ge by by apply lookup_ge_None. cbn [mbind option_bind] in Hparty.
      eapply tcomputes_none, Hparty.
Qed.

Lemma combine_index_computes xs fin M : Forall (fun x => loads_as load x (sv x)) xs -> M !! hid ctx = Some (KCtx, C) ->
  tcomputes (combine_index verb load ctx pks index xs) fin M (joint C pks (sv <$> xs)) (fun w h fin' M' => fin' = fin /\ with_new M w h M').
Proof.
  intros Hxs Hctx. destruct Hxs as [|x xs Hx Hxs]; cbn [combine_index joint fmap list_fmap].
  { eapply tcomputes_mono; [eapply tcomputes_lift, (computes_fault (A := handle KRot) (C := Val) IndexPanic M (with_new M))|done]. }
  eapply tcomputes_bind; [by apply tcomputes_wrap, Hx|]. intros v seed fin1 M1 [-> [Hn ->]].
  eapply tcomputes_then; [apply tcomputes_lift, (start_computes _ seed _ v); by rewrite lookup_insert_eq|].
  cbn. intros accum fin1 M1 [-> [Hn1 ->]]. rewrite delete_insert_id in Hn1 by done. rewrite delete_insert_id by done.
  change (tail pks) with (drop 1 pks).
  replace (folded C v (drop 1 pks) (sv <$> xs)) with (folded C v (drop 1 pks) (sv <$> xs) ≫= Some) by by destruct (folded C v (drop 1 pks) (sv <$> xs)).
  eapply tcomputes_try; [|apply (fold_parties_computes accum xs Hxs 1 fin _ v)|].
  - intros e c s. unfold tbind, ttry, tfree, gbind. destruct (cfree accum s) as [s1 [e1|[]]]; done.
  - rewrite lookup_insert_ne by congruence. done.
  - by rewrite lookup_insert_eq.
  - cbn. intros w _ fin' M' [-> ->]. apply tcomputes_ret. split; [done|]. split; [done|]. by rewrite insert_insert_eq.
Qed.
End one_index.

(** *** All indices *)

(** The merged key so far, beside the objects [M0]. *)
Definition holding M0 (fin : option (handle KRot)) (fv : option Val) M : Prop :=
  match fin, fv with
  | None, None => M = M0
  | Some f, Some v => with_new M0 v f M
  | _, _ => False
  end.

Lemma merge_computes index (accum : handle KRot) M0 fin fv M M' k : holding M0 fin fv M -> with_new M k accum M' ->
  tcomputes (merge_final index accum) fin M' (match fv with None => Some k | Some f => merge_maps f k end)
    (fun w _ fin' M'' => holding M0 fin' (Some w) M'').
Proof.
  intros Hh [Hn ->]. destruct fin as [f|], fv as [v|]; try done.
  2: { cbn in Hh. subst M. intros aCache Mc s Hc Hd Hs. cbn. exists k, (<[hid accum := (KRot, k)]> M0), Mc. by split_and!. }
  destruct Hh as [Hf ->]. rewrite lookup_insert_None in Hn. destruct Hn as [Hn Hne].
  assert (Hg : given (<[hid accum:=(KRot, k)]> (<[hid f:=(KRot, v)]> M0)) [cell f; cell accum] [v; k]).
  { unfold given. repeat (apply Forall2_cons; split); [..|done]; cbn;
      repeat first [rewrite lookup_insert_eq | rewrite lookup_insert_ne by congruence]; done. }
  intros aCache Mc s Hc Hd Hs. cbn.
  assert (Hm : computes (let^ r := call "MergeEvalSumKeyMaps" [cell f; cell accum] [] in let^ _ := cfree accum in
      if negb (rc r =? 0) then gret (L := L) ((Some f, aCache), inl ("merge eval-sum index " +:+ pretty index +:+ " failed")) else gret ((Some f, aCache), inr tt))
      (<[hid accum:=(KRot, k)]> (<[hid f:=(KRot, v)]> M0)) (Some tt)
      (fun _ x M' => x.1 = (Some f, aCache) /\ match merge_maps v k with Some w => x.2 = inr tt /\ M' = <[hid f := (KRot, w)]> M0 | None => exists e, x.2 = inl e end)).
  { eapply computes_then.
    - eapply (change_computes (k := KRot) _ _ _ f v (merge_maps v k) _ Hg).
      + rewrite lookup_insert_ne by congruence. by rewrite lookup_insert_eq.
      + intros s' Hs'. pose proof (given_values _ _ _ _ Hg Hs') as Hv. cbn in Hv.
        repeat match goal with H : Forall2 _ (_ :: _) _ |- _ => apply Forall2_cons in H as [? H] end. by apply law_merge.
    - intros r M3 H3. eapply computes_then; [eapply (free_computes accum _ k)|].
      { destruct (merge_maps v k); destruct H3 as [_ ->]; rewrite ?lookup_insert_ne, ?lookup_delete_ne by congruence; by rewrite lookup_insert_eq. }
      cbn. intros _ M4 ->. destruct (merge_maps v k) as [w|]; destruct H3 as [Hr ->].
      + rewrite Hr. apply computes_ret. split_and!; [done..|]. rewrite insert_insert_ne, delete_insert_id, insert_insert_eq; [done| |congruence].
        rewrite !lookup_insert_ne by congruence. done.
      + destruct (Z.eqb_spec (rc r) 0); [done|]. apply computes_ret. split; [done|]. by eexists. }
  specialize (Hm Mc s Hd Hs). destruct (gbind _ _ s) as [s1 [e|[[fin1 ac1] x]]]; [done|].
  destruct Hm as (_ & M' & _ & Hd' & Hs' & He & HQ). cbn in He. injection He as -> ->.
  destruct (merge_maps v k) as [w|]; cbn in HQ; [|by destruct HQ as [e ->]]. destruct HQ as [-> ->].
  exists w, (<[hid f := (KRot, w)]> M0), Mc. split_and!; [done..|]. by split.
Qed.

Lemma holding_ctx M0 fin fv M : holding M0 fin fv M -> M0 !! hid ctx = Some (KCtx, C) -> M !! hid ctx = Some (KCtx, C).
Proof.
  intros Hh Hctx. destruct fin as [f|], fv as [v|]; try done; [|by cbn in Hh; subst].
  destruct Hh as [Hn ->]. rewrite lookup_insert_ne by congruence. done.
Qed.

Lemma over_indices_computes {V} verb (load : V -> T (handle KRot)) (sv : V -> option Val) pks shares indices M0 :
  M0 !! hid ctx = Some (KCtx, C) -> (forall i, i ∈ indices -> Forall (fun x => loads_as load x (sv x)) (shares i)) ->
  forall fin fv M, holding M0 fin fv M ->
  tcomputes (over_indices verb load ctx pks shares merge_final indices) fin M
    (merged C pks fv ((fun i => sv <$> shares i) <$> indices)) (fun fv' _ fin' M' => holding M0 fin' fv' M').
Proof.
  intros Hctx. induction indices as [|i indices IH]; intros Hload fin fv M Hh; cbn [over_indices merged fmap list_fmap].
  - by apply tcomputes_ret.
  - eapply tcomputes_bind.
    { apply (combine_index_computes verb load sv pks i (shares i)); [apply Hload; left|by eapply holding_ctx]. }
    cbn. intros k accum fin1 M1 [-> Hk]. eapply tcomputes_bind; [by eapply merge_computes|].
    cbn. intros w _ fin2 M2 Hh2. apply IH; [|done]. intros j Hj. apply Hload. by right.
Qed.

Lemma serialize_computes M0 fin fv M : holding M0 fin fv M ->
  tcomputes serialize_final fin M (fv ≫= write_rot) (fun b b' fin' M' => b' = b /\ fin' = fin /\ M' = M).
Proof.
  intros Hh. destruct fin as [f|], fv as [v|]; try done. destruct Hh as [Hn ->].
  pose proof (tcomputes_lift _ (Some f) _ _ _ (write_computes f (<[hid f := (KRot, v)]> M0) v (lookup_insert_eq _ _ _))) as Hw.
  intros aCache Mc s Hc Hd Hs. specialize (Hw aCache Mc s Hc Hd Hs). cbn [serialize_final mbind option_bind].
  destruct (tlift _ _ s) as [s1 [e|[[fin1 ac1] [e|b']]]]; [done..|].
  destruct Hw as (b & M' & Mc' & Ho & Hc' & Hd' & Hs' & -> & -> & ->). exists b, (<[hid f := (KRot, v)]> M0), Mc'. by split_and!.
Qed.

(** *** The deferred frees *)

Lemma frees_run {k} (hs : list (handle k)) M s : NoDup (hid <$> hs) -> Forall (fun h => exists v, M !! hid h = Some (k, v)) hs -> models M s ->
  exists s', cfree_all hs s = (s', inr tt) /\ forall N, N ⊆ M -> Forall (fun h => N !! hid h = None) hs -> models N s'.
Proof.
  intros Hnd Hhs. revert M s Hhs. induction hs as [|h hs IH]; intros M s Hhs Hs; cbn [cfree_all].
  - exists s. split; [done|]. intros N HN _. by eapply models_sub.
  - cbn in Hnd. apply NoDup_cons in Hnd as [Hni Hnd]. apply Forall_cons in Hhs as [[v Hv] Hhs].
    destruct (free_untracked h (delete (hid h) M) s) as (s1 & Hf & Hs1).
    { by destruct (mo_live _ _ Hs _ _ _ Hv). } { by rewrite lookup_delete_eq. } { eapply models_sub; [apply delete_subseteq|done]. }
    destruct (IH Hnd (delete (hid h) M) s1) as (s2 & Hf2 & Hs2); [|done|].
    { rewrite Forall_forall in Hhs |- *. intros h' Hin. destruct (Hhs h' Hin) as [v' Hv']. exists v'. rewrite lookup_delete_ne; [done|].
      intros He. apply Hni. rewrite He. by apply list_elem_of_fmap_2. }
    exists s2. unfold gbind. rewrite Hf, Hf2. split; [done|]. intros N HN HNh. apply Forall_cons in HNh as [HN1 HN2]. apply Hs2; [|done].
    apply map_subseteq_spec. intros p x Hp. rewrite lookup_delete_ne; [by eapply lookup_weaken|]. congruence.
Qed.

Lemma cache_handles `{GoRange} aCache Mc : cache_is aCache Mc ->
  NoDup (hid <$> (range_of aCache).*2) /\ Forall (fun h => exists v, Mc !! hid h = Some (KAVec, v)) (range_of aCache).*2.
Proof.
  intros [Hin Hinj]. assert (Hel : forall x, x ∈ range_of aCache -> aCache !! x.1 = Some x.2).
  { intros [r h] Hx. apply elem_of_map_to_list. by rewrite <- range_of_perm. }
  split.
  - assert (Hnd : NoDup (range_of aCache).*1) by (rewrite range_of_perm; apply NoDup_fst_map_to_list).
    revert Hel Hnd. induction (range_of aCache) as [|[r h] l IH]; intros Hel Hnd; [constructor|].
    cbn in Hnd |- *. apply NoDup_cons in Hnd as [Hni Hnd]. constructor; [|apply IH; [intros x Hx; apply Hel; by right|done]].
    intros He. apply list_elem_of_fmap in He as (h' & He & Hh'). apply list_elem_of_fmap in Hh' as ([r' h2] & -> & Hx).
    apply Hni. apply list_elem_of_fmap. exists (r', h2). split; [|done]. cbn.
    apply (Hinj r r' h h2); [apply (Hel (r, h)); left|apply (Hel (r', h2)); by right|done].
  - apply Forall_fmap, Forall_forall. intros [r h] Hx. destruct (Hin r h (Hel _ Hx)) as (av & _ & Hm). by exists av.
Qed.

Lemma release_computes `{GoRange} {A D} (t : T A) M0 (o : option D) Q s :
  tcomputes t None M0 o (fun b a fin' M' => Q b a /\ exists fv, holding M0 fin' fv M') -> models M0 s ->
  match (release t s).2 with inl _ => o = None | inr a => exists b, o = Some b /\ Q b a end.
Proof.
  intros Ht Hs. assert (Hempty : cache_is ∅ ∅) by (split; intros *; by rewrite lookup_empty).
  specialize (Ht ∅ ∅ s Hempty (map_disjoint_empty_r _)). rewrite map_union_empty in Ht. specialize (Ht Hs). unfold release, gbind at 1.
  destruct (t (None, ∅) s) as [s1 [e|[[fin aCache] [e|a]]]]; [done| |].
  { unfold gbind. cbn. destruct (cfree_all _ s1) as [s2 [e2|[]]]; [done|]. cbn. by destruct (cfree_opt fin s2) as [s3 [e3|[]]]. }
  destruct Ht as (b & M' & Mc & -> & Hc & Hd & Hs1 & HQ & fv & Hh). destruct (cache_handles aCache Mc Hc) as [Hnd Hin].
  destruct (frees_run (range_of aCache).*2 (M' ∪ Mc) s1 Hnd) as (s2 & Hf & Hs2).
  { eapply Forall_impl; [exact Hin|]. intros h [v Hv]. exists v. by apply lookup_union_Some_r. } { done. }
  unfold gbind. cbn. rewrite Hf. specialize (Hs2 M' (map_union_subseteq_l _ _)). cbn.
  assert (Hn : Forall (fun h => M' !! hid h = None) (range_of aCache).*2).
  { eapply Forall_impl; [exact Hin|]. intros h [v Hv]. by eapply map_disjoint_Some_r. }
  specialize (Hs2 Hn). destruct fin as [f|]; cbn; [|by exists b].
  destruct fv as [v|]; [|done]. destruct Hh as [Hf0 ->].
  destruct (free_untracked f M0 s2) as (s3 & -> & _); [|done| |by exists b].
  - apply (mo_live _ _ Hs2 (hid f) KRot v). by rewrite lookup_insert_eq.
  - eapply models_sub; [|exact Hs2]. by apply insert_subseteq.
Qed.

Lemma per_index_release `{GoRange} {V} verb (load : V -> T (handle KRot)) (sv : V -> option Val) pks shares indices M0 s :
  M0 !! hid ctx = Some (KCtx, C) -> models M0 s -> (forall x, loads_as load x (sv x)) ->
  match (release (tbind (over_indices verb load ctx pks shares merge_final indices) (fun _ => serialize_final)) s).2 with
  | inl _ => joint_key C pks ((fun i => sv <$> shares i) <$> indices) = None
  | inr b => joint_key C pks ((fun i => sv <$> shares i) <$> indices) = Some b
  end.
Proof.
  intros Hctx Hs Hload.
  pose proof (release_computes (tbind (over_indices verb load ctx pks shares merge_final indices) (fun _ => serialize_final)) M0
    (joint_key C pks ((fun i => sv <$> shares i) <$> indices)) (fun b b' => b' = b) s) as Hr.
  destruct (release _ s) as [s1 [e|b]]; cbn in Hr |- *; [apply Hr; [|done]|destruct Hr as (b' & Hb & ->); [|done|done]].
  all: eapply tcomputes_bind; [eapply over_indices_computes; [done| |done]|].
  all: try (intros i _; apply Forall_forall; intros x _; apply Hload).
  all: cbn; intros fv _ fin' M' Hh; eapply tcomputes_mono; [by apply serialize_computes with (M0 := M0)|];
    cbn; intros b1 b2 fin2 M2 (-> & -> & ->); split; [done|by exists fv].
Qed.
End steps.
End fold.

(** ** Tables of keys *)

Section tables.
Context `{IntRange} `{GoRange} (ctx : handle KCtx) (C : Val).

#[export] Instance table_row_dec indices p : Decision (table_row indices p).
Proof. unfold table_row. apply _. Defined.

(** The keys of all parties for an index. *)
Definition row (keys : list (list IndexedEvalSumKey)) (i : Z) : list (option Val) :=
  (fun p => key_of C (default [] ((list_to_map (keyed_key <$> p) : gmap Z bytes) !! i))) <$> keys.

(** The joint key of a table: every party has keys, none of them empty, for the
    lead's indices and no index twice; anything else is refused. *)
Definition table_key (pks : list bytes) (keys : list (list IndexedEvalSumKey)) : option bytes :=
  match keys with
  | [] => None
  | lead :: _ =>
    if decide (Forall (table_row (ix_Index <$> lead)) keys) then joint_key C pks (row keys <$> (ix_Index <$> lead)) else None
  end.

Definition gives (r : string + bytes) (o : option bytes) : Prop := match r with inl _ => o = None | inr b => o = Some b end.

Lemma validated keys indices keyed : validateIndexedEvalSumShares keys = inr (indices, keyed) <->
  exists lead, head keys = Some lead /\ indices = ix_Index <$> lead /\ keyed = ((fun p => list_to_map (keyed_key <$> p)) <$> keys) /\
    Forall (table_row indices) keys.
Proof. unfold validateIndexedEvalSumShares. rewrite validate_iff. apply table_iff. Qed.

Lemma table_key_validated pks keys :
  table_key pks keys = match validateIndexedEvalSumShares keys with
  | inl _ => None
  | inr (indices, keyed) => joint_key C pks ((fun i => key_of C <$> shares_at [] keyed i) <$> indices)
  end.
Proof.
  pose proof (validated keys) as Hv. unfold table_key. destruct (validateIndexedEvalSumShares keys) as [e|[indices keyed]].
  - destruct keys as [|lead rest]; [done|]. case_decide as Ht; [|done]. exfalso.
    discriminate (proj2 (Hv (ix_Index <$> lead) _) (ex_intro _ lead (conj eq_refl (conj eq_refl (conj eq_refl Ht))))).
  - destruct (proj1 (Hv indices keyed) eq_refl) as (lead & Hlead & -> & -> & Ht). destruct keys as [|lead' rest]; [done|].
    injection Hlead as ->. rewrite decide_True by done. f_equal. apply list_fmap_ext. intros _ i _. unfold row, shares_at.
    by rewrite <- !list_fmap_compose.
Qed.

(** A reference that stands for a key of the same index. *)
Definition stands_for (resolve : Resolver) (ref : IndexedEvalSumKeyRef) (key : IndexedEvalSumKey) : Prop :=
  rf_Index ref = ix_Index key /\ validIndexedEvalSumKeyRef ref = true /\ ix_Key key <> [] /\ ref_key C resolve ref = key_of C (ix_Key key).

Lemma standing_tables resolve refs keys : Forall2 (Forall2 (stands_for resolve)) refs keys ->
  Forall2 (Forall2 (entry_same validIndexedEvalSumKeyRef (fun key => negb (zlen key =? 0)) (fun ref key => ref_key C resolve ref = key_of C key)))
    (List.map (List.map keyed_ref) refs) (List.map (List.map keyed_key) keys).
Proof.
  induction 1 as [|r k refs keys Hr _ IH]; cbn; constructor; [|done]. clear IH.
  induction Hr as [|r0 k0 r k (Hi & Hv & Hn & Hk) _ IH]; cbn; constructor; [|done]. split_and!; [done|done| |done].
  cbn. rewrite nonempty_zlen. by rewrite bool_decide_false.
Qed.

Lemma refs_validated pks resolve refs keys : Forall2 (Forall2 (stands_for resolve)) refs keys ->
  table_key pks keys = match validateIndexedEvalSumShareRefs refs with
  | inl _ => None
  | inr (indices, keyed) => joint_key C pks ((fun i => ref_key C resolve <$> shares_at no_ref keyed i) <$> indices)
  end.
Proof.
  intros Hd. rewrite table_key_validated. apply standing_tables in Hd. unfold validateIndexedEvalSumShareRefs, validateIndexedEvalSumShares.
  eapply (validate_same _ _ _ " must contain either full ref or a/b refs" " submitted no per-index key refs" " has empty key" " submitted no per-index keys"
    no_ref []) in Hd.
  destruct (validate validIndexedEvalSumKeyRef _ _ _) as [e|[ix ks]], (validate _ " has empty key" _ _) as [e'|[ix' ks']]; try done.
  destruct Hd as [Hi Hs]. cbn [fst snd] in *. subst ix'. f_equal. apply list_fmap_ext. intros j i Hi.
  assert (Hr := Hs i (list_elem_of_lookup_2 _ _ _ Hi)). symmetry. induction Hr as [|r k rs ks0 Hrk _ IH]; [done|]. cbn. by f_equal.
Qed.

Lemma computes_gives (m : G L bytes) M (o : option bytes) s : computes m M o (fun b b' _ => b' = b) -> models M s -> gives (m s).2 o.
Proof.
  intros Hm Hs. specialize (Hm ∅ s (map_disjoint_empty_r _)). rewrite map_union_empty in Hm. specialize (Hm Hs).
  destruct (m s) as [s1 [e|b]]; [done|]. destruct Hm as (b' & _ & -> & _ & _ & ->). done.
Qed.

Lemma per_index_gives pks keys s : models {[ hid ctx := (KCtx, C) ]} s -> gives (combineEvalSumPerIndex ctx pks keys s).2 (table_key pks keys).
Proof.
  intros Hs. rewrite table_key_validated. unfold combineEvalSumPerIndex. destruct (validateIndexedEvalSumShares keys) as [e|[indices keyed]]; [done|].
  pose proof (per_index_release ctx C (fun _ => inl "") "deserialize" (fun raw => tlift (deserializeRotKey ctx raw)) (key_of C) pks (shares_at [] keyed) indices
    {[ hid ctx := (KCtx, C) ]} s (lookup_singleton_eq _ _) Hs (eager_loads ctx C _)) as Hr.
  by destruct (release _ s) as [s1 [e|b]].
Qed.

Lemma per_index_lazy_gives pks resolve refs keys s : models {[ hid ctx := (KCtx, C) ]} s -> Forall2 (Forall2 (stands_for resolve)) refs keys ->
  gives (combineEvalSumPerIndexLazy ctx pks refs resolve s).2 (table_key pks keys).
Proof.
  intros Hs Hd. rewrite (refs_validated pks resolve refs keys Hd). unfold combineEvalSumPerIndexLazy.
  destruct (validateIndexedEvalSumShareRefs refs) as [e|[indices keyed]]; [done|].
  pose proof (per_index_release ctx C resolve "load" (resolveKeyRefCached ctx resolve) (ref_key C resolve) pks (shares_at no_ref keyed) indices
    {[ hid ctx := (KCtx, C) ]} s (lookup_singleton_eq _ _) Hs (lazy_loads ctx C resolve)) as Hr.
  by destruct (release _ s) as [s1 [e|b]].
Qed.

(** C15: lazily or eagerly, the shares are combined into the joint key.  On a
    state that holds the context, every way the bindings combine eval-sum shares
    returns the serialization of the joint key of the shares' values, and fails
    when there is none: the lead's share with each other party's share added
    under that party's own public key, and, for keys by index, these joint keys
    of all the lead's indices merged in order.  This holds for shares at hand
    and for shares loaded through a resolver, of whole keys and of keys by
    index; a reference may name a whole key or its a- and b-vectors, and the
    a-vectors cached under a reference are those it resolves to.  The conditions
    are that the references stand for the shares, and that no object serializes
    to two gigabytes. *)
Theorem lazy_is_eager pks s shares refs resolve keys keyRefs :
  models {[ hid ctx := (KCtx, C) ]} s ->
  length pks = length shares -> shares <> [] -> Forall2 (fun ref share => resolved_key C resolve ref = key_of C share) refs shares ->
  Forall2 (Forall2 (stands_for resolve)) keyRefs keys ->
  let whole := joint C pks (key_of C <$> shares) ≫= write_rot in
  gives (combineEvalSumIncremental ctx pks shares s).2 whole /\
  gives (combineEvalSumIncrementalLazy ctx pks refs (Some resolve) s).2 whole /\
  gives (combineEvalSumPerIndex ctx pks keys s).2 (table_key pks keys) /\
  gives (combineEvalSumPerIndexLazy ctx pks keyRefs resolve s).2 (table_key pks keys).
Proof.
  intros Hs Hl Hn Hr Hk whole. pose proof (lookup_singleton_eq (hid ctx) (KCtx, C) : ({[ hid ctx := (KCtx, C) ]} : gmap positive (kind * Val)) !! _ = _) as Hctx.
  assert (Hw : resolved_key C resolve <$> refs = key_of C <$> shares).
  { clear Hl Hn. induction Hr as [|ref share refs shares Hr _ IH]; [done|]. cbn. by f_equal. }
  pose proof (Forall2_length _ _ _ Hr) as Hlen. split_and!; [| |by apply per_index_gives|by apply per_index_lazy_gives].
  - eapply computes_gives; [by apply incremental_computes|done].
  - unfold whole. rewrite <- Hw. eapply computes_gives; [apply incremental_lazy_computes; [done|congruence|by destruct Hr]|done].
Qed.
End tables.
End values.

(** ** Witness *)

(** A library whose objects are byte strings: a key is its bytes, a split key
    its halves in a row, adding and merging put the contents in a row. *)
Section witness.
Notation objects := (gmap positive bytes).

Definition wit_outcome (name : string) (hs : list positive) (ds : list cval) (ps : list positive) (l : objects) : option (objects * bytes) :=
  let v h := default [] (l !! h) in
  match hs, ds, ps with
  | [_], [VData raw], [p] =>
      if bool_decide (name ∈ ["DeserializePublicKey"; "DeserializeRotKey"]) then Some (<[p := raw]> l, []) else None
  | [], [VData raw], [p] => if String.eqb name "DeserializeAVectors" then Some (<[p := raw]> l, []) else None
  | [_; a], [VData raw], [p] => if String.eqb name "ReconstructRotKeyFromAVectors" then Some (<[p := v a ++ raw]> l, []) else None
  | [h], [], [p] =>
      if String.eqb name "EvalSumCombineStart" then Some (<[p := v h]> l, [])
      else if String.eqb name "SerializeRotKey" then Some (l, v h) else None
  | [_; acc; pk; share], [], [] => if String.eqb name "EvalSumCombineFold" then Some (<[acc := v acc ++ v pk ++ v share]> l, []) else None
  | [f; acc], [], [] => if String.eqb name "MergeEvalSumKeyMaps" then Some (<[f := v f ++ v acc]> l, []) else None
  | _, _, _ => None
  end.

Definition wit_bytes (b : bytes) : bytes := x00 :: take 64 b.

#[local] Instance wit_store : CLib objects := {|
  c_call name hs ds ps l :=
    match wit_outcome name hs ds ps l with
    | Some (l', b) => (l', mkReply 0 (replicate (length ps) true) (wit_bytes b) [] [] "")
    | None => (l, mkReply 1 (replicate (length ps) false) [x00] [] [] "refused")
    end;
  c_free _ _ l := l
|}.

#[local] Instance wit_values : KeyValues objects bytes := {|
  value l p := l !! p;
  read_pk _ raw := Some raw;
  read_rot _ raw := Some raw;
  read_a raw := Some raw;
  rebuild _ a b := Some (a ++ b);
  add_share _ acc pk share := Some (acc ++ pk ++ share);
  merge_maps f acc := Some (f ++ acc);
  write_rot v := Some (wit_bytes v)
|}.

Lemma wit_uncounted name hs ds ps l : name ∈ counted -> wit_outcome name hs ds ps l = None.
Proof.
  unfold counted. rewrite !elem_of_cons, elem_of_nil. intros [-> |[-> |[-> |[]]]]; unfold wit_outcome;
    by destruct hs as [|? [|? [|? [|? []]]]], ds as [|[] []], ps as [|? []].
Qed.

#[local] Instance wit_store_laws : CLibLaws (L := objects).
Proof.
  split; cbn.
  - intros name hs ds ps l _. by destruct (wit_outcome name hs ds ps l) as [[l' b]|].
  - intros name hs ds ps l. by destruct (wit_outcome name hs ds ps l) as [[l' b]|].
  - intros name hs ds ps l n Hn _ _. by rewrite wit_uncounted.
  - intros hs ds ds' ps ps' l. destruct (wit_outcome _ hs ds ps l) as [[l' b]|]; by destruct (wit_outcome _ hs ds' ps' _) as [[l2 b2]|].
Qed.

#[local] Instance wit_store_small : SmallObjects (L := objects).
Proof.
  intros name hs ds ps l. cbn. destruct (wit_outcome name hs ds ps l) as [[l' b]|]; [|done]. cbn. unfold zlen. cbn. rewrite length_take. lia.
Qed.

#[local] Instance wit_key_laws : KeyLaws (L := objects) (Val := bytes).
Proof.
  split.
  1-4: intros *; unfold creates; intros l hs p Hvs Hp;
    repeat match goal with
    | H : Forall2 _ _ (_ :: _) |- _ => apply Forall2_cons_inv_r in H as (? & ? & ? & H & ->)
    | H : Forall2 _ _ [] |- _ => apply Forall2_nil_inv_r in H as ->
    end; cbn in *; split_and!; [done|intros ? [= <-]; rewrite lookup_insert_eq|intros q Hq; by rewrite lookup_insert_ne].
  1-3: done.
  - by simplify_map_eq.
  - intros l h p v Hv Hne. cbn in *. split_and!; [done|rewrite lookup_insert_eq; by simplify_map_eq|]. intros q Hq _. by rewrite lookup_insert_ne.
  - intros l c acc pk share C a k v _ HC Ha Hk Hv. unfold changes. cbn in *. split_and!; [done| |intros q Hq; by rewrite lookup_insert_ne].
    intros ? [= <-]. rewrite lookup_insert_eq. by simplify_map_eq.
  - intros l f acc v a _ Hv Ha. unfold changes. cbn in *. split_and!; [done| |intros q Hq; by rewrite lookup_insert_ne].
    intros ? [= <-]. rewrite lookup_insert_eq. by simplify_map_eq.
  - intros l h p v Hv _. cbn in *. split_and!; [done| |done]. intros ? [= <-]. by simplify_map_eq.
  - done.
Qed.

Definition wit_keys : list (list IndexedEvalSumKey) :=
  [[mkIndexed 4 [x0a; x0b]; mkIndexed 8 [x0d]]; [mkIndexed 8 [x0e]; mkIndexed 4 [x0a; x0c]]].

(** The keys of index 4 share their a-vectors; those of index 8 are whole. *)
Definition wit_refs : list (list IndexedEvalSumKeyRef) :=
  [[mkRef 4 "" "a" "b1"; mkRef 8 "lead" "" ""]; [mkRef 8 "other" "" ""; mkRef 4 "" "a" "b2"]].

Definition wit_fetch : Resolver := fun ref =>
  if String.eqb ref "a" then inr [x0a] else if String.eqb ref "b1" then inr [x0b] else if String.eqb ref "b2" then inr [x0c]
  else if String.eqb ref "lead" then inr [x0d] else if String.eqb ref "other" then inr [x0e] else inl "not found".

Definition wit_state : cstate objects := mkC {[ 1%positive := KCtx ]} 2 [] {[ 1%positive := [] ]}.

Lemma wit_models : models (Val := bytes) {[ 1%positive := (KCtx, []) ]} wit_state.
Proof.
  split; cbn.
  - intros p k v Hp. apply lookup_singleton_Some in Hp as [<- [= <- <-]]. by rewrite !lookup_singleton_eq.
  - intros p Hp. apply lookup_singleton_ne. lia.
Qed.

#[local] Existing Instances ascending sorted_range.

Lemma lazy_is_eager_witness :
  (combineEvalSumPerIndexLazy (CgoCore.H 1) [[x05]; [x06]] wit_refs wit_fetch wit_state).2 =
    inr [x00; x0a; x0b; x06; x0a; x0c; x0d; x06; x0e] /\
  (combineEvalSumIncrementalLazy (CgoCore.H 1) [[x05]; [x06]] ["lead"; "other"] (Some wit_fetch) wit_state).2 = inr [x00; x0d; x06; x0e].
Proof.
  destruct (lazy_is_eager (CgoCore.H 1) ([] : bytes) [[x05]; [x06]] wit_state [[x0d]; [x0e]] ["lead"; "other"] wit_fetch wit_keys wit_refs wit_models)
    as (_ & Hw & _ & Hi); [done|done|by repeat constructor|by repeat constructor|].
  split.
  - revert Hi. generalize (combineEvalSumPerIndexLazy (CgoCore.H 1) [[x05]; [x06]] wit_refs wit_fetch wit_state).2. intros [e|b]; vm_compute; congruence.
  - revert Hw. generalize (combineEvalSumIncrementalLazy (CgoCore.H 1) [[x05]; [x06]] ["lead"; "other"] (Some wit_fetch) wit_state).2.
    intros [e|b]; vm_compute; congruence.
Defined.
End witness.
End CgoValues.
