(* ===== verification/ServiceTriggers.v ===== *)
(** * Session triggers of the example services
    ([examples/*/cmd/session-service/main.go])

    Each service wraps a [ManualAdminTrigger]: the admin's attributes are laid
    over the keys the pipeline needs, hex strings become bytes, the session is
    begun, and it is walked to the state that takes the first messages. *)

From Stdlib Require Import Ascii.
From S2P Require Import Prelude Sha256 Float64 Lineage LineageStore PhaseTypes Compose ComposeTheorems Runner RunnerInvariant RunnerTheorems Defaults PipelineSpec Collecting Transport Service HelperClient HelperPhases SealedBid RideShare CohortRanking Anon Voting BoundCheck BoundedAdmission CgoKeys.
Import Lineage LineageStore PhaseTypes Compose ComposeTheorems Runner RunnerInvariant RunnerTheorems Defaults PipelineSpec Collecting Transport Service.

#[local] Open Scope Z_scope.
#[local] Open Scope go_scope.

Module ServiceTriggers.

(** ** Environment variables *)

(** [os.Getenv], the empty string when a variable is not set. *)
Abbreviation Environ := (string -> string).

Definition getEnv (environ : Environ) (key def : string) : string :=
  let v := environ key in if String.eqb v "" then def else v.

(** [strconv.Atoi], its error dropped: an optional sign and decimal digits; a
    value out of range is the nearest [int], even before a character that is no
    digit; a malformed one is zero. *)
Fixpoint digits (acc : Z) (s : string) : option Z :=
  match s with
  | EmptyString => Some acc
  | String c s' =>
      let n := Z.of_nat (Ascii.nat_of_ascii c) in
      if (48 <=? n) && (n <=? 57) then
        let acc := acc * 10 + (n - 48) in
        if 2 ^ 64 <=? acc then Some (2 ^ 64 - 1) else digits acc s'
      else None
  end.

Definition natural (s : string) : option Z := if String.eqb s "" then None else digits 0 s.

Definition Atoi (s : string) : Z :=
  let signed :=
    match s with
    | String "-"%char s' => Z.opp <$> natural s'
    | String "+"%char s' => natural s'
    | _ => natural s
    end in
  match signed with
  | None => 0
  | Some n => Z.max (- 2 ^ 63) (Z.min (2 ^ 63 - 1) n)
  end.

Definition cryptoCtx (depth ringDim : Z) : list (string * any) :=
  [("depth", VInt depth); ("ring_dim", VInt ringDim); ("scaling_mod_size", VInt 50)].

(** ** Attributes *)

(** [for k, v := range attrs { canonical[k] = v }]. *)
Definition overlay `{GoRange} (canonical attrs : gmap string any) : gmap string any :=
  foldl (fun m e => <[e.1 := e.2]> m) canonical (range_of attrs).

(** Non-empty strings at the listed keys become bytes; the auction and the
    ride-share triggers have the same loop inline. *)
Fixpoint decodeHexAttrs (attrs : gmap string any) (keys : list string) : gerror + gmap string any :=
  match keys with
  | [] => inr attrs
  | key :: keys' =>
      match attrs !! key with
      | Some (VString s) =>
          if String.eqb s "" then decodeHexAttrs attrs keys'
          else match hex_decode s with
          | None => inl (Errorf "decode %s as hex: %w" [key] [])
          | Some decoded => decodeHexAttrs (<[key := VBytes decoded]> attrs) keys'
          end
      | _ => decodeHexAttrs attrs keys'
      end
  end.

Fixpoint assign_roles (i : nat) (participants : list string) (roles : gmap string string) : gmap string string :=
  match participants with
  | [] => roles
  | p :: ps => assign_roles (S i) ps (<[p := if (i =? 0)%nat then "rider" else "driver"]> roles)
  end.

Definition defaultRoles (participants : list string) : gmap string string := assign_roles 0 participants ∅.

(** One key of the admission trigger: [nil] unless it is a non-empty string. *)
Definition hexAttr (attrs : gmap string any) (key : string) : gerror + bytes :=
  match attrs !! key with
  | Some (VString s) =>
      if String.eqb s "" then inr []
      else match hex_decode s with
      | None => inl (Errorf ("decode " +:+ key +:+ " hex: %w") [] [])
      | Some decoded => inr decoded
      end
  | _ => inr []
  end.

Definition attrDim `{GoConv} (attrs : gmap string any) (dim : Z) : Z :=
  match attrs !! "dim" with
  | Some (VInt n) => n
  | Some (VFloat64 f) => f64_int f
  | _ => dim
  end.

(** ** Per-session cryptography of an admission *)

(** What [fhecalib.NewContextHandle] and [cgo.FuseCKKSPartialsForContract] give
    a session: a handle and a fuse over its parameters. *)
Class SessionCrypto := {
  context_handle : HelperClient.ContractParams -> bytes -> bytes -> bytes -> string;
  contract_fuse : CgoKeys.ContractParams -> list bytes -> Z -> gerror + list float64
}.

(** Handle and fuse, or [nil]; the outer [None] is a call that never returns. *)
Definition session_crypto : Type :=
  option (gerror + option (string * (list bytes -> Z -> gerror + list float64))).

(** With the openfhe build tag. *)
Definition BuildSessionCrypto `{SessionCrypto} (ringDim depth dim : Z) (jointPK evalMultFinal evalSumFinal : bytes)
    : session_crypto :=
  (fun params : CgoKeys.ContractParams =>
     let params := CgoKeys.mkContract (wrap32u ringDim) (CgoKeys.ScalingFactor params) (wrap32u depth)
       (CgoKeys.MinimalRotationKeys params) (CgoKeys.ProfileDim params) (CgoKeys.PayloadSlotCount params)
       (CgoKeys.EvalSumOnlyRotationKeys params) in
     let hc := HelperClient.mkParams "" (CgoKeys.RingDim params) f64_zero 50 (CgoKeys.Depth params) in
     inr (Some (context_handle hc evalMultFinal evalSumFinal jointPK, contract_fuse params)))
  <$> CgoKeys.DefaultContractParams dim 0.

(** Without it. *)
Definition BuildSessionCrypto_stub (ringDim depth dim : Z) (jointPK evalMultFinal evalSumFinal : bytes) : session_crypto :=
  Some (inr None).

(** ** The triggers *)

Section triggers.
Context {St : Type} `{HStore : Store St} `{HClock : Clock} `{HRange : GoRange} `{HFmt : GoFmt}
  `{HWire : Wire} `{HConv : GoConv}.
Implicit Types s : Service St.

(** [AdvanceToState], its error wrapped. *)
Definition advance_service (wrap : gerror -> gerror) s (sid : string) (target : PhaseTypes.SessionState) : Service St * result unit :=
  let '(r, res) := AdvanceToState (s_runner s) sid target in
  (s <| s_runner := r |>, match res with Bad e => Bad (wrap e) | _ => res end).

(** [inner.Start], then the walk to [target]. *)
Definition startAt (wrap : gerror -> gerror) s now sid participants canonical (target : PhaseTypes.SessionState)
    : Service St * result unit :=
  match Start s now sid participants canonical with
  | (s', Good _) => advance_service wrap s' sid target
  | out => out
  end.

(** Sealed-bid auction. *)
Definition auctionTrigger (contract : list (string * any)) : SessionTrigger St := fun s now sid participants attrs =>
  let canonical := overlay
    (list_to_map [(SealedBid.CtxAuctionParticipants, VStrings participants);
                  (SealedBid.CtxAuctionCryptoContract, VMap contract)]) attrs in
  match decodeHexAttrs canonical [SealedBid.CtxAuctionCollectivePublicKey; SealedBid.CtxAuctionEvalKeys] with
  | inl err => (s, Bad err)
  | inr canonical => startAt id s now sid participants canonical SealedBid.StateAuctionLocked
  end.

(** Ride sharing. *)
Definition rideShareTrigger (contract : list (string * any)) : SessionTrigger St := fun s now sid participants attrs =>
  if zlen participants <? 2 then
    (s, Bad (Errorf "ride-share session needs at least 2 participants (1 rider + 1 driver), got %d"
               [pretty (zlen participants)] []))
  else
    let canonical := overlay
      (list_to_map [(RideShare.CtxRideParticipants, VStrings participants);
                    (RideShare.CtxRoles, BoundedAdmission.inject_results (defaultRoles participants));
                    (RideShare.CtxRideContract, VMap contract)]) attrs in
    match decodeHexAttrs canonical [RideShare.CtxCollectivePK; RideShare.CtxRideEvalKeys] with
    | inl err => (s, Bad err)
    | inr canonical => startAt id s now sid participants canonical RideShare.StateKeygen
    end.

(** Cohort formation and the weekly ranking. *)
Definition ranking_canonical (contract : list (string * any)) (participants : list string) (attrs : gmap string any)
    : gerror + gmap string any :=
  decodeHexAttrs
    (overlay (list_to_map [(CohortRanking.CtxRankingParticipants, VStrings participants);
                           (CohortRanking.CtxRankingContract, VMap contract)]) attrs)
    [CohortRanking.CtxRankingPK; CohortRanking.CtxRankingEvalKeys].

Definition formationTrigger (contract : list (string * any)) : SessionTrigger St := fun s now sid participants attrs =>
  match ranking_canonical contract participants attrs with
  | inl err => (s, Bad err)
  | inr canonical => startAt id s now sid participants canonical CohortRanking.StateCohortKeygen
  end.

Definition weekly_required : list string :=
  [CohortRanking.CtxRankingPK; CohortRanking.CtxRankingShares; CohortRanking.CtxRankingEvalKeys].

Definition weeklyTrigger (contract : list (string * any)) : SessionTrigger St := fun s now sid participants attrs =>
  match find (fun key => negb (is_some (attrs !! key))) weekly_required with
  | Some key =>
      (s, Bad (Errorf "weekly trigger: missing required attr %q (load from formation output)" [key] []))
  | None =>
      match ranking_canonical contract participants attrs with
      | inl err => (s, Bad err)
      | inr canonical =>
          startAt (fun err => Errorf "weekly trigger: advance to bidding: %w" [] [err]) s now sid participants canonical
            CohortRanking.StateRankingBidding
      end
  end.

(** Voting. *)
Definition votingTrigger : SessionTrigger St := fun s now sid participants attrs =>
  if zlen participants <? 2 then
    (s, Bad (Errorf "voting needs at least 2 participants, got %d" [pretty (zlen participants)] []))
  else
    let canonical := overlay
      (list_to_map [(Voting.CtxVoteParticipants, VStrings participants); (CtxParticipants, VStrings participants);
                    (Anon.CtxAnonParticipants, VStrings participants)]) attrs in
    startAt id s now sid participants canonical StateGossip.

(** Bounded admission; only the keys it reads of the attributes reach the
    session. *)
Definition admission_canonical (participants : list string) (dim : Z) (jointPK evalMultFinal : bytes) : gmap string any :=
  let canonical : gmap string any :=
    list_to_map [(CtxParticipants, VStrings participants); (BoundCheck.CtxInputDim, VInt dim)] in
  let canonical := if 0 <? zlen jointPK then <[BoundCheck.CtxJointPublicKey := VBytes jointPK]> canonical else canonical in
  if 0 <? zlen evalMultFinal then <[BoundCheck.CtxEvalKeyBundle := VBytes evalMultFinal]> canonical else canonical.

(** The context entries of the session's handle and fuse. *)
Definition inject_crypto (s : Service St) (sid : string) (built : session_crypto) : Service St * result unit :=
  match sessionContext (s_runner s) sid, built with
  | None, _ => (s, Bad (Errorf "session context not found after BeginSession" [] []))
  | _, None => (s, Unwind "BuildSessionCrypto does not return")
  | _, Some (inl err) => (s, Bad (Errorf "build session crypto: %w" [] [err]))
  | _, Some (inr None) => (s, Good tt)
  | _, Some (inr (Some (handle, fuse))) =>
      (s <| s_runner := seed_all (s_runner s) sid
              [(BoundCheck.CtxBoundCheckHandle, VHandle handle); (BoundCheck.CtxBoundCheckFuse, VFuse fuse)] |>, Good tt)
  end.

Definition admissionTrigger (build : Z -> Z -> Z -> bytes -> bytes -> bytes -> session_crypto) (ringDim depth inDim : Z)
    : SessionTrigger St := fun s now sid participants attrs =>
  match hexAttr attrs "collective_pk", hexAttr attrs "eval_mult_final", hexAttr attrs "eval_sum_final" with
  | inl err, _, _ | inr _, inl err, _ | inr _, inr _, inl err => (s, Bad err)
  | inr jointPK, inr evalMultFinal, inr evalSumFinal =>
      let dim := attrDim attrs inDim in
      match Start s now sid participants (admission_canonical participants dim jointPK evalMultFinal) with
      | (s', Good _) =>
          let '(s'', res) :=
            if (0 <? zlen jointPK) && (0 <? zlen evalMultFinal) && (0 <? zlen evalSumFinal)
            then inject_crypto s' sid (build ringDim depth dim jointPK evalMultFinal evalSumFinal)
            else (s', Good tt) in
          match res with
          | Good _ => advance_service id s'' sid BoundedAdmission.StateAdmissionSubmitting
          | _ => (s'', res)
          end
      | out => out
      end
  end.
End triggers.

(** ** Attributes are laid over the defaults *)

Lemma fold_inserts {V} (l : list (string * V)) (m : gmap string V) :
  NoDup l.*1 -> foldl (fun m e => <[e.1 := e.2]> m) m l = list_to_map l ∪ m.
Proof.
  revert m. induction l as [|[k v] l IH]; intros m Hn; cbn in *; [by rewrite (left_id_L ∅ (∪))|].
  apply NoDup_cons in Hn as [Hk Hn]. rewrite IH by done. apply map_eq. intros i.
  rewrite !lookup_union. destruct (decide (i = k)) as [->|Hi].
  - rewrite !lookup_insert_eq, not_elem_of_list_to_map_1 by done. by destruct (m !! k).
  - by rewrite !lookup_insert_ne by done.
Qed.

Section attributes.
Context `{HRange : GoRange}.

Lemma range_of_map {V} (m : gmap string V) : list_to_map (range_of m) = m /\ NoDup (range_of m).*1.
Proof.
  assert (Hn : NoDup (range_of m).*1) by (rewrite range_of_perm; apply NoDup_fst_map_to_list).
  split; [|done]. rewrite (list_to_map_proper (M := gmap string) _ (map_to_list m)); [apply list_to_map_to_list|done|apply range_of_perm].
Qed.

(** Whatever order the attributes are visited in. *)
Lemma overlay_union canonical attrs : overlay canonical attrs = attrs ∪ canonical.
Proof. unfold overlay. destruct (range_of_map attrs) as [Hl Hn]. by rewrite fold_inserts, Hl. Qed.

(** A context with a map of entries set on it. *)
Definition seeded (c : SessionContext) (entries : gmap string any) : SessionContext :=
  c <| values := entries ∪ values c |>.

Lemma seeded_range c entries : foldl (fun c e => ctx_Set c e.1 e.2) c (range_of entries) = seeded c entries.
Proof.
  destruct (range_of_map entries) as [Hl Hn]. unfold seeded. rewrite <- Hl at 2. rewrite <- fold_inserts by done.
  generalize (range_of entries). intros l. revert c. induction l as [|e l IH]; intros c; cbn; [by destruct c|].
  rewrite IH. by destruct c.
Qed.

Lemma seeded_get c entries key : values c = ∅ -> ctx_Get (seeded c entries) key = entries !! key.
Proof. intros Hc. unfold ctx_Get, seeded. cbn. by rewrite Hc, (right_id_L ∅ (∪)). Qed.

(** Decoding touches the listed keys alone, and leaves anything but a
    non-empty string. *)
Lemma decodeHexAttrs_other attrs keys attrs' key :
  decodeHexAttrs attrs keys = inr attrs' -> key ∉ keys -> attrs' !! key = attrs !! key.
Proof.
  revert attrs. induction keys as [|k keys IH]; intros attrs; cbn [decodeHexAttrs]; [by intros [= <-]|].
  intros Hd [Hk Hks]%not_elem_of_cons.
  destruct (attrs !! k) as [[]|]; eauto. destruct (String.eqb _ ""); [eauto|]. destruct (hex_decode _); [|done].
  rewrite (IH _ Hd Hks). by rewrite lookup_insert_ne.
Qed.

Lemma decodeHexAttrs_absent attrs keys :
  (forall key, key ∈ keys -> attrs !! key = None) -> decodeHexAttrs attrs keys = inr attrs.
Proof.
  intros Hk. induction keys as [|k keys IH]; [done|]. cbn [decodeHexAttrs]. rewrite (Hk k) by (by left).
  apply IH. intros key Hin. apply Hk. by right.
Qed.
End attributes.

(** ** The triggers keep the trigger's promise *)

#[export] Hint Opaque Start auctionTrigger rideShareTrigger formationTrigger weeklyTrigger votingTrigger admissionTrigger
  : typeclass_instances.

Section lawful.
Context {St : Type} `{HStore : Store St} `{HClock : Clock} `{HRange : GoRange} `{HFmt : GoFmt}
  `{HWire : Wire} `{HConv : GoConv}.
Implicit Types s : Service St.

Lemma advance_follows P wrap s s' sid target :
  follows P s s' -> follows P s (advance_service wrap s' sid target).1.
Proof.
  intros Hf. unfold advance_service. pose proof (follows_snoc P s s' (RAdvance sid target) I Hf) as Hs.
  cbn [runner_step] in Hs. by destruct (AdvanceToState (s_runner s') sid target).
Qed.

Lemma startAt_follows P wrap s now sid participants canonical target :
  hub_ok P (s_hub s) -> follows P s (startAt wrap s now sid participants canonical target).1.
Proof.
  intros Hh. unfold startAt. pose proof (Start_lawful P s now sid participants canonical Hh) as Hf.
  destruct (Start s now sid participants canonical) as [s' [u|e|m]]; [by apply advance_follows|exact Hf..].
Qed.

Lemma inject_follows P s s' sid built : follows P s s' -> follows P s (inject_crypto s' sid built).1.
Proof.
  intros Hf. unfold inject_crypto. destruct (sessionContext _ sid), built as [[err|[[handle fuse]|]]|]; try exact Hf.
  by apply seeds_follow.
Qed.

#[export] Instance auctionTrigger_lawful contract : LawfulTrigger (St := St) (auctionTrigger contract).
Proof.
  intros P s now sid participants attrs Hh. unfold auctionTrigger.
  destruct (decodeHexAttrs _ _); [by apply follows_refl|by apply startAt_follows].
Qed.

#[export] Instance rideShareTrigger_lawful contract : LawfulTrigger (St := St) (rideShareTrigger contract).
Proof.
  intros P s now sid participants attrs Hh. unfold rideShareTrigger. destruct (_ <? 2); [by apply follows_refl|].
  destruct (decodeHexAttrs _ _); [by apply follows_refl|by apply startAt_follows].
Qed.

#[export] Instance formationTrigger_lawful contract : LawfulTrigger (St := St) (formationTrigger contract).
Proof.
  intros P s now sid participants attrs Hh. unfold formationTrigger.
  destruct (ranking_canonical _ _ _); [by apply follows_refl|by apply startAt_follows].
Qed.

#[export] Instance weeklyTrigger_lawful contract : LawfulTrigger (St := St) (weeklyTrigger contract).
Proof.
  intros P s now sid participants attrs Hh. unfold weeklyTrigger. destruct (find _ _); [by apply follows_refl|].
  destruct (ranking_canonical _ _ _); [by apply follows_refl|by apply startAt_follows].
Qed.

#[export] Instance votingTrigger_lawful : LawfulTrigger (St := St) votingTrigger.
Proof.
  intros P s now sid participants attrs Hh. unfold votingTrigger.
  destruct (_ <? 2); [by apply follows_refl|by apply startAt_follows].
Qed.

#[export] Instance admissionTrigger_lawful build ringDim depth inDim :
  LawfulTrigger (St := St) (admissionTrigger build ringDim depth inDim).
Proof.
  intros P s now sid participants attrs Hh. unfold admissionTrigger.
  destruct (hexAttr attrs "collective_pk"); [by apply follows_refl|].
  destruct (hexAttr attrs "eval_mult_final"); [by apply follows_refl|].
  destruct (hexAttr attrs "eval_sum_final"); [by apply follows_refl|].
  match goal with |- context [Start s now sid participants ?c] =>
    pose proof (Start_lawful P s now sid participants c Hh) as Hf; destruct (Start s now sid participants c) as [s' [u|e|m]] end;
    [|exact Hf..].
  match goal with |- context [inject_crypto s' sid ?b] => pose proof (inject_follows P s s' sid b Hf) as Hi end.
  destruct (_ && _); [|by apply advance_follows].
  destruct (inject_crypto _ _ _) as [s'' [u'|e|m]]; [by apply advance_follows|exact Hi..].
Qed.
End lawful.
End ServiceTriggers.
