(* ===== verification/SessionServices.v ===== *)
(** * The example session services
    ([examples/*/cmd/session-service/main.go])

    What each [main] builds from its environment: a pipeline, a trigger and,
    for voting and bounded admission, a hook that runs after every dispatched
    frame.  The voting hook relays the onion batch along its peelers; the
    admission hook sends the bound-check challenges.  Starting the helper
    process and generating a signing key are parameters; a [log.Fatalf] is a
    service that does not run. *)

From Stdlib Require Import SpecFloat.
From S2P Require Import Prelude Sha256 Base64 Float64 Lineage LineageStore PhaseTypes Compose ComposeTheorems Runner RunnerInvariant RunnerTheorems Defaults PipelineSpec Collecting Transport Service HelperClient HelperPhases SealedBid RideShare CohortRanking Onion Anon Voting BoundCheck BoundedAdmission ServiceTriggers.
Import Base64 Lineage LineageStore PhaseTypes Compose Runner Defaults PipelineSpec Collecting Transport Service HelperClient HelperPhases ServiceTriggers.

#[local] Open Scope Z_scope.
#[local] Open Scope go_scope.

Module SessionServices.

(** A sign approximation mapped to [0, 1], on bids in [-1, 1]. *)
Definition sharpening : EvalPolyParams :=
  mkPoly [f64_lit 5 1; f64_lit 75 2; f64_zero; SFopp (f64_lit 25 2)] (SFopp f64_one) f64_one.

(** ** The bridge phase of the weekly pipeline *)

Definition stateWeeklySeeded : PhaseTypes.SessionState := "WEEKLY_SEEDED".

Definition weeklyKeySeeder : Phase := {|
  Name := "weekly-key-seeder"; Lifetime := LifetimePerCohort; RunsAt := RunsAtInline;
  EntryState := stateWeeklySeeded; ExitState := CohortRanking.StateRankingInviting; InternalStates := [];
  ConsumedMessageTypes := []; Requires := schema [];
  Provides := schema
    [(CohortRanking.CtxRankingParticipants, gives "[]string");
     (CohortRanking.CtxRankingPK, gives_with "[]byte" [("topology", VString "preshared")]);
     (CohortRanking.CtxRankingShares, gives_with "map[string][]byte" [("topology", VString "preshared")]);
     (CohortRanking.CtxRankingEvalKeys, gives "OpenFHEEvalKeys");
     (CohortRanking.CtxRankingContract, gives_with "OpenFHEContract" [("depth", VInt 30); ("ring_dim", VInt 16384)])];
  Enter := ok; OnMessage := ignore; CheckComplete := Ret true; Exit := ok |}.

(** ** The onion relay *)

(** [onionBatchPayload] in JSON; [None] is an error of [json.Unmarshal]. *)
Class BatchJSON := {
  decode_batch : bytes -> option (list string);
  encode_batch : list string -> bytes
}.

(** Base64 onions survive the wire. *)
Class BatchJSONLaws `{BatchJSON} : Prop :=
  decode_encode_batch : forall onions : list bytes,
    decode_batch (encode_batch (b64_encode <$> onions)) = Some (b64_encode <$> onions).

Section relay.
Context {St : Type} `{HBatch : BatchJSON}.
Implicit Types r : SessionRunner St.

(** The first onion of one participant's batch. *)
Definition first_onion (bucket : gmap string bytes) (p : string) : gerror + string :=
  match bucket !! p with
  | None => inl (Errorf "missing onion batch from %s" [p] [])
  | Some raw =>
      match decode_batch raw with
      | None => inl (Errorf "decode batch from %s: %w" [p] [])
      | Some [] => inl (Errorf "empty onion list from %s" [p] [])
      | Some (onion :: _) =>
          match b64_decode onion with
          | None => inl (Errorf "invalid base64 from %s: %w" [p] [])
          | Some _ => inr onion
          end
      end
  end.

Fixpoint collect_onions (participants : list string) (bucket : gmap string bytes) : gerror + list string :=
  match participants with
  | [] => inr []
  | p :: ps =>
      match first_onion bucket p with
      | inl err => inl err
      | inr onion =>
          match collect_onions ps bucket with
          | inl err => inl err
          | inr onions => inr (onion :: onions)
          end
      end
  end.

Definition assembleBatch (participants : list string) (bucket : gmap string bytes) : gerror + bytes :=
  match collect_onions participants bucket with
  | inl err => inl err
  | inr onions => inr (encode_batch onions)
  end.

Definition peel_forward (sid : string) (payload : bytes) : WSMessage :=
  mkWSMessage "" Anon.MsgPeelForward sid 0 payload "" None.

(** What the relay sends after a frame; the hub is set before the service
    runs. *)
Definition peelRelayIfNeeded r (sid msgType from : string) (payload : bytes) : list outbound :=
  match sessionContext r sid with
  | None => []
  | Some c =>
      match TryGet as_strings c Anon.CtxAnonParticipants with
      | None | Some [] => []
      | Some ((first :: _) as participants) =>
          if String.eqb msgType Anon.MsgOnionBatch then
            let bucket := Anon.AccumulatedOnions c in
            if msize bucket <? zlen participants then []
            else match assembleBatch participants bucket with
            | inl _ => []
            | inr assembled => [OutTo first (peel_forward sid assembled)]
            end
          else if String.eqb msgType Anon.MsgPeelForward then
            match list_find (fun p => p = from) participants with
            | None => []
            | Some (peelerIdx, _) =>
                match participants !! S peelerIdx with
                | None => []
                | Some nextPeer => [OutTo nextPeer (peel_forward sid payload)]
                end
            end
          else []
      end
  end.

Definition relayHook : PostDispatchHook St := fun r from msg _ =>
  ([], peelRelayIfNeeded r (SessionID msg) (Type_ msg) from (Payload msg)).
End relay.

(** ** The challenges *)

Definition MsgChallenge : string := "bound_check.challenge".
Definition challenges_sent : string := "_admission_challenges_sent".

(** [json.Marshal] of the challenge: each party's check and commitment in hex. *)
Class ChallengeJSON := encode_challenge : gmap string string -> gmap string string -> option bytes.

Section challenges.
Context {St : Type} `{HChallenge : ChallengeJSON}.
Implicit Types r : SessionRunner St.

(** The sentinel it sets, and what it sends. *)
Definition challengeUnicastIfNeeded r (sid : string) : list (string * any) * list outbound :=
  match sessionContext r sid with
  | None => ([], [])
  | Some c =>
      if ctx_Has c challenges_sent then ([], [])
      else
        let checks := default ∅ (TryGet as_bucket c BoundCheck.CtxBoundCheckCiphers) in
        if msize checks =? 0 then ([], [])
        else
          let commitments := default ∅ (TryGet as_bucket c BoundCheck.CtxBoundCheckCommitments) in
          let participants := default [] (TryGet as_strings c CtxParticipants) in
          match encode_challenge (hex_encode <$> checks) (hex_encode <$> commitments) with
          | None => ([], [])
          | Some payload =>
              ([(challenges_sent, VBool true)],
               (fun p => OutTo p (mkWSMessage "" MsgChallenge sid 0 payload "" None)) <$> participants)
          end
  end.

Definition challengeHook : PostDispatchHook St := fun r from msg _ => challengeUnicastIfNeeded r (SessionID msg).
End challenges.

(** ** The services *)

(** A service that runs, with its trigger and hook. *)
Record running (St : Type) := mkRunning {
  rn_service : Service St;
  rn_trigger : SessionTrigger St;
  rn_hook : option (PostDispatchHook St)
}.
Arguments mkRunning {St}.
Arguments rn_service {St} r.
Arguments rn_trigger {St} r.
Arguments rn_hook {St} r.

Inductive fatal := FatalBuild (err : gerror) | FatalService (err : ConfigError).

Definition service_config {St} (environ : Environ) (name inviteType : string) (runner : SessionRunner St) : Config St :=
  let secret := bytes_of_string (environ "ARES_WS_SECRET") in
  mkConfig (":" +:+ getEnv environ "SESSION_PORT" "8000") name secret (zlen secret =? 0) (Some runner) inviteType None [] 0.

(** A runner built or not, then [NewService]. *)
Definition boot {St} (environ : Environ) (name inviteType : string) (runner : gerror + SessionRunner St)
    (trigger : SessionTrigger St) (hook : option (PostDispatchHook St)) : fatal + running St :=
  match runner with
  | inl err => inl (FatalBuild err)
  | inr r =>
      match NewService (environ "ARES_ENV") (service_config environ name inviteType r) with
      | inl err => inl (FatalService err)
      | inr s => inr (mkRunning s trigger hook)
      end
  end.

Definition env_int (environ : Environ) (key def : string) : Z := Atoi (getEnv environ key def).

Section mains.
Context {St : Type} `{HStore : Store St} `{HClock : Clock} `{HRange : GoRange} `{HFmt : GoFmt}
  `{HWire : Wire} `{HConv : GoConv} `{HForm : FormJSON} `{HChallenge : ChallengeJSON}.
Context (environ : Environ) (startHelper : string -> gerror + Helper).

(** The helper of [ARES_HELPER_BINARY], [nil] when it is not set. *)
Definition helper_of (helperPath : string) : gerror + option Helper :=
  if String.eqb helperPath "" then inr None
  else match startHelper helperPath with
  | inl err => inl err
  | inr c => inr (Some c)
  end.

Definition buildAuctionRunner (helperPath : string) : gerror + SessionRunner St :=
  match helper_of helperPath with
  | inl err => inl err
  | inr None => SealedBid.Pipeline
  | inr (Some client) => SealedBid.PipelineWithHelper client sharpening
  end.

Definition auction_main : fatal + running St :=
  boot environ "auction-session-service" "auction.invitation" (buildAuctionRunner (environ "ARES_HELPER_BINARY"))
    (auctionTrigger (cryptoCtx (env_int environ "AUCTION_CRYPTO_DEPTH" "12") (env_int environ "AUCTION_RING_DIM" "2048"))) None.

Definition buildRideShareRunner (helperPath : string) : gerror + SessionRunner St :=
  match helper_of helperPath with
  | inl err => inl err
  | inr None => RideShare.Pipeline
  | inr (Some client) => RideShare.PipelineWithHelper client sharpening
  end.

Definition rideshare_main : fatal + running St :=
  boot environ "rideshare-session-service" "ride.invitation" (buildRideShareRunner (environ "ARES_HELPER_BINARY"))
    (rideShareTrigger (cryptoCtx (env_int environ "RIDESHARE_CRYPTO_DEPTH" "12") (env_int environ "RIDESHARE_RING_DIM" "2048"))) None.

(** The weekly pipeline: only the scoring phase gets the helper. *)
Definition served_weekly_phases (helper : option Helper) : list Phase :=
  [weeklyKeySeeder; CohortRanking.PhaseRankingInvitation; CohortRanking.PhasePreSharedKeyLookup;
   CohortRanking.PhaseSubmitRating; CohortRanking.PhaseArgmaxScoring ((fun h => (h, sharpening)) <$> helper);
   CohortRanking.PhaseThresholdDecrypt None; CohortRanking.PhaseSettleRanking].

Definition buildRunner (mode : string) (depth ringDim : Z) (helper : option Helper)
    : gerror + (SessionRunner St * SessionTrigger St * string) :=
  let contract := cryptoCtx depth ringDim in
  if String.eqb mode "formation" then
    match match helper with
          | Some h => CohortRanking.FormationPipelineWithHelper h
          | None => CohortRanking.FormationPipeline
          end with
    | inl err => inl err
    | inr runner => inr (runner, formationTrigger contract, "cohort.formation.invitation")
    end
  else if String.eqb mode "weekly" then
    match Compose (served_weekly_phases helper) with
    | inl err => inl (Errorf "build weekly pipeline: %w" [] [err])
    | inr runner => inr (runner, weeklyTrigger contract, "ranking.invitation")
    end
  else inl (Errorf "unknown COHORT_MODE %q (want formation|weekly)" [mode] []).

Definition cohort_main : fatal + running St :=
  let mode := getEnv environ "COHORT_MODE" "formation" in
  match helper_of (environ "ARES_HELPER_BINARY") with
  | inl err => inl (FatalBuild err)
  | inr helper =>
      match buildRunner mode (env_int environ "COHORT_CRYPTO_DEPTH" "10") (env_int environ "COHORT_RING_DIM" "2048") helper with
      | inl err => inl (FatalBuild err)
      | inr (runner, trigger, inviteType) =>
          boot environ ("cohort-" +:+ mode +:+ "-service") inviteType (inr runner) trigger None
      end
  end.

(** [build] is [BuildSessionCrypto] of the build that is run. *)
Definition admission_main `{BoundCheck.ContextHandles} (decode : bytes -> option (gmap string bytes))
    (build : Z -> Z -> Z -> bytes -> bytes -> bytes -> session_crypto) : fatal + running St :=
  boot environ "bounded-admission-session-service" "admission.invitation" (BoundedAdmission.PipelineWithCrypto decode)
    (admissionTrigger build (env_int environ "ADMISSION_RING_DIM" "16384") (env_int environ "ADMISSION_CRYPTO_DEPTH" "8")
       (env_int environ "ADMISSION_DIM" "8")) (Some challengeHook).
End mains.

(** The voting service; [newSigner] is [sign.NewEd25519Signer]. *)
Definition voting_main `{HClock : Clock} `{HRange : GoRange} `{HFmt : GoFmt} `{HWire : Wire} `{HVote : Voting.VoteJSON}
    `{HSlot : Anon.SlotJSON} `{HBatch : BatchJSON} (environ : Environ) (newSigner : gerror + Signer)
    : fatal + running (InMemoryStore + InMemoryStore) :=
  match newSigner with
  | inl err => inl (FatalBuild err)
  | inr signer =>
      boot environ "voting-session-service" "vote.invitation"
        (Voting.PipelineWithShuffle signer {[ Ed25519Algorithm := signer ]}) votingTrigger (Some relayHook)
  end.
End SessionServices.
