(* ===== verification/ServedSessions.v ===== *)
(** * Sessions over the wire

    The services against the pipeline specification: what an admin's POST and
    a sequence of delivered frames do to one session, whatever else the service
    has done before.  With it, a sealed-bid auction from its POST to its
    settlement, and the weekly ranking that always settles on its stub. *)

From S2P Require Import Prelude Sha256 Float64 Lineage LineageStore PhaseTypes Compose ComposeTheorems Runner RunnerInvariant RunnerTheorems Defaults PipelineSpec Collecting Transport Service HelperClient HelperPhases SealedBid CohortRanking ServiceTriggers SessionServices.
Import Sha256 Lineage LineageStore PhaseTypes Compose ComposeTheorems Runner RunnerInvariant RunnerTheorems Defaults PipelineSpec Collecting Transport Service HelperClient HelperPhases ServiceTriggers SessionServices.

#[local] Open Scope Z_scope.
#[local] Open Scope go_scope.

Module ServedSessions.

(** ** What hooks send *)

Section emissions.
Context {St : Type} `{HStore : Store St} `{HClock : Clock} `{HRange : GoRange} `{HFmt : GoFmt} `{HErr : GoErrors} `{HWire : Wire}.
Implicit Types s : Service St.

(** What the hook sends when a frame is handled. *)
Definition emitted (hook : option (PostDispatchHook St)) s (from : string) (msg : WSMessage) : list outbound :=
  if String.eqb (SessionID msg) "" then []
  else
    let '(r, res) :=
      match Transport.Lineage msg with
      | Some n => HandleLineageMessage (s_runner s) (SessionID msg) (Type_ msg) from (Payload msg) (Some n)
      | None => HandleMessage (s_runner s) (SessionID msg) (Type_ msg) from (Payload msg)
      end in
    match res, hook with
    | Unwind _, _ | _, None => []
    | Bad e, Some f => (f r from msg (Some e)).2
    | Good _, Some f => (f r from msg None).2
    end.

(** It is what reaches the hub. *)
Lemma emitted_sent hook s now from msg s' :
  onMessage hook s now from msg = Some s' -> s_hub s' = foldl (emit now) (s_hub s) (emitted hook s from msg).
Proof.
  unfold onMessage, emitted. destruct (String.eqb _ ""); [by intros [= <-]|].
  match goal with |- context [let '(_, _) := ?d in _] => destruct d as [r [b|e|e]] end; [..|done].
  all: destruct hook as [f|]; [|by intros [= <-]]; destruct (f r from msg _) as [sets out]; by intros [= <-].
Qed.

(** The frames an event of the service hands to its handler. *)
Definition svc_emits (hook : option (PostDispatchHook St)) s (o : svc_op) : list outbound :=
  match o with
  | SvcHub o =>
      let '(h, d) := hub_step (s_hub s) o in
      match d with
      | (from, msg) :: _ => emitted hook (s <| s_hub := h |>) from msg
      | [] => []
      end
  | SvcStart _ _ => []
  end.

(** All that the hook sends in a run. *)
Fixpoint svc_emissions (trigger : SessionTrigger St) (hook : option (PostDispatchHook St)) s (ops : list svc_op)
    : list outbound :=
  match ops with
  | [] => []
  | o :: ops' =>
      svc_emits hook s o ++
      match svc_step trigger hook s o with
      | Some s' => svc_emissions trigger hook s' ops'
      | None => []
      end
  end.
End emissions.

(** ** A service on a pipeline *)

Section served.
Context {St : Type} `{HStore : Store St} `{HClock : Clock} `{HRange : GoRange} `{HFmt : GoFmt}
  `{HErr : GoErrors} `{HWire : Wire}.
Context (ps : list Phase) (r0 : SessionRunner St).
Hypothesis Hr0 : Compose ps = inr r0.
Hypothesis Hacyclic : acyclic ps.
Implicit Types (s : Service St) (m : gmap string session).

(** The runner has come from [r0] and holds the sessions [m]. *)
Definition tracks (r : SessionRunner St) m : Prop :=
  exists rops, r = runner_run r0 rops /\ spec_run ps None rops = m.

Lemma tracks_step r m o : tracks r m -> tracks (runner_step r o) (spec_step ps None m o).
Proof.
  intros (rops & -> & <-). exists (rops ++ [o]). unfold runner_run, spec_run. by rewrite !foldl_app.
Qed.

Lemma tracks_represents r m :
  tracks r m -> pipeline_ok ps /\ composed ps r /\ represents ps r m /\ lineageSigner r = None.
Proof.
  intros (rops & -> & <-). destruct (composed_runs ps r0 rops Hr0 Hacyclic) as (Hok & Hc & Hr).
  split_and!; try done. pose proof (Compose_correct (St := St) ps) as Hcc. rewrite Hr0 in Hcc. destruct Hcc as (_ & Hc0 & Hs & Hl).
  destruct (runner_run_represents ps r0 Hok Hacyclic Hc0 rops Hs Hl) as (_ & _ & ->).
  unfold Compose in Hr0. destruct ps; [done|]. destruct (addPhases _ _); [done|]. by injection Hr0 as <-.
Qed.

Lemma tracks_lookup r m sid ss : tracks r m -> m !! sid = Some ss -> sessions r !! sid = Some (tracker_of ss).
Proof. intros Ht Hs. destruct (tracks_represents r m Ht) as (_ & _ & (-> & _) & _). by rewrite lookup_fmap, Hs. Qed.

Lemma tracks_fresh r m sid : tracks r m -> CurrentState r sid = (StateNone, false) -> m !! sid = None.
Proof.
  intros Ht Hn. destruct (m !! sid) as [ss|] eqn:Hs; [|done]. unfold CurrentState in Hn.
  by rewrite (tracks_lookup _ _ sid ss Ht Hs) in Hn.
Qed.

Lemma tracks_seeds r m sid c rest en entries :
  tracks r m -> m !! sid = Some (mkSession c rest en) ->
  tracks (seed_all r sid (range_of entries)) (<[sid := mkSession (seeded c entries) rest en]> m).
Proof.
  rewrite <- seeded_range. unfold seed_all. generalize (range_of entries). intros l. revert r m c.
  induction l as [|[k v] l IH]; intros r m c Ht Hs; cbn [foldl]; [by rewrite insert_id|].
  pose proof (tracks_step r m (RSeed sid k v) Ht) as Ht'. cbn [runner_step spec_step] in Ht'.
  rewrite alter_alt, Hs in Ht'. cbn [s_ctx s_rest s_entered] in Ht'.
  specialize (IH _ _ (ctx_Set c k v) Ht' (lookup_insert_eq _ _ _)). by rewrite insert_insert_eq in IH.
Qed.

(** *** Starting a session *)

Lemma Start_tracks s m now sid participants attrs c rest :
  tracks (s_runner s) m -> sid <> "" -> m !! sid = None -> participants <> [] ->
  s_begin ps None sid "" = Some (mkSession c rest true, Good tt) ->
  exists s', Start s now sid participants attrs = (s', Good tt) /\
    tracks (s_runner s') (<[sid := mkSession (seeded c attrs) rest true]> m).
Proof.
  intros Ht Hsid Hnew Hne Hb. unfold Start.
  destruct (Z.eqb_spec (zlen participants) 0) as [Hz|_]; [by destruct participants|].
  destruct (tracks_represents _ _ Ht) as (Hok & Hc & Hr & Hg).
  rewrite <- Hg in Hb at 1. destruct (BeginSession_good ps _ m sid "" _ Hc Hr Hsid Hnew Hb) as [ctx' Hbegin]. rewrite Hg in Hb.
  pose proof (tracks_step _ _ (RBegin sid "") Ht) as Ht1. cbn [runner_step spec_step] in Ht1.
  rewrite (proj2 (String.eqb_neq sid "") Hsid), Hnew, Hb in Ht1.
  match goal with |- context [BeginSession ?r sid ""] => change r with (s_runner s) end.
  destruct (BeginSession (s_runner s) sid "") as [r res]. cbn [fst snd] in Ht1, Hbegin. subst res.
  pose proof (tracks_seeds _ _ sid c rest true attrs Ht1 (lookup_insert_eq _ _ _)) as Ht2. rewrite insert_insert_eq in Ht2.
  cbn. destruct (String.eqb _ ""); (eexists; split; [reflexivity|exact Ht2]).
Qed.

Lemma advance_tracks wrap s m sid target ss ss' :
  tracks (s_runner s) m -> m !! sid = Some ss -> s_advance sid target ss = (ss', Good tt) ->
  exists s', advance_service wrap s sid target = (s', Good tt) /\ tracks (s_runner s') (<[sid := ss']> m).
Proof.
  intros Ht Hs Ha. unfold advance_service. destruct (tracks_represents _ _ Ht) as (Hok & Hc & Hr & _).
  destruct (AdvanceToState_represents ps Hok Hacyclic (s_runner s) m sid target Hc Hr) as [_ Hres].
  specialize (Hres ss Hs). pose proof (tracks_step _ _ (RAdvance sid target) Ht) as Ht1. cbn [runner_step spec_step] in Ht1.
  rewrite alter_alt, Hs, Ha in Ht1. rewrite Ha in Hres. destruct (AdvanceToState (s_runner s) sid target) as [r res].
  cbn [fst snd] in *. subst res. by eexists.
Qed.

Lemma startAt_tracks wrap s m now sid participants attrs target c rest ss :
  tracks (s_runner s) m -> sid <> "" -> m !! sid = None -> participants <> [] ->
  s_begin ps None sid "" = Some (mkSession c rest true, Good tt) ->
  s_advance sid target (mkSession (seeded c attrs) rest true) = (ss, Good tt) ->
  exists s', startAt wrap s now sid participants attrs target = (s', Good tt) /\ tracks (s_runner s') (<[sid := ss]> m).
Proof.
  intros Ht Hsid Hnew Hne Hb Ha. unfold startAt.
  destruct (Start_tracks s m now sid participants attrs c rest Ht Hsid Hnew Hne Hb) as (s1 & -> & Ht1).
  destruct (advance_tracks wrap s1 _ sid target _ ss Ht1 (lookup_insert_eq _ _ _) Ha) as (s2 & -> & Ht2).
  rewrite insert_insert_eq in Ht2. by eexists.
Qed.

(** *** Delivering frames *)

(** Frames of authenticated senders, in order; no state is left by a panic. *)
Fixpoint deliver (hook : option (PostDispatchHook St)) s (frames : list (Z * string * WSMessage)) : option (Service St) :=
  match frames with
  | [] => Some s
  | (now, from, msg) :: frames' => s' ← onMessage hook s now from msg; deliver hook s' frames'
  end.

Lemma deliver_app hook s frames frames' :
  deliver hook s (frames ++ frames') = s' ← deliver hook s frames; deliver hook s' frames'.
Proof.
  revert s. induction frames as [|[[now from] msg] frames IH]; intros s; [done|]. cbn.
  destruct (onMessage hook s now from msg) as [s'|]; [apply IH|done].
Qed.

(** A frame that carries a message of a session; it may hold a lineage node,
    which a runner without lineage does not look at. *)
Definition carries (sid ty : string) (f : Z * string * WSMessage) (x : string * bytes) : Prop :=
  f.1.2 = x.1 /\ SessionID f.2 = sid /\ Type_ f.2 = ty /\ Payload f.2 = x.2.

Lemma onMessage_tracks s m now from msg sid ss ss' res :
  tracks (s_runner s) m -> sid <> "" -> m !! sid = Some ss -> SessionID msg = sid ->
  s_message ss (Type_ msg) from (Payload msg) = (ss', res) -> (forall e, res <> Unwind e) ->
  exists s', onMessage None s now from msg = Some s' /\ tracks (s_runner s') (<[sid := ss']> m).
Proof.
  intros Ht Hne Hs Hsid Hm Hu. unfold onMessage. rewrite Hsid. apply String.eqb_neq in Hne as ->.
  destruct (tracks_represents _ _ Ht) as (Hok & Hc & Hr & _). pose proof Hr as (_ & Hl & _).
  destruct (HandleMessage_represents ps Hok Hacyclic (s_runner s) m sid (Type_ msg) from (Payload msg) Hc Hr) as [_ Hres].
  specialize (Hres ss Hs). rewrite Hm in Hres.
  pose proof (tracks_step _ _ (RMessage sid (Type_ msg) from (Payload msg)) Ht) as Ht1. cbn [runner_step spec_step] in Ht1.
  rewrite alter_alt, Hs, Hm in Ht1. cbn [fst snd] in *.
  assert (Hd : match Transport.Lineage msg with
    | Some n => HandleLineageMessage (s_runner s) sid (Type_ msg) from (Payload msg) (Some n)
    | None => HandleMessage (s_runner s) sid (Type_ msg) from (Payload msg) end =
    HandleMessage (s_runner s) sid (Type_ msg) from (Payload msg)).
  { destruct (Transport.Lineage msg); [|done]. unfold HandleLineageMessage. by rewrite Hl. }
  rewrite Hd. destruct (HandleMessage (s_runner s) sid (Type_ msg) from (Payload msg)) as [r res']. cbn [fst snd] in *. subst res'.
  destruct res as [b|e|e]; [..|by destruct (Hu e)]; by eexists.
Qed.

(** A session served a round is served its frames. *)
Lemma deliver_round s m sid ty ss ss' frames msgs :
  tracks (s_runner s) m -> sid <> "" -> m !! sid = Some ss -> Forall2 (carries sid ty) frames msgs ->
  serve ty ss msgs = Some ss' ->
  exists s', deliver None s frames = Some s' /\ tracks (s_runner s') (<[sid := ss']> m).
Proof.
  intros Ht Hne Hs Hf. revert s m ss Ht Hs. induction Hf as [|[[now from] msg] [from' pl] frames msgs Hcar _ IH];
    intros s m ss Ht Hs Hserve; cbn [serve] in Hserve.
  - injection Hserve as <-. exists s. by rewrite insert_id.
  - destruct Hcar as (Hfrom & Hsid & Hty & Hpl). cbn [fst snd] in *. subst from' ty pl.
    destruct (s_message ss (Type_ msg) from (Payload msg)) as [s1 res] eqn:Hm.
    assert (Hu : forall e, res <> Unwind e) by (by intros e ->).
    destruct (onMessage_tracks s m now from msg sid ss s1 res Ht Hne Hs Hsid Hm Hu) as (s2 & Ho & Ht2).
    destruct (IH s2 (<[sid := s1]> m) s1 Ht2 (lookup_insert_eq _ _ _)) as (s3 & Hd & Ht3); [by destruct res|].
    rewrite insert_insert_eq in Ht3. exists s3. cbn [deliver]. by rewrite Ho.
Qed.

(** Every state a service reaches tracks some sessions. *)
Lemma reached_tracks trigger `{!LawfulTrigger trigger} hook env cfg s ops s' :
  cfg_Runner cfg = Some r0 -> NewService env cfg = inr s -> svc_run trigger hook s ops = Some s' ->
  exists m, tracks (s_runner s') m.
Proof.
  intros Hr Hn Hrun. unfold NewService in Hn. rewrite Hr in Hn.
  destruct (String.eqb (cfg_Addr cfg) ""); [done|]. destruct ((zlen (cfg_Secret cfg) =? 0) && _); [done|].
  destruct (cfg_AllowDevBypass cfg && _); [done|]. injection Hn as <-.
  eapply (svc_run_follows trigger hook (fun _ => True)) in Hrun as (_ & _ & rops & Hs & _); [|apply NewHub_ok|done].
  exists (spec_run ps None rops), rops. by split.
Qed.
End served.

(** A service that runs tracks the pipeline it was built on. *)
Lemma boot_runs {St : Type} `{HStore : Store St} `{HClock : Clock} `{HRange : GoRange} `{HFmt : GoFmt} `{HErr : GoErrors}
    `{HWire : Wire} ps environ name invite (runner : gerror + SessionRunner St) trigger `{!LawfulTrigger trigger} hook rn ops s :
  Compose ps = runner -> acyclic ps -> boot environ name invite runner trigger hook = inr rn ->
  svc_run (rn_trigger rn) (rn_hook rn) (rn_service rn) ops = Some s ->
  rn_trigger rn = trigger /\ rn_hook rn = hook /\
  exists r0 m, Compose ps = inr r0 /\ tracks ps r0 (s_runner s) m.
Proof.
  intros <- Ha. unfold boot. destruct (Compose ps) as [err|r0] eqn:Hc; [done|].
  destruct (NewService _ _) as [err|s0] eqn:Hn; [done|]. intros [= <-] Hrun. cbn in Hrun |- *. split_and!; try done.
  destruct (reached_tracks ps r0 trigger hook _ (service_config environ name invite r0) _ _ _ eq_refl Hn Hrun) as [m Hm]. by exists r0, m.
Qed.

(** ** A sealed-bid auction, served *)

Section auction.
Context {St : Type} `{HStore : Store St} `{HClock : Clock} `{HRange : GoRange} `{HFmt : GoFmt}
  `{HErr : GoErrors} `{HWire : Wire} `{HConv : GoConv} `{HForm : FormJSON}.
Import SealedBid.

(** The parameters the environment configures. *)
Definition auction_contract (environ : Environ) : list (string * any) :=
  cryptoCtx (env_int environ "AUCTION_CRYPTO_DEPTH" "12") (env_int environ "AUCTION_RING_DIM" "2048").

Definition auction_params (environ : Environ) : ContractParams :=
  mkParams "" (wrap32u (env_int environ "AUCTION_RING_DIM" "2048")) f64_zero 50
    (wrap32u (env_int environ "AUCTION_CRYPTO_DEPTH" "12")).

(** The POST lands in the state that takes the key shares. *)
Lemma auction_starts h r0 (s : Service St) m now sid participants contract :
  Compose (auction_phases (Some (h, sharpening))) = inr r0 ->
  tracks (auction_phases (Some (h, sharpening))) r0 (s_runner s) m -> sid <> "" -> m !! sid = None -> participants <> [] ->
  exists s1, handleSessionStart (auctionTrigger contract) s now (Some (sid, participants, ∅)) =
      (s1, SessionState 201 sid StateAuctionLocked) /\
    tracks (auction_phases (Some (h, sharpening))) r0 (s_runner s1)
      (<[sid := mkSession (auction_ctx sid "" participants contract) (PhaseKeygen (Some h) :: rest_bid h sharpening) true]> m).
Proof.
  intros Hr0 Ht Hsid Hnew Hne. unfold handleSessionStart. rewrite (proj2 (String.eqb_neq sid "") Hsid). unfold auctionTrigger.
  rewrite overlay_union, (left_id_L ∅ (∪)), decodeHexAttrs_absent by (intros key Hk; set_unfold; by destruct Hk as [->|[->|[]]]).
  set (canonical := list_to_map _ : gmap string any).
  assert (Hc : seeded (NewSessionContext sid) canonical = auction_ctx sid "" participants contract).
  { unfold seeded, canonical, auction_ctx, ctx_Set. cbn. rewrite (right_id_L ∅ (∪)). by rewrite insert_insert_ne. }
  destruct (startAt_tracks _ r0 Hr0 (auction_acyclic _) id s m now sid participants canonical StateAuctionLocked
    (NewSessionContext sid) (auction_phases (Some (h, sharpening)))
    (mkSession (auction_ctx sid "" participants contract) (PhaseKeygen (Some h) :: rest_bid h sharpening) true)
    Ht Hsid Hnew Hne) as (s1 & Hs1 & Ht1); [done|by rewrite Hc|].
  rewrite Hs1. exists s1. split; [|done]. unfold CurrentState.
  by rewrite (tracks_lookup _ r0 Hr0 (auction_acyclic _) _ _ sid _ Ht1 (lookup_insert_eq _ _ _)).
Qed.

(** C5: a sealed-bid auction is served from its POST to its settlement.  From
    any state that a running auction service with a helper reaches, whatever
    its other sessions have been through: the admin's POST of a fresh session
    id and its participants is answered 201 with the session in AUCTION_LOCKED;
    when the frames of the three rounds then arrive, in any order within a
    round and with resubmissions, none of them crashes the service; the session
    is finished; its context holds the mask ciphertexts, hex-encoded, beside the
    bidders they belong to; and its settlement carries the first fused value as
    the price, the number of partials, and the signature an observer
    recomputes.  The settlement does not name the winner: whoever has bid what,
    its winner is the text bidder-determined-by-mask.  The helper is asked with
    the depth and ring dimension of the environment. *)
Theorem auction_served (environ : Environ) startHelper h rn ops (s : Service St) now sid participants
    shares bids partials frames1 frames2 frames3 bundle masks values :
  environ "ARES_HELPER_BINARY" <> "" -> startHelper (environ "ARES_HELPER_BINARY") = inr h ->
  auction_main environ startHelper = inr rn ->
  svc_run (rn_trigger rn) (rn_hook rn) (rn_service rn) ops = Some s ->
  sid <> "" -> CurrentState (s_runner s) sid = (StateNone, false) ->
  full_round participants shares -> full_round participants bids -> full_round participants partials ->
  Forall2 (carries sid "auction.keygen.share") frames1 shares -> Forall2 (carries sid "auction.bid") frames2 bids ->
  Forall2 (carries sid "auction.decrypt.partial") frames3 partials ->
  answers h sharpening participants (auction_params environ) (latest bids) (latest partials) bundle masks values ->
  exists s1 s2 c t,
    handleSessionStart (rn_trigger rn) s now (Some (sid, participants, ∅)) = (s1, SessionState 201 sid StateAuctionLocked) /\
    deliver (rn_hook rn) s1 (frames1 ++ frames2 ++ frames3) = Some s2 /\
    sessions (s_runner s2) !! sid = Some (mkTracker c StateNone None true) /\
    ctx_Get c CtxAuctionCipherWinnerBid =
      Some (VBytes (encode_envelope (sort_strings (range_of (latest bids)).*1) (hex_encode <$> masks))) /\
    ctx_Get c CtxAuctionSettlement = Some (VMap t) /\
    map_get "winner" t = Some (winner_map "bidder-determined-by-mask"
      (VFloat64 (default f64_zero (head values))) (zlen participants)) /\
    map_get "signature" t = Some (VString (signTranscript t)).
Proof.
  intros Hpath Hstart Hmain Hrun Hsid Hnew Hsh Hbid Hpart Hf1 Hf2 Hf3 Ha.
  unfold auction_main, buildAuctionRunner, helper_of in Hmain.
  rewrite (proj2 (String.eqb_neq _ "") Hpath), Hstart in Hmain. unfold PipelineWithHelper in Hmain.
  set (ps := auction_phases (Some (h, sharpening))) in Hmain.
  destruct (boot_runs ps environ _ _ (Compose ps) (auctionTrigger (auction_contract environ)) _ rn ops s eq_refl (auction_acyclic _) Hmain Hrun) as (-> & -> & r0 & m & Hr0 & Ht).
  assert (Hne : participants <> []) by (destruct Hsh as (? & ? & ? & _ & _ & Hl); by intros ->).
  assert (Hm : m !! sid = None) by (eapply tracks_fresh; [exact Hr0|apply auction_acyclic|exact Ht|exact Hnew]).
  destruct (auction_starts h r0 s m now sid participants (auction_contract environ) Hr0 Ht Hsid Hm Hne) as (s1 & Hs1 & Ht1).
  destruct (auction_serves h sharpening sid "" participants (auction_contract environ) (auction_params environ)
    shares bids partials bundle masks values Hsh Hbid Hpart) as (c & Hserve & _ & Henv & Hset); [reflexivity|done|].
  unfold serve_auction in Hserve. set (ss0 := mkSession _ _ _) in *.
  destruct (serve "auction.keygen.share" ss0 shares) as [ss1|] eqn:Hv1; [|done]. cbn [mbind option_bind] in Hserve.
  destruct (serve "auction.bid" ss1 bids) as [ss2|] eqn:Hv2; [|done]. cbn [mbind option_bind] in Hserve.
  destruct (deliver_round _ r0 Hr0 (auction_acyclic _) s1 _ sid _ ss0 ss1 frames1 shares Ht1 Hsid (lookup_insert_eq _ _ _) Hf1 Hv1)
    as (s2 & Hd2 & Ht2).
  destruct (deliver_round _ r0 Hr0 (auction_acyclic _) s2 _ sid _ ss1 ss2 frames2 bids Ht2 Hsid (lookup_insert_eq _ _ _) Hf2 Hv2)
    as (s3 & Hd3 & Ht3).
  destruct (deliver_round _ r0 Hr0 (auction_acyclic _) s3 _ sid _ ss2 _ frames3 partials Ht3 Hsid (lookup_insert_eq _ _ _) Hf3 Hserve)
    as (s4 & Hd4 & Ht4).
  eexists s1, s4, c, _. split_and!; [exact Hs1| | |exact Henv|exact Hset|done|].
  - by rewrite !deliver_app, Hd2; cbn; rewrite deliver_app, Hd3.
  - apply (tracks_lookup _ r0 Hr0 (auction_acyclic _) _ _ sid _ Ht4 (lookup_insert_eq _ _ _)).
  - by apply signature_recomputes.
Qed.
End auction.

(** ** The weekly ranking, served *)

Section weekly.
Context {St : Type} `{HStore : Store St} `{HClock : Clock} `{HRange : GoRange} `{HFmt : GoFmt}
  `{HErr : GoErrors} `{HWire : Wire} `{HConv : GoConv} `{HForm : FormJSON}.
Import CohortRanking.

Definition weekly_contract (environ : Environ) : list (string * any) :=
  cryptoCtx (env_int environ "COHORT_CRYPTO_DEPTH" "10") (env_int environ "COHORT_RING_DIM" "2048").

Definition weekly_params (environ : Environ) : ContractParams :=
  mkParams "" (wrap32u (env_int environ "COHORT_RING_DIM" "2048")) f64_zero 50
    (wrap32u (env_int environ "COHORT_CRYPTO_DEPTH" "10")).

(** The documented attributes: both keys in hex and the secret shares, and
    nothing over the keys of the pipeline itself. *)
Record weekly_attrs (attrs : gmap string any) (pk ek : bytes) : Prop := {
  wa_pk : attrs !! CtxRankingPK = Some (VString (hex_encode pk));
  wa_ek : attrs !! CtxRankingEvalKeys = Some (VString (hex_encode ek));
  wa_nonempty : pk <> [] /\ ek <> [];
  wa_shares : is_Some (attrs !! CtxRankingShares);
  wa_free : forall key, key ∈ [CtxRankingParticipants; CtxRankingContract; bucketRatings; bucketDecryptPartials] ->
    attrs !! key = None
}.

Lemma hex_encode_nonempty b : b <> [] -> hex_encode b <> "".
Proof. by destruct b. Qed.

Lemma hook_require ph keys c : Forall (fun key => ctx_Has c key = true) keys -> hook (require_keys ph keys) c = (c, Ok None).
Proof. induction 1 as [|key keys Hk _ IH]; [done|]. cbn [require_keys]. by rewrite hook_has, Hk. Qed.

(** What the trigger seeds. *)
Definition weekly_canonical (contract : list (string * any)) (participants : list string) (attrs : gmap string any) (pk ek : bytes)
    : gmap string any :=
  <[CtxRankingEvalKeys := VBytes ek]> (<[CtxRankingPK := VBytes pk]>
    (attrs ∪ list_to_map [(CtxRankingParticipants, VStrings participants); (CtxRankingContract, VMap contract)])).

Lemma ranking_canonical_weekly contract participants attrs pk ek :
  weekly_attrs attrs pk ek ->
  ranking_canonical contract participants attrs = inr (weekly_canonical contract participants attrs pk ek).
Proof.
  intros [Hpk Hek [Hp He] _ _]. unfold ranking_canonical. rewrite overlay_union. cbn [decodeHexAttrs].
  rewrite lookup_union, Hpk, union_Some_l, (proj2 (String.eqb_neq _ "") (hex_encode_nonempty pk Hp)), hex_decode_encode.
  by rewrite lookup_insert_ne, lookup_union, Hek, union_Some_l, (proj2 (String.eqb_neq _ "") (hex_encode_nonempty ek He)),
    hex_decode_encode by done.
Qed.

Definition weekly_ctx (sid : string) contract participants attrs pk ek : SessionContext :=
  seeded (NewSessionContext sid) (weekly_canonical contract participants attrs pk ek).

Lemma weekly_ctx_get sid contract participants attrs pk ek :
  weekly_attrs attrs pk ek ->
  let c := weekly_ctx sid contract participants attrs pk ek in
  ctx_Get c CtxRankingParticipants = Some (VStrings participants) /\ ctx_Get c CtxRankingContract = Some (VMap contract) /\
  ctx_Get c CtxRankingEvalKeys = Some (VBytes ek) /\ ctx_Get c bucketRatings = None /\ ctx_Get c bucketDecryptPartials = None /\
  Forall (fun key => ctx_Has c key = true) weekly_required.
Proof.
  intros [Hpk Hek _ [v Hsh] Hfree] c.
  assert (Hget : forall key, key <> CtxRankingPK -> key <> CtxRankingEvalKeys ->
    ctx_Get c key = attrs !! key ∪ (list_to_map [(CtxRankingParticipants, VStrings participants);
      (CtxRankingContract, VMap contract)] : gmap string any) !! key).
  { intros key H1 H2. unfold c, weekly_ctx. rewrite seeded_get by done. unfold weekly_canonical.
    by rewrite !lookup_insert_ne, lookup_union by done. }
  assert (Hseen : ctx_Get c CtxRankingEvalKeys = Some (VBytes ek) /\ ctx_Get c CtxRankingPK = Some (VBytes pk)).
  { unfold c, weekly_ctx. rewrite !seeded_get by done. unfold weekly_canonical.
    by rewrite lookup_insert_eq, lookup_insert_ne, lookup_insert_eq by done. }
  destruct Hseen as [Hcek Hcpk].
  assert (Hbase : forall key, key ∈ [CtxRankingParticipants; CtxRankingContract; bucketRatings; bucketDecryptPartials] ->
    ctx_Get c key = (list_to_map [(CtxRankingParticipants, VStrings participants); (CtxRankingContract, VMap contract)]
      : gmap string any) !! key).
  { intros key Hkey. rewrite Hget, (Hfree key Hkey) by (set_unfold; naive_solver). by destruct (_ !! key). }
  split_and!; [by rewrite (Hbase _ ltac:(left))|by rewrite (Hbase _ ltac:(right; left))|done
    |by rewrite (Hbase _ ltac:(do 2 right; left))|by rewrite (Hbase _ ltac:(do 3 right; left))|].
  assert (Hhas : forall key, is_Some (ctx_Get c key) -> ctx_Has c key = true) by (intros key Hv; by apply bool_decide_eq_true).
  repeat constructor; apply Hhas; [by rewrite Hcpk| |by rewrite Hcek].
  by rewrite Hget, Hsh, union_Some_l by done.
Qed.

Lemma weekly_attrs_present attrs pk ek :
  weekly_attrs attrs pk ek -> find (fun key => negb (is_some (attrs !! key))) weekly_required = None.
Proof. intros [Hpk Hek _ [v Hsh] _]. cbn [find weekly_required]. by rewrite Hpk, Hsh, Hek. Qed.

Definition rest_ranking (h : Helper) : list Phase :=
  [PhaseArgmaxScoring (Some (h, sharpening)); PhaseThresholdDecrypt None; PhaseSettleRanking].

Lemma weekly_acyclic helper : acyclic (served_weekly_phases helper).
Proof. intros q [= <-]. cbn. set_solver. Qed.

(** The walk over the bridge, the invitation and the key lookup. *)
Lemma weekly_advances sid h c :
  Forall (fun key => ctx_Has c key = true) weekly_required ->
  s_advance sid StateRankingBidding (mkSession c (served_weekly_phases (Some h)) true) =
  (mkSession c (PhaseSubmitRating :: rest_ranking h) true, Good tt).
Proof.
  intros Hk. unfold s_advance, served_weekly_phases, rest_ranking. cbn [s_rest fmap option_fmap option_map]. rewrite bool_decide_false by (cbn; set_solver).
  cbn [walk s_entered s_ctx].
  change (String.eqb (EntryState weeklyKeySeeder) StateRankingBidding) with false.
  change (String.eqb (EntryState PhaseRankingInvitation) StateRankingBidding) with false.
  change (String.eqb (EntryState PhasePreSharedKeyLookup) StateRankingBidding) with false.
  change (String.eqb (EntryState PhaseSubmitRating) StateRankingBidding) with true. cbn iota.
  unfold guarded at 1. cbn [Exit weeklyKeySeeder hook ok]. unfold guarded at 1. cbn [Enter PhaseRankingInvitation hook ok].
  unfold guarded at 1. cbn [Exit PhaseRankingInvitation hook ok]. unfold guarded at 1. cbn [Enter PhasePreSharedKeyLookup].
  rewrite hook_require by exact Hk. unfold guarded at 1. cbn [Exit PhasePreSharedKeyLookup hook ok]. by unfold guarded.
Qed.

Lemma rating_collects : collects PhaseSubmitRating "ranking.rating" CtxRankingParticipants bucketRatings.
Proof. by split. Qed.
Lemma weekly_decrypt_collects :
  collects (PhaseThresholdDecrypt None) "ranking.decrypt.partial" CtxRankingParticipants bucketDecryptPartials.
Proof. by split. Qed.

Definition rated (c : SessionContext) (masks : list bytes) : SessionContext :=
  let ratings := AccumulatedMessages c bucketRatings in
  ctx_Set (ctx_Set c CtxRatings (VBucket ratings)) CtxWinnerRating
    (VBytes (encode_envelope (sort_strings (range_of ratings).*1) (hex_encode <$> masks))).

Lemma leave_rating h c params ek cts masks :
  readCohortContractParams c = inr params -> TryGet as_bytes c CtxRankingEvalKeys = Some ek -> ek <> [] ->
  bid_cts "rating_ct" (AccumulatedMessages c bucketRatings) cts -> h_Argmax h params ek cts sharpening = inr masks ->
  leave PhaseSubmitRating (rest_ranking h) true c =
  (mkSession (rated c masks) [PhaseThresholdDecrypt None; PhaseSettleRanking] true, Good true).
Proof.
  intros Hr Hek Hne Hcts Hm. unfold rest_ranking. cbn [leave]. unfold guarded at 1. cbn [Exit PhaseSubmitRating]. rewrite publish_hook.
  unfold guarded at 1. cbn [Enter PhaseArgmaxScoring]. unfold readCohortContractParams, read_params, contract_map in *.
  erewrite score_Enter_helper; [..|exact Hm]; autorewrite with hook; try done.
Qed.

(** No partial is decoded: the stub stands whatever they hold. *)
Definition stub_settled (c : SessionContext) : SessionContext :=
  let c := ctx_Set c CtxRankingWinner (winner_of (VInt 0) "stub-cohort-winner") in
  ctx_Set c CtxTranscript (VMap (sign_off (transcript_of (CtxSessionID c) "winner" "cohort"
    (winner_of (VInt 0) "stub-cohort-winner")))).

Lemma leave_weekly_decrypt c :
  leave (PhaseThresholdDecrypt None) [PhaseSettleRanking] true c = (mkSession (stub_settled c) [] true, Good true).
Proof.
  cbn [leave]. unfold guarded at 1. cbn [Exit PhaseThresholdDecrypt]. unfold fuse_Exit. hooks.
  unfold guarded at 1. cbn [Enter PhaseSettleRanking]. rewrite settle_Enter_hook. by autorewrite with hook.
Qed.
(** The two rounds of a weekly session. *)
Lemma weekly_serves h sid environ participants attrs pk ek ratings partials cts masks :
  weekly_attrs attrs pk ek -> full_round participants ratings -> full_round participants partials ->
  bid_cts "rating_ct" (latest ratings) cts -> h_Argmax h (weekly_params environ) ek cts sharpening = inr masks ->
  exists c ss,
    serve "ranking.rating" (mkSession (weekly_ctx sid (weekly_contract environ) participants attrs pk ek)
      (PhaseSubmitRating :: rest_ranking h) true) ratings = Some ss /\
    serve "ranking.decrypt.partial" ss partials = Some (mkSession (stub_settled c) [] true) /\
    ctx_Get c CtxWinnerRating =
      Some (VBytes (encode_envelope (sort_strings (range_of (latest ratings)).*1) (hex_encode <$> masks))).
Proof.
  intros Hat Hrat Hpart Hcts Hm. set (c0 := weekly_ctx sid _ participants attrs pk ek).
  destruct (weekly_ctx_get sid (weekly_contract environ) participants attrs pk ek Hat) as (Hps & Hct & Hek & Hb1 & Hb2 & _).
  fold c0 in Hps, Hct, Hek, Hb1, Hb2.
  assert (Htry : TryGet as_strings c0 CtxRankingParticipants = Some participants) by (unfold TryGet; by rewrite Hps).
  set (c1 := submitted c0 bucketRatings ratings). set (c2 := rated c1 masks).
  assert (Hacc : AccumulatedMessages c1 bucketRatings = latest ratings) by (unfold c1; by rewrite submitted_latest).
  assert (Hl1 : leave PhaseSubmitRating (rest_ranking h) true c1 =
    (mkSession c2 [PhaseThresholdDecrypt None; PhaseSettleRanking] true, Good true)).
  { apply (leave_rating h c1 (weekly_params environ) ek cts masks); [| |apply (wa_nonempty _ _ _ Hat)|by rewrite Hacc|done].
    - unfold readCohortContractParams, read_params, contract_map, c1. autorewrite with hook. by rewrite Hct.
    - unfold c1. autorewrite with hook. unfold TryGet. by rewrite Hek. }
  exists (submitted c2 bucketDecryptPartials partials), (mkSession c2 [PhaseThresholdDecrypt None; PhaseSettleRanking] true).
  split_and!.
  - rewrite (round_serves _ _ _ _ rating_collects _ _ _ participants _ true Htry Hb1 Hrat) by (by fold c1; rewrite Hl1).
    fold c1. by rewrite Hl1.
  - rewrite (round_serves _ _ _ _ weekly_decrypt_collects _ _ _ participants _ true); rewrite ?leave_weekly_decrypt; try done.
    + unfold c2, rated, c1. autorewrite with hook. done.
    + unfold c2, rated, c1. by autorewrite with hook.
  - autorewrite with hook. unfold c2, rated. autorewrite with hook. by rewrite Hacc.
Qed.

(** C38: a weekly ranking settles on the stub.  On the weekly service with a
    helper, from any state it reaches: the POST of a fresh session with the
    cohort's keys is answered 201 with the session in RANKING_BIDDING, the
    frames of both rounds crash nothing, the helper's masks over the ratings
    are in the context; and the session settles with winner_rating 0 and
    "stub-cohort-winner", whatever the ratings, the masks and the partials are,
    because the decryption phase of this pipeline is built without the helper. *)
Theorem weekly_settles_stub (environ : Environ) startHelper h rn ops (s : Service St) now sid participants attrs pk ek
    ratings partials frames1 frames2 cts masks :
  environ "COHORT_MODE" = "weekly" ->
  environ "ARES_HELPER_BINARY" <> "" -> startHelper (environ "ARES_HELPER_BINARY") = inr h ->
  cohort_main environ startHelper = inr rn ->
  svc_run (rn_trigger rn) (rn_hook rn) (rn_service rn) ops = Some s ->
  sid <> "" -> CurrentState (s_runner s) sid = (StateNone, false) -> weekly_attrs attrs pk ek ->
  full_round participants ratings -> full_round participants partials ->
  Forall2 (carries sid "ranking.rating") frames1 ratings -> Forall2 (carries sid "ranking.decrypt.partial") frames2 partials ->
  bid_cts "rating_ct" (latest ratings) cts -> h_Argmax h (weekly_params environ) ek cts sharpening = inr masks ->
  exists s1 s2 c t,
    handleSessionStart (rn_trigger rn) s now (Some (sid, participants, attrs)) = (s1, SessionState 201 sid StateRankingBidding) /\
    deliver (rn_hook rn) s1 (frames1 ++ frames2) = Some s2 /\
    sessions (s_runner s2) !! sid = Some (mkTracker c StateNone None true) /\
    ctx_Get c CtxWinnerRating =
      Some (VBytes (encode_envelope (sort_strings (range_of (latest ratings)).*1) (hex_encode <$> masks))) /\
    ctx_Get c CtxTranscript = Some (VMap t) /\ map_get "winner" t = Some (winner_of (VInt 0) "stub-cohort-winner").
Proof.
  intros Hmode Hpath Hstart Hmain Hrun Hsid Hnew Hat Hrat Hpart Hf1 Hf2 Hcts Hm.
  set (ps := served_weekly_phases (Some h)). set (trg := weeklyTrigger (weekly_contract environ)).
  assert (Hboot : exists name invite, boot environ name invite (Compose ps) trg None = inr rn).
  { unfold cohort_main, helper_of, getEnv in Hmain. rewrite (proj2 (String.eqb_neq _ "") Hpath), Hstart, Hmode in Hmain.
    cbn [String.eqb] in Hmain. unfold buildRunner in Hmain. cbn [String.eqb] in Hmain. fold ps in Hmain.
    destruct (Compose ps) as [err|r]; [done|]. eexists _, _. exact Hmain. }
  destruct Hboot as (name & invite & Hboot).
  destruct (boot_runs ps environ name invite (Compose ps) trg None rn ops s eq_refl (weekly_acyclic _) Hboot Hrun)
    as (-> & -> & r0 & m & Hr0 & Ht).
  assert (Hne : participants <> []) by (destruct Hrat as (? & ? & ? & _ & _ & Hl); by intros ->).
  assert (Hms : m !! sid = None) by (eapply tracks_fresh; [exact Hr0|apply weekly_acyclic|exact Ht|exact Hnew]).
  destruct (weekly_ctx_get sid (weekly_contract environ) participants attrs pk ek Hat) as (_ & _ & _ & _ & _ & Hkeys).
  set (canonical := weekly_canonical (weekly_contract environ) participants attrs pk ek).
  destruct (startAt_tracks ps r0 Hr0 (weekly_acyclic _) (fun err => Errorf "weekly trigger: advance to bidding: %w" [] [err])
    s m now sid participants canonical StateRankingBidding (NewSessionContext sid) ps _ Ht Hsid Hms Hne eq_refl
    (weekly_advances sid h _ Hkeys)) as (s1 & Hs1 & Ht1).
  destruct (weekly_serves h sid environ participants attrs pk ek ratings partials cts masks Hat Hrat Hpart Hcts Hm)
    as (c & ss & Hv1 & Hv2 & Hw).
  destruct (deliver_round ps r0 Hr0 (weekly_acyclic _) s1 _ sid _ _ ss frames1 ratings Ht1 Hsid (lookup_insert_eq _ _ _) Hf1 Hv1)
    as (s2 & Hd2 & Ht2).
  destruct (deliver_round ps r0 Hr0 (weekly_acyclic _) s2 _ sid _ ss _ frames2 partials Ht2 Hsid (lookup_insert_eq _ _ _) Hf2 Hv2)
    as (s3 & Hd3 & Ht3).
  eexists s1, s3, (stub_settled c), _. split_and!.
  - unfold handleSessionStart. rewrite (proj2 (String.eqb_neq sid "") Hsid). unfold trg, weeklyTrigger.
    rewrite (weekly_attrs_present attrs pk ek Hat). rewrite (ranking_canonical_weekly _ _ _ pk ek Hat). fold canonical. rewrite Hs1. unfold CurrentState.
    by rewrite (tracks_lookup ps r0 Hr0 (weekly_acyclic _) _ _ sid _ Ht1 (lookup_insert_eq _ _ _)).
  - by rewrite deliver_app, Hd2; cbn.
  - apply (tracks_lookup ps r0 Hr0 (weekly_acyclic _) _ _ sid _ Ht3 (lookup_insert_eq _ _ _)).
  - unfold stub_settled. by autorewrite with hook.
  - unfold stub_settled. by autorewrite with hook.
  - done.
Qed.
End weekly.

(** ** Witnesses *)

Section witnesses.
#[local] Existing Instances SealedBid.wit_range SealedBid.wit_fmt SealedBid.wit_clock SealedBid.wit_conv SealedBid.wit_json.
#[local] Instance wit_errors : GoErrors := fun _ => "error".
#[local] Instance wit_wire : Wire := {|
  wire_encode := fun m => Some (Payload m); wire_decode := fun b => None; wire_time := fun _ => "" |}.

Definition wit_environ : Environ := fun key => if String.eqb key "ARES_HELPER_BINARY" then "/opt/helper" else "".

Definition no_service : running InMemoryStore :=
  mkRunning (mkService (composed_or_empty (inl no_lineage)) (NewHub (mkAuth [] true)) (NewSessionEventRing 0)
               (NewManualAdminTrigger "")) Start None.

Definition run_or_none (x : fatal + running InMemoryStore) : running InMemoryStore :=
  match x with inr rn => rn | inl _ => no_service end.

Lemma runs (x : fatal + running InMemoryStore) : is_inr x = true -> x = inr (run_or_none x).
Proof. by destruct x. Qed.

Abbreviation wit_auction := (auction_main (St := InMemoryStore) wit_environ (fun _ => inr SealedBid.wit_helper)).

Lemma auction_main_runs : is_inr wit_auction = true.
Proof. vm_compute. reflexivity. Qed.

Definition wit_frames (sid ty : string) (msgs : list (string * bytes)) : list (Z * string * WSMessage) :=
  (fun x => (0, x.1, mkWSMessage "" ty sid 0 x.2 "" None)) <$> msgs.

Lemma wit_carries sid ty msgs : Forall2 (carries sid ty) (wit_frames sid ty msgs) msgs.
Proof. unfold wit_frames. apply Forall2_fmap_l, Forall_Forall2_diag, Forall_forall. by intros [from pl] _. Qed.

Lemma auction_served_witness :
  exists s1 s2 c,
    handleSessionStart (rn_trigger (run_or_none wit_auction)) (rn_service (run_or_none wit_auction)) 0
      (Some ("s", ["a"; "b"], ∅)) = (s1, SessionState 201 "s" SealedBid.StateAuctionLocked) /\
    deliver (rn_hook (run_or_none wit_auction)) s1
      (wit_frames "s" "auction.keygen.share" SealedBid.wit_round ++ wit_frames "s" "auction.bid" SealedBid.wit_round ++
       wit_frames "s" "auction.decrypt.partial" SealedBid.wit_round) = Some s2 /\
    sessions (s_runner s2) !! "s" = Some (mkTracker c StateNone None true).
Proof.
  destruct (auction_served wit_environ (fun _ => inr SealedBid.wit_helper) SealedBid.wit_helper (run_or_none wit_auction) []
    (rn_service (run_or_none wit_auction)) 0 "s" ["a"; "b"] SealedBid.wit_round SealedBid.wit_round SealedBid.wit_round
    (wit_frames "s" "auction.keygen.share" SealedBid.wit_round) (wit_frames "s" "auction.bid" SealedBid.wit_round)
    (wit_frames "s" "auction.decrypt.partial" SealedBid.wit_round) (mkBundle [x01] [x02] [x03] []) [[x06]; [x05]] [f64_one])
    as (s1 & s2 & c & t & H1 & H2 & H3 & _).
  - discriminate.
  - reflexivity.
  - exact (runs _ auction_main_runs).
  - reflexivity.
  - discriminate.
  - vm_compute. reflexivity.
  - exact SealedBid.wit_full.
  - exact SealedBid.wit_full.
  - exact SealedBid.wit_full.
  - apply wit_carries.
  - apply wit_carries.
  - apply wit_carries.
  - apply SealedBid.wit_answers.
  - exists s1, s2, c. split; [exact H1|]. split; [exact H2|exact H3].
Defined.

Definition weekly_environ : Environ := fun key => if String.eqb key "COHORT_MODE" then "weekly" else wit_environ key.

Abbreviation wit_weekly := (cohort_main (St := InMemoryStore) weekly_environ (fun _ => inr SealedBid.wit_helper)).

Lemma weekly_main_runs : is_inr wit_weekly = true.
Proof. vm_compute. reflexivity. Qed.

Definition wit_attrs : gmap string any :=
  list_to_map [(CohortRanking.CtxRankingPK, VString "01"); (CohortRanking.CtxRankingShares, VMap []);
               (CohortRanking.CtxRankingEvalKeys, VString "02")].

Lemma wit_weekly_attrs : weekly_attrs wit_attrs [x01] [x02].
Proof.
  split; [reflexivity|reflexivity|split; discriminate|by eexists|].
  intros key Hkey. repeat (apply elem_of_cons in Hkey as [->|Hkey]; [reflexivity|]). by apply elem_of_nil in Hkey.
Qed.

Lemma weekly_settles_stub_witness :
  exists s1 s2 c,
    handleSessionStart (rn_trigger (run_or_none wit_weekly)) (rn_service (run_or_none wit_weekly)) 0
      (Some ("w", ["a"; "b"], wit_attrs)) = (s1, SessionState 201 "w" CohortRanking.StateRankingBidding) /\
    deliver (rn_hook (run_or_none wit_weekly)) s1
      (wit_frames "w" "ranking.rating" SealedBid.wit_round ++ wit_frames "w" "ranking.decrypt.partial" SealedBid.wit_round) =
      Some s2 /\
    sessions (s_runner s2) !! "w" = Some (mkTracker c StateNone None true).
Proof.
  destruct (weekly_settles_stub weekly_environ (fun _ => inr SealedBid.wit_helper) SealedBid.wit_helper (run_or_none wit_weekly) []
    (rn_service (run_or_none wit_weekly)) 0 "w" ["a"; "b"] wit_attrs [x01] [x02] SealedBid.wit_round SealedBid.wit_round
    (wit_frames "w" "ranking.rating" SealedBid.wit_round) (wit_frames "w" "ranking.decrypt.partial" SealedBid.wit_round)
    [[x06]; [x05]] [[x06]; [x05]]) as (s1 & s2 & c & t & H1 & H2 & H3 & _).
  - reflexivity.
  - discriminate.
  - reflexivity.
  - exact (runs _ weekly_main_runs).
  - reflexivity.
  - discriminate.
  - vm_compute. reflexivity.
  - exact wit_weekly_attrs.
  - exact SealedBid.wit_full.
  - exact SealedBid.wit_full.
  - apply wit_carries.
  - apply wit_carries.
  - unfold bid_cts. vm_compute (sort_strings _). repeat constructor; eexists; split; reflexivity.
  - reflexivity.
  - exists s1, s2, c. split; [exact H1|]. split; [exact H2|exact H3].
Defined.
End witnesses.
End ServedSessions.
