(* ===== verification/ShuffleRelay.v ===== *)
(** * The onion shuffle over the voting service

    The service does not peel: it collects the onions, hands the batch to the
    first participant and passes each peeled batch on to the next.  Here the
    service with its hook is run against honest peelers, and what comes out of
    it is the peel chain. *)

From S2P Require Import Prelude Sha256 Base64 Float64 Lineage LineageStore PhaseTypes Compose ComposeTheorems Runner RunnerInvariant RunnerTheorems Defaults PipelineSpec Collecting Transport Service Onion Anon Voting ServiceTriggers SessionServices ServedSessions.
Import Base64 Lineage LineageStore PhaseTypes Compose ComposeTheorems Runner RunnerInvariant RunnerTheorems Defaults PipelineSpec Collecting Transport Service Onion Anon ServiceTriggers SessionServices ServedSessions.

#[local] Open Scope Z_scope.
#[local] Open Scope go_scope.
#[local] Open Scope run_scope.

Module ShuffleRelay.

(** ** Commits with nothing to commit *)

Section commits.
Context {St : Type} `{HStore : Store St} `{HClock : Clock} `{HRange : GoRange}.

Lemma in_range {V} (m : gmap string V) key v : (key, v) ∈ range_of m -> m !! key = Some v.
Proof. rewrite range_of_perm. apply elem_of_map_to_list. Qed.

Lemma resolve_plain (st : St) c keys :
  (forall key, key ∈ keys -> TryGet as_bytes c key = None) -> resolve_keys st c keys = inr [].
Proof.
  induction keys as [|key keys IH]; intros Hk; [done|]. cbn [resolve_keys]. rewrite (Hk key) by left.
  apply IH. intros key' Hin. apply Hk. by right.
Qed.

Lemma commit_plain (r : SessionRunner St) p parents outs e :
  (forall key, key ∈ outs.*1 -> TryGet as_bytes (ctx (tracker e)) key = None) ->
  commit_outputs r p parents outs e = (e, Good tt).
Proof.
  induction outs as [|[key kt] outs IH]; intros Hk; [done|]. cbn [commit_outputs]. rewrite (Hk key) by left.
  rewrite IH by (intros key' Hin; apply Hk; by right). by destruct (NoLineage kt).
Qed.

(** A phase none of whose keys holds bytes commits nothing. *)
Lemma guard_commit_plain fmt (r : SessionRunner St) p e :
  (forall key, is_Some (Requires p !! key) \/ is_Some (Provides p !! key) -> TryGet as_bytes (ctx (tracker e)) key = None) ->
  guard_commit fmt r p e = (e, Good tt).
Proof.
  intros Hk. unfold guard_commit, commitPhaseOutputsIfEnabled. destruct (e_store e) as [st|]; [|done].
  unfold resolveParents. rewrite resolve_plain, commit_plain; [done|..]; intros key ([k v] & -> & Hv%in_range)%list_elem_of_fmap;
    apply Hk; eauto.
Qed.
End commits.

(** ** The gossip phase *)

Section gossip.
Context {St : Type} `{HStore : Store St} `{HClock : Clock} `{HRange : GoRange} `{HFmt : GoFmt} `{HSlot : SlotJSON}.
Implicit Types (r : SessionRunner St) (c : SessionContext).

Definition bucket_of (ty : string) : string := if String.eqb ty MsgOnionBatch then bucketOnions else bucketPeels.

(** A session of the gossip phase. *)
Definition gossips r sid participants c : Prop :=
  sessions r !! sid = Some (mkTracker c StateGossip (Some PhaseGShuffle) true) /\
  TryGet as_strings c CtxAnonParticipants = Some participants.

Lemma touch_update c key f : touch (fun c => ctx_Update c key f) c = ctx_Update c key f.
Proof. by destruct c. Qed.

Lemma gs_message ty from pl t st n :
  ty = MsgOnionBatch \/ ty = MsgPeelForward ->
  exec (gs_OnMessage ty from pl) (mkEnv (St := St) t st n) =
  (mkEnv (t <| ctx := ctx_Update (ctx t) (bucket_of ty) (accumulate from pl) |>) st n, Good None).
Proof. intros [-> | ->]; unfold exec; cbn; by rewrite touch_update. Qed.

Lemma gs_complete t st n participants :
  TryGet as_strings (ctx t) CtxAnonParticipants = Some participants ->
  exec gs_CheckComplete (mkEnv (St := St) t st n) =
  (mkEnv t st n, Good (zlen participants <=? msize (AccumulatedMessages (ctx t) bucketPeels))).
Proof.
  intros Hp. unfold exec, gs_CheckComplete. cbn -[QuorumReached TryGet]. rewrite Hp. cbn -[QuorumReached touch].
  rewrite touch_id. unfold QuorumReached. rewrite MessageCount_bucket. by destruct t.
Qed.

(** A message that does not complete the peels is filed. *)
Lemma gossip_waits r sid participants c ty from pl :
  gossips r sid participants c -> ty = MsgOnionBatch \/ ty = MsgPeelForward ->
  let c' := ctx_Update c (bucket_of ty) (accumulate from pl) in
  msize (AccumulatedMessages c' bucketPeels) < zlen participants ->
  exists r', HandleMessage r sid ty from pl = (r', Good false) /\ gossips r' sid participants c' /\
    (forall ps, composed ps r -> composed ps r').
Proof.
  intros [Hs Hp] Hty c' Hq. unfold HandleMessage. rewrite Hs. unfold on_session, dispatch, ebind at 1.
  cbn [currentPhase tracker current]. assert (Hc : phaseConsumes PhaseGShuffle ty = true) by (by destruct Hty as [-> | ->]).
  rewrite Hc. cbn [negb]. unfold guard, ebind. cbn [OnMessage CheckComplete PhaseGShuffle]. rewrite gs_message by done. cbn [eret].
  assert (Hp' : TryGet as_strings c' CtxAnonParticipants = Some participants).
  { unfold c'. rewrite TryGet_update_ne; [done|]. by destruct Hty as [-> | ->]. }
  change (mkTracker c StateGossip (Some PhaseGShuffle) true <| ctx := _ |>) with
    (mkTracker c' StateGossip (Some PhaseGShuffle) true).
  rewrite (gs_complete _ _ _ participants) by exact Hp'. cbn [ctx]. destruct (Z.leb_spec (zlen participants) (msize (AccumulatedMessages c' bucketPeels))); [lia|].
  cbn. eexists. split; [done|]. split; [split; [cbn; by rewrite lookup_insert_eq|done]|]. intros ps []. by split.
Qed.

Lemma touch_set c key v : touch (fun c => ctx_Set c key v) c = ctx_Set c key v.
Proof. by destruct c. Qed.

Lemma gs_exit t st n :
  exec gs_Exit (mkEnv (St := St) t st n) =
  (mkEnv (t <| ctx := ctx_Set (ctx t) CtxPeelRounds (VInt (msize (AccumulatedMessages (ctx t) bucketPeels))) |>) st n, Good None).
Proof.
  unfold exec, gs_Exit. cbn -[touch AccumulatedMessages]. rewrite touch_id. cbn -[touch AccumulatedMessages].
  by rewrite touch_set.
Qed.

(** The phase commits nothing: its keys hold a list and a number. *)
Lemma gs_commit fmt r t st n participants rounds :
  TryGet as_strings (ctx t) CtxAnonParticipants = Some participants -> ctx_Get (ctx t) CtxPeelRounds = Some (VInt rounds) ->
  guard_commit fmt r PhaseGShuffle (mkEnv t st n) = (mkEnv t st n, Good tt).
Proof.
  intros Hp Hr. apply guard_commit_plain. cbn [tracker]. unfold TryGet in *. intros key Hk.
  assert (key = CtxAnonParticipants \/ key = CtxPeelRounds) as [-> | ->].
  { destruct Hk as [[v Hv]|[v Hv]]; cbn in Hv; apply lookup_insert_Some in Hv as [[<- _]|[_ Hv]]; auto; by rewrite lookup_empty in Hv. }
  - destruct (ctx_Get (ctx t) CtxAnonParticipants) as [[]|]; done.
  - by rewrite Hr.
Qed.

(** The peel that completes them moves the session on. *)
Lemma gossip_done r sid participants c from pl next :
  gossips r sid participants c -> byEntryState r !! StateVerifying = Some (PhaseGVerify next) ->
  let c' := ctx_Update c bucketPeels (accumulate from pl) in
  zlen participants <= msize (AccumulatedMessages c' bucketPeels) ->
  exists r' c'', HandleMessage r sid MsgPeelForward from pl = (r', Good true) /\
    sessions r' !! sid = Some (mkTracker c'' StateVerifying (Some (PhaseGVerify next)) true) /\
    TryGet as_strings c'' CtxAnonParticipants = Some participants /\
    AccumulatedMessages c'' bucketPeels = AccumulatedMessages c' bucketPeels.
Proof.
  intros [Hs Hp] Hnext c' Hq. unfold HandleMessage. rewrite Hs. unfold on_session, dispatch, ebind at 1.
  cbn [currentPhase tracker current]. change (phaseConsumes PhaseGShuffle MsgPeelForward) with true.
  cbn [negb]. unfold guard at 1, ebind at 1 2. cbn [OnMessage CheckComplete PhaseGShuffle]. rewrite gs_message by auto. cbn [eret].
  change (mkTracker c StateGossip (Some PhaseGShuffle) true <| ctx := _ |>) with
    (mkTracker c' StateGossip (Some PhaseGShuffle) true).
  assert (Hp' : TryGet as_strings c' CtxAnonParticipants = Some participants).
  { unfold c'. by rewrite TryGet_update_ne. }
  unfold ebind at 1. rewrite (gs_complete _ _ _ participants) by exact Hp'. cbn [ctx].
  destruct (Z.leb_spec (zlen participants) (msize (AccumulatedMessages c' bucketPeels))); [|lia]. cbn [negb].
  unfold advance. rewrite Nat.add_1_r. cbn [advance_loop]. unfold ebind at 1. cbn [currentPhase tracker current].
  unfold guard at 1, ebind at 1 2. cbn [Exit PhaseGShuffle]. rewrite gs_exit. cbn [ctx eret].
  set (c'' := ctx_Set c' CtxPeelRounds (VInt (msize (AccumulatedMessages c' bucketPeels)))).
  change (mkTracker c' StateGossip (Some PhaseGShuffle) true <| ctx := c'' |>) with
    (mkTracker c'' StateGossip (Some PhaseGShuffle) true).
  assert (Hp'' : TryGet as_strings c'' CtxAnonParticipants = Some participants) by (unfold c''; by rewrite TryGet_set_ne).
  unfold ebind at 1. rewrite (gs_commit _ _ (mkTracker c'' _ _ _) _ _ participants _ Hp'' (get_set c' CtxPeelRounds _)).
  change (ExitState PhaseGShuffle) with StateVerifying. change (String.eqb StateVerifying StateNone) with false. cbn iota.
  rewrite Hnext. cbn. eexists _, c''. split; [done|]. cbn. rewrite lookup_insert_eq. 
  split_and!; [done|done|unfold c''; by rewrite messages_set_ne].
Qed.

(** *** The walk to it *)

(** One hop over a phase that does nothing. *)
Lemma walk_hop r sid target hops c st n cur np :
  String.eqb (EntryState cur) target = false -> Exit cur = ok -> Enter np = ok ->
  String.eqb (ExitState cur) StateNone = false -> byEntryState r !! ExitState cur = Some np ->
  (forall key, is_Some (Requires cur !! key) \/ is_Some (Provides cur !! key) -> TryGet as_bytes c key = None) ->
  walk_loop r sid target (S hops) (mkEnv (mkTracker c (EntryState cur) (Some cur) true) st n) =
  walk_loop r sid target hops (mkEnv (mkTracker c (ExitState cur) (Some np) true) st n).
Proof.
  intros Ht Hx He Hn Hnext Hk. cbn [walk_loop tracker state current]. rewrite Ht.
  assert (Hok : forall e : env St, exec ok e = (e, Good None)) by (intros [[] ? ?]; done).
  unfold guard at 1, ebind at 1 2. rewrite Hx, Hok. cbn [eret]. unfold ebind at 1.
  rewrite guard_commit_plain by exact Hk. rewrite Hn, Hnext. unfold enterNext, guard, ebind, setTracker. by rewrite He, Hok.
Qed.

Lemma seed_all_session r sid t entries :
  sessions r !! sid = Some t ->
  sessions (seed_all r sid (range_of entries)) !! sid = Some (t <| ctx := seeded (ctx t) entries |>) /\
  (forall ps, composed ps r -> composed ps (seed_all r sid (range_of entries))).
Proof.
  rewrite <- seeded_range. unfold seed_all. generalize (range_of entries). intros l. revert r t.
  induction l as [|[k v] l IH]; intros r t Hs; cbn [foldl]; [by destruct t|].
  set (r' := SeedContext r sid k v). assert (Hs' : sessions r' !! sid = Some (t <| ctx := ctx_Set (ctx t) k v |>)).
  { unfold r', SeedContext. rewrite Hs. cbn. by rewrite lookup_insert_eq. }
  destruct (IH r' _ Hs') as [H1 H2]. split; [done|]. intros ps Hc. apply H2. unfold r', SeedContext. rewrite Hs.
  destruct Hc. by split.
Qed.
End gossip.

(** ** Starting a vote *)

Section start.
Context {St : Type} `{HStore : Store St} `{HClock : Clock} `{HRange : GoRange} `{HFmt : GoFmt} `{HWire : Wire}
  `{HVote : Voting.VoteJSON} `{HSlot : SlotJSON}.
Implicit Types (s : Service St).

Definition vote_entries (participants : list string) : gmap string any :=
  list_to_map [(Voting.CtxVoteParticipants, VStrings participants); (CtxParticipants, VStrings participants);
               (CtxAnonParticipants, VStrings participants)].

(** Only lists of names are in the context of a new vote. *)
Lemma vote_entries_plain c participants key :
  values c = ∅ -> TryGet as_bytes (seeded c (vote_entries participants)) key = None.
Proof.
  intros Hc. unfold TryGet. rewrite seeded_get by done. destruct (vote_entries participants !! key) as [v|] eqn:Hv; [|done].
  unfold vote_entries in Hv. cbn in Hv. repeat (apply lookup_insert_Some in Hv as [[_ <-]|[_ Hv]]; [done|]). by rewrite lookup_empty in Hv.
Qed.

Lemma shuffle_entry (r : SessionRunner St) p : composed Voting.shuffle_phases r -> p ∈ Voting.shuffle_phases ->
  byEntryState r !! EntryState p = Some p.
Proof. intros Hc Hp. by apply (cp_entry _ _ Hc). Qed.

Lemma vote_begins (r : SessionRunner St) sid :
  composed Voting.shuffle_phases r -> sid <> "" -> sessions r !! sid = None ->
  exists r1 c ctx', BeginSession r sid "" = (r1, Good ctx') /\
    sessions r1 !! sid = Some (mkTracker c StateInviting (Some Voting.PhaseInvite) true) /\ values c = ∅ /\
    composed Voting.shuffle_phases r1.
Proof.
  intros Hc Hsid Hnew. unfold BeginSession. rewrite (proj2 (String.eqb_neq sid "") Hsid), Hnew, (cp_initial _ _ Hc).
  change (from_option EntryState StateNone (head (inline Voting.shuffle_phases))) with (EntryState Voting.PhaseInvite).
  rewrite (shuffle_entry r Voting.PhaseInvite Hc ltac:(left)). cbn. rewrite lookup_insert_eq.
  eexists _, _, _. split; [done|]. cbn. rewrite lookup_insert_eq. split_and!; [done|done|]. destruct Hc. by split.
Qed.

Lemma vote_advances (r : SessionRunner St) sid c participants :
  composed Voting.shuffle_phases r ->
  sessions r !! sid = Some (mkTracker (seeded c (vote_entries participants)) StateInviting (Some Voting.PhaseInvite) true) ->
  values c = ∅ ->
  exists r1, AdvanceToState r sid StateGossip = (r1, Good tt) /\
    sessions r1 !! sid = Some (mkTracker (seeded c (vote_entries participants)) StateGossip (Some PhaseGShuffle) true) /\
    composed Voting.shuffle_phases r1.
Proof.
  intros Hc Hs Hv. unfold AdvanceToState. rewrite Hs. unfold on_session, advanceTo. cbn [tracker state current].
  change (String.eqb StateInviting StateGossip) with false. cbn iota. rewrite bool_decide_false by (cbn; set_solver).
  rewrite (cp_phases _ _ Hc). cbn [length Voting.shuffle_phases Nat.add].
  pose proof (fun key => vote_entries_plain c participants key Hv) as Hplain.
  change StateInviting with (EntryState Voting.PhaseInvite).
  rewrite (walk_hop _ _ _ _ _ _ _ Voting.PhaseInvite PlaintextKeygenPhase) by
    (done || (intros; apply Hplain) || (apply (shuffle_entry r PlaintextKeygenPhase Hc); right; left)).
  change (ExitState Voting.PhaseInvite) with (EntryState PlaintextKeygenPhase).
  rewrite (walk_hop _ _ _ _ _ _ _ PlaintextKeygenPhase PhaseGShuffle) by
    (done || (intros; apply Hplain) || (apply (shuffle_entry r PhaseGShuffle Hc); right; right; left)).
  cbn. eexists. split; [done|]. cbn. rewrite lookup_insert_eq. split; [done|]. destruct Hc. by split.
Qed.

Lemma vote_starts s now sid participants :
  composed Voting.shuffle_phases (s_runner s) -> sid <> "" -> sessions (s_runner s) !! sid = None ->
  2 <= zlen participants ->
  exists s1 c, handleSessionStart votingTrigger s now (Some (sid, participants, ∅)) = (s1, SessionState 201 sid StateGossip) /\
    gossips (s_runner s1) sid participants c /\ ctx_Get c bucketOnions = None /\ ctx_Get c bucketPeels = None /\
    composed Voting.shuffle_phases (s_runner s1).
Proof.
  intros Hc Hsid Hnew Hlen. unfold handleSessionStart. rewrite (proj2 (String.eqb_neq sid "") Hsid). unfold votingTrigger.
  destruct (Z.ltb_spec (zlen participants) 2); [lia|]. rewrite overlay_union, (left_id_L ∅ (∪)). fold (vote_entries participants).
  unfold startAt, Start. destruct (Z.eqb_spec (zlen participants) 0); [lia|].
  match goal with |- context [BeginSession ?r sid ""] => change r with (s_runner s) end.
  destruct (vote_begins (s_runner s) sid Hc Hsid Hnew) as (r1 & c0 & ctx' & Hb & Hs1 & Hv & Hc1). rewrite Hb.
  destruct (seed_all_session r1 sid _ (vote_entries participants) Hs1) as [Hs2 Hc2].
  set (r2 := seed_all r1 sid _) in *. specialize (Hc2 _ Hc1).
  destruct (vote_advances r2 sid _ participants Hc2 Hs2 Hv) as (r3 & Ha & Hs3 & Hc3).
  set (c := seeded c0 (vote_entries participants)) in *.
  assert (Hg : gossips r3 sid participants c /\ ctx_Get c bucketOnions = None /\ ctx_Get c bucketPeels = None).
  { unfold gossips, TryGet, c. rewrite !seeded_get by done. by split_and!. }
  destruct Hg as (Hg & Hb1 & Hb2).
  cbn -[seed_all]. fold r2. destruct (String.eqb _ ""); unfold advance_service; cbn -[AdvanceToState]; rewrite Ha;
    eexists _, c; (split; [by unfold CurrentState; cbn; rewrite Hs3|done]).
Qed.
End start.

(** ** What the hook sends *)

Section sends.
Context {St : Type} `{HBatch : BatchJSON}.
Implicit Types (r : SessionRunner St) (c : SessionContext).

Section tracked.
Context (r : SessionRunner St) (sid : string) (t : sessionTracker) (participants : list string).
Hypothesis Ht : sessions r !! sid = Some t.
Hypothesis Hp : TryGet as_strings (ctx t) CtxAnonParticipants = Some participants.

Lemma relay_waits from pl : msize (AccumulatedOnions (ctx t)) < zlen participants -> peelRelayIfNeeded r sid MsgOnionBatch from pl = [].
Proof.
  intros Hn. unfold peelRelayIfNeeded, sessionContext. rewrite Ht. cbn [fmap option_fmap option_map]. rewrite Hp. destruct participants as [|p ps]; [done|].
  change (String.eqb MsgOnionBatch MsgOnionBatch) with true. cbn iota. by rewrite (proj2 (Z.ltb_lt _ _) Hn).
Qed.

Lemma relay_opens first rest from pl assembled :
  participants = first :: rest -> zlen participants <= msize (AccumulatedOnions (ctx t)) ->
  assembleBatch participants (AccumulatedOnions (ctx t)) = inr assembled ->
  peelRelayIfNeeded r sid MsgOnionBatch from pl = [OutTo first (peel_forward sid assembled)].
Proof.
  intros Hps Hn Ha. unfold peelRelayIfNeeded, sessionContext. rewrite Ht. cbn [fmap option_fmap option_map]. rewrite Hp. rewrite Hps in *.
  change (String.eqb MsgOnionBatch MsgOnionBatch) with true. cbn iota. rewrite (proj2 (Z.ltb_ge _ _) Hn), Ha. done.
Qed.

(** To the participant after the sender, if there is one. *)
Lemma relay_passes k from pl :
  NoDup participants -> participants !! k = Some from ->
  peelRelayIfNeeded r sid MsgPeelForward from pl =
  match participants !! S k with Some next => [OutTo next (peel_forward sid pl)] | None => [] end.
Proof.
  intros Hnd Hk. unfold peelRelayIfNeeded, sessionContext. rewrite Ht. cbn [fmap option_fmap option_map]. rewrite Hp.
  assert (Hf : list_find (fun p => p = from) participants = Some (k, from)).
  { apply list_find_Some. split_and!; [done|done|]. intros j y Hj Hlt ->.
    rewrite (NoDup_lookup _ _ _ _ Hnd Hj Hk) in Hlt. lia. }
  destruct participants as [|p ps]; [done|]. change (String.eqb MsgPeelForward MsgOnionBatch) with false.
  change (String.eqb MsgPeelForward MsgPeelForward) with true. cbn iota. by rewrite Hf.
Qed.
End tracked.

(** The batch of single onions, in the order of the participants. *)
Lemma latest_of {A} (f : string -> A) (order : list string) (acc : gmap string A) p :
  p ∈ order -> foldl (fun b m => <[m.1 := m.2]> b) acc ((fun p => (p, f p)) <$> order) !! p = Some (f p).
Proof.
  assert (Hacc : forall order (acc : gmap string A), acc !! p = Some (f p) ->
    foldl (fun b m => <[m.1 := m.2]> b) acc ((fun p => (p, f p)) <$> order) !! p = Some (f p)).
  { intros l. induction l as [|q l IH]; intros a Ha; [done|]. cbn. apply IH.
    destruct (decide (q = p)) as [->|Hq]; [by rewrite lookup_insert_eq|by rewrite lookup_insert_ne]. }
  revert acc. induction order as [|q order IH]; intros acc Hin; [by apply elem_of_nil in Hin|]. cbn.
  apply elem_of_cons in Hin as [<-|Hin]; [apply Hacc; by rewrite lookup_insert_eq|by apply IH].
Qed.

Definition single (onion : string -> bytes) (p : string) : bytes := encode_batch [b64_encode (onion p)].

Lemma assemble_singles `{!BatchJSONLaws} (onion : string -> bytes) participants bucket :
  (forall p, p ∈ participants -> bucket !! p = Some (single onion p)) ->
  assembleBatch participants bucket = inr (encode_batch (b64_encode <$> (onion <$> participants))).
Proof.
  intros Hb. unfold assembleBatch. assert (Hc : collect_onions participants bucket = inr (b64_encode <$> (onion <$> participants))).
  { induction participants as [|p ps IH]; [done|]. cbn [collect_onions]. unfold first_onion. rewrite (Hb p) by left.
    unfold single. change [b64_encode (onion p)] with (b64_encode <$> [onion p]). rewrite decode_encode_batch. cbn.
    rewrite b64_roundtrip. rewrite IH by (intros q Hq; apply Hb; by right). done. }
  by rewrite Hc.
Qed.
End sends.

(** ** Runs of the service with what its hook sends *)

Section runs.
Context {St : Type} `{HStore : Store St} `{HClock : Clock} `{HRange : GoRange} `{HFmt : GoFmt} `{HErr : GoErrors} `{HWire : Wire}.
Implicit Types s : Service St.

Fixpoint relay_run (hook : option (PostDispatchHook St)) s (frames : list (Z * string * WSMessage))
    : option (Service St * list outbound) :=
  match frames with
  | [] => Some (s, [])
  | (now, from, msg) :: frames' =>
      s' ← onMessage hook s now from msg;
      '(s'', out) ← relay_run hook s' frames';
      Some (s'', emitted hook s from msg ++ out)
  end.

Lemma relay_run_snoc hook s frames now from msg s1 out s2 :
  relay_run hook s frames = Some (s1, out) -> onMessage hook s1 now from msg = Some s2 ->
  relay_run hook s (frames ++ [(now, from, msg)]) = Some (s2, out ++ emitted hook s1 from msg).
Proof.
  revert s out. induction frames as [|[[n f] m] frames IH]; intros s out; cbn [relay_run app].
  - intros [= -> <-] ->. cbn. by rewrite app_nil_r.
  - destruct (onMessage hook s n f m) as [s'|]; [|done]. cbn [mbind option_bind].
    destruct (relay_run hook s' frames) as [[s'' out']|] eqn:Hr; [|done]. cbn. intros [= -> <-] Ho.
    rewrite (IH s' out' Hr Ho). cbn. by rewrite app_assoc.
Qed.

(** Frames of the first protocol version, which carry no lineage node. *)
Definition v1 (f : Z * string * WSMessage) : Prop := Transport.Lineage f.2 = None.

Context `{HBatch : BatchJSON}.

(** A frame whose dispatch is answered without a panic. *)
Lemma relay_frame s now from msg sid r' b :
  sid <> "" -> SessionID msg = sid -> Transport.Lineage msg = None ->
  HandleMessage (s_runner s) sid (Type_ msg) from (Payload msg) = (r', Good b) ->
  exists s', onMessage (Some relayHook) s now from msg = Some s' /\ s_runner s' = r' /\
    emitted (Some relayHook) s from msg = peelRelayIfNeeded r' sid (Type_ msg) from (Payload msg).
Proof.
  intros Hne Hsid Hl Hh. unfold onMessage, emitted. rewrite Hsid, Hl, (proj2 (String.eqb_neq sid "") Hne), Hh.
  eexists. split; [done|]. cbn. by rewrite Hsid.
Qed.

Context `{HSlot : SlotJSON} `{HLaws : !BatchJSONLaws}.

(** *** The onions *)

Lemma carries_snoc sid ty frames msgs from pl :
  Forall2 (carries sid ty) frames (msgs ++ [(from, pl)]) -> Forall v1 frames ->
  exists fs now msg, frames = fs ++ [(now, from, msg)] /\ Forall2 (carries sid ty) fs msgs /\ Forall v1 fs /\
    SessionID msg = sid /\ Type_ msg = ty /\ Payload msg = pl /\ Transport.Lineage msg = None.
Proof.
  intros Hf Hv. apply Forall2_app_inv_r in Hf as (fs & last & Hf & Hlast & ->).
  apply Forall2_cons_inv_r in Hlast as ([[now from'] msg] & l & (Hfrom & Hsid & Hty & Hpl) & Hl & ->).
  apply Forall2_nil_inv_r in Hl as ->. apply Forall_app in Hv as [Hv Hv1]. apply Forall_cons in Hv1 as [Hl _].
  cbn in *. subst from'. by exists fs, now, msg.
Qed.

(** An onion is filed, and the hook sees it. *)
Lemma onion_filed s sid participants c msgs now from pl msg :
  gossips (s_runner s) sid participants (submitted c bucketOnions msgs) -> sid <> "" -> ctx_Get c bucketPeels = None ->
  participants <> [] ->
  SessionID msg = sid -> Type_ msg = MsgOnionBatch -> Payload msg = pl -> Transport.Lineage msg = None ->
  exists s', onMessage (Some relayHook) s now from msg = Some s' /\
    gossips (s_runner s') sid participants (submitted c bucketOnions (msgs ++ [(from, pl)])) /\
    (forall ps, composed ps (s_runner s) -> composed ps (s_runner s')) /\
    emitted (Some relayHook) s from msg = peelRelayIfNeeded (s_runner s') sid MsgOnionBatch from pl.
Proof.
  intros Hg Hne Hb Hp Hsid Hty Hpl Hl.
  destruct (gossip_waits (s_runner s) sid participants _ MsgOnionBatch from pl Hg (or_introl eq_refl)) as (r2 & Hh & Hg2 & Hc2).
  { change (bucket_of MsgOnionBatch) with bucketOnions. rewrite <- submitted_snoc, submitted_messages by done.
    unfold AccumulatedMessages, zlen. rewrite Hb. unfold msize. rewrite map_size_empty. destruct participants; [done|cbn; lia]. }
  change (bucket_of MsgOnionBatch) with bucketOnions in Hg2. rewrite <- submitted_snoc in Hg2.
  rewrite <- Hty, <- Hpl in Hh. destruct (relay_frame s now from msg sid r2 false Hne Hsid Hl Hh) as (s2 & Ho & <- & He).
  rewrite Hty, Hpl in He. by exists s2.
Qed.

Lemma onions_wait s sid participants c msgs frames :
  gossips (s_runner s) sid participants c -> sid <> "" -> ctx_Get c bucketOnions = None -> ctx_Get c bucketPeels = None ->
  Forall2 (carries sid MsgOnionBatch) frames msgs -> Forall v1 frames ->
  (size (list_to_set msgs.*1 : gset string) < length participants)%nat ->
  exists s', relay_run (Some relayHook) s frames = Some (s', []) /\
    gossips (s_runner s') sid participants (submitted c bucketOnions msgs) /\
    (forall ps, composed ps (s_runner s) -> composed ps (s_runner s')).
Proof.
  intros Hg Hne Hb1 Hb2. revert frames. induction msgs as [|[from pl] msgs IH] using rev_ind; intros frames Hf Hv Hn.
  { apply Forall2_nil_inv_r in Hf as ->. exists s. done. }
  destruct (carries_snoc _ _ _ _ _ _ Hf Hv) as (fs & now & msg & -> & Hf' & Hv' & Hsid & Hty & Hpl & Hl).
  assert (Hle : (size (list_to_set msgs.*1 : gset string) <= size (list_to_set (msgs ++ [(from, pl)]).*1 : gset string))%nat).
  { apply subseteq_size. rewrite fmap_app, list_to_set_app. set_solver. }
  destruct (IH fs Hf' Hv' ltac:(lia)) as (s1 & Hr & Hg1 & Hc1).
  destruct (onion_filed s1 sid participants c msgs now from pl msg Hg1 Hne Hb2) as (s2 & Ho & [Ht Hp] & Hc2 & He);
    [by intros ->; cbn in Hn; lia|done..|].
  exists s2. rewrite (relay_run_snoc _ _ _ _ _ _ _ _ _ Hr Ho), He, (relay_waits (s_runner s2) sid _ participants Ht Hp).
  - split_and!; [done|done|auto].
  - cbn [ctx]. unfold AccumulatedOnions. rewrite submitted_latest, latest_size by done. unfold zlen. lia.
Qed.

(** The last onion opens the chain. *)
Lemma onions_open s sid participants c order (onion : string -> bytes) frames first rest :
  gossips (s_runner s) sid participants c -> sid <> "" -> ctx_Get c bucketOnions = None -> ctx_Get c bucketPeels = None ->
  NoDup participants -> order ≡ₚ participants -> participants = first :: rest ->
  Forall2 (carries sid MsgOnionBatch) frames ((fun p => (p, single onion p)) <$> order) -> Forall v1 frames ->
  exists s' c', relay_run (Some relayHook) s frames =
      Some (s', [OutTo first (peel_forward sid (encode_batch (b64_encode <$> (onion <$> participants))))]) /\
    gossips (s_runner s') sid participants c' /\ ctx_Get c' bucketPeels = None /\
    (forall ps, composed ps (s_runner s) -> composed ps (s_runner s')).
Proof.
  intros Hg Hne Hb1 Hb2 Hnd Hperm Hps Hf Hv.
  destruct order as [|last pre _] using rev_ind; [by apply Permutation_nil_l in Hperm; subst|].
  assert (Hnd' : NoDup (pre ++ [last])) by (by rewrite Hperm).
  assert (Hkeys : forall l : list string, NoDup l -> size (list_to_set ((fun p => (p, single onion p)) <$> l).*1 : gset string) = length l).
  { intros l Hl. rewrite <- list_fmap_compose. rewrite <- (size_list_to_set (C := gset string) l Hl). do 2 f_equal. apply list_fmap_id. }
  pose proof (Permutation_length Hperm) as Hlen. rewrite length_app in Hlen. cbn in Hlen.
  rewrite fmap_app in Hf. destruct (carries_snoc _ _ _ _ _ _ Hf Hv) as (fs & now & msg & -> & Hf' & Hv' & Hsid & Hty & Hpl & Hl).
  destruct (onions_wait s sid participants c _ fs Hg Hne Hb1 Hb2 Hf' Hv') as (s1 & Hr & Hg1 & Hc1).
  { rewrite Hkeys by (by apply NoDup_app in Hnd' as (? & _)). lia. }
  destruct (onion_filed s1 sid participants c _ now last (single onion last) msg Hg1 Hne Hb2) as (s2 & Ho & [Ht Hp] & Hc2 & He);
    [by intros ->|done..|].
  change [(last, single onion last)] with ((fun p => (p, single onion p)) <$> [last]) in Ht, Hp. rewrite <- fmap_app in Ht, Hp.
  set (c' := submitted c bucketOnions ((fun p => (p, single onion p)) <$> (pre ++ [last]))) in *.
  assert (Hacc : AccumulatedOnions c' = latest ((fun p => (p, single onion p)) <$> (pre ++ [last]))).
  { unfold AccumulatedOnions, c'. by rewrite submitted_latest. }
  exists s2, c'. rewrite (relay_run_snoc _ _ _ _ _ _ _ _ _ Hr Ho), He.
  rewrite (relay_opens (s_runner s2) sid _ participants Ht Hp first rest _ _
    (encode_batch (b64_encode <$> (onion <$> participants))) Hps); cbn [ctx]; rewrite ?Hacc.
  - split_and!; [done|done|unfold c'; by rewrite submitted_get|auto].
  - rewrite latest_size, Hkeys, length_app by done. unfold zlen. cbn. lia.
  - apply assemble_singles. intros p Hin. unfold latest. apply latest_of. by rewrite Hperm.
Qed.

(** *** The peels *)

Context `{HCiphers : Ciphers}.

(** An honest peeler: decode the batch, open its own layer of every onion,
    shuffle, encode. *)
Definition peel_reply (p : peeler) (payload : bytes) : option bytes :=
  onions ← decode_batch payload;
  raw ← mapM b64_decode onions;
  match PeelBatch (priv p) (Some (memo p)) raw with
  | inl _ => None
  | inr (peeled, _) => Some (encode_batch (b64_encode <$> mix p peeled))
  end.

Lemma peel_reply_batch p batch peeled own :
  PeelBatch (priv p) (Some (memo p)) batch = inr (peeled, own) ->
  peel_reply p (encode_batch (b64_encode <$> batch)) = Some (encode_batch (b64_encode <$> mix p peeled)).
Proof.
  intros Hb. unfold peel_reply. rewrite decode_encode_batch. cbn [mbind option_bind].
  assert (Hm : mapM b64_decode (b64_encode <$> batch) = Some batch).
  { apply mapM_Some, Forall2_fmap_l, Forall_Forall2_diag, Forall_forall. intros o _. apply b64_roundtrip. }
  rewrite Hm. cbn. by rewrite Hb.
Qed.

(** The service against the peelers: whoever the last frame went to must be
    the next peer, and answers with a peel_forward of its own. *)
Fixpoint dialogue (hook : option (PostDispatchHook St)) (sid : string) (now : Z) s (peers : list (string * peeler))
    (out : list outbound) : option (Service St * list outbound) :=
  match peers with
  | [] => Some (s, out)
  | (name, p) :: peers' =>
      match out with
      | [OutTo to msg] =>
          if String.eqb to name then
            reply ← peel_reply p (Payload msg);
            let msg' := peel_forward sid reply in
            s' ← onMessage hook s now name msg';
            dialogue hook sid now s' peers' (emitted hook s name msg')
          else None
      | _ => None
      end
  end.

(** The peels of the participants in [pre] are in. *)
Definition peeled_by (c : SessionContext) (pre : list string) : Prop :=
  dom (AccumulatedMessages c bucketPeels) = list_to_set pre.

Lemma peels_update c from pl :
  AccumulatedMessages (ctx_Update c bucketPeels (accumulate from pl)) bucketPeels =
  <[from := pl]> (AccumulatedMessages c bucketPeels).
Proof.
  unfold AccumulatedMessages, ctx_Get, ctx_Update, accumulate. cbn. rewrite lookup_insert_eq. by destruct (values c !! bucketPeels).
Qed.

Lemma peeled_snoc c pre name pl :
  peeled_by c pre -> NoDup (pre ++ [name]) ->
  peeled_by (ctx_Update c bucketPeels (accumulate name pl)) (pre ++ [name]) /\
  msize (AccumulatedMessages (ctx_Update c bucketPeels (accumulate name pl)) bucketPeels) = zlen (pre ++ [name]).
Proof.
  intros Hd Hnd. assert (Hp : peeled_by (ctx_Update c bucketPeels (accumulate name pl)) (pre ++ [name])).
  { unfold peeled_by in *. rewrite peels_update, dom_insert_L, Hd, list_to_set_app_L. set_solver. }
  split; [done|]. unfold msize, zlen. rewrite <- size_dom, Hp. by rewrite size_list_to_set.
Qed.

Lemma dialogue_peels ps sid now participants next names peelers :
  NoDup participants -> sid <> "" -> PhaseGVerify next ∈ inline ps -> forall s c pre name batch final,
  participants = pre ++ name :: names -> length peelers = S (length names) ->
  gossips (s_runner s) sid participants c -> composed ps (s_runner s) ->
  peeled_by c pre -> peel_chain peelers batch = inr final ->
  exists s' c' peer, dialogue (Some relayHook) sid now s (zip (name :: names) peelers)
      [OutTo name (peel_forward sid (encode_batch (b64_encode <$> batch)))] = Some (s', []) /\
    sessions (s_runner s') !! sid = Some (mkTracker c' StateVerifying (Some (PhaseGVerify next)) true) /\
    last participants = Some peer /\
    AccumulatedMessages c' bucketPeels !! peer = Some (encode_batch (b64_encode <$> final)).
Proof.
  intros Hnd Hne Hin. revert peelers. induction names as [|name' names IH]; intros peelers s c pre name batch final Hps Hlen Hg Hc Hpre Hchain;
    destruct peelers as [|p peelers]; try done; cbn [zip zip_with dialogue]; rewrite String.eqb_refl; cbn [Payload peel_forward];
    cbn [peel_chain] in Hchain; destruct (PeelBatch (priv p) (Some (memo p)) batch) as [err|[peeled own]] eqn:Hb; try done;
    rewrite (peel_reply_batch p batch peeled own Hb); cbn [mbind option_bind]; set (reply := encode_batch _).
  - destruct peelers; [|done]. injection Hchain as <-.
    destruct (peeled_snoc c pre name reply Hpre) as [Hd Hsz]; [by rewrite <- Hps|]. rewrite <- Hps in Hsz.
    destruct (gossip_done (s_runner s) sid participants c name reply next Hg (proj2 (cp_entry _ _ Hc _ _) (conj Hin eq_refl)) ltac:(lia)) as (r' & c' & Hh & Hs' & Hp' & Hacc).
    destruct (relay_frame s now name (peel_forward sid reply) sid r' true Hne eq_refl eq_refl Hh) as (s' & Ho & Hr & He).
    rewrite Ho. cbn [mbind option_bind]. rewrite He. cbn [Type_ Payload peel_forward].
    assert (Hk : participants !! length pre = Some name) by (rewrite Hps; by apply list_lookup_middle).
    rewrite (relay_passes r' sid _ participants Hs' Hp' (length pre) name reply Hnd Hk).
    rewrite (lookup_ge_None_2 participants (S (length pre))) by (rewrite Hps, length_app; cbn; lia).
    exists s', c', name. rewrite Hr. split_and!; [done|done|by rewrite Hps, last_snoc|].
    by rewrite Hacc, peels_update, lookup_insert_eq.
  - destruct (peeled_snoc c pre name reply Hpre) as [Hd Hsz].
    { rewrite Hps in Hnd. change (name :: name' :: names) with ([name] ++ name' :: names) in Hnd. rewrite app_assoc in Hnd.
      by apply NoDup_app in Hnd as (? & _). }
    destruct (gossip_waits (s_runner s) sid participants c MsgPeelForward name reply Hg (or_intror eq_refl)) as (r' & Hh & Hg' & Hc').
    { change (bucket_of MsgPeelForward) with bucketPeels. rewrite Hsz, Hps. unfold zlen. rewrite !length_app. cbn. lia. }
    change (bucket_of MsgPeelForward) with bucketPeels in Hg'. set (c' := ctx_Update c bucketPeels _) in *.
    destruct (relay_frame s now name (peel_forward sid reply) sid r' false Hne eq_refl eq_refl Hh) as (s' & Ho & Hr & He).
    rewrite Ho. cbn [mbind option_bind]. rewrite He. cbn [Type_ Payload peel_forward]. destruct Hg' as [Ht' Hp'].
    assert (Hk : participants !! length pre = Some name) by (rewrite Hps; by apply list_lookup_middle).
    rewrite (relay_passes r' sid _ participants Ht' Hp' (length pre) name reply Hnd Hk).
    assert (Hk' : participants !! S (length pre) = Some name').
    { rewrite Hps, lookup_app_r by lia. by replace (S (length pre) - length pre)%nat with 1%nat by lia. }
    rewrite Hk'. apply (IH peelers s' c' (pre ++ [name]) name' (mix p peeled) final); try done.
    + by rewrite <- app_assoc.
    + cbn in Hlen. lia.
    + rewrite Hr. by split.
    + rewrite Hr. by apply Hc'.
Qed.
End runs.

(** ** A shuffle, served *)

Section shuffle.
Context `{HClock : Clock} `{HRange : GoRange} `{HFmt : GoFmt} `{HErr : GoErrors} `{HWire : Wire}
  `{HVote : Voting.VoteJSON} `{HSlot : SlotJSON} `{HBatch : BatchJSON} `{HLaws : !BatchJSONLaws} `{HCiphers : Ciphers}.

(** Every state of a running voting service has the shuffle's pipeline. *)
Lemma voting_composed environ signer rn ops s :
  voting_main environ (inr signer) = inr rn -> svc_run (rn_trigger rn) (rn_hook rn) (rn_service rn) ops = Some s ->
  rn_trigger rn = votingTrigger /\ rn_hook rn = Some relayHook /\ composed Voting.shuffle_phases (s_runner s).
Proof.
  unfold voting_main, boot, Voting.PipelineWithShuffle. destruct (ComposeWith _ _) as [err|r0] eqn:Hc; [done|].
  destruct (NewService _ _) as [err|s0] eqn:Hn; [done|]. intros [= <-] Hrun. cbn [rn_trigger rn_hook rn_service] in Hrun |- *. split; [done|]. split; [done|].
  assert (H0 : composed Voting.shuffle_phases r0 /\ sessions r0 = ∅).
  { unfold ComposeWith in Hc. cbn -[Compose needsPeers msize] in Hc. destruct (_ && _); [done|].
    pose proof (Compose_correct (St := InMemoryStore + InMemoryStore) Voting.shuffle_phases) as Hcc.
    destruct (Compose _) as [e|r1]; [done|]. injection Hc as <-. destruct Hcc as (_ & [] & ? & _). by split. }
  destruct H0 as [H0 Hs]. unfold NewService in Hn. cbn in Hn. destruct (_ && negb _); [done|]. destruct (_ && _); [done|].
  injection Hn as <-. eapply (svc_run_follows votingTrigger (Some relayHook) (fun _ => True)) in Hrun as (_ & _ & rops & Hr & _);
    [|apply NewHub_ok|done].
  rewrite Hr. apply (composed_static _ r0); [done|]. by destruct (run_coherent r0 rops Hs).
Qed.

(** C6: the voting service runs the peel chain.  From any state the running
    service reaches: the POST of a fresh vote is answered 201 in GOSSIP; when
    each participant's onion has arrived, in any order, exactly one frame goes
    out, to the first participant, with all onions in the participants' order;
    against peelers that answer each frame by opening their layer and
    shuffling, every further frame goes to the next participant and to nobody
    else; the last answer is the result of the peel chain over the onions,
    relayed to nobody, and the session then waits in VERIFYING. *)
Theorem shuffle_relayed environ signer rn ops s now sid participants order (onion : string -> bytes) frames peelers final :
  voting_main environ (inr signer) = inr rn ->
  svc_run (rn_trigger rn) (rn_hook rn) (rn_service rn) ops = Some s ->
  sid <> "" -> CurrentState (s_runner s) sid = (StateNone, false) ->
  NoDup participants -> 2 <= zlen participants -> order ≡ₚ participants -> length peelers = length participants ->
  Forall2 (carries sid MsgOnionBatch) frames ((fun p => (p, single onion p)) <$> order) -> Forall v1 frames ->
  peel_chain peelers (onion <$> participants) = inr final ->
  exists s1 s2 s3 c out peer,
    handleSessionStart (rn_trigger rn) s now (Some (sid, participants, ∅)) = (s1, SessionState 201 sid StateGossip) /\
    relay_run (rn_hook rn) s1 frames = Some (s2, out) /\
    out = (fun first => OutTo first (peel_forward sid (encode_batch (b64_encode <$> (onion <$> participants))))) <$>
            take 1 participants /\
    dialogue (rn_hook rn) sid now s2 (zip participants peelers) out = Some (s3, []) /\
    sessions (s_runner s3) !! sid = Some (mkTracker c StateVerifying (Some (PhaseGVerify StateSubmitting)) true) /\
    last participants = Some peer /\ AccumulatedMessages c bucketPeels !! peer = Some (encode_batch (b64_encode <$> final)).
Proof.
  intros Hmain Hrun Hsid Hnew Hnd Hlen Hperm Hpl Hf Hv Hchain.
  destruct (voting_composed environ signer rn ops s Hmain Hrun) as (-> & -> & Hc).
  assert (Hfresh : sessions (s_runner s) !! sid = None) by (unfold CurrentState in Hnew; by destruct (sessions (s_runner s) !! sid)).
  destruct (vote_starts s now sid participants Hc Hsid Hfresh Hlen) as (s1 & c1 & Hs1 & Hg1 & Hb1 & Hb2 & Hc1).
  destruct participants as [|first rest] eqn:Hps; [unfold zlen in Hlen; cbn in Hlen; lia|]. rewrite <- Hps in *.
  destruct (onions_open s1 sid participants c1 order onion frames first rest Hg1 Hsid Hb1 Hb2 Hnd Hperm Hps Hf Hv)
    as (s2 & c2 & Hr2 & Hg2 & Hp2 & Hc2).
  assert (Hin : PhaseGVerify StateSubmitting ∈ inline Voting.shuffle_phases) by (do 3 right; left).
  assert (Hn : length peelers = S (length rest)) by (by rewrite Hpl, Hps).
  assert (Hd2 : peeled_by c2 []) by (unfold peeled_by, AccumulatedMessages; by rewrite Hp2).
  destruct (dialogue_peels (St := InMemoryStore + InMemoryStore) Voting.shuffle_phases sid now participants StateSubmitting rest peelers
    Hnd Hsid Hin s2 c2 [] first (onion <$> participants) final Hps Hn Hg2 (Hc2 _ Hc1) Hd2 Hchain) as (s3 & c3 & peer & Hd & Hs3 & Hl & Ha).
  rewrite <- Hps in Hd. eexists s1, s2, s3, c3, _, peer. 
  split; [exact Hs1|]. split; [exact Hr2|]. split; [by rewrite Hps|]. split; [exact Hd|]. split; [exact Hs3|]. by split.
Qed.
End shuffle.

(** ** Witness: two participants *)

Section witnesses.
#[local] Instance wit_range : GoRange := sorted_range.
#[local] Instance wit_fmt : GoFmt := {| fmt_float := fun _ => ""; fmt_float32 := fun _ => ""; fmt_opaque := fun _ => "" |}.
#[local] Instance wit_clock : Clock := fun n => Z.of_nat n.
#[local] Instance wit_errors : GoErrors := fun _ => "error".
#[local] Instance wit_wire : Wire := {|
  wire_encode := fun m => Some (Payload m); wire_decode := fun b => None; wire_time := fun _ => "" |}.
#[local] Instance wit_vote : Voting.VoteJSON := {|
  Voting.decode_ballot := fun _ => None; Voting.encode_tally := fun _ => None; Voting.encode_transcript := fun _ _ => [] |}.
#[local] Instance wit_slots : SlotJSON := {|
  encode_entry := fun _ => []; decode_entry := fun _ => None; encode_entries := fun _ => [] |}.
#[local] Instance wit_batch : BatchJSON := {|
  decode_batch b := decode (unbits b); encode_batch l := bits (encode l) |}.
#[local] Instance wit_batch_laws : BatchJSONLaws.
Proof. intros onions. cbn. by rewrite unbits_bits, decode_encode. Qed.

(** Envelopes of 44 bytes in front of the plain text. *)
#[local] Instance wit_ciphers : Ciphers := {|
  x_public k := k; x_ecdh _ _ := Some []; hkdf32 _ _ := []; gcm_seal _ _ m := m; gcm_open _ _ m := Some m |}.

Definition wit_signer : Signer := mkSigner (fun _ => Some []) (fun _ _ _ => true) [] Ed25519Algorithm.

Definition wit_main : fatal + running (InMemoryStore + InMemoryStore) := voting_main (fun _ => "") (inr wit_signer).

Definition wit_running : running (InMemoryStore + InMemoryStore) :=
  match wit_main with
  | inr rn => rn
  | inl _ => mkRunning (mkService (composed_or_empty (inl no_lineage)) (NewHub (mkAuth [] true)) (NewSessionEventRing 0)
               (NewManualAdminTrigger "")) Start None
  end.

Lemma wit_main_runs : wit_main = inr wit_running.
Proof. assert (H : is_inr wit_main = true) by (vm_compute; reflexivity). unfold wit_running. by destruct wit_main. Qed.

Definition envelope : bytes := replicate 44 x00.
Definition wit_payload (p : string) : bytes := bytes_of_string p.
Definition wit_onion (p : string) : bytes := envelope ++ envelope ++ wit_payload p.

Definition wit_peelers : list peeler :=
  [mkPeeler (replicate 32 x00) (wit_onion "a") reverse; mkPeeler (replicate 32 x00) (envelope ++ wit_payload "b") id].

Definition wit_onions : list (Z * string * WSMessage) :=
  (fun p => (0, p, mkWSMessage "" MsgOnionBatch "v" 0 (single wit_onion p) "" None)) <$> ["b"; "a"].

Lemma shuffle_relayed_witness :
  exists s1 s2 s3 c out,
    handleSessionStart (rn_trigger wit_running) (rn_service wit_running) 0 (Some ("v", ["a"; "b"], ∅)) =
      (s1, SessionState 201 "v" StateGossip) /\
    relay_run (rn_hook wit_running) s1 wit_onions = Some (s2, out) /\
    dialogue (rn_hook wit_running) "v" 0 s2 (zip ["a"; "b"] wit_peelers) out = Some (s3, []) /\
    sessions (s_runner s3) !! "v" = Some (mkTracker c StateVerifying (Some (PhaseGVerify StateSubmitting)) true) /\
    AccumulatedMessages c bucketPeels !! "b" =
      Some (encode_batch (b64_encode <$> [wit_payload "b"; wit_payload "a"])).
Proof.
  destruct (shuffle_relayed (fun _ => "") wit_signer wit_running [] (rn_service wit_running) 0 "v" ["a"; "b"] ["b"; "a"] wit_onion
    wit_onions wit_peelers [wit_payload "b"; wit_payload "a"] wit_main_runs) as (s1 & s2 & s3 & c & out & peer & H1 & H2 & _ & H3 & H4 & H5 & H6).
  - reflexivity.
  - discriminate.
  - vm_compute. reflexivity.
  - repeat constructor; set_solver.
  - discriminate.
  - apply Permutation_swap.
  - reflexivity.
  - repeat constructor.
  - repeat constructor.
  - vm_compute. reflexivity.
  - exists s1, s2, s3, c, out. injection H5 as <-. split; [exact H1|]. split; [exact H2|]. split; [exact H3|]. split; [exact H4|exact H6].
Defined.
End witnesses.
End ShuffleRelay.
