(* ===== verification/AdmissionService.v ===== *)
(** * The challenges of the admission service

    The hook of the bounded-admission service runs after every frame of every
    session.  A sentinel in the session's context is to keep it from sending
    the challenges twice; here that is shown over whole runs of the service. *)

From S2P Require Import Prelude Sha256 Float64 Lineage LineageStore PhaseTypes Compose ComposeTheorems Runner RunnerInvariant RunnerTheorems Defaults PipelineSpec Collecting Transport Service HelperPhases SealedBid BoundCheck BoundedAdmission ServiceTriggers SessionServices ServedSessions.
Import Lineage LineageStore PhaseTypes Compose ComposeTheorems Runner RunnerInvariant RunnerTheorems Defaults PipelineSpec Collecting Transport Service HelperPhases BoundedAdmission ServiceTriggers SessionServices ServedSessions.

#[local] Open Scope Z_scope.
#[local] Open Scope go_scope.

Module AdmissionService.
#[local] Open Scope prog_scope.

(** ** Keys that stay *)

Section keeping.
Context (key : string).

(** A hook that never takes the key out of a context. *)
Definition hook_keeps {A} (p : Prog A) : Prop := forall c, is_Some (ctx_Get c key) -> is_Some (ctx_Get (hook p c).1 key).

Lemma hook_bind {A B} (p : Prog A) (k : A -> Prog B) c :
  hook (pbind p k) c = match hook p c with
                       | (c', Ok a) => hook (k a) c'
                       | (c', Crash msg) => (c', Crash msg)
                       end.
Proof.
  revert c. induction p as [a|msg|f k' IH|ph ro pl ps k' IH|k' IH]; intros c; cbn [pbind hook]; (done || apply IH).
Qed.

Lemma hook_keeps_ret {A} (a : A) : hook_keeps (Ret a).
Proof. by intros c. Qed.

Lemma hook_keeps_panic {A} msg : hook_keeps (A := A) (Panic msg).
Proof. by intros c. Qed.

Lemma hook_keeps_bind {A B} (p : Prog A) (k : A -> Prog B) :
  hook_keeps p -> (forall a, hook_keeps (k a)) -> hook_keeps (pbind p k).
Proof.
  intros Hp Hk c Hc. rewrite hook_bind. specialize (Hp c Hc). destruct (hook p c) as [c' [a|msg]]; [by apply Hk|done].
Qed.

Lemma hook_keeps_context : hook_keeps hContext.
Proof. intros c Hc. unfold hContext. cbn. by rewrite touch_id. Qed.

Lemma hook_keeps_get key' : hook_keeps (hGet key').
Proof. intros c Hc. unfold hGet. cbn. by rewrite touch_id. Qed.

Lemma hook_keeps_tryget {T} (assert : any -> option T) key' : hook_keeps (hTryGet assert key').
Proof. intros c Hc. unfold hTryGet. cbn. by rewrite touch_id. Qed.

Lemma insert_keeps c key' v : is_Some (ctx_Get c key) -> is_Some (ctx_Get (ctx_Set c key' v) key).
Proof. intros Hc. destruct (decide (key' = key)) as [->|Hne]; [by rewrite get_set|by rewrite get_set_ne]. Qed.

Lemma hook_keeps_set key' v : hook_keeps (hSet key' v).
Proof. intros c Hc. exact (insert_keeps c key' v Hc). Qed.

Lemma hook_keeps_update key' f : hook_keeps (hUpdate key' f).
Proof. intros c Hc. exact (insert_keeps c key' (f (default VNil (values c !! key'))) Hc). Qed.

(** The same of the hooks of a phase. *)
Record phase_keeps_key (p : Phase) : Prop := {
  kk_enter : hook_keeps (Enter p);
  kk_message : forall ty from pl, hook_keeps (OnMessage p ty from pl);
  kk_check : hook_keeps (CheckComplete p);
  kk_exit : hook_keeps (Exit p)
}.

Definition s_has (s : session) : Prop := is_Some (ctx_Get (s_ctx s) key).

Lemma guarded_has {B} fmt p h rest en c (next : SessionContext -> session * result B) :
  hook_keeps h -> is_Some (ctx_Get c key) -> (forall c', is_Some (ctx_Get c' key) -> s_has (next c').1) ->
  s_has (guarded fmt p h rest en c next).1.
Proof.
  intros Hh Hc Hn. unfold guarded. specialize (Hh c Hc). destruct (hook h c) as [c' [[err|]|msg]]; [done|by apply Hn|done].
Qed.

Lemma leave_has p rest en c :
  Forall phase_keeps_key (p :: rest) -> is_Some (ctx_Get c key) -> s_has (leave p rest en c).1.
Proof.
  revert p en c. induction rest as [|q rest IH]; intros p en c [Hp Hr]%Forall_cons Hc; cbn [leave];
    apply guarded_has; [apply Hp|done| |apply Hp|done|]; intros c1 Hc1.
  - by destruct (String.eqb _ _).
  - pose proof Hr as [Hq _]%Forall_cons. apply guarded_has; [apply Hq|done|]. intros c2 Hc2. destruct (0 <? _); [done|].
    pose proof (kk_check _ Hq c2 Hc2) as Hc3. destruct (hook _ c2) as [c3 [[]|msg]]; [by apply IH|done..].
Qed.

Lemma s_message_has s ty from pl : Forall phase_keeps_key (s_rest s) -> s_has s -> s_has (s_message s ty from pl).1.
Proof.
  intros Hr Hs. unfold s_message. destruct (s_rest s) as [|p rest]; [done|]. pose proof Hr as [Hp _]%Forall_cons.
  destruct (negb _); [done|]. apply guarded_has; [apply Hp|done|]. intros c Hc.
  pose proof (kk_check _ Hp c Hc) as Hc1. destruct (hook _ c) as [c1 [[]|msg]]; [by apply leave_has|done..].
Qed.

Lemma walk_has sid target rest en c :
  Forall phase_keeps_key rest -> is_Some (ctx_Get c key) -> s_has (walk sid target rest en c).1.
Proof.
  revert en c. induction rest as [|p rest IH]; intros en c Hr Hc; cbn [walk]; [done|]. pose proof Hr as [Hp Hr']%Forall_cons.
  destruct (String.eqb _ _); [done|]. apply guarded_has; [apply Hp|done|]. intros c1 Hc1.
  destruct rest as [|q rest]; [done|]. pose proof Hr' as [Hq _]%Forall_cons. apply guarded_has; [apply Hq|done|].
  intros c2 Hc2. by apply IH.
Qed.

Lemma s_advance_has sid target s : Forall phase_keeps_key (s_rest s) -> s_has s -> s_has (s_advance sid target s).1.
Proof.
  intros Hr Hs. unfold s_advance. destruct (s_rest s) as [|p rest]; [by apply walk_has|].
  case_bool_decide; [done|by apply walk_has].
Qed.

(** On a pipeline of such phases no operation but the end of the session takes
    the key out. *)
Lemma spec_step_has ps sg m o sid s :
  Forall phase_keeps_key (inline ps) -> map_Forall (fun _ => ahead ps) m ->
  m !! sid = Some s -> s_has s -> (forall sid', o <> REnd sid') ->
  exists s', spec_step ps sg m o !! sid = Some s' /\ s_has s'.
Proof.
  intros Hps Ha Hs Hh Ho.
  assert (Hrest : Forall phase_keeps_key (s_rest s)).
  { destruct (map_Forall_lookup_1 _ _ _ _ Ha Hs) as [pre Hpre]. rewrite Hpre in Hps. by apply Forall_app in Hps as [_ ?]. }
  assert (Halt : forall (f : session -> session) sid', s_has (f s) -> exists s', alter f sid' m !! sid = Some s' /\ s_has s').
  { intros f sid' Hf. destruct (decide (sid' = sid)) as [->|Hne].
    - rewrite lookup_alter_eq, Hs. by eexists.
    - rewrite lookup_alter_ne by done. by exists s. }
  destruct o as [sid' cid|sid' k v|sid' ty from pl|sid' ty from pl n|sid' target|sid'|sid' ph ro e|sid' n]; cbn [spec_step];
    try (by exists s).
  - destruct (String.eqb sid' ""); [by exists s|].
    destruct (m !! sid') as [s0|] eqn:Hs0; [by exists s|].
    assert (sid' <> sid) by (by intros ->; rewrite Hs in Hs0).
    destruct (s_begin ps sg sid' cid) as [[s1 []]|]; try (by exists s); exists s; by rewrite lookup_insert_ne.
  - apply Halt. cbn. by apply insert_keeps.
  - apply Halt. by apply s_message_has.
  - apply Halt. by apply s_message_has.
  - apply Halt. by apply s_advance_has.
  - by destruct (Ho sid').
Qed.
End keeping.

Ltac hook_keeping :=
  repeat first [apply hook_keeps_ret | apply hook_keeps_panic | apply hook_keeps_context | apply hook_keeps_get
    | apply hook_keeps_tryget | apply hook_keeps_set | apply hook_keeps_update | apply hook_keeps_bind; [|intros ?] | case_match].

(** The admission pipeline never forgets a key. *)
Section pipeline.
Context `{FormJSON} `{GoRange} `{BoundCheck.ContextHandles} (decode : bytes -> option (gmap string bytes)) (key : string).

Lemma notify_keeps vs : hook_keeps key (BoundCheck.notify (Some recordingHandler) vs).
Proof. induction vs as [|v vs IH]; cbn [BoundCheck.notify]; unfold recordingHandler; hook_keeping; done. Qed.

Lemma checking_keeps : phase_keeps_key key (checking decode).
Proof.
  split; cbn [checking BoundCheck.bound_phase Enter OnMessage CheckComplete Exit].
  - unfold BoundCheck.bc_Enter. hook_keeping.
  - intros ty from pl. hook_keeping.
  - hook_keeping.
  - unfold BoundCheck.bc_Exit. hook_keeping. apply notify_keeps.
Qed.

Lemma admission_keeps : Forall (phase_keeps_key key) (inline (admission_phases decode)).
Proof.
  repeat apply Forall_cons_2; [..|apply Forall_nil_2]; try apply checking_keeps; split;
    cbn [PhaseInvitation PhaseKeygen PhaseSubmitInput PhaseSettle Enter OnMessage CheckComplete Exit];
    try intros ty from pl; unfold ok, ignore, pk_Exit, si_OnMessage, ps_Enter, publish, quorum, AccumulateMessage; hook_keeping.
Qed.
End pipeline.

(** ** Runs of the service *)

Section service.
Context {St : Type} `{HStore : Store St} `{HClock : Clock} `{HRange : GoRange} `{HFmt : GoFmt} `{HErr : GoErrors}
  `{HWire : Wire} `{HConv : GoConv} `{HForm : FormJSON} `{HChallenge : ChallengeJSON} `{HHandles : BoundCheck.ContextHandles}.
Context (decode : bytes -> option (gmap string bytes)) (r0 : SessionRunner St).
Hypothesis Hr0 : Compose (admission_phases decode) = inr r0.
Implicit Types (r : SessionRunner St) (s : Service St).

(** The challenges of a session have been sent. *)
Definition sent r sid : Prop := exists c, sessionContext r sid = Some c /\ is_Some (ctx_Get c challenges_sent).

Lemma sent_step r m o sid :
  tracks (admission_phases decode) r0 r m -> (forall sid', o <> REnd sid') -> sent r sid -> sent (runner_step r o) sid.
Proof.
  intros Ht Ho (c & Hc & Hk). pose proof (tracks_represents _ r0 Hr0 (admission_acyclic _) r m Ht) as (_ & _ & (Hs & _ & Ha) & _).
  unfold sessionContext in Hc. rewrite Hs, lookup_fmap in Hc. destruct (m !! sid) as [ss|] eqn:Hm; [|done]. injection Hc as <-.
  destruct (spec_step_has challenges_sent (admission_phases decode) None m o sid ss (admission_keeps decode _) Ha Hm Hk Ho) as (ss' & Hm' & Hk').
  exists (s_ctx ss'). split; [|done]. unfold sessionContext.
  by rewrite (tracks_lookup _ r0 Hr0 (admission_acyclic _) _ _ sid ss' (tracks_step _ _ _ _ o Ht) Hm').
Qed.

Lemma sent_run r m rops sid :
  tracks (admission_phases decode) r0 r m -> Forall (authentic (fun _ => True)) rops -> sent r sid -> sent (runner_run r rops) sid.
Proof.
  intros Ht Ha. revert r m Ht. induction Ha as [|o rops Ho _ IH]; intros r m Ht Hs; [done|].
  apply (IH _ _ (tracks_step _ _ _ _ o Ht)), (sent_step r m); [done|by intros sid' ->|done].
Qed.

(** ** One frame *)

(** The challenge frames of a context. *)
Definition challenge_frames (c : SessionContext) (sid : string) (out : list outbound) : Prop :=
  exists payload,
    default ∅ (TryGet as_bucket c BoundCheck.CtxBoundCheckCiphers) <> ∅ /\
    encode_challenge (hex_encode <$> default ∅ (TryGet as_bucket c BoundCheck.CtxBoundCheckCiphers))
      (hex_encode <$> default ∅ (TryGet as_bucket c BoundCheck.CtxBoundCheckCommitments)) = Some payload /\
    out = (fun p => OutTo p (mkWSMessage "" MsgChallenge sid 0 payload "" None)) <$> default [] (TryGet as_strings c CtxParticipants).

(** The hook does nothing, or it sends the frames of a session whose sentinel
    was not set and sets it. *)
Lemma challenge_cases r sid :
  challengeUnicastIfNeeded r sid = ([], []) \/
  exists c out, sessionContext r sid = Some c /\ ~ sent r sid /\ challenge_frames c sid out /\
    challengeUnicastIfNeeded r sid = ([(challenges_sent, VBool true)], out).
Proof.
  unfold challengeUnicastIfNeeded. destruct (sessionContext r sid) as [c|] eqn:Hc; [|by left].
  unfold ctx_Has. case_bool_decide as Hk; [by left|]. 
  destruct (Z.eqb_spec (msize (default ∅ (TryGet as_bucket c BoundCheck.CtxBoundCheckCiphers))) 0) as [_|Hz]; [by left|].
  destruct (encode_challenge _ _) as [payload|] eqn:He; [|by left]. right. eexists c, _. split; [done|]. split.
  - intros (c' & Hc' & Hk'). rewrite Hc in Hc'. injection Hc' as <-. by apply Hk.
  - split; [|done]. exists payload. split; [|by split]. intros He'. rewrite He' in Hz. done.
Qed.

Definition addressed (sid : string) (o : outbound) : bool :=
  match o with
  | OutTo _ msg | OutAll msg => String.eqb (SessionID msg) sid
  | OutSession sid' _ _ => String.eqb sid' sid
  end.

Definition for_session (sid : string) (out : list outbound) : list outbound := filter (fun o => addressed sid o = true) out.

Lemma for_session_app sid out out' : for_session sid (out ++ out') = for_session sid out ++ for_session sid out'.
Proof. apply filter_app. Qed.

Lemma challenge_for c sid sid' out : challenge_frames c sid out -> for_session sid' out = if decide (sid = sid') then out else [].
Proof.
  intros (payload & _ & _ & ->). unfold for_session. generalize (default [] (TryGet as_strings c CtxParticipants)). intros ps.
  induction ps as [|p ps IH]; [by case_decide|]. cbn [fmap list_fmap]. rewrite filter_cons. cbn [addressed SessionID].
  case_decide as Hd; rewrite IH; destruct (String.eqb_spec sid sid'); case_decide; done.
Qed.

(** A frame with the hook: the runner makes one dispatch and one optional
    [ctx.Set]. *)
Lemma frame_effect s now from msg s' :
  onMessage (Some challengeHook) s now from msg = Some s' -> SessionID msg <> "" ->
  exists o sets out, authentic (fun _ => True) o /\
    challengeUnicastIfNeeded (runner_step (s_runner s) o) (SessionID msg) = (sets, out) /\
    s_runner s' = seed_all (runner_step (s_runner s) o) (SessionID msg) sets /\ emitted (Some challengeHook) s from msg = out.
Proof.
  intros Ho Hne. unfold onMessage in Ho. unfold emitted. rewrite (proj2 (String.eqb_neq _ "") Hne) in *.
  set (o := match Transport.Lineage msg with
    | Some n => RLineage (SessionID msg) (Type_ msg) from (Payload msg) (Some n)
    | None => RMessage (SessionID msg) (Type_ msg) from (Payload msg) end).
  match type of Ho with context [let '(_, _) := ?d in _] => destruct d as [r res] eqn:Hd end.
  assert (Hs : runner_step (s_runner s) o = r /\ authentic (fun _ => True) o).
  { unfold o. destruct (Transport.Lineage msg); cbn [runner_step]; by rewrite Hd. }
  destruct Hs as [Hs Ha]. exists o. rewrite Hs. unfold challengeHook in *.
  destruct (challengeUnicastIfNeeded r (SessionID msg)) as [sets out]. exists sets, out.
  destruct res; [| |done]; injection Ho as <-; by split_and!.
Qed.

(** Setting the sentinel is all the seeding does to the session. *)
Lemma seed_context r sid c k v :
  sessionContext r sid = Some c -> sessionContext (seed_all r sid [(k, v)]) sid = Some (ctx_Set c k v).
Proof.
  unfold sessionContext, seed_all. cbn [foldl fst snd]. unfold SeedContext.
  destruct (sessions r !! sid) as [t|] eqn:Ht; [|done]. intros [= <-]. cbn. by rewrite lookup_insert_eq.
Qed.

(** The sentinel is none of the entries the frames are made of. *)
Lemma frames_sentinel c sid out :
  challenge_frames c sid out -> challenge_frames (ctx_Set c challenges_sent (VBool true)) sid out.
Proof. unfold challenge_frames, TryGet, ctx_Get. cbn. by rewrite !lookup_insert_ne by discriminate. Qed.

Lemma tracks_run r m rops : tracks (admission_phases decode) r0 r m -> exists m', tracks (admission_phases decode) r0 (runner_run r rops) m'.
Proof. intros (ops & -> & _). eexists _, (ops ++ rops). split; [|reflexivity]. unfold runner_run. by rewrite foldl_app. Qed.

(** One frame of one session, seen from any session. *)
Lemma frame_once s m now from msg s' sid :
  tracks (admission_phases decode) r0 (s_runner s) m -> onMessage (Some challengeHook) s now from msg = Some s' ->
  let out := for_session sid (emitted (Some challengeHook) s from msg) in
  (sent (s_runner s) sid -> out = []) /\ (out = [] \/ exists c, sessionContext (s_runner s') sid = Some c /\ challenge_frames c sid out /\ sent (s_runner s') sid).
Proof.
  intros Ht Ho. cbn zeta. destruct (decide (SessionID msg = "")) as [He|Hne].
  { unfold emitted. rewrite He. split; [done|by left]. }
  destruct (frame_effect s now from msg s' Ho Hne) as (o & sets & out & Ha & Hc & Hr & ->).
  destruct (challenge_cases (runner_step (s_runner s) o) (SessionID msg)) as [Hn|(c & out' & Hctx & Hns & Hf & Hn)];
    rewrite Hc in Hn; injection Hn as -> ->; [split; [done|by left]|].
  rewrite (challenge_for c _ sid out' Hf). case_decide as Hsid; [|split; [done|by left]]. subst sid. split.
  - intros Hs. destruct Hns. apply (sent_step (s_runner s) m); [done|by intros sid' ->|done].
  - right. pose proof (seed_context _ _ _ challenges_sent (VBool true) Hctx) as Hctx'. rewrite <- Hr in Hctx'.
    eexists. split_and!; [exact Hctx'|by apply frames_sentinel|]. eexists. split; [exact Hctx'|]. by rewrite get_set.
Qed.

(** ** Runs *)

Context (trigger : SessionTrigger St) {Htrigger : LawfulTrigger trigger}.

(** A state of the service in a run. *)
Definition serving s : Prop := hub_ok (fun _ => True) (s_hub s) /\ exists m, tracks (admission_phases decode) r0 (s_runner s) m.

Lemma step_once s o s' sid :
  serving s -> svc_step trigger (Some challengeHook) s o = Some s' ->
  let out := for_session sid (svc_emits (Some challengeHook) s o) in
  serving s' /\ (sent (s_runner s) sid -> out = [] /\ sent (s_runner s') sid) /\
  (out = [] \/ exists c, sessionContext (s_runner s') sid = Some c /\ challenge_frames c sid out /\ sent (s_runner s') sid).
Proof.
  intros [Hh [m Ht]] Hs. cbn zeta.
  destruct (svc_step_follows trigger (Some challengeHook) (fun _ => True) s o s' Hh Hs ltac:(done)) as (Hh' & _ & rops & Hr & Ha).
  assert (Hsent : sent (s_runner s) sid -> sent (s_runner s') sid) by (rewrite Hr; by apply (sent_run (s_runner s) m)).
  split; [split; [done|rewrite Hr; by apply (tracks_run _ m)]|].
  enough ((sent (s_runner s) sid -> for_session sid (svc_emits (Some challengeHook) s o) = []) /\
    (for_session sid (svc_emits (Some challengeHook) s o) = [] \/ exists c, sessionContext (s_runner s') sid = Some c /\
      challenge_frames c sid (for_session sid (svc_emits (Some challengeHook) s o)) /\ sent (s_runner s') sid)) as [H1 H2] by auto.
  destruct o as [o|now body]; cbn [svc_emits]; [|split; [done|by left]]. cbn [svc_step] in Hs.
  destruct (hub_step (s_hub s) o) as [h d] eqn:Hst. destruct (hub_step_ok (fun _ => True) _ _ _ _ Hh Hst ltac:(done)) as (_ & Hok & _).
  pose proof (st_one _ _ _ Hok) as Hlen. destruct d as [|[from msg] [|? ?]]; cbn in Hlen; [|  |lia]; [split; [done|by left]|].
  set (s1 := s <| s_hub := h |>) in *. assert (Ht1 : tracks (admission_phases decode) r0 (s_runner s1) m) by exact Ht.
  assert (Hsent1 : sent (s_runner s) sid -> sent (s_runner s1) sid) by done.
  destruct (frame_once s1 m (op_now o) from msg s' sid Ht1 Hs) as [H1 H2]. split; [auto|exact H2].
Qed.

Lemma run_silent s ops s' sid :
  serving s -> sent (s_runner s) sid -> svc_run trigger (Some challengeHook) s ops = Some s' ->
  for_session sid (svc_emissions trigger (Some challengeHook) s ops) = [].
Proof.
  revert s. induction ops as [|o ops IH]; intros s Hg Hs Hrun; cbn [svc_run svc_emissions] in *; [done|].
  destruct (svc_step trigger (Some challengeHook) s o) as [s1|] eqn:Hst; [|done].
  destruct (step_once s o s1 sid Hg Hst) as (Hg1 & Hsilent & _). destruct (Hsilent Hs) as [H1 H2].
  by rewrite for_session_app, H1, (IH s1).
Qed.

Lemma run_once s ops s' sid :
  serving s -> svc_run trigger (Some challengeHook) s ops = Some s' ->
  let out := for_session sid (svc_emissions trigger (Some challengeHook) s ops) in
  out = [] \/ exists ops1 ops2 s1 c, ops = ops1 ++ ops2 /\ svc_run trigger (Some challengeHook) s ops1 = Some s1 /\
    sessionContext (s_runner s1) sid = Some c /\ challenge_frames c sid out.
Proof.
  cbn zeta. revert s. induction ops as [|o ops IH]; intros s Hg Hrun; cbn [svc_run svc_emissions] in *; [by left|].
  destruct (svc_step trigger (Some challengeHook) s o) as [s1|] eqn:Hst; [|done].
  destruct (step_once s o s1 sid Hg Hst) as (Hg1 & _ & [H1|(c & Hc & Hf & Hs)]); rewrite for_session_app.
  - rewrite H1. destruct (IH s1 Hg1 Hrun) as [H2|(ops1 & ops2 & s2 & c & -> & Hr & Hc & Hf)]; [by left|right].
    exists (o :: ops1), ops2, s2, c. cbn [svc_run]. by rewrite Hst.
  - right. rewrite (run_silent s1 ops s' sid Hg1 Hs Hrun), app_nil_r. exists [o], ops, s1, c. cbn [svc_run]. by rewrite Hst.
Qed.
End service.

(** C7: challenges go out at most once when frames are handled one at a time.
    In every run of the admission service in which each frame is dispatched and
    its hook run before the next frame is taken up, whatever its sockets send
    and its admin starts, and whichever sessions interleave, the hook sends
    nothing for a session or sends its frames exactly once: after one of the
    events, one frame to each participant, with the checks and the commitments
    the session's context then holds.  No message afterwards, of whatever type
    or sender, and no step of the pipeline makes it send them again.  The order
    matters: the hook looks at its mark before it sends and sets it afterwards,
    so two connections served at the same moment can both find it unset and both
    send; such overlapping hooks are not runs of this model. *)
Theorem challenge_once {St} `{HStore : Store St} `{HClock : Clock} `{HRange : GoRange} `{HFmt : GoFmt} `{HErr : GoErrors}
    `{HWire : Wire} `{HConv : GoConv} `{HForm : FormJSON} `{HChallenge : ChallengeJSON} `{HHandles : BoundCheck.ContextHandles}
    environ decode build (rn : running St) ops s' sid :
  admission_main environ decode build = inr rn -> svc_run (rn_trigger rn) (rn_hook rn) (rn_service rn) ops = Some s' ->
  let out := for_session sid (svc_emissions (rn_trigger rn) (rn_hook rn) (rn_service rn) ops) in
  out = [] \/ exists ops1 ops2 s1 c, ops = ops1 ++ ops2 /\ svc_run (rn_trigger rn) (rn_hook rn) (rn_service rn) ops1 = Some s1 /\
    sessionContext (s_runner s1) sid = Some c /\ challenge_frames c sid out.
Proof.
  unfold admission_main, boot, PipelineWithCrypto. destruct (Compose (admission_phases decode)) as [err|r0] eqn:Hr0; [done|].
  destruct (NewService _ _) as [err|s0] eqn:Hn; [done|]. intros [= <-]. cbn [rn_trigger rn_hook rn_service]. intros Hrun.
  apply (run_once decode r0 Hr0 _ s0 ops s' sid); [|done]. split.
  - unfold NewService, service_config in Hn. cbn in Hn. destruct ((zlen _ =? 0) && _); [done|].
    destruct ((zlen _ =? 0) && _); [done|]. injection Hn as <-. apply NewHub_ok.
  - apply (reached_tracks (admission_phases decode) r0 Start None _ (service_config environ _ _ r0) s0 [] s0 eq_refl Hn eq_refl).
Qed.

(** ** A session challenged once *)

Section witnesses.
#[local] Existing Instances BoundedAdmission.wit_range BoundedAdmission.wit_fmt BoundedAdmission.wit_clock
  BoundedAdmission.wit_handles BoundedAdmission.wit_json.
#[local] Instance chal_errors : GoErrors := fun _ => "error".
#[local] Instance chal_conv : GoConv := SealedBid.wit_conv.
#[local] Instance chal_json : ChallengeJSON := fun checks _ => Some [byte_of_Z (msize checks)].
#[local] Instance chal_wire : Wire := {|
  wire_encode := fun m => Some (Payload m);
  wire_decode := fun b => match b with [x] => Some (mkWSMessage "1" MsgInput "s" (Z_of_byte x) [x] "" None) | _ => None end;
  wire_time := fun _ => "" |}.

Definition chal_build (_ _ _ : Z) (_ _ _ : bytes) : session_crypto := Some (inr (Some ("handle", fun _ _ => inr []))).

Abbreviation wit_admission := (admission_main (St := InMemoryStore) (fun _ => "") wit_decode chal_build).

Definition chal_attrs : gmap string any :=
  list_to_map [("collective_pk", VString "01"); ("eval_mult_final", VString "02"); ("eval_sum_final", VString "03")].

(** Two parties, their inputs, and one input again. *)
Definition chal_ops : list svc_op :=
  [SvcHub (OpConnect 0 "a" "" "" true); SvcHub (OpConnect 0 "b" "" "" true); SvcStart 1 (Some ("s", ["a"; "b"], chal_attrs));
   SvcHub (OpFrame 0 2 [x01]); SvcHub (OpFrame 1 3 [x02]); SvcHub (OpFrame 1 4 [x03])].

Definition chal_sent : list outbound :=
  (fun p => OutTo p (mkWSMessage "" MsgChallenge "s" 0 [x02] "" None)) <$> ["a"; "b"].

Lemma admission_runs : is_inr wit_admission = true.
Proof. vm_compute. reflexivity. Qed.

Lemma chal_lives :
  match svc_run (rn_trigger (run_or_none wit_admission)) (rn_hook (run_or_none wit_admission))
    (rn_service (run_or_none wit_admission)) chal_ops with Some _ => true | None => false end = true.
Proof. vm_compute. reflexivity. Qed.

Lemma chal_emits :
  for_session "s" (svc_emissions (rn_trigger (run_or_none wit_admission)) (rn_hook (run_or_none wit_admission))
    (rn_service (run_or_none wit_admission)) chal_ops) = chal_sent.
Proof. vm_compute. reflexivity. Qed.

Lemma challenge_once_witness :
  exists ops1 ops2 s1 c, chal_ops = ops1 ++ ops2 /\
    svc_run (rn_trigger (run_or_none wit_admission)) (rn_hook (run_or_none wit_admission))
      (rn_service (run_or_none wit_admission)) ops1 = Some s1 /\
    sessionContext (s_runner s1) "s" = Some c /\ challenge_frames c "s" chal_sent.
Proof.
  pose proof chal_lives as Hl.
  destruct (svc_run (rn_trigger (run_or_none wit_admission)) (rn_hook (run_or_none wit_admission))
    (rn_service (run_or_none wit_admission)) chal_ops) as [s'|] eqn:Hrun; [|discriminate Hl].
  pose proof (challenge_once (fun _ => "") wit_decode chal_build (run_or_none wit_admission) chal_ops s' "s"
    (runs _ admission_runs) Hrun) as H.
  cbn zeta in H. rewrite chal_emits in H. destruct H as [H|H]; [discriminate H|exact H].
Defined.
End witnesses.
End AdmissionService.
