(* ===== verification/GoPath.v ===== *)
(** * Go strings as paths and text

    What the release tooling uses of Go's [strings], [path], [path/filepath]
    and [unicode/utf8], on strings as byte sequences, and the laws of cleaned
    paths. *)

From S2P Require Import Prelude.

#[local] Open Scope Z_scope.

Module GoPath.

(** A string literal of the source. *)
Definition lit (s : string) : bytes := bytes_of_string s.

Definition slash : byte := "/"%byte.
Definition newline : byte := x0a.

(** ** [strings] *)

Definition beq (a b : byte) : bool := bool_decide (a = b).

Definition in_range (lo hi : Z) (c : byte) : bool := (lo <=? Z_of_byte c) && (Z_of_byte c <=? hi).

Fixpoint HasPrefix (s prefix : bytes) {struct prefix} : bool :=
  match prefix, s with
  | [], _ => true
  | p :: prefix, c :: s => beq c p && HasPrefix s prefix
  | _ :: _, [] => false
  end.

Definition HasSuffix (s suffix : bytes) : bool := HasPrefix (reverse s) (reverse suffix).

Fixpoint Contains (s sub : bytes) : bool :=
  HasPrefix s sub || match s with [] => false | _ :: s => Contains s sub end.

Definition TrimSuffix (s suffix : bytes) : bytes := if HasSuffix s suffix then take (length s - length suffix) s else s.

(** Drop the leading bytes that satisfy [p]. *)
Fixpoint TrimLeftFunc (p : byte -> bool) (s : bytes) : bytes :=
  match s with
  | c :: s' => if p c then TrimLeftFunc p s' else s
  | [] => []
  end.

Definition TrimRightFunc (p : byte -> bool) (s : bytes) : bytes := reverse (TrimLeftFunc p (reverse s)).

(** [strings.Split] at one byte. *)
Fixpoint Split (sep : byte) (s : bytes) : list bytes :=
  match s with
  | [] => [[]]
  | c :: s =>
      if beq c sep then [] :: Split sep s
      else match Split sep s with [] => [[c]] | w :: ws => (c :: w) :: ws end
  end.

(** [strings.Join]. *)
Fixpoint Join (sep : byte) (ws : list bytes) : bytes :=
  match ws with
  | [] => []
  | [w] => w
  | w :: ws => w ++ sep :: Join sep ws
  end.

(** [strings.ToLower] on ASCII text. *)
Definition lower (c : byte) : byte := if in_range 65 90 c then byte_of_Z (Z_of_byte c + 32) else c.
Definition ToLower (s : bytes) : bytes := lower <$> s.

(** [unicode.IsSpace] below 128. *)
Definition is_space (c : byte) : bool := in_range 9 13 c || beq c " "%byte.

(** [strings.TrimSpace] and [strings.Fields] on ASCII text. *)
Definition TrimSpace (s : bytes) : bytes := TrimRightFunc is_space (TrimLeftFunc is_space s).

Fixpoint Fields (s : bytes) : list bytes :=
  match s with
  | [] => []
  | c :: s' =>
      if is_space c then Fields s'
      else match s' with
           | [] => [[c]]
           | d :: _ => if is_space d then [c] :: Fields s'
                       else match Fields s' with [] => [[c]] | w :: ws => (c :: w) :: ws end
           end
  end.

(** ** [unicode/utf8] *)

Definition continuation : byte -> bool := in_range 128 191.

(** [utf8.ValidString]: well-formed sequences of at most four bytes, without
    overlong forms and surrogates. *)
Fixpoint ValidString (s : bytes) : bool :=
  match s with
  | [] => true
  | a :: s =>
      if in_range 0 127 a then ValidString s
      else match s with
      | [] => false
      | b :: s =>
          if in_range 194 223 a then continuation b && ValidString s
          else match s with
          | [] => false
          | c :: s =>
              if in_range 224 239 a then
                in_range (if Z_of_byte a =? 224 then 160 else 128) (if Z_of_byte a =? 237 then 159 else 191) b &&
                continuation c && ValidString s
              else match s with
              | [] => false
              | d :: s =>
                  in_range 240 244 a &&
                  in_range (if Z_of_byte a =? 240 then 144 else 128) (if Z_of_byte a =? 244 then 143 else 191) b &&
                  continuation c && continuation d && ValidString s
              end
          end
      end
  end.

(** ** [path] and [path/filepath] on a Unix system *)

Definition dot : bytes := lit ".".
Definition dotdot : bytes := lit "..".

(** One component of a path being cleaned, on the reversed components before it. *)
Definition push (rooted : bool) (out : list bytes) (w : bytes) : list bytes :=
  if bool_decide (w = []) || bool_decide (w = dot) then out
  else if bool_decide (w = dotdot) then
    match out with
    | [] => if rooted then [] else [dotdot]
    | last :: rest => if bool_decide (last = dotdot) then dotdot :: out else rest
    end
  else w :: out.

Definition rooted (p : bytes) : bool := HasPrefix p [slash].

Definition cleaned (p : bytes) : list bytes := reverse (foldl (push (rooted p)) [] (Split slash p)).

(** [path.Clean] and [filepath.Clean]. *)
Definition Clean (p : bytes) : bytes :=
  match (if rooted p then [slash] else []) ++ Join slash (cleaned p) with
  | [] => dot
  | s => s
  end.

(** [filepath.Join]: empty elements are ignored. *)
Definition PathJoin (elems : list bytes) : bytes :=
  match filter (fun e => e <> []) elems with
  | [] => []
  | es => Clean (Join slash es)
  end.

(** [filepath.Base]. *)
Definition Base (p : bytes) : bytes :=
  match p with
  | [] => dot
  | _ =>
      let p := TrimRightFunc (beq slash) p in
      match last (Split slash p) with
      | Some (c :: w) => c :: w
      | _ => [slash]
      end
  end.

(** ** Splitting and joining *)

Lemma beq_spec a b : beq a b = true <-> a = b.
Proof. apply bool_decide_eq_true. Qed.

Lemma beq_refl a : beq a a = true.
Proof. by apply beq_spec. Qed.

Lemma beq_false a b : beq a b = false <-> a <> b.
Proof. apply bool_decide_eq_false. Qed.

Lemma HasPrefix_spec s p : HasPrefix s p = true <-> p `prefix_of` s.
Proof.
  revert s. induction p as [|c p IH]; intros s; [split; [intros _; apply prefix_nil|by destruct s]|].
  destruct s as [|d s]; cbn; [split; [done|by intros [k ?]]|].
  rewrite andb_true_iff, beq_spec, IH. split; [intros [-> Hp]; by apply prefix_cons|].
  intros Hp. split; [symmetry; by eapply prefix_cons_inv_1|by eapply prefix_cons_inv_2].
Qed.

Lemma HasSuffix_spec s p : HasSuffix s p = true <-> p `suffix_of` s.
Proof. unfold HasSuffix. rewrite HasPrefix_spec. symmetry. apply suffix_prefix_reverse. Qed.

Lemma TrimSuffix_app s p : TrimSuffix (s ++ p) p = s.
Proof.
  unfold TrimSuffix. replace (HasSuffix (s ++ p) p) with true by (symmetry; apply HasSuffix_spec; by exists s).
  rewrite length_app. by replace (length s + length p - length p)%nat with (length s) by lia; rewrite take_app_length.
Qed.

Lemma TrimSuffix_other s p : ~ p `suffix_of` s -> TrimSuffix s p = s.
Proof. intros Hs. unfold TrimSuffix. destruct (HasSuffix s p) eqn:E; [|done]. by apply HasSuffix_spec in E. Qed.

Lemma Split_nonempty sep s : Split sep s <> [].
Proof. destruct s as [|c s]; cbn; [done|]. destruct (beq c sep); [done|]. by destruct (Split sep s). Qed.

Lemma Split_pieces sep s : Forall (fun w => sep ∉ w) (Split sep s).
Proof.
  induction s as [|c s IH]; cbn; [by repeat constructor; apply not_elem_of_nil|].
  destruct (beq c sep) eqn:E; [constructor; [apply not_elem_of_nil|done]|]. apply beq_false in E.
  destruct (Split sep s) as [|w ws]; [repeat constructor; set_solver|].
  inversion IH; subst. constructor; [set_solver|done].
Qed.

Lemma Join_cons sep w ws : ws <> [] -> Join sep (w :: ws) = w ++ sep :: Join sep ws.
Proof. by destruct ws. Qed.

Lemma Join_Split sep s : Join sep (Split sep s) = s.
Proof.
  induction s as [|c s IH]; [done|]. cbn [Split]. pose proof (Split_nonempty sep s) as Hn.
  destruct (beq c sep) eqn:E.
  - apply beq_spec in E as ->. rewrite Join_cons by done. by rewrite IH.
  - destruct (Split sep s) as [|w ws]; [done|]. rewrite <- IH. by destruct ws.
Qed.

Lemma Split_app sep w s : sep ∉ w -> Split sep (w ++ sep :: s) = w :: Split sep s.
Proof.
  induction w as [|c w IH]; intros Hw; cbn; [by rewrite beq_refl|].
  apply not_elem_of_cons in Hw as [Hc Hw]. rewrite (proj2 (beq_false c sep)), IH by done. done.
Qed.

Lemma Split_free sep w : sep ∉ w -> Split sep w = [w].
Proof.
  induction w as [|c w IH]; intros Hw; [done|]. apply not_elem_of_cons in Hw as [Hc Hw].
  cbn. by rewrite (proj2 (beq_false c sep)), IH.
Qed.

Lemma Split_Join sep ws : ws <> [] -> Forall (fun w => sep ∉ w) ws -> Split sep (Join sep ws) = ws.
Proof.
  intros Hn Hf. induction Hf as [|w ws Hw Hf IH]; [done|]. destruct ws as [|v ws]; [by apply Split_free|].
  rewrite Join_cons, Split_app, IH by done. done.
Qed.

Lemma Join_app sep us vs : us <> [] -> vs <> [] -> Join sep (us ++ vs) = Join sep us ++ sep :: Join sep vs.
Proof.
  intros Hu Hv. induction us as [|u us IH]; [done|]. destruct us as [|u' us].
  - cbn [app]. by rewrite Join_cons.
  - change ((u :: u' :: us) ++ vs) with (u :: ((u' :: us) ++ vs)). rewrite Join_cons, IH, (Join_cons _ u (u' :: us)) by done. by rewrite <- app_assoc.
Qed.

Lemma elem_of_Join sep ws c : c ∈ Join sep ws -> c = sep \/ exists w, w ∈ ws /\ c ∈ w.
Proof.
  induction ws as [|w ws IH]; cbn [Join]; [by intros ?%not_elem_of_nil|]. destruct ws as [|v ws].
  - intros Hc. right. exists w. split; [left|done].
  - rewrite elem_of_app, elem_of_cons. intros [Hc|[Hc|Hc]]; [right; exists w; split; [left|done]|by left|].
    destruct (IH Hc) as [?|(x & Hx & ?)]; [by left|]. right. exists x. split; [by right|done].
Qed.

Lemma Split_elements sep s w c : w ∈ Split sep s -> c ∈ w -> c ∈ s.
Proof.
  revert w. induction s as [|d s IH]; intros w; cbn [Split]; [rewrite list_elem_of_singleton; by intros -> ?%not_elem_of_nil|].
  pose proof (Split_nonempty sep s) as Hn. destruct (beq d sep).
  - intros [->|Hw]%elem_of_cons Hc; [by apply not_elem_of_nil in Hc|right; by eapply IH].
  - destruct (Split sep s) as [|v vs]; [done|].
    intros [->|Hw]%elem_of_cons Hc; [|right; eapply IH; [by right|done]].
    apply elem_of_cons in Hc as [->|Hc]; [left|right; eapply IH; [left|done]].
Qed.

(** ** Cleaned paths *)

(** A component that names a member of a directory. *)
Definition proper (w : bytes) : Prop := w <> [] /\ slash ∉ w /\ w <> dot /\ w <> dotdot.

Lemma push_proper r out w : proper w -> push r out w = w :: out.
Proof.
  intros (H1 & _ & H2 & H3). unfold push. by rewrite !bool_decide_eq_false_2 by done.
Qed.

Lemma foldl_push_proper r out ws : Forall proper ws -> foldl (push r) out ws = reverse ws ++ out.
Proof.
  intros Hw. revert out. induction Hw as [|w ws Hw _ IH]; intros out; [done|].
  cbn [foldl]. rewrite push_proper, IH by done. by rewrite reverse_cons, <- app_assoc.
Qed.

Lemma proper_free ws : Forall proper ws -> Forall (fun w => slash ∉ w) ws.
Proof. intros Hw. eapply Forall_impl; [exact Hw|]. by intros w (_ & ? & _). Qed.

Lemma rooted_join ws : Forall proper ws -> rooted (Join slash ws) = false.
Proof.
  intros Hw. destruct Hw as [|w ws (Hn & Hs & _) _]; [done|]. destruct w as [|c w]; [done|].
  assert (c <> slash) as Hc by set_solver. unfold rooted. destruct ws; cbn; by rewrite (proj2 (beq_false c slash)).
Qed.

(** Proper components are kept. *)
Lemma Clean_proper ws : ws <> [] -> Forall proper ws -> Clean (Join slash ws) = Join slash ws.
Proof.
  intros Hn Hw. unfold Clean, cleaned. rewrite rooted_join, Split_Join, foldl_push_proper by (done || by apply proper_free).
  rewrite app_nil_r, reverse_involutive. cbn [app]. destruct Hw as [|w ws (Hw & _) _]; [done|].
  destruct w as [|c w]; [done|]. by destruct ws.
Qed.

Abbreviation nonempty := (filter (fun w : bytes => w <> [])).

Lemma foldl_push_plain r ws out : Forall (fun w => w <> dot /\ w <> dotdot) ws -> foldl (push r) out ws = reverse (nonempty ws) ++ out.
Proof.
  intros Hw. revert out. induction Hw as [|w l [H1 H2] _ IH]; intros out; [done|]. cbn [foldl]. rewrite filter_cons. unfold push at 2.
  rewrite (bool_decide_eq_false_2 (w = dot)), (bool_decide_eq_false_2 (w = dotdot)) by done. destruct (decide (w = [])) as [->|Hn].
  - rewrite decide_False by tauto. apply IH.
  - rewrite bool_decide_eq_false_2, decide_True, IH, reverse_cons by done. cbn. by rewrite <- app_assoc.
Qed.

Lemma nonempty_all ws : Forall (fun w => w <> []) (nonempty ws).
Proof. apply Forall_forall. by intros w [? _]%list_elem_of_filter. Qed.

Lemma Join_nonempty ws : ws <> [] -> Forall (fun w => w <> []) ws -> Join slash ws <> [].
Proof. intros Hn Hw. destruct Hw as [|w ws Hw _]; [done|]. destruct w as [|c w]; [done|]. by destruct ws. Qed.

Lemma proper_nonempty ws : ws <> [] -> Forall proper ws -> Join slash ws <> [].
Proof. intros Hn Hw. apply Join_nonempty; [done|]. eapply Forall_impl; [exact Hw|]. by intros w (? & _). Qed.

(** A relative path of plain components is its own cleaning only when none of
    them is empty. *)
Lemma Clean_fixed s : Forall (fun w => w <> dot /\ w <> dotdot) (Split slash s) -> Clean s = s -> rooted s = false ->
  Forall proper (Split slash s).
Proof.
  intros Hw Hc Hr. pose proof (Split_pieces slash s) as Hp.
  unfold Clean, cleaned in Hc. rewrite Hr, (foldl_push_plain _ _ _ Hw), app_nil_r, reverse_involutive in Hc. cbn [app] in Hc.
  assert (Hne : nonempty (Split slash s) <> []).
  { intros He. rewrite He in Hc. cbn in Hc. subst s. apply Forall_inv in Hw. vm_compute in Hw. by destruct Hw. }
  assert (Hj : Join slash (nonempty (Split slash s)) = s).
  { revert Hc. pose proof (Join_nonempty _ Hne (nonempty_all _)) as Hj. revert Hj. by destruct (Join slash (nonempty (Split slash s))). }
  assert (Hs : Split slash s = nonempty (Split slash s)).
  { rewrite <- Hj at 1. apply Split_Join; [done|]. apply Forall_forall. intros w [_ Hin]%list_elem_of_filter. rewrite Forall_forall in Hp. auto. }
  pose proof (nonempty_all (Split slash s)) as Hn. rewrite <- Hs in Hn. rewrite Forall_forall in Hw, Hp, Hn.
  apply Forall_forall. intros w Hin. destruct (Hw w Hin). split_and!; auto.
Qed.

Lemma Split_snoc sep s : Split sep (s ++ [sep]) = Split sep s ++ [[]].
Proof.
  induction s as [|c s IH]; cbn; [by rewrite beq_refl|]. rewrite IH. destruct (beq c sep); [done|].
  pose proof (Split_nonempty sep s). by destruct (Split sep s).
Qed.

(** A slash at the end is dropped. *)
Lemma Clean_trailing p : p <> [] -> Clean (p ++ [slash]) = Clean p.
Proof.
  intros Hp. unfold Clean, cleaned. replace (rooted (p ++ [slash])) with (rooted p) by (by destruct p).
  by rewrite Split_snoc, foldl_snoc.
Qed.

(** Joining proper components to a cleaned directory stays below it. *)
Lemma Clean_below dir ws : Clean dir = dir -> dir <> [slash] -> dir <> dot -> ws <> [] -> Forall proper ws ->
  Clean (dir ++ slash :: Join slash ws) = dir ++ slash :: Join slash ws.
Proof.
  intros Hc Hs Hd Hn Hw. assert (Hdir : dir <> []) by (by intros ->).
  assert (Hr : rooted (dir ++ slash :: Join slash ws) = rooted dir) by (by destruct dir).
  unfold Clean in Hc. assert (Hout : cleaned dir <> []).
  { intros He. rewrite He in Hc. destruct (rooted dir); [by apply Hs|by apply Hd]. }
  assert (Hcat : cleaned (dir ++ slash :: Join slash ws) = cleaned dir ++ ws).
  { unfold cleaned. rewrite Hr. rewrite <- (Join_Split slash dir) at 2.
    rewrite <- Join_app by (done || apply Split_nonempty).
    rewrite Split_Join, foldl_app, foldl_push_proper, reverse_app, reverse_involutive; [done|done| |].
    - intros [? ?]%app_eq_nil. done.
    - apply Forall_app. split; [apply Split_pieces|by apply proper_free]. }
  assert (Hpre : (if rooted dir then [slash] else []) ++ Join slash (cleaned dir) = dir).
  { revert Hc. destruct ((if rooted dir then [slash] else []) ++ Join slash (cleaned dir)); [|done]. by intros <-. }
  unfold Clean. rewrite Hr, Hcat, Join_app, app_assoc, Hpre by done. by destruct dir.
Qed.
End GoPath.
