(* ===== verification/ZipMembers.v ===== *)
(** * Members of the staged archives ([internal/releasebundle]: zipmembers.go,
    applexcframework.go, androidaar.go)

    The names an archive may have, and the members each platform's archive must
    have.  Opening an archive is a parameter. *)

From S2P Require Import Prelude GoPath.
Import GoPath.

#[local] Open Scope Z_scope.

Module ZipMembers.

(** [zip.File]: its header, and what opening and reading it gives. *)
Record File := mkFile {
  Name : bytes;
  NonUTF8 : bool;
  IsSymlink : bool;
  Open : string + (string + bytes)
}.

Inductive name_error :=
| AmbiguousFlag (name : bytes)
| EmptyOrInvalid (name : bytes)
| NotPortable (name : bytes) (c : byte)
| BackslashSeparator (name : bytes)
| AbsolutePath (name : bytes)
| NotCanonical (name : bytes)
| UnsafeComponent (name : bytes)
| SymbolicLink (name : bytes)
| Collides (name previous : bytes).

(** ** Names *)

Definition isPortableAppleZIPNameByte (value : byte) : bool :=
  in_range 97 122 value || in_range 65 90 value || in_range 48 57 value ||
  beq value "/"%byte || beq value "."%byte || beq value "_"%byte || beq value "-"%byte.

Definition hasWindowsDrivePrefix (name : bytes) : bool :=
  match name with
  | a :: b :: c :: _ => (in_range 65 90 a || in_range 97 122 a) && beq b ":"%byte && beq c slash
  | _ => false
  end.

Definition backslash : byte := "\"%byte.

Definition normalizedZIPMemberName (name : bytes) : bytes :=
  let normalized := (fun c => if beq c backslash then slash else c) <$> name in
  let normalized := TrimLeftFunc (beq slash) normalized in
  Clean (TrimSuffix normalized [slash]).

Definition validateZIPMemberName (name : bytes) : option name_error :=
  if bool_decide (name = []) || negb (ValidString name) then Some (EmptyOrInvalid name) else
  match List.find (fun c => negb (isPortableAppleZIPNameByte c)) name with
  | Some c => Some (NotPortable name c)
  | None =>
    if Contains name [backslash] then Some (BackslashSeparator name) else
    if HasPrefix name [slash] || hasWindowsDrivePrefix name then Some (AbsolutePath name) else
    let trimmed := TrimSuffix name [slash] in
    if bool_decide (trimmed = []) || bool_decide (Clean trimmed <> trimmed) then Some (NotCanonical name) else
    if existsb (fun component => bool_decide (component = dot) || bool_decide (component = dotdot)) (Split slash trimmed)
    then Some (UnsafeComponent name) else None
  end.

Fixpoint validate_from (seen : gmap bytes bytes) (files : list File) : option name_error :=
  match files with
  | [] => None
  | file :: files =>
    let name := Name file in
    if NonUTF8 file then Some (AmbiguousFlag name) else
    match validateZIPMemberName name with
    | Some e => Some e
    | None =>
      if IsSymlink file then Some (SymbolicLink name) else
      let collisionKey := ToLower (normalizedZIPMemberName name) in
      match seen !! collisionKey with
      | Some previous => Some (Collides name previous)
      | None => validate_from (<[collisionKey := name]> seen) files
      end
    end
  end.

Definition validateZIPMemberNames (files : list File) : option name_error := validate_from ∅ files.

(** ** Required members *)

(** [zip.OpenReader]. *)
Class Archives := OpenReader : bytes -> string + list File.

Inductive contents_error :=
| CannotOpen (path : bytes) (e : string)
| BadNames (path : bytes) (e : name_error)
| MissingMacOSLibrary (path : bytes)
| MissingBridge (path slice : bytes) (hasLib hasHeader hasModulemap : bool)
| MissingLibraries (path abi : bytes) (missing : list bytes).

Definition present (files : list File) (member : bytes) : bool := bool_decide (member ∈ Name <$> files).

Definition slice_prefix (slice : bytes) : bytes := lit "AresPrivacyCore.xcframework/" ++ slice ++ lit "/".

Definition check_slice (path : bytes) (files : list File) (slice : bytes) : option contents_error :=
  let prefix := slice_prefix slice in
  let hasLib := present files (prefix ++ lit "libAresPrivacyCore.a") in
  let hasHeader := present files (prefix ++ lit "Headers/openfhe_wrapper.h") in
  let hasModulemap := present files (prefix ++ lit "Headers/module.modulemap") in
  if bool_decide (slice = lit "macos-arm64") && negb hasLib then Some (MissingMacOSLibrary path) else
  if negb hasLib || negb hasHeader || negb hasModulemap then Some (MissingBridge path slice hasLib hasHeader hasModulemap) else None.

(** The first error of a loop. *)
Fixpoint first_error {A E} (check : A -> option E) (xs : list A) : option E :=
  match xs with
  | [] => None
  | x :: xs => match check x with Some e => Some e | None => first_error check xs end
  end.

Definition checkAppleXCFrameworkContents `{Archives} (path : bytes) (requiredPlatforms : list bytes) : option contents_error :=
  match OpenReader path with
  | inl e => Some (CannotOpen path e)
  | inr files =>
    match validateZIPMemberNames files with
    | Some e => Some (BadNames path e)
    | None => first_error (check_slice path files) requiredPlatforms
    end
  end.

Definition requiredAndroidLibraries : list bytes :=
  [lit "libares_fhe_jni.so"; lit "libOPENFHEcore.so"; lit "libOPENFHEpke.so"; lit "libOPENFHEbinfhe.so"].

Definition abi_member (abi library : bytes) : bytes := lit "jni/" ++ abi ++ lit "/" ++ library.

Definition check_abi (path : bytes) (files : list File) (abi : bytes) : option contents_error :=
  match filter (fun library => present files (abi_member abi library) = false) requiredAndroidLibraries with
  | [] => None
  | missing => Some (MissingLibraries path abi missing)
  end.

Definition checkAndroidAARContents `{Archives} (path : bytes) (requiredABIs : list bytes) : option contents_error :=
  match OpenReader path with
  | inl e => Some (CannotOpen path e)
  | inr files => first_error (check_abi path files) requiredABIs
  end.

(** ** What the checks accept *)

Lemma no_error {A E} (check : A -> option E) xs : first_error check xs = None <-> Forall (fun x => check x = None) xs.
Proof.
  induction xs as [|x xs IH]; cbn; [by split|]. rewrite Forall_cons, <- IH. destruct (check x); [|tauto]. split; [done|by intros [? _]].
Qed.

(** A portable name: one or more proper components of portable bytes, and at
    most one slash after them. *)
Definition portable_component (w : bytes) : Prop := proper w /\ Forall (fun c => isPortableAppleZIPNameByte c = true) w.

Definition portable_name (name : bytes) (ws : list bytes) : Prop :=
  ws <> [] /\ Forall portable_component ws /\ (name = Join slash ws \/ name = Join slash ws ++ [slash]).

Lemma portable_ascii c : isPortableAppleZIPNameByte c = true -> in_range 0 127 c = true /\ c <> backslash /\ c <> ":"%byte.
Proof. destruct c; try done; intros _; split_and!; done. Qed.

Lemma ascii_valid s : Forall (fun c => in_range 0 127 c = true) s -> ValidString s = true.
Proof. induction 1 as [|c s Hc _ IH]; [done|]. cbn [ValidString]. by rewrite Hc. Qed.

Lemma find_None {A} (p : A -> bool) l : List.find p l = None <-> Forall (fun x => p x = false) l.
Proof.
  induction l as [|x l IH]; cbn; [by split|]. rewrite Forall_cons, <- IH. destruct (p x); [split; [done|by intros [? _]]|tauto].
Qed.

Lemma portable_bytes name : List.find (fun c => negb (isPortableAppleZIPNameByte c)) name = None <->
  Forall (fun c => isPortableAppleZIPNameByte c = true) name.
Proof. rewrite find_None. apply Forall_iff. intros c. by rewrite negb_false_iff. Qed.

(** Without a backslash or a colon the separator and drive checks cannot fail. *)
Lemma Contains_elem s c : Contains s [c] = true <-> c ∈ s.
Proof.
  induction s as [|d s IH]; cbn; [split; [done|by intros ?%not_elem_of_nil]|].
  rewrite andb_true_r, orb_true_iff, IH, elem_of_cons, beq_spec. naive_solver.
Qed.

Lemma portable_no_drive name : Forall (fun c => isPortableAppleZIPNameByte c = true) name -> hasWindowsDrivePrefix name = false.
Proof.
  intros Hp. destruct Hp as [|a s1 _ [|b s2 Hb [|c s3 _ _]]]; try done. cbn.
  apply portable_ascii in Hb as (_ & _ & Hb). rewrite (proj2 (beq_false b _)) by done. by rewrite andb_false_r.
Qed.

Lemma component_plain ws :
  existsb (fun component => bool_decide (component = dot) || bool_decide (component = dotdot)) ws = false <->
  Forall (fun w => w <> dot /\ w <> dotdot) ws.
Proof.
  induction ws as [|w ws IH]; cbn [existsb]; [by split|]. rewrite orb_false_iff, Forall_cons, IH, orb_false_iff, !bool_decide_eq_false. done.
Qed.

Lemma portable_proper ws : Forall portable_component ws -> Forall proper ws.
Proof. intros Hw. eapply Forall_impl; [exact Hw|]. by intros w [? _]. Qed.

Lemma Join_portable ws : Forall portable_component ws -> Forall (fun c => isPortableAppleZIPNameByte c = true) (Join slash ws).
Proof.
  intros Hw. apply Forall_forall. intros c [->|(w & Hin & Hc)]%elem_of_Join; [done|].
  rewrite Forall_forall in Hw. destruct (Hw w Hin) as [_ Hp]. rewrite Forall_forall in Hp. auto.
Qed.

(** The last byte of proper components is no slash. *)
Lemma Join_no_slash ws : ws <> [] -> Forall proper ws -> ~ [slash] `suffix_of` Join slash ws.
Proof.
  intros Hn Hw [s Hs]. induction Hw as [|w ws Hw Hws IH] in s, Hs, Hn |- *; [done|]. destruct ws as [|v ws].
  - destruct Hw as (_ & Hw & _). apply Hw. cbn in Hs. rewrite Hs. apply elem_of_app. right. left.
  - rewrite Join_cons in Hs by done. assert (Hl : last (Join slash (v :: ws)) = Some slash).
    { destruct (exists_last (proper_nonempty (v :: ws) ltac:(done) Hws)) as (t & c & Ht).
      rewrite Ht in Hs |- *. rewrite app_comm_cons, app_assoc in Hs. apply app_inj_tail in Hs as [_ ->]. by rewrite last_snoc. }
    apply last_Some in Hl as [t Ht]. apply (IH ltac:(done) t Ht).
Qed.

Lemma TrimSuffix_portable name ws : portable_name name ws -> TrimSuffix name [slash] = Join slash ws.
Proof.
  intros (Hn & Hw & [->| ->]); [|apply TrimSuffix_app]. apply TrimSuffix_other. apply Join_no_slash; [done|by apply portable_proper].
Qed.

Lemma portable_name_bytes name ws : portable_name name ws -> Forall (fun c => isPortableAppleZIPNameByte c = true) name.
Proof. intros (_ & Hw & [->| ->]); [|apply Forall_app; split; [|by repeat constructor]]; by apply Join_portable. Qed.

Lemma portable_relative name ws : portable_name name ws -> HasPrefix name [slash] = false.
Proof.
  intros (Hn & Hw & Hname). apply portable_proper in Hw as Hp. pose proof (rooted_join ws Hp) as Hr.
  pose proof (proper_nonempty ws Hn Hp) as Hj.
  unfold rooted in Hr. destruct Hname as [->| ->]; [done|]. by destruct (Join slash ws).
Qed.

Lemma TrimSuffix_cases s : s = TrimSuffix s [slash] \/ s = TrimSuffix s [slash] ++ [slash].
Proof.
  unfold TrimSuffix. destruct (HasSuffix s [slash]) eqn:Hs; [|by left]. right. apply HasSuffix_spec in Hs as [t ->].
  rewrite length_app. cbn [length]. replace (length t + 1 - 1)%nat with (length t) by lia. by rewrite take_app_length.
Qed.

(** The name check accepts exactly the portable names. *)
Lemma valid_name_spec name : validateZIPMemberName name = None <-> exists ws, portable_name name ws.
Proof.
  unfold validateZIPMemberName. split.
  - destruct (bool_decide (name = []) || negb (ValidString name)); [done|].
    destruct (List.find _ name) eqn:Hf; [done|]. apply portable_bytes in Hf.
    destruct (Contains name [backslash]); [done|]. destruct (HasPrefix name [slash]) eqn:Hr; [done|].
    destruct (hasWindowsDrivePrefix name); [done|]. cbn [orb].
    destruct (bool_decide (TrimSuffix name [slash] = [])) eqn:He; [done|]. destruct (bool_decide (Clean _ <> _)) eqn:Hc; [done|].
    destruct (existsb _ _) eqn:Hx; [done|]. intros _. apply component_plain in Hx. cbn [orb] in *.
    apply bool_decide_eq_false in He, Hc. apply dec_stable in Hc.
    pose proof (TrimSuffix_cases name) as Hname.
    assert (Hroot : rooted (TrimSuffix name [slash]) = false).
    { unfold rooted. destruct (TrimSuffix name [slash]) as [|c t]; [done|]. destruct Hname as [Hname|Hname]; rewrite Hname in Hr; exact Hr. }
    pose proof (Clean_fixed _ Hx Hc Hroot) as Hp. exists (Split slash (TrimSuffix name [slash])). unfold portable_name.
    rewrite Join_Split. split_and!; [apply Split_nonempty| |done]. apply Forall_forall. intros w Hw. rewrite Forall_forall in Hp. split; [auto|].
    apply Forall_forall. intros c Hcw. rewrite Forall_forall in Hf. apply Hf. pose proof (Split_elements _ _ _ _ Hw Hcw) as Hin.
    destruct Hname as [->| ->]; [done|]. apply elem_of_app. by left.
  - intros (ws & Hws). pose proof (portable_name_bytes _ _ Hws) as Hb. pose proof (portable_relative _ _ Hws) as Hr.
    rewrite (TrimSuffix_portable _ _ Hws). rewrite (proj2 (portable_bytes name)), Hr, portable_no_drive by done.
    rewrite ascii_valid by (eapply Forall_impl; [exact Hb|]; by intros c (? & _)%portable_ascii).
    assert (Hback : Contains name [backslash] = false).
    { apply not_true_iff_false. intros Hin%Contains_elem. rewrite Forall_forall in Hb. by apply Hb in Hin as (_ & ? & _)%portable_ascii. }
    destruct Hws as (Hn & Hw & Hname). apply portable_proper in Hw as Hp.
    pose proof (proper_nonempty ws Hn Hp) as Hj.
    rewrite Hback, (bool_decide_eq_false_2 (name = [])) by (destruct Hname as [->| ->]; [done|by destruct (Join slash ws)]).
    cbn [orb negb]. rewrite (bool_decide_eq_false_2 (Join slash ws = [])), Clean_proper by done. cbn [orb].
    rewrite bool_decide_eq_false_2 by tauto. rewrite Split_Join by (done || by apply proper_free).
    rewrite (proj2 (component_plain ws)); [done|]. eapply Forall_impl; [exact Hp|]. by intros w (_ & _ & ? & ?).
Qed.

(** A member that passes on its own. *)
Definition acceptable (f : File) : Prop := NonUTF8 f = false /\ IsSymlink f = false /\ exists ws, portable_name (Name f) ws.

(** The name of a member, the same for all that a case-insensitive file system
    would put in one place. *)
Definition place (f : File) : bytes := ToLower (TrimSuffix (Name f) [slash]).

Lemma map_no_backslash (name : bytes) : backslash ∉ name -> (fun c => if beq c backslash then slash else c) <$> name = name.
Proof.
  intros Hb. induction name as [|c name IH]; [done|]. apply not_elem_of_cons in Hb as [Hc Hb]. cbn.
  rewrite (proj2 (beq_false c backslash)) by done. f_equal. by apply IH.
Qed.

Lemma normalized_portable name ws : portable_name name ws -> normalizedZIPMemberName name = TrimSuffix name [slash].
Proof.
  intros Hws. unfold normalizedZIPMemberName. rewrite map_no_backslash.
  - pose proof (portable_relative _ _ Hws) as Hr. replace (TrimLeftFunc (beq slash) name) with name.
    + rewrite (TrimSuffix_portable _ _ Hws). destruct Hws as (? & ? & _). apply Clean_proper; [done|by apply portable_proper].
    + destruct name as [|c name]; [done|]. cbn in Hr |- *. rewrite andb_true_r in Hr. apply beq_false in Hr.
      by rewrite (proj2 (beq_false slash c)).
  - intros Hin. pose proof (portable_name_bytes _ _ Hws) as Hb. rewrite Forall_forall in Hb.
    by apply Hb in Hin as (_ & ? & _)%portable_ascii.
Qed.

Lemma validate_from_spec seen files :
  validate_from seen files = None <->
  Forall acceptable files /\ NoDup (place <$> files) /\ Forall (fun f => seen !! place f = None) files.
Proof.
  revert seen. induction files as [|f files IH]; intros seen; cbn [validate_from]; [by split; [repeat constructor|]|].
  rewrite !Forall_cons, fmap_cons, NoDup_cons. unfold acceptable at 1. destruct (NonUTF8 f); [naive_solver|].
  destruct (validateZIPMemberName (Name f)) as [e|] eqn:Hv.
  { split; [done|]. intros [[(_ & _ & Hws) _] _]. by apply valid_name_spec in Hws; rewrite Hv in Hws. }
  apply valid_name_spec in Hv as [ws Hws]. destruct (IsSymlink f); [naive_solver|].
  rewrite (normalized_portable _ _ Hws). fold (place f). destruct (seen !! place f) eqn:Hs; [naive_solver|].
  rewrite IH. split.
  - intros (Ha & Hd & Hn). split_and!; eauto.
    + intros (g & Hg & Hin)%list_elem_of_fmap. rewrite Forall_forall in Hn. apply Hn in Hin. rewrite <- Hg, lookup_insert_eq in Hin. done.
    + eapply Forall_impl; [exact Hn|]. by intros g [? _]%lookup_insert_None.
  - intros ([_ Ha] & [Hf Hd] & _ & Hn). split_and!; [done..|]. apply Forall_forall. intros g Hg. rewrite Forall_forall in Hn.
    apply lookup_insert_None. split; [by apply Hn|]. intros Hp. apply Hf. rewrite Hp. by apply list_elem_of_fmap_2.
Qed.

Lemma join_below dir name ws : Clean dir = dir -> dir <> [slash] -> dir <> dot -> portable_name name ws ->
  PathJoin [dir; name] = dir ++ slash :: TrimSuffix name [slash].
Proof.
  intros Hc Hs Hd Hws. rewrite (TrimSuffix_portable _ _ Hws). destruct Hws as (Hn & Hw & Hname). apply portable_proper in Hw as Hp.
  pose proof (proper_nonempty ws Hn Hp) as Hj. assert (dir <> []) by (by intros ->).
  assert (name <> []) by (destruct Hname as [->| ->]; [done|by destruct (Join slash ws)]).
  unfold PathJoin. rewrite !filter_cons_True by done. cbn [Join filter list_filter]. destruct Hname as [->| ->].
  - by apply Clean_below.
  - rewrite app_comm_cons, app_assoc, Clean_trailing by (by destruct dir). by apply Clean_below.
Qed.

(** C24: archives are safe to unpack.  The names of an archive are accepted
    exactly when every member is no symbolic link and has a relative path of proper
    components over a portable set of bytes, and no two have one name up to
    case.  Below any clean directory each member of an accepted archive is then
    joined to exactly its own name, never outside, and no two members are
    joined to one path even when case is ignored. *)
Theorem zip_names_safe files :
  (validateZIPMemberNames files = None <-> Forall acceptable files /\ NoDup (place <$> files)) /\
  (validateZIPMemberNames files = None -> forall dir, Clean dir = dir -> dir <> lit "/" -> dir <> lit "." ->
    (forall f, f ∈ files -> PathJoin [dir; Name f] = dir ++ lit "/" ++ TrimSuffix (Name f) (lit "/")) /\
    forall i j f g, files !! i = Some f -> files !! j = Some g ->
      ToLower (PathJoin [dir; Name f]) = ToLower (PathJoin [dir; Name g]) -> i = j).
Proof.
  assert (Hiff : validateZIPMemberNames files = None <-> Forall acceptable files /\ NoDup (place <$> files)).
  { unfold validateZIPMemberNames. rewrite validate_from_spec. split; [tauto|]. intros [Ha Hd]. split_and!; [done..|].
    by apply Forall_forall. }
  split; [done|]. intros [Ha Hd]%Hiff dir Hc Hs Hdot. rewrite Forall_forall in Ha.
  assert (Hjoin : forall f, f ∈ files -> PathJoin [dir; Name f] = dir ++ slash :: TrimSuffix (Name f) [slash]).
  { intros f (_ & _ & ws & Hws)%Ha. by eapply join_below. }
  split; [done|]. intros i j f g Hi Hj. rewrite !Hjoin by (by eapply list_elem_of_lookup_2). unfold ToLower. rewrite !fmap_app. intros Heq.
  apply app_inv_head in Heq. eapply NoDup_lookup; [exact Hd| |].
  - rewrite list_lookup_fmap, Hi. done.
  - rewrite list_lookup_fmap, Hj. cbn. f_equal. cbn in Heq. by injection Heq as Heq.
Qed.

Lemma zip_names_safe_witness :
  let files := [mkFile (lit "AresPrivacyCore.xcframework/") false false (inl EmptyString);
                mkFile (lit "AresPrivacyCore.xcframework/Info.plist") false false (inr (inr []))] in
  let dir := lit "/tmp/out" in
  validateZIPMemberNames files = None /\
  forall i j f g, files !! i = Some f -> files !! j = Some g ->
    ToLower (PathJoin [dir; Name f]) = ToLower (PathJoin [dir; Name g]) -> i = j.
Proof. intros files dir. split; [by vm_compute|]. apply (zip_names_safe files); by vm_compute. Defined.

(** ** Required members *)

Definition bridge_members (slice : bytes) : list bytes :=
  (slice_prefix slice ++.) <$> [lit "libAresPrivacyCore.a"; lit "Headers/openfhe_wrapper.h"; lit "Headers/module.modulemap"].

Lemma check_slice_None path files slice : check_slice path files slice = None <-> Forall (fun m => m ∈ Name <$> files) (bridge_members slice).
Proof.
  unfold check_slice, bridge_members, present. cbn [fmap list_fmap]. rewrite !Forall_cons, Forall_nil.
  repeat case_bool_decide; cbn; naive_solver.
Qed.

Lemma check_abi_None path files abi :
  check_abi path files abi = None <-> Forall (fun library => abi_member abi library ∈ Name <$> files) requiredAndroidLibraries.
Proof.
  unfold check_abi. destruct (filter _ _) as [|l ls] eqn:Hf.
  - split; [|done]. intros _. apply Forall_forall. intros library Hl.
    destruct (present files (abi_member abi library)) eqn:Hp; [by apply bool_decide_eq_true in Hp|].
    assert (Hin : library ∈ filter (fun l => present files (abi_member abi l) = false) requiredAndroidLibraries) by (by apply list_elem_of_filter).
    rewrite Hf in Hin. by apply not_elem_of_nil in Hin.
  - split; [done|]. intros Hall. rewrite Forall_forall in Hall.
    assert (Hin : l ∈ filter (fun l => present files (abi_member abi l) = false) requiredAndroidLibraries) by (rewrite Hf; left).
    apply list_elem_of_filter in Hin as [Hp Hl]. apply Hall in Hl. apply bool_decide_eq_false in Hp. done.
Qed.
End ZipMembers.
