(* ===== verification/SwiftManifest.v ===== *)
(** * The scan of the release's Swift manifest ([internal/releasebundle/swiftmanifest.go])

    Comments are blanked, calls are found by balancing their parentheses, and
    their literal arguments are read by two regular expressions.  A position of
    the source text is the text from there on; loops take the length of the
    text as fuel, and never run out of it. *)

From S2P Require Import Prelude GoPath.
Import GoPath.

#[local] Open Scope Z_scope.

Module SwiftManifest.

Inductive swift_error :=
| Multiline
| UnterminatedString
| UnterminatedRawString
| UnterminatedBlock
| Unbalanced
| UnterminatedCall (token : bytes) (e : swift_error)
| CannotInspect (e : swift_error)
| Forbidden (pattern : bytes)
| LocalPath (call : bytes)
| FileURL (call : bytes)
| MissingBridgeTarget
| SeveralBridgeTargets (n : Z)
| WrongBridgePath (got : bytes)
| OutOfFuel.

Definition quote : byte := x22.
Definition triple : bytes := [quote; quote; quote].
Definition hash : byte := "#"%byte.
Definition space : byte := " "%byte.

(** The longest prefix in a class, and what follows it. *)
Fixpoint span (p : byte -> bool) (s : bytes) : bytes * bytes :=
  match s with
  | c :: s' => if p c then let '(w, r) := span p s' in (c :: w, r) else ([], s)
  | [] => ([], [])
  end.

(** ** String literals *)

(** [for i := start + 1; ...] to the closing quote, over escapes. *)
Fixpoint closing (s : bytes) (i : nat) : option nat :=
  match s with
  | [] => None
  | c :: s =>
      if beq c "\"%byte then match s with [] => None | _ :: s => closing s (i + 2) end
      else if beq c quote then Some (i + 1)%nat else closing s (i + 1)
  end.

Fixpoint count_hashes (s : bytes) : nat :=
  match s with c :: s => if beq c hash then S (count_hashes s) else 0 | [] => 0 end.

Fixpoint raw_closing (hashes : nat) (s : bytes) (i : nat) : option nat :=
  match s with
  | [] => None
  | c :: s =>
      if beq c quote && (hashes <=? length s)%nat && HasPrefix s (replicate hashes hash) then Some (i + 1 + hashes)%nat
      else raw_closing hashes s (i + 1)
  end.

(** The length of the literal that begins here, if one does. *)
Definition swiftStringEnd (s : bytes) : swift_error + option nat :=
  match s with
  | [] => inr None
  | c :: rest =>
    if beq c quote then
      if HasPrefix s triple then inl Multiline
      else match closing rest 1 with Some n => inr (Some n) | None => inl UnterminatedString end
    else if negb (beq c hash) then inr None
    else
      let hashes := count_hashes s in
      match drop hashes s with
      | [] => inr None
      | q :: body =>
        if negb (beq q quote) then inr None
        else if HasPrefix (q :: body) triple then inl Multiline
        else match raw_closing hashes body (hashes + 1) with Some n => inr (Some n) | None => inl UnterminatedRawString end
      end
  end.

(** ** Comments *)

(** [for i < len(raw) && raw[i] != '\n'] *)
Definition line_rest (s : bytes) : nat := length (span (fun c => negb (beq c newline)) s).1.

Definition emit (out : bytes) (r : swift_error + bytes) : swift_error + bytes :=
  match r with inl e => inl e | inr s => inr (out ++ s) end.

Definition open_block : bytes := lit "/*".
Definition close_block : bytes := lit "*/".
Definition open_line : bytes := lit "//".

Fixpoint strip_loop (fuel : nat) (blockDepth : nat) (s : bytes) : swift_error + bytes :=
  match fuel with
  | O => inl OutOfFuel
  | S fuel =>
    match s with
    | [] => if bool_decide (blockDepth = 0%nat) then inr [] else inl UnterminatedBlock
    | c :: rest =>
      if bool_decide (0 < blockDepth)%nat then
        if HasPrefix s open_block then emit [space; space] (strip_loop fuel (blockDepth + 1) (drop 2 s))
        else if HasPrefix s close_block then emit [space; space] (strip_loop fuel (blockDepth - 1) (drop 2 s))
        else emit [if beq c newline then newline else space] (strip_loop fuel blockDepth rest)
      else match swiftStringEnd s with
      | inl e => inl e
      | inr (Some n) => emit (take n s) (strip_loop fuel blockDepth (drop n s))
      | inr None =>
        if HasPrefix s open_line then
          let n := line_rest s in emit (replicate n space) (strip_loop fuel blockDepth (drop n s))
        else if HasPrefix s open_block then emit [space; space] (strip_loop fuel 1 (drop 2 s))
        else emit [c] (strip_loop fuel blockDepth rest)
      end
    end
  end.

Definition stripSwiftComments (raw : bytes) : swift_error + bytes := strip_loop (S (length raw)) 0 raw.

(** ** Calls *)

Fixpoint balanced_loop (fuel : nat) (depth i : nat) (s : bytes) : swift_error + nat :=
  match fuel with
  | O => inl OutOfFuel
  | S fuel =>
    match s with
    | [] => inl Unbalanced
    | c :: rest =>
      match swiftStringEnd s with
      | inl e => inl e
      | inr (Some n) => balanced_loop fuel depth (i + n) (drop n s)
      | inr None =>
        if beq c "("%byte then balanced_loop fuel (depth + 1) (i + 1) rest
        else if beq c ")"%byte then
          if bool_decide (depth - 1 = 0)%nat then inr (i + 1)%nat else balanced_loop fuel (depth - 1) (i + 1) rest
        else balanced_loop fuel depth (i + 1) rest
      end
    end
  end.

(** How far the call's arguments reach, its closing parenthesis included. *)
Definition swiftBalancedCallEnd (s : bytes) : swift_error + nat := balanced_loop (S (length s)) 1 0 s.

Definition blank (c : byte) : bool := beq c space || beq c x09 || beq c newline || beq c x0d.

Fixpoint calls_loop (fuel : nat) (token : bytes) (s : bytes) : swift_error + list bytes :=
  match fuel with
  | O => inl OutOfFuel
  | S fuel =>
    match s with
    | [] => inr []
    | _ :: rest =>
      match swiftStringEnd s with
      | inl e => inl e
      | inr (Some n) => calls_loop fuel token (drop n s)
      | inr None =>
        if negb (HasPrefix s token) then calls_loop fuel token rest
        else match TrimLeftFunc blank (drop (length token) s) with
        | p :: args =>
          if negb (beq p "("%byte) then calls_loop fuel token rest
          else match swiftBalancedCallEnd args with
          | inl e => inl (UnterminatedCall token e)
          | inr n =>
            match calls_loop fuel token (drop n args) with
            | inl e => inl e
            | inr calls => inr (take (n - 1) args :: calls)
            end
          end
        | [] => calls_loop fuel token rest
        end
      end
    end
  end.

Definition swiftCalls (raw token : bytes) : swift_error + list bytes := calls_loop (S (length raw)) token raw.

(** ** Arguments *)

(** The classes of the regular expressions. *)
Definition re_space (c : byte) : bool := beq c x09 || beq c newline || beq c x0c || beq c x0d || beq c space.
Definition re_alpha (c : byte) : bool := in_range 65 90 c || in_range 97 122 c.
Definition re_word (c : byte) : bool := re_alpha c || in_range 48 57 c || beq c "_"%byte.
Definition plain (c : byte) : bool := negb (beq c quote) && negb (beq c "\"%byte).

Definition expect (c : byte) (s : bytes) : option bytes :=
  match s with d :: s => if beq d c then Some s else None | [] => None end.

(** A name, a colon and a quoted value, with white space around them: each class
    of [literalNamedArgument] is disjoint from what follows it, so the greedy
    match is the only one. *)
Definition named_argument (s : bytes) : option (bytes * bytes * bytes) :=
  let '(name, s) := span re_word (TrimLeftFunc re_space s) in
  match name with
  | [] => None
  | c :: _ =>
    if negb (re_alpha c || beq c "_"%byte) then None else
    s ← expect ":"%byte (TrimLeftFunc re_space s);
    s ← expect quote (TrimLeftFunc re_space s);
    let '(value, s) := span plain s in
    s ← expect quote s; Some (name, value, s)
  end.

(** At the start of the text, or after a comma. *)
Definition after_separator {A} (start : bool) (s : bytes) (k : bytes -> option A) : option A :=
  match (if start then k s else None) with
  | Some r => Some r
  | None => s ← expect ","%byte s; k s
  end.

(** [literalNamedArgument.FindAllStringSubmatch(call, -1)]. *)
Fixpoint arguments_loop (fuel : nat) (start : bool) (s : bytes) : list (bytes * bytes) :=
  match fuel with
  | O => []
  | S fuel =>
    match after_separator start s named_argument with
    | Some (name, value, s) => (name, value) :: arguments_loop fuel false s
    | None => match s with [] => [] | _ :: s => arguments_loop fuel false s end
    end
  end.

Definition literal_arguments (call : bytes) : list (bytes * bytes) := arguments_loop (S (length call)) true call.

Definition swiftLiteralArgument (call want : bytes) : bytes :=
  default [] (snd <$> List.find (fun m => bool_decide (m.1 = want)) (literal_arguments call)).

(** The label [path] with its colon. *)
Definition path_label (s : bytes) : option unit :=
  let s := TrimLeftFunc re_space s in
  if HasPrefix s (lit "path") then _ ← expect ":"%byte (TrimLeftFunc re_space (drop 4 s)); Some tt else None.

Fixpoint path_from (start : bool) (s : bytes) : bool :=
  match after_separator start s path_label with
  | Some _ => true
  | None => match s with [] => false | _ :: s => path_from false s end
  end.

(** [localPathArgument.MatchString(call)]. *)
Definition localPathArgument (call : bytes) : bool := path_from true call.

(** ** The gate *)

Definition requiredBridgeTargetName : bytes := lit "COpenFHEBridge".
Definition requiredBridgeTargetPath : bytes := lit "Artifacts/AresPrivacyCore.xcframework".

Definition forbiddenSwiftManifestSubstrings : list bytes :=
  [lit "ProcessInfo.processInfo.environment"; lit "getenv("; lit "file://"; lit "/usr/local"; lit "/opt/homebrew";
   lit "ARES_OPENFHE"; lit "ARES_CORE_SWIFT_PATH"].

Fixpoint reject_local (calls : list bytes) : option swift_error :=
  match calls with
  | [] => None
  | call :: calls =>
    if localPathArgument call then Some (LocalPath call) else
    if Contains call (lit "file://") then Some (FileURL call) else reject_local calls
  end.

Definition rejectLocalPackagePathDependencies (raw : bytes) : option swift_error :=
  match swiftCalls raw (lit ".package") with
  | inl e => Some e
  | inr calls => reject_local calls
  end.

Definition requireStagedBridgeTarget (raw : bytes) : option swift_error :=
  match swiftCalls raw (lit ".binaryTarget") with
  | inl e => Some e
  | inr calls =>
    match filter (fun call => swiftLiteralArgument call (lit "name") = requiredBridgeTargetName) calls with
    | [] => Some MissingBridgeTarget
    | [call] =>
      let got := swiftLiteralArgument call (lit "path") in
      if bool_decide (got <> requiredBridgeTargetPath) then Some (WrongBridgePath got) else None
    | calls => Some (SeveralBridgeTargets (zlen calls))
    end
  end.

Definition checkSwiftReleaseManifest (raw : bytes) : option swift_error :=
  match stripSwiftComments raw with
  | inl e => Some (CannotInspect e)
  | inr active =>
    match List.find (Contains active) forbiddenSwiftManifestSubstrings with
    | Some forbidden => Some (Forbidden forbidden)
    | None =>
      match rejectLocalPackagePathDependencies active with
      | Some e => Some e
      | None => requireStagedBridgeTarget active
      end
    end
  end.

(** ** Literals are read off their own bytes *)

#[local] Arguments beq : simpl never.

Lemma span_spec p s : let '(w, r) := span p s in
  s = w ++ r /\ Forall (fun c => p c = true) w /\ match r with [] => True | c :: _ => p c = false end.
Proof.
  induction s as [|c s IH]; cbn; [done|]. destruct (p c) eqn:Hp; [|done].
  destruct (span p s) as [w r]. destruct IH as (-> & Hw & Hr). split_and!; [done| |done]. by constructor.
Qed.

Lemma HasPrefix_app s t p : (length p <= length s)%nat -> HasPrefix (s ++ t) p = HasPrefix s p.
Proof.
  revert p. induction s as [|c s IH]; intros [|d p] Hl; cbn in *; try done; [lia|]. by rewrite IH by lia.
Qed.

Lemma HasPrefix_take n s t p : (length p <= n <= length s)%nat -> HasPrefix (take n s ++ t) p = HasPrefix s p.
Proof.
  intros Hn. rewrite HasPrefix_app by (rewrite length_take; lia). rewrite <- (take_drop n s) at 2.
  by rewrite HasPrefix_app by (rewrite length_take; lia).
Qed.

(** A prefix without the byte that ends the text is found within it. *)
Lemma HasPrefix_ended s e t p : e ∉ p -> HasPrefix ((s ++ [e]) ++ t) p = HasPrefix (s ++ [e]) p.
Proof.
  revert p. induction s as [|c s IH]; intros [|d p] Hp; try done; apply not_elem_of_cons in Hp as [Hd Hp]; cbn.
  - by rewrite (proj2 (beq_false e d)).
  - by rewrite IH.
Qed.

Lemma HasPrefix_length s p : HasPrefix s p = true -> (length p <= length s)%nat.
Proof. intros [t ->]%HasPrefix_spec. rewrite length_app. lia. Qed.

Lemma closing_spec s i n : closing s i = Some n ->
  (i < n <= i + length s)%nat /\ forall t, closing (take (n - i) s ++ t) i = Some n.
Proof.
  revert i. induction s as [s IH] using (induction_ltof1 _ (@length byte)); unfold ltof in IH. intros i.
  destruct s as [|c s]; [done|]. cbn [closing]. destruct (beq c "\"%byte) eqn:Hb.
  - destruct s as [|d s]; [done|]. intros Hn. apply IH in Hn as [Hb' Ht]; [|cbn; lia]. cbn [length]. split; [lia|]. intros t.
    replace (n - i)%nat with (S (S (n - (i + 2)))) by lia. cbn. by rewrite Hb, Ht.
  - destruct (beq c quote) eqn:Hq.
    + intros [= <-]. cbn. split; [lia|]. intros t. replace (i + 1 - i)%nat with 1%nat by lia. cbn. by rewrite Hb, Hq.
    + intros Hn. apply IH in Hn as [Hb' Ht]; [|cbn; lia]. cbn [length]. split; [lia|]. intros t.
      replace (n - i)%nat with (S (n - (i + 1))) by lia. cbn. by rewrite Hb, Hq, Ht.
Qed.

Lemma hashes_fit h s : ((h <=? length s)%nat && HasPrefix s (replicate h hash)) = HasPrefix s (replicate h hash).
Proof.
  destruct (HasPrefix s (replicate h hash)) eqn:Hp; [|apply andb_false_r]. apply HasPrefix_length in Hp.
  rewrite length_replicate in Hp. apply andb_true_iff. split; [by apply Nat.leb_le|done].
Qed.

Lemma raw_closing_spec h s i n : raw_closing h s i = Some n ->
  (i + h < n <= i + length s)%nat /\ forall t, raw_closing h (take (n - i) s ++ t) i = Some n.
Proof.
  revert i. induction s as [|c s IH]; intros i; [done|]. cbn [raw_closing]. rewrite <- andb_assoc, hashes_fit.
  destruct (beq c quote) eqn:Hq; cbn [andb].
  - destruct (HasPrefix s (replicate h hash)) eqn:Hp.
    + intros [= <-]. pose proof (HasPrefix_length _ _ Hp) as Hl. rewrite length_replicate in Hl. cbn [length]. split; [lia|]. intros t.
      replace (i + 1 + h - i)%nat with (S h) by lia. cbn [take app raw_closing]. rewrite <- andb_assoc, hashes_fit, Hq.
      by rewrite HasPrefix_take, Hp by (rewrite length_replicate; lia).
    + intros Hn. apply IH in Hn as [Hb Ht]. cbn [length]. split; [lia|]. intros t. replace (n - i)%nat with (S (n - (i + 1))) by lia.
      cbn [take app raw_closing]. rewrite <- andb_assoc, hashes_fit, Hq.
      by rewrite HasPrefix_take, Hp, Ht by (rewrite length_replicate; lia).
  - intros Hn. apply IH in Hn as [Hb Ht]. cbn [length]. split; [lia|]. intros t. replace (n - i)%nat with (S (n - (i + 1))) by lia.
    cbn [take app raw_closing]. by rewrite Hq, Ht.
Qed.

Lemma count_hashes_spec s : exists r, s = replicate (count_hashes s) hash ++ r /\ head r <> Some hash.
Proof.
  induction s as [|c s IH]; [by exists []|]. cbn. destruct (beq c hash) eqn:Hc.
  - apply beq_spec in Hc as ->. destruct IH as (r & Hs & Hr). exists r. split; [|done]. cbn. by f_equal.
  - exists (c :: s). split; [done|]. apply beq_false in Hc. cbn. congruence.
Qed.

Lemma count_hashes_app k r : head r <> Some hash -> count_hashes (replicate k hash ++ r) = k.
Proof.
  intros Hr. induction k as [|k IH]; cbn; [|by rewrite IH]. destruct r as [|c r]; [done|]. cbn in *.
  by rewrite (proj2 (beq_false c hash)) by congruence.
Qed.

(** Where a literal begins. *)
Definition opens (s : bytes) : Prop := exists k t, s = replicate k hash ++ quote :: t.

Lemma swiftStringEnd_hashes k r : head r <> Some hash -> (0 < k)%nat ->
  swiftStringEnd (replicate k hash ++ r) =
  match r with
  | [] => inr None
  | q :: body =>
    if negb (beq q quote) then inr None
    else if HasPrefix (q :: body) triple then inl Multiline
    else match raw_closing k body (k + 1) with Some n => inr (Some n) | None => inl UnterminatedRawString end
  end.
Proof.
  intros Hr Hk. unfold swiftStringEnd. rewrite count_hashes_app, drop_app_length' by (done || by rewrite length_replicate).
  by destruct k; [lia|].
Qed.

Lemma opens_hashes k r : head r <> Some hash -> opens (replicate k hash ++ r) <-> head r = Some quote.
Proof.
  intros Hr. split.
  - intros (j & t & He). assert (Hj : count_hashes (replicate k hash ++ r) = j) by (rewrite He; by apply count_hashes_app).
    rewrite count_hashes_app in Hj by done. subst j. apply app_inv_head in He as ->. done.
  - destruct r as [|c r]; [done|]. intros [= ->]. by exists k, r.
Qed.

Lemma swiftStringEnd_None s : swiftStringEnd s = inr None <-> ~ opens s.
Proof.
  destruct (count_hashes_spec s) as (r & Hs & Hr). set (k := count_hashes s) in Hs. clearbody k. subst s. rewrite opens_hashes by done.
  destruct k as [|k].
  - cbn [replicate app]. destruct r as [|c r]; [done|]. cbn [head] in *. unfold swiftStringEnd. destruct (beq c quote) eqn:Hq.
    + apply beq_spec in Hq as ->. split; [|done]. destruct (HasPrefix _ _); [done|]. by destruct (closing r 1).
    + rewrite (proj2 (beq_false c hash)) by congruence. apply beq_false in Hq. split; [congruence|done].
  - rewrite swiftStringEnd_hashes by (done || lia). destruct r as [|c r]; [done|]. cbn [head]. destruct (beq c quote) eqn:Hq; cbn [negb].
    + apply beq_spec in Hq as ->. split; [|done]. destruct (HasPrefix _ _); [done|]. by destruct (raw_closing _ _ _).
    + apply beq_false in Hq. split; [congruence|done].
Qed.

(** An ordinary literal. *)
Lemma quoted_literal s n : HasPrefix (quote :: s) triple = false -> closing s 1 = Some n ->
  (2 <= n <= S (length s))%nat /\ (n = 2%nat -> exists r, s = quote :: r /\ head r <> Some quote) /\
  forall t, (n = 2%nat -> head t <> Some quote) -> swiftStringEnd (take n (quote :: s) ++ t) = inr (Some n).
Proof.
  intros Hm Hc. destruct (closing_spec _ _ _ Hc) as [Hb Ht]. split; [lia|]. destruct n as [|[|n]]; [lia..|].
  specialize (Ht : forall t, closing (take (S n) s ++ t) 1 = Some (S (S n))). destruct s as [|c s]; [done|].
  assert (Hend : n = 0%nat -> beq c quote = true).
  { intros ->. cbn in Hc. destruct (beq c "\"%byte); [destruct s; [done|]|]; [|destruct (beq c quote) eqn:Hq; [done|]];
      apply closing_spec in Hc as [Hx _]; lia. }
  cbn in Hm. rewrite beq_refl in Hm. split.
  - intros [= ->]. rewrite Hend in Hm by done. exists s. split; [f_equal; by apply beq_spec, Hend|].
    destruct s as [|d s]; [done|]. cbn in Hm. intros [= ->]. by rewrite beq_refl in Hm.
  - intros t Hh. cbn [take app]. unfold swiftStringEnd. rewrite beq_refl.
    assert (Hp : HasPrefix (quote :: c :: take n s ++ t) triple = false).
    { cbn. destruct n as [|n].
      - rewrite Hend, take_0, beq_refl by done. destruct t as [|d t]; [done|]. cbn [head] in Hh. cbn.
        rewrite (proj2 (beq_false d quote)); [done|]. intros ->. by apply Hh.
      - destruct s as [|d s]; [cbn in Hb; lia|]. exact Hm. }
    cbn [take app] in Ht. by rewrite Hp, Ht.
Qed.

Lemma triple_tail s : HasPrefix (quote :: s) triple = HasPrefix s [quote; quote].
Proof. unfold triple. cbn [HasPrefix]. by rewrite beq_refl. Qed.

(** A raw literal. *)
Lemma raw_literal k s n : (0 < k)%nat -> HasPrefix (quote :: s) triple = false -> raw_closing k s (k + 1) = Some n ->
  (2 < n <= k + 1 + length s)%nat /\
  forall t, swiftStringEnd (take n (replicate k hash ++ quote :: s) ++ t) = inr (Some n).
Proof.
  intros Hk Hm Hc. destruct (raw_closing_spec _ _ _ _ Hc) as [Hb Ht]. split; [lia|]. intros t.
  replace n with (length (replicate k hash) + S (n - (k + 1)))%nat at 1 by (rewrite length_replicate; lia).
  rewrite take_app_add. cbn [take]. rewrite <- app_assoc. cbn [app]. rewrite swiftStringEnd_hashes by (done || lia).
  rewrite beq_refl, Ht. cbn [negb].
  rewrite triple_tail in Hm |- *. rewrite HasPrefix_take, Hm by (cbn; lia). done.
Qed.

Lemma swiftStringEnd_Some s n : swiftStringEnd s = inr (Some n) ->
  (2 <= n <= length s)%nat /\ (n = 2%nat -> exists r, s = quote :: quote :: r /\ head r <> Some quote) /\
  forall t, (n = 2%nat -> head t <> Some quote) -> swiftStringEnd (take n s ++ t) = inr (Some n).
Proof.
  destruct (count_hashes_spec s) as (r & Hs & Hr). set (k := count_hashes s) in Hs. clearbody k. subst s. destruct k as [|k].
  - cbn [replicate app]. destruct r as [|c r]; [done|]. intros He. unfold swiftStringEnd in He. destruct (beq c quote) eqn:Hq.
    + apply beq_spec in Hq as ->. destruct (HasPrefix _ _) eqn:Hm; [done|]. destruct (closing r 1) eqn:Hc; [|done]. injection He as ->.
      destruct (quoted_literal r n Hm Hc) as (Hb & H2 & Ht). split_and!; [lia|cbn; lia| |done].
      intros (t & -> & Hh)%H2. by exists t.
    + rewrite (proj2 (beq_false c hash)) in He by (cbn in Hr; congruence). done.
  - rewrite swiftStringEnd_hashes by (done || lia). destruct r as [|c r]; [done|]. destruct (beq c quote) eqn:Hq; [|done]. cbn [negb].
    apply beq_spec in Hq as ->. destruct (HasPrefix _ _) eqn:Hm; [done|]. destruct (raw_closing _ _ _) eqn:Hc; [|done]. intros [= ->].
    destruct (raw_literal (S k) r n) as [Hb Ht]; [lia|done|done|]. split_and!; [lia|rewrite length_app, length_replicate; cbn; lia|lia|auto].
Qed.

(** ** The fuel is enough *)

Lemma line_rest_spec s : exists w r, s = w ++ r /\ newline ∉ w /\ line_rest s = length w /\ (r = [] \/ head r = Some newline).
Proof.
  unfold line_rest. pose proof (span_spec (fun c => negb (beq c newline)) s) as Hs. destruct (span _ s) as [w r].
  destruct Hs as (-> & Hw & Hr). exists w, r. split_and!; [done| |done|].
  - intros Hin. rewrite Forall_forall in Hw. apply Hw in Hin. by rewrite beq_refl in Hin.
  - destruct r as [|c r]; [by left|]. right. cbn. f_equal. apply beq_spec. by apply negb_false_iff.
Qed.

Lemma line_rest_app w r : newline ∉ w -> r = [] \/ head r = Some newline -> line_rest (w ++ r) = length w.
Proof.
  intros Hw Hr. unfold line_rest. induction w as [|c w IH]; cbn.
  - destruct r as [|c r]; [done|]. destruct Hr as [?|[= ->]]; [done|]. cbn. by rewrite beq_refl.
  - apply not_elem_of_cons in Hw as [Hc Hw]. rewrite (proj2 (beq_false c newline)) by done. cbn [negb]. specialize (IH Hw).
    destruct (span _ (w ++ r)) as [v q]. cbn in *. by f_equal.
Qed.

Lemma line_rest_bounds s : HasPrefix s open_line = true -> (2 <= line_rest s <= length s)%nat.
Proof.
  intros [t ->]%HasPrefix_spec. destruct (line_rest_spec (open_line ++ t)) as (w & r & Hs & Hw & -> & Hr).
  assert (length (open_line ++ t) = length w + length r)%nat as Hl by (by rewrite Hs, length_app). split; [|lia].
  destruct w as [|a [|b w]]; [..|cbn; lia]; exfalso; cbn in Hs.
  - subst r. destruct Hr as [?|[= ?]]; done.
  - injection Hs as <- <-. destruct Hr as [?|[= ?]]; done.
Qed.

Lemma strip_fuel f g d s : (length s < f)%nat -> (length s < g)%nat -> strip_loop f d s = strip_loop g d s.
Proof.
  revert g d s. induction f as [|f IH]; intros g d s Hf Hg; [lia|]. destruct g as [|g]; [lia|]. cbn [strip_loop].
  destruct s as [|c rest]; [done|]. cbn [length] in *.
  destruct (bool_decide (0 < d)%nat).
  { destruct (HasPrefix _ open_block); [|destruct (HasPrefix _ close_block)]; f_equal; apply IH; rewrite ?length_drop; cbn [length]; lia. }
  destruct (swiftStringEnd (c :: rest)) as [e|[n|]] eqn:He; [done| |].
  { apply swiftStringEnd_Some in He as [Hn _]. f_equal. apply IH; rewrite length_drop; cbn [length] in *; lia. }
  destruct (HasPrefix _ open_line) eqn:Hl.
  { apply line_rest_bounds in Hl. f_equal. apply IH; rewrite length_drop; cbn [length] in *; lia. }
  destruct (HasPrefix _ open_block); f_equal; apply IH; rewrite ?length_drop; cbn [length]; lia.
Qed.

(** The loop from any position. *)
Definition strip (d : nat) (s : bytes) : swift_error + bytes := strip_loop (S (length s)) d s.

Lemma strip_eq d s : strip d s =
  match s with
  | [] => if bool_decide (d = 0%nat) then inr [] else inl UnterminatedBlock
  | c :: rest =>
    if bool_decide (0 < d)%nat then
      if HasPrefix s open_block then emit [space; space] (strip (d + 1) (drop 2 s))
      else if HasPrefix s close_block then emit [space; space] (strip (d - 1) (drop 2 s))
      else emit [if beq c newline then newline else space] (strip d rest)
    else match swiftStringEnd s with
    | inl e => inl e
    | inr (Some n) => emit (take n s) (strip d (drop n s))
    | inr None =>
      if HasPrefix s open_line then emit (replicate (line_rest s) space) (strip d (drop (line_rest s) s))
      else if HasPrefix s open_block then emit [space; space] (strip 1 (drop 2 s))
      else emit [c] (strip d rest)
    end
  end.
Proof.
  unfold strip at 1. cbn [strip_loop]. destruct s as [|c rest]; [done|]. cbn [length].
  destruct (bool_decide (0 < d)%nat).
  { destruct (HasPrefix _ open_block); [|destruct (HasPrefix _ close_block)]; f_equal; apply strip_fuel; rewrite ?length_drop; cbn [length]; lia. }
  destruct (swiftStringEnd (c :: rest)) as [e|[n|]] eqn:He; [done| |].
  { apply swiftStringEnd_Some in He as [Hn _]. f_equal. apply strip_fuel; rewrite length_drop; cbn [length] in *; lia. }
  destruct (HasPrefix _ open_line) eqn:Hl.
  { apply line_rest_bounds in Hl. f_equal. apply strip_fuel; rewrite length_drop; cbn [length] in *; lia. }
  destruct (HasPrefix _ open_block); f_equal; apply strip_fuel; rewrite ?length_drop; cbn [length]; lia.
Qed.

(** ** One token at a time *)

Lemma HasPrefix_self p s : HasPrefix (p ++ s) p = true.
Proof. apply HasPrefix_spec. by exists s. Qed.

Lemma strip_nest d s : strip (S d) (open_block ++ s) = emit [space; space] (strip (S (S d)) s).
Proof. rewrite strip_eq, HasPrefix_self, Nat.add_1_r. done. Qed.

Lemma strip_close d s : strip (S d) (close_block ++ s) = emit [space; space] (strip d s).
Proof.
  rewrite strip_eq, HasPrefix_self. replace (HasPrefix (close_block ++ s) open_block) with false by done.
  replace (S d - 1)%nat with d by lia. done.
Qed.

Lemma strip_inside d c s : HasPrefix (c :: s) open_block = false -> HasPrefix (c :: s) close_block = false ->
  strip (S d) (c :: s) = emit [if beq c newline then newline else space] (strip (S d) s).
Proof. intros Ho Hc. rewrite strip_eq, Ho, Hc. by rewrite bool_decide_eq_true_2 by lia. Qed.

Lemma strip_string w s : swiftStringEnd (w ++ s) = inr (Some (length w)) -> strip 0 (w ++ s) = emit w (strip 0 s).
Proof.
  intros Hw. rewrite strip_eq, Hw. apply swiftStringEnd_Some in Hw as [Hn _].
  destruct (w ++ s) eqn:He; [apply app_eq_nil in He as [-> _]; cbn in Hn; lia|]. rewrite <- He. by rewrite take_app_length, drop_app_length.
Qed.

Lemma strip_code s : ~ opens s -> s <> [] ->
  strip 0 s =
  if HasPrefix s open_line then emit (replicate (line_rest s) space) (strip 0 (drop (line_rest s) s))
  else if HasPrefix s open_block then emit [space; space] (strip 1 (drop 2 s))
  else match s with [] => inr [] | c :: rest => emit [c] (strip 0 rest) end.
Proof. intros Ho Hn. apply swiftStringEnd_None in Ho. rewrite strip_eq, Ho. by destruct s. Qed.

Lemma opens_head s : opens s -> head s = Some quote \/ head s = Some hash.
Proof. intros ([|k] & t & ->); cbn; tauto. Qed.

Lemma slash_closed s : head s = Some slash -> ~ opens s.
Proof. intros Hs [H|H]%opens_head; rewrite Hs in H; done. Qed.

Lemma strip_line w s : newline ∉ w -> s = [] \/ head s = Some newline ->
  strip 0 ((open_line ++ w) ++ s) = emit (replicate (length (open_line ++ w)) space) (strip 0 s).
Proof.
  intros Hw Hs. rewrite strip_code; [|by apply slash_closed|done].
  rewrite (line_rest_app (open_line ++ w)) by (done || set_solver). rewrite drop_app_length.
  by rewrite <- app_assoc, HasPrefix_self.
Qed.

Lemma strip_block s : strip 0 (open_block ++ s) = emit [space; space] (strip 1 s).
Proof. rewrite strip_code; [|by apply slash_closed|done]. done. Qed.

Lemma strip_plain c s : ~ opens (c :: s) -> HasPrefix (c :: s) open_line = false -> HasPrefix (c :: s) open_block = false ->
  strip 0 (c :: s) = emit [c] (strip 0 s).
Proof. intros Ho Hl Hb. rewrite strip_code by done. by rewrite Hl, Hb. Qed.

(** The texts that strip, token by token: the depth of the comment the text
    begins in, the text, and what it strips to. *)
Inductive strips : nat -> bytes -> bytes -> Prop :=
| strips_end : strips 0 [] []
| strips_nest d s o : strips (S (S d)) s o -> strips (S d) (open_block ++ s) ([space; space] ++ o)
| strips_close d s o : strips d s o -> strips (S d) (close_block ++ s) ([space; space] ++ o)
| strips_inside d c s o : HasPrefix (c :: s) open_block = false -> HasPrefix (c :: s) close_block = false -> strips (S d) s o ->
    strips (S d) (c :: s) ([if beq c newline then newline else space] ++ o)
| strips_string w s o : swiftStringEnd (w ++ s) = inr (Some (length w)) -> strips 0 s o -> strips 0 (w ++ s) (w ++ o)
| strips_line w s o : newline ∉ w -> s = [] \/ head s = Some newline -> strips 0 s o ->
    strips 0 ((open_line ++ w) ++ s) (replicate (length (open_line ++ w)) space ++ o)
| strips_block s o : strips 1 s o -> strips 0 (open_block ++ s) ([space; space] ++ o)
| strips_plain c s o : ~ opens (c :: s) -> HasPrefix (c :: s) open_line = false -> HasPrefix (c :: s) open_block = false -> strips 0 s o ->
    strips 0 (c :: s) ([c] ++ o).

Lemma emit_inr out r o : emit out r = inr o -> exists o', r = inr o' /\ o = out ++ o'.
Proof. destruct r as [|o']; [done|]. intros [= <-]. by exists o'. Qed.

Lemma strips_strip d s o : strips d s o -> strip d s = inr o.
Proof.
  induction 1 as [|d s o _ IH|d s o _ IH|d c s o Ho Hc _ IH|w s o Hw _ IH|w s o Hw Hs _ IH|s o _ IH|c s o Ho Hl Hb _ IH]; [done|..].
  - by rewrite strip_nest, IH.
  - by rewrite strip_close, IH.
  - by rewrite strip_inside, IH.
  - by rewrite strip_string, IH.
  - by rewrite strip_line, IH.
  - by rewrite strip_block, IH.
  - by rewrite strip_plain, IH.
Qed.

Lemma HasPrefix_split s p : HasPrefix s p = true -> s = p ++ drop (length p) s.
Proof. intros [t ->]%HasPrefix_spec. by rewrite drop_app_length. Qed.

Lemma strip_strips d s o : strip d s = inr o -> strips d s o.
Proof.
  revert d o. induction s as [s IH] using (induction_ltof1 _ (@length byte)); unfold ltof in IH. intros d o.
  rewrite strip_eq. destruct s as [|c rest]; [destruct d; [intros [= <-]; constructor|done]|].
  destruct d as [|d]; cbn [bool_decide].
  - rewrite bool_decide_eq_false_2 by lia. destruct (swiftStringEnd (c :: rest)) as [e|[n|]] eqn:He; [done| |].
    + intros (o' & Ho & ->)%emit_inr. pose proof (swiftStringEnd_Some _ _ He) as [Hn _]. rewrite <- (take_drop n (c :: rest)) at 1.
      apply strips_string; [|apply IH; [rewrite length_drop; lia|done]]. rewrite take_drop, length_take. rewrite He. do 2 f_equal. lia.
    + apply swiftStringEnd_None in He. destruct (HasPrefix _ open_line) eqn:Hl.
      * intros (o' & Ho & ->)%emit_inr. pose proof (line_rest_bounds _ Hl) as Hb. destruct (line_rest_spec (c :: rest)) as (w & r & Hs & Hw & Hlen & Hr).
        rewrite Hlen in *. rewrite Hs in Ho |- *. rewrite drop_app_length in Ho.
        assert (Hwl : HasPrefix w open_line = true) by (rewrite Hs, HasPrefix_app in Hl by (cbn; lia); done). apply HasPrefix_split in Hwl.
        rewrite Hwl in *. apply strips_line; [set_solver|done|]. apply IH; [|done]. rewrite Hs, length_app. cbn. lia.
      * destruct (HasPrefix _ open_block) eqn:Hb.
        -- intros (o' & Ho & ->)%emit_inr. rewrite (HasPrefix_split _ _ Hb). apply strips_block, IH; [cbn; rewrite length_drop; lia|done].
        -- intros (o' & Ho & ->)%emit_inr. apply strips_plain; [done..|]. apply IH; [cbn; lia|done].
  - rewrite bool_decide_eq_true_2 by lia. destruct (HasPrefix _ open_block) eqn:Hb; [|destruct (HasPrefix _ close_block) eqn:Hc].
    + intros (o' & Ho & ->)%emit_inr. rewrite (HasPrefix_split _ _ Hb). apply strips_nest, IH; [cbn; rewrite length_drop; lia|].
      by rewrite Nat.add_1_r in Ho.
    + intros (o' & Ho & ->)%emit_inr. rewrite (HasPrefix_split _ _ Hc). apply strips_close, IH; [cbn; rewrite length_drop; lia|].
      by replace (S d - 1)%nat with d in Ho by lia.
    + intros (o' & Ho & ->)%emit_inr. apply strips_inside; [done..|]. apply IH; [cbn; lia|done].
Qed.

(** ** What stripping keeps *)

(** A byte is kept, or blanked if it is no newline. *)
Definition blanked (a b : byte) : Prop := b = a \/ (b = space /\ a <> newline).

Lemma blanked_refl s : Forall2 blanked s s.
Proof. induction s; constructor; [by left|done]. Qed.

Lemma blanked_spaces w : newline ∉ w -> Forall2 blanked w (replicate (length w) space).
Proof. induction w as [|c w IH]; intros Hw; constructor; [right; set_solver|set_solver]. Qed.

Lemma blanked_pair a b s o : a <> newline -> b <> newline -> Forall2 blanked s o -> Forall2 blanked (a :: b :: s) (space :: space :: o).
Proof. intros Ha Hb Hs. constructor; [by right|]. constructor; [by right|done]. Qed.

Lemma strips_blanked d s o : strips d s o -> Forall2 blanked s o.
Proof.
  induction 1 as [|d s o _ IH|d s o _ IH|d c s o Ho Hc _ IH|w s o Hw _ IH|w s o Hw Hs _ IH|s o _ IH|c s o Ho Hl Hb _ IH]; [constructor|..].
  1, 2, 6 : by apply blanked_pair.
  - constructor; [|done]. destruct (beq c newline) eqn:E; [apply beq_spec in E as ->; by left|apply beq_false in E; by right].
  - apply Forall2_app; [apply blanked_refl|done].
  - apply Forall2_app; [apply blanked_spaces; set_solver|done].
  - constructor; [by left|done].
Qed.

Lemma blanked_prefix s o p : Forall2 blanked s o -> space ∉ p -> HasPrefix o p = true -> HasPrefix s p = true.
Proof.
  intros Hs. revert p. induction Hs as [|a b s o Hab _ IH]; intros [|d p] Hp; try done. cbn. apply not_elem_of_cons in Hp as [Hd Hp].
  rewrite !andb_true_iff, !beq_spec. intros [-> Ho]. destruct Hab as [->|[-> _]]; [by auto|done].
Qed.

Lemma opens_prefix s : opens s <-> exists k, HasPrefix s (replicate k hash ++ [quote]) = true.
Proof.
  unfold opens. setoid_rewrite HasPrefix_spec. split.
  - intros (k & t & ->). exists k, t. by rewrite <- app_assoc.
  - intros (k & t & ->). exists k, t. by rewrite <- app_assoc.
Qed.

Lemma opening_bytes k c : c ∈ replicate k hash ++ [quote] -> c = hash \/ c = quote.
Proof. intros [Hc|Hc]%elem_of_app; [left; by apply elem_of_replicate in Hc as [-> _]|right; set_solver]. Qed.

Lemma blanked_closed s o : Forall2 blanked s o -> ~ opens s -> ~ opens o.
Proof.
  intros Hb Hs [k Hk]%opens_prefix. apply Hs, opens_prefix. exists k. eapply blanked_prefix; [done| |done].
  by intros [?|?]%opening_bytes.
Qed.

Lemma blanked_not_prefix s o p : Forall2 blanked s o -> space ∉ p -> HasPrefix s p = false -> HasPrefix o p = false.
Proof. intros Hb Hp Hs. destruct (HasPrefix o p) eqn:Ho; [|done]. rewrite <- Hs. symmetry. by eapply blanked_prefix. Qed.

Lemma strips_white c o : c = space \/ c = newline -> strips 0 o o -> strips 0 (c :: o) (c :: o).
Proof. intros Hc Ho. apply strips_plain; [|destruct Hc as [-> | ->]; done..|done]. by intros [H|H]%opens_head; destruct Hc as [-> | ->]. Qed.

Lemma strips_spaces n o : strips 0 o o -> strips 0 (replicate n space ++ o) (replicate n space ++ o).
Proof. intros Ho. induction n; [done|]. by apply strips_white; [left|]. Qed.

(** The stripped text has no comment left. *)
Lemma strips_again d s o : strips d s o -> strips 0 o o.
Proof.
  induction 1 as [|d s o _ IH|d s o _ IH|d c s o Ho Hc _ IH|w s o Hw Hs IH|w s o Hw Hs _ IH|s o _ IH|c s o Ho Hl Hb Hs IH]; [constructor|..].
  1, 2, 6 : by apply (strips_spaces 2).
  - apply strips_white; [|done]. destruct (beq c newline); [by right|by left].
  - apply strips_string; [|done]. pose proof (swiftStringEnd_Some _ _ Hw) as (_ & H2 & Ht). rewrite take_app_length in Ht. apply Ht.
    intros Hl. destruct (H2 Hl) as (r & Hr & Hq). destruct w as [|a [|b [|? w]]]; try done. injection Hr as -> -> ->.
    destruct (strips_blanked _ _ _ Hs) as [|x y ? ? [->|[-> _]]]; done.
  - by apply strips_spaces.
  - assert (Hb' : Forall2 blanked (c :: s) (c :: o)) by (constructor; [by left|by eapply strips_blanked]).
    apply strips_plain; [by eapply blanked_closed|by eapply blanked_not_prefix; [| |exact Hl]; set_solver|by eapply blanked_not_prefix; [| |exact Hb]; set_solver|done].
Qed.

(** ** Stripping line by line *)

(** Whole lines. *)
Definition ended (s : bytes) : Prop := s = [] \/ last s = Some newline.

Lemma ended_suffix w s : ended (w ++ s) -> ended s.
Proof.
  intros [[_ ->]%app_eq_nil|Hl]; [by left|]. destruct s as [|c s]; [by left|]. right. by rewrite last_app_cons in Hl.
Qed.

Lemma ended_prefix s b p : s <> [] -> ended s -> newline ∉ p -> HasPrefix (s ++ b) p = HasPrefix s p.
Proof. intros Hn [?|[t ->]%last_Some] Hp; [done|]. by apply HasPrefix_ended. Qed.

Lemma emit_emit u v r : emit u (emit v r) = emit (u ++ v) r.
Proof. destruct r; cbn; [done|]. by rewrite app_assoc. Qed.

Lemma literal_last w s : swiftStringEnd (w ++ s) = inr (Some (length w)) -> ended (w ++ s) -> length w = 2%nat -> exists r, s = r /\ r <> [] /\ head r <> Some quote.
Proof.
  intros Hw He Hl. apply swiftStringEnd_Some in Hw as (_ & H2 & _). destruct (H2 Hl) as (r & Hr & Hq).
  destruct w as [|x [|y [|? w]]]; try done. injection Hr as -> -> ->. exists r. split_and!; [done| |done].
  intros ->. destruct He as [?|He]; done.
Qed.

Lemma strips_app d a o b : strips d a o -> ended a -> strip d (a ++ b) = emit o (strip 0 b).
Proof.
  induction 1 as [|d s o _ IH|d s o _ IH|d c s o Ho Hc _ IH|w s o Hw _ IH|w s o Hw Hs _ IH|s o _ IH|c s o Ho Hl Hb Hs IH]; intros He.
  - by destruct (strip 0 ([] ++ b)) eqn:E; cbn in *; rewrite E.
  - rewrite <- app_assoc, strip_nest, IH by (by eapply ended_suffix). apply emit_emit.
  - rewrite <- app_assoc, strip_close, IH by (by eapply ended_suffix). apply emit_emit.
  - rewrite <- app_comm_cons, strip_inside, IH by (by eapply (ended_suffix [_])) || (rewrite app_comm_cons, ended_prefix; done || set_solver).
    apply emit_emit.
  - rewrite <- app_assoc, strip_string, IH, emit_emit; [done|by eapply ended_suffix|].
    pose proof (swiftStringEnd_Some _ _ Hw) as (_ & _ & Ht). rewrite take_app_length in Ht. apply Ht.
    intros (r & -> & Hn & Hq)%(literal_last w s Hw He). by destruct r.
  - rewrite <- app_assoc, strip_line, IH, emit_emit; [done|by eapply ended_suffix|done|].
    right. destruct Hs as [->|Hs]; [|by destruct s]. exfalso. rewrite app_nil_r in He. destruct He as [?|He]; [done|].
    apply last_Some_elem_of in He. set_solver.
  - rewrite <- app_assoc, strip_block, IH by (by eapply ended_suffix). apply emit_emit.
  - assert (Hpre : forall p, newline ∉ p -> HasPrefix (c :: s ++ b) p = HasPrefix (c :: s) p) by (intros p; by apply (ended_prefix (c :: s))).
    rewrite <- app_comm_cons, strip_plain, IH; [apply emit_emit|by eapply (ended_suffix [_])| |by rewrite Hpre; set_solver..].
    intros [k Hk]%opens_prefix. apply Ho, opens_prefix. exists k. rewrite <- Hpre; [done|]. by intros [?|?]%opening_bytes.
Qed.

Definition white (c : byte) : byte := if beq c newline then newline else space.

Lemma strip_white w s : strip 0 ((white <$> w) ++ s) = emit (white <$> w) (strip 0 s).
Proof.
  induction w as [|c w IH]; cbn [fmap list_fmap app]; [by destruct (strip 0 s)|].
  rewrite strip_plain, IH; [apply (emit_emit [_])|intros [H|H]%opens_head|..]; unfold white in *; by destruct (beq c newline).
Qed.

(** Text that closes [d] open block comments, and ends there: comments nest, and
    the two characters of a delimiter belong together. *)
Inductive closes : nat -> bytes -> Prop :=
| closes_last : closes 1 close_block
| closes_one d w : closes (S d) w -> closes (S (S d)) (close_block ++ w)
| closes_nested d w : closes (S (S d)) w -> closes (S d) (open_block ++ w)
| closes_text d c w : HasPrefix (c :: w) open_block = false -> HasPrefix (c :: w) close_block = false -> closes (S d) w -> closes (S d) (c :: w).

Lemma closes_long d w : closes d w -> (2 <= length w)%nat.
Proof. induction 1; cbn in *; lia. Qed.

Lemma strip_within d w b : closes d w -> strip d (w ++ b) = emit (white <$> w) (strip 0 b).
Proof.
  induction 1 as [|d w _ IH|d w _ IH|d c w Ho Hc Hw IH].
  - apply strip_close.
  - rewrite <- app_assoc, strip_close, IH. apply emit_emit.
  - rewrite <- app_assoc, strip_nest, IH. apply emit_emit.
  - pose proof (closes_long _ _ Hw). rewrite <- app_comm_cons, strip_inside, IH; [apply (emit_emit [_])|..];
      rewrite app_comm_cons, HasPrefix_app; done || (cbn; lia).
Qed.

(** Text after the start of a comment closes it somewhere, or nowhere; then the
    scan fails. *)
Lemma closes_or_not n d t : (length t <= n)%nat ->
  (exists w b, t = w ++ b /\ closes (S d) w) \/ strip (S d) t = inl UnterminatedBlock.
Proof.
  revert d t. induction n as [|n IH]; intros d t Hn; (destruct t as [|c t]; [by right|]); cbn [length] in Hn; [lia|].
  destruct (HasPrefix (c :: t) open_block) eqn:Ho; [|destruct (HasPrefix (c :: t) close_block) eqn:Hc].
  - rewrite (HasPrefix_split _ _ Ho) in *. set (r := drop _ _) in *. assert (Hr : (length r <= n)%nat) by (unfold r; rewrite length_drop; cbn; lia).
    destruct (IH (S d) r Hr) as [(w & b & -> & Hw)|He]; [left; exists (open_block ++ w), b; rewrite app_assoc; split; [done|by constructor]|].
    right. by rewrite strip_nest, He.
  - rewrite (HasPrefix_split _ _ Hc) in *. set (r := drop _ _) in *. assert (Hr : (length r <= n)%nat) by (unfold r; rewrite length_drop; cbn; lia).
    destruct d as [|d]; [left; exists close_block, r; split; [done|constructor]|].
    destruct (IH d r Hr) as [(w & b & -> & Hw)|He]; [left; exists (close_block ++ w), b; rewrite app_assoc; split; [done|by constructor]|].
    right. by rewrite strip_close, He.
  - destruct (IH d t ltac:(lia)) as [(w & b & -> & Hw)|He].
    + left. exists (c :: w), b. split; [done|]. pose proof (closes_long _ _ Hw). rewrite app_comm_cons, HasPrefix_app in Ho, Hc by (cbn; lia). by constructor.
    + right. by rewrite strip_inside, He.
Qed.

Lemma white_spaces w : newline ∉ w -> white <$> w = replicate (length w) space.
Proof.
  induction w as [|c w IH]; intros Hw; [done|]. apply not_elem_of_cons in Hw as [Hc Hw]. cbn. unfold white at 1.
  by rewrite (proj2 (beq_false c newline)), IH.
Qed.

(** The verdict depends on the stripped text alone. *)
Lemma check_stripped raw raw' : stripSwiftComments raw = stripSwiftComments raw' -> checkSwiftReleaseManifest raw = checkSwiftReleaseManifest raw'.
Proof. intros Hs. unfold checkSwiftReleaseManifest. by rewrite Hs. Qed.

(** C23: comments are inert in the release gate.  Stripping keeps the length,
    every newline and every byte it does not blank; stripping again changes
    nothing, and the verdict on a manifest is the verdict on its stripped text.
    After any whole lines, a line comment counts for exactly as much as the
    blanks in its place, whatever it says, and so does a block comment, with
    whatever comments nested in it; and when the text after the start of a block
    comment does not close it and all that is nested in it, the manifest is
    rejected.  So neither evidence nor a forbidden pattern is ever found in a
    comment. *)
Theorem comments_inert raw active :
  stripSwiftComments raw = inr active ->
  (Forall2 blanked raw active /\ stripSwiftComments active = inr active /\
   checkSwiftReleaseManifest raw = checkSwiftReleaseManifest active) /\
  (ended raw ->
    (forall c b, newline ∉ c -> checkSwiftReleaseManifest (raw ++ lit "//" ++ c ++ newline :: b) =
       checkSwiftReleaseManifest (raw ++ replicate (2 + length c) space ++ newline :: b)) /\
    (forall c b, closes 1 c -> checkSwiftReleaseManifest (raw ++ lit "/*" ++ c ++ b) =
       checkSwiftReleaseManifest (raw ++ [space; space] ++ (white <$> c) ++ b)) /\
    (forall t, (exists c b, t = c ++ b /\ closes 1 c) \/ checkSwiftReleaseManifest (raw ++ lit "/*" ++ t) = Some (CannotInspect UnterminatedBlock))).
Proof.
  intros Hs. change (strip 0 raw = inr active) in Hs. apply strip_strips in Hs as Hr. pose proof (strips_strip _ _ _ (strips_again _ _ _ Hr)) as Ha.
  split; [split_and!; [by eapply strips_blanked|done|apply check_stripped; exact (eq_trans Hs (eq_sym Ha))]|].
  intros He. split_and!.
  - intros c b Hc. apply check_stripped. change stripSwiftComments with (strip 0). rewrite !(strips_app _ _ _ _ Hr He). f_equal.
    rewrite app_assoc. etrans; [apply strip_line; [done|by right]|].
    rewrite <- (white_spaces (open_line ++ c)) by set_solver. rewrite <- strip_white. f_equal. f_equal.
    rewrite white_spaces by set_solver. done.
  - intros c b Hc. apply check_stripped. change stripSwiftComments with (strip 0). rewrite !(strips_app _ _ _ _ Hr He). f_equal.
    change (lit "/*") with open_block. rewrite strip_block, strip_within by done. change [space; space] with (white <$> [space; space]).
    by rewrite !strip_white.
  - intros t. destruct (closes_or_not (length t) 0 t (le_n _)) as [Hc|Hc]; [by left|]. right. unfold checkSwiftReleaseManifest.
    change stripSwiftComments with (strip 0). rewrite (strips_app _ _ _ _ Hr He). change (lit "/*") with open_block. by rewrite strip_block, Hc.
Qed.

(** Apostrophes stand for the quotes of a manifest. *)
Definition swift (s : string) : bytes := (fun c => if beq c "'"%byte then quote else c) <$> lit s.

(** A claim in a line comment, the same in a nested block comment, and an
    unclosed one. *)
Lemma comments_inert_witness :
  let raw := swift "let a = '// no comment' // but this" ++ [newline] in
  let claim := swift ".binaryTarget(name: 'COpenFHEBridge', path: 'Artifacts/AresPrivacyCore.xcframework')" in
  let nested := lit "* /* x */ " ++ claim ++ lit " */" in
  checkSwiftReleaseManifest (raw ++ lit "//" ++ claim ++ [newline]) =
    checkSwiftReleaseManifest (raw ++ replicate (2 + length claim) space ++ [newline]) /\
  checkSwiftReleaseManifest (raw ++ lit "/*" ++ nested ++ []) = checkSwiftReleaseManifest (raw ++ [space; space] ++ (white <$> nested) ++ []) /\
  checkSwiftReleaseManifest (raw ++ lit "/*" ++ []) = Some (CannotInspect UnterminatedBlock).
Proof.
  intros raw claim nested. assert (Hs : exists active, stripSwiftComments raw = inr active) by (eexists; by vm_compute).
  destruct Hs as [active Hs]. assert (He : ended raw) by (right; by vm_compute).
  assert (Hc : newline ∉ claim) by (apply (bool_decide_eq_true_1 _); by vm_compute).
  destruct (comments_inert raw active Hs) as [_ Hinert]. destruct (Hinert He) as (Hline & Hblock & Hopen). split_and!.
  - exact (Hline claim [] Hc).
  - apply Hblock. apply closes_text; [reflexivity..|]. apply closes_text; [reflexivity..|]. apply closes_nested. apply closes_text; [reflexivity..|].
    apply closes_text; [reflexivity..|]. apply closes_text; [reflexivity..|]. apply closes_one. repeat (apply closes_text; [reflexivity..|]). apply closes_last.
  - destruct (Hopen []) as [(c & b & Ht & Hcl)|Hu]; [|exact Hu]. exfalso. symmetry in Ht. apply app_eq_nil in Ht as [-> _].
    apply closes_long in Hcl. cbn in Hcl. lia.
Defined.

(** ** The scan ends *)

Fixpoint fuelled (e : swift_error) : Prop :=
  match e with
  | OutOfFuel => False
  | UnterminatedCall _ e => fuelled e
  | CannotInspect e => fuelled e
  | _ => True
  end.

Lemma swiftStringEnd_fuelled s e : swiftStringEnd s = inl e -> fuelled e.
Proof. unfold swiftStringEnd. intros He. repeat case_match; by simplify_eq. Qed.

Lemma strip_fuelled f d s e : (length s < f)%nat -> strip_loop f d s = inl e -> fuelled e.
Proof.
  revert d s. induction f as [|f IH]; intros d s Hf; [lia|]. cbn [strip_loop].
  assert (Hemit : forall d' w s', (length s' < f)%nat -> emit w (strip_loop f d' s') = inl e -> fuelled e).
  { intros d' w s' Hs'. destruct (strip_loop f d' s') eqn:E; [|done]. intros [= ->]. by eapply IH. }
  destruct s as [|c rest]; [destruct (bool_decide _); [done|by intros [= <-]]|]. cbn [length] in Hf.
  destruct (bool_decide (0 < d)%nat).
  { destruct (HasPrefix _ open_block); [|destruct (HasPrefix _ close_block)]; apply Hemit; rewrite ?length_drop; cbn [length]; lia. }
  destruct (swiftStringEnd (c :: rest)) as [e'|[n|]] eqn:He.
  { intros [= ->]. by eapply swiftStringEnd_fuelled. }
  { apply swiftStringEnd_Some in He as [Hn _]. apply Hemit. rewrite length_drop. cbn [length] in *. lia. }
  destruct (HasPrefix _ open_line) eqn:Hl.
  { apply line_rest_bounds in Hl. apply Hemit. rewrite length_drop. cbn [length] in *. lia. }
  destruct (HasPrefix _ open_block); apply Hemit; rewrite ?length_drop; cbn [length]; lia.
Qed.

Lemma balanced_fuelled f d i s e : (length s < f)%nat -> balanced_loop f d i s = inl e -> fuelled e.
Proof.
  revert d i s. induction f as [|f IH]; intros d i s Hf; [lia|]. cbn [balanced_loop]. destruct s as [|c rest]; [by intros [= <-]|].
  cbn [length] in Hf. destruct (swiftStringEnd (c :: rest)) as [e'|[n|]] eqn:He.
  - intros [= ->]. by eapply swiftStringEnd_fuelled.
  - apply swiftStringEnd_Some in He as [Hn _]. apply IH. rewrite length_drop. cbn [length] in *. lia.
  - destruct (beq c "("%byte); [apply IH; lia|]. destruct (beq c ")"%byte); [|apply IH; lia].
    destruct (bool_decide _); [done|]. apply IH. lia.
Qed.

Lemma TrimLeftFunc_length p s : (length (TrimLeftFunc p s) <= length s)%nat.
Proof. induction s as [|c s IH]; cbn; [done|]. destruct (p c); cbn; lia. Qed.

Lemma calls_fuelled f token s e : (length s < f)%nat -> calls_loop f token s = inl e -> fuelled e.
Proof.
  revert s. induction f as [|f IH]; intros s Hf; [lia|]. cbn [calls_loop]. destruct s as [|c rest]; [done|]. cbn [length] in Hf.
  destruct (swiftStringEnd (c :: rest)) as [e'|[n|]] eqn:He.
  - intros [= ->]. by eapply swiftStringEnd_fuelled.
  - apply swiftStringEnd_Some in He as [Hn _]. apply IH. rewrite length_drop. cbn [length] in *. lia.
  - destruct (negb _); [apply IH; lia|]. pose proof (TrimLeftFunc_length blank (drop (length token) (c :: rest))) as Hlen.
    destruct (TrimLeftFunc _ _) as [|p args]; [apply IH; lia|]. destruct (negb _); [apply IH; lia|].
    rewrite length_drop in Hlen. cbn [length] in Hlen. destruct (swiftBalancedCallEnd args) as [e'|n] eqn:Hb.
    + intros [= <-]. eapply (balanced_fuelled _ _ _ _ e'); [|exact Hb]. lia.
    + destruct (calls_loop f token (drop n args)) as [e'|] eqn:Hc; [|done]. intros [= <-]. eapply IH; [|exact Hc]. rewrite length_drop. lia.
Qed.

Lemma span_length p s : (length (span p s).1 + length (span p s).2 = length s)%nat.
Proof. pose proof (span_spec p s) as Hs. destruct (span p s) as [w r]. destruct Hs as (-> & _). by rewrite length_app. Qed.

Lemma expect_length c s r : expect c s = Some r -> length s = S (length r).
Proof. destruct s as [|d s]; [done|]. cbn. destruct (beq d c); [|done]. by intros [= ->]. Qed.

Lemma named_argument_shorter s name value r : named_argument s = Some (name, value, r) -> (length r < length s)%nat.
Proof.
  unfold named_argument. pose proof (TrimLeftFunc_length re_space s) as H1. pose proof (span_length re_word (TrimLeftFunc re_space s)) as H2.
  destruct (span re_word (TrimLeftFunc re_space s)) as [w s1]. cbn in H2. destruct w as [|c w]; [done|]. destruct (negb _); [done|].
  pose proof (TrimLeftFunc_length re_space s1) as H3. destruct (expect ":"%byte _) as [s2|] eqn:E2; [|done]. apply expect_length in E2. cbn.
  pose proof (TrimLeftFunc_length re_space s2) as H4. destruct (expect quote (TrimLeftFunc re_space s2)) as [s3|] eqn:E3; [|done].
  apply expect_length in E3. cbn. pose proof (span_length plain s3) as H5. destruct (span plain s3) as [v s4]. cbn in H2, H5.
  destruct (expect quote s4) as [s5|] eqn:E5; [|done]. apply expect_length in E5. cbn. intros [= <- <- <-]. lia.
Qed.

(** The matches do not depend on the fuel either. *)
Lemma arguments_fuel f g start s : (length s < f)%nat -> (length s < g)%nat -> arguments_loop f start s = arguments_loop g start s.
Proof.
  revert g start s. induction f as [|f IH]; intros g start s Hf Hg; [lia|]. destruct g as [|g]; [lia|]. cbn [arguments_loop].
  destruct (after_separator start s named_argument) as [[[name value] r]|] eqn:Ha; [|destruct s as [|c s]; [done|]; cbn in *; apply IH; lia].
  f_equal. assert (length r < length s)%nat; [|apply IH; lia]. unfold after_separator in Ha.
  destruct (if start then named_argument s else None) as [[[n v] r']|] eqn:Hs.
  - injection Ha as -> -> ->. destruct start; [|done]. by eapply named_argument_shorter.
  - destruct (expect ","%byte s) as [s'|] eqn:He; [|done]. apply expect_length in He. apply named_argument_shorter in Ha. lia.
Qed.

(** No verdict is for want of fuel. *)
Lemma scan_ends raw e : checkSwiftReleaseManifest raw = Some e -> fuelled e.
Proof.
  unfold checkSwiftReleaseManifest. destruct (stripSwiftComments raw) as [e'|active] eqn:Hs.
  { intros [= <-]. cbn. eapply strip_fuelled; [|exact Hs]. lia. }
  destruct (List.find _ _); [by intros [= <-]|]. unfold rejectLocalPackagePathDependencies, requireStagedBridgeTarget.
  assert (Hcalls : forall token e, swiftCalls active token = inl e -> fuelled e) by (intros token e' He; eapply calls_fuelled; [|exact He]; lia).
  destruct (swiftCalls active (lit ".package")) as [e'|calls] eqn:Hp; [intros [= <-]; by eapply Hcalls|].
  assert (Hrej : forall e', reject_local calls = Some e' -> fuelled e').
  { clear. intros e'. induction calls as [|call calls IH]; [done|]. cbn. destruct (localPathArgument call); [by intros [= <-]|].
    destruct (Contains call _); [by intros [= <-]|done]. }
  destruct (reject_local calls) as [e'|]; [intros [= <-]; by apply Hrej|].
  destruct (swiftCalls active (lit ".binaryTarget")) as [e'|targets] eqn:Ht; [intros [= <-]; by eapply Hcalls|].
  destruct (filter _ targets) as [|call [|? ?]]; [by intros [= <-]| |by intros [= <-]].
  destruct (bool_decide _); [by intros [= <-]|done].
Qed.

(** ** Verdicts *)

(** The manifest of the repository, with its comments, is accepted. *)
Example release_accepted :
  checkSwiftReleaseManifest (swift "// swift-tools-version: 6.0
let package = Package(
    dependencies: [
        .package(url: 'https://github.com/apple/swift-crypto.git', from: '3.0.0'),
        /* .package(path: '../core') /* nested */ */
    ],
    targets: [
        .binaryTarget(name: 'COpenFHEBridge', path: 'Artifacts/AresPrivacyCore.xcframework'),
        .target(name: 'AresClient', dependencies: [.product(name: 'Crypto', package: 'swift-crypto')]),
    ])") = None.
Proof. by vm_compute. Qed.

Example comment_is_no_evidence :
  checkSwiftReleaseManifest (swift "let package = Package(targets: [
        // .binaryTarget(name: 'COpenFHEBridge', path: 'Artifacts/AresPrivacyCore.xcframework'),
    ])") = Some MissingBridgeTarget.
Proof. by vm_compute. Qed.

Example local_dependency_rejected :
  checkSwiftReleaseManifest (swift ".package(name: 'AresCore', path: '../ares-core')") =
  Some (LocalPath (swift "name: 'AresCore', path: '../ares-core'")).
Proof. by vm_compute. Qed.

(** A literal that is only part of the argument is taken for all of it. *)
Example concatenation_accepted :
  checkSwiftReleaseManifest (swift ".binaryTarget(name: 'COpenFHEBridge', path: 'Artifacts/AresPrivacyCore.xcframework' + suffix)") = None.
Proof. by vm_compute. Qed.

Definition before_literal : bytes := swift "targets: [.binaryTarget(name: 'COpenFHEBridge', url: ".
Definition forged_literal : bytes := swift "#'https://example.org/bridge.zip?a', path: 'Artifacts/AresPrivacyCore.xcframework'#".
Definition after_literal : bytes := swift ", checksum: 'c0ffee')]".

(** A string can pass for the binding of the bridge.  There is a manifest
    that binds [COpenFHEBridge] to a URL, has the required path in no argument,
    and is accepted: the path stands inside a raw string literal, which the
    regular expression for literal arguments reads as code.  With an empty
    literal in its place the manifest is rejected. *)
Lemma bridge_evidence_in_string :
  checkSwiftReleaseManifest (before_literal ++ forged_literal ++ after_literal) = None /\
  swiftStringEnd (forged_literal ++ after_literal) = inr (Some (length forged_literal)) /\
  checkSwiftReleaseManifest (before_literal ++ swift "#''#" ++ after_literal) = Some (WrongBridgePath []).
Proof. by vm_compute. Qed.
End SwiftManifest.
