(* ===== verification/ReleaseBundle.v ===== *)
(** * The release gate ([internal/releasebundle], [cmd/release-artifact-gate])

    The staging manifests, the checks that [Assemble] makes of a bundle and a
    checkout, the deployment target read off the staged library, [Verify], and
    the command line around them.  The operating system, git, otool, zip
    archives and JSON are parameters; a run sees one state of them. *)

From S2P Require Import Prelude Sha256 GoPath ZipMembers SwiftManifest.
Import Sha256 GoPath ZipMembers SwiftManifest.

#[local] Open Scope Z_scope.
#[local] Open Scope go_scope.

Module ReleaseBundle.

(** ** Manifests ([types.go]) *)

Definition ArtifactKindAppleXCFramework : bytes := lit "apple_xcframework".
Definition ArtifactKindAndroidAAR : bytes := lit "android_aar".

Definition RequiredApplePlatforms : list bytes := [lit "ios-arm64"; lit "ios-arm64-simulator"; lit "macos-arm64"].
Definition RequiredAndroidABIs : list bytes := [lit "arm64-v8a"; lit "x86_64"].

Record ArtifactManifest := mkArtifact {
  SchemaVersion : Z;
  ArtifactKind : bytes;
  ArtifactPath : bytes;
  ArtifactSHA256 : bytes;
  OpenFHEVersion : bytes;
  OpenFHESourceCommit : bytes;
  AresCoreSourceRevision : bytes;
  TargetArchitectures : list bytes;
  SBOMPath : bytes;
  SBOMSHA256 : bytes;
  ProvenancePath : bytes;
  ProvenanceSHA256 : bytes;
  GeneratedAt : bytes;
  CompatibilityPatchPath : bytes;
  CompatibilityPatchSHA256 : bytes;
  AppleMACOSDeploymentTarget : bytes
}.

Record ArtifactRef := mkRef {
  ar_Kind : bytes;
  ar_File : bytes;
  ar_SHA256 : bytes;
  ar_TargetArchitectures : list bytes;
  ar_SBOMFile : bytes;
  ar_SBOMSHA256 : bytes;
  ar_ProvenanceFile : bytes;
  ar_ProvenanceSHA256 : bytes;
  ar_AppleMACOSDeploymentTarget : bytes
}.

Record ReleaseCacheManifest := mkRelease {
  rc_SchemaVersion : Z;
  rc_AresCoreSourceRevision : bytes;
  rc_OpenFHEVersion : bytes;
  rc_OpenFHESourceCommit : bytes;
  rc_Apple : ArtifactRef;
  rc_Android : ArtifactRef;
  rc_SwiftReleaseManifestSHA256 : bytes;
  rc_GeneratedAt : bytes
}.

#[export] Instance ReleaseCacheManifest_eta : Eta ReleaseCacheManifest := fun m =>
  mkRelease (rc_SchemaVersion m) (rc_AresCoreSourceRevision m) (rc_OpenFHEVersion m) (rc_OpenFHESourceCommit m) (rc_Apple m) (rc_Android m)
    (rc_SwiftReleaseManifestSHA256 m) (rc_GeneratedAt m).

#[export] Instance ArtifactRef_eq_dec : EqDecision ArtifactRef.
Proof. solve_decision. Defined.
#[export] Instance ReleaseCacheManifest_eq_dec : EqDecision ReleaseCacheManifest.
Proof. solve_decision. Defined.

Definition toArtifactRef (m : ArtifactManifest) : ArtifactRef :=
  mkRef (ArtifactKind m) (Base (ArtifactPath m)) (ArtifactSHA256 m) (TargetArchitectures m) (Base (SBOMPath m)) (SBOMSHA256 m)
    (Base (ProvenancePath m)) (ProvenanceSHA256 m) (AppleMACOSDeploymentTarget m).

Record pinFile := mkPin {
  pin_OpenFHEVersion : bytes;
  pin_OpenFHESourceCommit : bytes;
  pin_AndroidNDKMinMajorVersion : bytes
}.

(** ** The system *)

Record FileMode := mkMode { ModeSymlink : bool; ModeRegular : bool; Perm : Z }.

Record DirEntry := mkEntry { de_Name : bytes; de_IsDir : bool }.

(** What the code asks of the system: files, git, archives, otool on a file of
    given contents, and the JSON decoders. *)
Class System := {
  Lstat : bytes -> string + FileMode;
  ReadFile : bytes -> string + bytes;
  ReadDir : bytes -> string + list DirEntry;
  WriteFile : bytes -> bytes -> option string;
  git : bytes -> list bytes -> string + bytes;
  archives :: Archives;
  CreateTemp : option string;
  CopyTemp : bytes -> option string;
  CloseTemp : option string;
  otool : bytes -> string + bytes;
  GOOS : bytes;
  UnmarshalArtifact : bytes -> string + ArtifactManifest;
  UnmarshalPin : bytes -> string + pinFile;
  UnmarshalTargetPin : bytes -> string + bytes;
  UnmarshalRelease : bytes -> string + ReleaseCacheManifest;
  MarshalRelease : ReleaseCacheManifest -> string + bytes
}.

Inductive file_error :=
| SystemError (e : string)
| FileIsSymlink
| NotRegular (mode : FileMode).

Inductive inspect_error :=
| NotDarwin (os : bytes)
| OtoolPathNotCanonical
| OtoolUnavailable (e : string)
| OtoolNotExecutable
| ArchiveNotOpened (e : string)
| ArchiveNames (e : name_error)
| LibraryMissing
| LibraryRepeated (n : Z)
| LibraryNotOpened (e : string)
| CreateFailed (e : string)
| CopyFailed (e : string)
| CloseFailed (e : string)
| OtoolFailed (e : string)
| NotMachO
| NoMinOS.

Inductive version_error := EmptyVersion | NotCanonicalVersion (value : bytes).

Inductive gate_error :=
| ReadingBundle (dir : bytes) (e : string)
| ReadingManifest (path : bytes) (e : file_error)
| ParsingManifest (path : bytes) (e : string)
| NoManifest (dir kind : bytes)
| SeveralManifests (dir : bytes) (n : Z) (kind : bytes)
| Hashing (label path : bytes) (e : file_error)
| HashMismatch (label path want got : bytes)
| RevisionMismatch (apple android : bytes)
| VersionMismatch (apple android : bytes)
| CommitMismatch (apple android : bytes)
| ReadingPin (path : bytes) (e : file_error)
| ParsingPin (path : bytes) (e : string)
| IncompletePin (path : bytes)
| PinMismatch (path : bytes)
| NotACheckout (root : bytes) (e : string)
| WrongRevision (root head want : bytes)
| StatusFailed (root : bytes) (e : string)
| DirtyCheckout (root : bytes)
| MissingArchitectures (label : bytes) (missing actual : list bytes)
| Contents (e : contents_error)
| InvalidTarget (e : version_error)
| InvalidTargetPin (path : bytes) (e : version_error)
| TargetMismatch (recorded declared : bytes)
| Inspecting (path : bytes) (e : inspect_error)
| MalformedMinOS (path : bytes) (e : version_error)
| MinOSMismatch (path value declared : bytes)
| ReadingSwift (path : bytes) (e : file_error)
| SwiftManifestError (e : swift_error)
| NilManifest
| NoLongerAssembles (e : gate_error)
| DoesNotMatch (bundleDir repoRoot : bytes)
| Encoding (e : string)
| Writing (path : bytes) (e : string).

(** [x, err := e; if err != nil { return err }]. *)
#[local] Notation "'let*' x := e 'in' k" := (match e with inl err => inl err | inr x => k end)
  (at level 10, x pattern, e at level 100, k at level 200).
(** [if err := e; err != nil { return err }]. *)
#[local] Notation "'check' e 'then' k" := (match e with Some err => inl err | None => k end)
  (at level 10, e at level 100, k at level 200).
(** [fmt.Errorf(...: %w, err)]. *)
Definition wrap {E E' A} (f : E -> E') (r : E + A) : E' + A := match r with inl e => inl (f e) | inr x => inr x end.

Section gate.
Context `{System}.

(** ** Files *)

Definition readRegularFile (path : bytes) : file_error + bytes :=
  match Lstat path with
  | inl e => inl (SystemError e)
  | inr mode =>
    if ModeSymlink mode then inl FileIsSymlink else
    if negb (ModeRegular mode) then inl (NotRegular mode) else wrap SystemError (ReadFile path)
  end.

Definition hex_sha256 (raw : bytes) : bytes := lit (hex_encode (sha256 raw)).

Definition sha256OfPath (path : bytes) : file_error + bytes :=
  let* raw := readRegularFile path in inr (hex_sha256 raw).

(** ** Staging manifests *)

Definition is_staging (entry : DirEntry) : bool := negb (de_IsDir entry) && HasSuffix (de_Name entry) (lit ".staging-manifest.json").

Fixpoint load_entries (bundleDir kind : bytes) (entries : list DirEntry) : gate_error + list ArtifactManifest :=
  match entries with
  | [] => inr []
  | entry :: entries =>
    if negb (is_staging entry) then load_entries bundleDir kind entries else
    let path := PathJoin [bundleDir; de_Name entry] in
    let* raw := wrap (ReadingManifest path) (readRegularFile path) in
    let* m := wrap (ParsingManifest path) (UnmarshalArtifact raw) in
    let* matches := load_entries bundleDir kind entries in
    inr (if bool_decide (ArtifactKind m = kind) then m :: matches else matches)
  end.

Definition loadStagingManifest (bundleDir kind : bytes) : gate_error + ArtifactManifest :=
  let* entries := wrap (ReadingBundle bundleDir) (ReadDir bundleDir) in
  let* matches := load_entries bundleDir kind entries in
  match matches with
  | [] => inl (NoManifest bundleDir kind)
  | [m] => inr m
  | _ => inl (SeveralManifests bundleDir (zlen matches) kind)
  end.

(** The files a staging manifest refers to: label, name and claimed hash. *)
Definition claims (m : ArtifactManifest) : list (bytes * bytes * bytes) :=
  [(lit "artifact", Base (ArtifactPath m), ArtifactSHA256 m);
   (lit "sbom", Base (SBOMPath m), SBOMSHA256 m);
   (lit "provenance", Base (ProvenancePath m), ProvenanceSHA256 m)].

Definition check_claim (bundleDir : bytes) (c : bytes * bytes * bytes) : option gate_error :=
  let '(label, filename, want) := c in
  let path := PathJoin [bundleDir; filename] in
  match sha256OfPath path with
  | inl e => Some (Hashing label path e)
  | inr got => if bool_decide (got <> want) then Some (HashMismatch label path want got) else None
  end.

Definition verifyManifestHashes (bundleDir : bytes) (m : ArtifactManifest) : option gate_error :=
  first_error (check_claim bundleDir) (claims m).

Definition requireAllArchitectures (label : bytes) (required actual : list bytes) : option gate_error :=
  match filter (fun r => r ∉ actual) required with
  | [] => None
  | missing => Some (MissingArchitectures label missing actual)
  end.

(** ** The checkout *)

Definition native (repoRoot file : bytes) : bytes := PathJoin [repoRoot; lit "clients"; lit "native"; file].

Definition verifyAgainstOpenFHEPin (repoRoot : bytes) (m : ArtifactManifest) : option gate_error :=
  let pinPath := native repoRoot (lit "openfhe.pin.json") in
  match readRegularFile pinPath with
  | inl e => Some (ReadingPin pinPath e)
  | inr raw =>
    match UnmarshalPin raw with
    | inl e => Some (ParsingPin pinPath e)
    | inr pin =>
      if bool_decide (pin_OpenFHEVersion pin = []) || bool_decide (pin_OpenFHESourceCommit pin = []) then Some (IncompletePin pinPath) else
      if bool_decide (OpenFHEVersion m <> pin_OpenFHEVersion pin) || bool_decide (OpenFHESourceCommit m <> pin_OpenFHESourceCommit pin)
      then Some (PinMismatch pinPath) else None
    end
  end.

Definition verifyAndroidNDKPinPresent (repoRoot : bytes) : option gate_error :=
  let pinPath := native repoRoot (lit "android-ndk.pin.json") in
  match readRegularFile pinPath with
  | inl e => Some (ReadingPin pinPath e)
  | inr raw =>
    match UnmarshalPin raw with
    | inl e => Some (ParsingPin pinPath e)
    | inr pin => if bool_decide (pin_AndroidNDKMinMajorVersion pin = []) then Some (IncompletePin pinPath) else None
    end
  end.

Definition verifyCleanSourceRevision (repoRoot wantRevision : bytes) : option gate_error :=
  match git repoRoot [lit "rev-parse"; lit "--verify"; lit "HEAD"] with
  | inl e => Some (NotACheckout repoRoot e)
  | inr head =>
    let head := TrimSpace head in
    if bool_decide (head <> wantRevision) then Some (WrongRevision repoRoot head wantRevision) else
    match git repoRoot [lit "status"; lit "--porcelain"] with
    | inl e => Some (StatusFailed repoRoot e)
    | inr status => if bool_decide (TrimSpace status <> []) then Some (DirtyCheckout repoRoot) else None
    end
  end.

Definition verifySwiftReleaseManifest (repoRoot : bytes) : gate_error + bytes :=
  let path := PathJoin [repoRoot; lit "clients"; lit "swift"; lit "Package.release.swift"] in
  let* raw := wrap (ReadingSwift path) (readRegularFile path) in
  check (SwiftManifestError <$> checkSwiftReleaseManifest raw) then inr (hex_sha256 raw).

(** ** The deployment target ([appledeploymenttarget.go]) *)

Definition is_digit : byte -> bool := in_range 48 57.

(** One side of [appleVersionPattern]: no leading zero. *)
Definition numeral (w : bytes) : bool :=
  match w with
  | [] => false
  | c :: w => if beq c "0"%byte then bool_decide (w = []) else forallb is_digit (c :: w)
  end.

Definition appleVersionPattern (value : bytes) : bool :=
  match Split "."%byte value with
  | [major; minor] => numeral major && numeral minor
  | _ => false
  end.

Definition validateAppleVersionFormat (value : bytes) : option version_error :=
  if bool_decide (value = []) then Some EmptyVersion else
  if negb (appleVersionPattern value) then Some (NotCanonicalVersion value) else None.

Definition readDeclaredAppleDeploymentTarget (repoRoot : bytes) : gate_error + bytes :=
  let path := native repoRoot (lit "apple-deployment-target.pin.json") in
  let* raw := wrap (ReadingPin path) (readRegularFile path) in
  let* pin := wrap (ParsingPin path) (UnmarshalTargetPin raw) in
  check (InvalidTargetPin path <$> validateAppleVersionFormat pin) then inr pin.

Definition canonicalAppleMacOSLibraryMember : bytes := lit "AresPrivacyCore.xcframework/macos-arm64/libAresPrivacyCore.a".
Definition trustedSystemOtoolPath : bytes := lit "/usr/bin/otool".

Definition verifiedSystemOtoolPath : inspect_error + bytes :=
  if bool_decide (GOOS <> lit "darwin") then inl (NotDarwin GOOS) else
  if negb (rooted trustedSystemOtoolPath) || bool_decide (Clean trustedSystemOtoolPath <> trustedSystemOtoolPath)
  then inl OtoolPathNotCanonical else
  let* info := wrap OtoolUnavailable (Lstat trustedSystemOtoolPath) in
  if ModeSymlink info || negb (ModeRegular info) || (Z.land (Perm info) 73 =? 0) then inl OtoolNotExecutable else inr trustedSystemOtoolPath.

(** Values of the lines [minos <value>]. *)
Definition minos_value (line : bytes) : option bytes :=
  match Fields line with
  | [field; value] => if bool_decide (field = lit "minos") then Some value else None
  | _ => None
  end.

Definition minos_values (out : bytes) : list bytes := omap minos_value (Split newline out).

(** [runOtool] is given the contents of the file it is run on. *)
Definition inspectAppleMacOSSliceDeploymentTargetWithRunner (runOtool : bytes -> inspect_error + bytes) (artifactPath : bytes)
    : inspect_error + list bytes :=
  let* files := wrap ArchiveNotOpened (OpenReader artifactPath) in
  check (ArchiveNames <$> validateZIPMemberNames files) then
  match filter (fun f => Name f = canonicalAppleMacOSLibraryMember) files with
  | [] => inl LibraryMissing
  | [member] =>
    let* rc := wrap LibraryNotOpened (Open member) in
    check (CreateFailed <$> CreateTemp) then
    let* contents := wrap CopyFailed rc in
    check (CopyFailed <$> CopyTemp contents) then
    check (CloseFailed <$> CloseTemp) then
    let* out := runOtool contents in
    match minos_values out with
    | [] => inl NoMinOS
    | values => inr values
    end
  | matches => inl (LibraryRepeated (zlen matches))
  end.

Definition run_system_otool (contents : bytes) : inspect_error + bytes :=
  let* out := wrap OtoolFailed (otool contents) in
  if Contains out (lit "is not an object file") then inl NotMachO else inr out.

Definition inspectAppleMacOSSliceDeploymentTarget (artifactPath : bytes) : inspect_error + list bytes :=
  let* _ := verifiedSystemOtoolPath in inspectAppleMacOSSliceDeploymentTargetWithRunner run_system_otool artifactPath.

Definition check_minos (artifactPath declared value : bytes) : option gate_error :=
  match validateAppleVersionFormat value with
  | Some e => Some (MalformedMinOS artifactPath e)
  | None => if bool_decide (value <> declared) then Some (MinOSMismatch artifactPath value declared) else None
  end.

Definition verifyAppleDeploymentTarget (repoRoot : bytes) (apple : ArtifactManifest) (artifactPath : bytes)
    (inspectDeploymentTarget : bytes -> inspect_error + list bytes) : option gate_error :=
  match validateAppleVersionFormat (AppleMACOSDeploymentTarget apple) with
  | Some e => Some (InvalidTarget e)
  | None =>
    match readDeclaredAppleDeploymentTarget repoRoot with
    | inl e => Some e
    | inr declared =>
      if bool_decide (AppleMACOSDeploymentTarget apple <> declared) then Some (TargetMismatch (AppleMACOSDeploymentTarget apple) declared) else
      match inspectDeploymentTarget artifactPath with
      | inl e => Some (Inspecting artifactPath e)
      | inr inspectedMinOS => first_error (check_minos artifactPath declared) inspectedMinOS
      end
    end
  end.

(** ** Assembling and verifying *)

Definition release_of (now : bytes) (apple android : ArtifactManifest) (swiftManifestSHA256 : bytes) : ReleaseCacheManifest :=
  mkRelease 1 (AresCoreSourceRevision apple) (OpenFHEVersion apple) (OpenFHESourceCommit apple) (toArtifactRef apple) (toArtifactRef android)
    swiftManifestSHA256 now.

Definition require (ok : bool) (e : gate_error) : option gate_error := if ok then None else Some e.

(** [now] is the time of the call. *)
Definition assemble (now bundleDir repoRoot : bytes) (inspectDeploymentTarget : bytes -> inspect_error + list bytes)
    : gate_error + ReleaseCacheManifest :=
  let* apple := loadStagingManifest bundleDir ArtifactKindAppleXCFramework in
  let* android := loadStagingManifest bundleDir ArtifactKindAndroidAAR in
  check verifyManifestHashes bundleDir apple then
  check verifyManifestHashes bundleDir android then
  check require (bool_decide (AresCoreSourceRevision apple = AresCoreSourceRevision android))
          (RevisionMismatch (AresCoreSourceRevision apple) (AresCoreSourceRevision android)) then
  check require (bool_decide (OpenFHEVersion apple = OpenFHEVersion android)) (VersionMismatch (OpenFHEVersion apple) (OpenFHEVersion android)) then
  check require (bool_decide (OpenFHESourceCommit apple = OpenFHESourceCommit android))
          (CommitMismatch (OpenFHESourceCommit apple) (OpenFHESourceCommit android)) then
  check verifyAgainstOpenFHEPin repoRoot apple then
  check verifyAndroidNDKPinPresent repoRoot then
  check verifyCleanSourceRevision repoRoot (AresCoreSourceRevision apple) then
  check requireAllArchitectures (lit "apple xcframework") RequiredApplePlatforms (TargetArchitectures apple) then
  check requireAllArchitectures (lit "android aar") RequiredAndroidABIs (TargetArchitectures android) then
  let appleArtifactPath := PathJoin [bundleDir; Base (ArtifactPath apple)] in
  check (Contents <$> checkAppleXCFrameworkContents appleArtifactPath RequiredApplePlatforms) then
  check verifyAppleDeploymentTarget repoRoot apple appleArtifactPath inspectDeploymentTarget then
  let androidArtifactPath := PathJoin [bundleDir; Base (ArtifactPath android)] in
  check (Contents <$> checkAndroidAARContents androidArtifactPath RequiredAndroidABIs) then
  let* swiftManifestSHA256 := verifySwiftReleaseManifest repoRoot in
  inr (release_of now apple android swiftManifestSHA256).

Definition Assemble (now bundleDir repoRoot : bytes) : gate_error + ReleaseCacheManifest :=
  assemble now bundleDir repoRoot inspectAppleMacOSSliceDeploymentTarget.

Definition verify (now bundleDir repoRoot : bytes) (m : option ReleaseCacheManifest)
    (inspectDeploymentTarget : bytes -> inspect_error + list bytes) : option gate_error :=
  match m with
  | None => Some NilManifest
  | Some m =>
    match assemble now bundleDir repoRoot inspectDeploymentTarget with
    | inl e => Some (NoLongerAssembles e)
    | inr fresh =>
      let freshForComparison := fresh <| rc_GeneratedAt := rc_GeneratedAt m |> in
      if bool_decide (freshForComparison <> m) then Some (DoesNotMatch bundleDir repoRoot) else None
    end
  end.

Definition Verify (now bundleDir repoRoot : bytes) (m : option ReleaseCacheManifest) : option gate_error :=
  verify now bundleDir repoRoot m inspectAppleMacOSSliceDeploymentTarget.

(** The bytes written, if all goes well. *)
Definition WriteManifest (path : bytes) (m : ReleaseCacheManifest) : gate_error + bytes :=
  let* raw := wrap Encoding (MarshalRelease m) in
  let raw := raw ++ [newline] in
  check (Writing path <$> WriteFile path raw) then inr raw.

(** ** The command line ([cmd/release-artifact-gate]) *)

(** The outcome of a run: its exit status, and the file it wrote. *)
Record Exit := mkExit { status : Z; wrote : option (bytes * bytes) }.

Definition failed : Exit := mkExit 1 None.

(** [flag.FlagSet.Parse] with [ExitOnError], for string flags: the values of the
    declared flags, or the status the process exits with. *)
Definition flag_name (arg : bytes) : option bytes :=
  match arg with
  | a :: b :: rest => if negb (beq a "-"%byte) then None else Some (if beq b "-"%byte then rest else b :: rest)
  | _ => None
  end.

Definition bad_name (name : bytes) : bool :=
  match name with [] => true | c :: _ => beq c "-"%byte || beq c "="%byte end.

(** [name=value], the sign not being first. *)
Definition flag_value (name : bytes) : bytes * option bytes :=
  let '(n, r) := span (fun c => negb (beq c "="%byte)) name in
  match r with [] => (name, None) | _ :: v => (n, Some v) end.

Fixpoint parse_flags (declared : list bytes) (values : gmap bytes bytes) (args : list bytes) : Z + gmap bytes bytes :=
  match args with
  | [] => inr values
  | arg :: args =>
    match flag_name arg with
    | None => inr values
    | Some name =>
      if bool_decide (arg = lit "--") then inr values else
      if bad_name name then inl 2 else
      let '(name, value) := flag_value name in
      if bool_decide (name ∉ declared) then
        if bool_decide (name = lit "help") || bool_decide (name = lit "h") then inl 0 else inl 2
      else match value, args with
      | Some value, _ => parse_flags declared (<[name := value]> values) args
      | None, value :: args => parse_flags declared (<[name := value]> values) args
      | None, [] => inl 2
      end
    end
  end.

Definition flag (values : gmap bytes bytes) (name : string) : bytes := default [] (values !! lit name).

Definition runAssemble (now : bytes) (args : list bytes) : Exit :=
  match parse_flags [lit "bundle-dir"; lit "repo-root"; lit "out"] ∅ args with
  | inl code => mkExit code None
  | inr fs =>
    let bundleDir := flag fs "bundle-dir" in
    let repoRoot := flag fs "repo-root" in
    let out := flag fs "out" in
    if bool_decide (bundleDir = []) || bool_decide (repoRoot = []) || bool_decide (out = []) then failed else
    match Assemble now bundleDir repoRoot with
    | inl _ => failed
    | inr m =>
      match WriteManifest out m with
      | inl _ => failed
      | inr raw => mkExit 0 (Some (out, raw))
      end
    end
  end.

Definition runVerify (now : bytes) (args : list bytes) : Exit :=
  match parse_flags [lit "manifest"; lit "bundle-dir"; lit "repo-root"] ∅ args with
  | inl code => mkExit code None
  | inr fs =>
    let manifestPath := flag fs "manifest" in
    let bundleDir := flag fs "bundle-dir" in
    let repoRoot := flag fs "repo-root" in
    if bool_decide (manifestPath = []) || bool_decide (bundleDir = []) || bool_decide (repoRoot = []) then failed else
    match ReadFile manifestPath with
    | inl _ => failed
    | inr raw =>
      match UnmarshalRelease raw with
      | inl _ => failed
      | inr m =>
        match Verify now bundleDir repoRoot (Some m) with
        | Some _ => failed
        | None => mkExit 0 None
        end
      end
    end
  end.

Definition main (now : bytes) (args : list bytes) : Exit :=
  match args with
  | _ :: command :: args =>
    if bool_decide (command = lit "assemble") then runAssemble now args else
    if bool_decide (command = lit "verify") then runVerify now args else
    if bool_decide (command = lit "-h") || bool_decide (command = lit "--help") then mkExit 0 None else failed
  | _ => failed
  end.

(** ** What is accepted *)

(** A regular file, no symbolic link, with these contents. *)
Definition regular (path raw : bytes) : Prop :=
  exists mode, Lstat path = inr mode /\ ModeSymlink mode = false /\ ModeRegular mode = true /\ ReadFile path = inr raw.

(** Of the staging manifests of the bundle, all of which are readable, exactly
    one has the kind. *)
Definition staged (bundleDir kind : bytes) (m : ArtifactManifest) : Prop :=
  exists entries manifests, ReadDir bundleDir = inr entries /\
    Forall2 (fun entry m => exists raw, regular (PathJoin [bundleDir; de_Name entry]) raw /\ UnmarshalArtifact raw = inr m)
      (filter (fun e => is_staging e = true) entries) manifests /\
    filter (fun m => ArtifactKind m = kind) manifests = [m].

(** Every file the manifest refers to is in the bundle, with the hash it claims. *)
Definition hashes_true (bundleDir : bytes) (m : ArtifactManifest) : Prop :=
  Forall (fun '(_, filename, want) => exists raw, regular (PathJoin [bundleDir; filename]) raw /\ want = hex_sha256 raw) (claims m).

Definition pinned (repoRoot : bytes) (m : ArtifactManifest) : Prop :=
  exists raw pin, regular (native repoRoot (lit "openfhe.pin.json")) raw /\ UnmarshalPin raw = inr pin /\
    OpenFHEVersion m = pin_OpenFHEVersion pin /\ OpenFHESourceCommit m = pin_OpenFHESourceCommit pin /\
    OpenFHEVersion m <> [] /\ OpenFHESourceCommit m <> [].

Definition ndk_pinned (repoRoot : bytes) : Prop :=
  exists raw pin, regular (native repoRoot (lit "android-ndk.pin.json")) raw /\ UnmarshalPin raw = inr pin /\
    pin_AndroidNDKMinMajorVersion pin <> [].

(** The checkout is at the revision, with nothing but white space to report. *)
Definition clean_at (repoRoot revision : bytes) : Prop :=
  exists head report, git repoRoot [lit "rev-parse"; lit "--verify"; lit "HEAD"] = inr head /\ TrimSpace head = revision /\
    git repoRoot [lit "status"; lit "--porcelain"] = inr report /\ Forall (fun c => is_space c = true) report.

Definition apple_contents (path : bytes) : Prop :=
  exists files, OpenReader path = inr files /\ validateZIPMemberNames files = None /\
    forall slice member, slice ∈ RequiredApplePlatforms -> member ∈ bridge_members slice -> member ∈ Name <$> files.

Definition android_contents (path : bytes) : Prop :=
  exists files, OpenReader path = inr files /\
    forall abi library, abi ∈ RequiredAndroidABIs -> library ∈ requiredAndroidLibraries -> abi_member abi library ∈ Name <$> files.

(** The recorded target is canonical, the one the checkout declares, and the
    only one found in the staged library. *)
Definition target_true (repoRoot : bytes) (m : ArtifactManifest) (path : bytes) (inspect : bytes -> inspect_error + list bytes) : Prop :=
  let target := AppleMACOSDeploymentTarget m in
  appleVersionPattern target = true /\
  (exists raw, regular (native repoRoot (lit "apple-deployment-target.pin.json")) raw /\ UnmarshalTargetPin raw = inr target) /\
  exists values, inspect path = inr values /\ Forall (fun v => v = target) values.

Definition swift_true (repoRoot hash : bytes) : Prop :=
  exists raw, regular (PathJoin [repoRoot; lit "clients"; lit "swift"; lit "Package.release.swift"]) raw /\
    checkSwiftReleaseManifest raw = None /\ hash = hex_sha256 raw.

Record evidence (bundleDir repoRoot : bytes) (inspect : bytes -> inspect_error + list bytes) (apple android : ArtifactManifest) (swiftHash : bytes)
    : Prop := mkEvidence {
  ev_apple : staged bundleDir ArtifactKindAppleXCFramework apple;
  ev_android : staged bundleDir ArtifactKindAndroidAAR android;
  ev_apple_files : hashes_true bundleDir apple;
  ev_android_files : hashes_true bundleDir android;
  ev_revision : AresCoreSourceRevision apple = AresCoreSourceRevision android;
  ev_version : OpenFHEVersion apple = OpenFHEVersion android;
  ev_commit : OpenFHESourceCommit apple = OpenFHESourceCommit android;
  ev_pin : pinned repoRoot apple;
  ev_ndk : ndk_pinned repoRoot;
  ev_clean : clean_at repoRoot (AresCoreSourceRevision apple);
  ev_platforms : RequiredApplePlatforms ⊆ TargetArchitectures apple;
  ev_abis : RequiredAndroidABIs ⊆ TargetArchitectures android;
  ev_apple_contents : apple_contents (PathJoin [bundleDir; Base (ArtifactPath apple)]);
  ev_target : target_true repoRoot apple (PathJoin [bundleDir; Base (ArtifactPath apple)]) inspect;
  ev_android_contents : android_contents (PathJoin [bundleDir; Base (ArtifactPath android)]);
  ev_swift : swift_true repoRoot swiftHash
}.

Lemma regular_spec path raw : readRegularFile path = inr raw <-> regular path raw.
Proof.
  unfold readRegularFile, regular. destruct (Lstat path) as [e|mode]; [split; [done|by intros (? & ? & _)]|]. split.
  - destruct (ModeSymlink mode) eqn:Hs; [done|]. destruct (ModeRegular mode) eqn:Hr; [|done]. destruct (ReadFile path); cbn; [done|].
    intros [= <-]. by exists mode.
  - intros (mode' & [= <-] & -> & -> & ->). done.
Qed.

Lemma filter_bool {A} (P : A -> Prop) `{forall x, Decision (P x)} x l :
  filter P (x :: l) = if bool_decide (P x) then x :: filter P l else filter P l.
Proof. rewrite filter_cons. case_decide; [by rewrite bool_decide_eq_true_2|by rewrite bool_decide_eq_false_2]. Qed.

Lemma load_entries_spec bundleDir kind entries matches : load_entries bundleDir kind entries = inr matches <->
  exists manifests,
    Forall2 (fun entry m => exists raw, regular (PathJoin [bundleDir; de_Name entry]) raw /\ UnmarshalArtifact raw = inr m)
      (filter (fun e => is_staging e = true) entries) manifests /\
    filter (fun m => ArtifactKind m = kind) manifests = matches.
Proof.
  revert matches. induction entries as [|e entries IH]; intros matches; cbn [load_entries].
  - split; [intros [= <-]; by exists []|]. intros (ms & Hms & <-). apply Forall2_nil_inv_l in Hms as ->. done.
  - rewrite filter_cons. destruct (is_staging e) eqn:Hs; cbn [negb]; [rewrite decide_True by done|rewrite decide_False by done; apply IH].
    set (path := PathJoin [bundleDir; de_Name e]). split.
    + destruct (readRegularFile path) as [err|raw] eqn:Hr; [done|]. apply regular_spec in Hr. cbn [wrap].
      destruct (UnmarshalArtifact raw) as [err|m] eqn:Hu; [done|]. cbn [wrap]. destruct (load_entries _ _ _) as [err|ms] eqn:Hl; [done|].
      intros [= <-]. destruct (proj1 (IH ms) eq_refl) as (manifests & Hms & <-). exists (m :: manifests). split; [constructor; eauto|].
      by rewrite filter_bool.
    + intros (manifests & Hms & <-). apply Forall2_cons_inv_l in Hms as (m & manifests' & (raw & Hr & Hu) & Hms & ->).
      apply regular_spec in Hr. fold path in Hr. rewrite Hr. cbn [wrap]. rewrite Hu. cbn [wrap].
      rewrite (proj2 (IH (filter (fun m => ArtifactKind m = kind) manifests'))) by eauto. by rewrite filter_bool.
Qed.

Lemma staged_spec bundleDir kind m : loadStagingManifest bundleDir kind = inr m <-> staged bundleDir kind m.
Proof.
  unfold loadStagingManifest, staged. destruct (ReadDir bundleDir) as [e|entries]; cbn [wrap]; [split; [done|by intros (? & ? & ? & _)]|].
  destruct (load_entries bundleDir kind entries) as [e|matches] eqn:Hl.
  - split; [done|]. intros (es & ms & [= <-] & Hms & Hf).
    assert (load_entries bundleDir kind entries = inr [m]) by (apply load_entries_spec; eauto). congruence.
  - split.
    + destruct matches as [|x [|? ?]]; try done. intros [= ->]. apply load_entries_spec in Hl as (ms & ? & ?). eauto.
    + intros (es & ms & [= <-] & Hms & Hf). assert (Hm : load_entries bundleDir kind entries = inr [m]) by (apply load_entries_spec; eauto).
      rewrite Hl in Hm. by injection Hm as ->.
Qed.

Lemma hashes_spec bundleDir m : verifyManifestHashes bundleDir m = None <-> hashes_true bundleDir m.
Proof.
  unfold verifyManifestHashes, hashes_true. rewrite no_error. apply Forall_iff. intros [[label filename] want].
  unfold check_claim, sha256OfPath. destruct (readRegularFile _) as [e|raw] eqn:Hr.
  - split; [done|]. intros (raw & Hraw & _). apply regular_spec in Hraw. congruence.
  - apply regular_spec in Hr as Hreg. case_bool_decide as Hb; split; [done| | |done].
    + intros (raw' & Hraw & ->). apply regular_spec in Hraw. rewrite Hr in Hraw. by injection Hraw as ->.
    + intros _. exists raw. split; [done|]. by symmetry.
Qed.

Lemma regular_det path raw raw' : regular path raw -> regular path raw' -> raw = raw'.
Proof. intros (? & _ & _ & _ & H1) (? & _ & _ & _ & H2). congruence. Qed.

Lemma pinned_spec repoRoot m : verifyAgainstOpenFHEPin repoRoot m = None <-> pinned repoRoot m.
Proof.
  unfold verifyAgainstOpenFHEPin, pinned. destruct (readRegularFile _) as [e|raw] eqn:Hr.
  { split; [done|]. intros (raw & ? & Hraw%regular_spec & _). congruence. }
  apply regular_spec in Hr. destruct (UnmarshalPin raw) as [e|pin] eqn:Hu.
  { split; [done|]. intros (raw' & pin & Hraw & Hpin & _). rewrite (regular_det _ _ _ Hraw Hr) in Hpin. congruence. }
  split.
  - repeat case_bool_decide; try done. cbn. intros _. exists raw, pin.
    assert (Hv : OpenFHEVersion m = pin_OpenFHEVersion pin) by done.
    assert (Hc : OpenFHESourceCommit m = pin_OpenFHESourceCommit pin) by done. rewrite Hv, Hc. done.
  - intros (raw' & pin' & Hraw & Hpin & Hv & Hc & Hnv & Hnc). rewrite (regular_det _ _ _ Hraw Hr), Hu in Hpin. injection Hpin as <-.
    rewrite Hv, Hc in *. rewrite !bool_decide_eq_false_2 by tauto. done.
Qed.

Lemma ndk_spec repoRoot : verifyAndroidNDKPinPresent repoRoot = None <-> ndk_pinned repoRoot.
Proof.
  unfold verifyAndroidNDKPinPresent, ndk_pinned. destruct (readRegularFile _) as [e|raw] eqn:Hr.
  { split; [done|]. intros (raw & ? & Hraw%regular_spec & _). congruence. }
  apply regular_spec in Hr. destruct (UnmarshalPin raw) as [e|pin] eqn:Hu.
  { split; [done|]. intros (raw' & pin & Hraw & Hpin & _). rewrite (regular_det _ _ _ Hraw Hr) in Hpin. congruence. }
  case_bool_decide as Hb; split; [done| |eauto 8|done].
  intros (raw' & pin' & Hraw & Hpin & Hn). rewrite (regular_det _ _ _ Hraw Hr), Hu in Hpin. by injection Hpin as <-.
Qed.

Lemma TrimLeftFunc_nil p s : TrimLeftFunc p s = [] <-> Forall (fun c => p c = true) s.
Proof.
  induction s as [|c s IH]; cbn; [by split|]. rewrite Forall_cons. destruct (p c); [rewrite IH; tauto|split; [done|by intros [? _]]].
Qed.

Lemma TrimSpace_nil s : TrimSpace s = [] <-> Forall (fun c => is_space c = true) s.
Proof.
  unfold TrimSpace, TrimRightFunc. rewrite <- (reverse_nil (A := byte)), (inj_iff reverse), TrimLeftFunc_nil, Forall_reverse.
  split; intros Hs.
  - induction s as [|c s IH]; [done|]. cbn in Hs. destruct (is_space c) eqn:Hc; [constructor; auto|]. inversion Hs; congruence.
  - apply TrimLeftFunc_nil in Hs as ->. done.
Qed.

Lemma clean_spec repoRoot revision : verifyCleanSourceRevision repoRoot revision = None <-> clean_at repoRoot revision.
Proof.
  unfold verifyCleanSourceRevision, clean_at. destruct (git repoRoot [lit "rev-parse"; _; _]) as [e|head]; [split; [done|by intros (? & ? & ? & _)]|].
  split.
  - case_bool_decide as Hh; [done|]. destruct (git repoRoot [lit "status"; _]) as [e|report]; [done|]. case_bool_decide as Hr; [done|].
    intros _. exists head, report. split_and!; [done..|]. by apply TrimSpace_nil.
  - intros (head' & report & [= <-] & Hh & -> & Hr). apply TrimSpace_nil in Hr. rewrite !bool_decide_eq_false_2 by tauto. done.
Qed.

Lemma architectures_spec label required actual : requireAllArchitectures label required actual = None <-> required ⊆ actual.
Proof.
  unfold requireAllArchitectures. destruct (filter _ required) as [|r rs] eqn:Hf; split; [|done|done|].
  - intros _ r Hr. destruct (decide (r ∈ actual)) as [Hin|Hin]; [done|].
    assert (Hx : r ∈ filter (fun r => r ∉ actual) required) by (by apply list_elem_of_filter). rewrite Hf in Hx. by apply not_elem_of_nil in Hx.
  - intros Hs. assert (Hx : r ∈ filter (fun r => r ∉ actual) required) by (rewrite Hf; left). apply list_elem_of_filter in Hx as [Hn Hr]. by apply Hs in Hr.
Qed.

Lemma apple_contents_spec path : checkAppleXCFrameworkContents path RequiredApplePlatforms = None <-> apple_contents path.
Proof.
  unfold checkAppleXCFrameworkContents, apple_contents. destruct (OpenReader path) as [e|files]; [split; [done|by intros (? & ? & _)]|]. split.
  - destruct (validateZIPMemberNames files) eqn:Hv; [done|]. intros Hf%no_error. exists files. split_and!; [done..|].
    intros slice member Hs Hm. rewrite Forall_forall in Hf. apply Hf, check_slice_None in Hs. rewrite Forall_forall in Hs. auto.
  - intros (files' & [= <-] & -> & Hf). apply no_error, Forall_forall. intros slice Hs. apply check_slice_None, Forall_forall. eauto.
Qed.

Lemma android_contents_spec path : checkAndroidAARContents path RequiredAndroidABIs = None <-> android_contents path.
Proof.
  unfold checkAndroidAARContents, android_contents. destruct (OpenReader path) as [e|files]; [split; [done|by intros (? & ? & _)]|]. split.
  - intros Hf%no_error. exists files. split; [done|]. intros abi library Ha Hl. rewrite Forall_forall in Hf.
    apply Hf, check_abi_None in Ha. rewrite Forall_forall in Ha. auto.
  - intros (files' & [= <-] & Hf). apply no_error, Forall_forall. intros abi Ha. apply check_abi_None, Forall_forall. eauto.
Qed.

Lemma version_spec value : validateAppleVersionFormat value = None <-> appleVersionPattern value = true.
Proof.
  unfold validateAppleVersionFormat. destruct value as [|c value]; [done|]. rewrite bool_decide_eq_false_2 by done.
  destruct (appleVersionPattern (c :: value)); by split.
Qed.

Lemma declared_spec repoRoot declared : readDeclaredAppleDeploymentTarget repoRoot = inr declared <->
  appleVersionPattern declared = true /\
  exists raw, regular (native repoRoot (lit "apple-deployment-target.pin.json")) raw /\ UnmarshalTargetPin raw = inr declared.
Proof.
  unfold readDeclaredAppleDeploymentTarget. destruct (readRegularFile _) as [e|raw] eqn:Hr; cbn [wrap].
  { split; [done|]. intros (_ & raw & Hraw%regular_spec & _). congruence. }
  apply regular_spec in Hr. destruct (UnmarshalTargetPin raw) as [e|pin] eqn:Hu; cbn [wrap].
  { split; [done|]. intros (_ & raw' & Hraw & Hpin). rewrite (regular_det _ _ _ Hraw Hr) in Hpin. congruence. }
  split.
  - destruct (validateAppleVersionFormat pin) eqn:Hv; [done|]. cbn. intros [= <-]. apply version_spec in Hv. eauto.
  - intros (Hp & raw' & Hraw & Hpin). rewrite (regular_det _ _ _ Hraw Hr), Hu in Hpin. injection Hpin as <-.
    apply version_spec in Hp as ->. done.
Qed.

Lemma target_spec repoRoot m path inspect : verifyAppleDeploymentTarget repoRoot m path inspect = None <-> target_true repoRoot m path inspect.
Proof.
  unfold verifyAppleDeploymentTarget, target_true. split.
  - destruct (validateAppleVersionFormat (AppleMACOSDeploymentTarget m)) eqn:Hv; [done|]. apply version_spec in Hv.
    destruct (readDeclaredAppleDeploymentTarget repoRoot) as [e|declared] eqn:Hd; [done|]. apply declared_spec in Hd as [_ Hd].
    case_bool_decide as Heq; [done|]. rewrite Heq in *. destruct (inspect path) as [e|values]; [done|]. intros Hf%no_error.
    split_and!; [done..|]. exists values. split; [done|]. eapply Forall_impl; [exact Hf|]. intros v. unfold check_minos.
    destruct (validateAppleVersionFormat v); [done|]. by case_bool_decide.
  - intros (Hp & Hd & values & -> & Hf). rewrite (proj2 (version_spec _) Hp), (proj2 (declared_spec _ _) (conj Hp Hd)).
    rewrite bool_decide_eq_false_2 by tauto. apply no_error. eapply Forall_impl; [exact Hf|]. intros v ->. unfold check_minos.
    by rewrite (proj2 (version_spec _) Hp), bool_decide_eq_false_2 by tauto.
Qed.

Lemma swift_spec repoRoot hash : verifySwiftReleaseManifest repoRoot = inr hash <-> swift_true repoRoot hash.
Proof.
  unfold verifySwiftReleaseManifest, swift_true. destruct (readRegularFile _) as [e|raw] eqn:Hr; cbn [wrap].
  { split; [done|]. intros (raw & Hraw%regular_spec & _). congruence. }
  apply regular_spec in Hr. split.
  - destruct (checkSwiftReleaseManifest raw) eqn:Hc; [done|]. intros [= <-]. eauto.
  - intros (raw' & Hraw & Hc & ->). rewrite (regular_det _ _ _ Hraw Hr) in *. by rewrite Hc.
Qed.

Lemma require_None P `{Decision P} e : require (bool_decide P) e = None <-> P.
Proof. unfold require. by case_bool_decide. Qed.

Lemma wrapped_None {E E'} (f : E -> E') (o : option E) : f <$> o = None <-> o = None.
Proof. by destruct o. Qed.

(** [Assemble] succeeds exactly on evidence. *)
Lemma assemble_evidence now bundleDir repoRoot inspect m : assemble now bundleDir repoRoot inspect = inr m <->
  exists apple android swiftHash, evidence bundleDir repoRoot inspect apple android swiftHash /\ m = release_of now apple android swiftHash.
Proof.
  unfold assemble. split.
  - destruct (loadStagingManifest bundleDir ArtifactKindAppleXCFramework) as [e|apple] eqn:H1; [done|].
    destruct (loadStagingManifest bundleDir ArtifactKindAndroidAAR) as [e|android] eqn:H2; [done|].
    apply staged_spec in H1, H2.
    destruct (verifyManifestHashes bundleDir apple) eqn:H3; [done|]. destruct (verifyManifestHashes bundleDir android) eqn:H4; [done|].
    destruct (require _ (RevisionMismatch _ _)) eqn:H5; [done|]. destruct (require _ (VersionMismatch _ _)) eqn:H6; [done|].
    destruct (require _ (CommitMismatch _ _)) eqn:H7; [done|]. destruct (verifyAgainstOpenFHEPin _ _) eqn:H8; [done|].
    destruct (verifyAndroidNDKPinPresent _) eqn:H9; [done|]. destruct (verifyCleanSourceRevision _ _) eqn:H10; [done|].
    destruct (requireAllArchitectures _ RequiredApplePlatforms _) eqn:H11; [done|].
    destruct (requireAllArchitectures _ RequiredAndroidABIs _) eqn:H12; [done|].
    destruct (Contents <$> checkAppleXCFrameworkContents _ _) eqn:H13; [done|].
    destruct (verifyAppleDeploymentTarget _ _ _ _) eqn:H14; [done|].
    destruct (Contents <$> checkAndroidAARContents _ _) eqn:H15; [done|].
    destruct (verifySwiftReleaseManifest repoRoot) as [e|swiftHash] eqn:H16; [done|]. intros [= <-].
    apply hashes_spec in H3, H4. apply require_None in H5, H6, H7. apply pinned_spec in H8. apply ndk_spec in H9. apply clean_spec in H10.
    apply architectures_spec in H11, H12. apply wrapped_None, apple_contents_spec in H13. apply target_spec in H14.
    apply wrapped_None, android_contents_spec in H15. apply swift_spec in H16. by exists apple, android, swiftHash.
  - intros (apple & android & swiftHash & [H1 H2 H3 H4 H5 H6 H7 H8 H9 H10 H11 H12 H13 H14 H15 H16] & ->).
    apply staged_spec in H1, H2. rewrite H1, H2. rewrite !(proj2 (hashes_spec _ _)) by done. rewrite !(proj2 (require_None _ _)) by done.
    rewrite (proj2 (pinned_spec _ _)), (proj2 (ndk_spec _)), (proj2 (clean_spec _ _)) by done. rewrite !(proj2 (architectures_spec _ _ _)) by done.
    rewrite (proj2 (apple_contents_spec _)), (proj2 (target_spec _ _ _ _)), (proj2 (android_contents_spec _)) by done.
    by rewrite (proj2 (swift_spec _ _) H16).
Qed.

(** The time is the only thing that changes between two runs. *)
Lemma assemble_time now now' bundleDir repoRoot inspect m :
  assemble now bundleDir repoRoot inspect = inr m <-> assemble now' bundleDir repoRoot inspect = inr (m <| rc_GeneratedAt := now' |>) /\ rc_GeneratedAt m = now.
Proof.
  rewrite !assemble_evidence. split.
  - intros (apple & android & swiftHash & He & ->). split; [|done]. by exists apple, android, swiftHash.
  - intros [(apple & android & swiftHash & He & Hm) <-]. exists apple, android, swiftHash. split; [done|]. destruct m. unfold set_field, release_of in *.
    injection Hm as -> -> -> -> -> -> ->. done.
Qed.

Lemma verify_fresh now bundleDir repoRoot inspect m :
  verify now bundleDir repoRoot (Some m) inspect = None <-> assemble (rc_GeneratedAt m) bundleDir repoRoot inspect = inr m.
Proof.
  unfold verify. destruct (assemble now bundleDir repoRoot inspect) as [e|fresh] eqn:Ha; split; try done.
  - intros Hm. destruct (proj1 (assemble_time _ now _ _ _ _) Hm) as [Hm' _]. congruence.
  - case_bool_decide as Hc; [done|]. intros _. rewrite <- Hc. by destruct (proj1 (assemble_time _ (rc_GeneratedAt m) _ _ _ _) Ha) as [Ha' _].
  - intros Hm. destruct (proj1 (assemble_time _ now _ _ _ _) Hm) as [Hm' _]. rewrite Ha in Hm'. injection Hm' as ->.
    rewrite bool_decide_eq_false_2; [done|]. intros Hn. apply Hn. by destruct m.
Qed.

(** C22: the gate is closed to everything but evidence.  [Assemble] returns a
    manifest exactly when the bundle holds one staging manifest of each
    platform whose files are regular and have the hashes it claims, both
    platforms agree on revision and pins, the checkout is clean at that revision
    with those pins, every required slice and library is a member of the staged
    archives, the deployment target is the declared one in every object of the
    staged library, and the Swift manifest passes its scan; the manifest is then
    determined by them and the time.  [Verify] accepts a manifest at any time
    exactly when assembling the bundle at the time the manifest states gives
    that manifest. *)
Theorem gate_exact now bundleDir repoRoot inspect m :
  (assemble now bundleDir repoRoot inspect = inr m <->
   exists apple android swiftHash, evidence bundleDir repoRoot inspect apple android swiftHash /\ m = release_of now apple android swiftHash) /\
  (verify now bundleDir repoRoot (Some m) inspect = None <-> assemble (rc_GeneratedAt m) bundleDir repoRoot inspect = inr m).
Proof.
  split; [apply assemble_evidence|apply verify_fresh].
Qed.

(** The targets come from the one canonical library of a well-named archive,
    through a trusted otool, and there is at least one. *)
Lemma inspected path values : inspectAppleMacOSSliceDeploymentTarget path = inr values ->
  values <> [] /\ GOOS = lit "darwin" /\
  exists files member contents out, OpenReader path = inr files /\ validateZIPMemberNames files = None /\
    filter (fun f => Name f = canonicalAppleMacOSLibraryMember) files = [member] /\ Open member = inr (inr contents) /\
    otool contents = inr out /\ values = minos_values out.
Proof.
  unfold inspectAppleMacOSSliceDeploymentTarget, verifiedSystemOtoolPath. case_bool_decide as Hos; [done|].
  destruct (negb _ || _); [done|]. destruct (Lstat _) as [e|info]; [done|]. cbn [wrap]. destruct (_ || _); [done|].
  unfold inspectAppleMacOSSliceDeploymentTargetWithRunner. destruct (OpenReader path) as [e|files] eqn:Ho; [done|]. cbn [wrap].
  destruct (validateZIPMemberNames files) eqn:Hv; [done|]. cbn [fmap option_fmap option_map].
  destruct (filter _ files) as [|member [|? ?]] eqn:Hf; [done| |done]. destruct (Open member) as [e|[e|contents]] eqn:Hm; [done| |].
  { cbn [wrap]. by destruct CreateTemp. }
  cbn [wrap]. destruct CreateTemp; [done|]. cbn [fmap option_fmap option_map]. destruct (CopyTemp contents); [done|].
  cbn [fmap option_fmap option_map]. destruct CloseTemp; [done|]. cbn [fmap option_fmap option_map].
  destruct (run_system_otool contents) as [e|out] eqn:Hr; [done|].
  destruct (minos_values out) as [|v vs] eqn:Hvs; [done|]. intros [= <-]. split_and!; [done..|]. exists files, member, contents, out.
  split_and!; try done. unfold run_system_otool in Hr. destruct (otool contents); [done|]. cbn [wrap] in Hr. by destruct (Contains _ _); simplify_eq.
Qed.

(** The command line exits with 0 exactly on the verdict of the gate. *)
Lemma cli_verifies now prog manifest bundleDir repoRoot : manifest <> [] -> bundleDir <> [] -> repoRoot <> [] ->
  status (main now [prog; lit "verify"; lit "-manifest=" ++ manifest; lit "-bundle-dir=" ++ bundleDir; lit "-repo-root=" ++ repoRoot]) = 0 <->
  exists raw m, ReadFile manifest = inr raw /\ UnmarshalRelease raw = inr m /\ Assemble (rc_GeneratedAt m) bundleDir repoRoot = inr m.
Proof.
  intros Hm Hb Hr. unfold main. rewrite bool_decide_eq_false_2, bool_decide_eq_true_2 by done. unfold runVerify.
  set (parsed := parse_flags _ _ _).
  replace parsed with (inr (A := Z) (<[lit "repo-root" := repoRoot]> (<[lit "bundle-dir" := bundleDir]> (<[lit "manifest" := manifest]> (∅ : gmap bytes bytes))))) by reflexivity.
  unfold flag. rewrite lookup_insert_eq, (lookup_insert_ne _ (lit "repo-root") (lit "bundle-dir")), lookup_insert_eq by done.
  rewrite (lookup_insert_ne _ (lit "repo-root")), (lookup_insert_ne _ (lit "bundle-dir")), lookup_insert_eq by done. unfold default, id.
  rewrite !bool_decide_eq_false_2 by done. cbn [orb]. destruct (ReadFile manifest) as [e|raw]; [split; [done|by intros (? & ? & ? & _)]|].
  destruct (UnmarshalRelease raw) as [e|m] eqn:Hu; [split; [done|]; intros (? & ? & [= <-] & ? & _); congruence|].
  assert (Hv : Verify now bundleDir repoRoot (Some m) = None <-> Assemble (rc_GeneratedAt m) bundleDir repoRoot = inr m) by apply verify_fresh.
  destruct (Verify now bundleDir repoRoot (Some m)); split; [done| |intros _; exists raw, m; split_and!; [done..|by apply Hv]|done].
  intros (? & m' & [= <-] & Hm' & Ha). rewrite Hu in Hm'. injection Hm' as <-. by apply Hv in Ha.
Qed.
End gate.

(** ** A bundle that passes *)

(** An object built for an older system with [LC_VERSION_MIN_MACOSX], which otool
    reports as a version, is not seen beside one that reports a [minos]. *)
Example version_min_unseen :
  minos_values (lit "Load command 8
      cmd LC_BUILD_VERSION
    minos 14.0
      sdk 14.0
Load command 8
      cmd LC_VERSION_MIN_MACOSX
  version 10.9
      sdk 10.9") = [lit "14.0"].
Proof. by vm_compute. Qed.

Section toy.
Definition payload : bytes := lit "payload".

Definition toy_artifact (kind name : string) (archs : list bytes) : ArtifactManifest :=
  mkArtifact 1 (lit kind) (lit "/build/" ++ lit name) (hex_sha256 payload) (lit "v1.5.1") (lit "aa") (lit "beef") archs
    (lit "/build/sbom") (hex_sha256 payload) (lit "/build/prov") (hex_sha256 payload) (lit "then") [] [] (lit "14.0").

Definition toy_members : list File :=
  (fun name => mkFile name false false (inr (inr payload))) <$>
    (concat (bridge_members <$> RequiredApplePlatforms) ++ concat ((fun abi => abi_member abi <$> requiredAndroidLibraries) <$> RequiredAndroidABIs)).

Definition toy_contents (path : bytes) : bytes :=
  if HasSuffix path (lit "Package.release.swift") then
    swift ".binaryTarget(name: 'COpenFHEBridge', path: 'Artifacts/AresPrivacyCore.xcframework')"
  else if HasSuffix path (lit ".json") then path else payload.

#[local] Instance toy_system : System := {
  Lstat := fun _ => inr (mkMode false true 493);
  ReadFile := fun path => inr (toy_contents path);
  ReadDir := fun _ => inr [mkEntry (lit "b.staging-manifest.json") false; mkEntry (lit "a.staging-manifest.json") false; mkEntry (lit "x.zip") false];
  WriteFile := fun _ _ => None;
  git := fun _ args => inr (if bool_decide (head args = Some (lit "status")) then [] else lit "beef" ++ [newline]);
  archives := fun _ => inr toy_members;
  CreateTemp := None;
  CopyTemp := fun _ => None;
  CloseTemp := None;
  otool := fun _ => inr (lit " minos 14.0");
  GOOS := lit "darwin";
  UnmarshalArtifact := fun raw => inr
    (if HasSuffix raw (lit "a.staging-manifest.json") then toy_artifact "apple_xcframework" "apple.zip" RequiredApplePlatforms
     else toy_artifact "android_aar" "android.aar" RequiredAndroidABIs);
  UnmarshalPin := fun _ => inr (mkPin (lit "v1.5.1") (lit "aa") (lit "27"));
  UnmarshalTargetPin := fun _ => inr (lit "14.0");
  UnmarshalRelease := fun _ => inl EmptyString;
  MarshalRelease := fun _ => inr []
}.

(** The gate opens for it, and closes when one claim is changed. *)
Example toy_assembles :
  match Assemble (lit "now") (lit "/bundle") (lit "/repo") with
  | inl _ => False
  | inr m =>
    Verify (lit "later") (lit "/bundle") (lit "/repo") (Some m) = None /\
    Verify (lit "later") (lit "/bundle") (lit "/repo") (Some (m <| rc_OpenFHEVersion := lit "v1.5.2" |>)) = Some (DoesNotMatch (lit "/bundle") (lit "/repo"))
  end.
Proof. vm_compute. by split. Qed.
End toy.
End ReleaseBundle.
